(* ===== verification/_CoqProject ===== *)
-Q . S2P
Prelude.v
RlpEncode.v
RlpRaw.v
RlpStream.v
Helper.v
Keccak.v
Database.v
TrieEncoding.v
TrieNode.v
TrieTree.v
TrieStore.v
Trie.v
TrieSpec.v
TrieHash.v
TrieMap.v
TrieProof.v
SecureTrie.v
StateTrie.v
State.v
StateSpec.v
StateRefine.v
StateFlush.v
StateRoot.v
Transition.v
TransitionSpec.v
Types.v
TypesSpec.v
ChainDb.v
ChainDbSpec.v
Heap.v
TxList.v
TxListSpec.v
Signing.v
SigningSpec.v
Validator.v
ValidatorSpec.v
HeaderChain.v
HeaderChainSpec.v
Processor.v
ProcessorSpec.v
BlockChain.v
BlockChainSpec.v
BlockValidator.v
BlockValidatorSpec.v
ManagedState.v
TxPool.v
TxPoolSpec.v
