(* ===== verification/Prelude.v ===== *)
(** * Verification of the siotchain node

    The repository is a node of an account-based block chain (a fork of
    go-ethereum without its virtual machine).  This library models the data and
    consensus core of the node and proves it correct; the network, the wallet
    and the command line are not modelled.

    ** Parts of the program, and where they are

    - _RLP_, the wire and hash format (src/helper/rlp).  [RlpEncode]: the
      encoder buffer with its deferred list headers (encode.go), the reference
      encoding [enc] and that the two agree.  [RlpRaw]: the splitting functions
      of raw.go.  [RlpStream]: the pull parser and the reflection-driven decoders
      of decode.go; values of Go types are [rval], types are [rtype].
    - _Helpers_ (src/helper): [Helper], fixed-size hashes and addresses.
    - _Keccak_ (src/crypto/sha3, crypto.go): [Keccak], the unrolled permutation,
      the buffered sponge, and the class [Hash256] through which all other
      files see a hash function.
    - _Databases_ (src/database): [Database], the memory database and its
      batches, and the classes [Writer], [Database], [DatabaseLaws] through
      which other files see a database.
    - _Merkle-Patricia tries_ (src/trie): [TrieEncoding] (nibble keys),
      [TrieNode] (node codec), [Trie] (lookup, insertion, deletion, loading of
      nodes by hash), [TrieHash] (hashing, committing, opening), [TrieProof]
      (proofs), [SecureTrie] (hashed keys).  [TrieTree] has the abstract trees,
      with the canonical shape; [TrieStore] what it means that a database holds
      a tree; [TrieSpec] relates the nodes of the code to trees; [TrieMap] states
      the theorems.
    - _The state database_ (src/blockchainCore/state): [StateTrie] is the
      interface of the state to its tries, a class with laws and the instance
      of secure tries.  [State] has all of statedb.go, state_object.go and
      journal.go, as programs on a heap of account objects and tries, since the
      code holds pointers to both and shares them.  [StateSpec] has the abstract
      accounts, the invariant of the heap and what each operation does to them;
      [StateRefine] the simulation; [StateFlush] that flushing the changes to the
      tries keeps what every snapshot can still undo, and [StateRoot] the roots.
    - _State transitions_ (src/blockchainCore/state_transition.go, execution.go,
      gaspool.go, vm_env.go): [Transition] has the code, on the same heap;
      [TransitionSpec] a specification on abstract accounts and its properties.
    - _Consensus data_ (src/blockchainCore/types): [Types], headers, blocks,
      transactions, receipts, logs and bloom filters with their encodings and
      hashes; [TypesSpec], round trips and that hashes bind what they hash.
      [Signing] has the three transaction signers with the cache of senders and
      the checks around the curve library (src/crypto); [SigningSpec] its laws.
    - _The chain database_ (src/blockchainCore/database_util.go, genesis.go):
      [ChainDb], every reader, writer and deletion; [ChainDbSpec], that they act
      on a typed map of headers, bodies, receipts, transactions and pointers.
    - _Transaction lists_ (src/blockchainCore/tx_list.go): [Heap] has the loops of
      container/heap, [TxList] the nonce heap and the list on top of it,
      [TxListSpec] the map from nonces to transactions that they implement.
    - _The transaction pool_ (src/blockchainCore/tx_pool.go, and
      src/blockchainCore/state/managed_state.go): [ManagedState] has the nonces
      handed out on top of a state, seen through a class of which the abstract
      accounts are an instance; [TxPool] the pool of pending and queued lists
      with all its operations; [TxPoolSpec] its invariant and its theorems.
    - _Validation_ (src/blockchainCore/block_validator.go, dao.go): [Validator] has
      the rules for headers and the header the miner prepares (src/miner),
      [BlockValidator] those for blocks and uncles; [ValidatorSpec] and
      [BlockValidatorSpec] their theorems.
    - _The header chain_ (src/blockchainCore/headerchain.go): [HeaderChain], with
      its caches as a parameter; [HeaderChainSpec], with the typed map of the
      chain database as the state.
    - _Processing of blocks_ (src/blockchainCore/state_processor.go, dao.go):
      [Processor], with the check of the state after a block, and
      [ProcessorSpec].
    - _The block chain_ (src/blockchainCore/blockchain.go): [BlockChain], a header
      chain with blocks, bodies, the current block and the current fast block;
      [BlockChainSpec], on the same typed map.

    A block goes through them in the order [ValidateBlock], [Process],
    [ValidateState], [bc_WriteBlock]: validation reads ancestors from the block
    chain, processing changes the heap of the state database, whose roots are
    those of tries, and writing goes through the chain database to a key-value
    store.

    ** How the code is modelled

    A Go [[]byte] is a list of integers below 256; fixed-width integers are [Z]
    with the wrap-around written out; big integers are [Z].  A function that can
    fail returns an [outcome]: [Ok], [Err] with an error value, or [Panic] for a
    run-time panic, which the theorems exclude or characterise ([Panic] is also
    what a loop gives that runs out of fuel, so that a loop that never ends is
    described by its rounds, [runs_forever]).  Maps are finite
    maps; where the code ranges over a map, the order is a parameter of the
    definition.  Code with pointers (the state database) runs in a state monad
    over an explicit heap.  Code outside the repository is a parameter, with the
    facts the code relies on as hypotheses or class fields: a database that
    returns what was put in it, and a hash function without collisions on the
    inputs at hand.  Every such hypothesis has an instance ([keccak_hash],
    [MemDatabase_database], a toy curve, an LRU cache) that the witnesses use.
    The keys of the chain database are texts of different shapes; where the
    shapes overlap, the theorems name the keys in use.

    ** Fuel

    Recursion that Go does on a call stack takes fuel where it is not
    structural.  The trie walks use [enough key], which exceeds the number of
    nodes on any path of the key; the decoders use the length of the input plus
    the nesting of the type; the heap loops use the length of the heap; the
    searches back along a branch use the height of the block they start from
    (its number plus a constant); the rounds that cut pending lists use the length
    of a list.  The theorems state that this is enough: the
    results are proved total, not only that a result would be right.

    ** What the theorems show

    - RLP: encoding computes the reference format and decoding inverts it, on
      the values that [rt] names; Split and CountValues accept exactly the
      canonical encodings.
    - Keccak: the optimised permutation and sponge compute Keccak-256.
    - Tries: every sequence of operations acts like a finite map; the root
      hash depends only on the content and determines it up to collisions;
      committing and opening is the identity; proofs are complete and sound.
    - State: every sequence of queries, changes, snapshots and reverts acts like
      an abstract state of accounts that saves whole copies.
    - Transitions: the code refines its specification; gas is accounted for
      exactly, value is conserved up to the cases named in the theorem, balances
      stay natural numbers and a message is applied at most once, whatever
      messages follow it.
    - Roots: the state root succeeds in every reachable state and depends on the
      accounts only, whatever calls, reverts and map orders led to them.
    - Blocks: processing refines a relation with one rule per outcome of a
      transaction; it makes exactly the rewards and the gas of the receipts
      adds up; equal block hashes mean equal blocks up to collisions.
    - Signatures: the sender of a signed transaction is the address of its key
      and a signature for one chain is refused on the others.
    - Transaction lists: every sequence of operations acts like a map.
    - The pool: every reachable pool is consistent and no operation panics; what
      it gives to the miner can be executed; the limit on pending transactions
      cuts the long lists to a common level, the highest that fits.  The limits
      are those of a class [PoolLimits], with those of the source as an instance.
    - Chains: the database is a typed store; writing a header or a block keeps
      the canonical numbers those of the branch of the head, a reorganisation
      re-indexes the transactions, rewinding removes what it should; a
      block the miner prepares is accepted; uncles are accepted exactly by the
      rules.
    - Error paths: inputs on which the code panics, diverges or gives a wrong
      answer have theorems of their own.

    ** Not modelled

    The wire protocols, peer discovery, RPC, wallet, command line, logging and
    metrics are input and output over operating-system services and vendored
    libraries.  The arithmetic of the curve secp256k1 (a C library) and the proof
    of work are parameters.  The import loops of the chains
    ([InsertHeaderChain], [InsertChain], [InsertReceiptChain]) spread checks and
    writes over goroutines, and the loops of the transaction pool, the miner and
    the downloader are driven by timers and event feeds: of these the sequential
    operations they call are modelled, not the scheduling.  Goroutines and locks
    are left out: each modelled component is used under a lock of its owner, and
    the theorems are about one thread of operations. *)

From Stdlib Require Export ZArith Lia.
From stdpp Require Export base list gmap numbers fin_maps.

#[export] Set Warnings "-register-all".
#[global] Open Scope Z_scope.

(** ** Go values

    A Go [[]byte] is a list of integers; [byte_ok] says that one of them is an
    8-bit value.  Fixed-width integers are [Z] with the wrap-around written out
    by [u8], [u16], [u32] and [u64]. *)
Abbreviation bytes := (list Z).

Definition byte_ok (b : Z) : Prop := 0 <= b < 256.
Abbreviation bytes_ok := (Forall byte_ok).

(** A Go array of [n] bytes. *)
Definition word (n : nat) (b : bytes) : Prop := bytes_ok b /\ length b = n.

Definition u8 (z : Z) : Z := z mod 2 ^ 8.
Definition u16 (z : Z) : Z := z mod 2 ^ 16.
Definition u32 (z : Z) : Z := z mod 2 ^ 32.
Definition u64 (z : Z) : Z := z mod 2 ^ 64.

#[global] Arguments u8 : simpl never.
#[global] Arguments u16 : simpl never.
#[global] Arguments u32 : simpl never.
#[global] Arguments u64 : simpl never.

Abbreviation len b := (Z.of_nat (length b)).

(** Outcomes of Go code: a result, an error value, or a run-time panic. *)
Inductive outcome (E A : Type) : Type :=
| Ok (a : A)
| Err (e : E)
| Panic.
Arguments Ok {E A} _.
Arguments Err {E A} _.
Arguments Panic {E A}.

Declare Scope go_scope.
Delimit Scope go_scope with go.

Definition obind {E A B} (m : outcome E A) (f : A -> outcome E B) : outcome E B :=
  match m with Ok a => f a | Err e => Err e | Panic => Panic end.

Notation "'let*' p := m 'in' k" := (obind m (fun x => match x with p => k end))
  (at level 10, p pattern, m at level 100, k at level 200) : go_scope.
#[global] Open Scope go_scope.

(** [b[i]] of a slice: the run-time panics out of range. *)
Definition idx {E} (b : bytes) (i : nat) : outcome E Z :=
  match b !! i with Some x => Ok x | None => Panic end.

(** ** Tactics *)

(** Destruct the scrutinee of a [match] or [if] in the goal or a hypothesis. *)
Ltac case_all :=
  repeat match goal with
         | |- context [match ?x with _ => _ end] => destruct x eqn:?
         end.

Ltac case_hyp H :=
  repeat match type of H with
         | context [match ?x with _ => _ end] => destruct x eqn:?; try discriminate H
         end.

(** Turn boolean comparisons of the context into propositions. *)
Ltac bool_to_prop :=
  repeat match goal with
         | H : (_ && _) = true |- _ => apply andb_true_iff in H as [? ?]
         | H : (_ || _) = false |- _ => apply orb_false_iff in H as [? ?]
         | H : negb _ = true |- _ => apply negb_true_iff in H
         | H : negb _ = false |- _ => apply negb_false_iff in H
         | H : (_ <? _) = true |- _ => apply Z.ltb_lt in H
         | H : (_ <? _) = false |- _ => apply Z.ltb_ge in H
         | H : (_ <=? _) = true |- _ => apply Z.leb_le in H
         | H : (_ <=? _) = false |- _ => apply Z.leb_gt in H
         | H : (_ =? _) = true |- _ => apply Z.eqb_eq in H
         | H : (_ =? _) = false |- _ => apply Z.eqb_neq in H
         | H : bool_decide _ = true |- _ => apply bool_decide_eq_true in H
         | H : bool_decide _ = false |- _ => apply bool_decide_eq_false in H
         end.

(** [lia] with division and remainder by constants. *)
Ltac dlia := Z.to_euclidean_division_equations; lia.

(** Decide the integer tests of the goal that arithmetic settles. *)
Ltac ztests :=
  repeat match goal with
         | |- context [?a <? ?b] =>
             first [ rewrite (proj2 (Z.ltb_lt a b)) by lia | rewrite (proj2 (Z.ltb_ge a b)) by lia ]
         | |- context [?a <=? ?b] =>
             first [ rewrite (proj2 (Z.leb_le a b)) by lia | rewrite (proj2 (Z.leb_gt a b)) by lia ]
         | |- context [?a =? ?b] =>
             first [ rewrite (proj2 (Z.eqb_eq a b)) by lia | rewrite (proj2 (Z.eqb_neq a b)) by lia ]
         end.

Create HintDb siot.

(** ** Words *)

Lemma u8_ok z : byte_ok (u8 z).
Proof. unfold u8, byte_ok. apply Z.mod_pos_bound. lia. Qed.

Lemma u8_small z : byte_ok z -> u8 z = z.
Proof. unfold u8, byte_ok. intros. apply Z.mod_small. lia. Qed.

Lemma u64_small z : 0 <= z < 2 ^ 64 -> u64 z = z.
Proof. intros. apply Z.mod_small. done. Qed.

Lemma u64_range z : 0 <= u64 z < 2 ^ 64.
Proof. apply Z.mod_pos_bound. lia. Qed.

#[export] Hint Resolve u8_ok : siot.

(** ** Big-endian byte strings

    [big.Int.SetBytes] and [big.Int.Bytes] of the standard library: the value
    of a big-endian string, and the shortest such string of a value. *)
Definition SetBytes (b : bytes) : Z := foldl (fun acc x => acc * 256 + x) 0 b.

Fixpoint be_digits (fuel : nat) (z : Z) (acc : bytes) : bytes :=
  match fuel with
  | O => acc
  | S fuel => if z =? 0 then acc else be_digits fuel (z / 256) (z mod 256 :: acc)
  end.

Definition Bytes (z : Z) : bytes := be_digits (Z.to_nat (Z.log2 (Z.abs z) / 8 + 1)) (Z.abs z) [].

#[global] Arguments Bytes : simpl never.

Lemma foldl_be_shift (b : bytes) (a : Z) :
  foldl (fun acc x => acc * 256 + x) a b = a * 256 ^ len b + SetBytes b.
Proof.
  unfold SetBytes. revert a. induction b as [|x b IH]; intros a.
  - cbn. lia.
  - cbn [foldl length]. rewrite IH. rewrite (IH (0 * 256 + x)).
    replace (Z.of_nat (S (length b))) with (1 + len b) by lia.
    rewrite Z.pow_add_r by lia. change (256 ^ 1) with 256. ring.
Qed.

Lemma SetBytes_cons x b : SetBytes (x :: b) = x * 256 ^ len b + SetBytes b.
Proof. unfold SetBytes at 1. cbn [foldl]. rewrite foldl_be_shift. f_equal. Qed.

Lemma SetBytes_app a b : SetBytes (a ++ b) = SetBytes a * 256 ^ len b + SetBytes b.
Proof. unfold SetBytes at 1. rewrite foldl_app. rewrite foldl_be_shift. done. Qed.

Lemma SetBytes_snoc a x : SetBytes (a ++ [x]) = SetBytes a * 256 + x.
Proof. rewrite SetBytes_app. cbn. lia. Qed.

Lemma SetBytes_range b : bytes_ok b -> 0 <= SetBytes b < 256 ^ len b.
Proof.
  induction 1 as [|x b Hx Hb IH]; [cbn; lia|].
  rewrite SetBytes_cons. cbn [length].
  replace (Z.of_nat (S (length b))) with (1 + len b) by lia.
  rewrite Z.pow_add_r by lia. change (256 ^ 1) with 256. unfold byte_ok in Hx. nia.
Qed.

Lemma be_digits_value fuel z acc :
  0 <= z < 256 ^ Z.of_nat fuel ->
  SetBytes (be_digits fuel z acc) = z * 256 ^ len acc + SetBytes acc.
Proof.
  revert z acc. induction fuel as [|fuel IH]; intros z acc Hz.
  - change (256 ^ Z.of_nat 0) with 1 in Hz. cbn [be_digits].
    replace z with 0 by lia. ring.
  - cbn [be_digits]. destruct (Z.eqb_spec z 0) as [->|Hnz]; [ring|].
    rewrite IH.
    + rewrite SetBytes_cons. cbn [length].
      replace (Z.of_nat (S (length acc))) with (1 + len acc) by lia.
      rewrite Z.pow_add_r by lia. change (256 ^ 1) with 256.
      rewrite (Z.div_mod z 256) at 3 by lia. ring.
    + split; [apply Z.div_pos; lia|]. apply Z.div_lt_upper_bound; [lia|].
      replace (Z.of_nat (S fuel)) with (1 + Z.of_nat fuel) in Hz by lia.
      rewrite Z.pow_add_r in Hz by lia. change (256 ^ 1) with 256 in Hz. lia.
Qed.

Lemma Bytes_fuel z : 0 <= z -> z < 256 ^ Z.of_nat (Z.to_nat (Z.log2 z / 8 + 1)).
Proof.
  intros Hz. pose proof (Z.log2_nonneg z) as Hl.
  rewrite Z2Nat.id by dlia. change 256 with (2 ^ 8). rewrite <- Z.pow_mul_r by dlia.
  destruct (Z.eq_dec z 0) as [->|]; [by vm_compute|].
  assert (z < 2 ^ Z.succ (Z.log2 z)) by (apply Z.log2_spec; lia).
  eapply Z.lt_le_trans; [done|]. apply Z.pow_le_mono_r; dlia.
Qed.

(** [new(big.Int).SetBytes(z.Bytes())] is [z] for a non-negative [z]. *)
Lemma SetBytes_Bytes z : 0 <= z -> SetBytes (Bytes z) = z.
Proof.
  intros Hz. unfold Bytes. rewrite Z.abs_eq by done.
  rewrite be_digits_value; [cbn [length]; change (SetBytes []) with 0; rewrite Z.pow_0_r; lia|]. split; [done|by apply Bytes_fuel].
Qed.

Lemma be_digits_ok fuel z acc : bytes_ok acc -> bytes_ok (be_digits fuel z acc).
Proof.
  revert z acc. induction fuel as [|fuel IH]; intros z acc H; cbn; [done|].
  case_all; [done|]. apply IH. constructor; [|done].
  unfold byte_ok. apply Z.mod_pos_bound. lia.
Qed.

Lemma Bytes_ok z : bytes_ok (Bytes z).
Proof. apply be_digits_ok. constructor. Qed.
#[export] Hint Resolve Bytes_ok : siot.

(** The leading byte of [z.Bytes()] is never zero. *)
Lemma be_digits_head fuel z acc :
  0 < z < 256 ^ Z.of_nat fuel ->
  exists x r, be_digits fuel z acc = x :: r /\ x <> 0.
Proof.
  revert z acc. induction fuel as [|fuel IH]; intros z acc Hz.
  { change (256 ^ Z.of_nat 0) with 1 in Hz. lia. }
  cbn [be_digits]. destruct (Z.eqb_spec z 0); [lia|].
  destruct (Z.eq_dec (z / 256) 0) as [E|E].
  - exists (z mod 256), acc. rewrite E. split; [by destruct fuel|].
    pose proof (Z.div_mod z 256). lia.
  - apply IH. pose proof (Z.div_pos z 256). split; [lia|].
    apply Z.div_lt_upper_bound; [lia|].
    replace (Z.of_nat (S fuel)) with (1 + Z.of_nat fuel) in Hz by lia.
    rewrite Z.pow_add_r in Hz by lia. change (256 ^ 1) with 256 in Hz. lia.
Qed.

Lemma Bytes_head z : 0 < z -> exists x r, Bytes z = x :: r /\ x <> 0.
Proof.
  intros. unfold Bytes. rewrite Z.abs_eq by lia. apply be_digits_head.
  split; [done|]. apply Bytes_fuel. lia.
Qed.

Lemma SetBytes_inj a b :
  bytes_ok a -> bytes_ok b -> length a = length b -> SetBytes a = SetBytes b -> a = b.
Proof.
  intros Ha. revert b. induction Ha as [|x a Hx Ha IH]; intros [|y b] Hb L E; try done.
  inversion Hb as [|? ? Hy Hb']; subst. injection L as L.
  rewrite !SetBytes_cons in E. rewrite L in E.
  pose proof (SetBytes_range a Ha). pose proof (SetBytes_range b Hb').
  rewrite L in *. unfold byte_ok in *.
  assert (x = y) by nia. subst. f_equal. apply IH; auto. lia.
Qed.

(** A string without a leading zero is the shortest string of its value. *)
Lemma canonical_length a b :
  bytes_ok a -> bytes_ok b -> SetBytes a = SetBytes b ->
  (forall x r, a = x :: r -> x <> 0) -> (forall x r, b = x :: r -> x <> 0) ->
  (length a <= length b)%nat.
Proof.
  intros Ha Hb E Ha0 Hb0. destruct (decide (length a <= length b)%nat); [done|].
  exfalso. destruct a as [|x a]; [cbn in *; lia|].
  inversion Ha as [|? ? Hx Ha']; subst. specialize (Ha0 x a eq_refl).
  rewrite SetBytes_cons in E. pose proof (SetBytes_range b Hb) as Rb.
  pose proof (SetBytes_range a Ha') as Ra. cbn [length] in *.
  assert (256 ^ len b <= 256 ^ len a) by (apply Z.pow_le_mono_r; lia).
  unfold byte_ok in *. nia.
Qed.

Lemma Bytes_SetBytes b :
  bytes_ok b -> (forall x r, b = x :: r -> x <> 0) -> Bytes (SetBytes b) = b.
Proof.
  intros Hb Hh. pose proof (SetBytes_range b Hb) as R.
  assert (E : SetBytes (Bytes (SetBytes b)) = SetBytes b) by (apply SetBytes_Bytes; lia).
  assert (Hh' : forall x r, Bytes (SetBytes b) = x :: r -> x <> 0).
  { intros x r Hx. destruct (Z.eq_dec (SetBytes b) 0) as [Z0|Z0].
    - rewrite Z0 in Hx. discriminate.
    - destruct (Bytes_head (SetBytes b)) as (x' & r' & E' & N); [lia|]. congruence. }
  apply SetBytes_inj; auto with siot.
  apply Nat.le_antisymm; apply canonical_length; auto with siot.
Qed.

Lemma Bytes_length z n : 0 <= z < 256 ^ Z.of_nat n -> (length (Bytes z) <= n)%nat.
Proof.
  intros Hz. destruct (Z.eq_dec z 0) as [->|]; [apply Nat.le_0_l|].
  destruct (Bytes_head z) as (x & r & E & Hx); [lia|].
  pose proof (SetBytes_Bytes z ltac:(lia)) as V. pose proof (Bytes_ok z) as B.
  rewrite E in *. rewrite SetBytes_cons in V. inversion B as [|? ? Bx Br]; subst.
  pose proof (SetBytes_range r Br). cbn [length].
  destruct (decide (S (length r) <= n)%nat); [done|].
  assert (256 ^ Z.of_nat n <= 256 ^ len r) by (apply Z.pow_le_mono_r; lia).
  unfold byte_ok in *. nia.
Qed.

(** The [n] low bytes of an integer, most significant first. *)
Fixpoint be_fixed (n : nat) (i : Z) : bytes :=
  match n with
  | O => []
  | S n => u8 (Z.shiftr i (8 * Z.of_nat n)) :: be_fixed n i
  end.

Lemma be_fixed_length n i : length (be_fixed n i) = n.
Proof. induction n; cbn; congruence. Qed.

Lemma be_fixed_ok n i : bytes_ok (be_fixed n i).
Proof. induction n; cbn [be_fixed]; auto with siot. Qed.
#[export] Hint Resolve be_fixed_ok : siot.

Lemma SetBytes_be_fixed n i : SetBytes (be_fixed n i) = i mod 256 ^ Z.of_nat n.
Proof.
  induction n as [|n IH]; [symmetry; apply Z.mod_1_r|].
  cbn [be_fixed]. rewrite SetBytes_cons, be_fixed_length, IH.
  replace (Z.of_nat (S n)) with (Z.of_nat n + 1) by lia.
  rewrite Z.pow_add_r, Z.pow_1_r by lia.
  rewrite Z.rem_mul_r by (try apply Z.pow_nonzero; lia).
  unfold u8. rewrite Z.shiftr_div_pow2 by lia.
  change 256 with (2 ^ 8). rewrite <- !Z.pow_mul_r by lia. lia.
Qed.

Lemma be_fixed_Bytes n i :
  256 ^ Z.of_nat n <= i < 256 ^ Z.of_nat (S n) -> be_fixed (S n) i = Bytes i.
Proof.
  intros Hi. assert (0 < 256 ^ Z.of_nat n) by (apply Z.pow_pos_nonneg; lia).
  assert (V : SetBytes (be_fixed (S n) i) = i).
  { rewrite SetBytes_be_fixed. apply Z.mod_small. lia. }
  rewrite <- V at 2. symmetry. apply Bytes_SetBytes; [auto with siot|].
  intros x r E. cbn [be_fixed] in *. injection E as <- <-.
  rewrite SetBytes_cons, be_fixed_length, SetBytes_be_fixed in V.
  pose proof (Z.mod_pos_bound i (256 ^ Z.of_nat n)). nia.
Qed.

Lemma Bytes_snoc z : 0 < z -> Bytes z = Bytes (z / 256) ++ [z mod 256].
Proof.
  intros Hz. assert (0 <= z / 256) by dlia.
  rewrite <- (Bytes_SetBytes (Bytes (z / 256) ++ [z mod 256])).
  - rewrite SetBytes_snoc, SetBytes_Bytes by done. f_equal. dlia.
  - apply Forall_app. split; [auto with siot|]. repeat constructor; dlia.
  - intros x r E. destruct (Z.eq_dec (z / 256) 0) as [Z0|Z0].
    + rewrite Z0 in E. cbn in E. injection E as <- <-. dlia.
    + destruct (Bytes_head (z / 256)) as (y & q & Ey & Hy); [lia|].
      rewrite Ey in E. cbn in E. congruence.
Qed.

Lemma Bytes_length_step z : 0 < z -> len (Bytes z) = len (Bytes (z / 256)) + 1.
Proof. intros. rewrite Bytes_snoc by done. rewrite length_app. cbn. lia. Qed.

(** ** Bit operations *)

Lemma land_shiftl_small a b n : 0 <= n -> 0 <= b < 2 ^ n -> Z.land (Z.shiftl a n) b = 0.
Proof.
  intros Hn Hb. destruct (Z.eq_dec b 0) as [->|]; [apply Z.land_0_r|].
  apply Z.bits_inj'. intros i Hi. rewrite Z.land_spec, Z.bits_0.
  rewrite Z.shiftl_spec by done. destruct (Z.lt_ge_cases i n).
  - rewrite Z.testbit_neg_r by lia. done.
  - rewrite (Z.bits_above_log2 b); [apply andb_false_r|lia|].
    apply Z.log2_lt_pow2; [lia|]. eapply Z.lt_le_trans; [apply Hb|].
    apply Z.pow_le_mono_r; lia.
Qed.

(** [a<<n | b] is [a*2^n + b] when [b] fits into the [n] bits below. *)
Lemma lor_shiftl_small a b n : 0 <= n -> 0 <= b < 2 ^ n -> Z.lor (Z.shiftl a n) b = a * 2 ^ n + b.
Proof.
  intros Hn Hb. pose proof (land_shiftl_small a b n Hn Hb) as L.
  rewrite <- Z.lxor_lor, <- Z.add_nocarry_lxor, Z.shiftl_mul_pow2 by done. done.
Qed.

Lemma lor_add n x y : 0 <= n -> x mod 2 ^ n = 0 -> 0 <= y < 2 ^ n -> Z.lor x y = x + y.
Proof.
  intros Hn Hx Hy. assert (0 < 2 ^ n) by lia.
  assert (E : x = Z.shiftl (x / 2 ^ n) n).
  { rewrite Z.shiftl_mul_pow2 by done. pose proof (Z.div_mod x (2 ^ n)). lia. }
  rewrite E at 1. rewrite lor_shiftl_small by done. pose proof (Z.div_mod x (2 ^ n)). lia.
Qed.

(** ** Lists *)

Lemma take_lookup_total (b : bytes) n :
  (n <= length b)%nat -> take n b = map (fun i => b !!! i) (seq 0 n).
Proof.
  intros Hn. apply list_eq. intros i. rewrite list_lookup_fmap.
  destruct (decide (i < n)%nat) as [Hi|Hi].
  - rewrite lookup_take_lt, lookup_seq_lt by done. cbn.
    destruct (lookup_lt_is_Some_2 b i) as [x Hx]; [lia|].
    rewrite Hx. f_equal. symmetry. by apply list_lookup_total_correct.
  - rewrite lookup_take_ge by lia. rewrite lookup_seq_ge by lia. done.
Qed.

Lemma byte_ok_lookup (b : bytes) i : bytes_ok b -> (i < length b)%nat -> byte_ok (b !!! i).
Proof.
  intros Hb Hi. destruct (lookup_lt_is_Some_2 b i Hi) as [x Hx].
  rewrite (list_lookup_total_correct _ _ _ Hx). by eapply Forall_lookup_1.
Qed.

(** ** The hash function

    What the clients of [crypto.Keccak256] rely on: a digest is 32 bytes.
    Collision freedom is never assumed of the function as a whole (it is
    false); theorems that need it ask for it on the set of byte strings they
    mention ([collision_free]). *)
Class Hash256 := {
  Keccak256 : bytes -> bytes;
  Keccak256_length b : length (Keccak256 b) = 32%nat;
  Keccak256_ok b : bytes_ok (Keccak256 b)
}.

Definition collision_free `{Hash256} (U : bytes -> Prop) : Prop :=
  forall a b, U a -> U b -> Keccak256 a = Keccak256 b -> a = b.

#[export] Hint Resolve @Keccak256_ok : siot.
