(* ===== verification/RlpEncode.v ===== *)
(** * RLP encoding (src/helper/rlp/encode.go)

    The encoder of package rlp: the integer and header writers, the buffer
    [encbuf] that collects string data and list headers apart, the writers the
    type cache generates, and the flattening of the buffer into bytes.  The Go
    type of a value is a code of the universe [rtype], its reflected value an
    [rval].  The reference encoding [enc] is the recursive definition of RLP;
    [writer_extends] relates the buffer to it. *)

From S2P Require Import Prelude.

(** ** Integers and headers *)

Fixpoint intsize_loop (fuel : nat) (i size : Z) : Z :=
  match fuel with
  | O => size
  | S fuel =>
      let i := Z.shiftr i 8 in
      if i =? 0 then size else intsize_loop fuel i (size + 1)
  end.

(** A [uint64] is shifted to zero after at most eight rounds. *)
Definition intsize (i : Z) : Z := intsize_loop 8 i 1.

(** [putint] with its result, the bytes written at the start of the buffer. *)
Definition putint (i : Z) : bytes :=
  if i <? Z.shiftl 1 8 then [u8 i]
  else if i <? Z.shiftl 1 16 then [u8 (Z.shiftr i 8); u8 i]
  else if i <? Z.shiftl 1 24 then [u8 (Z.shiftr i 16); u8 (Z.shiftr i 8); u8 i]
  else if i <? Z.shiftl 1 32 then
    [u8 (Z.shiftr i 24); u8 (Z.shiftr i 16); u8 (Z.shiftr i 8); u8 i]
  else if i <? Z.shiftl 1 40 then
    [u8 (Z.shiftr i 32); u8 (Z.shiftr i 24); u8 (Z.shiftr i 16); u8 (Z.shiftr i 8); u8 i]
  else if i <? Z.shiftl 1 48 then
    [u8 (Z.shiftr i 40); u8 (Z.shiftr i 32); u8 (Z.shiftr i 24); u8 (Z.shiftr i 16);
     u8 (Z.shiftr i 8); u8 i]
  else if i <? Z.shiftl 1 56 then
    [u8 (Z.shiftr i 48); u8 (Z.shiftr i 40); u8 (Z.shiftr i 32); u8 (Z.shiftr i 24);
     u8 (Z.shiftr i 16); u8 (Z.shiftr i 8); u8 i]
  else
    [u8 (Z.shiftr i 56); u8 (Z.shiftr i 48); u8 (Z.shiftr i 40); u8 (Z.shiftr i 32);
     u8 (Z.shiftr i 24); u8 (Z.shiftr i 16); u8 (Z.shiftr i 8); u8 i].

Definition headsize (size : Z) : Z := if size <? 56 then 1 else 1 + intsize size.

Definition puthead (smalltag largetag size : Z) : bytes :=
  if size <? 56 then [u8 (smalltag + u8 size)]
  else let b := putint size in u8 (largetag + u8 (len b)) :: b.

#[global] Arguments intsize : simpl never.
#[global] Arguments putint : simpl never.
#[global] Arguments puthead : simpl never.

(** [ListSize] of raw.go. *)
Definition ListSize (contentSize : Z) : Z := u64 (headsize contentSize + contentSize).

(** ** The encoder buffer *)

Record listhead := { offset : Z; lh_size : Z }.
Record encbuf := { str : bytes; lheads : list listhead; lhsize : Z }.

Inductive encode_error := ErrNegativeBigInt.

Definition encbuf_reset (w : encbuf) : encbuf := {| str := []; lheads := []; lhsize := 0 |}.
Definition new_encbuf : encbuf := {| str := []; lheads := []; lhsize := 0 |}.

Definition Write (b : bytes) (w : encbuf) : encbuf :=
  {| str := str w ++ b; lheads := lheads w; lhsize := lhsize w |}.

Definition listhead_encode (h : listhead) : bytes := puthead 0xC0 0xF7 (lh_size h).

Definition encodeStringHeader (size : Z) (w : encbuf) : encbuf :=
  if size <? 56 then Write [u8 (0x80 + u8 size)] w
  else let b := putint size in Write (u8 (0xB7 + u8 (len b)) :: b) w.

Definition encodeString (b : bytes) (w : encbuf) : encbuf :=
  match b with
  | [x] => if x <=? 0x7F then Write [x] w else Write b (encodeStringHeader (len b) w)
  | _ => Write b (encodeStringHeader (len b) w)
  end.

Definition encbuf_size (w : encbuf) : Z := len (str w) + lhsize w.

(** [list] appends a header and returns the pointer to it, its index here. *)
Definition encbuf_list (w : encbuf) : nat * encbuf :=
  (length (lheads w),
   {| str := str w;
      lheads := lheads w ++ [{| offset := len (str w); lh_size := lhsize w |}];
      lhsize := lhsize w |}).

Definition listEnd (lh : nat) (w : encbuf) : encbuf :=
  match lheads w !! lh with
  | None => w
  | Some h =>
      let size := encbuf_size w - offset h - lh_size h in
      {| str := str w;
         lheads := <[lh := {| offset := offset h; lh_size := size |}]> (lheads w);
         lhsize := lhsize w + (if size <? 56 then 1 else 1 + intsize size) |}
  end.

(** The flattened buffer: string data up to each header's offset, then the
    header.  [toBytes] is shown to compute it. *)
Fixpoint render (strpos : Z) (hs : list listhead) (rest : bytes) : bytes :=
  match hs with
  | [] => rest
  | h :: hs =>
      let n := Z.to_nat (offset h - strpos) in
      take n rest ++ listhead_encode h ++ render (strpos + len (take n rest)) hs (drop n rest)
  end.

(** Go's [copy(out[pos:], src)]: as many bytes as fit, and how many that were. *)
Definition copy_at (out : bytes) (pos : Z) (src : bytes) : Z * bytes :=
  let n := Z.min (len out - pos) (len src) in
  (n, take (Z.to_nat pos) out ++ take (Z.to_nat n) src ++ drop (Z.to_nat (pos + n)) out).

(** The loop over the headers.  Slicing [str] or [out] out of bounds panics, and
    so does a header that does not fit into what is left of [out]. *)
Fixpoint toBytes_loop (s : bytes) (hs : list listhead) (out : bytes) (strpos pos : Z)
    : outcome encode_error bytes :=
  match hs with
  | [] =>
      if (len out <? pos) || (len s <? strpos) then Panic
      else Ok (copy_at out pos (drop (Z.to_nat strpos) s)).2
  | h :: hs =>
      if (len out <? pos) || (offset h <? strpos) || (len s <? offset h) then Panic
      else
        let '(n, out) := copy_at out pos
          (take (Z.to_nat (offset h - strpos)) (drop (Z.to_nat strpos) s)) in
        let pos := pos + n in
        let strpos := strpos + n in
        let enc := listhead_encode h in
        if len out <? pos + len enc then Panic
        else let '(_, out) := copy_at out pos enc in
             toBytes_loop s hs out strpos (pos + len enc)
  end.

(** [toBytes] allocates [size] zero bytes and fills them. *)
Definition toBytes (w : encbuf) : outcome encode_error bytes :=
  toBytes_loop (str w) (lheads w) (replicate (Z.to_nat (encbuf_size w)) 0) 0 0.

(** ** Types and values *)

Inductive rtype : Type :=
| TRawValue
| TBigInt
| TUint (bits : Z)
| TBool
| TString
| TBytes
| TByteArray (n : nat)
| TSlice (tail : bool) (elem : rtype)
| TArray (n : nat) (elem : rtype)
| TStruct (fields : list rtype)
| TPtr (nilOK : bool) (elem : rtype)
| TInterface.

Inductive rval : Type :=
| VBytes (b : bytes)
| VInt (z : Z)
| VBool (b : bool)
| VList (vs : list rval)
| VNil
| VPtr (v : rval)
| VIface (t : rtype) (v : rval).

(** Whether the elements of a slice or an array are bytes: such a value is
    written as one string, whatever the tags, and is a [VBytes] here.  [TBytes]
    and [TByteArray] are these types under a name. *)
Definition isByte (e : rtype) : bool := match e with TUint bits => bits =? 8 | _ => false end.

Definition writeUint (i : Z) (w : encbuf) : encbuf :=
  if i =? 0 then Write [0x80] w
  else if i <? 128 then Write [u8 i] w
  else let b := putint i in Write (u8 (0x80 + u8 (len b)) :: b) w.

Definition writeBool (b : bool) (w : encbuf) : encbuf := Write [if b then 0x01 else 0x80] w.

Definition writeBigInt (i : Z) (w : encbuf) : outcome encode_error encbuf :=
  if i <? 0 then Err ErrNegativeBigInt
  else if i =? 0 then Ok (Write [0x80] w)
  else Ok (encodeString (Bytes i) w).

(** A Go string is written like a byte slice, through its own copy of the
    single-byte case. *)
Definition writeString (s : bytes) (w : encbuf) : encbuf :=
  if match s with [x] => x <=? 0x7f | _ => false end
  then Write (take 1 s) w
  else Write s (encodeStringHeader (len s) w).

(** What a nil pointer to a value of type [e] writes: an empty string or list
    for arrays and structs, the zero value of the other types. *)
Fixpoint nilfunc (e : rtype) (w : encbuf) : encbuf :=
  match e with
  | TByteArray _ => Write [0x80] w
  | TArray _ e =>
      if isByte e then Write [0x80] w
      else let '(lh, w) := encbuf_list w in listEnd lh w
  | TStruct _ => let '(lh, w) := encbuf_list w in listEnd lh w
  | TRawValue => w
  | TBigInt => Write [0x80] w
  | TUint _ => writeUint 0 w
  | TBool => writeBool false w
  | TString => writeString [] w
  | TBytes => encodeString [] w
  | TSlice tail e =>
      if isByte e then encodeString [] w
      else if tail then w
      else let '(lh, w) := encbuf_list w in listEnd lh w
  | TPtr _ e => nilfunc e w
  | TInterface => Write [0xC0] w
  end.

(** The writer the type cache generates for a type ([makeWriter]), applied to
    a value.  A value that is not of the type makes reflection panic. *)
Fixpoint writer (v : rval) (t : rtype) (w : encbuf) {struct v} : outcome encode_error encbuf :=
  match t, v with
  | TRawValue, VBytes b => Ok (Write b w)
  | TBigInt, VNil => Ok (Write [0x80] w)
  | TBigInt, VInt z => writeBigInt z w
  | TUint _, VInt z => Ok (writeUint z w)
  | TBool, VBool b => Ok (writeBool b w)
  | TString, VBytes s => Ok (writeString s w)
  | TBytes, VBytes b => Ok (encodeString b w)
  | TByteArray _, VBytes b => Ok (encodeString b w)
  | TSlice _ e, VBytes b | TArray _ e, VBytes b => if isByte e then Ok (encodeString b w) else Panic
  | TSlice tail e, VList vs =>
      if isByte e then Panic else
      let elems := fix elems (vs : list rval) (w : encbuf) : outcome encode_error encbuf :=
        match vs with
        | [] => Ok w
        | v :: vs => let* w := writer v e w in elems vs w
        end in
      if tail then elems vs w
      else let '(lh, w) := encbuf_list w in
           let* w := elems vs w in Ok (listEnd lh w)
  | TArray _ e, VList vs =>
      if isByte e then Panic else
      let elems := fix elems (vs : list rval) (w : encbuf) : outcome encode_error encbuf :=
        match vs with
        | [] => Ok w
        | v :: vs => let* w := writer v e w in elems vs w
        end in
      let '(lh, w) := encbuf_list w in
      let* w := elems vs w in Ok (listEnd lh w)
  | TStruct fs, VList vs =>
      let fields := fix fields (vs : list rval) (fs : list rtype) (w : encbuf)
          : outcome encode_error encbuf :=
        match vs, fs with
        | [], [] => Ok w
        | v :: vs, f :: fs => let* w := writer v f w in fields vs fs w
        | _, _ => Panic
        end in
      let '(lh, w) := encbuf_list w in
      let* w := fields vs fs w in Ok (listEnd lh w)
  | TPtr _ e, VPtr v => writer v e w
  | TPtr _ e, VNil => Ok (nilfunc e w)
  | TInterface, VNil => Ok (Write [0xC0] w)
  | TInterface, VIface t v => writer v t w
  | _, _ => Panic
  end.

Definition EncodeToBytes (t : rtype) (v : rval) : outcome encode_error bytes :=
  let* w := writer v t (encbuf_reset new_encbuf) in toBytes w.

(** ** The reference encoding *)

Definition head_bytes (small large size : Z) : bytes :=
  if size <? 56 then [small + size] else (large + len (Bytes size)) :: Bytes size.

Definition enc_string (b : bytes) : bytes :=
  match b with
  | [x] => if x <? 128 then [x] else head_bytes 0x80 0xB7 1 ++ b
  | _ => head_bytes 0x80 0xB7 (len b) ++ b
  end.

Definition enc_list (payload : bytes) : bytes := head_bytes 0xC0 0xF7 (len payload) ++ payload.

Fixpoint enc_nil (e : rtype) : bytes :=
  match e with
  | TArray _ e => if isByte e then enc_string [] else enc_list []
  | TSlice tail e => if isByte e then enc_string [] else if tail then [] else enc_list []
  | TStruct _ => enc_list []
  | TRawValue => []
  | TPtr _ e => enc_nil e
  | TInterface => enc_list []
  | _ => enc_string []
  end.

Fixpoint enc (v : rval) (t : rtype) {struct v} : bytes :=
  match t, v with
  | TRawValue, VBytes b => b
  | TBigInt, VNil => enc_string []
  | TBigInt, VInt z | TUint _, VInt z => enc_string (Bytes z)
  | TBool, VBool b => enc_string (if b then [1] else [])
  | TString, VBytes b | TBytes, VBytes b | TByteArray _, VBytes b
  | TSlice _ _, VBytes b | TArray _ _, VBytes b => enc_string b
  | TSlice tail e, VList vs =>
      let payload := concat (map (fun v => enc v e) vs) in if tail then payload else enc_list payload
  | TArray _ e, VList vs => enc_list (concat (map (fun v => enc v e) vs))
  | TStruct fs, VList vs => enc_list (concat (zip_with (fun v f => enc v f) vs fs))
  | TPtr _ e, VPtr v => enc v e
  | TPtr _ e, VNil => enc_nil e
  | TInterface, VNil => enc_list []
  | TInterface, VIface t v => enc v t
  | _, _ => []
  end.

(** [wt v t]: the value inhabits the Go type, and can be encoded. *)
Fixpoint wt (v : rval) (t : rtype) {struct v} : Prop :=
  match t, v with
  | TRawValue, VBytes b | TString, VBytes b | TBytes, VBytes b => bytes_ok b
  | TByteArray n, VBytes b => bytes_ok b /\ length b = n
  | TBigInt, VNil => True
  | TBigInt, VInt z => 0 <= z
  | TUint bits, VInt z => (bits = 8 \/ bits = 16 \/ bits = 32 \/ bits = 64) /\ 0 <= z < 2 ^ bits
  | TBool, VBool _ => True
  | TSlice _ e, VBytes b => isByte e = true /\ bytes_ok b
  | TArray n e, VBytes b => isByte e = true /\ bytes_ok b /\ length b = n
  | TSlice _ e, VList vs => isByte e = false /\ foldr (fun v P => wt v e /\ P) True vs
  | TArray n e, VList vs => isByte e = false /\ length vs = n /\ foldr (fun v P => wt v e /\ P) True vs
  | TStruct fs, VList vs =>
      (fix go (vs : list rval) (fs : list rtype) : Prop :=
         match vs, fs with
         | [], [] => True
         | v :: vs, f :: fs => wt v f /\ go vs fs
         | _, _ => False
         end) vs fs
  | TPtr _ e, VPtr v => wt v e
  | TPtr _ e, VNil => True
  | TInterface, VNil => True
  | TInterface, VIface t v => wt v t
  | _, _ => False
  end.

(** Induction over values, through the lists inside them. *)
Section rval_induction.
Context (P : rval -> Prop).
Hypothesis Hbytes : forall b, P (VBytes b).
Hypothesis Hint : forall z, P (VInt z).
Hypothesis Hbool : forall b, P (VBool b).
Hypothesis Hlist : forall vs, Forall P vs -> P (VList vs).
Hypothesis Hnil : P VNil.
Hypothesis Hptr : forall v, P v -> P (VPtr v).
Hypothesis Hiface : forall t v, P v -> P (VIface t v).

Fixpoint rval_nested_ind (v : rval) : P v :=
  match v with
  | VBytes b => Hbytes b
  | VInt z => Hint z
  | VBool b => Hbool b
  | VList vs =>
      Hlist vs ((fix go vs : Forall P vs :=
        match vs with
        | [] => Forall_nil_2 P
        | v :: vs => Forall_cons_2 P v vs (rval_nested_ind v) (go vs)
        end) vs)
  | VNil => Hnil
  | VPtr v => Hptr v (rval_nested_ind v)
  | VIface t v => Hiface t v (rval_nested_ind v)
  end.
End rval_induction.

(** ** Integers and headers agree with the reference *)

Lemma putint_Bytes i : 0 < i < 2 ^ 64 -> putint i = Bytes i.
Proof.
  intros Hi. unfold putint. rewrite !Z.shiftl_1_l.
  repeat match goal with
         | |- context [?a <? ?b] => destruct (Z.ltb_spec a b)
         end;
  match goal with
  | |- [_] = _ => destruct (Z.ltb_spec i 1); [lia|]; apply (be_fixed_Bytes 0)
  | |- [_; _] = _ => apply (be_fixed_Bytes 1)
  | |- [_; _; _] = _ => apply (be_fixed_Bytes 2)
  | |- [_; _; _; _] = _ => apply (be_fixed_Bytes 3)
  | |- [_; _; _; _; _] = _ => apply (be_fixed_Bytes 4)
  | |- [_; _; _; _; _; _] = _ => apply (be_fixed_Bytes 5)
  | |- [_; _; _; _; _; _; _] = _ => apply (be_fixed_Bytes 6)
  | |- _ => apply (be_fixed_Bytes 7)
  end; cbn; lia.
Qed.

Lemma Bytes_length_64 z : 0 <= z < 2 ^ 64 -> (length (Bytes z) <= 8)%nat.
Proof. intros. apply Bytes_length. cbn. lia. Qed.

Lemma intsize_loop_length fuel i s :
  0 < i < 256 ^ Z.of_nat fuel -> intsize_loop fuel i s = s - 1 + len (Bytes i).
Proof.
  revert i s. induction fuel as [|fuel IH]; intros i s Hi.
  { change (256 ^ Z.of_nat 0) with 1 in Hi. lia. }
  cbn [intsize_loop]. rewrite Z.shiftr_div_pow2 by lia. change (2 ^ 8) with 256.
  rewrite Bytes_length_step by lia. destruct (Z.eqb_spec (i / 256) 0) as [E|E].
  - rewrite E. change (Bytes 0) with (@nil Z). cbn. lia.
  - replace (Z.of_nat (S fuel)) with (1 + Z.of_nat fuel) in Hi by lia.
    rewrite Z.pow_add_r, Z.pow_1_r in Hi by lia. rewrite IH; dlia.
Qed.

Lemma intsize_length i : 0 < i < 2 ^ 64 -> intsize i = len (Bytes i).
Proof. intros. unfold intsize. rewrite intsize_loop_length; [lia|]. done. Qed.

Lemma puthead_ref small large size :
  0 <= size < 2 ^ 64 -> 0 <= small <= 0xC0 -> 0 <= large <= 0xF7 ->
  puthead small large size = head_bytes small large size.
Proof.
  intros Hs Hsm Hl. unfold puthead, head_bytes.
  destruct (Z.ltb_spec size 56).
  - rewrite !u8_small; [done| |]; unfold byte_ok; rewrite ?u8_small; unfold byte_ok; lia.
  - rewrite putint_Bytes by lia. pose proof (Bytes_length_64 size Hs).
    rewrite !u8_small; [done| |]; unfold byte_ok; rewrite ?u8_small; unfold byte_ok; lia.
Qed.

Lemma headsize_ref size :
  0 <= size < 2 ^ 64 -> forall small large, headsize size = len (head_bytes small large size).
Proof.
  intros Hs small large. unfold headsize, head_bytes.
  destruct (Z.ltb_spec size 56); [done|]. rewrite intsize_length by lia. cbn. lia.
Qed.

(** ** Buffers *)

(** [w'] extends [w] by data whose flattened form is [out]. *)
Inductive heads_ok : Z -> list listhead -> Z -> Prop :=
| heads_nil p q : p <= q -> heads_ok p [] q
| heads_cons p h hs q :
    p <= offset h -> heads_ok (offset h) hs q -> heads_ok p (h :: hs) q.

Definition extends (w w' : encbuf) (out : bytes) : Prop :=
  exists s hs,
    str w' = str w ++ s /\ lheads w' = lheads w ++ hs /\
    lhsize w' + len s = lhsize w + len out /\
    heads_ok (len (str w)) hs (len (str w) + len s) /\
    render (len (str w)) hs s = out.

Lemma heads_ok_le p hs q : heads_ok p hs q -> p <= q.
Proof. induction 1; lia. Qed.

Lemma heads_ok_app p hs1 q hs2 r :
  heads_ok p hs1 q -> heads_ok q hs2 r -> heads_ok p (hs1 ++ hs2) r.
Proof.
  induction 1 as [p q Hpq|p h hs q Hp Hh IH]; intros H2; cbn.
  - inversion H2; subst; constructor; (lia || done).
  - constructor; auto.
Qed.

Lemma render_prefix p hs s1 s2 q :
  heads_ok (p + len s1) hs q -> render p hs (s1 ++ s2) = s1 ++ render (p + len s1) hs s2.
Proof.
  intros H. destruct hs as [|h hs]; [done|]. inversion H as [|p0 h0 hs0 q0 Hp Hh]; subst.
  cbn [render].
  set (n := Z.to_nat (offset h - p)).
  replace (Z.to_nat (offset h - (p + len s1))) with (n - length s1)%nat by lia.
  rewrite (take_app_ge s1) by lia. rewrite (drop_app_ge s1) by lia.
  rewrite <- app_assoc, length_app, Nat2Z.inj_add, Z.add_assoc. done.
Qed.

Lemma render_app p hs1 s1 hs2 s2 q :
  heads_ok p hs1 (p + len s1) -> heads_ok (p + len s1) hs2 q ->
  render p (hs1 ++ hs2) (s1 ++ s2) = render p hs1 s1 ++ render (p + len s1) hs2 s2.
Proof.
  revert p s1. induction hs1 as [|h hs1 IH]; intros p s1 H1 H2; cbn [app render].
  - by eapply render_prefix.
  - inversion H1 as [|p0 h0 hs0 q0 Hp Hh]; subst.
    pose proof (heads_ok_le _ _ _ Hh). set (n := Z.to_nat (offset h - p)).
    assert (n <= length s1)%nat by lia.
    rewrite (take_app_le s1), (drop_app_le s1) by done. rewrite <- !app_assoc.
    assert (E : p + len (take n s1) = offset h) by (rewrite length_take; lia).
    assert (E' : offset h + len (drop n s1) = p + len s1) by (rewrite length_drop; lia).
    rewrite E, (IH (offset h) (drop n s1)); rewrite E'; done.
Qed.

Lemma extends_refl w : extends w w [].
Proof.
  exists [], []. rewrite !app_nil_r. cbn. repeat split; try lia. constructor. lia.
Qed.

Lemma extends_trans w w1 w2 o1 o2 :
  extends w w1 o1 -> extends w1 w2 o2 -> extends w w2 (o1 ++ o2).
Proof.
  intros (s1 & hs1 & S1 & H1 & L1 & O1 & R1) (s2 & hs2 & S2 & H2 & L2 & O2 & R2).
  rewrite S1, length_app, Nat2Z.inj_add in O2, R2.
  exists (s1 ++ s2), (hs1 ++ hs2). rewrite S2, S1, H2, H1, <- !app_assoc.
  rewrite !length_app, !Nat2Z.inj_add. repeat split; [lia| |].
  - eapply heads_ok_app; [done|]. by rewrite Z.add_assoc.
  - erewrite render_app; [by rewrite R1, R2|done|done].
Qed.

Lemma extends_write b w : extends w (Write b w) b.
Proof.
  exists b, []. cbn. rewrite app_nil_r. repeat split; try lia. constructor. lia.
Qed.

Lemma extends_list w w' payload :
  len payload < 2 ^ 64 ->
  extends (encbuf_list w).2 w' payload ->
  extends w (listEnd (encbuf_list w).1 w') (enc_list payload).
Proof.
  intros Hlen (s & hs & S & H & L & O & R). cbn in S, H, L, O, R |- *.
  rewrite <- app_assoc in H. cbn in H.
  unfold listEnd. rewrite H, lookup_app_r, Nat.sub_diag by lia. cbn.
  unfold encbuf_size. cbn [offset lh_size].
  replace (len (str w') + lhsize w' - len (str w) - lhsize w) with (len payload)
    by (rewrite S, length_app; lia).
  exists s, ({| offset := len (str w); lh_size := len payload |} :: hs). cbn.
  rewrite insert_app_r_alt, Nat.sub_diag by lia. cbn. split; [done|].
  split; [done|]. split.
  - unfold enc_list. rewrite length_app, Nat2Z.inj_add.
    pose proof (headsize_ref (len payload) ltac:(lia) 0xC0 0xF7) as E.
    unfold headsize in E. rewrite E. lia.
  - split; [constructor; [cbn; lia|done]|].
    replace (Z.to_nat (len (str w) - len (str w))) with 0%nat by lia. rewrite take_0, drop_0. cbn.
    rewrite Z.add_0_r, R. unfold listhead_encode. cbn. rewrite puthead_ref by lia. done.
Qed.

(** ** The writers agree with the reference *)

Lemma encodeStringHeader_ref size w :
  0 <= size < 2 ^ 64 -> encodeStringHeader size w = Write (head_bytes 0x80 0xB7 size) w.
Proof.
  intros. rewrite <- puthead_ref by lia. unfold encodeStringHeader, puthead. by case_all.
Qed.

Lemma encodeString_extends b w : len b < 2 ^ 64 -> extends w (encodeString b w) (enc_string b).
Proof.
  intros Hb. unfold encodeString, enc_string.
  assert (G : extends w (Write b (encodeStringHeader (len b) w)) (head_bytes 0x80 0xB7 (len b) ++ b)).
  { rewrite encodeStringHeader_ref by lia. eapply extends_trans; apply extends_write. }
  destruct b as [|x [|y b]]; [exact G| |exact G].
  destruct (Z.leb_spec x 0x7F), (Z.ltb_spec x 128); try lia; [apply extends_write|exact G].
Qed.

Lemma writeString_encodeString s w : writeString s w = encodeString s w.
Proof. unfold writeString, encodeString. destruct s as [|x [|y s]]; cbn; [done|by case_all|done]. Qed.

Lemma enc_string_Bytes_small i : 0 < i < 128 -> enc_string (Bytes i) = [i].
Proof.
  intros. rewrite Bytes_snoc by lia. replace (i / 256) with 0 by dlia.
  change (Bytes 0) with (@nil Z). cbn.
  rewrite Z.mod_small by lia. destruct (Z.ltb_spec i 128); [done|lia].
Qed.

Lemma writeUint_extends i w : 0 <= i < 2 ^ 64 -> extends w (writeUint i w) (enc_string (Bytes i)).
Proof.
  intros Hi. unfold writeUint. destruct (Z.eqb_spec i 0) as [->|]; [apply extends_write|].
  destruct (Z.ltb_spec i 128).
  - rewrite enc_string_Bytes_small, u8_small by (unfold byte_ok; lia). apply extends_write.
  - replace (Write _ w) with (encodeString (Bytes i) w);
      [apply encodeString_extends; pose proof (Bytes_length_64 i); lia|].
    rewrite putint_Bytes by lia. pose proof (Bytes_length_64 i Hi).
    assert (B : encodeString (Bytes i) w = Write (Bytes i) (encodeStringHeader (len (Bytes i)) w)).
    { unfold encodeString. destruct (Bytes i) as [|x [|y b]] eqn:E; try done.
      destruct (Z.leb_spec x 0x7F); [|done]. exfalso.
      pose proof (SetBytes_Bytes i). rewrite E in *. unfold SetBytes in *. cbn in *. lia. }
    rewrite B, encodeStringHeader_ref by lia. unfold head_bytes, Write. cbn.
    destruct (Z.ltb_spec (len (Bytes i)) 56); [|lia]. rewrite <- app_assoc. cbn.
    rewrite !u8_small; [done| |]; unfold byte_ok; rewrite ?u8_small; unfold byte_ok; lia.
Qed.

(** The loops of [writer] under names. *)
Definition write_elems (e : rtype) : list rval -> encbuf -> outcome encode_error encbuf :=
  fix elems vs w :=
    match vs with
    | [] => Ok w
    | v :: vs => let* w := writer v e w in elems vs w
    end.

Definition write_fields : list rval -> list rtype -> encbuf -> outcome encode_error encbuf :=
  fix fields vs fs w :=
    match vs, fs with
    | [], [] => Ok w
    | v :: vs, f :: fs => let* w := writer v f w in fields vs fs w
    | _, _ => Panic
    end.

Definition wt_fields : list rval -> list rtype -> Prop :=
  fix go vs fs :=
    match vs, fs with
    | [], [] => True
    | v :: vs, f :: fs => wt v f /\ go vs fs
    | _, _ => False
    end.

(** [writer v t] appends [enc v t] to any buffer. *)
Definition writes (v : rval) : Prop :=
  forall t w, wt v t -> len (enc v t) < 2 ^ 64 ->
  exists w', writer v t w = Ok w' /\ extends w w' (enc v t).

Lemma write_elems_extends e vs w :
  Forall writes vs -> foldr (fun v P => wt v e /\ P) True vs ->
  len (concat (map (fun v => enc v e) vs)) < 2 ^ 64 ->
  exists w', write_elems e vs w = Ok w' /\ extends w w' (concat (map (fun v => enc v e) vs)).
Proof.
  intros F. revert w. induction F as [|v vs Hv F IH]; intros w W L; cbn in *.
  - exists w. split; [done|apply extends_refl].
  - rewrite length_app in L. destruct W as [Wv Wvs].
    destruct (Hv e w) as (w1 & E1 & X1); [done|lia|].
    destruct (IH w1) as (w2 & E2 & X2); [done|lia|].
    exists w2. rewrite E1. cbn. split; [done|by eapply extends_trans].
Qed.

Lemma write_fields_extends vs fs w :
  Forall writes vs -> wt_fields vs fs ->
  len (concat (zip_with (fun v f => enc v f) vs fs)) < 2 ^ 64 ->
  exists w', write_fields vs fs w = Ok w' /\
             extends w w' (concat (zip_with (fun v f => enc v f) vs fs)).
Proof.
  intros F. revert fs w. induction F as [|v vs Hv F IH]; intros [|f fs] w W L; cbn in *; try done.
  - exists w. split; [done|apply extends_refl].
  - rewrite length_app in L. destruct W as [Wv Wvs].
    destruct (Hv f w) as (w1 & E1 & X1); [done|lia|].
    destruct (IH fs w1) as (w2 & E2 & X2); [done|lia|].
    exists w2. rewrite E1. cbn. split; [done|by eapply extends_trans].
Qed.

Lemma nilfunc_extends e w : extends w (nilfunc e w) (enc_nil e).
Proof.
  revert w. induction e as [| |bits| | | |n|istail e IH|n e IH|fs|nilOK e IH|]; intros w; cbn [nilfunc enc_nil];
    try apply extends_write; try apply extends_refl;
    try (apply extends_list; [cbn; lia|apply extends_refl]); auto.
  - rewrite writeString_encodeString. by apply encodeString_extends.
  - by apply encodeString_extends.
  - destruct (isByte e); [by apply encodeString_extends|]. destruct istail; [apply extends_refl|].
    apply extends_list; [cbn; lia|apply extends_refl].
  - destruct (isByte e); [apply extends_write|]. apply extends_list; [cbn; lia|apply extends_refl].
Qed.

Lemma enc_list_length_lt p n : len (enc_list p) < n -> len p < n.
Proof. unfold enc_list. rewrite length_app. lia. Qed.

Lemma enc_string_length_lt b n : len (enc_string b) < n -> len b < n.
Proof.
  unfold enc_string. destruct b as [|x [|y b]]; [|case_all|]; rewrite ?length_app; cbn; lia.
Qed.

Lemma writer_list w payload (k : encbuf -> outcome encode_error encbuf) w' :
  len (enc_list payload) < 2 ^ 64 ->
  k (encbuf_list w).2 = Ok w' -> extends (encbuf_list w).2 w' payload ->
  exists w'', (let '(lh, w) := encbuf_list w in let* w := k w in Ok (listEnd lh w)) = Ok w'' /\
              extends w w'' (enc_list payload).
Proof.
  intros L E X. apply enc_list_length_lt in L.
  eexists. split; [|by apply extends_list]. cbn in *. by rewrite E.
Qed.

Lemma writer_extends v : writes v.
Proof.
  induction v as [b|z|b|vs IH| |v IH|t' v IH] using rval_nested_ind;
    intros t w W L; destruct t as [| |bits| | | |n|istail e|n e|fs|nilOK e|]; try done;
    cbn [writer enc wt] in *;
    try (eexists; split; [reflexivity|]);
    try (apply enc_string_length_lt in L; rewrite ?writeString_encodeString;
         by apply encodeString_extends);
    try apply extends_write; try apply nilfunc_extends.
  - destruct W as [-> W]. eexists. split; [reflexivity|]. apply encodeString_extends. by apply enc_string_length_lt in L.
  - destruct W as [-> W]. eexists. split; [reflexivity|]. apply encodeString_extends. by apply enc_string_length_lt in L.
  - unfold writeBigInt. destruct (Z.ltb_spec z 0); [lia|].
    destruct (Z.eqb_spec z 0) as [->|]; (eexists; split; [reflexivity|]).
    + apply extends_write.
    + apply encodeString_extends. by apply enc_string_length_lt in L.
  - apply writeUint_extends. destruct W as [[->|[->|[->| ->]]] ?]; lia.
  - destruct b; apply extends_write.
  - destruct W as [Hb W]. rewrite Hb in *. destruct istail.
    + by apply write_elems_extends.
    + destruct (write_elems_extends e vs (encbuf_list w).2) as (w' & E & X);
        [done|done|by apply enc_list_length_lt|].
      by eapply (writer_list w _ (write_elems e vs)).
  - destruct W as (Hb & _ & W). rewrite Hb.
    destruct (write_elems_extends e vs (encbuf_list w).2) as (w' & E & X);
      [done|done|by apply enc_list_length_lt|].
    by eapply (writer_list w _ (write_elems e vs)).
  - destruct (write_fields_extends vs fs (encbuf_list w).2) as (w' & E & X);
      [done|done|by apply enc_list_length_lt|].
    by eapply (writer_list w _ (write_fields vs fs)).
  - by apply IH.
  - by apply IH.
Qed.

(** ** The buffer is filled exactly

    [size] is the length of the flattened buffer, so every copy is complete and
    every header fits. *)
Lemma copy_at_fits (a src pad : bytes) :
  (length src <= length pad)%nat ->
  copy_at (a ++ pad) (len a) src = (len src, (a ++ src) ++ drop (length src) pad).
Proof.
  intros H. unfold copy_at. rewrite length_app.
  replace (Z.min _ _) with (len src) by lia.
  rewrite <- Nat2Z.inj_add, !Nat2Z.id, take_app_length, firstn_all, drop_app_add, app_assoc. done.
Qed.

Lemma toBytes_loop_render s hs strpos a pad :
  heads_ok strpos hs (len s) -> 0 <= strpos ->
  length pad = length (render strpos hs (drop (Z.to_nat strpos) s)) ->
  toBytes_loop s hs (a ++ pad) strpos (len a) = Ok (a ++ render strpos hs (drop (Z.to_nat strpos) s)).
Proof.
  revert strpos a pad. induction hs as [|h hs IH]; intros strpos a pad H Hs L; cbn [toBytes_loop render] in *.
  - inversion H; subst. rewrite length_app. ztests. cbn [orb]. rewrite copy_at_fits by lia. cbn [snd].
    rewrite (drop_ge pad), app_nil_r by lia. done.
  - inversion H as [|p0 h0 hs0 q0 Hp Hh]; subst. pose proof (heads_ok_le _ _ _ Hh).
    rewrite length_app. ztests. cbn [orb].
    set (d := take (Z.to_nat (offset h - strpos)) (drop (Z.to_nat strpos) s)) in *.
    assert (Ld : strpos + len d = offset h) by (subst d; rewrite length_take, length_drop; lia).
    assert (Ed : drop (Z.to_nat (offset h - strpos)) (drop (Z.to_nat strpos) s) = drop (Z.to_nat (offset h)) s)
      by (rewrite drop_drop; f_equal; lia).
    rewrite Ld, Ed in *. rewrite !length_app in L. rewrite copy_at_fits by lia.
    rewrite Ld, length_app, length_drop, length_app. ztests.
    replace (len a + len d) with (len (a ++ d)) by (rewrite length_app; lia).
    rewrite copy_at_fits by (rewrite length_drop; lia).
    replace (len (a ++ d) + len (listhead_encode h)) with (len ((a ++ d) ++ listhead_encode h))
      by (rewrite length_app; lia).
    rewrite IH; [by rewrite <- !app_assoc|done|lia|]. rewrite !length_drop. lia.
Qed.

Lemma toBytes_extends w out : extends (encbuf_reset new_encbuf) w out -> toBytes w = Ok out.
Proof.
  intros (s & hs & S & H & L & O & R). cbn in *. unfold toBytes, encbuf_size. rewrite S, H.
  change (Z.of_nat 0) with 0 in *. pose proof (toBytes_loop_render s hs 0 []) as T. cbn in T.
  rewrite drop_0, R in T. apply T; [done|done|]. rewrite length_replicate. lia.
Qed.

Lemma EncodeToBytes_enc t v :
  wt v t -> len (enc v t) < 2 ^ 64 -> EncodeToBytes t v = Ok (enc v t).
Proof.
  intros W L. unfold EncodeToBytes.
  destruct (writer_extends v t (encbuf_reset new_encbuf) W L) as (w' & E & X). rewrite E. by apply toBytes_extends.
Qed.

(** C31: the buffer with deferred list headers is flattened, without a panic, to the
    recursive RLP encoding of the value, in which slices and arrays of bytes are
    strings.  The encoding is shorter than 2^64 bytes. *)
Theorem EncodeToBytes_spec t v :
  wt v t -> len (enc v t) < 2 ^ 64 -> EncodeToBytes t v = Ok (enc v t).
Proof. apply EncodeToBytes_enc. Qed.

Lemma EncodeToBytes_spec_witness :
  EncodeToBytes (TStruct [TUint 64; TBytes; TSlice false (TUint 8); TSlice false (TUint 16)])
    (VList [VInt 1024; VBytes [1; 2; 3]; VBytes [5; 0]; VList [VInt 5; VInt 0]]) =
  Ok [0xCD; 0x82; 4; 0; 0x83; 1; 2; 3; 0x82; 5; 0; 0xC2; 5; 0x80].
Proof.
  refine (eq_trans (EncodeToBytes_spec _ _ _ _) _); [|vm_compute; reflexivity|vm_compute; reflexivity].
  cbn. unfold byte_ok. repeat split; auto; try lia; repeat constructor; lia.
Defined.

(** ** Bytes and sizes of encodings *)

Lemma head_bytes_ok small large n :
  0 <= small -> small + 55 < 256 -> 0 <= large -> large + 8 < 256 -> 0 <= n < 2 ^ 64 ->
  bytes_ok (head_bytes small large n).
Proof.
  intros ? ? ? ? Hn. unfold head_bytes. destruct (Z.ltb_spec n 56).
  - repeat constructor; lia.
  - pose proof (Bytes_length_64 n Hn). constructor; [unfold byte_ok; lia|auto with siot].
Qed.

Lemma head_bytes_len small large n : 0 <= n < 2 ^ 64 -> 1 <= len (head_bytes small large n) <= 9.
Proof.
  intros Hn. unfold head_bytes. destruct (Z.ltb_spec n 56); [cbn; lia|].
  pose proof (Bytes_length_64 n Hn). cbn [length]. lia.
Qed.

Lemma enc_string_ok b : bytes_ok b -> len b < 2 ^ 64 -> bytes_ok (enc_string b).
Proof.
  intros Hb Hl. unfold enc_string. assert (bytes_ok (head_bytes 0x80 0xB7 (len b) ++ b))
    by (apply Forall_app; split; [apply head_bytes_ok; lia|done]).
  destruct b as [|x [|y b]]; [done|by case_match|done].
Qed.

Lemma enc_list_ok p : bytes_ok p -> len p < 2 ^ 64 -> bytes_ok (enc_list p).
Proof. intros Hp Hl. unfold enc_list. apply Forall_app. split; [apply head_bytes_ok; lia|done]. Qed.

Lemma enc_string_len b : len b < 2 ^ 64 -> 1 <= len (enc_string b) <= len b + 9.
Proof.
  intros Hl. unfold enc_string. pose proof (head_bytes_len 0x80 0xB7 (len b)).
  assert (1 <= len (head_bytes 0x80 0xB7 (len b) ++ b) <= len b + 9) by (rewrite length_app; lia).
  destruct b as [|x [|y b]]; [done|case_match; [cbn; lia|done]|done].
Qed.

Lemma enc_string_len_short b : len b < 56 -> len (enc_string b) <= len b + 1.
Proof.
  intros Hl. assert (E : len (head_bytes 0x80 0xB7 (len b) ++ b) = len b + 1).
  { rewrite length_app. unfold head_bytes. destruct (Z.ltb_spec (len b) 56); cbn; lia. }
  unfold enc_string. destruct b as [|x [|y b]]; [lia|case_match; cbn in *; lia|lia].
Qed.

Lemma enc_list_len p : len p < 2 ^ 64 -> len p < len (enc_list p) <= len p + 9.
Proof.
  intros Hl. unfold enc_list. pose proof (head_bytes_len 0xC0 0xF7 (len p)). rewrite length_app. lia.
Qed.

Lemma enc_nil_ok e : bytes_ok (enc_nil e).
Proof. induction e as [| |bits| | | |n|[] e|n e|fs|b e IH|]; cbn; auto; try destruct (isByte e);
  repeat constructor; unfold byte_ok; lia. Qed.

Lemma concat_ok (es : list bytes) n :
  len (concat es) < n -> Forall (fun e => len e < n -> bytes_ok e) es -> bytes_ok (concat es).
Proof.
  intros L F. induction F as [|e es He F IH]; cbn in *; [constructor|]. rewrite length_app in L.
  apply Forall_app. split; [apply He|apply IH]; lia.
Qed.

(** Encodings are bytes. *)
Lemma enc_ok v t : wt v t -> len (enc v t) < 2 ^ 64 -> bytes_ok (enc v t).
Proof.
  assert (S : forall b, bytes_ok b -> len (enc_string b) < 2 ^ 64 -> bytes_ok (enc_string b)).
  { intros b Hb L. apply enc_string_ok; [done|]. by apply enc_string_length_lt. }
  assert (L : forall es, Forall (fun e => len e < 2 ^ 64 -> bytes_ok e) es -> len (enc_list (concat es)) < 2 ^ 64 ->
    bytes_ok (enc_list (concat es))).
  { intros es F Hl. apply enc_list_length_lt in Hl as Hl'. apply enc_list_ok; [|done]. by eapply concat_ok. }
  assert (E : forall e vs, Forall (fun v => forall t, wt v t -> len (enc v t) < 2 ^ 64 -> bytes_ok (enc v t)) vs ->
    foldr (fun v P => wt v e /\ P) True vs -> Forall (fun b => len b < 2 ^ 64 -> bytes_ok b) (map (fun v => enc v e) vs)).
  { intros e vs. induction 1 as [|v0 vs0 Hv _ IH]; [constructor|]. cbn. intros [? ?]. constructor; [by apply Hv|by apply IH]. }
  revert t. induction v as [b|z|b|vs IH| |v IH|t' v IH] using rval_nested_ind; intros t W;
    destruct t as [| |bits| | | |n|[] e|n e|fs|nk e|]; try done; cbn [enc wt] in *; intros Hl; auto using Bytes_ok, enc_nil_ok.
  1-4: by apply S; [apply W|].
  - apply S; [|done]. destruct b; repeat constructor; unfold byte_ok; lia.
  - destruct W as [_ W]. eapply concat_ok; [done|]. by apply E.
  - apply L; [|done]. destruct W as [_ W]. by apply E.
  - apply L; [|done]. destruct W as (_ & _ & W). by apply E.
  - apply L; [|done]. clear Hl. revert fs W. induction IH as [|v vs Hv _ IH']; intros [|f fs] W; try done. cbn.
    destruct W as [W1 W2]. constructor; [by apply Hv|by apply IH'].
  - repeat constructor; unfold byte_ok; lia.
Qed.
