(* ===== verification/RlpRaw.v ===== *)
(** * Splitting raw RLP (src/helper/rlp/raw.go)

    The functions that take encoded values apart without decoding them, as the
    trie does with its nodes.  They are shown to invert the reference encoding
    of RlpEncode, and to accept nothing else: an accepted input is the canonical
    encoding of its content. *)

From S2P Require Import Prelude RlpEncode.

Inductive Kind := Byte | String | List.
#[global] Instance Kind_eq_dec : EqDecision Kind.
Proof. solve_decision. Defined.

(** The error values of package rlp.  [DecodeError] is the type of the same
    name with its message; the Go type and the path it also carries are for
    display only. *)
Inductive decode_msg :=
| MsgCanonInt | MsgCanonSize | MsgExpectedList | MsgExpectedString | MsgTooLongInt
| MsgTooMany | MsgTooFew | MsgTooLong | MsgTooShort.

Inductive rlp_error :=
| EOF | UnexpectedEOF | EOL
| ErrExpectedString | ErrExpectedList | ErrCanonInt | ErrCanonSize
| ErrElemTooLarge | ErrValueTooLarge | ErrMoreThanOneValue
| errNotInList | errNotAtEOL | errUintOverflow | errInvalidBool
| DecodeError (m : decode_msg).
#[global] Instance decode_msg_eq_dec : EqDecision decode_msg.
Proof. solve_decision. Defined.
#[global] Instance rlp_error_eq_dec : EqDecision rlp_error.
Proof. solve_decision. Defined.

(** [slen] is between 1 and 8 at every call. *)
Definition readSize (b : bytes) (slen : Z) : outcome rlp_error Z :=
  if len b <? slen then Err UnexpectedEOF
  else
    let at_ i k := Z.shiftl (b !!! i) k in
    let s :=
      if slen =? 1 then b !!! 0%nat
      else if slen =? 2 then Z.lor (at_ 0%nat 8) (b !!! 1%nat)
      else if slen =? 3 then Z.lor (Z.lor (at_ 0%nat 16) (at_ 1%nat 8)) (b !!! 2%nat)
      else if slen =? 4 then
        Z.lor (Z.lor (Z.lor (at_ 0%nat 24) (at_ 1%nat 16)) (at_ 2%nat 8)) (b !!! 3%nat)
      else if slen =? 5 then
        Z.lor (Z.lor (Z.lor (Z.lor (at_ 0%nat 32) (at_ 1%nat 24)) (at_ 2%nat 16)) (at_ 3%nat 8))
              (b !!! 4%nat)
      else if slen =? 6 then
        Z.lor (Z.lor (Z.lor (Z.lor (Z.lor (at_ 0%nat 40) (at_ 1%nat 32)) (at_ 2%nat 24))
              (at_ 3%nat 16)) (at_ 4%nat 8)) (b !!! 5%nat)
      else if slen =? 7 then
        Z.lor (Z.lor (Z.lor (Z.lor (Z.lor (Z.lor (at_ 0%nat 48) (at_ 1%nat 40)) (at_ 2%nat 32))
              (at_ 3%nat 24)) (at_ 4%nat 16)) (at_ 5%nat 8)) (b !!! 6%nat)
      else if slen =? 8 then
        Z.lor (Z.lor (Z.lor (Z.lor (Z.lor (Z.lor (Z.lor (at_ 0%nat 56) (at_ 1%nat 48))
              (at_ 2%nat 40)) (at_ 3%nat 32)) (at_ 4%nat 24)) (at_ 5%nat 16)) (at_ 6%nat 8))
              (b !!! 7%nat)
      else 0 in
    if (s <? 56) || (b !!! 0%nat =? 0) then Err ErrCanonSize else Ok s.

(** Kind, tag size and content size of the first value. *)
Definition readKind (buf : bytes) : outcome rlp_error (Kind * Z * Z) :=
  match buf with
  | [] => Err UnexpectedEOF
  | b :: rest =>
      let* (k, tagsize, contentsize) :=
        (if b <? 0x80 then Ok (Byte, 0, 1)
         else if b <? 0xB8 then
           let contentsize := b - 0x80 in
           if contentsize =? 1 then
             let* b1 := idx buf 1 in
             if b1 <? 128 then Err ErrCanonSize else Ok (String, 1, contentsize)
           else Ok (String, 1, contentsize)
         else if b <? 0xC0 then
           let* contentsize := readSize rest (b - 0xB7) in Ok (String, b - 0xB7 + 1, contentsize)
         else if b <? 0xF8 then Ok (List, 1, b - 0xC0)
         else
           let* contentsize := readSize rest (b - 0xF7) in Ok (List, b - 0xF7 + 1, contentsize)) in
      if u64 (len buf - tagsize) <? contentsize then Err ErrValueTooLarge
      else Ok (k, tagsize, contentsize)
  end.

Definition Split (b : bytes) : outcome rlp_error (Kind * bytes * bytes) :=
  let* (k, ts, cs) := readKind b in
  Ok (k, take (Z.to_nat cs) (drop (Z.to_nat ts) b), drop (Z.to_nat (ts + cs)) b).

Definition SplitString (b : bytes) : outcome rlp_error (bytes * bytes) :=
  let* (k, content, rest) := Split b in
  match k with List => Err ErrExpectedString | _ => Ok (content, rest) end.

Definition SplitList (b : bytes) : outcome rlp_error (bytes * bytes) :=
  let* (k, content, rest) := Split b in
  match k with List => Ok (content, rest) | _ => Err ErrExpectedList end.

(** The loop of [CountValues].  Every round consumes a byte, so the length of
    the input is enough fuel ([count_loop_total]). *)
Fixpoint count_loop (fuel : nat) (b : bytes) (i : Z) : outcome rlp_error Z :=
  match b with
  | [] => Ok i
  | _ :: _ =>
      match fuel with
      | O => Panic
      | S fuel =>
          let* (_, tagsize, size) := readKind b in
          count_loop fuel (drop (Z.to_nat (tagsize + size)) b) (i + 1)
      end
  end.

Definition CountValues (b : bytes) : outcome rlp_error Z := count_loop (length b) b 0.

(** ** The size field *)

Ltac lor_sum :=
  repeat match goal with
    |- context [Z.lor ?x ?y] =>
      lazymatch x with
      | context [Z.lor _ _] => fail
      | _ => let tac n := rewrite (lor_add n x y) by (unfold byte_ok in *; dlia) in
             first [tac 56 | tac 48 | tac 40 | tac 32 | tac 24 | tac 16 | tac 8]
      end
    end.

Lemma readSize_value b slen :
  bytes_ok (take (Z.to_nat slen) b) -> 1 <= slen <= 8 -> slen <= len b ->
  readSize b slen =
    let s := SetBytes (take (Z.to_nat slen) b) in
    if (s <? 56) || (b !!! 0%nat =? 0) then Err ErrCanonSize else Ok s.
Proof.
  intros Hb Hs Hl. unfold readSize. destruct (Z.ltb_spec (len b) slen); [lia|]. cbv zeta.
  match goal with |- context [(?x <? 56) || _] =>
    replace x with (SetBytes (take (Z.to_nat slen) b)); [done|] end.
  assert (B : forall i, (i < Z.to_nat slen)%nat -> byte_ok (b !!! i)).
  { intros i Hi. rewrite take_lookup_total in Hb by lia. rewrite Forall_forall in Hb.
    apply Hb, list_elem_of_In, in_map_iff. exists i. split; [done|]. apply in_seq. lia. }
  rewrite take_lookup_total by lia.
  assert (D : slen = 1 \/ slen = 2 \/ slen = 3 \/ slen = 4 \/ slen = 5 \/ slen = 6 \/
              slen = 7 \/ slen = 8) by lia.
  pose proof (B 0%nat). pose proof (B 1%nat). pose proof (B 2%nat). pose proof (B 3%nat).
  pose proof (B 4%nat). pose proof (B 5%nat). pose proof (B 6%nat). pose proof (B 7%nat). clear B Hb.
  repeat (destruct D as [-> | D]); try subst slen;
    cbn -[Z.shiftl Z.lor Z.mul lookup_total] in *; rewrite ?Z.shiftl_mul_pow2 by lia;
    repeat match goal with H : (?a < ?n)%nat -> _ |- _ => first [specialize (H ltac:(lia))|clear H] end;
    lor_sum; unfold SetBytes;
    match goal with |- context [Z.to_nat ?n] => let m := eval cbv in (Z.to_nat n) in change (Z.to_nat n) with m end;
    cbn [seq map foldl]; lia.
Qed.

Lemma readSize_Bytes n rest :
  56 <= n < 2 ^ 64 -> readSize (Bytes n ++ rest) (len (Bytes n)) = Ok n.
Proof.
  intros Hn. destruct (Bytes_head n) as (x & r & E & Hx); [lia|].
  pose proof (Bytes_length_64 n). rewrite readSize_value.
  - rewrite Nat2Z.id, take_app_length. cbv zeta. rewrite SetBytes_Bytes by lia.
    rewrite E. cbn. destruct (Z.ltb_spec n 56); [lia|]. destruct (Z.eqb_spec x 0); [done|].
    done.
  - rewrite Nat2Z.id, take_app_length. auto with siot.
  - rewrite E in *. cbn in *. lia.
  - rewrite length_app. lia.
Qed.

(** Conversely an accepted size field is the shortest form of its value. *)
Lemma readSize_sound b slen n :
  bytes_ok b -> 1 <= slen <= 8 -> readSize b slen = Ok n ->
  56 <= n < 2 ^ 64 /\ slen = len (Bytes n) /\ b = Bytes n ++ drop (Z.to_nat slen) b.
Proof.
  intros Hb Hs H. assert (Hl : slen <= len b).
  { unfold readSize in H. destruct (Z.ltb_spec (len b) slen); [discriminate|done]. }
  rewrite readSize_value in H by (try done; by apply Forall_take). cbv zeta in H.
  set (t := take (Z.to_nat slen) b) in *.
  destruct (Z.ltb_spec (SetBytes t) 56); [discriminate|].
  destruct (Z.eqb_spec (b !!! 0%nat) 0); [discriminate|]. cbn in H. injection H as <-.
  assert (Lt : len t = slen) by (unfold t; rewrite length_take; lia).
  assert (Bt : bytes_ok t) by by apply Forall_take.
  assert (Et : Bytes (SetBytes t) = t).
  { apply Bytes_SetBytes; [done|]. intros x r E. unfold t in E.
    destruct b as [|y b]; [by destruct (Z.to_nat slen)|].
    destruct (Z.to_nat slen) eqn:?; [lia|]. cbn in E. injection E as <- _. done. }
  rewrite Et. pose proof (SetBytes_range t Bt).
  assert (256 ^ len t <= 256 ^ 8) by (apply Z.pow_le_mono_r; lia).
  repeat split; try lia. unfold t. by rewrite take_drop.
Qed.

(** ** Splitting inverts the encoding *)

Definition enc_kind (k : Kind) (content : bytes) : bytes :=
  match k with List => enc_list content | _ => enc_string content end.

Definition kind_ok (k : Kind) (content : bytes) : Prop :=
  match k with
  | Byte => exists x, content = [x] /\ x < 128
  | String => forall x, content = [x] -> 128 <= x
  | List => True
  end.

(** Where the content starts inside [enc_kind]. *)
Definition tag_bytes (k : Kind) (content : bytes) : bytes :=
  match k with
  | Byte => []
  | String => head_bytes 0x80 0xB7 (len content)
  | List => head_bytes 0xC0 0xF7 (len content)
  end.

Lemma enc_kind_tag k content : kind_ok k content -> enc_kind k content = tag_bytes k content ++ content.
Proof.
  destruct k; cbn.
  - intros (x & -> & Hx). cbn. destruct (Z.ltb_spec x 128); [done|lia].
  - intros H. unfold enc_string. destruct content as [|x [|y c]]; [done| |done].
    specialize (H x eq_refl). destruct (Z.ltb_spec x 128); [lia|done].
  - done.
Qed.

Lemma head_bytes_cons small large n :
  head_bytes small large n =
    if n <? 56 then [small + n] else (large + len (Bytes n)) :: Bytes n.
Proof. done. Qed.

Lemma long_head_size n : 56 <= n < 2 ^ 64 -> 1 <= len (Bytes n) <= 8.
Proof.
  intros. destruct (Bytes_head n) as (x & r & E & Hx); [lia|].
  pose proof (Bytes_length_64 n). rewrite E in *. cbn in *. lia.
Qed.

(** [readKind] on a tag followed by at least the announced content. *)
Lemma readKind_tag k content rest :
  kind_ok k content -> len (tag_bytes k content ++ content ++ rest) < 2 ^ 64 ->
  readKind (tag_bytes k content ++ content ++ rest) = Ok (k, len (tag_bytes k content), len content).
Proof.
  intros Hk Hl. rewrite !length_app, !Nat2Z.inj_add in Hl.
  pose proof (long_head_size (len content)) as Hm.
  assert (Hfin : (if u64 (len (tag_bytes k content ++ content ++ rest) - len (tag_bytes k content))
                     <? len content then Err ErrValueTooLarge
                  else Ok (k, len (tag_bytes k content), len content)) =
                 @Ok rlp_error _ (k, len (tag_bytes k content), len content)).
  { rewrite !length_app, !Nat2Z.inj_add, u64_small by lia. by ztests. }
  unfold readKind. destruct k; cbn [tag_bytes kind_ok] in *.
  - destruct Hk as (x & -> & Hx). cbn [app] in *. ztests. exact Hfin.
  - rewrite head_bytes_cons in *. destruct (Z.ltb_spec (len content) 56); cbn [app] in *.
    + destruct (Z.eqb_spec (0x80 + len content - 0x80) 1) as [E|E]; ztests.
      * destruct content as [|x [|y c]]; cbn in E; try lia. specialize (Hk x eq_refl).
        cbn. ztests. exact Hfin.
      * replace (0x80 + len content - 0x80) with (len content) in * by lia. exact Hfin.
    + specialize (Hm ltac:(lia)). ztests.
      replace (0xB7 + len (Bytes (len content)) - 0xB7) with (len (Bytes (len content))) by lia.
      rewrite readSize_Bytes by lia. cbn [obind].
      replace (len (Bytes (len content)) + 1) with (len (183 + len (Bytes (len content)) :: Bytes (len content)))
        by (cbn; lia). exact Hfin.
  - rewrite head_bytes_cons in *. destruct (Z.ltb_spec (len content) 56); cbn [app] in *; ztests.
    + replace (0xC0 + len content - 0xC0) with (len content) in * by lia. exact Hfin.
    + specialize (Hm ltac:(lia)). ztests.
      replace (0xF7 + len (Bytes (len content)) - 0xF7) with (len (Bytes (len content))) by lia.
      rewrite readSize_Bytes by lia. cbn [obind].
      replace (len (Bytes (len content)) + 1) with (len (247 + len (Bytes (len content)) :: Bytes (len content)))
        by (cbn; lia). exact Hfin.
Qed.

(** What an accepted header says about the input. *)
Lemma content_split (T b' : bytes) c :
  0 <= c <= len b' -> exists content rest, T ++ b' = T ++ content ++ rest /\ len content = c.
Proof.
  intros. exists (take (Z.to_nat c) b'), (drop (Z.to_nat c) b').
  rewrite take_drop, length_take. split; [done|lia].
Qed.

Lemma long_header_sound x tag b n :
  byte_ok x -> tag < x <= tag + 8 -> bytes_ok b ->
  readSize b (x - tag) = Ok n ->
  56 <= n < 2 ^ 64 /\ x - tag + 1 = len (head_bytes 0 tag n) /\
  exists b', b = Bytes n ++ b' /\ x :: b = head_bytes 0 tag n ++ b'.
Proof.
  intros Hx Ht Hb R. apply readSize_sound in R as (Hn & Hs & Eb); [|done|lia].
  rewrite head_bytes_cons. ztests. split; [done|]. split; [cbn; lia|].
  eexists. split; [exact Eb|]. cbn. rewrite Eb at 1. f_equal. lia.
Qed.

Lemma head_bytes_long small small' large n : 56 <= n -> head_bytes small large n = head_bytes small' large n.
Proof. intros. rewrite !head_bytes_cons. by ztests. Qed.

Lemma readKind_sound b k ts cs :
  bytes_ok b -> len b < 2 ^ 64 -> readKind b = Ok (k, ts, cs) ->
  exists content rest,
    b = tag_bytes k content ++ content ++ rest /\ kind_ok k content /\
    ts = len (tag_bytes k content) /\ cs = len content.
Proof.
  intros Hb Hl H. destruct b as [|x b]; [discriminate|]. unfold readKind in H.
  apply Forall_cons in Hb as [Hx Hb]. pose proof Hx as Hx'. unfold byte_ok in Hx. cbn [length] in *.
  (* the conclusion from the parts of the header *)
  assert (G : forall k' T b' c, x :: b = T ++ b' -> 0 <= c ->
    (if u64 (Z.of_nat (S (length b)) - len T) <? c then Err ErrValueTooLarge else Ok (k', len T, c)) =
      @Ok rlp_error _ (k, ts, cs) ->
    (forall content, len content = c -> tag_bytes k' content = T) ->
    (forall content rest, x :: b = T ++ content ++ rest -> len content = c -> kind_ok k' content) ->
    exists content rest,
      x :: b = tag_bytes k content ++ content ++ rest /\ kind_ok k content /\
      ts = len (tag_bytes k content) /\ cs = len content).
  { intros k' T b' c E Hc Hif HT Hk.
    assert (L : Z.of_nat (S (length b)) = len T + len b').
    { change (S (length b)) with (length (x :: b)). rewrite E, length_app. lia. }
    rewrite u64_small in Hif by lia. case_match; [discriminate|]. injection Hif as <- <- <-.
    bool_to_prop. destruct (content_split T b' c) as (content & rest & E' & Lc); [lia|].
    rewrite E, E'. exists content, rest. rewrite (HT content Lc). repeat split; [|done].
    apply (Hk content rest); [by rewrite E, E'|done]. }
  destruct (Z.ltb_spec x 0x80).
  { cbn in H. case_match; [discriminate|]. injection H as <- <- <-. exists [x], b. cbn. eauto 10. }
  destruct (Z.ltb_spec x 0xB8).
  { assert (Hone : (x - 0x80 = 1 -> exists y r, b = y :: r /\ 128 <= y) /\
      (if u64 (Z.of_nat (S (length b)) - len [x]) <? x - 0x80 then Err ErrValueTooLarge
       else Ok (String, len [x], x - 0x80)) = @Ok rlp_error _ (k, ts, cs)).
    { destruct (Z.eqb_spec (x - 0x80) 1); [|by split].
      destruct b as [|y r]; [discriminate|]. cbn in H.
      destruct (Z.ltb_spec y 128); [discriminate|]. split; [eauto|exact H]. }
    destruct Hone as [Hone Hif]. eapply (G String [x] b (x - 0x80)); [done|lia|exact Hif| |].
    - intros content Lc. cbn [tag_bytes]. rewrite head_bytes_cons, Lc. ztests. f_equal. lia.
    - intros content rest E Lc y ->. cbn in Lc. destruct Hone as (y' & r' & -> & ?); [lia|].
      cbn in E. congruence. }
  destruct (Z.ltb_spec x 0xC0).
  { destruct (readSize b (x - 0xB7)) as [n| |] eqn:R; try discriminate. cbn in H.
    apply long_header_sound in R as (Hn & Hs & b' & Eb & Exb); [|done|lia|done]. rewrite Hs in H.
    eapply G; [exact Exb| |exact H| |]; [lia| |].
    - intros content Lc. cbn [tag_bytes]. rewrite Lc. apply head_bytes_long; lia.
    - intros content rest _ Lc y ->. cbn in Lc. lia. }
  destruct (Z.ltb_spec x 0xF8).
  { eapply (G List [x] b (x - 0xC0)); [done|lia|exact H| |done].
    intros content Lc. cbn [tag_bytes]. rewrite head_bytes_cons, Lc. ztests. f_equal. lia. }
  destruct (readSize b (x - 0xF7)) as [n| |] eqn:R; try discriminate. cbn in H.
  apply long_header_sound in R as (Hn & Hs & b' & Eb & Exb); [|done|lia|done]. rewrite Hs in H.
  eapply G; [exact Exb| |exact H| |done]; [lia|].
  intros content Lc. cbn [tag_bytes]. rewrite Lc. apply head_bytes_long; lia.
Qed.

(** [Split] accepts exactly the canonical encodings. *)
Lemma Split_iff b k content rest :
  bytes_ok b -> len b < 2 ^ 64 ->
  Split b = Ok (k, content, rest) <-> b = enc_kind k content ++ rest /\ kind_ok k content.
Proof.
  intros Hb Hl. unfold Split. split.
  - intros H. destruct (readKind b) as [[[k' ts] cs]| |] eqn:E; try discriminate.
    apply readKind_sound in E as (c & r & -> & Hk & -> & ->); [|done..].
    cbn in H. injection H as <- <- <-. rewrite <- Nat2Z.inj_add, !Nat2Z.id.
    rewrite drop_app_length, take_app_length.
    rewrite (app_assoc (tag_bytes k' c)), <- (length_app (tag_bytes k' c)), drop_app_length.
    by rewrite enc_kind_tag.
  - intros [-> Hk]. rewrite enc_kind_tag in * by done. rewrite <- !app_assoc in *.
    rewrite readKind_tag by done. cbn. rewrite <- Nat2Z.inj_add, !Nat2Z.id.
    rewrite drop_app_length, take_app_length.
    by rewrite (app_assoc (tag_bytes k content)), <- (length_app (tag_bytes k content)), drop_app_length.
Qed.

(** A decoded prefix of an input is determined by it, and what is decoded is
    encoded in one way only. *)
Lemma kind_of_string b :
  exists k, kind_ok k b /\ enc_kind k b = enc_string b /\ k <> List.
Proof.
  destruct b as [|x [|y b]]; [exists String; by repeat split| |exists String; by repeat split].
  destruct (Z.ltb_spec x 128); [exists Byte|exists String].
  - split; [by exists x|done].
  - split; [|done]. intros z Hz. injection Hz as <-. done.
Qed.

Lemma SplitString_enc b rest :
  bytes_ok b -> bytes_ok rest -> len (enc_string b ++ rest) < 2 ^ 64 ->
  bytes_ok (enc_string b) -> SplitString (enc_string b ++ rest) = Ok (b, rest).
Proof.
  intros Hb Hr Hl He. destruct (kind_of_string b) as (k & Hk & E & Hn). unfold SplitString.
  rewrite (proj2 (Split_iff (enc_string b ++ rest) k b rest ltac:(by apply Forall_app) Hl));
    [by destruct k|]. by rewrite E.
Qed.

Lemma SplitList_enc p rest :
  bytes_ok rest -> bytes_ok (enc_list p) -> len (enc_list p ++ rest) < 2 ^ 64 ->
  SplitList (enc_list p ++ rest) = Ok (p, rest).
Proof.
  intros Hr Hp Hl. unfold SplitList.
  by rewrite (proj2 (Split_iff (enc_list p ++ rest) List p rest ltac:(by apply Forall_app) Hl)).
Qed.

(** [readKind] on the one input that makes it panic: a lone 0x81, whose second
    byte is inspected without a length check. *)
Lemma readKind_panic_iff b : bytes_ok b -> readKind b = Panic <-> b = [0x81].
Proof.
  intros Hb. split; [|intros ->; reflexivity]. intros H.
  assert (N : forall b n, readSize b n <> Panic) by (intros; unfold readSize; case_all; done).
  destruct b as [|x b]; [discriminate|]. unfold readKind in H.
  destruct (Z.ltb_spec x 0x80); [cbn in H; by case_match|].
  destruct (Z.ltb_spec x 0xB8).
  - destruct (Z.eqb_spec (x - 0x80) 1) as [E|E]; [|cbn in H; by case_match].
    destruct b as [|y b]; [f_equal; lia|]. exfalso. revert H. cbn. destruct (y <? 128); cbn; [done|by case_match].
  - exfalso. revert H. pose proof (N b (x - 0xB7)). pose proof (N b (x - 0xF7)).
    destruct (x <? 0xC0); [|destruct (x <? 0xF8)];
      destruct (readSize b (x - 0xB7)), (readSize b (x - 0xF7)); cbn; try case_match; congruence.
Qed.

Lemma tag_nonempty k content : kind_ok k content -> (1 <= length (tag_bytes k content ++ content))%nat.
Proof.
  destruct k; cbn; [intros (x & -> & _); cbn; lia| |]; intros _;
    rewrite head_bytes_cons; case_match; cbn; lia.
Qed.

(** The fuel of [CountValues] is never used up: a panic of the count comes from
    [readKind] alone. *)
Lemma count_loop_total fuel b i :
  bytes_ok b -> len b < 2 ^ 64 -> (length b <= fuel)%nat ->
  count_loop fuel b i = Panic -> exists b1, b = b1 ++ [0x81].
Proof.
  revert b i. induction fuel as [|fuel IH]; intros b i Hb Hl Hf H.
  { destruct b; [discriminate|cbn in Hf; lia]. }
  destruct b as [|x b]; [discriminate|]. cbn [count_loop] in H.
  destruct (readKind (x :: b)) as [[[k ts] cs]| |] eqn:E; [|discriminate|].
  - apply readKind_sound in E as (c & r & Eb & Hk & -> & ->); [|done..]. cbn [obind] in H.
    rewrite Eb, app_assoc in H. rewrite <- Nat2Z.inj_add, Nat2Z.id, <- length_app, drop_app_length in H.
    pose proof (tag_nonempty k c Hk). rewrite Eb, app_assoc in *.
    apply Forall_app in Hb as [_ Hb]. rewrite !length_app in *.
    destruct (IH r (i + 1)) as [b1 ->]; [done|lia|lia|done|]. eexists. by rewrite app_assoc.
  - apply readKind_panic_iff in E; [|done]. exists []. done.
Qed.

(** Counting the concatenation of [n] encoded values gives [n]. *)
Lemma CountValues_enc (vs : list (Kind * bytes)) :
  Forall (fun '(k, c) => kind_ok k c) vs ->
  let b := concat (map (fun '(k, c) => enc_kind k c) vs) in
  len b < 2 ^ 64 -> CountValues b = Ok (len vs).
Proof.
  intros F. cbn zeta. unfold CountValues.
  set (b := concat _). assert (G : forall fuel i, (length b <= fuel)%nat -> len b < 2 ^ 64 ->
    count_loop fuel b i = Ok (i + len vs)); [|intros; rewrite G; by try lia].
  subst b. induction F as [|[k c] vs Hk F IH]; intros fuel i Hf Hl; cbn [map concat] in *.
  { destruct fuel; cbn; f_equal; lia. }
  rewrite enc_kind_tag in * by done. pose proof (tag_nonempty k c Hk).
  rewrite length_app in Hf, Hl. destruct fuel as [|fuel]; [lia|].
  remember ((tag_bytes k c ++ c) ++ concat (map (λ '(k, c), enc_kind k c) vs)) as b eqn:Eb.
  destruct b as [|x b]; [destruct (tag_bytes k c ++ c); [cbn in *; lia|discriminate]|].
  cbn [count_loop]. rewrite Eb, <- app_assoc, readKind_tag; [|done|].
  - cbn [obind]. rewrite <- Nat2Z.inj_add, Nat2Z.id, app_assoc, <- length_app, drop_app_length.
    rewrite IH by lia. cbn [length]. f_equal. lia.
  - rewrite app_assoc, length_app. lia.
Qed.

(** ** Summary *)

(** C32: [Split] accepts exactly the canonical encodings: its results are the kind
    and content of the first encoded value, and what follows it. *)
Theorem Split_spec b k content rest :
  bytes_ok b -> len b < 2 ^ 64 ->
  Split b = Ok (k, content, rest) <-> b = enc_kind k content ++ rest /\ kind_ok k content.
Proof. apply Split_iff. Qed.

Lemma Split_spec_witness :
  Split [0x83; 1; 2; 3; 0x80] = Ok (String, [1; 2; 3], [0x80]) <->
  [0x83; 1; 2; 3; 0x80] = enc_kind String [1; 2; 3] ++ [0x80] /\ kind_ok String [1; 2; 3].
Proof.
  apply (Split_spec [0x83; 1; 2; 3; 0x80] String [1; 2; 3] [0x80]); [|done].
  repeat constructor; cbv; done.
Defined.

(** Taking raw values apart fails softly on every input but one family: a
    panic of [Split] means the input is the single byte 0x81 (a string header
    whose content byte is read without a length check), and a panic of
    [CountValues] means the input ends with it. *)
Theorem raw_panics b :
  bytes_ok b -> len b < 2 ^ 64 ->
  (Split b = Panic <-> b = [0x81]) /\
  (CountValues b = Panic -> exists b1, b = b1 ++ [0x81]).
Proof.
  intros Hb Hl. split; [|by apply count_loop_total].
  rewrite <- (readKind_panic_iff b Hb). unfold Split.
  destruct (readKind b) as [[[k ts] cs]| |]; by split.
Qed.

Lemma raw_panics_witness :
  (Split [0x81] = Panic <-> [0x81] = [0x81]) /\
  (CountValues [0x81] = Panic -> exists b1, [0x81] = b1 ++ [0x81]).
Proof. apply (raw_panics [0x81]); [repeat constructor; cbv; done|done]. Defined.

(** Counting the concatenation of [n] encoded values of any kinds gives [n]. *)
Theorem CountValues_spec (vs : list (Kind * bytes)) :
  Forall (fun '(k, c) => kind_ok k c) vs ->
  let b := concat (map (fun '(k, c) => enc_kind k c) vs) in
  len b < 2 ^ 64 -> CountValues b = Ok (len vs).
Proof. apply CountValues_enc. Qed.

Lemma CountValues_spec_witness :
  CountValues (concat (map (fun '(k, c) => enc_kind k c) [(String, [1; 2]); (List, [])])) = Ok 2.
Proof. apply (CountValues_spec [(String, [1; 2]); (List, [])]); [repeat constructor; done|done]. Defined.
