(* ===== verification/RlpStream.v ===== *)
(** * RLP decoding (src/helper/rlp/decode.go)

    [Stream], the pull decoder over an in-memory reader, and the decoders the
    type cache generates.  The stream is threaded through every operation, on
    errors too, since a failed or ended read leaves it usable.  The innermost
    list is the head of [stack].  Decoding targets are zero values. *)

From S2P Require Import Prelude RlpEncode RlpRaw.

Record Stream := mkStream {
  input : bytes;                 (* the unread bytes of r *)
  remaining : Z; limited : bool;
  kind : option Kind;            (* None is Go's -1: no value ahead is known *)
  size : Z;
  byteval : Z;
  kinderr : option rlp_error;
  stack : list (Z * Z)           (* listpos{pos, size} *)
}.

Definition set_kind (k : option Kind) (s : Stream) : Stream :=
  mkStream (input s) (remaining s) (limited s) k (size s) (byteval s) (kinderr s) (stack s).
Definition set_stack (k : option Kind) (z : Z) (st : list (Z * Z)) (s : Stream) : Stream :=
  mkStream (input s) (remaining s) (limited s) k z (byteval s) (kinderr s) st.

(** Operations on a stream.  [Panic] also stands for an exhausted fuel. *)
Definition M (A : Type) : Type := Stream -> outcome rlp_error A * Stream.

Definition ret {A} (a : A) : M A := fun s => (Ok a, s).
Definition fail {A} (e : rlp_error) : M A := fun s => (Err e, s).
Definition bindM {A B} (m : M A) (f : A -> M B) : M B :=
  fun s => match m s with
           | (Ok a, s) => f a s
           | (Err e, s) => (Err e, s)
           | (Panic, s) => (Panic, s)
           end.

Declare Scope stream_scope.
Delimit Scope stream_scope with stream.
Notation "'do' p <- m ; k" := (bindM m (fun x => match x with p => k end))
  (at level 10, p pattern, m at level 100, k at level 200) : stream_scope.
Open Scope stream_scope.

Definition NewStream (r : bytes) (inputLimit : Z) : Stream :=
  mkStream r (if 0 <? inputLimit then inputLimit else len r) true None 0 0 None [].

Definition NewListStream (r : bytes) (n : Z) : Stream :=
  set_stack (Some List) n [] (NewStream r n).

(** ** Reading *)

Definition willRead (n : Z) : M unit := fun s =>
  let s := set_kind None s in
  match stack s with
  | (pos, sz) :: st =>
      if u64 (sz - pos) <? n then (Err ErrElemTooLarge, s)
      else
        let s := set_stack None (size s) ((pos + n, sz) :: st) s in
        if limited s && (remaining s <? n) then (Err ErrValueTooLarge, s)
        else (Ok tt, mkStream (input s) (if limited s then remaining s - n else remaining s)
                       (limited s) (kind s) (size s) (byteval s) (kinderr s) (stack s))
  | [] =>
      if limited s && (remaining s <? n) then (Err ErrValueTooLarge, s)
      else (Ok tt, mkStream (input s) (if limited s then remaining s - n else remaining s)
                     (limited s) (kind s) (size s) (byteval s) (kinderr s) (stack s))
  end.

Definition set_input (r : bytes) (s : Stream) : Stream :=
  mkStream r (remaining s) (limited s) (kind s) (size s) (byteval s) (kinderr s) (stack s).

(** [readFull] of a buffer of [n] bytes; a short input is used up. *)
Definition readFull (n : Z) : M bytes :=
  do _ <- willRead n;
  fun s =>
    if len (input s) <? n then (Err UnexpectedEOF, set_input [] s)
    else (Ok (take (Z.to_nat n) (input s)), set_input (drop (Z.to_nat n) (input s)) s).

Definition readByte : M Z :=
  do _ <- willRead 1;
  fun s =>
    match input s with
    | [] => (Err UnexpectedEOF, s)
    | b :: r => (Ok b, set_input r s)
    end.

(** [binary.BigEndian.Uint64] of the zero-padded buffer is [SetBytes]. *)
Definition readUint (sz : Z) : M Z :=
  if sz =? 0 then fun s => (Ok 0, set_kind None s)
  else if sz =? 1 then readByte
  else
    do b <- readFull sz;
    if b !!! 0%nat =? 0 then fail ErrCanonSize else ret (SetBytes b).

Definition set_byteval (b : Z) (s : Stream) : Stream :=
  mkStream (input s) (remaining s) (limited s) (kind s) (size s) b (kinderr s) (stack s).

(** [readKind] returns its kind and size with the error, as the Go code does:
    [Kind] stores all three. *)
Definition stream_readKind (s : Stream) : Kind * Z * option rlp_error * Stream :=
  match readByte s with
  | (Ok b, s) =>
      let s := set_byteval 0 s in
      if b <? 0x80 then (Byte, 0, None, set_byteval b s)
      else if b <? 0xB8 then (String, b - 0x80, None, s)
      else if b <? 0xC0 then
        match readUint (b - 0xB7) s with
        | (Ok sz, s) => (String, sz, if sz <? 56 then Some ErrCanonSize else None, s)
        | (Err e, s) => (String, 0, Some e, s)
        | (Panic, s) => (String, 0, None, s)
        end
      else if b <? 0xF8 then (List, b - 0xC0, None, s)
      else
        match readUint (b - 0xF7) s with
        | (Ok sz, s) => (List, sz, if sz <? 56 then Some ErrCanonSize else None, s)
        | (Err e, s) => (List, 0, Some e, s)
        | (Panic, s) => (List, 0, None, s)
        end
  | (Err e, s) =>
      let e := match stack s, e with
               | [], UnexpectedEOF | [], ErrValueTooLarge => EOF
               | _, _ => e
               end in
      (Byte, 0, Some e, s)
  | (Panic, s) => (Byte, 0, None, s)
  end.

Definition KindM : M (Kind * Z) := fun s =>
  match kind s with
  | Some k =>
      match kinderr s with
      | None => (Ok (k, size s), s)
      | Some e => (Err e, s)
      end
  | None =>
      let s := mkStream (input s) (remaining s) (limited s) None (size s) (byteval s) None (stack s) in
      let eol := match stack s with (pos, sz) :: _ => pos =? sz | [] => false end in
      if eol then (Err EOL, s)
      else
        let '(k, sz, err, s) := stream_readKind s in
        let err :=
          match err with
          | Some e => Some e
          | None =>
              match stack s with
              | [] => if limited s && (remaining s <? sz) then Some ErrValueTooLarge else None
              | (pos, lsz) :: _ => if u64 (lsz - pos) <? sz then Some ErrElemTooLarge else None
              end
          end in
        let s := mkStream (input s) (remaining s) (limited s) (Some k) sz (byteval s) err (stack s) in
        (match err with None => Ok (k, sz) | Some e => Err e end, s)
  end.

(** ** Stream operations *)

Definition stream_Bytes : M bytes :=
  do (k, sz) <- KindM;
  match k with
  | Byte => fun s => (Ok [byteval s], set_kind None s)
  | String =>
      do b <- readFull sz;
      if (sz =? 1) && (b !!! 0%nat <? 128) then fail ErrCanonSize else ret b
  | List => fail ErrExpectedString
  end.

(** The header is rebuilt with [puthead]; the tags are those of the source. *)
Definition Raw : M bytes :=
  do (k, sz) <- KindM;
  match k with
  | Byte => fun s => (Ok [byteval s], set_kind None s)
  | String => do b <- readFull sz; ret (puthead 0x80 0xB8 sz ++ b)
  | List => do b <- readFull sz; ret (puthead 0xC0 0xF7 sz ++ b)
  end.

Definition uint (maxbits : Z) : M Z :=
  do (k, sz) <- KindM;
  match k with
  | Byte => fun s => if byteval s =? 0 then (Err ErrCanonInt, s) else (Ok (byteval s), set_kind None s)
  | String =>
      if maxbits / 8 <? sz then fail errUintOverflow
      else fun s =>
        match readUint sz s with
        | (Err ErrCanonSize, s) => (Err ErrCanonInt, s)
        | (Ok v, s) => if (0 <? sz) && (v <? 128) then (Err ErrCanonSize, s) else (Ok v, s)
        | r => r
        end
  | List => fail ErrExpectedString
  end.

Definition Uint : M Z := uint 64.

Definition stream_Bool : M bool :=
  do num <- uint 8;
  if num =? 0 then ret false else if num =? 1 then ret true else fail errInvalidBool.

Definition stream_List : M Z :=
  do (k, sz) <- KindM;
  match k with
  | List => fun s => (Ok sz, set_stack None 0 ((0, sz) :: stack s) s)
  | _ => fail ErrExpectedList
  end.

Definition ListEnd : M unit := fun s =>
  match stack s with
  | [] => (Err errNotInList, s)
  | (pos, sz) :: st =>
      if pos =? sz then
        (Ok tt, set_stack None 0 (match st with (p, z) :: st => (p + sz, z) :: st | [] => [] end) s)
      else (Err errNotAtEOL, s)
  end.

(** ** Generated decoders *)

Definition wrapStreamError (e : rlp_error) : rlp_error :=
  match e with
  | ErrCanonInt => DecodeError MsgCanonInt
  | ErrCanonSize => DecodeError MsgCanonSize
  | ErrExpectedList => DecodeError MsgExpectedList
  | ErrExpectedString => DecodeError MsgExpectedString
  | errUintOverflow => DecodeError MsgTooLongInt
  | errNotAtEOL => DecodeError MsgTooMany
  | e => e
  end.

Definition wrapped {A} (m : M A) : M A := fun s =>
  match m s with (Err e, s) => (Err (wrapStreamError e), s) | r => r end.

Definition decodeUint (bits : Z) : M rval := do n <- wrapped (uint bits); ret (VInt n).
Definition decodeBool : M rval := do b <- wrapped stream_Bool; ret (VBool b).
Definition decodeString : M rval := do b <- wrapped stream_Bytes; ret (VBytes b).
Definition decodeByteSlice : M rval := do b <- wrapped stream_Bytes; ret (VBytes b).
Definition decodeRawValue : M rval := do b <- Raw; ret (VBytes b).

Definition decodeBigInt : M rval :=
  do b <- wrapped stream_Bytes;
  if match b with x :: _ => x =? 0 | [] => false end
  then fail (wrapStreamError ErrCanonInt) else ret (VInt (SetBytes b)).

Definition decodeByteArray (vlen : nat) : M rval :=
  do (k, sz) <- KindM;
  match k with
  | Byte =>
      if (vlen =? 0)%nat then fail (DecodeError MsgTooLong)
      else if (1 <? vlen)%nat then fail (DecodeError MsgTooShort)
      else fun s =>
        (* the error of s.Uint() is dropped *)
        match Uint s with
        | (Ok bv, s) => (Ok (VBytes [bv]), s)
        | (Err _, s) => (Ok (VBytes [0]), s)
        | (Panic, s) => (Panic, s)
        end
  | String =>
      if Z.of_nat vlen <? sz then fail (DecodeError MsgTooLong)
      else if sz <? Z.of_nat vlen then fail (DecodeError MsgTooShort)
      else
        do b <- readFull sz;
        if (sz =? 1) && (b !!! 0%nat <? 128) then fail (wrapStreamError ErrCanonSize)
        else ret (VBytes b)
  | List => fail (wrapStreamError ErrExpectedString)
  end.

(** The loop of [decodeSliceElems]: elements up to the end of the list. *)
Fixpoint decodeSliceElems (elemdec : M rval) (fuel : nat) : M (list rval) :=
  match fuel with
  | O => fun s => (Panic, s)
  | S fuel => fun s =>
      match elemdec s with
      | (Err EOL, s) => (Ok [], s)
      | (Err e, s) => (Err e, s)
      | (Panic, s) => (Panic, s)
      | (Ok v, s) => (do vs <- decodeSliceElems elemdec fuel; ret (v :: vs)) s
      end
  end.

Definition decodeListSlice (elemdec : M rval) (fuel : nat) : M rval :=
  do sz <- wrapped stream_List;
  if sz =? 0 then do _ <- ListEnd; ret (VList [])
  else
    do vs <- decodeSliceElems elemdec fuel;
    do _ <- ListEnd;
    ret (VList vs).

Fixpoint array_elems (elemdec : M rval) (n : nat) : M (list rval) :=
  match n with
  | O => ret []
  | S n => fun s =>
      match elemdec s with
      | (Err EOL, s) => (Err (DecodeError MsgTooFew), s)
      | (Err e, s) => (Err e, s)
      | (Panic, s) => (Panic, s)
      | (Ok v, s) => (do vs <- array_elems elemdec n; ret (v :: vs)) s
      end
  end.

Definition decodeListArray (elemdec : M rval) (vlen : nat) : M rval :=
  do _ <- wrapped stream_List;
  do vs <- array_elems elemdec vlen;
  do _ <- wrapped ListEnd;
  ret (VList vs).

(** The field loop of the struct decoder. *)
Fixpoint struct_fields (decs : list (M rval)) : M (list rval) :=
  match decs with
  | [] => ret []
  | dec :: decs => fun s =>
      match dec s with
      | (Err EOL, s) => (Err (DecodeError MsgTooFew), s)
      | (Err e, s) => (Err e, s)
      | (Panic, s) => (Panic, s)
      | (Ok v, s) => (do vs <- struct_fields decs; ret (v :: vs)) s
      end
  end.

Definition decodeStruct (decs : list (M rval)) : M rval :=
  do _ <- wrapped stream_List;
  do vs <- struct_fields decs;
  do _ <- wrapped ListEnd;
  ret (VList vs).

Definition decodeOptionalPtr (dec : M rval) : M rval := fun s =>
  match KindM s with
  | (Err e, s) => (Err e, set_kind None s)
  | (Panic, s) => (Panic, s)
  | (Ok (k, sz), s) =>
      if (sz =? 0) && negb (bool_decide (k = Byte)) then (Ok VNil, set_kind None s)
      else (do v <- dec; ret (VPtr v)) s
  end.

Definition decodeInterface (slice : M rval) : M rval :=
  do (k, _) <- KindM;
  match k with
  | List => do v <- slice; ret (VIface (TSlice false TInterface) v)
  | _ => do b <- stream_Bytes; ret (VIface TBytes (VBytes b))
  end.

(** An array has a length, a slice has none; [tail] is the tag of the field. *)
Definition makeListDecoder (n : option nat) (tail : bool) (e : rtype) (elemdec : M rval) (fuel : nat) : M rval :=
  if isByte e then match n with Some n => decodeByteArray n | None => decodeByteSlice end
  else
    match n with
    | Some n => decodeListArray elemdec n
    | None =>
        if tail then do vs <- decodeSliceElems elemdec fuel; ret (VList vs)
        else decodeListSlice elemdec fuel
    end.

(** [makeDecoder]; the fuel bounds the nesting and the length of lists. *)
Fixpoint decoder (fuel : nat) (t : rtype) : M rval :=
  match fuel with
  | O => fun s => (Panic, s)
  | S fuel =>
      match t with
      | TRawValue => decodeRawValue
      | TBigInt => decodeBigInt
      | TUint bits => decodeUint bits
      | TBool => decodeBool
      | TString => decodeString
      | TBytes => decodeByteSlice
      | TByteArray n => decodeByteArray n
      | TSlice tail e => makeListDecoder None tail e (decoder fuel e) fuel
      | TArray n e => makeListDecoder (Some n) false e (decoder fuel e) fuel
      | TStruct fs => decodeStruct (map (decoder fuel) fs)
      | TPtr true e => decodeOptionalPtr (decoder fuel e)
      | TPtr false e => do v <- decoder fuel e; ret (VPtr v)
      | TInterface => decodeInterface (decodeListSlice (decoder fuel TInterface) fuel)
      end
  end.

Definition DecodeBytes (fuel : nat) (b : bytes) (t : rtype) : outcome rlp_error rval :=
  match decoder fuel t (NewStream b (len b)) with
  | (Ok v, s) => match input s with [] => Ok v | _ :: _ => Err ErrMoreThanOneValue end
  | (Err e, _) => Err e
  | (Panic, _) => Panic
  end.

(** ** Positions in the input *)

(** There is room for [n] more bytes in the innermost list and the input. *)
Definition room (n : Z) (s : Stream) : Prop :=
  0 <= n < 2 ^ 64 /\ (limited s = true -> n <= remaining s) /\
  match stack s with [] => True | (pos, sz) :: _ => 0 <= pos /\ pos + n <= sz < 2 ^ 64 end.

Definition bump (n : Z) (st : list (Z * Z)) : list (Z * Z) :=
  match st with [] => [] | (pos, sz) :: st => (pos + n, sz) :: st end.

(** [s'] is [s] after [n] bytes, with [rest] to be read. *)
Definition moved (n : Z) (rest : bytes) (s s' : Stream) : Prop :=
  input s' = rest /\ limited s' = limited s /\
  remaining s' = (if limited s then remaining s - n else remaining s) /\
  stack s' = bump n (stack s).

(** The same, ready to read the next value. *)
Definition advanced (n : Z) (rest : bytes) (s s' : Stream) : Prop :=
  moved n rest s s' /\ kind s' = None.

Lemma bump_bump a b st : bump b (bump a st) = bump (a + b) st.
Proof. destruct st as [|[p z] st]; cbn; [done|]. do 2 f_equal. lia. Qed.

Lemma moved_trans a b r1 r2 s s1 s2 : moved a r1 s s1 -> moved b r2 s1 s2 -> moved (a + b) r2 s s2.
Proof.
  intros (I1 & L1 & R1 & S1) (I2 & L2 & R2 & S2). unfold moved.
  rewrite I2, L2, L1, R2, L1, R1, S2, S1, bump_bump. repeat split. destruct (limited s); lia.
Qed.

Lemma room_split a b s s' r :
  0 <= a -> 0 <= b -> room (a + b) s -> moved a r s s' -> room b s'.
Proof.
  intros Ha Hb (Hn & Hl & Hs) (I & L & R & S). unfold room. rewrite L, R, S.
  split; [lia|]. split.
  - intros E. rewrite E in *. specialize (Hl eq_refl). lia.
  - destruct (stack s) as [|[p z] st]; cbn; [done|]. lia.
Qed.

Lemma room_le a b s : 0 <= b <= a -> room a s -> room b s.
Proof.
  intros H (Hn & Hl & Hs). split; [lia|]. split; [intros E; specialize (Hl E); lia|].
  destruct (stack s) as [|[p z] st]; [done|]. lia.
Qed.

Lemma willRead_room n s :
  room n s -> exists s', willRead n s = (Ok tt, s') /\ advanced n (input s) s s' /\
                         byteval s' = byteval s.
Proof.
  intros (Hn & Hl & Hs). unfold willRead. cbn.
  assert (G : (limited s && (remaining s <? n)) = false).
  { destruct (limited s); [|done]. specialize (Hl eq_refl). cbn. by ztests. }
  destruct (stack s) as [|[p z] st] eqn:E; cbn.
  - rewrite G. eexists. split; [done|]. unfold advanced, moved. cbn. rewrite E. done.
  - rewrite u64_small by lia. ztests. rewrite G. eexists. split; [done|].
    unfold advanced, moved. cbn. rewrite E. done.
Qed.

Lemma readByte_ok x r s :
  room 1 s -> input s = x :: r -> exists s', readByte s = (Ok x, s') /\ advanced 1 r s s'.
Proof.
  intros Hr E. destruct (willRead_room 1 s Hr) as (s1 & W & ((I & L & R & S) & K) & _).
  unfold readByte, bindM. rewrite W, I, E. eexists. split; [done|]. by repeat split.
Qed.

Lemma readFull_ok b r s :
  room (len b) s -> input s = b ++ r -> exists s', readFull (len b) s = (Ok b, s') /\ advanced (len b) r s s'.
Proof.
  intros Hr E. destruct (willRead_room _ s Hr) as (s1 & W & ((I & L & R & S) & K) & _).
  unfold readFull, bindM. rewrite W, I, E, length_app. ztests.
  rewrite Nat2Z.id, take_app_length, drop_app_length. eexists. split; [done|]. by repeat split.
Qed.

Lemma readUint_Bytes n r s :
  56 <= n < 2 ^ 64 -> room (len (Bytes n)) s -> input s = Bytes n ++ r ->
  exists s', readUint (len (Bytes n)) s = (Ok n, s') /\ advanced (len (Bytes n)) r s s'.
Proof.
  intros Hn Hr E. pose proof (long_head_size n Hn). unfold readUint. ztests.
  destruct (Bytes_head n) as (x & q & Eb & Hx); [lia|].
  destruct (Z.eqb_spec (len (Bytes n)) 1) as [E1|E1].
  - assert (q = []) as -> by (rewrite Eb in E1; destruct q; [done|cbn in E1; lia]).
    assert (x = n) as ->.
    { pose proof (SetBytes_Bytes n) as V. rewrite Eb in V. unfold SetBytes in V. cbn in V. lia. }
    rewrite E1 in *. rewrite Eb in E. by apply readByte_ok.
  - destruct (readFull_ok (Bytes n) r s Hr E) as (s' & F & A). exists s'.
    assert (E0 : Bytes n !!! 0%nat = x) by by rewrite Eb.
    unfold bindM. rewrite F, E0, SetBytes_Bytes by lia. ztests. done.
Qed.

(** ** The header of a value *)

Definition ksize (k : Kind) (c : bytes) : Z := match k with Byte => 0 | _ => len c end.

(** After [Kind] on the encoding of [c]: the tag has been read (with the value
    itself, when it is a single byte), and kind and size are cached. *)
Definition at_content (k : Kind) (c rest : bytes) (s s' : Stream) : Prop :=
  kind s' = Some k /\ size s' = ksize k c /\ kinderr s' = None /\
  match k with
  | Byte => c = [byteval s'] /\ moved 1 rest s s'
  | _ => moved (len (tag_bytes k c)) (c ++ rest) s s'
  end.

Lemma not_eol n s : 0 < n -> room n s ->
  match stack s with (pos, sz) :: _ => pos =? sz | [] => false end = false.
Proof.
  intros Hn (_ & _ & Hs). destruct (stack s) as [|[p z] st]; [done|]. ztests. done.
Qed.

(** The size check of [Kind] passes when there is room for the content. *)
Lemma size_check s sz :
  room sz s ->
  (match stack s with
   | [] => if limited s && (remaining s <? sz) then Some ErrValueTooLarge else None
   | (pos, lsz) :: _ => if u64 (lsz - pos) <? sz then Some ErrElemTooLarge else None
   end : option rlp_error) = None.
Proof.
  intros (Hn & Hl & Hs). destruct (stack s) as [|[p z] st].
  - destruct (limited s); [|done]. specialize (Hl eq_refl). cbn. by ztests.
  - rewrite u64_small by lia. by ztests.
Qed.

Lemma readKind_byte x rest s :
  0 <= x < 0x80 -> room 1 s -> input s = x :: rest ->
  exists s', stream_readKind s = (Byte, 0, None, s') /\ moved 1 rest s s' /\ byteval s' = x.
Proof.
  intros Hx Hr E. destruct (readByte_ok x rest s Hr E) as (s1 & F & (Mv & K)).
  unfold stream_readKind. rewrite F. ztests. eexists. split; [done|]. split; [exact Mv|done].
Qed.

(** Tags of strings and lists, short and long. *)
Definition tag_of (k : Kind) : Z * Z := match k with List => (0xC0, 0xF7) | _ => (0x80, 0xB7) end.

Lemma readKind_tag_stream k n rest s :
  k <> Byte -> 0 <= n < 2 ^ 64 ->
  let T := head_bytes (tag_of k).1 (tag_of k).2 n in
  room (len T) s -> input s = T ++ rest ->
  exists s', stream_readKind s = (k, n, None, s') /\ moved (len T) rest s s'.
Proof.
  intros Hk Hn T Hr E. unfold stream_readKind.
  assert (H1 : exists x q, T = x :: q) by (subst T; rewrite head_bytes_cons; case_match; eauto).
  destruct H1 as (x & q & ET).
  destruct (readByte_ok x (q ++ rest) s) as (s1 & F & (Mv & K));
    [eapply room_le; [|exact Hr]; rewrite ET; cbn; lia|by rewrite E, ET|].
  rewrite F. subst T. rewrite head_bytes_cons in *. pose proof (long_head_size n).
  destruct (Z.ltb_spec n 56).
  - injection ET as <- <-. destruct k; [done| |]; cbn in *; ztests; eexists;
      (split; [do 3 f_equal; lia|exact Mv]).
  - injection ET as <- <-. specialize (H ltac:(lia)).
    assert (Hr1 : room (len (Bytes n)) (set_byteval 0 s1)).
    { eapply (room_split 1); [lia|lia| |exact Mv]. eapply room_le; [|exact Hr]. cbn. lia. }
    destruct (readUint_Bytes n rest (set_byteval 0 s1)) as (s2 & F2 & (Mv2 & K2)); [lia|exact Hr1|apply Mv|].
    assert (Mv' : moved (len ((tag_of k).2 + len (Bytes n) :: Bytes n)) rest s s2).
    { replace (len (_ :: _)) with (1 + len (Bytes n)) by (cbn; lia). eapply moved_trans; [exact Mv|exact Mv2]. }
    destruct k; [done| |]; cbn [tag_of fst snd] in *; ztests;
      (replace (_ + len (Bytes n) - _) with (len (Bytes n)) by lia); rewrite F2; ztests; eauto.
Qed.

Lemma KindM_ok k c rest s :
  kind s = None -> kind_ok k c -> (k = Byte -> bytes_ok c) -> input s = tag_bytes k c ++ c ++ rest ->
  room (len (tag_bytes k c ++ c)) s ->
  exists s', KindM s = (Ok (k, ksize k c), s') /\ at_content k c rest s s'.
Proof.
  intros K Hk Hb E Hr. pose proof (tag_nonempty k c Hk) as Hne.
  unfold KindM. rewrite K. cbn [stack]. rewrite (not_eol (len (tag_bytes k c ++ c)) s) by (try exact Hr; lia).
  set (s0 := mkStream _ _ _ _ _ _ None _).
  assert (Hr0 : room (len (tag_bytes k c ++ c)) s0) by exact Hr.
  destruct (decide (k = Byte)) as [->|Nb].
  - destruct Hk as (x & -> & Hx). apply Forall_cons in Hb as [Hb _]; [|done]. unfold byte_ok in Hb.
    destruct (readKind_byte x rest s0) as (s1 & F & Mv & Bv); [lia|exact Hr0|exact E|].
    rewrite F. rewrite size_check;
      [|eapply (room_split 1 0); [lia|lia|exact Hr0|exact Mv]].
    eexists. split; [done|]. cbn. rewrite Bv. by repeat split; try apply Mv.
  - destruct (readKind_tag_stream k (len c) (c ++ rest) s0) as (s1 & F & Mv); [done| | | |].
    + rewrite length_app in Hr0. destruct Hr0. lia.
    + eapply room_le; [|exact Hr0]. rewrite length_app. destruct k; [done| |]; cbn -[head_bytes]; lia.
    + destruct k; [done|exact E|exact E].
    + rewrite F. rewrite length_app, Nat2Z.inj_add in Hr0.
      assert (Hr1 : room (len c) s1).
      { eapply (room_split (len (tag_bytes k c))); [lia|lia|exact Hr0|]. by destruct k. }
      rewrite size_check by exact Hr1. eexists. split; [by destruct k|].
      unfold at_content. cbn. destruct k; [done| |]; repeat split; apply Mv.
Qed.

(** ** Strings and integers *)

(** The value ahead is the string [b]. *)
Definition ahead (e rest : bytes) (s : Stream) : Prop :=
  kind s = None /\ input s = e ++ rest /\ room (len e) s.

Lemma ahead_kind b rest s :
  bytes_ok b -> ahead (enc_string b) rest s ->
  exists k s', k <> List /\ kind_ok k b /\ KindM s = (Ok (k, ksize k b), s') /\ at_content k b rest s s' /\
    len (enc_string b) = len (tag_bytes k b) + len b /\ room (len (enc_string b)) s.
Proof.
  intros Hb (K & E & Hr). destruct (kind_of_string b) as (k & Hk & Ek & Nl).
  rewrite <- Ek, enc_kind_tag in * by done.
  destruct (KindM_ok k b rest s) as (s' & F & A); [done|done|done|by rewrite E, <- app_assoc|done|].
  exists k, s'. split_and!; try done. rewrite length_app. lia.
Qed.

(** What follows [Kind] when the content is read in full. *)
Lemma read_content k b rest s s' :
  k <> Byte -> room (len (tag_bytes k b) + len b) s -> at_content k b rest s s' ->
  exists s'', readFull (len b) s' = (Ok b, s'') /\
              advanced (len (tag_bytes k b) + len b) rest s s''.
Proof.
  intros Nb Hr (_ & _ & _ & Mv). assert (Mv' : moved (len (tag_bytes k b)) (b ++ rest) s s') by by destruct k.
  destruct (readFull_ok b rest s') as (s'' & F & (Mv2 & K2));
    [eapply room_split; [| |exact Hr|exact Mv']; lia|apply Mv'|].
  exists s''. split; [done|]. split; [by eapply moved_trans|done].
Qed.

Lemma Bytes_enc b rest s :
  bytes_ok b -> ahead (enc_string b) rest s ->
  exists s', stream_Bytes s = (Ok b, s') /\ advanced (len (enc_string b)) rest s s'.
Proof.
  intros Hb Ha. destruct (ahead_kind b rest s Hb Ha) as (k & s1 & Nl & Hk & F & A & L & Hr).
  unfold stream_Bytes, bindM. rewrite F. rewrite L in *. destruct k; [| |done].
  - destruct A as (_ & _ & _ & -> & Mv). eexists. split; [done|]. split; [exact Mv|done].
  - destruct (read_content String b rest s s1) as (s2 & F2 & A2); [done|done|done|].
    exists s2. cbn [ksize]. rewrite F2. split; [|done].
    destruct (Z.eqb_spec (len b) 1) as [E1|]; [|done].
    destruct b as [|x [|y b]]; cbn in E1; try lia. specialize (Hk x eq_refl). cbn. by ztests.
Qed.

(** An integer whose string needs a tag is at least 128. *)
Lemma tagged_int_large n : 0 < n -> kind_ok String (Bytes n) -> 128 <= n.
Proof.
  intros Pn Hk. pose proof (SetBytes_Bytes n ltac:(lia)) as V.
  destruct (Bytes_head n Pn) as (x & q & Eb & Hx). pose proof (Bytes_ok n) as Hb.
  rewrite Eb in *. apply Forall_cons in Hb as [Hx0 Hq]. unfold byte_ok in Hx0.
  destruct q as [|y q].
  - specialize (Hk x eq_refl). unfold SetBytes in V. cbn in V. lia.
  - rewrite SetBytes_cons in V. pose proof (SetBytes_range _ Hq).
    assert (256 ^ 1 <= 256 ^ len (y :: q)) by (apply Z.pow_le_mono_r; cbn; lia). nia.
Qed.

(** [readUint] on the content of a tagged integer. *)
Lemma readUint_content n rest s :
  0 < n -> room (len (Bytes n)) s -> input s = Bytes n ++ rest ->
  exists s', readUint (len (Bytes n)) s = (Ok n, s') /\ advanced (len (Bytes n)) rest s s'.
Proof.
  intros Pn Hr E. pose proof (SetBytes_Bytes n ltac:(lia)) as V.
  destruct (Bytes_head n Pn) as (x & q & Eb & Hx).
  assert (Hl : 1 <= len (Bytes n)) by (rewrite Eb; cbn; lia).
  unfold readUint. destruct (Z.eqb_spec (len (Bytes n)) 1) as [E1|E1]; ztests.
  - assert (Eq : q = []) by (rewrite Eb in E1; destruct q; [done|cbn in E1; lia]). subst q.
    rewrite E1 in *. rewrite Eb in *. unfold SetBytes in V. cbn in V. replace n with x by lia.
    by apply readByte_ok.
  - destruct (readFull_ok (Bytes n) rest s Hr E) as (s2 & F2 & A2). exists s2. unfold bindM. rewrite F2.
    assert (E0 : Bytes n !!! 0%nat = x) by by rewrite Eb. rewrite E0, V. by ztests.
Qed.

Lemma uint_enc n bits rest s :
  (bits = 8 \/ bits = 16 \/ bits = 32 \/ bits = 64) -> 0 <= n < 2 ^ bits ->
  ahead (enc_string (Bytes n)) rest s ->
  exists s', uint bits s = (Ok n, s') /\ advanced (len (enc_string (Bytes n))) rest s s'.
Proof.
  intros Hbits Hn Ha. pose proof (Bytes_ok n) as Hb.
  destruct (ahead_kind _ rest s Hb Ha) as (k & s1 & Nl & Hk & F & A & L & Hr).
  pose proof (SetBytes_Bytes n ltac:(lia)) as V.
  unfold uint, bindM. rewrite F. rewrite L in *. destruct k; [| |done].
  - destruct A as (_ & _ & _ & Eb & Mv). rewrite Eb in *. unfold SetBytes in V. cbn in V.
    destruct (Z.eqb_spec (byteval s1) 0) as [E0|E0].
    { exfalso. assert (n = 0) as -> by lia. discriminate Eb. }
    replace n with (byteval s1) by lia. eexists. split; [done|]. split; [exact Mv|done].
  - cbn [ksize]. assert (Hl : len (Bytes n) <= bits / 8).
    { destruct Hbits as [->|[->|[->| ->]]];
        [apply (Bytes_length n 1) in Hn|apply (Bytes_length n 2) in Hn|
         apply (Bytes_length n 4) in Hn|apply (Bytes_length n 8) in Hn]; dlia. }
    destruct A as (_ & _ & _ & Mv). ztests. destruct (Z.eq_dec n 0) as [->|Nz].
    { eexists. split; [reflexivity|]. split; [exact Mv|done]. }
    destruct (readUint_content n rest s1) as (s2 & F2 & (Mv2 & K2)); [lia| |apply Mv|].
    { eapply room_split; [| |exact Hr|exact Mv]; lia. }
    exists s2. rewrite F2. pose proof (tagged_int_large n ltac:(lia) Hk). ztests.
    rewrite andb_false_r. split; [done|]. split; [by eapply moved_trans|done].
Qed.

(** ** Lists *)

Lemma head_bytes_pos small large n : 1 <= len (head_bytes small large n).
Proof. rewrite head_bytes_cons. case_match; cbn; lia. Qed.

Lemma List_enc payload rest s :
  ahead (enc_list payload) rest s ->
  exists s1, stream_List s = (Ok (len payload), s1) /\ kind s1 = None /\
    input s1 = payload ++ rest /\ room (len payload) s1 /\
    stack s1 = (0, len payload) :: bump (len (head_bytes 0xC0 0xF7 (len payload))) (stack s) /\
    limited s1 = limited s /\
    remaining s1 = (if limited s then remaining s - len (head_bytes 0xC0 0xF7 (len payload)) else remaining s).
Proof.
  intros (K & E & Hr). unfold enc_list in *.
  destruct (KindM_ok List payload rest s) as (s1 & F & A); [done|done|done|by rewrite E, <- app_assoc|done|].

  unfold stream_List, bindM. rewrite F. cbn [ksize].
  destruct A as (_ & _ & _ & Mv). cbn [tag_bytes] in Mv.
  rewrite length_app, Nat2Z.inj_add in Hr. assert (Hr1 : room (len payload) s1) by (eapply room_split; [| |exact Hr|exact Mv]; lia).
  eexists. split; [done|]. destruct Mv as (I & L & R & S). cbn. rewrite S.
  split_and!; try done. destruct Hr1 as (Hn & Hl & _). split; [exact Hn|]. split; [exact Hl|]. cbn. lia.
Qed.

Lemma ListEnd_ok (payload rest : bytes) s s1 s2 n :
  stack s1 = (0, len payload) :: bump n (stack s) -> limited s1 = limited s ->
  remaining s1 = (if limited s then remaining s - n else remaining s) ->
  moved (len payload) rest s1 s2 ->
  exists s3, ListEnd s2 = (Ok tt, s3) /\ advanced (n + len payload) rest s s3.
Proof.
  intros S1 L1 R1 (I & L & R & S). unfold ListEnd. rewrite S, S1. cbn [bump].
  replace (0 + len payload) with (len payload) by lia. rewrite Z.eqb_refl.
  eexists. split; [done|]. unfold advanced, moved. cbn.
  rewrite I, L, R, L1, R1. split; [|done]. split_and!; [done|done|destruct (limited s); lia|].
  destruct (stack s) as [|[p z] st]; cbn; [done|]. do 2 f_equal. lia.
Qed.

(** ** The end of a list *)

Definition at_eol (s : Stream) : Prop :=
  kind s = None /\ exists p st, stack s = (p, p) :: st.

Definition clear_err (s : Stream) : Stream :=
  mkStream (input s) (remaining s) (limited s) None (size s) (byteval s) None (stack s).

Lemma KindM_eol s : at_eol s -> KindM s = (Err EOL, clear_err s).
Proof.
  intros (K & p & st & S). unfold KindM, clear_err. rewrite K. cbn. rewrite S. cbn. by rewrite Z.eqb_refl.
Qed.

(** ** Round trip *)

(** The values the decoder of a type can produce: pointers are not nil unless
    the field is tagged so, and an optional pointer does not point to a value
    that encodes as empty.  A one-byte array holding zero is not among them,
    see [decodeByteArray]; raw values are not, see [Raw_long_string_header]; and a
    tail slice of elements other than bytes reads on to the end of the list around
    it. *)
Fixpoint rt (v : rval) (t : rtype) {struct v} : Prop :=
  match t, v with
  | TString, VBytes b | TBytes, VBytes b => bytes_ok b
  | TByteArray n, VBytes b => bytes_ok b /\ length b = n /\ b <> [0]
  | TBigInt, VInt z => 0 <= z
  | TUint bits, VInt z => (bits = 8 \/ bits = 16 \/ bits = 32 \/ bits = 64) /\ 0 <= z < 2 ^ bits
  | TBool, VBool _ => True
  | TSlice _ e, VBytes b => isByte e = true /\ bytes_ok b
  | TArray n e, VBytes b => isByte e = true /\ bytes_ok b /\ length b = n /\ b <> [0]
  | TSlice false e, VList vs => isByte e = false /\ foldr (fun v P => rt v e /\ P) True vs
  | TArray n e, VList vs => isByte e = false /\ length vs = n /\ foldr (fun v P => rt v e /\ P) True vs
  | TStruct fs, VList vs =>
      (fix go (vs : list rval) (fs : list rtype) : Prop :=
         match vs, fs with
         | [], [] => True
         | v :: vs, f :: fs => rt v f /\ go vs fs
         | _, _ => False
         end) vs fs
  | TPtr false e, VPtr v => rt v e
  | TPtr true e, VPtr v => rt v e /\ enc v e <> [0x80] /\ enc v e <> [0xC0]
  | TPtr true e, VNil => enc_nil e = [0x80] \/ enc_nil e = [0xC0]
  | TInterface, VIface TBytes (VBytes b) => bytes_ok b
  | TInterface, VIface (TSlice false TInterface) (VList vs) =>
      foldr (fun v P => rt v TInterface /\ P) True vs
  | _, _ => False
  end.

Definition rt_fields : list rval -> list rtype -> Prop :=
  fix go vs fs :=
    match vs, fs with
    | [], [] => True
    | v :: vs, f :: fs => rt v f /\ go vs fs
    | _, _ => False
    end.

(** Slices and arrays: whether the elements are bytes. *)
Ltac byte_case :=
  match goal with
  | H : rt _ (TSlice _ _) |- _ => destruct H as [HB H]; rewrite ?HB in *
  | H : rt _ (TArray _ _) |- _ => destruct H as [HB H]; rewrite ?HB in *
  end.

(** The fuel a value takes to decode. *)
Fixpoint vsize (v : rval) : nat :=
  match v with
  | VList vs => S (foldr (fun v n => S (vsize v + n)) 0%nat vs)
  | VPtr v => S (vsize v)
  | VIface _ v => S (vsize v)
  | _ => 1%nat
  end.

Definition decodes (v : rval) : Prop :=
  forall t fuel rest s, rt v t -> (vsize v <= fuel)%nat -> ahead (enc v t) rest s ->
  exists s', decoder fuel t s = (Ok v, s') /\ advanced (len (enc v t)) rest s s'.

Lemma decoder_eol v t fuel s :
  rt v t -> (vsize v <= fuel)%nat -> at_eol s -> decoder fuel t s = (Err EOL, clear_err s).
Proof.
  revert t fuel. induction v as [b|z|b|vs IH| |v IH|t' v IH] using rval_nested_ind;
    intros t [|fuel] Hrt Hf He; try (cbn in Hf; lia);
    destruct t as [| |bits| | | |n|[] e|n e|fs|[] e|]; try done; cbn [decoder]; unfold makeListDecoder; try byte_case;
    unfold decodeString, decodeByteSlice, decodeByteArray, decodeBigInt, decodeUint, decodeBool,
      decodeListSlice, decodeListArray, decodeStruct, decodeOptionalPtr, decodeInterface,
      wrapped, stream_Bytes, stream_Bool, stream_List, uint, bindM;
    try (rewrite KindM_eol by done; done).
  rewrite (IH e fuel); [done|done|cbn in Hf; lia|done].
Qed.

Lemma vsize_pos v : (1 <= vsize v)%nat.
Proof. destruct v; cbn; lia. Qed.

Lemma vsize_elems vs f :
  (foldr (fun v n => S (vsize v + n)) 0 vs <= f)%nat ->
  Forall (fun v => (vsize v <= f)%nat) vs /\ (vs = [] \/ (length vs < f)%nat).
Proof.
  induction vs as [|v vs IH]; intros H; [auto|]. cbn in H. pose proof (vsize_pos v).
  destruct IH as [F L]; [lia|]. split.
  - constructor; [lia|]. done.
  - right. destruct L as [->|L]; cbn; [lia|].
    assert (length vs <= foldr (fun v n => S (vsize v + n)) 0 vs)%nat; [|lia].
    clear. induction vs; cbn; lia.
Qed.

Lemma decodes_app v e f rest' payload rest s :
  decodes v -> rt v e -> (vsize v <= f)%nat ->
  kind s = None -> input s = (enc v e ++ payload) ++ rest -> rest' = payload ++ rest ->
  room (len (enc v e ++ payload)) s ->
  exists s1, decoder f e s = (Ok v, s1) /\ advanced (len (enc v e)) (payload ++ rest) s s1 /\
             room (len payload) s1.
Proof.
  intros D R F K E _ Hr. rewrite length_app, Nat2Z.inj_add in Hr.
  destruct (D e f (payload ++ rest) s) as (s1 & E1 & A1); [done|done| |].
  { split; [done|]. split; [by rewrite E, app_assoc|]. eapply room_le; [|exact Hr]. lia. }
  exists s1. split; [done|]. split; [done|]. eapply room_split; [| |exact Hr|apply A1]; lia.
Qed.

Lemma advanced_trans a b r1 r2 s s1 s2 :
  advanced a r1 s s1 -> advanced b r2 s1 s2 -> advanced (a + b) r2 s s2.
Proof. intros (M1 & K1) (M2 & K2). split; [by eapply moved_trans|done]. Qed.

Lemma advanced_0 s : kind s = None -> advanced 0 (input s) s s.
Proof.
  intros K. split; [|done]. split_and!; [done|done|destruct (limited s); lia|].
  destruct (stack s) as [|[p z] st]; cbn; [done|]. by rewrite Z.add_0_r.
Qed.

Definition all_rt (e : rtype) (vs : list rval) : Prop := foldr (fun v P => rt v e /\ P) True vs.

Lemma elems_decode e f v0 vs :
  rt v0 e -> (vsize v0 <= f)%nat ->
  Forall decodes vs -> all_rt e vs -> Forall (fun v => (vsize v <= f)%nat) vs ->
  forall fuel rest s p st, (length vs < fuel)%nat -> kind s = None ->
  let payload := concat (map (fun v => enc v e) vs) in
  input s = payload ++ rest -> room (len payload) s -> stack s = (p, p + len payload) :: st ->
  exists s', decodeSliceElems (decoder f e) fuel s = (Ok vs, s') /\ advanced (len payload) rest s s'.
Proof.
  intros R0 F0 D. induction D as [|v vs Hv D IH]; intros R Fs fuel rest s p st Hf K;
    cbn [map concat]; intros E Hr S; (destruct fuel as [|fuel]; [cbn in Hf; lia|]); cbn [decodeSliceElems].
  - assert (He : at_eol s) by (split; [done|]; exists p, st; rewrite S; cbn; by rewrite Z.add_0_r).
    rewrite (decoder_eol v0) by done.
    eexists. split; [done|]. rewrite <- (app_nil_l rest), <- E.
    split; [exact (proj1 (advanced_0 s K))|done].
  - destruct R as [Rv Rs]. apply Forall_cons in Fs as [Fv Fs].
    destruct (decodes_app v e f _ (concat (map (fun v => enc v e) vs)) rest s Hv Rv Fv K E eq_refl Hr)
      as (s1 & E1 & A1 & Hr1).
    rewrite E1. pose proof A1 as ((I1 & _ & _ & S1) & K1). rewrite S in S1. cbn [bump] in S1.
    destruct (IH Rs Fs fuel rest s1 (p + len (enc v e)) st) as (s2 & E2 & A2);
      [cbn in Hf; lia|done|done|done| |].
    { rewrite S1, length_app. do 2 f_equal. lia. }
    unfold bindM. rewrite E2. eexists. split; [done|].
    rewrite length_app, Nat2Z.inj_add. by eapply advanced_trans.
Qed.

Lemma array_decode e f vs :
  Forall decodes vs -> all_rt e vs -> Forall (fun v => (vsize v <= f)%nat) vs ->
  forall rest s, kind s = None ->
  let payload := concat (map (fun v => enc v e) vs) in
  input s = payload ++ rest -> room (len payload) s ->
  exists s', array_elems (decoder f e) (length vs) s = (Ok vs, s') /\ advanced (len payload) rest s s'.
Proof.
  intros D. induction D as [|v vs Hv D IH]; intros R Fs rest s K; cbn [map concat]; intros E Hr;
    cbn [array_elems length].
  - eexists. split; [done|]. rewrite <- (app_nil_l rest), <- E. by apply advanced_0.
  - destruct R as [Rv Rs]. apply Forall_cons in Fs as [Fv Fs].
    destruct (decodes_app v e f _ (concat (map (fun v => enc v e) vs)) rest s Hv Rv Fv K E eq_refl Hr)
      as (s1 & E1 & A1 & Hr1).
    rewrite E1. pose proof A1 as ((I1 & _) & K1).
    destruct (IH Rs Fs rest s1) as (s2 & E2 & A2); [done|done|done|].
    unfold bindM. rewrite E2. eexists. split; [done|].
    rewrite length_app, Nat2Z.inj_add. by eapply advanced_trans.
Qed.

Lemma fields_decode f vs :
  Forall decodes vs -> Forall (fun v => (vsize v <= f)%nat) vs ->
  forall fs rest s, rt_fields vs fs -> kind s = None ->
  let payload := concat (zip_with (fun v f => enc v f) vs fs) in
  input s = payload ++ rest -> room (len payload) s ->
  exists s', struct_fields (map (decoder f) fs) s = (Ok vs, s') /\ advanced (len payload) rest s s'.
Proof.
  intros D. induction D as [|v vs Hv D IH]; intros Fs [|t fs] rest s R K; try done;
    cbn [zip_with concat map]; intros E Hr; cbn [struct_fields].
  - eexists. split; [done|]. rewrite <- (app_nil_l rest), <- E. by apply advanced_0.
  - destruct R as [Rv Rs]. apply Forall_cons in Fs as [Fv Fs].
    destruct (decodes_app v t f _ (concat (zip_with (fun v f => enc v f) vs fs)) rest s Hv Rv Fv K E eq_refl Hr)
      as (s1 & E1 & A1 & Hr1).
    rewrite E1. pose proof A1 as ((I1 & _) & K1).
    destruct (IH Fs fs rest s1) as (s2 & E2 & A2); [done|done|done|done|].
    unfold bindM. rewrite E2. eexists. split; [done|].
    rewrite length_app, Nat2Z.inj_add. by eapply advanced_trans.
Qed.

Lemma decode_list (m : M (list rval)) vs payload rest s (w : bool) :
  ahead (enc_list payload) rest s ->
  (forall s1, kind s1 = None -> input s1 = payload ++ rest -> room (len payload) s1 ->
     (exists st, stack s1 = (0, 0 + len payload) :: st) ->
     exists s2, m s1 = (Ok vs, s2) /\ advanced (len payload) rest s1 s2) ->
  exists s', (do _ <- wrapped stream_List; do vs <- m;
              do _ <- (if w then wrapped ListEnd else ListEnd); ret (VList vs)) s = (Ok (VList vs), s') /\
             advanced (len (enc_list payload)) rest s s'.
Proof.
  intros Ha Hm. destruct (List_enc payload rest s Ha) as (s1 & F & K & I & Hr & S & L & R).
  destruct (Hm s1) as (s2 & F2 & (Mv2 & K2)); [done|done|done|rewrite S; cbn; eauto|].
  destruct (ListEnd_ok payload rest s s1 s2 _ S L R Mv2) as (s3 & F3 & A3).
  exists s3. unfold bindM, wrapped. rewrite F, F2. split.
  - destruct w; rewrite F3; done.
  - unfold enc_list. rewrite length_app, Nat2Z.inj_add. done.
Qed.

Lemma enc_string_pos b : 1 <= len (enc_string b).
Proof.
  unfold enc_string. pose proof (head_bytes_pos 0x80 0xB7).
  destruct b as [|x [|y b]]; [|case_match; [cbn; lia|]|]; rewrite length_app;
    match goal with |- context [head_bytes _ _ ?n] => specialize (H n) end; lia.
Qed.

Lemma enc_list_pos p : 1 <= len (enc_list p).
Proof. unfold enc_list. rewrite length_app. pose proof (head_bytes_pos 0xC0 0xF7 (len p)). lia. Qed.

Lemma enc_pos v t : rt v t -> 1 <= len (enc v t).
Proof.
  revert t. induction v as [b|z|b|vs IH| |v IH|t' v IH] using rval_nested_ind;
    intros t R; destruct t as [| |bits| | | |n|[] e|n e|fs|[] e|]; try done; cbn [enc];
    auto using enc_string_pos, enc_list_pos.
  - destruct R as [-> | ->]; cbn; lia.
  - apply IH, R.
  - destruct t' as [| |bits| | | |n|[] e|n e|fs|[] e|]; try done.
    + destruct v; try done. apply enc_string_pos.
    + destruct e, v; try done. apply enc_list_pos.
Qed.

Lemma decode_slice e f vs rest s :
  Forall decodes vs -> all_rt e vs ->
  (foldr (fun v n => S (vsize v + n)) 0 vs <= f)%nat ->
  ahead (enc_list (concat (map (fun v => enc v e) vs))) rest s ->
  exists s', decodeListSlice (decoder f e) f s = (Ok (VList vs), s') /\
             advanced (len (enc_list (concat (map (fun v => enc v e) vs)))) rest s s'.
Proof.
  intros D R Hf Ha. destruct (vsize_elems vs f Hf) as (Fs & Ln). unfold decodeListSlice.
  destruct (List_enc _ rest s Ha) as (s1 & F & K & I & Hr & S & L & Rm).
  destruct vs as [|v vs].
  - cbn [map concat] in *. destruct (ListEnd_ok [] rest s s1 s1 _ S L Rm) as (s2 & F2 & A2).
    { rewrite <- (app_nil_l rest), <- I. apply (advanced_0 s1 K). }
    exists s2. unfold bindM, wrapped. rewrite F. change (len [] =? 0) with true. cbv beta iota. by rewrite F2.
  - destruct Ln as [Ln|Ln]; [done|].
    assert (Np : len (concat (map (fun v => enc v e) (v :: vs))) <> 0).
    { cbn. rewrite length_app. pose proof (enc_pos v e (proj1 R)). lia. }
    edestruct (decode_list (decodeSliceElems (decoder f e) f) (v :: vs) _ rest s false Ha) as (s' & E & A).
    { intros s2 K2 I2 Hr2 (st & S2). eapply (elems_decode e f v); try done; [apply R|].
      by apply Forall_cons in Fs as [? _]. }
    exists s'. split; [|done]. revert E. unfold bindM, wrapped. rewrite F. by ztests.
Qed.

Lemma bind_ok {A B} (m : M A) (g : A -> B) s a s' :
  m s = (Ok a, s') -> (do x <- m; ret (g x)) s = (Ok (g a), s').
Proof. intros E. unfold bindM. by rewrite E. Qed.

Lemma ByteSlice_enc b rest s :
  bytes_ok b -> ahead (enc_string b) rest s ->
  exists s', decodeByteSlice s = (Ok (VBytes b), s') /\ advanced (len (enc_string b)) rest s s'.
Proof.
  intros Hb Ha. destruct (Bytes_enc b rest s Hb Ha) as (s' & E & A). exists s'. split; [|done].
  unfold decodeByteSlice, bindM, wrapped. by rewrite E.
Qed.

Lemma ByteArray_enc b rest s :
  bytes_ok b -> b <> [0] -> ahead (enc_string b) rest s ->
  exists s', decodeByteArray (length b) s = (Ok (VBytes b), s') /\ advanced (len (enc_string b)) rest s s'.
Proof.
  intros Hb N Ha. destruct (ahead_kind b rest s Hb Ha) as (k & s1 & Nl & Hk & F & A & L & Hr).
  unfold decodeByteArray, bindM. rewrite F. rewrite L in *. destruct k; [| |done].
  - pose proof A as (K1 & _ & Ke & Eb & Mv). rewrite Eb. cbn.
    unfold Uint, uint, bindM, KindM. rewrite K1, Ke. cbn.
    destruct (Z.eqb_spec (byteval s1) 0) as [E0|E0]; [congruence|].
    eexists. split; [done|]. split; [exact Mv|done].
  - destruct (read_content String b rest s s1) as (s2 & F2 & A2); [done|done|done|].
    cbn [ksize]. ztests. exists s2. rewrite F2. split; [|done].
    destruct (Z.eqb_spec (len b) 1) as [E1|]; [|done].
    destruct b as [|x [|y b]]; cbn in E1; try lia. specialize (Hk x eq_refl). cbn. by ztests.
Qed.

(** An optional pointer is nil exactly on the empty string and the empty list. *)
Lemma OptionalPtr_nil b dec rest s :
  b = [0x80] \/ b = [0xC0] -> ahead b rest s ->
  exists s', decodeOptionalPtr dec s = (Ok VNil, s') /\ advanced (len b) rest s s'.
Proof.
  intros Hb (K & E & Hr). unfold decodeOptionalPtr.
  assert (Hk : exists k, k <> Byte /\ kind_ok k [] /\ b = tag_bytes k []).
  { destruct Hb as [-> | ->]; [exists String|exists List]; by repeat split. }
  destruct Hk as (k & Nb & Hk & ->).
  destruct (KindM_ok k [] rest s) as (s1 & F & A); [done|done|done|done|by rewrite app_nil_r|].
  rewrite F. destruct A as (_ & _ & _ & Mv). exists (set_kind None s1).
  destruct k; [done| |]; cbn in *; (split; [done|split; [exact Mv|done]]).
Qed.

(** ** Looking ahead

    [Kind] caches its result, so a decoder run after it behaves as before it. *)
Lemma KindM_cached s r s1 : KindM s = (Ok r, s1) -> KindM s1 = (Ok r, s1).
Proof.
  unfold KindM. destruct (kind s) eqn:K.
  - destruct (kinderr s) eqn:E; intros H; [done|]. injection H as <- <-. by rewrite K, E.
  - case_match; [done|]. destruct (stream_readKind _) as [[[k sz] err] s2].
    destruct err as [e|]; [done|].
    destruct (stack s2) as [|[p z] st];
      [destruct (limited s2 && (remaining s2 <? sz))|destruct (u64 (z - p) <? sz)]; try done;
      intros Hk; injection Hk as <- <-; done.
Qed.

Definition starts_with_kind {A} (m : M A) : Prop :=
  forall s r s1, KindM s = (Ok r, s1) -> m s1 = m s.

Lemma bind_starts {A B} (m : M A) (k : A -> M B) : starts_with_kind m -> starts_with_kind (bindM m k).
Proof. intros H s r s1 E. unfold bindM. by rewrite (H s r s1 E). Qed.

Lemma wrapped_starts {A} (m : M A) : starts_with_kind m -> starts_with_kind (wrapped m).
Proof. intros H s r s1 E. unfold wrapped. by rewrite (H s r s1 E). Qed.

Lemma KindM_starts : starts_with_kind KindM.
Proof. intros s r s1 E. by rewrite E, (KindM_cached s r s1 E). Qed.

Create HintDb stream.
#[local] Hint Resolve bind_starts wrapped_starts KindM_starts : stream.

Lemma decoder_starts v t fuel :
  rt v t -> (vsize v <= fuel)%nat -> starts_with_kind (decoder fuel t).
Proof.
  revert t fuel. induction v as [b|z|b|vs IH| |v IH|t' v IH] using rval_nested_ind;
    intros t [|fuel] R Hf; try (cbn in Hf; lia);
    destruct t as [| |bits| | | |n|[] e|n e|fs|[] e|]; try done; cbn [decoder]; unfold makeListDecoder; try byte_case;
    unfold decodeString, decodeByteSlice, decodeByteArray, decodeBigInt, decodeUint, decodeBool,
      decodeListSlice, decodeListArray, decodeStruct, decodeInterface,
      stream_Bytes, stream_Bool, stream_List, uint; auto with stream.
  - intros s r s1 E. unfold decodeOptionalPtr. by rewrite E, (KindM_cached s r s1 E).
  - intros s r s1 E. unfold decodeOptionalPtr. by rewrite E, (KindM_cached s r s1 E).
  - apply bind_starts, (IH e); [done|cbn in Hf; lia].
Qed.

Lemma enc_is_kind v t :
  rt v t -> exists k c, kind_ok k c /\ enc v t = enc_kind k c /\ (k = Byte -> bytes_ok c).
Proof.
  assert (G : forall b, bytes_ok b ->
    exists k c, kind_ok k c /\ enc_string b = enc_kind k c /\ (k = Byte -> bytes_ok c)).
  { intros b Hb. destruct (kind_of_string b) as (k & Hk & E & _). exists k, b. by rewrite E. }
  assert (L : forall p, exists k c, kind_ok k c /\ enc_list p = enc_kind k c /\ (k = Byte -> bytes_ok c)).
  { intros p. exists List, p. done. }
  revert t. induction v as [b|z|b|vs IH| |v IH|t' v IH] using rval_nested_ind;
    intros t R; destruct t as [| |bits| | | |n|[] e|n e|fs|[] e|]; try done; cbn [enc];
    auto with siot.
  1-4: apply G, R.
  - apply G. destruct b; repeat constructor; lia.
  - destruct R as [-> | ->]; [apply (G [])|apply (L [])]. constructor.
  - apply IH, R.
  - destruct t' as [| |bits| | | |n|[] e|n e|fs|[] e|]; try done.
    + destruct v; try done. by apply G.
    + destruct e, v; try done. apply L.
Qed.

(** The header of an encoded value can be read ahead. *)
Lemma Kind_ahead v t rest s :
  rt v t -> ahead (enc v t) rest s ->
  exists k c s1, KindM s = (Ok (k, ksize k c), s1) /\ enc v t = enc_kind k c /\ kind_ok k c.
Proof.
  intros R (K & E & Hr). destruct (enc_is_kind v t R) as (k & c & Hk & Ee & Hb).
  rewrite Ee, enc_kind_tag in * by done.
  destruct (KindM_ok k c rest s) as (s1 & F & A); [done|done|done|by rewrite E, <- app_assoc|done|].
  exists k, c, s1. by rewrite enc_kind_tag.
Qed.

Lemma OptionalPtr_some v e fuel rest s :
  decodes v -> rt v e -> (vsize v <= fuel)%nat -> enc v e <> [0x80] -> enc v e <> [0xC0] ->
  ahead (enc v e) rest s ->
  exists s', decodeOptionalPtr (decoder fuel e) s = (Ok (VPtr v), s') /\
             advanced (len (enc v e)) rest s s'.
Proof.
  intros D R Hf N1 N2 Ha. destruct (Kind_ahead v e rest s R Ha) as (k & c & s1 & F & Ee & Hk).
  destruct (D e fuel rest s R Hf Ha) as (s' & E & A). exists s'. split; [|done].
  unfold decodeOptionalPtr. rewrite F.
  assert (Nz : (ksize k c =? 0) && negb (bool_decide (k = Byte)) = false).
  { destruct k; [done| |]; cbn; rewrite andb_true_r; apply Z.eqb_neq; intros Z0;
      (assert (c = []) as -> by (destruct c; [done|cbn in Z0; lia])); by rewrite Ee in *. }
  rewrite Nz. unfold bindM. by rewrite (decoder_starts v e fuel R Hf s _ s1 F), E.
Qed.

Lemma head_bytes_first small large n :
  0 <= n < 2 ^ 64 -> 0 <= small -> exists x r, head_bytes small large n = x :: r /\
    (x = small + n /\ n < 56 \/ large < x <= large + 8).
Proof.
  intros Hn Hs. rewrite head_bytes_cons. destruct (Z.ltb_spec n 56); eauto 10.
  pose proof (long_head_size n ltac:(lia)). do 2 eexists. split; [done|]. right. lia.
Qed.

Lemma string_not_list k c p :
  k <> List -> kind_ok k c -> len (enc_kind k c) < 2 ^ 64 -> enc_kind k c <> enc_list p.
Proof.
  intros Nl Hk L E. pose proof (f_equal (fun l => len l) E) as El. cbn beta in El.
  assert (Lp : len p < 2 ^ 64) by (apply enc_list_length_lt; lia).
  rewrite enc_kind_tag in E, L by done. rewrite length_app in L.
  destruct (head_bytes_first 0xC0 0xF7 (len p)) as (x & r & Ex & Hx); [lia|lia|].
  destruct (head_bytes_first 0x80 0xB7 (len c)) as (y & q & Ey & Hy); [lia|lia|].
  unfold enc_list in E. rewrite Ex in E. destruct k; [| |done]; cbn [tag_bytes] in E.
  - destruct Hk as (z & -> & Hz). injection E as -> _. lia.
  - rewrite Ey in E. injection E as -> _. lia.
Qed.

Lemma ahead_bound e rest s : ahead e rest s -> len e < 2 ^ 64.
Proof. intros (_ & _ & Hr). destruct Hr. lia. Qed.

Lemma rt_wt v t : rt v t -> wt v t.
Proof.
  assert (F : forall e vs, Forall (fun v => forall t, rt v t -> wt v t) vs ->
    foldr (fun v P => rt v e /\ P) True vs -> foldr (fun v P => wt v e /\ P) True vs).
  { induction 1; cbn; intuition. }
  assert (Fs : forall vs, Forall (fun v => forall t, rt v t -> wt v t) vs ->
    forall fs, rt_fields vs fs -> wt_fields vs fs).
  { induction 1 as [|w ws Hw _ IH]; intros [|f fs]; cbn; try done. intros [? ?]. split; auto. }
  revert t. induction v as [b|z|b|vs IH| |v IH|t' v IH] using rval_nested_ind;
    intros t R; destruct t as [| |bits| | | |n|[] e|n e|fs|[] e|]; try done; cbn in R |- *;
    try by intuition.
  - by apply Fs.
  - destruct t' as [| |bits| | | |n|[] e|n e|fs|[] e|]; try done; [by destruct v|].
    destruct e, v; try done. by apply IH.
Qed.

Lemma decoder_decodes v : decodes v.
Proof.
  induction v as [b|z|b|vs IH| |v IH|t' v IH] using rval_nested_ind;
    intros t [|fuel] rest s R Hf Ha; try (cbn in Hf; lia);
    destruct t as [| |bits| | | |n|[] e|n e|fs|[] e|]; try done; cbn [decoder enc] in *; unfold makeListDecoder.
  - destruct (Bytes_enc b rest s R Ha) as (s' & E & A). exists s'. split; [|done].
    unfold decodeString, bindM, wrapped. by rewrite E.
  - by apply ByteSlice_enc.
  - destruct R as (Hb & <- & N). by apply ByteArray_enc.
  - destruct R as [-> R]. by apply ByteSlice_enc.
  - destruct R as [-> R]. by apply ByteSlice_enc.
  - destruct R as (-> & Hb & <- & N). by apply ByteArray_enc.
  - destruct (Bytes_enc (Bytes z) rest s (Bytes_ok z) Ha) as (s' & E & A). exists s'. split; [|done].
    unfold decodeBigInt, bindM, wrapped. rewrite E. cbn in R.
    rewrite SetBytes_Bytes by done. destruct (Z.eq_dec z 0) as [->|]; [done|].
    destruct (Bytes_head z) as (x & q & Eb & Hx); [lia|]. rewrite Eb. by ztests.
  - destruct R as [Hbits Hz]. destruct (uint_enc z bits rest s Hbits Hz Ha) as (s' & E & A).
    exists s'. split; [|done]. unfold decodeUint, bindM, wrapped. by rewrite E.
  - assert (Eb : (if b then [1] else []) = Bytes (if b then 1 else 0)) by by destruct b.
    rewrite Eb in *.
    destruct (uint_enc (if b then 1 else 0) 8 rest s) as (s' & E & A); [auto|destruct b; lia|done|].
    exists s'. split; [|done]. unfold decodeBool, stream_Bool, bindM, wrapped. rewrite E. by destruct b.
  - destruct R as [-> R]. apply decode_slice; try done. cbn in Hf. lia.
  - destruct R as (-> & <- & R). destruct (vsize_elems vs fuel) as (Fs & _); [cbn in Hf; lia|].
    eapply (decode_list _ _ _ _ _ true); [done|]. intros s1 K1 I1 Hr1 _. by apply array_decode.
  - destruct (vsize_elems vs fuel) as (Fs & _); [cbn in Hf; lia|].
    eapply (decode_list _ _ _ _ _ true); [done|]. intros s1 K1 I1 Hr1 _. by apply fields_decode.
  - by apply OptionalPtr_nil.
  - destruct R as (R & N1 & N2). apply OptionalPtr_some; try done. cbn in Hf. lia.
  - cbn in Hf. destruct (IH e fuel rest s R ltac:(lia) Ha) as (s' & E & A). exists s'.
    split; [by apply bind_ok|done].
  - destruct (Kind_ahead _ _ rest s R Ha) as (k & c & s1 & F & Ee & Hk).
    unfold decodeInterface. destruct t' as [| |bits| | | |n|[] e|n e|fs|[] e|]; try done.
    + destruct v as [b| | | | | |]; try done. cbn [enc] in *.
      destruct (Bytes_enc b rest s R Ha) as (s' & E & A). exists s'. split; [|done].
      assert (Nl : k <> List).
      { intros ->. destruct (kind_of_string b) as (k' & Hk' & E' & Nl').
        pose proof (ahead_bound _ _ _ Ha). rewrite <- E' in *. by apply (string_not_list k' b c) in Ee. }
      assert (St : stream_Bytes s1 = stream_Bytes s) by by apply (bind_starts KindM _ KindM_starts s _ s1 F).
      unfold bindM. rewrite F. destruct k; [| |done]; by rewrite St, E.
    + destruct e, v as [| | |vs| | |]; try done. cbn [enc] in *.
      assert (Rs : rt (VList vs) (TSlice false TInterface)) by by split.
      destruct (IH (TSlice false TInterface) (S fuel) rest s Rs) as (s' & E & A); [cbn in Hf |- *; lia|done|].
      exists s'. split; [|done].
      assert (Hl : k = List).
      { destruct (decide (k = List)); [done|]. pose proof (ahead_bound _ _ _ Ha). rewrite Ee in *.
        symmetry in Ee. by apply string_not_list in Ee. }
      subst k.
      pose proof (decoder_starts (VList vs) (TSlice false TInterface) (S fuel) Rs ltac:(cbn in *; lia) s _ s1 F) as St.
      unfold bindM. rewrite F. cbn [decoder makeListDecoder isByte] in St, E. by rewrite St, E.
Qed.

(** The fuel is bounded by the length of the encoding, where pointers point to
    values. *)
Fixpoint shallow (t : rtype) : bool :=
  match t with
  | TPtr _ (TPtr _ _ | TInterface) => false
  | TPtr _ e | TSlice _ e | TArray _ e => shallow e
  | TStruct fs => forallb shallow fs
  | TInterface => false
  | _ => true
  end.

Definition wraps (v : rval) : nat := match v with VPtr _ | VIface _ _ => 1 | _ => 2 end.

Lemma vsize_list vs (es : list bytes) :
  Forall2 (fun v e => vsize v + wraps v <= 3 * length e)%nat vs es ->
  (foldr (fun v n => S (vsize v + n)) 0 vs <= 3 * length (concat es))%nat.
Proof.
  induction 1 as [|v e vs es Hv _ IH]; cbn; [lia|]. rewrite length_app.
  assert (1 <= wraps v)%nat by (destruct v; cbn; lia). lia.
Qed.

Lemma enc_list_longer p : (length p < length (enc_list p))%nat.
Proof. unfold enc_list. rewrite length_app. unfold head_bytes. destruct (_ <? _); cbn; lia. Qed.

Lemma vsize_elems_enc (e : rtype) vs :
  Forall (fun v => forall t, rt v t -> shallow t = true -> (vsize v + wraps v <= 3 * length (enc v t))%nat) vs ->
  foldr (fun v P => rt v e /\ P) True vs -> shallow e = true ->
  Forall2 (fun v b => vsize v + wraps v <= 3 * length b)%nat vs (map (fun v => enc v e) vs).
Proof. induction 1 as [|v vs Hv _ IH]; [constructor|]. cbn. intros [? ?] ?. constructor; [by apply Hv|by apply IH]. Qed.

Lemma vsize_fields_enc vs :
  Forall (fun v => forall t, rt v t -> shallow t = true -> (vsize v + wraps v <= 3 * length (enc v t))%nat) vs ->
  forall fs, rt_fields vs fs -> forallb shallow fs = true ->
  Forall2 (fun v b => vsize v + wraps v <= 3 * length b)%nat vs (zip_with (fun v f => enc v f) vs fs).
Proof.
  induction 1 as [|v vs Hv _ IH]; intros [|f fs]; cbn; try done. intros [? ?] [? ?]%andb_true_iff.
  constructor; [by apply Hv|by apply IH].
Qed.

Lemma vsize_enc v t : rt v t -> shallow t = true -> (vsize v + wraps v <= 3 * length (enc v t))%nat.
Proof.
  revert t. induction v as [b|z|b|vs IH| |v IH|t' v IH] using rval_nested_ind; intros t R Sh;
    pose proof (enc_pos _ _ R) as P; destruct t as [| |bits| | | |n|[] e|n e|fs|[] e|]; try done;
    cbn [vsize wraps]; try lia.
  - destruct R as [_ R]. pose proof (vsize_list _ _ (vsize_elems_enc e vs IH R Sh)) as L. cbn [enc].
    pose proof (enc_list_longer (concat (map (fun v => enc v e) vs))). lia.
  - destruct R as (_ & _ & R). pose proof (vsize_list _ _ (vsize_elems_enc e vs IH R Sh)) as L. cbn [enc].
    pose proof (enc_list_longer (concat (map (fun v => enc v e) vs))). lia.
  - pose proof (vsize_list _ _ (vsize_fields_enc vs IH fs R Sh)) as L. cbn [enc].
    pose proof (enc_list_longer (concat (zip_with (fun v f => enc v f) vs fs))). lia.
  - destruct R as [R _]. assert (Se : shallow e = true) by (by destruct e). specialize (IH e R Se). cbn [enc].
    assert (wraps v = 2)%nat by (destruct v; try done; by destruct e as [| |bits| | | |n|[] e|n e|fs|[] e|]). lia.
  - assert (Se : shallow e = true) by (by destruct e). specialize (IH e R Se). cbn [enc].
    assert (wraps v = 2)%nat by (destruct v; try done; by destruct e as [| |bits| | | |n|[] e|n e|fs|[] e|]). lia.
Qed.

Lemma ahead_NewStream b : 1 <= len b < 2 ^ 64 -> ahead b [] (NewStream b (len b)).
Proof. intros L. split; [done|]. split; [cbn; by rewrite app_nil_r|]. unfold room. cbn. ztests. lia. Qed.

Lemma decoder_enc t v fuel :
  rt v t -> len (enc v t) < 2 ^ 64 -> (vsize v <= fuel)%nat ->
  exists s', decoder fuel t (NewStream (enc v t) (len (enc v t))) = (Ok v, s') /\ input s' = [].
Proof.
  intros R L Hf. pose proof (enc_pos v t R).
  destruct (decoder_decodes v t fuel [] (NewStream (enc v t) (len (enc v t)))) as (s' & E & (Mv & _));
    [done|done|by apply ahead_NewStream|].
  exists s'. split; [done|]. by destruct Mv as (-> & _).
Qed.

Lemma DecodeBytes_enc t v fuel :
  rt v t -> len (enc v t) < 2 ^ 64 -> (vsize v <= fuel)%nat -> DecodeBytes fuel (enc v t) t = Ok v.
Proof. intros R L Hf. destruct (decoder_enc t v fuel R L Hf) as (s' & E & I). unfold DecodeBytes. by rewrite E, I. Qed.

(** C30: a value survives encoding and decoding at its type, if it is one of the
    values [rt] that decoders can produce: no raw values, no tail slices of
    elements other than bytes, not the array [1]byte{0}, no nil interfaces, no nil
    pointers other than those of fields tagged nil, and in such fields no pointer
    to a value that encodes as empty.  The encoding is shorter than 2^64 bytes, and the fuel bounds
    the size of the value. *)
Theorem DecodeBytes_EncodeToBytes t v fuel :
  rt v t -> len (enc v t) < 2 ^ 64 -> (vsize v <= fuel)%nat ->
  exists b, EncodeToBytes t v = Ok b /\ DecodeBytes fuel b t = Ok v.
Proof.
  intros R L Hf. exists (enc v t). split; [apply EncodeToBytes_enc; [by apply rt_wt|done]|by apply DecodeBytes_enc].
Qed.

Lemma DecodeBytes_EncodeToBytes_witness :
  exists b,
    EncodeToBytes (TStruct [TUint 64; TBigInt; TPtr true (TByteArray 2); TSlice false TInterface])
      (VList [VInt 1024; VInt (2 ^ 70); VNil;
              VList [VIface TBytes (VBytes [7]); VIface (TSlice false TInterface) (VList [])]]) = Ok b /\
    DecodeBytes 20 b (TStruct [TUint 64; TBigInt; TPtr true (TByteArray 2); TSlice false TInterface]) =
      Ok (VList [VInt 1024; VInt (2 ^ 70); VNil;
                 VList [VIface TBytes (VBytes [7]); VIface (TSlice false TInterface) (VList [])]]).
Proof.
  apply DecodeBytes_EncodeToBytes.
  - cbn. unfold byte_ok. repeat split; auto; try lia. repeat constructor; lia.
  - vm_compute. reflexivity.
  - cbn. lia.
Defined.

(** [Raw] rebuilds the header of a list correctly, but writes the tag of a
    string of 56 bytes or more as 0xB8 plus the size of the size, where the
    encoding has 0xB7: its result is not the encoding that was read. *)
Theorem Raw_long_string_header b rest s :
  bytes_ok b -> 56 <= len b -> ahead (enc_string b) rest s ->
  exists s', Raw s = (Ok ((0xB8 + len (Bytes (len b))) :: Bytes (len b) ++ b), s') /\
    enc_string b = (0xB7 + len (Bytes (len b))) :: Bytes (len b) ++ b /\
    advanced (len (enc_string b)) rest s s'.
Proof.
  intros Hb Hl Ha. destruct (ahead_kind b rest s Hb Ha) as (k & s1 & Nl & Hk & F & A & L & Hr).
  assert (k = String) as -> by (destruct k; [|done|done]; destruct Hk as (x & -> & _); cbn in Hl; lia).
  rewrite L in Hr. destruct (read_content String b rest s s1) as (s2 & F2 & A2); [done|done|done|].
  exists s2. unfold Raw, bindM. rewrite F. cbn [ksize]. rewrite F2, L.
  assert (Lb : len b < 2 ^ 64) by (destruct Hr; lia). pose proof (long_head_size (len b) ltac:(lia)).
  split; [|split; [|done]].
  - rewrite puthead_ref, head_bytes_cons by lia. by ztests.
  - unfold enc_string. destruct b as [|x [|y b]]; [cbn in Hl; lia..|].
    rewrite head_bytes_cons. by ztests.
Qed.

Lemma Raw_long_string_header_witness :
  exists s', Raw (NewStream (enc_string (replicate 56 1)) 58) =
      (Ok ((0xB8 + len (Bytes (len (replicate 56 1)))) :: Bytes (len (replicate 56 1)) ++ replicate 56 1), s') /\
    enc_string (replicate 56 1) =
      (0xB7 + len (Bytes (len (replicate 56 1)))) :: Bytes (len (replicate 56 1)) ++ replicate 56 1 /\
    advanced (len (enc_string (replicate 56 1))) [] (NewStream (enc_string (replicate 56 1)) 58) s'.
Proof.
  apply Raw_long_string_header.
  - apply Forall_replicate. unfold byte_ok. lia.
  - cbn. lia.
  - split; [reflexivity|]. split; [vm_compute; reflexivity|]. split; [vm_compute; split; congruence|].
    split; [vm_compute; congruence|done].
Defined.

(** ** Loops that never end

    One round of the loop of [decodeSliceElems]: an element is decoded and the
    loop continues.  The loop runs for ever when it can make any number of
    rounds; since a decoder is a function, no other run is possible. *)
Definition loop_round (elemdec : M rval) (s s' : Stream) : Prop := exists v, elemdec s = (Ok v, s').

Definition runs_forever (elemdec : M rval) (s : Stream) : Prop :=
  forall n, exists s', nsteps (loop_round elemdec) n s s'.

Lemma forever_step dec s s1 : loop_round dec s s1 -> runs_forever dec s1 -> runs_forever dec s.
Proof.
  intros R F [|n]; [exists s; constructor|]. destruct (F n) as (s' & N). exists s'. by econstructor.
Qed.

Lemma forever_fixed dec s : loop_round dec s s -> runs_forever dec s.
Proof. intros R n. exists s. induction n; econstructor; eauto. Qed.

Lemma forever_next dec s : runs_forever dec s -> exists v s1, dec s = (Ok v, s1) /\ runs_forever dec s1.
Proof.
  intros F. destruct (F 1%nat) as (s1 & N). inversion N as [|n x y z (v & E) _]; subst.
  exists v, y. split; [done|]. intros n. destruct (F (S n)) as (s' & N').
  inversion N' as [|m x y' z' (v' & E') N'']; subst. exists s'. congruence.
Qed.

(** No bound on the rounds is large enough for such a loop. *)
Lemma forever_out_of_fuel dec fuel s : runs_forever dec s -> (decodeSliceElems dec fuel s).1 = Panic.
Proof.
  revert s. induction fuel as [|fuel IH]; intros s F; [done|]. cbn [decodeSliceElems].
  destruct (forever_next dec s F) as (v & s1 & E & F1). rewrite E. unfold bindM.
  specialize (IH s1 F1). by destruct (decodeSliceElems dec fuel s1) as [[]].
Qed.

(** [decodeByteArray] drops the error of [Uint], which has not released the
    value: on a zero byte it succeeds and the next call finds the same byte. *)
Lemma zero_round s :
  kind s = Some Byte -> kinderr s = None -> byteval s = 0 -> loop_round (decodeByteArray 1) s s.
Proof.
  intros K E B. exists (VBytes [0]). unfold decodeByteArray, Uint, uint, bindM, KindM.
  rewrite K, E. cbn. rewrite K, E, B. done.
Qed.

Lemma zero_forever rest s : ahead (enc_string [0]) rest s -> runs_forever (decodeByteArray 1) s.
Proof.
  intros Ha. destruct (ahead_kind [0] rest s) as (k & s1 & Nl & Hk & F & A & _); [repeat constructor; lia|done|].
  destruct k; [|specialize (Hk 0 eq_refl); lia|done]. destruct A as (K1 & _ & Ke & [= Eb] & _).
  pose proof (zero_round s1 K1 Ke (eq_sym Eb)) as R.
  eapply forever_step; [|by apply (forever_fixed _ s1)]. destruct R as (v & R). exists v. rewrite <- R.
  symmetry. by apply (bind_starts KindM _ KindM_starts s _ s1 F).
Qed.

Definition one_byte_arrays (l : bytes) : rval := VList (map (fun x => VBytes [x]) l).

Lemma one_byte_arrays_forever l rest s :
  bytes_ok l -> 0 ∈ l -> kind s = None ->
  let payload := concat (map (fun v => enc v (TByteArray 1)) (map (fun x => VBytes [x]) l)) in
  input s = payload ++ rest -> room (len payload) s -> runs_forever (decodeByteArray 1) s.
Proof.
  intros Hb Hz. revert s. induction Hb as [|x l Hx Hb IH]; intros s K; cbn [map concat]; intros E Hr.
  { by apply not_elem_of_nil in Hz. }
  destruct (decide (x = 0)) as [->|Nx].
  - eapply zero_forever. split; [done|]. split; [by rewrite E, <- app_assoc|].
    eapply room_le; [|exact Hr]. rewrite length_app. cbn [enc]. lia.
  - assert (Rx : rt (VBytes [x]) (TByteArray 1)) by (split; [by apply Forall_singleton|]; split; [done|congruence]).
    destruct (decodes_app (VBytes [x]) (TByteArray 1) 1 _ _ rest s (decoder_decodes _) Rx ltac:(cbn; lia) K E eq_refl Hr)
      as (s1 & E1 & A1 & Hr1).
    eapply forever_step; [by exists (VBytes [x])|]. destruct A1 as ((I1 & _) & K1).
    apply IH; [|done|done|done]. apply elem_of_cons in Hz as [|]; [congruence|done].
Qed.

Lemma one_byte_arrays_wt l : bytes_ok l -> wt (one_byte_arrays l) (TSlice false (TByteArray 1)).
Proof.
  intros Hb. split; [done|]. induction Hb as [|x l Hx _ IH]; [done|]. split; [|done].
  split; [by apply Forall_singleton|done].
Qed.

(** C40: decoding the encoding of a list of one-byte arrays in which some byte
    is zero never ends.  The header of the list is read, the list is not empty,
    and the loop over its elements makes any number of rounds, each of which
    succeeds; in particular no bound on the rounds gives a value or an error. *)
Theorem decode_zero_byte_arrays_diverges l :
  bytes_ok l -> 0 ∈ l -> len (enc (one_byte_arrays l) (TSlice false (TByteArray 1))) < 2 ^ 64 ->
  exists b size s,
    EncodeToBytes (TSlice false (TByteArray 1)) (one_byte_arrays l) = Ok b /\
    stream_List (NewStream b (len b)) = (Ok size, s) /\ size <> 0 /\
    runs_forever (decodeByteArray 1) s /\
    forall fuel v e, DecodeBytes fuel b (TSlice false (TByteArray 1)) <> Ok v /\
                     DecodeBytes fuel b (TSlice false (TByteArray 1)) <> Err e.
Proof.
  intros Hb Hz L. pose proof (EncodeToBytes_enc _ _ (one_byte_arrays_wt l Hb) L) as E.
  set (p := concat (map (fun v => enc v (TByteArray 1)) (map (fun x => VBytes [x]) l))).
  change (enc (one_byte_arrays l) (TSlice false (TByteArray 1))) with (enc_list p) in *.
  pose proof (enc_list_pos p). destruct (List_enc p [] _ (ahead_NewStream (enc_list p) ltac:(lia)))
    as (s & EL & K & I & Hr & _).
  pose proof (one_byte_arrays_forever l [] s Hb Hz K I Hr) as F.
  assert (Np : len p <> 0).
  { subst p. destruct l as [|x l]; [by apply not_elem_of_nil in Hz|]. cbn [map concat].
    rewrite length_app. pose proof (enc_string_pos [x]). cbn [enc]. lia. }
  exists (enc_list p), (len p), s. do 4 (split; [done|]).
  intros fuel v e. assert (D : DecodeBytes fuel (enc_list p) (TSlice false (TByteArray 1)) = Panic); [|by rewrite D].
  destruct fuel as [|fuel]; [done|]. unfold DecodeBytes. cbn [decoder makeListDecoder isByte].
  unfold decodeListSlice, wrapped, bindM. rewrite EL. ztests.
  assert (P : (decodeSliceElems (decoder fuel (TByteArray 1)) fuel s).1 = Panic).
  { destruct fuel as [|fuel]; [done|]. by apply forever_out_of_fuel. }
  by destruct (decodeSliceElems _ fuel s) as [[]].
Qed.

Lemma decode_zero_byte_arrays_diverges_witness :
  exists b size s,
    EncodeToBytes (TSlice false (TByteArray 1)) (one_byte_arrays [7; 0; 200]) = Ok b /\
    stream_List (NewStream b (len b)) = (Ok size, s) /\ size <> 0 /\
    runs_forever (decodeByteArray 1) s /\
    forall fuel v e, DecodeBytes fuel b (TSlice false (TByteArray 1)) <> Ok v /\
                     DecodeBytes fuel b (TSlice false (TByteArray 1)) <> Err e.
Proof.
  apply decode_zero_byte_arrays_diverges.
  - repeat constructor; lia.
  - set_solver.
  - vm_compute. reflexivity.
Defined.
