(* ===== verification/Helper.v ===== *)
(** * Byte strings, numbers and fixed-size types (src/helper)

    [bytes.go], [big.go], [types.go] and [number/int.go]: padding and hex
    conversions of byte slices, the conversions between big integers and
    bytes, and the [Hash] and [Address] types.  Go strings are byte strings. *)

From S2P Require Import Prelude.

(** ** Padding (bytes.go) *)

Definition zeros (n : nat) : bytes := replicate n 0.

Definition LeftPadBytes (slice : bytes) (l : nat) : bytes :=
  if (l <? length slice)%nat then slice else zeros (l - length slice) ++ slice.

Definition RightPadBytes (slice : bytes) (l : nat) : bytes :=
  if (l <? length slice)%nat then slice else slice ++ zeros (l - length slice).

Definition ToAddress (slice : bytes) : bytes :=
  if (length slice <? 20)%nat then LeftPadBytes slice 20
  else if (20 <? length slice)%nat then drop (length slice - 20) slice
  else slice.

(** ** Hashes and addresses (types.go)

    [setFixed h b] is [SetBytes] on an array [h]: the last bytes of [b], at the
    end of the array. *)
Definition setFixed (h b : bytes) : bytes :=
  let b := if (length h <? length b)%nat then drop (length b - length h) b else b in
  take (length h - length b) h ++ b.

Definition HashLength : nat := 32.
Definition AddressLength : nat := 20.

Definition Hash_SetBytes (h b : bytes) : bytes := setFixed h b.
Definition BytesToHash (b : bytes) : bytes := Hash_SetBytes (zeros HashLength) b.
Definition BigToHash (n : Z) : bytes := BytesToHash (Bytes n).
Definition EmptyHash (h : bytes) : bool := bool_decide (h = zeros HashLength).
Definition Hash_Big (h : bytes) : Z := SetBytes h.

Definition Address_SetBytes (a b : bytes) : bytes := setFixed a b.
Definition BytesToAddress (b : bytes) : bytes := Address_SetBytes (zeros AddressLength) b.
Definition BigToAddress (n : Z) : bytes := BytesToAddress (Bytes n).
Definition Address_Hash (a : bytes) : bytes := BytesToHash a.

Lemma length_setFixed h b : length (setFixed h b) = length h.
Proof.
  unfold setFixed. destruct (Nat.ltb_spec (length h) (length b));
    rewrite length_app, length_take, ?length_drop; lia.
Qed.

Lemma setFixed_exact h b : length b = length h -> setFixed h b = b.
Proof.
  intros E. unfold setFixed. rewrite (proj2 (Nat.ltb_ge _ _)) by lia. by rewrite E, Nat.sub_diag.
Qed.

Lemma BytesToHash_id b : length b = 32%nat -> BytesToHash b = b.
Proof. intros. by apply setFixed_exact. Qed.

Lemma BytesToAddress_id b : length b = 20%nat -> BytesToAddress b = b.
Proof. intros. by apply setFixed_exact. Qed.
