(* ===== verification/Keccak.v ===== *)
(** * Keccak-256 (src/crypto/sha3, src/crypto/crypto.go)

    The portable implementation of the permutation ([keccakf.go], four rounds
    unrolled with lanes permuted in place), the sponge around it ([sha3.go],
    [xor_generic.go]) and [crypto.Keccak256].  The permutation is shown equal
    to the textbook composition of theta, rho, pi, chi and iota, and the
    buffered, incremental sponge to the one-shot definition.  Lanes are 64-bit
    integers, [rotl] is [t<<n | t>>(64-n)] on them. *)

From S2P Require Import Prelude Helper.

Declare Scope lane_scope.
Delimit Scope lane_scope with lane.
Infix "⊕" := Z.lxor (at level 50, left associativity) : lane_scope.
Infix "&^" := Z.ldiff (at level 45, no associativity) : lane_scope.
Local Open Scope lane_scope.

Definition rotl (t n : Z) : Z := Z.lor (u64 (Z.shiftl t n)) (Z.shiftr t (64 - n)).

(** ** The permutation (keccakf.go) *)

Definition rc : list Z :=
  [0x0000000000000001; 0x0000000000008082; 0x800000000000808A; 0x8000000080008000;
   0x000000000000808B; 0x0000000080000001; 0x8000000080008081; 0x8000000000008009;
   0x000000000000008A; 0x0000000000000088; 0x0000000080008009; 0x000000008000000A;
   0x000000008000808B; 0x800000000000008B; 0x8000000000008089; 0x8000000000008003;
   0x8000000000008002; 0x8000000000000080; 0x000000000000800A; 0x800000008000000A;
   0x8000000080008081; 0x8000000000008080; 0x0000000080000001; 0x8000000080008008].

(** Round 1 of the unrolled loop body, and the three others: the lanes are permuted in place, so each round
    finds them at other positions. *)
Definition round1 (a : list Z) (rci : Z) : list Z :=
  match a with
  | [a0; a1; a2; a3; a4; a5; a6; a7; a8; a9; a10; a11; a12; a13; a14; a15; a16; a17; a18; a19; a20; a21; a22; a23; a24] =>
      let bc0 := a0 ⊕ a5 ⊕ a10 ⊕ a15 ⊕ a20 in let bc1 := a1 ⊕ a6 ⊕ a11 ⊕ a16 ⊕ a21 in
      let bc2 := a2 ⊕ a7 ⊕ a12 ⊕ a17 ⊕ a22 in let bc3 := a3 ⊕ a8 ⊕ a13 ⊕ a18 ⊕ a23 in
      let bc4 := a4 ⊕ a9 ⊕ a14 ⊕ a19 ⊕ a24 in let d0 := bc4 ⊕ (rotl bc1 1) in let d1 := bc0 ⊕ (rotl bc2 1) in
      let d2 := bc1 ⊕ (rotl bc3 1) in let d3 := bc2 ⊕ (rotl bc4 1) in let d4 := bc3 ⊕ (rotl bc0 1) in
      let bc0 := a0 ⊕ d0 in let t := a6 ⊕ d1 in let bc1 := rotl t 44 in let t := a12 ⊕ d2 in
      let bc2 := rotl t 43 in let t := a18 ⊕ d3 in let bc3 := rotl t 21 in let t := a24 ⊕ d4 in
      let bc4 := rotl t 14 in let a0 := bc0 ⊕ (bc2 &^ bc1) ⊕ rci in let a6 := bc1 ⊕ (bc3 &^ bc2) in
      let a12 := bc2 ⊕ (bc4 &^ bc3) in let a18 := bc3 ⊕ (bc0 &^ bc4) in let a24 := bc4 ⊕ (bc1 &^ bc0) in
      let t := a10 ⊕ d0 in let bc2 := rotl t 3 in let t := a16 ⊕ d1 in let bc3 := rotl t 45 in
      let t := a22 ⊕ d2 in let bc4 := rotl t 61 in let t := a3 ⊕ d3 in let bc0 := rotl t 28 in
      let t := a9 ⊕ d4 in let bc1 := rotl t 20 in let a10 := bc0 ⊕ (bc2 &^ bc1) in
      let a16 := bc1 ⊕ (bc3 &^ bc2) in let a22 := bc2 ⊕ (bc4 &^ bc3) in let a3 := bc3 ⊕ (bc0 &^ bc4) in
      let a9 := bc4 ⊕ (bc1 &^ bc0) in let t := a20 ⊕ d0 in let bc4 := rotl t 18 in let t := a1 ⊕ d1 in
      let bc0 := rotl t 1 in let t := a7 ⊕ d2 in let bc1 := rotl t 6 in let t := a13 ⊕ d3 in
      let bc2 := rotl t 25 in let t := a19 ⊕ d4 in let bc3 := rotl t 8 in let a20 := bc0 ⊕ (bc2 &^ bc1) in
      let a1 := bc1 ⊕ (bc3 &^ bc2) in let a7 := bc2 ⊕ (bc4 &^ bc3) in let a13 := bc3 ⊕ (bc0 &^ bc4) in
      let a19 := bc4 ⊕ (bc1 &^ bc0) in let t := a5 ⊕ d0 in let bc1 := rotl t 36 in let t := a11 ⊕ d1 in
      let bc2 := rotl t 10 in let t := a17 ⊕ d2 in let bc3 := rotl t 15 in let t := a23 ⊕ d3 in
      let bc4 := rotl t 56 in let t := a4 ⊕ d4 in let bc0 := rotl t 27 in let a5 := bc0 ⊕ (bc2 &^ bc1) in
      let a11 := bc1 ⊕ (bc3 &^ bc2) in let a17 := bc2 ⊕ (bc4 &^ bc3) in let a23 := bc3 ⊕ (bc0 &^ bc4) in
      let a4 := bc4 ⊕ (bc1 &^ bc0) in let t := a15 ⊕ d0 in let bc3 := rotl t 41 in let t := a21 ⊕ d1 in
      let bc4 := rotl t 2 in let t := a2 ⊕ d2 in let bc0 := rotl t 62 in let t := a8 ⊕ d3 in
      let bc1 := rotl t 55 in let t := a14 ⊕ d4 in let bc2 := rotl t 39 in let a15 := bc0 ⊕ (bc2 &^ bc1) in
      let a21 := bc1 ⊕ (bc3 &^ bc2) in let a2 := bc2 ⊕ (bc4 &^ bc3) in let a8 := bc3 ⊕ (bc0 &^ bc4) in
      let a14 := bc4 ⊕ (bc1 &^ bc0) in
      [a0; a1; a2; a3; a4; a5; a6; a7; a8; a9; a10; a11; a12; a13; a14; a15; a16; a17; a18; a19; a20; a21; a22; a23; a24]
  | _ => a
  end.

(** Round 2. *)
Definition round2 (a : list Z) (rci : Z) : list Z :=
  match a with
  | [a0; a1; a2; a3; a4; a5; a6; a7; a8; a9; a10; a11; a12; a13; a14; a15; a16; a17; a18; a19; a20; a21; a22; a23; a24] =>
      let bc0 := a0 ⊕ a5 ⊕ a10 ⊕ a15 ⊕ a20 in let bc1 := a1 ⊕ a6 ⊕ a11 ⊕ a16 ⊕ a21 in
      let bc2 := a2 ⊕ a7 ⊕ a12 ⊕ a17 ⊕ a22 in let bc3 := a3 ⊕ a8 ⊕ a13 ⊕ a18 ⊕ a23 in
      let bc4 := a4 ⊕ a9 ⊕ a14 ⊕ a19 ⊕ a24 in let d0 := bc4 ⊕ (rotl bc1 1) in let d1 := bc0 ⊕ (rotl bc2 1) in
      let d2 := bc1 ⊕ (rotl bc3 1) in let d3 := bc2 ⊕ (rotl bc4 1) in let d4 := bc3 ⊕ (rotl bc0 1) in
      let bc0 := a0 ⊕ d0 in let t := a16 ⊕ d1 in let bc1 := rotl t 44 in let t := a7 ⊕ d2 in
      let bc2 := rotl t 43 in let t := a23 ⊕ d3 in let bc3 := rotl t 21 in let t := a14 ⊕ d4 in
      let bc4 := rotl t 14 in let a0 := bc0 ⊕ (bc2 &^ bc1) ⊕ rci in let a16 := bc1 ⊕ (bc3 &^ bc2) in
      let a7 := bc2 ⊕ (bc4 &^ bc3) in let a23 := bc3 ⊕ (bc0 &^ bc4) in let a14 := bc4 ⊕ (bc1 &^ bc0) in
      let t := a20 ⊕ d0 in let bc2 := rotl t 3 in let t := a11 ⊕ d1 in let bc3 := rotl t 45 in
      let t := a2 ⊕ d2 in let bc4 := rotl t 61 in let t := a18 ⊕ d3 in let bc0 := rotl t 28 in
      let t := a9 ⊕ d4 in let bc1 := rotl t 20 in let a20 := bc0 ⊕ (bc2 &^ bc1) in
      let a11 := bc1 ⊕ (bc3 &^ bc2) in let a2 := bc2 ⊕ (bc4 &^ bc3) in let a18 := bc3 ⊕ (bc0 &^ bc4) in
      let a9 := bc4 ⊕ (bc1 &^ bc0) in let t := a15 ⊕ d0 in let bc4 := rotl t 18 in let t := a6 ⊕ d1 in
      let bc0 := rotl t 1 in let t := a22 ⊕ d2 in let bc1 := rotl t 6 in let t := a13 ⊕ d3 in
      let bc2 := rotl t 25 in let t := a4 ⊕ d4 in let bc3 := rotl t 8 in let a15 := bc0 ⊕ (bc2 &^ bc1) in
      let a6 := bc1 ⊕ (bc3 &^ bc2) in let a22 := bc2 ⊕ (bc4 &^ bc3) in let a13 := bc3 ⊕ (bc0 &^ bc4) in
      let a4 := bc4 ⊕ (bc1 &^ bc0) in let t := a10 ⊕ d0 in let bc1 := rotl t 36 in let t := a1 ⊕ d1 in
      let bc2 := rotl t 10 in let t := a17 ⊕ d2 in let bc3 := rotl t 15 in let t := a8 ⊕ d3 in
      let bc4 := rotl t 56 in let t := a24 ⊕ d4 in let bc0 := rotl t 27 in let a10 := bc0 ⊕ (bc2 &^ bc1) in
      let a1 := bc1 ⊕ (bc3 &^ bc2) in let a17 := bc2 ⊕ (bc4 &^ bc3) in let a8 := bc3 ⊕ (bc0 &^ bc4) in
      let a24 := bc4 ⊕ (bc1 &^ bc0) in let t := a5 ⊕ d0 in let bc3 := rotl t 41 in let t := a21 ⊕ d1 in
      let bc4 := rotl t 2 in let t := a12 ⊕ d2 in let bc0 := rotl t 62 in let t := a3 ⊕ d3 in
      let bc1 := rotl t 55 in let t := a19 ⊕ d4 in let bc2 := rotl t 39 in let a5 := bc0 ⊕ (bc2 &^ bc1) in
      let a21 := bc1 ⊕ (bc3 &^ bc2) in let a12 := bc2 ⊕ (bc4 &^ bc3) in let a3 := bc3 ⊕ (bc0 &^ bc4) in
      let a19 := bc4 ⊕ (bc1 &^ bc0) in
      [a0; a1; a2; a3; a4; a5; a6; a7; a8; a9; a10; a11; a12; a13; a14; a15; a16; a17; a18; a19; a20; a21; a22; a23; a24]
  | _ => a
  end.

(** Round 3. *)
Definition round3 (a : list Z) (rci : Z) : list Z :=
  match a with
  | [a0; a1; a2; a3; a4; a5; a6; a7; a8; a9; a10; a11; a12; a13; a14; a15; a16; a17; a18; a19; a20; a21; a22; a23; a24] =>
      let bc0 := a0 ⊕ a5 ⊕ a10 ⊕ a15 ⊕ a20 in let bc1 := a1 ⊕ a6 ⊕ a11 ⊕ a16 ⊕ a21 in
      let bc2 := a2 ⊕ a7 ⊕ a12 ⊕ a17 ⊕ a22 in let bc3 := a3 ⊕ a8 ⊕ a13 ⊕ a18 ⊕ a23 in
      let bc4 := a4 ⊕ a9 ⊕ a14 ⊕ a19 ⊕ a24 in let d0 := bc4 ⊕ (rotl bc1 1) in let d1 := bc0 ⊕ (rotl bc2 1) in
      let d2 := bc1 ⊕ (rotl bc3 1) in let d3 := bc2 ⊕ (rotl bc4 1) in let d4 := bc3 ⊕ (rotl bc0 1) in
      let bc0 := a0 ⊕ d0 in let t := a11 ⊕ d1 in let bc1 := rotl t 44 in let t := a22 ⊕ d2 in
      let bc2 := rotl t 43 in let t := a8 ⊕ d3 in let bc3 := rotl t 21 in let t := a19 ⊕ d4 in
      let bc4 := rotl t 14 in let a0 := bc0 ⊕ (bc2 &^ bc1) ⊕ rci in let a11 := bc1 ⊕ (bc3 &^ bc2) in
      let a22 := bc2 ⊕ (bc4 &^ bc3) in let a8 := bc3 ⊕ (bc0 &^ bc4) in let a19 := bc4 ⊕ (bc1 &^ bc0) in
      let t := a15 ⊕ d0 in let bc2 := rotl t 3 in let t := a1 ⊕ d1 in let bc3 := rotl t 45 in
      let t := a12 ⊕ d2 in let bc4 := rotl t 61 in let t := a23 ⊕ d3 in let bc0 := rotl t 28 in
      let t := a9 ⊕ d4 in let bc1 := rotl t 20 in let a15 := bc0 ⊕ (bc2 &^ bc1) in
      let a1 := bc1 ⊕ (bc3 &^ bc2) in let a12 := bc2 ⊕ (bc4 &^ bc3) in let a23 := bc3 ⊕ (bc0 &^ bc4) in
      let a9 := bc4 ⊕ (bc1 &^ bc0) in let t := a5 ⊕ d0 in let bc4 := rotl t 18 in let t := a16 ⊕ d1 in
      let bc0 := rotl t 1 in let t := a2 ⊕ d2 in let bc1 := rotl t 6 in let t := a13 ⊕ d3 in
      let bc2 := rotl t 25 in let t := a24 ⊕ d4 in let bc3 := rotl t 8 in let a5 := bc0 ⊕ (bc2 &^ bc1) in
      let a16 := bc1 ⊕ (bc3 &^ bc2) in let a2 := bc2 ⊕ (bc4 &^ bc3) in let a13 := bc3 ⊕ (bc0 &^ bc4) in
      let a24 := bc4 ⊕ (bc1 &^ bc0) in let t := a20 ⊕ d0 in let bc1 := rotl t 36 in let t := a6 ⊕ d1 in
      let bc2 := rotl t 10 in let t := a17 ⊕ d2 in let bc3 := rotl t 15 in let t := a3 ⊕ d3 in
      let bc4 := rotl t 56 in let t := a14 ⊕ d4 in let bc0 := rotl t 27 in let a20 := bc0 ⊕ (bc2 &^ bc1) in
      let a6 := bc1 ⊕ (bc3 &^ bc2) in let a17 := bc2 ⊕ (bc4 &^ bc3) in let a3 := bc3 ⊕ (bc0 &^ bc4) in
      let a14 := bc4 ⊕ (bc1 &^ bc0) in let t := a10 ⊕ d0 in let bc3 := rotl t 41 in let t := a21 ⊕ d1 in
      let bc4 := rotl t 2 in let t := a7 ⊕ d2 in let bc0 := rotl t 62 in let t := a18 ⊕ d3 in
      let bc1 := rotl t 55 in let t := a4 ⊕ d4 in let bc2 := rotl t 39 in let a10 := bc0 ⊕ (bc2 &^ bc1) in
      let a21 := bc1 ⊕ (bc3 &^ bc2) in let a7 := bc2 ⊕ (bc4 &^ bc3) in let a18 := bc3 ⊕ (bc0 &^ bc4) in
      let a4 := bc4 ⊕ (bc1 &^ bc0) in
      [a0; a1; a2; a3; a4; a5; a6; a7; a8; a9; a10; a11; a12; a13; a14; a15; a16; a17; a18; a19; a20; a21; a22; a23; a24]
  | _ => a
  end.

(** Round 4. *)
Definition round4 (a : list Z) (rci : Z) : list Z :=
  match a with
  | [a0; a1; a2; a3; a4; a5; a6; a7; a8; a9; a10; a11; a12; a13; a14; a15; a16; a17; a18; a19; a20; a21; a22; a23; a24] =>
      let bc0 := a0 ⊕ a5 ⊕ a10 ⊕ a15 ⊕ a20 in let bc1 := a1 ⊕ a6 ⊕ a11 ⊕ a16 ⊕ a21 in
      let bc2 := a2 ⊕ a7 ⊕ a12 ⊕ a17 ⊕ a22 in let bc3 := a3 ⊕ a8 ⊕ a13 ⊕ a18 ⊕ a23 in
      let bc4 := a4 ⊕ a9 ⊕ a14 ⊕ a19 ⊕ a24 in let d0 := bc4 ⊕ (rotl bc1 1) in let d1 := bc0 ⊕ (rotl bc2 1) in
      let d2 := bc1 ⊕ (rotl bc3 1) in let d3 := bc2 ⊕ (rotl bc4 1) in let d4 := bc3 ⊕ (rotl bc0 1) in
      let bc0 := a0 ⊕ d0 in let t := a1 ⊕ d1 in let bc1 := rotl t 44 in let t := a2 ⊕ d2 in
      let bc2 := rotl t 43 in let t := a3 ⊕ d3 in let bc3 := rotl t 21 in let t := a4 ⊕ d4 in
      let bc4 := rotl t 14 in let a0 := bc0 ⊕ (bc2 &^ bc1) ⊕ rci in let a1 := bc1 ⊕ (bc3 &^ bc2) in
      let a2 := bc2 ⊕ (bc4 &^ bc3) in let a3 := bc3 ⊕ (bc0 &^ bc4) in let a4 := bc4 ⊕ (bc1 &^ bc0) in
      let t := a5 ⊕ d0 in let bc2 := rotl t 3 in let t := a6 ⊕ d1 in let bc3 := rotl t 45 in
      let t := a7 ⊕ d2 in let bc4 := rotl t 61 in let t := a8 ⊕ d3 in let bc0 := rotl t 28 in
      let t := a9 ⊕ d4 in let bc1 := rotl t 20 in let a5 := bc0 ⊕ (bc2 &^ bc1) in
      let a6 := bc1 ⊕ (bc3 &^ bc2) in let a7 := bc2 ⊕ (bc4 &^ bc3) in let a8 := bc3 ⊕ (bc0 &^ bc4) in
      let a9 := bc4 ⊕ (bc1 &^ bc0) in let t := a10 ⊕ d0 in let bc4 := rotl t 18 in let t := a11 ⊕ d1 in
      let bc0 := rotl t 1 in let t := a12 ⊕ d2 in let bc1 := rotl t 6 in let t := a13 ⊕ d3 in
      let bc2 := rotl t 25 in let t := a14 ⊕ d4 in let bc3 := rotl t 8 in let a10 := bc0 ⊕ (bc2 &^ bc1) in
      let a11 := bc1 ⊕ (bc3 &^ bc2) in let a12 := bc2 ⊕ (bc4 &^ bc3) in let a13 := bc3 ⊕ (bc0 &^ bc4) in
      let a14 := bc4 ⊕ (bc1 &^ bc0) in let t := a15 ⊕ d0 in let bc1 := rotl t 36 in let t := a16 ⊕ d1 in
      let bc2 := rotl t 10 in let t := a17 ⊕ d2 in let bc3 := rotl t 15 in let t := a18 ⊕ d3 in
      let bc4 := rotl t 56 in let t := a19 ⊕ d4 in let bc0 := rotl t 27 in let a15 := bc0 ⊕ (bc2 &^ bc1) in
      let a16 := bc1 ⊕ (bc3 &^ bc2) in let a17 := bc2 ⊕ (bc4 &^ bc3) in let a18 := bc3 ⊕ (bc0 &^ bc4) in
      let a19 := bc4 ⊕ (bc1 &^ bc0) in let t := a20 ⊕ d0 in let bc3 := rotl t 41 in let t := a21 ⊕ d1 in
      let bc4 := rotl t 2 in let t := a22 ⊕ d2 in let bc0 := rotl t 62 in let t := a23 ⊕ d3 in
      let bc1 := rotl t 55 in let t := a24 ⊕ d4 in let bc2 := rotl t 39 in let a20 := bc0 ⊕ (bc2 &^ bc1) in
      let a21 := bc1 ⊕ (bc3 &^ bc2) in let a22 := bc2 ⊕ (bc4 &^ bc3) in let a23 := bc3 ⊕ (bc0 &^ bc4) in
      let a24 := bc4 ⊕ (bc1 &^ bc0) in
      [a0; a1; a2; a3; a4; a5; a6; a7; a8; a9; a10; a11; a12; a13; a14; a15; a16; a17; a18; a19; a20; a21; a22; a23; a24]
  | _ => a
  end.

(** One iteration of the loop, for [i] = 0, 4, .., 20. *)
Definition four_rounds (a : list Z) (i : nat) : list Z :=
  let a := round1 a (rc !!! i) in
  let a := round2 a (rc !!! (i + 1)%nat) in
  let a := round3 a (rc !!! (i + 2)%nat) in
  round4 a (rc !!! (i + 3)%nat).

Definition keccakF1600 (a : list Z) : list Z := foldl four_rounds a [0; 4; 8; 12; 16; 20]%nat.

(** *** Reference

    The round constants are the output of the linear feedback shift register
    x^8 + x^6 + x^5 + x^4 + 1 at the bits 2^j - 1, and the rotation offsets the
    triangular numbers along the walk (x, y) -> (y, 2x + 3y) from (1, 0). *)

Definition lfsr_step (r : Z) : Z :=
  let r := 2 * r in if Z.testbit r 8 then r ⊕ 0x171 else r.

Definition lfsr_bit (t : nat) : Z := Z.land (Nat.iter t lfsr_step 1) 1.

Definition round_constant (i : nat) : Z :=
  foldr (fun j k => Z.lor (Z.shiftl (lfsr_bit (j + 7 * i)) (2 ^ Z.of_nat j - 1)) k) 0 (seq 0 7).

Fixpoint rho_walk (t : nat) (x y : nat) (offsets : list Z) (steps : nat) : list Z :=
  match steps with
  | O => offsets
  | S steps =>
      rho_walk (S t) y ((2 * x + 3 * y) mod 5)%nat
        (<[(x + 5 * y)%nat := Z.of_nat ((t + 1) * (t + 2) / 2) mod 64]> offsets) steps
  end.

Definition rho_offsets : list Z :=
  [0; 1; 62; 28; 27; 36; 44; 6; 55; 20; 3; 10; 43; 25; 39; 41; 45; 15; 21; 8; 18; 2; 61; 56; 14].

Definition rho (t n : Z) : Z := if n =? 0 then t else rotl t n.

Section Reference.
Context (a : list Z).
Definition lane (x y : nat) : Z := nth (x mod 5 + 5 * (y mod 5)) a 0.
Definition column (x : nat) : Z := lane x 0 ⊕ lane x 1 ⊕ lane x 2 ⊕ lane x 3 ⊕ lane x 4.
Definition theta (x y : nat) : Z := lane x y ⊕ (column (x + 4) ⊕ rotl (column (x + 1)) 1).
Definition rho_pi (x y : nat) : Z :=
  let x' := ((x + 3 * y) mod 5)%nat in rho (theta x' x) (nth (x' + 5 * x) rho_offsets 0).
Definition chi (x y : nat) : Z := rho_pi x y ⊕ (rho_pi ((x + 2) mod 5) y &^ rho_pi ((x + 1) mod 5) y).
End Reference.

Definition keccak_round (a : list Z) (k : Z) : list Z :=
  map (fun i => if (i =? 0)%nat then chi a 0 0 ⊕ k else chi a (i mod 5) (i / 5)) (seq 0 25).

Definition keccak_f (a : list Z) : list Z := foldl keccak_round a (map round_constant (seq 0 24)).

Lemma rc_lfsr : map round_constant (seq 0 24) = rc.
Proof. vm_compute. reflexivity. Qed.

Lemma rho_offsets_walk : rho_walk 0 1 0 (replicate 25 0) 24 = rho_offsets.
Proof. vm_compute. reflexivity. Qed.

(** [rotl] rotates the 64 bits of a lane. *)
Lemma rotl_testbit t n i :
  0 <= t < 2 ^ 64 -> 0 < n < 64 -> 0 <= i < 64 ->
  Z.testbit (rotl t n) i = Z.testbit t ((i - n) mod 64).
Proof.
  intros Ht Hn Hi. unfold rotl, u64. rewrite Z.lor_spec, Z.mod_pow2_bits_low, Z.shiftl_spec, Z.shiftr_spec by lia.
  destruct (Z.ltb_spec i n).
  - rewrite Z.testbit_neg_r by lia. cbn. f_equal. rewrite <- (Z.mod_add _ 1), Z.mod_small; lia.
  - replace (Z.testbit t (i + (64 - n))) with false by
      (symmetry; destruct (Z.eq_dec t 0) as [->|]; [apply Z.bits_0|];
       apply Z.bits_above_log2; [lia|]; apply Z.log2_lt_pow2; [lia|];
       eapply Z.lt_le_trans; [apply Ht|]; apply Z.pow_le_mono_r; lia).
    rewrite orb_false_r, Z.mod_small; [done|lia].
Qed.

(** Where the lanes are after one, two and three rounds. *)
Definition layout1 : list nat :=
  [0; 11; 22; 8; 19; 15; 1; 12; 23; 9; 5; 16; 2; 13; 24; 20; 6; 17; 3; 14; 10; 21; 7; 18; 4]%nat.
Definition layout2 : list nat :=
  [0; 16; 7; 23; 14; 20; 11; 2; 18; 9; 15; 6; 22; 13; 4; 10; 1; 17; 8; 24; 5; 21; 12; 3; 19]%nat.
Definition layout3 : list nat :=
  [0; 6; 12; 18; 24; 10; 16; 22; 3; 9; 20; 1; 7; 13; 19; 5; 11; 17; 23; 4; 15; 21; 2; 8; 14]%nat.
Definition arrange (layout : list nat) (a : list Z) : list Z := map (fun i => nth i a 0) layout.

Lemma list25 (a : list Z) :
  length a = 25%nat ->
  exists a0 a1 a2 a3 a4 a5 a6 a7 a8 a9 a10 a11 a12 a13 a14 a15 a16 a17 a18 a19 a20 a21 a22 a23 a24,
    a = [a0; a1; a2; a3; a4; a5; a6; a7; a8; a9; a10; a11; a12; a13; a14; a15; a16; a17; a18; a19; a20; a21; a22; a23; a24].
Proof.
  intros L. do 25 (destruct a as [|? a]; [discriminate|]). destruct a; [|discriminate]. by repeat eexists.
Qed.

(** Reordering of a column. *)
Ltac lxor_ac :=
  apply Z.bits_inj; intros ?i; rewrite !Z.lxor_spec;
  repeat match goal with |- context [Z.testbit ?x ?i] => destruct (Z.testbit x i) end; reflexivity.

Lemma round1_spec a k : length a = 25%nat -> round1 a k = arrange layout1 (keccak_round a k).
Proof.
  intros L. destruct (list25 a L) as (a0 & a1 & a2 & a3 & a4 & a5 & a6 & a7 & a8 & a9 & a10 & a11 & a12 & a13 & a14 & a15 & a16 & a17 & a18 & a19 & a20 & a21 & a22 & a23 & a24 & ->). reflexivity.
Qed.

Lemma round2_spec a k : length a = 25%nat -> round2 (arrange layout1 a) k = arrange layout2 (keccak_round a k).
Proof.
  intros L. destruct (list25 a L) as (a0 & a1 & a2 & a3 & a4 & a5 & a6 & a7 & a8 & a9 & a10 & a11 & a12 & a13 & a14 & a15 & a16 & a17 & a18 & a19 & a20 & a21 & a22 & a23 & a24 & ->).
  cbv -[Z.lxor Z.ldiff rotl].
  replace (a0 ⊕ a15 ⊕ a5 ⊕ a20 ⊕ a10) with (a0 ⊕ a5 ⊕ a10 ⊕ a15 ⊕ a20) by lxor_ac.
  replace (a11 ⊕ a1 ⊕ a16 ⊕ a6 ⊕ a21) with (a1 ⊕ a6 ⊕ a11 ⊕ a16 ⊕ a21) by lxor_ac.
  replace (a22 ⊕ a12 ⊕ a2 ⊕ a17 ⊕ a7) with (a2 ⊕ a7 ⊕ a12 ⊕ a17 ⊕ a22) by lxor_ac.
  replace (a8 ⊕ a23 ⊕ a13 ⊕ a3 ⊕ a18) with (a3 ⊕ a8 ⊕ a13 ⊕ a18 ⊕ a23) by lxor_ac.
  replace (a19 ⊕ a9 ⊕ a24 ⊕ a14 ⊕ a4) with (a4 ⊕ a9 ⊕ a14 ⊕ a19 ⊕ a24) by lxor_ac.
  reflexivity.
Qed.

Lemma round3_spec a k : length a = 25%nat -> round3 (arrange layout2 a) k = arrange layout3 (keccak_round a k).
Proof.
  intros L. destruct (list25 a L) as (a0 & a1 & a2 & a3 & a4 & a5 & a6 & a7 & a8 & a9 & a10 & a11 & a12 & a13 & a14 & a15 & a16 & a17 & a18 & a19 & a20 & a21 & a22 & a23 & a24 & ->).
  cbv -[Z.lxor Z.ldiff rotl].
  replace (a0 ⊕ a20 ⊕ a15 ⊕ a10 ⊕ a5) with (a0 ⊕ a5 ⊕ a10 ⊕ a15 ⊕ a20) by lxor_ac.
  replace (a16 ⊕ a11 ⊕ a6 ⊕ a1 ⊕ a21) with (a1 ⊕ a6 ⊕ a11 ⊕ a16 ⊕ a21) by lxor_ac.
  replace (a7 ⊕ a2 ⊕ a22 ⊕ a17 ⊕ a12) with (a2 ⊕ a7 ⊕ a12 ⊕ a17 ⊕ a22) by lxor_ac.
  replace (a23 ⊕ a18 ⊕ a13 ⊕ a8 ⊕ a3) with (a3 ⊕ a8 ⊕ a13 ⊕ a18 ⊕ a23) by lxor_ac.
  replace (a14 ⊕ a9 ⊕ a4 ⊕ a24 ⊕ a19) with (a4 ⊕ a9 ⊕ a14 ⊕ a19 ⊕ a24) by lxor_ac.
  reflexivity.
Qed.

Lemma round4_spec a k : length a = 25%nat -> round4 (arrange layout3 a) k = keccak_round a k.
Proof.
  intros L. destruct (list25 a L) as (a0 & a1 & a2 & a3 & a4 & a5 & a6 & a7 & a8 & a9 & a10 & a11 & a12 & a13 & a14 & a15 & a16 & a17 & a18 & a19 & a20 & a21 & a22 & a23 & a24 & ->).
  cbv -[Z.lxor Z.ldiff rotl].
  replace (a0 ⊕ a10 ⊕ a20 ⊕ a5 ⊕ a15) with (a0 ⊕ a5 ⊕ a10 ⊕ a15 ⊕ a20) by lxor_ac.
  replace (a6 ⊕ a16 ⊕ a1 ⊕ a11 ⊕ a21) with (a1 ⊕ a6 ⊕ a11 ⊕ a16 ⊕ a21) by lxor_ac.
  replace (a12 ⊕ a22 ⊕ a7 ⊕ a17 ⊕ a2) with (a2 ⊕ a7 ⊕ a12 ⊕ a17 ⊕ a22) by lxor_ac.
  replace (a18 ⊕ a3 ⊕ a13 ⊕ a23 ⊕ a8) with (a3 ⊕ a8 ⊕ a13 ⊕ a18 ⊕ a23) by lxor_ac.
  replace (a24 ⊕ a9 ⊕ a19 ⊕ a4 ⊕ a14) with (a4 ⊕ a9 ⊕ a14 ⊕ a19 ⊕ a24) by lxor_ac.
  reflexivity.
Qed.

Lemma length_keccak_round a k : length (keccak_round a k) = 25%nat.
Proof. done. Qed.

Lemma four_rounds_spec a i :
  length a = 25%nat ->
  four_rounds a i = foldl keccak_round a [rc !!! i; rc !!! (i + 1)%nat; rc !!! (i + 2)%nat; rc !!! (i + 3)%nat].
Proof.
  intros L. unfold four_rounds. cbn [foldl]. cbv zeta.
  by rewrite round1_spec, round2_spec, round3_spec, round4_spec by (done || apply length_keccak_round).
Qed.

Lemma keccakF1600_ref a : length a = 25%nat -> keccakF1600 a = keccak_f a.
Proof.
  intros L. unfold keccakF1600, keccak_f. rewrite rc_lfsr. cbn [foldl].
  rewrite (four_rounds_spec a 0) by done. cbn [foldl].
  rewrite (four_rounds_spec _ 4) by apply length_keccak_round. cbn [foldl].
  rewrite (four_rounds_spec _ 8) by apply length_keccak_round. cbn [foldl].
  rewrite (four_rounds_spec _ 12) by apply length_keccak_round. cbn [foldl].
  rewrite (four_rounds_spec _ 16) by apply length_keccak_round. cbn [foldl].
  rewrite (four_rounds_spec _ 20) by apply length_keccak_round. done.
Qed.

(** ** The sponge (sha3.go, xor_generic.go)

    [buf] is the content of the slice of that name; while squeezing, what is
    left to read of the last block. *)
Record state := {
  a : list Z; buf : bytes; rate : nat; dsbyte : Z; outputLen : nat; squeezing : bool
}.

Definition NewKeccak256 : state :=
  {| a := replicate 25 0; buf := []; rate := 136; dsbyte := 0x01; outputLen := 32; squeezing := false |}.

Definition with_lanes (d : state) (a' : list Z) (b : bytes) : state :=
  {| a := a'; buf := b; rate := rate d; dsbyte := dsbyte d; outputLen := outputLen d; squeezing := squeezing d |}.

Definition Reset (d : state) : state :=
  {| a := replicate (length (a d)) 0; buf := []; rate := rate d; dsbyte := dsbyte d;
     outputLen := outputLen d; squeezing := false |}.

(** [binary.LittleEndian]. *)
Definition le64 (b : bytes) : Z := SetBytes (reverse (take 8 b)).
Definition put_le64 (x : Z) : bytes := reverse (be_fixed 8 x).

Fixpoint xorIn_loop (n i : nat) (a : list Z) (buf : bytes) : list Z :=
  match n with
  | O => a
  | S n => xorIn_loop n (S i) (<[i := (a !!! i) ⊕ le64 buf]> a) (drop 8 buf)
  end.
Definition xorIn (a : list Z) (buf : bytes) : list Z := xorIn_loop (length buf / 8) 0 a buf.

(** The output block; rates are multiples of eight bytes. *)
Definition copyOut (a : list Z) (rate : nat) : bytes :=
  concat (map (fun i => put_le64 (a !!! i)) (seq 0 (rate / 8))).

Definition permute (d : state) : state :=
  if squeezing d then
    let a' := keccakF1600 (a d) in with_lanes d a' (copyOut a' (rate d))
  else with_lanes d (keccakF1600 (xorIn (a d) (buf d))) [].

Definition xor_last (b : bytes) : bytes :=
  match last b with Some x => take (length b - 1) b ++ [x ⊕ 0x80] | None => b end.

Definition padAndPermute (d : state) : state :=
  let b := buf d ++ [dsbyte d] in
  let b := xor_last (b ++ zeros (rate d - length b)) in
  let d := permute (with_lanes d (a d) b) in
  {| a := a d; buf := copyOut (a d) (rate d); rate := rate d; dsbyte := dsbyte d;
     outputLen := outputLen d; squeezing := true |}.

(** Every round of the loop takes at least one byte of [p]. *)
Fixpoint Write_loop (fuel : nat) (d : state) (p : bytes) : state :=
  match fuel with
  | O => d
  | S fuel =>
      if (length p =? 0)%nat then d
      else if (length (buf d) =? 0)%nat && (rate d <=? length p)%nat then
        Write_loop fuel (with_lanes d (keccakF1600 (xorIn (a d) (take (rate d) p))) (buf d)) (drop (rate d) p)
      else
        let todo := Nat.min (rate d - length (buf d)) (length p) in
        let d := with_lanes d (a d) (buf d ++ take todo p) in
        let p := drop todo p in
        if (length (buf d) =? rate d)%nat then Write_loop fuel (permute d) p else Write_loop fuel d p
  end.

Definition Write (d : state) (p : bytes) : outcome Empty_set state :=
  if squeezing d then Panic else Ok (Write_loop (length p) d p).

Fixpoint Read_loop (fuel : nat) (d : state) (n : nat) : bytes * state :=
  match fuel, n with
  | S fuel, S _ =>
      let k := Nat.min n (length (buf d)) in
      let out := take k (buf d) in
      let d := with_lanes d (a d) (drop k (buf d)) in
      let d := if (length (buf d) =? 0)%nat then permute d else d in
      let '(rest, d) := Read_loop fuel d (n - k) in
      (out ++ rest, d)
  | _, _ => ([], d)
  end.

Definition Read (d : state) (n : nat) : bytes * state :=
  let d := if squeezing d then d else padAndPermute d in Read_loop n d n.

Definition Sum (d : state) (in_ : bytes) : bytes := in_ ++ fst (Read d (outputLen d)).

(** [crypto.Keccak256]. *)
Fixpoint write_all (d : state) (data : list bytes) : outcome Empty_set state :=
  match data with
  | [] => Ok d
  | b :: data => let* d := Write d b in write_all d data
  end.

Definition crypto_Keccak256 (data : list bytes) : outcome Empty_set bytes :=
  let* d := write_all NewKeccak256 data in Ok (Sum d []).

(** *** Reference *)

(** Absorbing the full blocks of a message. *)
Fixpoint absorb (fuel rate : nat) (a : list Z) (m : bytes) : list Z * bytes :=
  match fuel with
  | O => (a, m)
  | S fuel =>
      if (rate <=? length m)%nat then absorb fuel rate (keccak_f (xorIn a (take rate m))) (drop rate m)
      else (a, m)
  end.

Definition pad (rate : nat) (ds : Z) (m : bytes) : bytes := xor_last (m ++ [ds] ++ zeros (rate - length m - 1)).

Definition keccak256 (m : bytes) : bytes :=
  let '(a, rest) := absorb (length m) 136 (replicate 25 0) m in
  take 32 (copyOut (keccak_f (xorIn a (pad 136 0x01 rest))) 136).

(** ** The sponge computes it *)

#[local] Arguments keccakF1600 : simpl never.
#[local] Arguments keccak_f : simpl never.
#[local] Arguments xorIn : simpl never.
#[local] Arguments copyOut : simpl never.

Definition sponge_ok (d : state) : Prop :=
  squeezing d = false /\ length (a d) = 25%nat /\ (length (buf d) < rate d)%nat /\ (rate d <= 200)%nat.

Lemma length_xorIn_loop n i l b : length (xorIn_loop n i l b) = length l.
Proof. revert i l b. induction n as [|n IH]; intros i l b; [done|]. cbn. by rewrite IH, length_insert. Qed.

Lemma length_xorIn l b : length (xorIn l b) = length l.
Proof. apply length_xorIn_loop. Qed.

Lemma length_keccak_f l : length l = 25%nat -> length (keccak_f l) = 25%nat.
Proof. intros _. unfold keccak_f. rewrite rc_lfsr. unfold rc. cbn [foldl]. apply length_keccak_round. Qed.

Lemma absorb_fuel fuel1 fuel2 r l m :
  (1 <= r)%nat -> (length m <= fuel1)%nat -> (length m <= fuel2)%nat -> absorb fuel1 r l m = absorb fuel2 r l m.
Proof.
  intros Hr. revert fuel2 l m. induction fuel1 as [|fuel1 IH]; intros fuel2 l m L1 L2.
  - destruct m; [|cbn in L1; lia]. destruct fuel2; [done|]. cbn [absorb length].
    by rewrite (proj2 (Nat.leb_gt _ _)) by lia.
  - destruct fuel2 as [|fuel2].
    + destruct m; [|cbn in L2; lia]. cbn [absorb length]. by rewrite (proj2 (Nat.leb_gt _ _)) by lia.
    + cbn [absorb]. destruct (Nat.leb_spec r (length m)); [|done]. apply IH; rewrite length_drop; lia.
Qed.

Definition absorbed (d : state) (m : bytes) : state :=
  let '(l, b) := absorb (length m) (rate d) (a d) m in with_lanes d l b.

Lemma with_lanes_id d : with_lanes d (a d) (buf d) = d.
Proof. by destruct d. Qed.

Lemma absorbed_short d m : (length m < rate d)%nat -> absorbed d m = with_lanes d (a d) m.
Proof.
  intros L. unfold absorbed. destruct (length m) eqn:E; [by destruct m|]. cbn [absorb].
  rewrite E. by rewrite (proj2 (Nat.leb_gt _ _)) by lia.
Qed.

Lemma absorbed_full d m :
  length (a d) = 25%nat -> (1 <= rate d)%nat -> (rate d <= length m)%nat ->
  absorbed d m = absorbed (with_lanes d (keccakF1600 (xorIn (a d) (take (rate d) m))) []) (drop (rate d) m).
Proof.
  intros La Hr L. unfold absorbed. rewrite keccakF1600_ref by (by rewrite length_xorIn).
  destruct (length m) eqn:E; [lia|]. cbn [absorb]. rewrite E, (proj2 (Nat.leb_le _ _)) by lia.
  cbn [a rate with_lanes].
  rewrite (absorb_fuel n (length (drop (rate d) m))) by (try done; rewrite length_drop; lia).
  by destruct (absorb _ _ _ _).
Qed.

Lemma Write_loop_ref fuel d p :
  sponge_ok d -> (length p <= fuel)%nat -> Write_loop fuel d p = absorbed d (buf d ++ p).
Proof.
  revert d p. induction fuel as [|fuel IH]; intros d p (Hs & La & Lb & Hr) Hf.
  { destruct p; [|cbn in Hf; lia]. cbn. rewrite app_nil_r, absorbed_short by done. by rewrite with_lanes_id. }
  cbn [Write_loop]. destruct (Nat.eqb_spec (length p) 0) as [E0|E0].
  { destruct p; [|discriminate]. rewrite app_nil_r, absorbed_short by done. by rewrite with_lanes_id. }
  assert (G : forall l, length l = 25%nat -> sponge_ok (with_lanes d (keccakF1600 l) [])).
  { intros l Ll. repeat split; cbn; try done; [rewrite keccakF1600_ref by done; by apply length_keccak_f|lia]. }
  destruct (Nat.eqb_spec (length (buf d)) 0) as [Eb|Eb]; cbn [andb].
  - destruct (buf d) eqn:Ebd; [|discriminate]. cbn [app]. destruct (Nat.leb_spec (rate d) (length p)).
    + rewrite (absorbed_full d p) by (done || lia). rewrite IH; [done|apply G; by rewrite length_xorIn|].
      rewrite length_drop. lia.
    + rewrite Nat.min_r by lia. rewrite firstn_all, skipn_all. cbn [app length].
      rewrite (proj2 (Nat.eqb_neq _ _)) by (cbn; lia).
      rewrite IH; [|by repeat split; cbn|cbn; lia]. cbn [buf with_lanes]. rewrite app_nil_r.
      rewrite !absorbed_short by done. done.
  - destruct (Nat.le_gt_cases (rate d) (length (buf d) + length p)) as [Hl|Hl].
    + rewrite Nat.min_l by lia. cbn [buf with_lanes].
      rewrite (proj2 (Nat.eqb_eq _ _)) by (rewrite length_app, length_take; cbn; lia).
      rewrite (absorbed_full d (buf d ++ p)) by (try done; rewrite ?length_app; lia).
      rewrite take_app_ge, drop_app_ge by lia. unfold permute at 1. cbn [squeezing with_lanes]. rewrite Hs.
      cbn [a buf rate with_lanes]. rewrite IH; [done|apply G; by rewrite length_xorIn|rewrite length_drop; lia].
    + rewrite Nat.min_r by lia. rewrite firstn_all, skipn_all. cbn [buf with_lanes].
      rewrite (proj2 (Nat.eqb_neq _ _)) by (rewrite length_app; cbn; lia).
      rewrite IH; [|repeat split; cbn; try done; rewrite length_app; lia|cbn; lia]. cbn [buf with_lanes].
      rewrite app_nil_r, !absorbed_short by (cbn; rewrite length_app; lia). done.
Qed.

Lemma absorb_rest fuel r l m :
  (1 <= r)%nat -> length l = 25%nat -> (length m <= fuel)%nat ->
  length (absorb fuel r l m).1 = 25%nat /\ (length (absorb fuel r l m).2 < r)%nat.
Proof.
  intros Hr. revert l m. induction fuel as [|fuel IH]; intros l m Ll Lm; cbn [absorb].
  { split; [done|]. cbn. lia. }
  destruct (Nat.leb_spec r (length m)); [|by split]. apply IH.
  - apply length_keccak_f. by rewrite length_xorIn.
  - rewrite length_drop. lia.
Qed.

Lemma absorbed_ok d m :
  squeezing d = false -> length (a d) = 25%nat -> (1 <= rate d <= 200)%nat -> sponge_ok (absorbed d m).
Proof.
  intros Hs La Hr. unfold absorbed.
  destruct (absorb_rest (length m) (rate d) (a d) m) as [L1 L2]; [lia|done|done|].
  destruct (absorb _ _ _ _) as [l b]. cbn in L1, L2. repeat split; cbn; (done || lia).
Qed.

Lemma absorbed_app d m p :
  length (a d) = 25%nat -> (1 <= rate d <= 200)%nat ->
  absorbed (absorbed d m) (buf (absorbed d m) ++ p) = absorbed d (m ++ p).
Proof.
  intros La Hr. remember (length m) as n eqn:En. revert d m En La Hr.
  induction (lt_wf n) as [n _ IH]; intros d m -> La Hr.
  destruct (Nat.lt_ge_cases (length m) (rate d)) as [L|L].
  - rewrite (absorbed_short d m) by done. cbn [buf with_lanes]. unfold absorbed. cbn [a rate with_lanes].
    by destruct (absorb _ _ _ _).
  - rewrite (absorbed_full d m) by (done || lia).
    rewrite (absorbed_full d (m ++ p)) by (try done; rewrite ?length_app; lia).
    rewrite take_app_le, drop_app_le by lia.
    rewrite (IH (length (drop (rate d) m))); [done|rewrite length_drop; lia|done|..|done].
    cbn. rewrite keccakF1600_ref by (by rewrite length_xorIn). apply length_keccak_f. by rewrite length_xorIn.
Qed.

(** Writing is independent of how the data is cut into chunks. *)
Lemma write_all_ref data d m :
  squeezing d = false -> length (a d) = 25%nat -> (1 <= rate d <= 200)%nat ->
  write_all (absorbed d m) data = Ok (absorbed d (m ++ concat data)).
Proof.
  intros Hs La Hr. revert m. induction data as [|p data IH]; intros m; cbn [write_all concat].
  { by rewrite app_nil_r. }
  pose proof (absorbed_ok d m Hs La Hr) as Hok. unfold Write.
  destruct (squeezing (absorbed d m)) eqn:E; [by destruct Hok as [E' _]; rewrite E' in E|]. cbn [obind].
  rewrite Write_loop_ref, absorbed_app by done. by rewrite IH, app_assoc.
Qed.

Lemma length_copyOut l : length (copyOut l 136) = 136%nat.
Proof.
  unfold copyOut. set (f := fun i => put_le64 _). assert (Hf : forall i, length (f i) = 8%nat) by done.
  change (136 / 8)%nat with 17%nat. cbn [seq map concat]. by rewrite !length_app, !Hf.
Qed.

(** Reading less than what the block holds. *)
Lemma Read_loop_once fuel d n :
  (n < length (buf d))%nat -> (n <= fuel)%nat -> fst (Read_loop fuel d n) = take n (buf d).
Proof.
  intros Ln Hf. destruct n as [|n]; [by destruct fuel|]. destruct fuel as [|fuel]; [lia|].
  cbn [Read_loop]. rewrite Nat.min_l, Nat.sub_diag by lia.
  assert (E : forall f s, Read_loop f s 0 = ([], s)) by (by intros []).
  rewrite E. cbn [fst]. apply app_nil_r.
Qed.

Lemma padAndPermute_buf d :
  squeezing d = false -> length (a d) = 25%nat -> (length (buf d) < rate d)%nat ->
  buf (padAndPermute d) = copyOut (keccak_f (xorIn (a d) (pad (rate d) (dsbyte d) (buf d)))) (rate d).
Proof.
  intros Hs La Lb. unfold padAndPermute, permute. cbn [squeezing with_lanes]. rewrite Hs.
  cbn [a buf rate dsbyte with_lanes]. rewrite keccakF1600_ref by (by rewrite length_xorIn).
  unfold pad. rewrite length_app, <- app_assoc. cbn [length app].
  by replace (rate d - (length (buf d) + 1))%nat with (rate d - length (buf d) - 1)%nat by lia.
Qed.

Lemma crypto_Keccak256_ref data : crypto_Keccak256 data = Ok (keccak256 (concat data)).
Proof.
  unfold crypto_Keccak256. rewrite <- (with_lanes_id NewKeccak256). rewrite <- absorbed_short by (cbn; lia).
  rewrite write_all_ref by (done || cbn; lia). cbn [obind app buf NewKeccak256]. f_equal.
  set (m := concat data). unfold Sum, absorbed, keccak256. cbn [a rate NewKeccak256].
  destruct (absorb (length m) 136 (replicate 25 0) m) as [l rest] eqn:E.
  destruct (absorb_rest (length m) 136 (replicate 25 0) m) as [L1 L2]; [lia|done|done|].
  rewrite E in L1, L2. cbn [fst snd] in L1, L2.
  unfold Read. cbn [squeezing with_lanes NewKeccak256 outputLen app].
  rewrite Read_loop_once; rewrite ?padAndPermute_buf by done; cbn [a rate dsbyte buf with_lanes]; [done| |done].
  rewrite length_copyOut. lia.
Qed.

Lemma put_le64_ok x : bytes_ok (put_le64 x).
Proof. unfold put_le64. rewrite reverse_Permutation. apply be_fixed_ok. Qed.

Lemma keccak256_length m : length (keccak256 m) = 32%nat.
Proof. unfold keccak256. destruct (absorb _ _ _ _). by rewrite length_take, length_copyOut. Qed.

Lemma keccak256_bytes m : bytes_ok (keccak256 m).
Proof.
  unfold keccak256. destruct (absorb _ _ _ _). apply Forall_take. unfold copyOut.
  apply Forall_concat, Forall_map, Forall_forall. intros i _. apply put_le64_ok.
Qed.

(** The hash function of the other components. *)
Definition hash_of (m : bytes) : bytes := match crypto_Keccak256 [m] with Ok h => h | _ => [] end.

Lemma hash_of_ref m : hash_of m = keccak256 m.
Proof. unfold hash_of. rewrite crypto_Keccak256_ref. cbn. by rewrite app_nil_r. Qed.

Definition keccak_hash : Hash256.
Proof.
  refine {| Keccak256 := hash_of |}; intros m; rewrite hash_of_ref; [apply keccak256_length|apply keccak256_bytes].
Defined.

(** C33: the unrolled permutation with lanes permuted in place is Keccak-f[1600]:
    24 rounds of theta, rho, pi, chi and iota. *)
Theorem keccakF1600_spec l : length l = 25%nat -> keccakF1600 l = keccak_f l.
Proof. apply keccakF1600_ref. Qed.

Lemma keccakF1600_spec_witness : keccakF1600 (replicate 25 0) = keccak_f (replicate 25 0).
Proof. apply (keccakF1600_spec (replicate 25 0)). reflexivity. Defined.

(** C34: hashing is independent of how the input is cut into writes, never
    panics, and gives the sponge of the concatenated input. *)
Theorem Keccak256_spec data : crypto_Keccak256 data = Ok (keccak256 (concat data)).
Proof. apply crypto_Keccak256_ref. Qed.
