(* ===== verification/Database.v ===== *)
(** * Key-value databases (src/database)

    The interface the other packages program against, as the classes
    [Writer] and [Database] with their laws, and the in-memory database with
    its write batches.  The methods of the memory database take its read-write
    mutex; a method that waits for a lock its own goroutine holds never
    returns, which is the result [None] below. *)

From S2P Require Import Prelude.

(** ** The interface *)

(** [put] of a [database.Batch] or a database, with the error of the call. *)
Class Writer (W : Type) := {
  db_put : W -> bytes -> bytes -> W * bool
}.

Class Database (D : Type) := {
  db_writer :: Writer D;
  db_get : D -> bytes -> option bytes
}.

(** A successful [Put] changes one key, a failed one none. *)
Class DatabaseLaws (D : Type) `{Database D} := {
  db_get_put d d' k v k' :
    db_put d k v = (d', true) -> db_get d' k' = if decide (k' = k) then Some v else db_get d k';
  db_get_put_fail d d' k v k' : db_put d k v = (d', false) -> db_get d' k' = db_get d k'
}.

(** ** The mutex *)

Record RWMutex := { writer_held : bool; readers : nat }.
Definition free : RWMutex := {| writer_held := false; readers := 0 |}.

Definition Lock (l : RWMutex) : option RWMutex :=
  if writer_held l || negb (readers l =? 0)%nat then None
  else Some {| writer_held := true; readers := 0 |}.
Definition Unlock (l : RWMutex) : RWMutex := {| writer_held := false; readers := readers l |}.
Definition RLock (l : RWMutex) : option RWMutex :=
  if writer_held l then None else Some {| writer_held := false; readers := S (readers l) |}.
Definition RUnlock (l : RWMutex) : RWMutex :=
  {| writer_held := writer_held l; readers := readers l - 1 |}.

(** ** The memory database *)

Record MemDatabase := { db : gmap bytes bytes; lock : RWMutex }.

Definition NewMemDatabase : MemDatabase := {| db := ∅; lock := free |}.

Definition Put (key value : bytes) (d : MemDatabase) : option MemDatabase :=
  match Lock (lock d) with
  | None => None
  | Some l => Some {| db := <[key := value]> (db d); lock := Unlock l |}
  end.

Definition Set_ (key value : bytes) (d : MemDatabase) : option MemDatabase :=
  match Lock (lock d) with
  | None => None
  | Some l =>
      match Put key value {| db := db d; lock := l |} with
      | None => None
      | Some d => Some {| db := db d; lock := Unlock (lock d) |}
      end
  end.

Definition Get (key : bytes) (d : MemDatabase) : option (option bytes * MemDatabase) :=
  match RLock (lock d) with
  | None => None
  | Some l => Some (db d !! key, {| db := db d; lock := RUnlock l |})
  end.

Definition Keys (d : MemDatabase) : option (list bytes * MemDatabase) :=
  match RLock (lock d) with
  | None => None
  | Some l => Some (map fst (map_to_list (db d)), {| db := db d; lock := RUnlock l |})
  end.

Definition Delete (key : bytes) (d : MemDatabase) : option MemDatabase :=
  match Lock (lock d) with
  | None => None
  | Some l => Some {| db := delete key (db d); lock := Unlock l |}
  end.

(** ** Batches *)

Record memBatch := { writes : list (bytes * bytes); batch_lock : RWMutex }.

Definition NewBatch : memBatch := {| writes := []; batch_lock := free |}.

Definition batch_Put (key value : bytes) (b : memBatch) : option memBatch :=
  match Lock (batch_lock b) with
  | None => None
  | Some l => Some {| writes := writes b ++ [(key, value)]; batch_lock := Unlock l |}
  end.

Definition batch_Write (b : memBatch) (d : MemDatabase) : option (memBatch * MemDatabase) :=
  match RLock (batch_lock b) with
  | None => None
  | Some bl =>
      match Lock (lock d) with
      | None => None
      | Some l =>
          Some ({| writes := writes b; batch_lock := RUnlock bl |},
                {| db := foldl (fun m '(k, v) => <[k := v]> m) (db d) (writes b); lock := Unlock l |})
      end
  end.

(** ** The memory database implements the interface *)

#[global] Instance MemDatabase_writer : Writer MemDatabase := {
  db_put d k v := match Put k v d with Some d' => (d', true) | None => (d, false) end
}.
#[global] Instance MemDatabase_database : Database MemDatabase := {
  db_get d k := db d !! k
}.
#[global] Instance MemDatabase_laws : DatabaseLaws MemDatabase.
Proof.
  split; intros d d' k v k'; cbn; unfold Put; destruct (Lock (lock d)); intros E; try discriminate;
    injection E as <-; [|done].
  cbn. case_decide as E; [subst; apply lookup_insert_eq|by apply lookup_insert_ne].
Qed.

#[global] Instance memBatch_writer : Writer memBatch := {
  db_put b k v := match batch_Put k v b with Some b' => (b', true) | None => (b, false) end
}.

(** The last write to a key is the one a replay leaves. *)
Lemma foldl_insert_lookup (ws : list (bytes * bytes)) (m : gmap bytes bytes) k :
  foldl (fun m '(k, v) => <[k := v]> m) m ws !! k =
  match list_find (fun kv => kv.1 = k) (reverse ws) with
  | Some (_, kv) => Some kv.2
  | None => m !! k
  end.
Proof.
  induction ws as [|[k1 v1] ws IH] using rev_ind; [done|].
  rewrite foldl_snoc, reverse_snoc. cbn. destruct (decide (k1 = k)) as [->|Hne].
  - apply lookup_insert_eq.
  - rewrite lookup_insert_ne by done. rewrite IH. by destruct (list_find _ _) as [[i kv]|].
Qed.

(** On a database no goroutine has locked, [Put], [Get], [Delete] and [Keys]
    return, leave the lock free and act on the map as their names say, while
    [Set] waits for ever: it calls [Put] with the lock held. *)
Theorem MemDatabase_spec m k v :
  let d := {| db := m; lock := free |} in
  Put k v d = Some {| db := <[k := v]> m; lock := free |} /\
  Get k d = Some (m !! k, d) /\
  Delete k d = Some {| db := delete k m; lock := free |} /\
  (exists ks, Keys d = Some (ks, d) /\ forall k', k' ∈ ks <-> is_Some (m !! k')) /\
  Set_ k v d = None.
Proof.
  cbn. repeat split. eexists. split; [done|]. intros k'.
  rewrite list_elem_of_fmap. split.
  - intros ([k1 v1] & -> & E). apply elem_of_map_to_list in E. by eexists.
  - intros [v1 E]. exists (k', v1). by rewrite elem_of_map_to_list.
Qed.

(** A batch written to a memory database leaves each key with the value of
    the last [Put] to it in the batch, the other keys unchanged. *)
Theorem batch_Write_spec m ws :
  let b := {| writes := ws; batch_lock := free |} in
  exists d', batch_Write b {| db := m; lock := free |} = Some (b, d') /\ lock d' = free /\
    forall k, db d' !! k = match list_find (fun kv => kv.1 = k) (reverse ws) with
                           | Some (_, kv) => Some kv.2
                           | None => m !! k
                           end.
Proof. eexists. split; [done|]. split; [done|]. intros k. apply foldl_insert_lookup. Qed.
