(* ===== verification/TrieEncoding.v ===== *)
(** * Key encodings of the trie (src/trie/encoding.go)

    Trie keys are strings of nibbles, with the terminator 16 after a complete
    key.  This file models the conversions between byte keys, nibble keys and
    the compact (hex-prefix) form stored in the database, and shows that they
    round-trip. *)

From S2P Require Import Prelude.

(** A nibble string, and a complete key: nibbles followed by the terminator. *)
Definition nibble (x : Z) : Prop := 0 <= x < 16.
Definition hexkey (k : bytes) : Prop := exists l, k = l ++ [16] /\ Forall nibble l.

(** [buf[bi] |= hexSlice[hi] << hs], [hi] counting up to the end. *)
Fixpoint compact_loop (fuel : nat) (buf hexSlice : bytes) (bi hi : nat) (hs : Z) : bytes :=
  match fuel with
  | O => buf
  | S fuel =>
      if (bi <? length buf)%nat && (hi <? length hexSlice)%nat then
        let buf := <[bi := u8 (Z.lor (buf !!! bi) (u8 (Z.shiftl (hexSlice !!! hi) hs)))]> buf in
        compact_loop fuel buf hexSlice (if hs =? 0 then S bi else bi) (S hi) (Z.lxor hs 4)
      else buf
  end.

Definition compactEncode (hexSlice : bytes) : outcome Empty_set bytes :=
  match last hexSlice with
  | None => Panic
  | Some t =>
      let terminator := if t =? 16 then 1 else 0 in
      let hexSlice := if t =? 16 then take (length hexSlice - 1) hexSlice else hexSlice in
      let odd := len hexSlice mod 2 in
      let buflen := (length hexSlice / 2 + 1)%nat in
      let bi := if odd =? 0 then 1%nat else 0%nat in
      let hs := if odd =? 0 then 4 else 0 in
      let buf := replicate buflen 0 in
      let buf := <[0%nat := Z.lor (u8 (Z.shiftl terminator 5)) (u8 (Z.shiftl odd 4))]> buf in
      Ok (compact_loop (length hexSlice) buf hexSlice bi 0 hs)
  end.

Definition compactHexDecode (str : bytes) : bytes :=
  concat (map (fun b => [b / 16; b mod 16]) str) ++ [16].

Definition compactDecode (str : bytes) : outcome Empty_set bytes :=
  let base := compactHexDecode str in
  let base := take (length base - 1) base in
  let* b0 := idx base 0 in
  let base := if 2 <=? b0 then base ++ [16] else base in
  if b0 mod 2 =? 1 then Ok (drop 1 base)
  else if (length base <? 2)%nat then Panic else Ok (drop 2 base).

Fixpoint hexEncode_loop (n i nl : nat) (nibbles : bytes) : outcome Empty_set bytes :=
  match n with
  | O => Ok []
  | S n =>
      let* x := idx nibbles (i * 2) in
      let b := u8 (x * 16) in
      let* b := (if (i * 2 <? nl)%nat
                 then let* y := idx nibbles (i * 2 + 1) in Ok (u8 (b + y)) else Ok b) in
      let* r := hexEncode_loop n (S i) nl nibbles in
      Ok (b :: r)
  end.

Definition compactHexEncode (nibbles : bytes) : outcome Empty_set bytes :=
  let nl := length nibbles in
  match last nibbles with
  | None => Ok []
  | Some t =>
      let nl := if t =? 16 then (nl - 1)%nat else nl in
      hexEncode_loop ((nl + 1) / 2) 0 nl nibbles
  end.

Definition decodeCompact (key : bytes) : bytes :=
  map (fun i => u8 (u8 (key !!! (2 * i)%nat * 16) + key !!! (2 * i + 1)%nat)) (seq 0 (length key / 2)).

Fixpoint prefixLen (a b : bytes) : nat :=
  match a, b with
  | x :: a, y :: b => if x =? y then S (prefixLen a b) else O
  | _, _ => O
  end.

Definition hasTerm (s : bytes) : outcome Empty_set bool :=
  match last s with None => Panic | Some t => Ok (t =? 16) end.

Definition remTerm (s : bytes) : outcome Empty_set bytes :=
  let* t := hasTerm s in
  Ok (if t then take (length s - 1) s else s).

(** ** Reference: packing nibbles into bytes *)

Fixpoint pack (l : bytes) : bytes :=
  match l with
  | a :: b :: l => (a * 16 + b) :: pack l
  | _ => []
  end.

Definition unpack (l : bytes) : bytes := concat (map (fun b => [b / 16; b mod 16]) l).

Lemma pair_ind (P : bytes -> Prop) :
  P [] -> (forall a, P [a]) -> (forall a b l, P l -> P (a :: b :: l)) -> forall l, P l.
Proof.
  intros H0 H1 H2. fix IH 1. intros [|a [|b l]]; [exact H0|apply H1|apply H2, IH].
Qed.

Lemma unpack_pack l : Forall nibble l -> Nat.Even (length l) -> unpack (pack l) = l.
Proof.
  induction l as [|a|a b l IH] using pair_ind; intros Hl He; [done| |].
  - destruct He as [k Hk]. cbn in Hk. lia.
  - apply Forall_cons in Hl as [Ha Hl]. apply Forall_cons in Hl as [Hb Hl]. unfold nibble in *.
    change (unpack (pack (a :: b :: l))) with ((a * 16 + b) / 16 :: (a * 16 + b) mod 16 :: unpack (pack l)).
    rewrite IH; [|done|].
    + f_equal; [dlia|]. f_equal. dlia.
    + destruct He as [k Hk]. exists (k - 1)%nat. cbn in Hk. lia.
Qed.

Lemma pack_unpack l : pack (unpack l) = l.
Proof. induction l as [|b l IH]; [done|]. cbn. f_equal; [dlia|]. exact IH. Qed.

Lemma unpack_nibbles l : bytes_ok l -> Forall nibble (unpack l).
Proof.
  induction 1 as [|b l Hb _ IH]; [constructor|]. unfold byte_ok in Hb.
  change (unpack (b :: l)) with (b / 16 :: b mod 16 :: unpack l).
  unfold nibble. repeat constructor; [dlia..|done].
Qed.

Lemma length_unpack l : length (unpack l) = (2 * length l)%nat.
Proof.
  induction l as [|b l IH]; [done|].
  change (unpack (b :: l)) with (b / 16 :: b mod 16 :: unpack l). cbn [length]. lia.
Qed.

Lemma length_pack l : length (pack l) = (length l / 2)%nat.
Proof.
  induction l as [|a|a b l IH] using pair_ind; [done|done|]. cbn [pack length]. rewrite IH.
  replace (S (S (length l))) with (length l + 1 * 2)%nat by lia. rewrite Nat.div_add by lia. lia.
Qed.

(** Converting a byte key to nibbles gives a complete key. *)
Lemma compactHexDecode_hexkey k : bytes_ok k -> hexkey (compactHexDecode k).
Proof. intros Hk. exists (unpack k). split; [done|by apply unpack_nibbles]. Qed.

Lemma compactHexDecode_inj a b : compactHexDecode a = compactHexDecode b -> a = b.
Proof.
  intros E. apply app_inj_tail in E as [E _].
  change (unpack a = unpack b) in E. by rewrite <- (pack_unpack a), E, pack_unpack.
Qed.

(** ** The packing loop *)

Lemma u8_shift_nibble x : nibble x -> u8 (Z.shiftl x 4) = x * 16.
Proof.
  unfold nibble. intros. rewrite Z.shiftl_mul_pow2 by lia. apply u8_small. unfold byte_ok. lia.
Qed.

Lemma insert_middle (a c : bytes) x y : <[length a := y]> (a ++ x :: c) = a ++ y :: c.
Proof. by rewrite insert_app_r_alt, Nat.sub_diag by lia. Qed.

Lemma lookup_middle (a c : bytes) x : (a ++ x :: c) !!! length a = x.
Proof. apply list_lookup_total_correct. by rewrite lookup_app_r, Nat.sub_diag by lia. Qed.

(** From an even position on, the loop packs the rest two by two. *)
Lemma compact_loop_pack rest fuel done_ hexSlice :
  Forall nibble rest -> Nat.Even (length rest) -> (length rest <= fuel)%nat ->
  forall hi, drop hi hexSlice = rest -> (hi <= length hexSlice)%nat ->
  compact_loop fuel (done_ ++ replicate (length rest / 2) 0) hexSlice (length done_) hi 4 =
  done_ ++ pack rest.
Proof.
  revert fuel done_. induction rest as [|a|a b l IH] using pair_ind;
    intros fuel done_ Hn He Hf hi Hd Hh.
  - change (replicate (length [] / 2) 0) with (@nil Z). cbn [pack]. rewrite app_nil_r.
    destruct fuel; [done|]. cbn [compact_loop]. by rewrite Nat.ltb_irrefl.
  - destruct He as [k Hk]. cbn in Hk. lia.
  - apply Forall_cons in Hn as [Ha Hn]. apply Forall_cons in Hn as [Hb Hn].
    destruct fuel as [|[|fuel]]; [cbn in Hf; lia..|].
    assert (E : (length (a :: b :: l) / 2 = S (length l / 2))%nat).
    { cbn [length]. replace (S (S (length l))) with (length l + 1 * 2)%nat by lia.
      rewrite Nat.div_add by lia. lia. }
    rewrite E. cbn [replicate].
    assert (L : (length hexSlice = hi + S (S (length l)))%nat).
    { apply (f_equal length) in Hd. rewrite length_drop in Hd. cbn in Hd. lia. }
    assert (G : forall i, hexSlice !!! (hi + i)%nat = (a :: b :: l) !!! i).
    { intros i. rewrite <- Hd, !list_lookup_total_alt, lookup_drop. done. }
    pose proof (G 0%nat) as G0. pose proof (G 1%nat) as G1. cbn in G0, G1.
    rewrite Nat.add_0_r in G0. replace (hi + 1)%nat with (S hi) in G1 by lia.
    cbn [compact_loop]. rewrite length_app. cbn [length]. rewrite length_replicate.
    rewrite !(proj2 (Nat.ltb_lt _ _)) by lia. cbn [andb].
    rewrite insert_middle, lookup_middle, G0. change (Z.lxor 4 4) with 0. change (4 =? 0) with false.
    cbv iota. rewrite length_app. cbn [length]. rewrite length_replicate.
    rewrite !(proj2 (Nat.ltb_lt _ _)) by lia. cbn [andb].
    rewrite insert_middle, lookup_middle, G1. change (Z.lxor 0 4) with 4. change (0 =? 0) with true.
    cbv iota. rewrite Z.lor_0_l, u8_shift_nibble by done.
    assert (V : u8 (Z.lor (u8 (a * 16)) (u8 (Z.shiftl b 0))) = a * 16 + b).
    { unfold nibble in *. rewrite Z.shiftl_0_r, (u8_small (a * 16)), (u8_small b) by (unfold byte_ok; lia).
      rewrite (lor_add 4) by dlia. apply u8_small. unfold byte_ok. lia. }
    rewrite V. cbn [pack].
    specialize (IH fuel (done_ ++ [a * 16 + b])).
    rewrite length_app in IH. cbn [length] in IH. rewrite Nat.add_1_r, <- !app_assoc in IH. cbn [app] in IH.
    apply IH; [done| |cbn in Hf; lia| |lia].
    + destruct He as [k Hk]. exists (k - 1)%nat. cbn in Hk. lia.
    + replace (S (S hi)) with (hi + 2)%nat by lia. rewrite <- drop_drop, Hd. done.
Qed.

(** ** Compact keys *)

(** The flag nibble (terminator bit and parity bit) with its padding. *)
Definition compact_prefix (l : bytes) (term : bool) : bytes :=
  let flag := (if term then 2 else 0) + len l mod 2 in
  if len l mod 2 =? 0 then [flag; 0] else [flag].

Lemma parity (l : bytes) : (len l mod 2 = 0 /\ Nat.Even (length l)) \/ (len l mod 2 = 1 /\ Nat.Odd (length l)).
Proof.
  destruct (Nat.Even_or_Odd (length l)) as [[k E]|[k E]]; [left|right]; (split; [dlia|]); by exists k.
Qed.

Lemma compactEncode_spec l (term : bool) :
  Forall nibble l -> term = true \/ l <> [] ->
  compactEncode (l ++ if term then [16] else []) = Ok (pack (compact_prefix l term ++ l)).
Proof.
  intros Hl Hne. unfold compactEncode.
  assert (E : exists t, last (l ++ if term then [16] else []) = Some t /\ (t =? 16) = term).
  { destruct term; [exists 16; by rewrite last_snoc|]. rewrite app_nil_r.
    destruct Hne as [|Hne]; [done|]. destruct (last l) as [t|] eqn:Et.
    - exists t. split; [done|]. apply last_Some in Et as [l' ->].
      apply Forall_app in Hl as [_ Ht]. apply Forall_cons in Ht as [Ht _]. unfold nibble in Ht. by ztests.
    - by apply last_None in Et. }
  destruct E as (t & -> & ->).
  assert (Eh : (if term then take (length (l ++ (if term then [16] else [])) - 1) (l ++ (if term then [16] else []))
                else l ++ (if term then [16] else [])) = l).
  { destruct term; [|apply app_nil_r]. rewrite length_app. cbn. by rewrite Nat.add_sub, take_app_length. }
  cbv zeta. rewrite Eh. f_equal. unfold compact_prefix. cbv zeta.
  destruct (parity l) as [[-> He]|[-> Ho]]; cbv iota.
  - change (0 =? 0) with true. cbv iota. rewrite Nat.add_1_r. cbn [replicate].
    assert (L : (length l / 2 * 2 = length l)%nat) by (destruct He as [k ->]; rewrite (Nat.mul_comm 2), Nat.div_mul; lia).
    set (x := Z.lor _ _). etransitivity; [apply (compact_loop_pack l (length l) [x] l); [done..|lia]|].
    cbn. f_equal. destruct term; reflexivity.
  - change (1 =? 0) with false. cbv iota. destruct l as [|a l]; [destruct Ho; cbn in *; lia|].
    apply Forall_cons in Hl as [Ha Hl].
    assert (He : Nat.Even (length l)) by (destruct Ho as [k Hk]; exists k; cbn in Hk; lia).
    assert (Ed : (length (a :: l) / 2 = length l / 2)%nat).
    { destruct He as [k Hk]. cbn [length]. rewrite Hk. replace (S (2 * k)) with (1 + k * 2)%nat by lia.
      rewrite Nat.div_add, (Nat.mul_comm 2), Nat.div_mul by lia. done. }
    rewrite Ed, Nat.add_1_r. cbn [replicate length compact_loop].
    rewrite (proj2 (Nat.ltb_lt _ _)) by (cbn; lia). cbn [andb].
    change (Z.lxor 0 4) with 4. change (0 =? 0) with true. cbv iota.
    set (x := u8 _). etransitivity; [apply (compact_loop_pack l (length l) [x] (a :: l)); [done..|cbn; lia]|].
    cbn. f_equal. subst x. unfold nibble in Ha. cbn.
    rewrite Z.shiftl_0_r, (u8_small a) by (unfold byte_ok; lia).
    destruct term; rewrite (lor_add 4) by (vm_compute (Z.lor _ _); dlia); cbn;
      apply u8_small; unfold byte_ok; lia.
Qed.

Lemma length_compact_prefix l term :
  Nat.Even (length (compact_prefix l term ++ l)) /\ Forall nibble (compact_prefix l term).
Proof.
  unfold compact_prefix, nibble.
  destruct (parity l) as [[-> [k Hk]]|[-> [k Hk]]]; cbn [Z.eqb]; (split;
    [rewrite length_app; cbn [length]; exists (k + 1)%nat; lia|]); destruct term; repeat constructor; lia.
Qed.

Lemma compactDecode_pack l term :
  Forall nibble l ->
  compactDecode (pack (compact_prefix l term ++ l)) = Ok (l ++ if term then [16] else []).
Proof.
  intros Hl. unfold compactDecode, compactHexDecode.
  destruct (length_compact_prefix l term) as [He Hp].
  fold (unpack (pack (compact_prefix l term ++ l))). rewrite unpack_pack by (done || by apply Forall_app).
  cbv zeta. rewrite length_app, Nat.add_sub, take_app_length.
  unfold compact_prefix. destruct (parity l) as [[-> _]|[-> _]], term; cbn; by rewrite ?app_nil_r.
Qed.

Lemma length_pack_prefix l term : length (pack (compact_prefix l term ++ l)) = (length l / 2 + 1)%nat.
Proof.
  rewrite length_pack, length_app. unfold compact_prefix.
  destruct (parity l) as [[-> [k ->]]|[-> [k ->]]]; cbn [Z.eqb length].
  - rewrite (Nat.mul_comm 2), Nat.div_mul by lia.
    replace (2 + k * 2)%nat with ((k + 1) * 2)%nat by lia. by rewrite Nat.div_mul.
  - replace (1 + (2 * k + 1))%nat with ((k + 1) * 2)%nat by lia.
    replace (2 * k + 1)%nat with (1 + k * 2)%nat by lia. by rewrite Nat.div_mul, Nat.div_add.
Qed.

(** Compact (hex-prefix) encoding loses nothing: every nibble key of the
    trie, complete (with the terminator) or partial (non-empty, without it),
    is encoded without panic in one byte more than half the number of its
    nibbles, and decoding gives back the key with its terminator. *)
Theorem compactEncode_roundtrip l (term : bool) :
  Forall nibble l -> term = true \/ l <> [] ->
  exists b, compactEncode (l ++ if term then [16] else []) = Ok b /\
            length b = (length l / 2 + 1)%nat /\
            compactDecode b = Ok (l ++ if term then [16] else []).
Proof.
  intros Hl Hne. exists (pack (compact_prefix l term ++ l)).
  split; [by apply compactEncode_spec|]. split; [apply length_pack_prefix|by apply compactDecode_pack].
Qed.

Lemma compactEncode_roundtrip_witness :
  exists b, compactEncode ([1; 2; 3] ++ [16]) = Ok b /\ length b = (3 / 2 + 1)%nat /\
            compactDecode b = Ok ([1; 2; 3] ++ [16]).
Proof.
  apply (compactEncode_roundtrip [1; 2; 3] true); [|by left].
  repeat constructor; lia.
Defined.

(** The keys the trie stores, complete or partial. *)
Definition triekey (k : bytes) : Prop := hexkey k \/ (k <> [] /\ Forall nibble k).

Lemma pack_ok l : Forall nibble l -> bytes_ok (pack l).
Proof.
  induction l as [|a|a b l IH] using pair_ind; intros Hl; [constructor..|].
  apply Forall_cons in Hl as [Ha Hl]. apply Forall_cons in Hl as [Hb Hl]. unfold nibble in Ha, Hb.
  constructor; [unfold byte_ok; lia|by apply IH].
Qed.

Lemma compact_triekey k :
  triekey k -> exists b, compactEncode k = Ok b /\ compactDecode b = Ok k /\ bytes_ok b /\ (length b <= length k + 1)%nat.
Proof.
  assert (G : forall l term, Forall nibble l -> bytes_ok (pack (compact_prefix l term ++ l)) /\
    (length (pack (compact_prefix l term ++ l)) <= length l + 1)%nat).
  { intros l term Hl. rewrite length_pack_prefix. split.
    - apply pack_ok, Forall_app. split; [apply length_compact_prefix|done].
    - pose proof (Nat.Div0.div_le_upper_bound (length l) 2 (length l)). lia. }
  intros [(l & -> & Hl)|[Hne Hl]].
  - exists (pack (compact_prefix l true ++ l)). destruct (G l true Hl) as [? ?]. rewrite length_app.
    split; [by apply (compactEncode_spec l true); [|left]|].
    split; [by apply (compactDecode_pack l true)|split; [done|lia]].
  - exists (pack (compact_prefix k false ++ k)). split; [|split; [|by apply G]].
    + rewrite <- (app_nil_r k) at 1. by apply (compactEncode_spec k false); [|right].
    + rewrite (compactDecode_pack k false) by done. cbn. by rewrite app_nil_r.
Qed.

(** ** Byte keys from nibbles *)

Lemma hexEncode_loop_spec l i nibbles rest n nl :
  Forall nibble l -> drop (i * 2) nibbles = l ++ rest -> length l = (2 * n)%nat -> (i * 2 + length l <= nl)%nat ->
  hexEncode_loop n i nl nibbles = Ok (pack l).
Proof.
  revert i l. induction n as [|n IH]; intros i l Hl Hd Hn Hlen.
  { by destruct l; [|cbn in Hn; lia]. }
  destruct l as [|a [|b l]]; [cbn in Hn; lia..|].
  apply Forall_cons in Hl as [Ha Hl]. apply Forall_cons in Hl as [Hb Hl]. unfold nibble in Ha, Hb.
  cbn [length] in *. cbn [hexEncode_loop].
  assert (X : forall j, nibbles !! (i * 2 + j)%nat = (a :: b :: l ++ rest) !! j)
    by (intros j; rewrite <- lookup_drop; by rewrite Hd).
  unfold idx. rewrite <- (Nat.add_0_r (i * 2)) at 1. rewrite !X. cbn [lookup list_lookup obind].
  rewrite (proj2 (Nat.ltb_lt _ _)) by lia. cbn [obind].
  rewrite (IH (S i) l); [|done| |lia|lia].
  - cbn [obind pack]. rewrite (u8_small (a * 16)), u8_small by (unfold byte_ok; lia). done.
  - replace (S i * 2)%nat with (i * 2 + 2)%nat by lia. rewrite <- drop_drop, Hd. done.
Qed.

Lemma compactHexEncode_spec k : bytes_ok k -> compactHexEncode (compactHexDecode k) = Ok k.
Proof.
  intros Hk. unfold compactHexEncode, compactHexDecode. fold (unpack k).
  rewrite last_snoc, length_app, length_unpack. change (16 =? 16) with true. cbn [length].
  replace (2 * length k + 1 - 1)%nat with (2 * length k)%nat by lia.
  replace ((2 * length k + 1) / 2)%nat with (length k)
    by (replace (2 * length k + 1)%nat with (1 + length k * 2)%nat by lia; by rewrite Nat.div_add).
  rewrite (hexEncode_loop_spec (unpack k) 0 _ [16]); [by rewrite pack_unpack|..].
  - by apply unpack_nibbles.
  - done.
  - apply length_unpack.
  - by rewrite length_unpack.
Qed.

Lemma hexEncode_loop_odd l a i nibbles n nl :
  Forall nibble l -> drop (i * 2) nibbles = l ++ [a] -> length l = (2 * n)%nat -> (i * 2 + length l < nl)%nat ->
  hexEncode_loop (S n) i nl nibbles = Panic.
Proof.
  revert i l. induction n as [|n IH]; intros i l Hl Hd Hn Hlen.
  - destruct l; [|cbn in Hn; lia]. cbn [hexEncode_loop].
    assert (X : forall j, nibbles !! (i * 2 + j)%nat = [a] !! j)
      by (intros j; rewrite <- lookup_drop; by rewrite Hd).
    unfold idx. rewrite <- (Nat.add_0_r (i * 2)) at 1. rewrite !X. cbn [lookup list_lookup obind].
    rewrite (proj2 (Nat.ltb_lt _ _)) by (cbn in *; lia). done.
  - destruct l as [|b [|c l]]; [cbn in Hn; lia..|].
    apply Forall_cons in Hl as [Hb Hl]. apply Forall_cons in Hl as [Hc Hl].
    cbn [length] in *. remember (S n) as m eqn:Em. cbn [hexEncode_loop].
    assert (X : forall j, nibbles !! (i * 2 + j)%nat = (b :: c :: l ++ [a]) !! j)
      by (intros j; rewrite <- lookup_drop; by rewrite Hd).
    unfold idx. rewrite <- (Nat.add_0_r (i * 2)) at 1. rewrite !X. cbn [lookup list_lookup obind].
    rewrite (proj2 (Nat.ltb_lt _ _)) by lia. cbn [obind].
    rewrite (IH (S i) l); [done|done| |lia|lia].
    replace (S i * 2)%nat with (i * 2 + 2)%nat by lia. rewrite <- drop_drop, Hd. done.
Qed.

(** The partial key of a missing-node error cannot be reported when it has
    an odd number of nibbles and no terminator: [compactHexEncode] then reads
    one past the end of its argument and panics.  Complete keys are packed
    back to the byte key they came from. *)
Theorem compactHexEncode_odd_panics l :
  Forall nibble l ->
  (Nat.Odd (length l) -> compactHexEncode l = Panic) /\
  (forall k, bytes_ok k -> compactHexDecode k = l ++ [16] -> compactHexEncode (l ++ [16]) = Ok k).
Proof.
  intros Hl. split; [|intros k Hk <-; by apply compactHexEncode_spec].
  intros [n Hn]. destruct (exists_last (l := l)) as (l' & a & ->); [by intros ->; cbn in Hn; lia|].
  apply Forall_app in Hl as [Hl Ha]. apply Forall_cons in Ha as [Ha _]. unfold nibble in Ha.
  rewrite length_app in Hn. cbn in Hn. unfold compactHexEncode. rewrite last_snoc. ztests.
  rewrite length_app. cbn [length].
  replace ((length l' + 1 + 1) / 2)%nat with (S n).
  - by apply (hexEncode_loop_odd l' a); [..|lia|lia].
  - replace (length l' + 1 + 1)%nat with ((S n) * 2)%nat by lia. by rewrite Nat.div_mul.
Qed.

Lemma compactHexEncode_odd_panics_witness :
  (Nat.Odd 1 -> compactHexEncode [5] = Panic) /\
  (forall k, bytes_ok k -> compactHexDecode k = [5; 16] -> compactHexEncode [5; 16] = Ok k).
Proof. apply (compactHexEncode_odd_panics [5]). repeat constructor; lia. Defined.

(** ** Common prefixes *)

Lemma prefixLen_spec a b :
  exists p ra rb, a = p ++ ra /\ b = p ++ rb /\ prefixLen a b = length p /\
    (ra = [] \/ rb = [] \/ exists x y ra' rb', ra = x :: ra' /\ rb = y :: rb' /\ x <> y).
Proof.
  revert b. induction a as [|x a IH]; intros b; [by exists [], [], b; eauto 10|].
  destruct b as [|y b]; [by exists [], (x :: a), []; eauto 10|]. cbn.
  destruct (Z.eqb_spec x y) as [<-|Hne].
  - destruct (IH b) as (p & ra & rb & -> & -> & -> & H). by exists (x :: p), ra, rb.
  - exists [], (x :: a), (y :: b). repeat split. right. right. by exists x, y, a, b.
Qed.
