(* ===== verification/TrieNode.v ===== *)
(** * Nodes of the trie (src/trie/node.go)

    The node types with their cache flags, their RLP form and the decoder of
    stored nodes.  Error contexts added by [wrapError] are display text and
    are not kept. *)

From S2P Require Import Prelude RlpEncode RlpRaw TrieEncoding.

(** ** Data *)

Record nodeFlag := { fhash : option bytes; fgen : Z; fdirty : bool }.

Inductive node :=
| NNil
| NFull (Children : list node) (flags : nodeFlag)
| NShort (Key : bytes) (Val : node) (flags : nodeFlag)
| NHash (h : bytes)
| NValue (v : bytes).

Section NodeInd.
Context (P : node -> Prop).
Hypothesis Hnil : P NNil.
Hypothesis Hfull : forall cs fl, Forall P cs -> P (NFull cs fl).
Hypothesis Hshort : forall k v fl, P v -> P (NShort k v fl).
Hypothesis Hhash : forall h, P (NHash h).
Hypothesis Hvalue : forall v, P (NValue v).

Fixpoint node_nested_ind (n : node) : P n :=
  match n with
  | NNil => Hnil
  | NFull cs fl =>
      Hfull cs fl ((fix go cs : Forall P cs :=
        match cs with
        | [] => Forall_nil_2 P
        | c :: cs => Forall_cons_2 P c cs (node_nested_ind c) (go cs)
        end) cs)
  | NShort k v fl => Hshort k v fl (node_nested_ind v)
  | NHash h => Hhash h
  | NValue v => Hvalue v
  end.
End NodeInd.

Definition is_nil (n : node) : bool := match n with NNil => true | _ => false end.

(** [canUnload] and [cache] of the four node types. *)
Definition flag_canUnload (fl : nodeFlag) (cachegen cachelimit : Z) : bool :=
  negb (fdirty fl) && (cachelimit <=? u16 (cachegen - fgen fl)).

Definition canUnload (n : node) (cachegen cachelimit : Z) : bool :=
  match n with
  | NFull _ fl | NShort _ _ fl => flag_canUnload fl cachegen cachelimit
  | _ => false
  end.

Definition cache (n : node) : option bytes * bool :=
  match n with
  | NFull _ fl | NShort _ _ fl => (fhash fl, fdirty fl)
  | _ => (None, true)
  end.

(** ** RLP form *)

(** A node as package rlp sees it through the [node] interface: [shortNode] is
    a struct whose flags are not exported, [fullNode.EncodeRLP] encodes its
    children. *)
Fixpoint node_rval (n : node) : rval :=
  match n with
  | NNil => VNil
  | NFull cs _ => VIface (TPtr false (TArray 17 TInterface)) (VPtr (VList (map node_rval cs)))
  | NShort k v _ => VIface (TPtr false (TStruct [TBytes; TInterface])) (VPtr (VList [VBytes k; node_rval v]))
  | NHash b | NValue b => VIface TBytes (VBytes b)
  end.

(** [rlp.Encode] of a non-nil node. *)
Definition encode_node (n : node) : outcome encode_error bytes := EncodeToBytes TInterface (node_rval n).

(** ** Decoding *)

Inductive node_error :=
| NErrUnexpectedEOF
| NErrDecode (e : rlp_error)
| NErrValue (e : rlp_error)
| NErrCount (c : Z)
| NErrOversized (size : Z)
| NErrStringSize (size : Z).

Definition lift_rlp {A} (f : rlp_error -> node_error) (m : outcome rlp_error A) : outcome node_error A :=
  match m with Ok a => Ok a | Err e => Err (f e) | Panic => Panic end.

Definition never {E A} (m : outcome Empty_set A) : outcome E A :=
  match m with Ok a => Ok a | Err e => match e with end | Panic => Panic end.

Definition hashLen : Z := 32.

Section Decode.
(** [decodeNode] with one level of nesting less. *)
Context (rec : option bytes -> bytes -> Z -> outcome node_error node).

Definition decodeRef_ (buf : bytes) (cachegen : Z) : outcome node_error (node * bytes) :=
  let* (kind, val, rest) := lift_rlp NErrDecode (Split buf) in
  match kind with
  | List =>
      let size := len buf - len rest in
      if hashLen <? size then Err (NErrOversized size)
      else let* n := rec None buf cachegen in Ok (n, rest)
  | String =>
      if len val =? 0 then Ok (NNil, rest)
      else if len val =? 32 then Ok (NHash val, rest)
      else Err (NErrStringSize (len val))
  | Byte => Err (NErrStringSize (len val))
  end.

Definition decodeShort_ (hash : option bytes) (elems : bytes) (cachegen : Z) : outcome node_error node :=
  let* (kbuf, rest) := lift_rlp NErrDecode (SplitString elems) in
  let flag := {| fhash := hash; fgen := cachegen; fdirty := false |} in
  let* key := never (compactDecode kbuf) in
  match last key with
  | None => Panic
  | Some t =>
      if t =? 16 then
        let* (val, _) := lift_rlp NErrValue (SplitString rest) in
        Ok (NShort key (NValue val) flag)
      else
        let* (r, _) := decodeRef_ rest cachegen in
        Ok (NShort key r flag)
  end.

(** The loop over the first sixteen children. *)
Fixpoint decodeChildren_ (n : nat) (elems : bytes) (cachegen : Z) : outcome node_error (list node * bytes) :=
  match n with
  | O => Ok ([], elems)
  | S n =>
      let* (cld, rest) := decodeRef_ elems cachegen in
      let* (clds, rest) := decodeChildren_ n rest cachegen in
      Ok (cld :: clds, rest)
  end.

Definition decodeFull_ (hash : option bytes) (elems : bytes) (cachegen : Z) : outcome node_error node :=
  let* (clds, elems) := decodeChildren_ 16 elems cachegen in
  let* (val, _) := lift_rlp NErrDecode (SplitString elems) in
  let last_ := if 0 <? len val then NValue val else NNil in
  Ok (NFull (clds ++ [last_]) {| fhash := hash; fgen := cachegen; fdirty := false |}).
End Decode.

(** Embedded nodes are inside their parent's list, so the length of the input
    bounds the nesting ([decodeNode_fuel]). *)
Fixpoint decodeNode_ (fuel : nat) (hash : option bytes) (buf : bytes) (cachegen : Z) : outcome node_error node :=
  match fuel with
  | O => Panic
  | S fuel =>
      if len buf =? 0 then Err NErrUnexpectedEOF
      else
        let* (elems, _) := lift_rlp NErrDecode (SplitList buf) in
        match CountValues elems with
        | Panic => Panic
        | Err _ => Err (NErrCount 0)
        | Ok c =>
            if c =? 2 then decodeShort_ (decodeNode_ fuel) hash elems cachegen
            else if c =? 17 then decodeFull_ (decodeNode_ fuel) hash elems cachegen
            else Err (NErrCount c)
        end
  end.

Definition decodeNode (hash : option bytes) (buf : bytes) (cachegen : Z) : outcome node_error node :=
  decodeNode_ (S (length buf)) hash buf cachegen.
Definition decodeRef (buf : bytes) (cachegen : Z) : outcome node_error (node * bytes) :=
  decodeRef_ (decodeNode_ (S (length buf))) buf cachegen.

Definition mustDecodeNode {E} (hash buf : bytes) (cachegen : Z) : outcome E node :=
  match decodeNode (Some hash) buf cachegen with
  | Ok n => Ok n
  | _ => Panic
  end.

(** ** The encoder *)

Fixpoint enc_node (n : node) : bytes :=
  match n with
  | NNil => enc_list []
  | NFull cs _ => enc_list (concat (map enc_node cs))
  | NShort k v _ => enc_list (enc_string k ++ enc_node v)
  | NHash b | NValue b => enc_string b
  end.

Fixpoint node_wt (n : node) : Prop :=
  match n with
  | NNil => True
  | NFull cs _ => length cs = 17%nat /\ foldr (fun c P => node_wt c /\ P) True cs
  | NShort k v _ => bytes_ok k /\ node_wt v
  | NHash b | NValue b => bytes_ok b
  end.

Lemma node_rval_enc n : enc (node_rval n) TInterface = enc_node n.
Proof.
  induction n as [|cs fl IH|k v fl IH|h|v] using node_nested_ind; cbn; try done.
  - do 2 f_equal. induction IH as [|c cs Hc _ IH]; [done|]. cbn. by rewrite Hc, IH.
  - by rewrite IH, app_nil_r.
Qed.

Lemma node_rval_wt n : node_wt n -> wt (node_rval n) TInterface.
Proof.
  induction n as [|cs fl IH|k v fl IH|h|v] using node_nested_ind; cbn; try done.
  - rewrite length_map. intros [-> H]. split; [done|]. split; [done|].
    induction IH as [|c cs Hc _ IH]; [done|]. destruct H as [H1 H2]. split; auto.
  - intros [? ?]. auto.
Qed.

Lemma encode_node_enc n : node_wt n -> len (enc_node n) < 2 ^ 64 -> encode_node n = Ok (enc_node n).
Proof.
  intros W L. unfold encode_node. rewrite <- node_rval_enc in *.
  apply EncodeToBytes_enc; [by apply node_rval_wt|done].
Qed.

(** ** Fuel of the decoder *)

Lemma readKind_tagsize b k ts cs : readKind b = Ok (k, ts, cs) -> k <> Byte -> 1 <= ts.
Proof.
  assert (F : forall k' ts' cs' n, (if n <? cs' then Err ErrValueTooLarge else Ok (k', ts', cs')) =
                @Ok rlp_error _ (k, ts, cs) -> k' = k /\ ts' = ts).
  { intros k' ts' cs' n. case_match; [discriminate|]. intros H1. by injection H1 as <- <- <-. }
  unfold readKind. intros H Hk. destruct b as [|x b]; [discriminate|]. cbn [length] in H.
  destruct (Z.ltb_spec x 0x80); [by apply F in H as [<- _]|].
  destruct (Z.ltb_spec x 0xB8).
  - destruct (x - 0x80 =? 1); [|apply F in H as [_ <-]; lia].
    destruct (idx _ _); cbn [obind] in H; try discriminate.
    destruct (_ <? 128); [discriminate|]. apply F in H as [_ <-]. lia.
  - destruct (Z.ltb_spec x 0xC0).
    + destruct (readSize _ _); try discriminate. cbn [obind] in H. apply F in H as [_ <-]. lia.
    + destruct (Z.ltb_spec x 0xF8); [apply F in H as [_ <-]; lia|].
      destruct (readSize _ _); try discriminate. cbn [obind] in H. apply F in H as [_ <-]. lia.
Qed.

Lemma Split_lengths b k c r :
  Split b = Ok (k, c, r) ->
  (length r <= length b)%nat /\ (k = List -> length c < length b)%nat.
Proof.
  unfold Split. destruct (readKind b) as [[[k' ts] cs]| |] eqn:E; try discriminate.
  cbn. intros H. injection H as <- <- <-. rewrite length_take, !length_drop.
  split; [lia|]. intros ->. pose proof (readKind_tagsize _ _ _ _ E).
  destruct b; [discriminate|]. cbn. specialize (H ltac:(done)). lia.
Qed.

Section Fuel.
Context (rec1 rec2 : option bytes -> bytes -> Z -> outcome node_error node) (N : nat).
Hypothesis rec_eq : forall h b g, (length b < N)%nat -> rec1 h b g = rec2 h b g.

Lemma decodeRef_ext buf g : (length buf < N)%nat -> decodeRef_ rec1 buf g = decodeRef_ rec2 buf g.
Proof.
  intros L. unfold decodeRef_. destruct (Split buf) as [[[k c] r]| |]; cbn; try done.
  destruct k; try done. by rewrite rec_eq.
Qed.

Lemma decodeRef_rest rec buf g n r : decodeRef_ rec buf g = Ok (n, r) -> (length r <= length buf)%nat.
Proof.
  unfold decodeRef_. destruct (Split buf) as [[[k c] r']| |] eqn:E; cbn; try discriminate.
  apply Split_lengths in E as [L _]. destruct k; try discriminate.
  - repeat case_match; try discriminate; intros H'; by injection H' as _ <-.
  - case_match; [discriminate|]. destruct (rec None buf g); cbn; try discriminate.
    intros H'. by injection H' as _ <-.
Qed.

Lemma decodeChildren_ext n buf g :
  (length buf < N)%nat -> decodeChildren_ rec1 n buf g = decodeChildren_ rec2 n buf g.
Proof.
  revert buf. induction n as [|n IH]; intros buf L; [done|]. cbn. rewrite <- decodeRef_ext by done.
  destruct (decodeRef_ rec1 buf g) as [[c r]| |] eqn:E; cbn; try done.
  apply decodeRef_rest in E. by rewrite IH by lia.
Qed.

Lemma decodeShort_ext h elems g :
  (length elems < N)%nat -> decodeShort_ rec1 h elems g = decodeShort_ rec2 h elems g.
Proof.
  intros L. unfold decodeShort_, SplitString.
  destruct (Split elems) as [[[k c] r]| |] eqn:E; cbn; try done. apply Split_lengths in E as [Lr _].
  destruct k; cbn; try done;
    (destruct (compactDecode c) as [key|[]|]; cbn; [|done]; destruct (last key); [|done];
     case_match; [done|]; by rewrite decodeRef_ext by lia).
Qed.

Lemma decodeFull_ext h elems g :
  (length elems < N)%nat -> decodeFull_ rec1 h elems g = decodeFull_ rec2 h elems g.
Proof. intros L. unfold decodeFull_. by rewrite decodeChildren_ext. Qed.
End Fuel.

Lemma decodeNode_fuel fuel1 fuel2 h b g :
  (length b < fuel1)%nat -> (length b < fuel2)%nat -> decodeNode_ fuel1 h b g = decodeNode_ fuel2 h b g.
Proof.
  revert fuel2 h b g. induction fuel1 as [|fuel1 IH]; intros fuel2 h b g L1 L2; [lia|].
  destruct fuel2 as [|fuel2]; [lia|]. cbn [decodeNode_].
  destruct (len b =? 0); [done|]. unfold SplitList.
  destruct (Split b) as [[[k c] r]| |] eqn:E; cbn [obind lift_rlp]; [|reflexivity..].
  destruct k; cbn [obind lift_rlp]; [reflexivity..|].
  apply Split_lengths in E as [_ Lc]. specialize (Lc eq_refl).
  destruct (CountValues c) as [n| |]; [|reflexivity..].
  assert (R : forall h' b' g', (length b' < length b)%nat -> decodeNode_ fuel1 h' b' g' = decodeNode_ fuel2 h' b' g')
    by (intros; apply IH; lia).
  destruct (n =? 2); [by apply (decodeShort_ext _ _ _ R)|].
  destruct (n =? 17); [by apply (decodeFull_ext _ _ _ R)|reflexivity].
Qed.
