(* ===== verification/TrieTree.v ===== *)
(** * Abstract tries

    The tree a trie stands for, whatever part of it is loaded: no cache flags
    and no hash references.  [tget] is the map the tree represents and [canon]
    the shape the trie keeps: leaves carry complete keys and non-empty values,
    extensions lead to branches, branches have at least two children.  A
    canonical tree is determined by its map ([canon_unique]), which is what
    makes the root hash of a trie a function of its content. *)

From S2P Require Import Prelude RlpEncode TrieEncoding.

Inductive tree :=
| TNil
| TVal (v : bytes)
| TShort (k : bytes) (t : tree)
| TFull (ts : list tree).

#[global] Instance tree_inhabited : Inhabited tree := populate TNil.

(** ** Keys and prefixes *)

Fixpoint strip (p k : bytes) : option bytes :=
  match p, k with
  | [], _ => Some k
  | x :: p, y :: k => if x =? y then strip p k else None
  | _ :: _, [] => None
  end.

Lemma strip_Some p k k' : strip p k = Some k' <-> k = p ++ k'.
Proof.
  revert k. induction p as [|x p IH]; intros k; cbn; [split; congruence|].
  destruct k as [|y k]; [done|]. destruct (Z.eqb_spec x y) as [->|Hne].
  - rewrite IH. split; [by intros ->|congruence].
  - split; [done|congruence].
Qed.

Lemma strip_app p k : strip p (p ++ k) = Some k.
Proof. by apply strip_Some. Qed.

Lemma strip_None p k : strip p k = None <-> forall k', k <> p ++ k'.
Proof.
  destruct (strip p k) as [k1|] eqn:E; split; try done.
  - apply strip_Some in E. intros H. by destruct (H k1).
  - intros _ k' ->. by rewrite strip_app in E.
Qed.

Lemma hexkey_cons_inv x k : hexkey (x :: k) -> (x = 16 /\ k = []) \/ (nibble x /\ hexkey k).
Proof.
  intros (l & E & Hl). destruct l as [|y l]; cbn in E; injection E as -> ->; [by left|right].
  apply Forall_cons in Hl as [Hy Hl]. split; [done|by exists l].
Qed.

Lemma hexkey_nil : ~ hexkey [].
Proof. by intros ([|x l] & E & _). Qed.

Lemma hexkey_cons x k : nibble x -> hexkey k -> hexkey (x :: k).
Proof. intros Hx (l & -> & Hl). exists (x :: l). split; [done|by constructor]. Qed.

Lemma hexkey_single : hexkey [16].
Proof. by exists []. Qed.

Lemma hexkey_app p k : Forall nibble p -> hexkey k -> hexkey (p ++ k).
Proof. induction 1; cbn; [done|]. intros. apply hexkey_cons; auto. Qed.

Lemma hexkey_app_inv p k : k <> [] -> hexkey (p ++ k) -> Forall nibble p /\ hexkey k.
Proof.
  intros Hk. induction p as [|x p IH]; cbn; [done|].
  intros [[-> E]|[Hx H]]%hexkey_cons_inv; [by destruct p, k|].
  destruct (IH H). split; [by constructor|done].
Qed.

Lemma hexkey_prefix_free k k' : hexkey k -> hexkey (k ++ k') -> k' = [].
Proof.
  intros (l & -> & Hl) H. rewrite <- app_assoc in H.
  apply hexkey_app_inv in H as [_ H]; [|done].
  by apply hexkey_cons_inv in H as [[_ ?]|[? _]]; [|unfold nibble in *; lia].
Qed.

Lemma hexkey_not_nibbles k : hexkey k -> ~ Forall nibble k.
Proof.
  intros (l & -> & _) H. apply Forall_app in H as [_ H]. apply Forall_cons in H as [H _].
  unfold nibble in H. lia.
Qed.

#[export] Hint Resolve hexkey_cons hexkey_single hexkey_app : siot.

(** ** The map of a tree *)

Fixpoint tget (t : tree) (k : bytes) : option bytes :=
  match t with
  | TNil => None
  | TVal v => match k with [] => Some v | _ => None end
  | TShort p t => match strip p k with Some k => tget t k | None => None end
  | TFull ts =>
      match k with
      | [] => None
      | x :: k => match map (fun t => tget t k) ts !! Z.to_nat x with Some r => r | None => None end
      end
  end.

Lemma tget_full ts x k :
  tget (TFull ts) (x :: k) = match ts !! Z.to_nat x with Some t => tget t k | None => None end.
Proof.
  cbn. rewrite list_lookup_fmap. by destruct (ts !! Z.to_nat x).
Qed.

(** ** Canonical trees *)

(** Bounds on sizes keep every encoding far below 2^64 bytes. *)
Definition value_ok (v : bytes) : Prop := v <> [] /\ bytes_ok v /\ len v < 2 ^ 32.
Definition key_ok (k : bytes) : Prop := len k < 2 ^ 32.
Definition keys_ok (t : tree) : Prop := forall k v, hexkey k -> tget t k = Some v -> key_ok k.

Inductive canon : tree -> Prop :=
| canon_leaf k v : hexkey k -> value_ok v -> canon (TShort k (TVal v))
| canon_ext k ts :
    k <> [] -> Forall nibble k -> canon (TFull ts) -> canon (TShort k (TFull ts))
| canon_full ts :
    length ts = 17%nat ->
    (forall i t, (i < 16)%nat -> ts !! i = Some t -> t <> TNil -> canon t) ->
    (forall t, ts !! 16%nat = Some t -> t <> TNil -> exists v, t = TVal v /\ value_ok v) ->
    (exists i j ti tj, i <> j /\ ts !! i = Some ti /\ ts !! j = Some tj /\ ti <> TNil /\ tj <> TNil) ->
    canon (TFull ts).

Definition canon_root (t : tree) : Prop := t = TNil \/ canon t.

Lemma canon_not_nil t : canon t -> t <> TNil.
Proof. by destruct 1. Qed.

Lemma tree_nil_dec (t : tree) : t = TNil \/ t <> TNil.
Proof. destruct t; auto. Qed.

Lemma canon_child ts i t : canon (TFull ts) -> (i < 16)%nat -> ts !! i = Some t -> canon_root t.
Proof.
  intros C Hi E. inversion C; subst. destruct (tree_nil_dec t); [by left|right; eauto].
Qed.

(** A key of index [i] in a branch. *)
Definition idx_key (i : nat) (k : bytes) : Prop :=
  (i < 16)%nat /\ hexkey k \/ i = 16%nat /\ k = [].

Lemma idx_key_hexkey i k : idx_key i k -> hexkey (Z.of_nat i :: k).
Proof. intros [[Hi Hk]|[-> ->]]; [|apply hexkey_single]. apply hexkey_cons; [unfold nibble; lia|done]. Qed.

Lemma hexkey_idx_key x k : hexkey (x :: k) -> idx_key (Z.to_nat x) k /\ 0 <= x <= 16.
Proof.
  intros [[-> ->]|[Hx Hk]]%hexkey_cons_inv; unfold idx_key, nibble in *.
  - split; [right; by split|lia].
  - split; [left; split; [lia|done]|lia].
Qed.

Lemma canon_inhabited t : canon t -> exists k v, hexkey k /\ tget t k = Some v.
Proof.
  induction 1 as [k v Hk Hv|k ts Hne Hn _ (k' & v & Hk' & E)|ts L _ IH H16 (i & j & ti & tj & _ & Ei & _ & Hi & _)].
  - exists k, v. split; [done|]. cbn. rewrite <- (app_nil_r k) at 2. by rewrite strip_app.
  - exists (k ++ k'), v. split; [by apply hexkey_app|]. cbn [tget]. by rewrite strip_app.
  - assert (K : exists k v, idx_key i k /\ tget ti k = Some v).
    { pose proof (lookup_lt_Some _ _ _ Ei). destruct (decide (i = 16%nat)) as [->|].
      - destruct (H16 ti Ei Hi) as (v & -> & _). exists [], v. split; [by right|done].
      - destruct (IH i ti ltac:(lia) Ei Hi) as (k & v & Hk & E). exists k, v. split; [left|done].
        split; [lia|done]. }
    destruct K as (k & v & Hk & E). exists (Z.of_nat i :: k), v.
    split; [by apply idx_key_hexkey|]. by rewrite tget_full, Nat2Z.id, Ei.
Qed.

Lemma child_inhabited ts i t :
  canon (TFull ts) -> ts !! i = Some t -> t <> TNil ->
  exists k v, idx_key i k /\ tget (TFull ts) (Z.of_nat i :: k) = Some v.
Proof.
  intros C E Ht. inversion C as [| |ts' L Hc H16 _]; subst. pose proof (lookup_lt_Some _ _ _ E).
  assert (K : exists k v, idx_key i k /\ tget t k = Some v).
  { destruct (decide (i = 16%nat)) as [->|].
    - destruct (H16 t E Ht) as (v & -> & _). exists [], v. by split; [right|].
    - destruct (canon_inhabited t) as (k & v & Hk & Ek); [eapply (Hc i); eauto; lia|].
      exists k, v. split; [left; split; [lia|done]|done]. }
  destruct K as (k & v & Hk & Ek). exists k, v. by rewrite tget_full, Nat2Z.id, E.
Qed.

Lemma full_two_keys ts :
  canon (TFull ts) ->
  exists x y k1 k2 v1 v2, x <> y /\ hexkey (x :: k1) /\ hexkey (y :: k2) /\
    tget (TFull ts) (x :: k1) = Some v1 /\ tget (TFull ts) (y :: k2) = Some v2.
Proof.
  intros C. inversion C as [| |ts' L Hc H16 (i & j & ti & tj & Hij & Ei & Ej & Hi & Hj)]; subst.
  destruct (child_inhabited ts i ti C Ei Hi) as (k1 & v1 & K1 & E1).
  destruct (child_inhabited ts j tj C Ej Hj) as (k2 & v2 & K2 & E2).
  exists (Z.of_nat i), (Z.of_nat j), k1, k2, v1, v2.
  repeat split; try done; [lia|by apply idx_key_hexkey..].
Qed.

(** ** A canonical tree is determined by its map *)

Definition same_map (t1 t2 : tree) : Prop := forall k, hexkey k -> tget t1 k = tget t2 k.

Lemma short_key p t k v : tget (TShort p t) k = Some v -> exists k', k = p ++ k' /\ tget t k' = Some v.
Proof.
  cbn. destruct (strip p k) as [k'|] eqn:E; [|done]. apply strip_Some in E as ->. eauto.
Qed.

Lemma leaf_not_two ts p k v :
  canon (TFull ts) -> Forall nibble p -> hexkey k ->
  (forall k', hexkey k' -> tget (TShort k (TVal v)) (p ++ k') = tget (TFull ts) k') -> False.
Proof.
  intros C Hp Hk H. destruct (full_two_keys ts C) as (x & y & k1 & k2 & v1 & v2 & Hxy & K1 & K2 & E1 & E2).
  assert (G : forall z r w, hexkey (z :: r) -> tget (TFull ts) (z :: r) = Some w -> p ++ z :: r = k).
  { intros z r w Hz Ez. rewrite <- H in Ez by done. apply short_key in Ez as (k' & Ek & Ev).
    destruct k'; [|done]. by rewrite app_nil_r in Ek. }
  pose proof (G _ _ _ K1 E1) as G1. rewrite <- (G _ _ _ K2 E2) in G1.
  apply app_inv_head in G1. congruence.
Qed.

Lemma ext_not_full k ts ts' :
  k <> [] -> canon (TFull ts') -> same_map (TShort k (TFull ts)) (TFull ts') -> False.
Proof.
  intros Hk C H. destruct (full_two_keys ts' C) as (x & y & k1 & k2 & v1 & v2 & Hxy & K1 & K2 & E1 & E2).
  rewrite <- H in E1, E2 by done. apply short_key in E1 as (r1 & E1 & _), E2 as (r2 & E2 & _).
  destruct k as [|z k]; [done|]. cbn in E1, E2. congruence.
Qed.

Lemma ext_prefix k k' ts ts' :
  Forall nibble k -> canon (TFull ts) -> same_map (TShort k (TFull ts)) (TShort k' (TFull ts')) ->
  exists r, k = k' ++ r.
Proof.
  intros Hk C H. destruct (full_two_keys ts C) as (x & y & k1 & k2 & v1 & v2 & Hxy & K1 & K2 & E1 & E2).
  assert (G : forall z r w, hexkey (z :: r) -> tget (TFull ts) (z :: r) = Some w -> exists r', k ++ z :: r = k' ++ r').
  { intros z r w Hz Ez. assert (E : tget (TShort k (TFull ts)) (k ++ z :: r) = Some w)
      by (cbn [tget]; by rewrite strip_app).
    rewrite H in E by by apply hexkey_app. apply short_key in E as (r' & E & _). eauto. }
  destruct (G _ _ _ K1 E1) as [r1 G1], (G _ _ _ K2 E2) as [r2 G2].
  apply app_eq_inv in G1 as [(l & -> & _)|(l & -> & G1)]; [eauto|].
  rewrite <- app_assoc in G2. apply app_inv_head in G2. destruct l as [|z l]; [exists []; by rewrite !app_nil_r|].
  cbn in G1, G2. congruence.
Qed.

Lemma same_map_sym t1 t2 : same_map t1 t2 -> same_map t2 t1.
Proof. intros H k Hk. by rewrite H. Qed.

Lemma tget_leaf k v k' : tget (TShort k (TVal v)) k' = if decide (k' = k) then Some v else None.
Proof.
  cbn. destruct (strip k k') as [r|] eqn:E.
  - apply strip_Some in E as ->. destruct r as [|x r].
    + rewrite app_nil_r. by rewrite decide_True.
    + rewrite decide_False; [done|]. intros E. rewrite <- (app_nil_r k) in E at 2. by apply app_inv_head in E.
  - case_decide as Ek; [|done]. subst. rewrite <- (app_nil_r k) in E at 2. by rewrite strip_app in E.
Qed.

Lemma leaf_unique k v t : hexkey k -> canon t -> same_map (TShort k (TVal v)) t -> TShort k (TVal v) = t.
Proof.
  intros Hk C H. inversion C as [k' v' Hk'|k' ts' ? Hn C'|ts' ? ? ? ?]; subst.
  - pose proof (H k Hk) as E. rewrite !tget_leaf, decide_True in E by done. case_decide; congruence.
  - destruct (leaf_not_two ts' k' k v); [done..|]. intros r Hr. rewrite H by by apply hexkey_app.
    cbn [tget]. by rewrite strip_app.
  - destruct (leaf_not_two ts' [] k v); [done..|]. intros r Hr. by rewrite H.
Qed.

Lemma same_map_child ts ts' i t t' :
  length ts = 17%nat -> canon (TFull ts) -> canon (TFull ts') -> same_map (TFull ts) (TFull ts') ->
  ts !! i = Some t -> ts' !! i = Some t' ->
  (t = TNil <-> t' = TNil) /\ ((i < 16)%nat -> same_map t t') /\ (i = 16%nat -> tget t [] = tget t' []).
Proof.
  intros L C C' H Et Et'.
  assert (G : forall k, idx_key i k -> tget t k = tget t' k).
  { intros k Hk. pose proof (H _ (idx_key_hexkey i k Hk)) as E.
    by rewrite !tget_full, Nat2Z.id, Et, Et' in E. }
  split; [|split; [intros Hi k Hk; apply G; by left|intros ->; apply G; by right]].
  assert (K : forall us u, canon (TFull us) -> us !! i = Some u -> u <> TNil -> exists k v, idx_key i k /\ tget u k = Some v).
  { intros us u Cu Eu Hu. destruct (child_inhabited us i u Cu Eu Hu) as (k & v & Hk & E).
    rewrite tget_full, Nat2Z.id, Eu in E. eauto. }
  split; intros ->.
  - destruct (tree_nil_dec t') as [|Hn]; [done|]. destruct (K ts' t' C' Et' Hn) as (k & v & Hk & E).
    by rewrite <- G in E.
  - destruct (tree_nil_dec t) as [|Hn]; [done|]. destruct (K ts t C Et Hn) as (k & v & Hk & E).
    by rewrite G in E.
Qed.

Lemma canon_unique t1 : canon t1 -> forall t2, canon t2 -> same_map t1 t2 -> t1 = t2.
Proof.
  induction 1 as [k v Hk _|k ts Hne Hn C IH|ts L HC IH H16 Htwo]; intros t2 C2 H.
  - by apply leaf_unique.
  - inversion C2 as [k' v' Hk'|k' ts' Hne' Hn' C'|ts' ? ? ? ?]; subst.
    + symmetry. apply leaf_unique; [done|by apply canon_ext|by apply same_map_sym].
    + destruct (ext_prefix k k' ts ts' Hn C H) as [r ->].
      destruct (ext_prefix k' (k' ++ r) ts' ts Hn' C' (same_map_sym _ _ H)) as [r' E].
      rewrite <- app_assoc in E. rewrite <- (app_nil_r k') in E at 1. apply app_inv_head in E.
      symmetry in E. apply app_eq_nil in E as [-> ->]. rewrite app_nil_r in *.
      f_equal. apply IH; [done|]. intros q Hq. specialize (H (k' ++ q) (hexkey_app _ _ Hn' Hq)).
      cbn [tget] in H. by rewrite !strip_app in H.
    + by destruct (ext_not_full k ts ts').
  - assert (C : canon (TFull ts)) by by constructor.
    inversion C2 as [k' v' Hk'|k' ts' Hne' Hn' C'|ts' L' HC' H16' ?]; subst.
    + symmetry. apply leaf_unique; [done..|by apply same_map_sym].
    + destruct (ext_not_full k' ts' ts); [done..|by apply same_map_sym].
    + f_equal. apply (list_eq_same_length _ _ 17); [done..|]. intros i t t' Hi Et Et'.
      destruct (same_map_child ts ts' i t t' L C C2 H Et Et') as (Hnil & Hmap & Hval).
      destruct (tree_nil_dec t) as [->|Ht]; [symmetry; by apply Hnil|].
      assert (Ht' : t' <> TNil) by (intros ->; by destruct Ht; apply Hnil).
      destruct (decide (i = 16%nat)) as [->|].
      * destruct (H16 t Et Ht) as (v & -> & _), (H16' t' Et' Ht') as (v' & -> & _).
        specialize (Hval eq_refl). cbn in Hval. congruence.
      * apply (IH i); [lia|done..| |apply Hmap; lia]. apply (HC' i); [lia|done..].
Qed.

Lemma canon_root_unique t1 t2 : canon_root t1 -> canon_root t2 -> same_map t1 t2 -> t1 = t2.
Proof.
  assert (E : forall t, canon t -> same_map TNil t -> False).
  { intros t C H. destruct (canon_inhabited t C) as (k & v & Hk & E). by rewrite <- H in E. }
  intros [->|C1] [->|C2] H; [done|..].
  - by destruct (E t2).
  - by destruct (E t1 C1 (same_map_sym _ _ H)).
  - by apply canon_unique.
Qed.

(** The keys below a node are shorter. *)
Lemma keys_ok_val v : keys_ok (TVal v).
Proof. intros [|x k] w Hk E; [by apply hexkey_nil in Hk|done]. Qed.

Lemma keys_ok_short k t : canon (TShort k t) -> keys_ok (TShort k t) -> keys_ok t.
Proof.
  intros C K. inversion C as [k' v Hk Hv|k' ts Hne Hn Ck|]; subst; [apply keys_ok_val|].
  intros k' v Hk' E. assert (X : tget (TShort k (TFull ts)) (k ++ k') = Some v)
    by (cbn [tget] in *; by rewrite strip_app).
  apply K in X; [|by apply hexkey_app]. unfold key_ok in *. rewrite length_app in X. lia.
Qed.

Lemma keys_ok_short_key k t : canon (TShort k t) -> keys_ok (TShort k t) -> key_ok k.
Proof.
  intros C K. destruct (canon_inhabited _ C) as (k' & v & Hk' & E). pose proof (K _ _ Hk' E) as L.
  apply short_key in E as (r & -> & _). unfold key_ok in *. rewrite length_app in L. lia.
Qed.

Lemma keys_ok_child ts i t : canon (TFull ts) -> keys_ok (TFull ts) -> ts !! i = Some t -> keys_ok t.
Proof.
  intros C K E k v Hk Ek. inversion C as [| |ts' L HC H16 _]; subst. pose proof (lookup_lt_Some _ _ _ E).
  destruct (decide (i = 16%nat)) as [->|].
  - destruct (tree_nil_dec t) as [->|Ht]; [done|]. destruct (H16 t E Ht) as (w & -> & _).
    by apply (keys_ok_val w k v).
  - assert (X : tget (TFull ts) (Z.of_nat i :: k) = Some v) by (by rewrite tget_full, Nat2Z.id, E).
    apply K in X; [|apply idx_key_hexkey; left; split; [lia|done]].
    unfold key_ok in *. cbn [length] in X. lia.
Qed.
