(* ===== verification/TrieStore.v ===== *)
(** * Stored form of tries

    The encoding of an abstract tree as the hasher writes it: a node is the
    list of its compact key and child references, a reference is the node
    itself when its encoding is shorter than 32 bytes and otherwise its hash.
    [decodeNode_tenc] shows that src/trie/node.go reads back what it denotes,
    children that are hashes staying unresolved ([tload]); [stored] says that
    a database holds everything a tree refers to. *)

From S2P Require Import Prelude RlpEncode RlpRaw TrieEncoding TrieNode TrieTree Database.

Section Store.
Context `{Hash256}.

Definition compact (k : bytes) : bytes := match compactEncode k with Ok b => b | _ => [] end.

(** A node (not an empty or value leaf of the tree). *)
Definition is_node (t : tree) : bool := match t with TShort _ _ | TFull _ => true | _ => false end.

(** The reference to a child from its encoding. *)
Definition ref_of (t : tree) (e : bytes) : bytes :=
  if is_node t then if len e <? 32 then e else enc_string (Keccak256 e) else e.

Fixpoint tenc (t : tree) : bytes :=
  match t with
  | TNil => enc_string []
  | TVal v => enc_string v
  | TShort k t => enc_list (enc_string (compact k) ++ ref_of t (tenc t))
  | TFull ts => enc_list (concat (map (fun t => ref_of t (tenc t)) ts))
  end.

Definition tref (t : tree) : bytes := ref_of t (tenc t).

(** The node [decodeNode] makes of it. *)
Definition clean (h : option bytes) (gen : Z) : nodeFlag := {| fhash := h; fgen := gen; fdirty := false |}.

Definition load_of (t : tree) (n : node) : node :=
  if is_node t then if len (tenc t) <? 32 then n else NHash (Keccak256 (tenc t)) else n.

Fixpoint tload (h : option bytes) (gen : Z) (t : tree) : node :=
  match t with
  | TNil => NNil
  | TVal v => NValue v
  | TShort k t => NShort k (load_of t (tload None gen t)) (clean h gen)
  | TFull ts => NFull (map (fun t => load_of t (tload None gen t)) ts) (clean h gen)
  end.

Definition loadref (gen : Z) (t : tree) : node := load_of t (tload None gen t).

(** ** Sizes *)

Lemma compact_spec k :
  triekey k -> key_ok k ->
  compactEncode k = Ok (compact k) /\ compactDecode (compact k) = Ok k /\
  bytes_ok (compact k) /\ len (compact k) <= 2 ^ 32.
Proof.
  intros Hk L. unfold compact, key_ok in *. destruct (compact_triekey k Hk) as (b & E & D & Hb & Hl).
  rewrite E. repeat split; [done..|lia].
Qed.

(** What the encoding of a canonical tree and the references to it satisfy. *)
Definition enc_good (t : tree) : Prop :=
  bytes_ok (tenc t) /\ len (tenc t) < 2 ^ 40 /\
  exists c, tenc t = enc_list c /\ kind_ok List c.

Definition ref_good (t : tree) : Prop :=
  bytes_ok (tref t) /\ len (tref t) <= 2 ^ 32 + 9 /\
  exists k c, tref t = enc_kind k c /\ kind_ok k c.

Lemma string_ref_good e b :
  bytes_ok b -> len b < 2 ^ 32 -> e = enc_string b ->
  bytes_ok e /\ len e <= 2 ^ 32 + 9 /\ exists k c, e = enc_kind k c /\ kind_ok k c.
Proof.
  intros Hb Hl ->. split; [by apply enc_string_ok; [|lia]|].
  split; [pose proof (enc_string_len b); lia|].
  destruct (kind_of_string b) as (k & Hk & E & _). exists k, b. by rewrite E.
Qed.

Lemma Keccak256_len b : len (Keccak256 b) = 32.
Proof. by rewrite Keccak256_length. Qed.

Lemma enc_good_ref t : is_node t = true -> enc_good t -> ref_good t /\ len (tref t) <= 33.
Proof.
  intros N (Hb & Hl & c & E & Hc). unfold ref_good, tref, ref_of. rewrite N.
  destruct (Z.ltb_spec (len (tenc t)) 32).
  - repeat split; [done|lia| |lia]. by exists List, c.
  - pose proof (enc_string_len_short (Keccak256 (tenc t))) as L. rewrite Keccak256_len in L.
    split; [|lia]. apply (string_ref_good _ (Keccak256 (tenc t))); [auto with siot|rewrite Keccak256_len; lia|done].
Qed.

Lemma nil_ref_good : ref_good TNil /\ len (tref TNil) <= 33.
Proof.
  split; [|by vm_compute]. apply (string_ref_good _ []); [constructor|done|done].
Qed.

Lemma val_ref_good v : value_ok v -> ref_good (TVal v).
Proof. intros (_ & Hb & Hl). by apply (string_ref_good _ v). Qed.

Lemma list_good p : bytes_ok p -> len p < 2 ^ 39 ->
  bytes_ok (enc_list p) /\ len (enc_list p) < 2 ^ 40 /\ exists c, enc_list p = enc_list c /\ kind_ok List c.
Proof.
  intros Hp Hl. split; [by apply enc_list_ok; [|lia]|]. split; [pose proof (enc_list_len p); lia|].
  by exists p.
Qed.

Lemma short_good k t : triekey k -> key_ok k -> ref_good t -> enc_good (TShort k t).
Proof.
  intros Hk Hl (Hb & Hr & _). destruct (compact_spec k Hk Hl) as (_ & _ & Hc & Hcl).
  unfold enc_good. cbn [tenc]. apply list_good.
  - apply Forall_app. split; [apply enc_string_ok; [done|lia]|done].
  - rewrite length_app. pose proof (enc_string_len (compact k)). unfold tref in *. lia.
Qed.

Lemma refs_good ts : Forall ref_good ts -> bytes_ok (concat (map tref ts)) /\
  len (concat (map tref ts)) <= len ts * (2 ^ 32 + 9).
Proof.
  induction 1 as [|t ts (Hb & Hl & _) _ [IHb IHl]]; cbn [map concat]; [split; [constructor|done]|].
  split; [by apply Forall_app|]. rewrite length_app. cbn [length]. lia.
Qed.

Lemma full_good ts : length ts = 17%nat -> Forall ref_good ts -> enc_good (TFull ts).
Proof.
  intros L F. destruct (refs_good ts F) as [Hb Hl]. unfold enc_good. cbn [tenc]. apply list_good; [done|].
  rewrite L in Hl. unfold tref in Hl. lia.
Qed.

Lemma canon_enc_good t : canon t -> keys_ok t -> enc_good t.
Proof.
  intros C. pose proof C as C0. revert C0.
  induction C as [k v Hk Hv|k ts Hne Hn C IH|ts L HC IH H16 Htwo]; intros C0 K.
  - apply short_good; [by left|by eapply keys_ok_short_key|by apply val_ref_good].
  - apply short_good; [by right|by eapply keys_ok_short_key|].
    apply enc_good_ref; [done|]. by apply IH, (keys_ok_short k).
  - apply full_good; [done|]. apply Forall_lookup. intros i t E.
    destruct (tree_nil_dec t) as [->|Ht]; [apply nil_ref_good|].
    pose proof (lookup_lt_Some _ _ _ E). destruct (decide (i = 16%nat)) as [->|].
    + destruct (H16 t E Ht) as (v & -> & Hv). by apply val_ref_good.
    + assert (Ct : canon t) by (apply (HC i); [lia|done..]).
      apply enc_good_ref; [by destruct Ct|]. apply (IH i); [lia|done..|by eapply keys_ok_child].
Qed.

Lemma canon_is_node t : canon t -> is_node t = true.
Proof. by destruct 1. Qed.

(** ** Reading back *)

Definition decodes (gen : Z) (t : tree) : Prop :=
  forall fuel h rest, bytes_ok rest -> len (tenc t ++ rest) < 2 ^ 64 ->
    (length (tenc t ++ rest) < fuel)%nat -> decodeNode_ fuel h (tenc t ++ rest) gen = Ok (tload h gen t).

Lemma decodeRef_tref gen fuel t rest :
  t = TNil \/ (is_node t = true /\ enc_good t /\ decodes gen t) ->
  bytes_ok rest -> len (tref t ++ rest) < 2 ^ 64 -> (length (tref t ++ rest) < fuel)%nat ->
  decodeRef_ (decodeNode_ fuel) (tref t ++ rest) gen = Ok (loadref gen t, rest).
Proof.
  intros [->|(N & G & D)] Hr Hl Hf.
  - unfold decodeRef_. assert (Hb : bytes_ok (tref TNil ++ rest))
      by (apply Forall_app; split; [apply nil_ref_good|done]).
    by rewrite (proj2 (Split_iff _ String [] rest Hb Hl)).
  - destruct (enc_good_ref t N G) as [(Hb & _) _]. destruct G as (Hb' & _ & c & E & Hc).
    unfold decodeRef_. assert (Hbr : bytes_ok (tref t ++ rest)) by by apply Forall_app.
    revert Hbr Hl Hf. unfold tref, ref_of, loadref, load_of. rewrite N.
    destruct (Z.ltb_spec (len (tenc t)) 32) as [Hs|Hs]; intros Hbr Hl Hf.
    + rewrite (proj2 (Split_iff _ List c rest Hbr Hl)) by (rewrite E; done). cbn [obind lift_rlp].
      rewrite length_app. unfold hashLen. ztests. by rewrite D.
    + destruct (kind_of_string (Keccak256 (tenc t))) as (k & Hk & Ek & Hn).
      rewrite (proj2 (Split_iff _ k (Keccak256 (tenc t)) rest Hbr Hl)) by (rewrite Ek; done).
      cbn [obind lift_rlp]. rewrite Keccak256_len. destruct k; [|done..].
      destruct Hk as (x & Ex & _). pose proof (Keccak256_length (tenc t)) as L. by rewrite Ex in L.
Qed.

Lemma CountValues_refs ts pre n :
  (exists k c, pre = enc_kind k c /\ kind_ok k c) \/ pre = [] ->
  Forall ref_good ts -> len (pre ++ concat (map tref ts)) < 2 ^ 64 ->
  n = (match pre with [] => 0 | _ => 1 end) + len ts ->
  CountValues (pre ++ concat (map tref ts)) = Ok n.
Proof.
  intros Hpre F Hl ->.
  assert (V : exists vs, map (fun '(k, c) => enc_kind k c) vs = map tref ts /\
                         Forall (fun '(k, c) => kind_ok k c) vs).
  { clear -F. induction F as [|t ts (_ & _ & k & c & E & Hk) _ (vs & Evs & Hvs)]; [by exists []|].
    exists ((k, c) :: vs). cbn. rewrite Evs, E. split; [done|by constructor]. }
  destruct V as (vs & Evs & Hvs). assert (Lv : length vs = length ts)
    by (rewrite <- (length_map tref ts), <- Evs, length_map; done).
  rewrite <- Evs in *. destruct Hpre as [(k & c & -> & Hk)| ->].
  - change (enc_kind k c ++ concat (map (λ '(k0, c0), enc_kind k0 c0) vs)) with
      (concat (map (λ '(k0, c0), enc_kind k0 c0) ((k, c) :: vs))) in *.
    rewrite CountValues_enc by (done || by constructor). f_equal. cbn [length].
    destruct (enc_kind k c) eqn:E; [|lia]. rewrite enc_kind_tag in E by done.
    pose proof (tag_nonempty k c Hk) as T. rewrite E in T. cbn in T. lia.
  - cbn [app] in *. rewrite CountValues_enc by done. f_equal. lia.
Qed.

Lemma decodeChildren_refs gen fuel ts rest :
  Forall (fun t => t = TNil \/ (is_node t = true /\ enc_good t /\ decodes gen t)) ts ->
  bytes_ok rest -> len (concat (map tref ts) ++ rest) < 2 ^ 64 ->
  (length (concat (map tref ts) ++ rest) < fuel)%nat ->
  decodeChildren_ (decodeNode_ fuel) (length ts) (concat (map tref ts) ++ rest) gen =
    Ok (map (loadref gen) ts, rest).
Proof.
  induction 1 as [|t ts Ht Hts IH]; intros Hr Hl Hf; [done|].
  cbn [map concat length decodeChildren_] in *. rewrite <- app_assoc in *.
  assert (bytes_ok (concat (map tref ts))).
  { apply refs_good. eapply Forall_impl; [exact Hts|]. intros t' [->|(N & G & _)];
      [apply nil_ref_good|by apply enc_good_ref]. }
  rewrite decodeRef_tref; [|done|by apply Forall_app|done|done].
  cbn [obind]. rewrite !length_app in *. rewrite IH; [done|done|lia..].
Qed.

(** One list node: everything up to the element count. *)
Lemma decodeNode_list fuel h p rest gen n :
  bytes_ok p -> bytes_ok rest -> len (enc_list p ++ rest) < 2 ^ 64 -> CountValues p = Ok n ->
  decodeNode_ (S fuel) h (enc_list p ++ rest) gen =
    if n =? 2 then decodeShort_ (decodeNode_ fuel) h p gen
    else if n =? 17 then decodeFull_ (decodeNode_ fuel) h p gen else Err (NErrCount n).
Proof.
  intros Hp Hr Hl E. cbn [decodeNode_].
  assert (Lp : len p < 2 ^ 64) by (apply enc_list_length_lt; rewrite length_app in Hl; lia).
  pose proof (enc_list_len p Lp) as L. rewrite (proj2 (Z.eqb_neq _ _)) by (rewrite length_app; lia).
  rewrite SplitList_enc; [|done|by apply enc_list_ok|done].
  cbn [obind lift_rlp]. by rewrite E.
Qed.

Lemma last_hexkey k : hexkey k -> last k = Some 16.
Proof. intros (l & -> & _). apply last_snoc. Qed.

Lemma last_nibbles k : k <> [] -> Forall nibble k -> exists x, last k = Some x /\ (x =? 16) = false.
Proof.
  intros Hne Hk. destruct (last k) as [x|] eqn:E; [|by apply last_None in E].
  exists x. split; [done|]. apply last_Some in E as [l ->]. apply Forall_app in Hk as [_ Hk].
  apply Forall_cons in Hk as [Hk _]. unfold nibble in Hk. by ztests.
Qed.

Lemma short_count k t :
  triekey k -> key_ok k -> ref_good t -> CountValues (enc_string (compact k) ++ tref t) = Ok 2.
Proof.
  intros Hk Hl Hr. destruct (compact_spec k Hk Hl) as (_ & _ & Hb & Hc).
  pose proof (enc_string_len (compact k)). destruct Hr as (Hrb & Hrl & Hrk).
  replace (tref t) with (concat (map tref [t])) by (cbn; by rewrite app_nil_r).
  apply CountValues_refs.
  - left. destruct (kind_of_string (compact k)) as (kk & ? & E & _). exists kk, (compact k). by rewrite E.
  - by constructor.
  - rewrite length_app. cbn. rewrite app_nil_r. lia.
  - destruct (enc_string (compact k)); cbn in *; lia.
Qed.

Lemma short_key_split k t :
  triekey k -> key_ok k -> ref_good t ->
  SplitString (enc_string (compact k) ++ tref t) = Ok (compact k, tref t).
Proof.
  intros Hk Hl (Hrb & Hrl & _). destruct (compact_spec k Hk Hl) as (_ & _ & Hb & Hc).
  pose proof (enc_string_len (compact k)). apply SplitString_enc; [done..| |apply enc_string_ok; [done|lia]].
  rewrite length_app. lia.
Qed.

Lemma short_decodes gen k t :
  triekey k -> key_ok k ->
  (exists v, t = TVal v /\ value_ok v /\ last k = Some 16) \/
  (is_node t = true /\ enc_good t /\ decodes gen t /\ exists x, last k = Some x /\ (x =? 16) = false) ->
  decodes gen (TShort k t).
Proof.
  intros Hk Hl Ht fuel h rest Hr Hlen Hf.
  assert (R : ref_good t) by (destruct Ht as [(v & -> & Hv & _)|(N & G & _)];
    [by apply val_ref_good|by apply enc_good_ref]).
  assert (Hs : (length (enc_string (compact k) ++ tref t) < length (tenc (TShort k t)))%nat).
  { cbn [tenc]. fold (tref t). destruct (compact_spec k Hk Hl) as (_ & _ & _ & Hc).
    pose proof (enc_string_len (compact k)). destruct R as (_ & Hrl & _).
    pose proof (enc_list_len (enc_string (compact k) ++ tref t)) as L. rewrite length_app in *. lia. }
  cbn [tenc] in Hlen, Hf, Hs |- *. fold (tref t) in *. destruct fuel as [|fuel]; [lia|].
  rewrite length_app in Hf. pose proof R as (Hrb & Hrl & _).
  destruct (compact_spec k Hk Hl) as (_ & D & Hcb & Hcl).
  rewrite (decodeNode_list _ _ _ _ _ 2); [|apply Forall_app; split; [apply enc_string_ok; [done|lia]|done]|done|done|by apply short_count].
  change (2 =? 2) with true. cbv iota. unfold decodeShort_. rewrite short_key_split by done.
  cbn [obind lift_rlp]. rewrite D. cbn [obind never tload].
  destruct Ht as [(v & -> & (_ & Hv & Hvl) & ->)|(N & G & Dt & x & -> & ->)].
  - change (16 =? 16) with true. cbv iota.
    change (tref (TVal v)) with (enc_string v). rewrite <- (app_nil_r (enc_string v)).
    pose proof (enc_string_len v).
    rewrite SplitString_enc; [done|done|constructor|rewrite app_nil_r; lia|apply enc_string_ok; [done|lia]].
  - rewrite <- (app_nil_r (tref t)). rewrite length_app in Hs.
    rewrite decodeRef_tref; [done|right; auto|constructor|rewrite app_nil_r; lia|rewrite app_nil_r; lia].
Qed.

Lemma full_decodes gen ts u :
  length ts = 16%nat ->
  Forall (fun t => t = TNil \/ (is_node t = true /\ enc_good t /\ decodes gen t)) ts ->
  u = TNil \/ (exists v, u = TVal v /\ value_ok v) ->
  decodes gen (TFull (ts ++ [u])).
Proof.
  intros L F Hu fuel h rest Hr Hlen Hf.
  assert (Fr : Forall ref_good ts).
  { eapply Forall_impl; [exact F|]. intros t' [->|(N & G & _)]; [apply nil_ref_good|by apply enc_good_ref]. }
  assert (Ru : ref_good u) by (destruct Hu as [->|(v & -> & Hv)]; [apply nil_ref_good|by apply val_ref_good]).
  assert (R : Forall ref_good (ts ++ [u])) by (apply Forall_app; split; [done|by constructor]).
  destruct (refs_good _ R) as [Hb Hl]. rewrite length_app, L in Hl. cbn [length] in Hl.
  cbn [tenc] in Hlen, Hf |- *. fold tref in *. destruct fuel as [|fuel]; [lia|].
  pose proof (enc_list_len (concat (map tref (ts ++ [u])))) as Le. rewrite length_app in Hf.
  rewrite (decodeNode_list _ _ _ _ _ 17); [|done..|].
  2:{ apply (CountValues_refs _ [] 17); [by right|done|cbn [app]; lia|rewrite length_app, L; done]. }
  change (17 =? 2) with false. change (17 =? 17) with true. cbv iota. unfold decodeFull_.
  assert (Es : concat (map tref (ts ++ [u])) = concat (map tref ts) ++ tref u)
    by (rewrite map_app, concat_app; cbn; by rewrite app_nil_r).
  rewrite Es in *. rewrite <- L, decodeChildren_refs; [|done|apply Ru|lia|lia]. cbn [obind].
  assert (Eu : exists b, tref u = enc_string b /\ bytes_ok b /\ len b < 2 ^ 32 /\
    (if 0 <? len b then NValue b else NNil) = loadref gen u).
  { destruct Hu as [->|(v & -> & Hne & Hv & Hvl)]; [by exists []|exists v].
    repeat split; [done..|]. destruct v; [done|]. by cbn [length]; ztests. }
  destruct Eu as (b & Eb & Hbb & Hbl & El). pose proof (enc_string_len b).
  rewrite Eb, <- (app_nil_r (enc_string b)), SplitString_enc;
    [|done|constructor|rewrite app_nil_r; lia|apply enc_string_ok; [done|lia]].
  cbn [obind lift_rlp tload]. by rewrite El, map_app.
Qed.

(** [decodeNode] reads every canonical encoding back. *)
Lemma canon_decodes gen t : canon t -> keys_ok t -> decodes gen t.
Proof.
  intros C. pose proof C as C0. revert C0.
  induction C as [k v Hk Hv|k ts Hne Hn C IH|ts L HC IH H16 Htwo]; intros C0 K.
  - assert (key_ok k) by by eapply keys_ok_short_key.
    apply short_decodes; [by left|done|left]. exists v. by rewrite (last_hexkey k Hk).
  - assert (key_ok k) by by eapply keys_ok_short_key.
    apply keys_ok_short in K; [|done]. apply short_decodes; [by right|done|right].
    split; [done|]. split; [by apply canon_enc_good|]. split; [by apply IH|by apply last_nibbles].
  - destruct (exists_last (l := ts)) as (ts' & u & ->); [by intros ->|].
    rewrite length_app in L. cbn in L. assert (L' : length ts' = 16%nat) by lia.
    apply full_decodes; [done| |].
    + apply Forall_lookup. intros i t E. pose proof (lookup_lt_Some _ _ _ E).
      destruct (tree_nil_dec t) as [->|Ht]; [by left|right].
      assert (E' : (ts' ++ [u]) !! i = Some t) by (by rewrite lookup_app_l by lia).
      assert (C : canon t) by (apply (HC i); [lia|done..]).
      assert (keys_ok t) by by eapply keys_ok_child.
      split; [by apply canon_is_node|]. split; [by apply canon_enc_good|]. apply (IH i); [lia|done..].
    + destruct (tree_nil_dec u) as [->|Hu]; [by left|right]. apply H16; [|done].
      by rewrite lookup_app_r, L' by lia.
Qed.

Lemma decodeNode_tenc h gen t : canon t -> keys_ok t -> decodeNode h (tenc t) gen = Ok (tload h gen t).
Proof.
  intros C K. destruct (canon_enc_good t C K) as (_ & Hl & _).
  pose proof (canon_decodes gen t C K (S (length (tenc t))) h []) as D. rewrite app_nil_r in D.
  apply D; [constructor|lia|lia].
Qed.

(** ** Trees in a database *)

(** Everything reached by hash below [t] is in the database; [stored] also
    asks for [t] itself. *)
Section Stored.
Context `{Database D} (d : D).

Definition kept (t : tree) : Prop := db_get d (Keccak256 (tenc t)) = Some (tenc t).

Inductive below : tree -> Prop :=
| below_nil : below TNil
| below_val v : below (TVal v)
| below_short k t : below t -> (is_node t = true -> 32 <= len (tenc t) -> kept t) -> below (TShort k t)
| below_full ts :
    (forall i t, ts !! i = Some t -> below t) ->
    (forall i t, ts !! i = Some t -> is_node t = true -> 32 <= len (tenc t) -> kept t) ->
    below (TFull ts).

Definition stored (t : tree) : Prop := kept t /\ below t.
End Stored.

(** All encodings under [t], the domain on which hashes must not collide. *)
Inductive encs (U : bytes -> Prop) : tree -> Prop :=
| encs_nil : encs U TNil
| encs_val v : encs U (TVal v)
| encs_short k t : U (tenc (TShort k t)) -> encs U t -> encs U (TShort k t)
| encs_full ts : U (tenc (TFull ts)) -> (forall i t, ts !! i = Some t -> encs U t) -> encs U (TFull ts).

End Store.
