(* ===== verification/Trie.v ===== *)
(** * The trie (src/trie/trie.go, src/trie/errors.go)

    Lookup, insertion and deletion on partially loaded tries.  The database is
    an argument of the operations; log output and the cache-miss counters are
    left out.  The recursive functions take fuel, used up only on nodes no
    trie contains: [2 * length key + 2] calls are enough, one per consumed
    piece of the key and one more to resolve a hash in front of each. *)

From S2P Require Import Prelude TrieEncoding TrieNode Helper Database.

Record MissingNodeError := {
  RootHash : bytes; NodeHash : bytes; ErrKey : bytes; PrefixLen : Z; SuffixLen : Z
}.

Inductive trie_error :=
| Missing (e : MissingNodeError)
| OutOfFuel.

Record Trie := { root : node; originalRoot : bytes; cachegen : Z; cachelimit : Z }.

Definition set_root (tr : Trie) (n : node) : Trie :=
  {| root := n; originalRoot := originalRoot tr; cachegen := cachegen tr; cachelimit := cachelimit tr |}.

Definition SetCacheLimit (tr : Trie) (l : Z) : Trie :=
  {| root := root tr; originalRoot := originalRoot tr; cachegen := cachegen tr; cachelimit := l |}.

Definition newFlag (tr : Trie) : nodeFlag := {| fhash := None; fgen := cachegen tr; fdirty := true |}.

(** The Keccak-256 hash of the RLP encoding of the empty string. *)
Definition emptyRoot : bytes :=
  [0x56; 0xe8; 0x1f; 0x17; 0x1b; 0xcc; 0x55; 0xa6; 0xff; 0x83; 0x45; 0xe6; 0x92; 0xc0; 0xf8; 0x6e;
   0x5b; 0x48; 0xe0; 0x1b; 0x99; 0x6c; 0xad; 0xc0; 0x01; 0x62; 0x2f; 0xb5; 0xe3; 0x63; 0xb4; 0x21].

Definition concat_keys (s1 s2 : bytes) : bytes := s1 ++ s2.

Section Ops.
Context `{Database D} (d : D) (tr : Trie).

(** ** Loading nodes *)

Definition resolveHash (n prefix suffix : bytes) : outcome trie_error node :=
  match db_get d n with
  | None =>
      let* key := never (compactHexEncode (prefix ++ suffix)) in
      Err (Missing {| RootHash := originalRoot tr; NodeHash := BytesToHash n; ErrKey := key;
                      PrefixLen := len prefix; SuffixLen := len suffix |})
  | Some enc => mustDecodeNode n enc (cachegen tr)
  end.

Definition resolve (n : node) (prefix suffix : bytes) : outcome trie_error node :=
  match n with NHash h => resolveHash h prefix suffix | _ => Ok n end.

(** ** Lookup *)

Definition set_gen (fl : nodeFlag) : nodeFlag :=
  {| fhash := fhash fl; fgen := cachegen tr; fdirty := fdirty fl |}.

(** Value, replacement node and whether a hash was resolved. *)
Fixpoint tryGet (fuel : nat) (origNode : node) (key : bytes) (pos : nat)
  : outcome trie_error (option bytes * node * bool) :=
  match fuel with
  | O => Err OutOfFuel
  | S fuel =>
      match origNode with
      | NNil => Ok (None, NNil, false)
      | NValue v => Ok (Some v, NValue v, false)
      | NShort Key Val flags =>
          if (len key - Z.of_nat pos <? len Key) || negb (bool_decide (Key = take (length Key) (drop pos key)))
          then Ok (None, origNode, false)
          else
            let* (value, newnode, didResolve) := tryGet fuel Val key (pos + length Key) in
            Ok (value, if didResolve then NShort Key newnode (set_gen flags) else origNode, didResolve)
      | NFull Children flags =>
          let* x := idx key pos in
          match Children !! Z.to_nat x with
          | None => Panic
          | Some c =>
              let* (value, newnode, didResolve) := tryGet fuel c key (pos + 1) in
              Ok (value, if didResolve then NFull (<[Z.to_nat x := newnode]> Children) (set_gen flags)
                         else origNode, didResolve)
          end
      | NHash h =>
          let* child := resolveHash h (take pos key) (drop pos key) in
          let* (value, newnode, _) := tryGet fuel child key pos in
          Ok (value, newnode, true)
      end
  end.

(** ** Insertion *)

Definition nil_children : list node := replicate 17 NNil.

(** [a[i] = x] on the children array. *)
Definition set_child (cs : list node) (i : Z) (n : node) : outcome trie_error (list node) :=
  if (Z.to_nat i <? length cs)%nat then Ok (<[Z.to_nat i := n]> cs) else Panic.

Fixpoint insert (fuel : nat) (n : node) (prefix key : bytes) (value : node) : outcome trie_error (bool * node) :=
  match fuel with
  | O => Err OutOfFuel
  | S fuel =>
      match key with
      | [] =>
          match n, value with
          | NValue v, NValue w => Ok (negb (bool_decide (v = w)), value)
          | NValue v, _ => Panic
          | _, _ => Ok (true, value)
          end
      | key0 :: key' =>
          match n with
          | NShort Key Val flags =>
              let matchlen := prefixLen key Key in
              if (matchlen =? length Key)%nat then
                let* (dirty, nn) := insert fuel Val (prefix ++ take matchlen key) (drop matchlen key) value in
                if negb dirty then Ok (false, n)
                else Ok (true, NShort Key nn (newFlag tr))
              else
                let* y := idx Key matchlen in
                let* (_, a) := insert fuel NNil (prefix ++ take (matchlen + 1) Key) (drop (matchlen + 1) Key) Val in
                let* cs := set_child nil_children y a in
                let* x := idx key matchlen in
                let* (_, b) := insert fuel NNil (prefix ++ take (matchlen + 1) key) (drop (matchlen + 1) key) value in
                let* cs := set_child cs x b in
                let branch := NFull cs (newFlag tr) in
                if (matchlen =? 0)%nat then Ok (true, branch)
                else Ok (true, NShort (take matchlen key) branch (newFlag tr))
          | NFull Children flags =>
              match Children !! Z.to_nat key0 with
              | None => Panic
              | Some c =>
                  let* (dirty, nn) := insert fuel c (prefix ++ [key0]) key' value in
                  if negb dirty then Ok (false, n)
                  else
                    let* cs := set_child Children key0 nn in
                    Ok (true, NFull cs (newFlag tr))
              end
          | NNil => Ok (true, NShort key value (newFlag tr))
          | NHash h =>
              let* rn := resolveHash h prefix key in
              let* (dirty, nn) := insert fuel rn prefix key value in
              if negb dirty then Ok (false, rn) else Ok (true, nn)
          | NValue _ => Panic
          end
      end
  end.

(** ** Deletion *)

(** The index of the only non-nil child, -1 if there is none, -2 if there are
    more. *)
Fixpoint only_child (cs : list node) (i pos : Z) : Z :=
  match cs with
  | [] => pos
  | c :: cs =>
      if is_nil c then only_child cs (i + 1) pos
      else if pos =? -1 then only_child cs (i + 1) i
      else -2
  end.

Fixpoint delete (fuel : nat) (n : node) (prefix key : bytes) : outcome trie_error (bool * node) :=
  match fuel with
  | O => Err OutOfFuel
  | S fuel =>
      match n with
      | NShort Key Val flags =>
          let matchlen := prefixLen key Key in
          if (matchlen <? length Key)%nat then Ok (false, n)
          else if (matchlen =? length key)%nat then Ok (true, NNil)
          else
            let* (dirty, child) := delete fuel Val (prefix ++ take (length Key) key) (drop (length Key) key) in
            if negb dirty then Ok (false, n)
            else
              match child with
              | NShort ck cv _ => Ok (true, NShort (concat_keys Key ck) cv (newFlag tr))
              | _ => Ok (true, NShort Key child (newFlag tr))
              end
      | NFull Children flags =>
          match key with
          | [] => Panic
          | key0 :: key' =>
              match Children !! Z.to_nat key0 with
              | None => Panic
              | Some c =>
                  let* (dirty, nn) := delete fuel c (prefix ++ [key0]) key' in
                  if negb dirty then Ok (false, n)
                  else
                    let* cs := set_child Children key0 nn in
                    let n := NFull cs (newFlag tr) in
                    let pos := only_child cs 0 (-1) in
                    if 0 <=? pos then
                      match cs !! Z.to_nat pos with
                      | None => Panic
                      | Some c =>
                          let* short := (if negb (pos =? 16) then
                                           let* cnode := resolve c prefix [pos] in
                                           match cnode with
                                           | NShort ck cv _ => Ok (Some (NShort (pos :: ck) cv (newFlag tr)))
                                           | _ => Ok None
                                           end
                                         else Ok None) in
                          match short with
                          | Some s => Ok (true, s)
                          | None => Ok (true, NShort [pos] c (newFlag tr))
                          end
                      end
                    else Ok (true, n)
              end
          end
      | NValue _ => Ok (true, NNil)
      | NNil => Ok (false, NNil)
      | NHash h =>
          let* rn := resolveHash h prefix key in
          let* (dirty, nn) := delete fuel rn prefix key in
          if negb dirty then Ok (false, rn) else Ok (true, nn)
      end
  end.

Definition enough (key : bytes) : nat := 2 * length key + 2.

(** ** Exported operations *)

Definition TryGet (key : bytes) : outcome trie_error (option bytes * Trie) :=
  let key := compactHexDecode key in
  let* (value, newroot, didResolve) := tryGet (enough key) (root tr) key 0 in
  Ok (value, if didResolve then set_root tr newroot else tr).

Definition TryUpdate (key value : bytes) : outcome trie_error Trie :=
  let k := compactHexDecode key in
  if negb (len value =? 0) then
    let* (_, n) := insert (enough k) (root tr) [] k (NValue value) in
    Ok (set_root tr n)
  else
    let* (_, n) := delete (enough k) (root tr) [] k in
    Ok (set_root tr n).

Definition TryDelete (key : bytes) : outcome trie_error Trie :=
  let k := compactHexDecode key in
  let* (_, n) := delete (enough k) (root tr) [] k in
  Ok (set_root tr n).
End Ops.

(** [New] with a database; the trie starts at cache generation zero. *)
Definition New `{Database D} (d : D) (rootHash : bytes) : outcome trie_error Trie :=
  let trie := {| root := NNil; originalRoot := rootHash; cachegen := 0; cachelimit := 0 |} in
  if negb (bool_decide (rootHash = zeros 32)) && negb (bool_decide (rootHash = emptyRoot)) then
    let* rootnode := resolveHash d trie rootHash [] [] in
    Ok (set_root trie rootnode)
  else Ok trie.

(** [Get], [Update] and [Delete] log an error of the corresponding operation
    and drop it. *)
Definition Get_ `{Database D} (d : D) (tr : Trie) (key : bytes) : outcome trie_error (option bytes * Trie) :=
  match TryGet d tr key with Err _ => Ok (None, tr) | r => r end.
Definition Update `{Database D} (d : D) (tr : Trie) (key value : bytes) : outcome trie_error Trie :=
  match TryUpdate d tr key value with Err _ => Ok tr | r => r end.
Definition Delete_ `{Database D} (d : D) (tr : Trie) (key : bytes) : outcome trie_error Trie :=
  match TryDelete d tr key with Err _ => Ok tr | r => r end.
