(* ===== verification/TrieSpec.v ===== *)
(** * Correctness of the trie operations

    [repr d root n t]: the node [n], with its cached hashes and its unresolved
    references into the database [d], stands for the tree [t].  Lookup,
    insertion and deletion are shown to act on the map of the tree, to keep the
    tree canonical and never to fail while the database holds what the node
    refers to. *)

From S2P Require Import Prelude RlpEncode TrieEncoding TrieNode TrieTree TrieStore Helper Database Trie.

(** ** Changes of the abstract tree

    A slot is a position in a tree: the value slot of a branch ([b = true],
    reached by the empty rest of a key) or any other. *)

Definition kslot (b : bool) (k : bytes) : Prop := if b then k = [] else hexkey k.

Definition tslot (b : bool) (t : tree) : Prop :=
  if b then t = TNil \/ exists v, t = TVal v /\ value_ok v else canon_root t.

(** The slot of the child under [x]. *)
Definition is16 (x : Z) : bool := x =? 16.

Lemma hexkey_kslot x k : hexkey (x :: k) -> kslot (is16 x) k /\ 0 <= x <= 16.
Proof.
  intros [[-> ->]|[Hx Hk]]%hexkey_cons_inv; unfold kslot, is16, nibble in *; [by split|].
  destruct (Z.eqb_spec x 16); [lia|]. split; [done|lia].
Qed.

Lemma kslot_hexkey x k : 0 <= x <= 16 -> kslot (is16 x) k -> hexkey (x :: k).
Proof.
  intros Hx. unfold kslot, is16. destruct (Z.eqb_spec x 16) as [->|]; [intros ->; apply hexkey_single|].
  apply hexkey_cons. unfold nibble. lia.
Qed.

Lemma canon_slots ts :
  canon (TFull ts) <->
  length ts = 17%nat /\ (forall i t, ts !! i = Some t -> tslot (is16 (Z.of_nat i)) t) /\
  (exists i j ti tj, i <> j /\ ts !! i = Some ti /\ ts !! j = Some tj /\ ti <> TNil /\ tj <> TNil).
Proof.
  split.
  - intros C. inversion C as [| |ts' L HC H16 Htwo]; subst. repeat split; [done| |done].
    intros i t E. pose proof (lookup_lt_Some _ _ _ E). unfold tslot, is16.
    destruct (Z.eqb_spec (Z.of_nat i) 16) as [E16|].
    + replace i with 16%nat in E by lia. destruct (tree_nil_dec t); [by left|right; by apply H16].
    + by apply (canon_child ts i); [..|lia|].
  - intros (L & HC & Htwo). constructor; [done| | |done].
    + intros i t Hi E Ht. specialize (HC i t E). unfold tslot, is16 in HC.
      destruct (Z.eqb_spec (Z.of_nat i) 16); [lia|]. by destruct HC.
    + intros t E Ht. specialize (HC _ t E). cbn in HC. by destruct HC.
Qed.

(** *** Insertion *)

Definition ins_map (b : bool) (key v : bytes) (t t' : tree) : Prop :=
  forall k, kslot b k -> tget t' k = if decide (k = key) then Some v else tget t k.

Record ins_post (b : bool) (key v : bytes) (t t' : tree) : Prop := {
  ins_slot : tslot b t';
  ins_some : t' <> TNil;
  ins_get : ins_map b key v t t';
  ins_full : forall ts, t = TFull ts -> exists ts', t' = TFull ts'
}.

Lemma tget_short p t k : tget (TShort p t) k = match strip p k with Some r => tget t r | None => None end.
Proof. done. Qed.

Lemma ins_value v t : value_ok v -> tslot true t -> ins_post true [] v t (TVal v).
Proof.
  intros Hv Ht. split; [right; eauto|done| |].
  - intros k ->. by rewrite decide_True.
  - intros ts ->. by destruct Ht as [|(w & ? & _)].
Qed.

Lemma ins_nil key v : hexkey key -> value_ok v -> ins_post false key v TNil (TShort key (TVal v)).
Proof.
  intros Hk Hv. split; [by right; constructor|done| |done]. intros k _. by rewrite tget_leaf.
Qed.

Lemma ins_leaf k v v0 : hexkey k -> value_ok v -> ins_post false k v (TShort k (TVal v0)) (TShort k (TVal v)).
Proof.
  intros Hk Hv. split; [by right; constructor|done| |done]. intros k' _. rewrite !tget_leaf. by case_decide.
Qed.

Lemma ins_ext k r v ts t' :
  k <> [] -> Forall nibble k -> ins_post false r v (TFull ts) t' ->
  ins_post false (k ++ r) v (TShort k (TFull ts)) (TShort k t').
Proof.
  intros Hne Hk [S N G F]. destruct (F ts eq_refl) as [ts' ->]. destruct S as [|C]; [done|].
  split; [by right; constructor|done| |done]. intros k' Hk'. rewrite !tget_short.
  destruct (strip k k') as [r'|] eqn:E.
  - apply strip_Some in E as ->. assert (Hr' : hexkey r').
    { destruct r'; [|by eapply hexkey_app_inv]. rewrite app_nil_r in Hk'. by apply hexkey_not_nibbles in Hk'. }
    rewrite (G r' Hr'). destruct (decide (r' = r)) as [->|Hn]; [by rewrite decide_True|].
    rewrite decide_False; [done|]. by intros ?%app_inv_head.
  - rewrite decide_False; [done|]. rewrite strip_None in E. apply E.
Qed.

(** Replacing one child keeps a branch with a non-nil replacement canonical. *)
Lemma slots_insert ts x t t' :
  canon (TFull ts) -> ts !! Z.to_nat x = Some t -> 0 <= x <= 16 -> tslot (is16 x) t' -> t' <> TNil ->
  canon (TFull (<[Z.to_nat x := t']> ts)).
Proof.
  rewrite !canon_slots. intros (L & S & (i & j & ti & tj & Hij & Ei & Ej & Hi & Hj)) E Hx St Ht.
  split; [by rewrite length_insert|]. split.
  - intros i' u Eu. destruct (decide (i' = Z.to_nat x)) as [->|].
    + rewrite list_lookup_insert_eq in Eu by (apply lookup_lt_Some in E; lia). injection Eu as <-.
      by rewrite Z2Nat.id by lia.
    + rewrite list_lookup_insert_ne in Eu by done. by apply S.
  - assert (G : forall i ti, ts !! i = Some ti -> ti <> TNil ->
              exists u, <[Z.to_nat x := t']> ts !! i = Some u /\ u <> TNil).
    { intros i' u Eu Hu. destruct (decide (i' = Z.to_nat x)) as [->|];
        [exists t'; by rewrite list_lookup_insert_eq by (apply lookup_lt_Some in E; lia)|].
      exists u. by rewrite list_lookup_insert_ne by done. }
    destruct (G i ti Ei Hi) as (ui & ? & ?), (G j tj Ej Hj) as (uj & ? & ?). by exists i, j, ui, uj.
Qed.

Lemma tget_full_insert ts x t' k z :
  (Z.to_nat x < length ts)%nat -> 0 <= x -> 0 <= z ->
  tget (TFull (<[Z.to_nat x := t']> ts)) (z :: k) = if z =? x then tget t' k else tget (TFull ts) (z :: k).
Proof.
  intros L Hx Hz. rewrite !tget_full. destruct (Z.eqb_spec z x) as [->|].
  - by rewrite list_lookup_insert_eq by done.
  - by rewrite list_lookup_insert_ne by lia.
Qed.

Lemma ins_branch ts x k v t t' :
  canon (TFull ts) -> hexkey (x :: k) -> ts !! Z.to_nat x = Some t ->
  ins_post (is16 x) k v t t' -> ins_post false (x :: k) v (TFull ts) (TFull (<[Z.to_nat x := t']> ts)).
Proof.
  intros C Hk E [S N G F]. destruct (hexkey_kslot x k Hk) as [Ks Hx].
  split; [right; by eapply slots_insert|done| |by eauto].
  intros k' Hk'. destruct k' as [|z k']; [by apply hexkey_nil in Hk'|].
  destruct (hexkey_kslot z k' Hk') as [Kz Hz].
  rewrite tget_full_insert by (try lia; by eapply lookup_lt_Some).
  destruct (Z.eqb_spec z x) as [->|].
  - rewrite (G k') by done. rewrite tget_full, E.
    destruct (decide (k' = k)) as [->|]; [by rewrite decide_True|]. rewrite decide_False; [done|congruence].
  - rewrite decide_False by congruence. done.
Qed.

(** Splitting a short node. *)
Definition tsub (r : bytes) (t : tree) : tree := match r with [] => t | _ => TShort r t end.

Lemma tget_sub r t k : tget (tsub r t) k = match strip r k with Some k' => tget t k' | None => None end.
Proof. by destruct r. Qed.

Lemma sub_slot p y rb t :
  canon (TShort (p ++ y :: rb) t) ->
  tslot (is16 y) (tsub rb t) /\ tsub rb t <> TNil /\ Forall nibble p /\ 0 <= y <= 16.
Proof.
  intros C. inversion C as [k v Hk Hv|k ts Hne Hn Ck|]; subst.
  - destruct (hexkey_app_inv p (y :: rb) ltac:(done) Hk) as [Hp Hy].
    pose proof (hexkey_kslot y rb Hy) as [Hs Hb]. repeat split; try done; try lia; [|by destruct rb].
    revert Hs. unfold kslot, tslot, is16. destruct (Z.eqb_spec y 16).
    + intros ->. right. eauto.
    + intros Hr. right. destruct rb; [by apply hexkey_nil in Hr|by constructor].
  - apply Forall_app in Hn as [Hp Hy]. apply Forall_cons in Hy as [Hy Hr]. unfold nibble in Hy.
    repeat split; try done; try lia; [|by destruct rb]. unfold tslot, is16. destruct (Z.eqb_spec y 16); [lia|].
    right. destruct rb; [done|by constructor].
Qed.

Definition branch (x y : Z) (a b : tree) : tree :=
  TFull (<[Z.to_nat x := a]> (<[Z.to_nat y := b]> (replicate 17 TNil))).

Lemma branch_canon x y a b :
  x <> y -> 0 <= x <= 16 -> 0 <= y <= 16 -> tslot (is16 x) a -> a <> TNil -> tslot (is16 y) b -> b <> TNil ->
  canon (branch x y a b).
Proof.
  intros Hxy Hx Hy Sa Na Sb Nb. unfold branch. apply canon_slots.
  assert (L : length (replicate 17 TNil) = 17%nat) by done.
  assert (Ex : <[Z.to_nat x := a]> (<[Z.to_nat y := b]> (replicate 17 TNil)) !! Z.to_nat x = Some a)
    by (apply list_lookup_insert_eq; rewrite length_insert; lia).
  assert (Ey : <[Z.to_nat x := a]> (<[Z.to_nat y := b]> (replicate 17 TNil)) !! Z.to_nat y = Some b)
    by (rewrite list_lookup_insert_ne by lia; apply list_lookup_insert_eq; lia).
  split; [by rewrite !length_insert|]. split.
  - intros i t E. destruct (decide (i = Z.to_nat x)) as [->|]; [rewrite Ex in E; injection E as <-; by rewrite Z2Nat.id by lia|].
    destruct (decide (i = Z.to_nat y)) as [->|]; [rewrite Ey in E; injection E as <-; by rewrite Z2Nat.id by lia|].
    rewrite !list_lookup_insert_ne in E by lia. apply lookup_replicate in E as [-> _].
    unfold tslot. case_match; by left.
  - exists (Z.to_nat x), (Z.to_nat y), a, b. repeat split; try done. lia.
Qed.

Lemma tget_branch x y a b z k :
  x <> y -> 0 <= x <= 16 -> 0 <= y <= 16 -> 0 <= z ->
  tget (branch x y a b) (z :: k) = if z =? x then tget a k else if z =? y then tget b k else None.
Proof.
  intros Hxy Hx Hy Hz. unfold branch.
  assert (L : length (replicate 17 TNil) = 17%nat) by done.
  rewrite tget_full_insert by (rewrite ?length_insert; lia). destruct (z =? x); [done|].
  rewrite tget_full_insert by lia. destruct (z =? y); [done|].
  rewrite tget_full. destruct (replicate 17 TNil !! Z.to_nat z) as [t|] eqn:E; [|done].
  by apply lookup_replicate in E as [-> _].
Qed.

Lemma ins_split p x y ra rb v t :
  canon (TShort (p ++ y :: rb) t) -> hexkey (p ++ x :: ra) -> value_ok v -> x <> y ->
  ins_post false (p ++ x :: ra) v (TShort (p ++ y :: rb) t)
    (tsub p (branch x y (tsub ra (TVal v)) (tsub rb t))).
Proof.
  intros C Hk Hv Hxy. destruct (sub_slot p y rb t C) as (Sb & Nb & Hp & Hy).
  destruct (sub_slot p x ra (TVal v)) as (Sa & Na & _ & Hx); [by constructor|].
  assert (Cb : canon (branch x y (tsub ra (TVal v)) (tsub rb t))) by by apply branch_canon.
  split; [right; destruct p; [done|by constructor]|by destruct p| |done].
  intros k Hk'. rewrite tget_sub, tget_short. destruct (strip p k) as [r|] eqn:E.
  - apply strip_Some in E as ->. destruct r as [|z r].
    { rewrite app_nil_r in Hk'. by apply hexkey_not_nibbles in Hk'. }
    apply hexkey_app_inv in Hk' as [_ Hz]; [|done]. destruct (hexkey_kslot z r Hz) as [_ Hz'].
    rewrite tget_branch by lia.
    assert (Es : strip (p ++ y :: rb) (p ++ z :: r) = if y =? z then strip rb r else None).
    { clear. induction p as [|w p IH]; cbn; [done|]. by rewrite Z.eqb_refl. }
    rewrite Es, !tget_sub. destruct (Z.eqb_spec z x) as [->|].
    + rewrite (proj2 (Z.eqb_neq y x)) by lia. rewrite <- tget_short, tget_leaf.
      destruct (decide (r = ra)) as [->|]; [by rewrite decide_True|].
      rewrite decide_False; [done|]. intros X. apply app_inv_head in X. congruence.
    + rewrite decide_False by (intros X; apply app_inv_head in X; congruence).
      rewrite (Z.eqb_sym y z). by destruct (z =? y).
  - rewrite strip_None in E. rewrite decide_False by apply E.
    destruct (strip (p ++ y :: rb) k) as [r|] eqn:E'; [|done].
    apply strip_Some in E' as ->. by destruct (E (y :: rb ++ r)); rewrite <- app_assoc.
Qed.

(** *** Deletion *)

Record del_post (b : bool) (key : bytes) (t t' : tree) : Prop := {
  del_slot : tslot b t';
  del_get : forall k, kslot b k -> tget t' k = if decide (k = key) then None else tget t k;
  del_full : forall ts, t = TFull ts -> t' <> TNil
}.

Lemma del_value t : tslot true t -> del_post true [] t TNil.
Proof.
  intros St. split; [by left| |intros ts ->; by destruct St as [|(v & ? & _)]].
  intros k ->. by rewrite decide_True.
Qed.

Lemma del_absent b key t : tslot b t -> tget t key = None -> del_post b key t t.
Proof.
  intros St E. split; [done| |by intros ts ->]. intros k _. by case_decide; subst.
Qed.

Lemma del_leaf k v : del_post false k (TShort k (TVal v)) TNil.
Proof. split; [by left| |done]. intros k' _. rewrite tget_leaf. by case_decide. Qed.

(** Putting a prefix in front of a tree, merging it with a short node. *)
Definition tjoin (k : bytes) (t : tree) : tree :=
  match t with TShort ck ct => TShort (k ++ ck) ct | _ => TShort k t end.

Lemma strip_app_l p q k : strip (p ++ q) k = match strip p k with Some r => strip q r | None => None end.
Proof.
  revert k. induction p as [|x p IH]; intros k; [done|]. cbn. destruct k as [|y k]; [done|].
  by destruct (x =? y).
Qed.

Lemma tget_join k t k' : tget (tjoin k t) k' = match strip k k' with Some r => tget t r | None => None end.
Proof.
  destruct t as [| |ck ct|]; try done. cbn [tjoin]. rewrite tget_short, strip_app_l.
  by destruct (strip k k').
Qed.

Lemma tjoin_canon k t : k <> [] -> Forall nibble k -> canon t -> canon (tjoin k t).
Proof.
  intros Hne Hk C. destruct C as [ck v Hc Hv|ck ts ? Hc C|ts L HC H16 Htwo]; cbn [tjoin].
  - constructor; [by apply hexkey_app|done].
  - constructor; [by destruct k|by apply Forall_app|done].
  - by repeat constructor.
Qed.

Lemma del_ext k r ts t' :
  k <> [] -> Forall nibble k -> del_post false r (TFull ts) t' ->
  del_post false (k ++ r) (TShort k (TFull ts)) (tjoin k t').
Proof.
  intros Hne Hk [S G F]. specialize (F ts eq_refl). destruct S as [|C]; [done|].
  split; [right; by apply tjoin_canon| |done]. intros k' Hk'. rewrite tget_join, tget_short.
  destruct (strip k k') as [r'|] eqn:E.
  - apply strip_Some in E as ->. assert (Hr' : hexkey r').
    { destruct r'; [|by eapply hexkey_app_inv]. rewrite app_nil_r in Hk'. by apply hexkey_not_nibbles in Hk'. }
    rewrite (G r' Hr'). destruct (decide (r' = r)) as [->|Hn]; [by rewrite decide_True|].
    rewrite decide_False; [done|]. by intros ?%app_inv_head.
  - by case_decide.
Qed.

(** The map of a branch with one child replaced after a deletion. *)
Lemma del_branch_get ts x k t t' :
  canon (TFull ts) -> hexkey (x :: k) -> ts !! Z.to_nat x = Some t -> del_post (is16 x) k t t' ->
  forall k', hexkey k' ->
    tget (TFull (<[Z.to_nat x := t']> ts)) k' = if decide (k' = x :: k) then None else tget (TFull ts) k'.
Proof.
  intros C Hk E [S G F] k' Hk'. destruct (hexkey_kslot x k Hk) as [Ks Hx].
  destruct k' as [|z k']; [by apply hexkey_nil in Hk'|]. destruct (hexkey_kslot z k' Hk') as [Kz Hz].
  rewrite tget_full_insert by (try lia; by eapply lookup_lt_Some).
  destruct (Z.eqb_spec z x) as [->|].
  - rewrite (G k') by done. rewrite tget_full, E.
    destruct (decide (k' = k)) as [->|]; [by rewrite decide_True|]. rewrite decide_False; [done|congruence].
  - rewrite decide_False by congruence. done.
Qed.

Lemma slots_replace ts x t t' :
  canon (TFull ts) -> ts !! Z.to_nat x = Some t -> 0 <= x <= 16 -> tslot (is16 x) t' ->
  length (<[Z.to_nat x := t']> ts) = 17%nat /\
  forall i u, <[Z.to_nat x := t']> ts !! i = Some u -> tslot (is16 (Z.of_nat i)) u.
Proof.
  rewrite canon_slots. intros (L & S & _) E Hx St. split; [by rewrite length_insert|].
  intros i' u Eu. destruct (decide (i' = Z.to_nat x)) as [->|].
  - rewrite list_lookup_insert_eq in Eu by (apply lookup_lt_Some in E; lia). injection Eu as <-.
    by rewrite Z2Nat.id by lia.
  - rewrite list_lookup_insert_ne in Eu by done. by apply S.
Qed.

Lemma del_branch_keep ts x k t t' :
  canon (TFull ts) -> hexkey (x :: k) -> ts !! Z.to_nat x = Some t -> del_post (is16 x) k t t' ->
  (exists i j ti tj, i <> j /\ <[Z.to_nat x := t']> ts !! i = Some ti /\ <[Z.to_nat x := t']> ts !! j = Some tj /\
     ti <> TNil /\ tj <> TNil) ->
  del_post false (x :: k) (TFull ts) (TFull (<[Z.to_nat x := t']> ts)).
Proof.
  intros C Hk E P Htwo. destruct (hexkey_kslot x k Hk) as [_ Hx]. split; [|by eapply del_branch_get|done].
  right. apply canon_slots. destruct (slots_replace ts x t t' C E Hx (del_slot _ _ _ _ P)). by split.
Qed.

Lemma del_branch_collapse ts x k t t' pos u :
  canon (TFull ts) -> hexkey (x :: k) -> ts !! Z.to_nat x = Some t -> del_post (is16 x) k t t' ->
  0 <= pos -> <[Z.to_nat x := t']> ts !! Z.to_nat pos = Some u -> u <> TNil ->
  (forall i w, <[Z.to_nat x := t']> ts !! i = Some w -> i <> Z.to_nat pos -> w = TNil) ->
  del_post false (x :: k) (TFull ts) (tjoin [pos] u).
Proof.
  intros C Hk E P Hpos Eu Hu Hone. destruct (hexkey_kslot x k Hk) as [_ Hx].
  destruct (slots_replace ts x t t' C E Hx (del_slot _ _ _ _ P)) as [L S].
  pose proof (lookup_lt_Some _ _ _ Eu) as Lp. rewrite L in Lp.
  pose proof (S _ u Eu) as Su. rewrite Z2Nat.id in Su by lia.
  split; [|intros k' Hk'; rewrite <- (del_branch_get ts x k t t') by done|by destruct u].
  - right. revert Su. unfold tslot, is16. destruct (Z.eqb_spec pos 16) as [->|].
    + intros [|(v & -> & Hv)]; [done|]. by constructor; [apply hexkey_single|].
    + intros [|Cu]; [done|]. apply tjoin_canon; [done| |done]. constructor; [unfold nibble; lia|constructor].
  - rewrite tget_join. destruct k' as [|z k']; [by apply hexkey_nil in Hk'|]. cbn [strip].
    destruct (hexkey_kslot z k' Hk') as [_ Hz]. rewrite tget_full. destruct (Z.eqb_spec pos z) as [->|].
    + by rewrite Eu.
    + destruct (<[Z.to_nat x := t']> ts !! Z.to_nat z) as [w|] eqn:Ew; [|done].
      by rewrite (Hone _ _ Ew) by lia.
Qed.

(** A branch that lost at most one child still has one. *)
Lemma del_branch_one ts x t' :
  canon (TFull ts) -> exists i u, <[Z.to_nat x := t']> ts !! i = Some u /\ u <> TNil.
Proof.
  rewrite canon_slots. intros (L & _ & (i & j & ti & tj & Hij & Ei & Ej & Hi & Hj)).
  destruct (decide (i = Z.to_nat x)) as [->|].
  - exists j, tj. by rewrite list_lookup_insert_ne by done.
  - exists i, ti. by rewrite list_lookup_insert_ne by done.
Qed.

(** ** Nodes standing for trees *)

Section Repr.
Context `{Hash256} `{Database D} (d : D).

(** A cached hash is the node's hash; a clean node with a hash is in the
    database.  Below the root a node has a hash only when it is not embedded,
    and clean nodes without a hash are embedded. *)
Definition flag_ok (r : bool) (t : tree) (fl : nodeFlag) : Prop :=
  match fhash fl with
  | Some h => h = Keccak256 (tenc t) /\ (r = true \/ 32 <= len (tenc t)) /\ (fdirty fl = false -> stored d t)
  | None => fdirty fl = false -> r = false /\ len (tenc t) < 32
  end.

Inductive repr : bool -> node -> tree -> Prop :=
| repr_nil r : repr r NNil TNil
| repr_val r v : repr r (NValue v) (TVal v)
| repr_short r k n fl t : repr false n t -> flag_ok r (TShort k t) fl -> repr r (NShort k n fl) (TShort k t)
| repr_full r cs fl ts :
    length cs = length ts ->
    (forall i c t, cs !! i = Some c -> ts !! i = Some t -> repr false c t) ->
    flag_ok r (TFull ts) fl -> repr r (NFull cs fl) (TFull ts)
| repr_hash r t :
    is_node t = true -> stored d t -> (r = true \/ 32 <= len (tenc t)) ->
    repr r (NHash (Keccak256 (tenc t))) t.

Definition is_hash (n : node) : bool := match n with NHash _ => true | _ => false end.

Lemma flag_ok_new tr r t : flag_ok r t (newFlag tr).
Proof. done. Qed.

Lemma flag_ok_gen tr r t fl : flag_ok r t fl -> flag_ok r t (set_gen tr fl).
Proof. done. Qed.

Lemma repr_is_nil r n t : repr r n t -> is_nil n = true <-> t = TNil.
Proof. by destruct 1 as [| | | |r t N]; cbn; split; try done; intros ->. Qed.

Lemma repr_nil_inv r n : repr r n TNil -> n = NNil.
Proof. intros R. inversion R as [| | | |r' t N]; subst; [done|discriminate]. Qed.

(** Loading a stored tree gives a node for it. *)
Lemma repr_tload r t h gen : below d t -> flag_ok r t (clean h gen) -> repr r (tload h gen t) t.
Proof.
  intros B. revert r h. induction B as [| |k t B IH K|ts B IH K]; intros r h Hh; cbn [tload]; try constructor; try done.
  - unfold load_of. destruct (is_node t) eqn:N; [|by destruct t; try discriminate; constructor].
    destruct (Z.ltb_spec (len (tenc t)) 32); [by apply IH|].
    constructor; [done|split; auto|by right].
  - by rewrite length_map.
  - intros i c t Ec Et. rewrite list_lookup_fmap, Et in Ec. cbn in Ec. injection Ec as <-.
    unfold load_of. destruct (is_node t) eqn:N; [|by destruct t; try discriminate; constructor].
    destruct (Z.ltb_spec (len (tenc t)) 32); [by eapply IH|].
    constructor; [done|split; eauto|by right].
Qed.

Lemma resolveHash_stored tr t prefix suffix :
  canon t -> keys_ok t -> stored d t ->
  resolveHash d tr (Keccak256 (tenc t)) prefix suffix = Ok (tload (Some (Keccak256 (tenc t))) (cachegen tr) t).
Proof.
  intros C K [Hk _]. unfold resolveHash. rewrite Hk. unfold mustDecodeNode. by rewrite decodeNode_tenc.
Qed.

(** A hash node resolves to a loaded node for the same tree. *)
Lemma resolve_repr tr r h t prefix suffix :
  repr r (NHash h) t -> canon t -> keys_ok t ->
  exists n, resolveHash d tr h prefix suffix = Ok n /\ repr r n t /\ is_hash n = false.
Proof.
  intros R C K. inversion R as [| | | |r' t' N S L]; subst.
  eexists. split; [by apply resolveHash_stored|]. split; [|by destruct C].
  by apply repr_tload; [apply S|].
Qed.

(** ** Lookup *)

Definition need (n : node) (key : bytes) : nat := 2 * length key + (if is_hash n then 2 else 1).

Lemma need_loaded n key : is_hash n = false -> need n key = (2 * length key + 1)%nat.
Proof. unfold need. by intros ->. Qed.

Lemma need_le n key : (need n key <= 2 * length key + 2)%nat.
Proof. unfold need. destruct (is_hash n); lia. Qed.

Lemma short_slot k t rest b :
  tslot b (TShort k t) -> kslot b rest -> strip k rest <> None ->
  exists r b', rest = k ++ r /\ kslot b' r /\ tslot b' t /\ b = false /\ k <> [] /\ canon (TShort k t).
Proof.
  intros T Kr Es. destruct b; [by destruct T as [|(v & ? & _)]|]. destruct T as [|C]; [done|].
  destruct (strip k rest) as [r|] eqn:E; [|done]. apply strip_Some in E as ->. cbn in Kr.
  inversion C as [k' v Hk Hv|k' ts Hne Hn Ck|]; subst.
  - pose proof (hexkey_prefix_free k r Hk Kr) as ->. exists [], true. repeat split; try done.
    + right. eauto.
    + intros ->. by apply hexkey_nil in Hk.
  - exists r, false. repeat split; try done; [|by right].
    destruct r; [|by eapply hexkey_app_inv]. rewrite app_nil_r in Kr. by apply hexkey_not_nibbles in Kr.
Qed.

Lemma full_slot b cs ts rest :
  tslot b (TFull ts) -> kslot b rest -> length cs = length ts ->
  exists x r (c : node) t, rest = x :: r /\ cs !! Z.to_nat x = Some c /\ ts !! Z.to_nat x = Some t /\
    kslot (is16 x) r /\ tslot (is16 x) t /\ b = false /\ canon (TFull ts) /\ 0 <= x <= 16.
Proof.
  intros T Kr L. destruct b; [by destruct T as [|(v & ? & _)]|]. destruct T as [|C]; [done|].
  destruct rest as [|x r]; [by apply hexkey_nil in Kr|]. destruct (hexkey_kslot x r Kr) as [Ks Hx].
  pose proof C as (Lt & S & _)%canon_slots. assert (Z.to_nat x < 17)%nat by lia.
  destruct (lookup_lt_is_Some_2 ts (Z.to_nat x)) as [t Et]; [lia|].
  destruct (lookup_lt_is_Some_2 cs (Z.to_nat x)) as [c Ec]; [lia|].
  exists x, r, c, t. pose proof (S _ t Et) as St. rewrite Z2Nat.id in St by lia. by repeat split; try lia.
Qed.

(** The test of [tryGet] on a short node. *)
Lemma short_test (Key rest : bytes) :
  (len rest <? len Key) || negb (bool_decide (Key = take (length Key) rest)) =
  match strip Key rest with Some _ => false | None => true end.
Proof.
  destruct (strip Key rest) as [r|] eqn:E.
  - apply strip_Some in E as ->. rewrite length_app, take_app_length, bool_decide_true by done.
    rewrite (proj2 (Z.ltb_ge _ _)) by lia. done.
  - rewrite strip_None in E. destruct (Z.ltb_spec (len rest) (len Key)); [done|].
    rewrite bool_decide_false; [done|]. intros X. apply (E (drop (length Key) rest)).
    rewrite <- (take_drop (length Key) rest) at 1. by rewrite <- X.
Qed.

Lemma repr_set_child r cs fl fl' ts x n t :
  repr r (NFull cs fl) (TFull ts) -> repr false n t -> flag_ok r (TFull (<[x := t]> ts)) fl' ->
  repr r (NFull (<[x := n]> cs) fl') (TFull (<[x := t]> ts)).
Proof.
  intros R Rn F. inversion R as [| | |r' cs' fl1 ts' L RC _|]; subst. constructor; [|intros i c u Ec Eu|done].
  - by rewrite !length_insert.
  - destruct (decide (i = x)) as [->|].
    + pose proof (lookup_lt_Some _ _ _ Ec) as Lc. rewrite length_insert in Lc.
      rewrite list_lookup_insert_eq in Ec by lia. rewrite list_lookup_insert_eq in Eu by lia. by injection Ec as <-; injection Eu as <-.
    + rewrite list_lookup_insert_ne in Ec by done. rewrite list_lookup_insert_ne in Eu by done. by eapply RC.
Qed.

Lemma repr_child r cs fl ts x c t :
  repr r (NFull cs fl) (TFull ts) -> cs !! x = Some c -> ts !! x = Some t -> repr false c t.
Proof. intros R Ec Et. inversion R; subst. eauto. Qed.

Lemma repr_full_inv r cs fl t : repr r (NFull cs fl) t -> exists ts, t = TFull ts /\ length cs = length ts.
Proof. intros R. inversion R; subst. eauto. Qed.

Lemma tryGet_ok tr fuel r n t key pos b :
  repr r n t -> tslot b t -> keys_ok t -> kslot b (drop pos key) -> (pos <= length key)%nat ->
  (need n (drop pos key) <= fuel)%nat ->
  exists n' res, tryGet d tr fuel n key pos = Ok (tget t (drop pos key), n', res) /\ repr r n' t.
Proof.
  revert r n t pos b. induction fuel as [|fuel IH]; intros r n t pos b R T K Kr Hp Hf.
  { unfold need in Hf. destruct (is_hash n); lia. }
  destruct n as [|cs fl|k n0 fl|h|v]; cbn [tryGet].
  - inversion R; subst. eauto.
  - destruct (repr_full_inv _ _ _ _ R) as (ts & -> & L).
    destruct (full_slot b cs ts (drop pos key) T Kr L) as (x & rest & c & t & Er & Ec & Et & Kx & Tx & -> & C & Hx).
    assert (Ei : key !! pos = Some x) by (rewrite <- (Nat.add_0_r pos), <- lookup_drop, Er; done).
    assert (Ed : drop (pos + 1) key = rest) by (rewrite <- drop_drop, Er; done).
    unfold idx. rewrite Ei. cbn [obind]. rewrite Ec. rewrite Er in *. rewrite need_loaded in Hf by done. cbn [length] in Hf.
    destruct (IH false c t (pos + 1)%nat (is16 x)) as (n' & res & E & R').
    + by eapply repr_child.
    + done.
    + by eapply keys_ok_child.
    + by rewrite Ed.
    + apply lookup_lt_Some in Ei. lia.
    + rewrite Ed. pose proof (need_le c rest). lia.
    + rewrite E, Ed, tget_full, Et. cbn [obind]. eexists _, _. split; [done|]. destruct res; [|done].
      rewrite <- (list_insert_id ts (Z.to_nat x) t) by done.
      eapply repr_set_child; [done..|]. rewrite list_insert_id by done. apply flag_ok_gen. by inversion R.
  - inversion R as [| |r' k' n' fl' t0 R0 F| |]; subst.
    replace (len key - Z.of_nat pos) with (len (drop pos key)) by (rewrite length_drop; lia).
    rewrite short_test, tget_short. destruct (strip k (drop pos key)) as [rest|] eqn:Es; [|eauto].
    destruct (short_slot k t0 (drop pos key) b T Kr) as (r0 & b' & Er & Kr0 & T0 & -> & Hne & C); [by rewrite Es|].
    apply strip_Some in Es. rewrite Es in Er. apply app_inv_head in Er as ->.
    assert (Ed : drop (pos + length k) key = r0) by (rewrite <- drop_drop, Es; apply drop_app_length).
    pose proof (f_equal length Es) as Ls. rewrite length_drop, length_app in Ls.
    destruct k as [|k0 k]; [done|]. cbn [length] in *.
    destruct (IH false n0 t0 (pos + S (length k))%nat b') as (n' & res & E & R').
    + done.
    + done.
    + by eapply keys_ok_short.
    + by rewrite Ed.
    + lia.
    + rewrite Ed. rewrite Es, need_loaded, length_app in Hf by done. cbn [length] in Hf.
      pose proof (need_le n0 r0). lia.
    + rewrite E, Ed. cbn [obind]. eexists _, _. split; [done|]. destruct res; [|done].
      constructor; [done|by apply flag_ok_gen].
  - assert (C : canon t).
    { inversion R as [| | | |r' t' N]; subst. destruct b; [by destruct T as [->|(v & -> & _)]|].
      by destruct T as [->|]. }
    destruct (resolve_repr tr r h t (take pos key) (drop pos key) R C K) as (n & E & Rn & Hn).
    rewrite E. cbn [obind]. destruct (IH r n t pos b) as (n' & res & E' & R'); [done..| |].
    + rewrite need_loaded by done. unfold need in Hf. cbn in Hf. lia.
    + rewrite E'. cbn. eauto.
  - inversion R; subst. destruct b; [|by destruct T as [|C]; [|inversion C]].
    cbn in Kr. rewrite Kr. eauto.
Qed.

(** ** Insertion *)

Lemma ins_short b' k r v t0 t' :
  canon (TShort k t0) -> hexkey (k ++ r) -> kslot b' r -> ins_post b' r v t0 t' ->
  ins_post false (k ++ r) v (TShort k t0) (TShort k t').
Proof.
  intros C Hk Kr P. inversion C as [k' v0 Hk0 Hv|k' ts Hne Hn Ck|]; subst.
  - pose proof (hexkey_prefix_free k r Hk0 Hk) as ->. rewrite app_nil_r.
    destruct b'; [|by apply hexkey_nil in Kr]. destruct P as [S N G _].
    destruct S as [|(v' & -> & Hv')]; [done|]. pose proof (G [] eq_refl) as E.
    rewrite decide_True in E by done. cbn in E. injection E as ->. by apply ins_leaf.
  - destruct b'; [cbn in Kr; subst r; rewrite app_nil_r in Hk; by apply hexkey_not_nibbles in Hk|].
    by apply ins_ext.
Qed.

Definition nsub (tr : Trie) (r : bytes) (n : node) : node :=
  match r with [] => n | _ => NShort r n (newFlag tr) end.

Lemma insert_into_nil tr fuel prefix r val :
  (1 <= fuel)%nat -> insert d tr fuel NNil prefix r val = Ok (true, nsub tr r val).
Proof. intros. destruct fuel as [|fuel]; [lia|]. destruct r; [by destruct val|done]. Qed.

Lemma repr_nsub tr r n t rt : repr false n t -> repr rt (nsub tr r n) (tsub r t) \/ r = [].
Proof. intros R. destruct r; [by right|left]. constructor; [done|apply flag_ok_new]. Qed.

Lemma repr_nsub_child tr r n t : repr false n t -> repr false (nsub tr r n) (tsub r t).
Proof. intros R. destruct (repr_nsub tr r n t false R) as [?| ->]; done. Qed.

Lemma set_child_ok cs x (n : node) : (Z.to_nat x < length cs)%nat -> set_child cs x n = Ok (<[Z.to_nat x := n]> cs).
Proof. intros L. unfold set_child. by rewrite (proj2 (Nat.ltb_lt _ _)). Qed.

Lemma repr_branch tr rt x y a b ta tb :
  repr false a ta -> repr false b tb ->
  repr rt (NFull (<[Z.to_nat x := a]> (<[Z.to_nat y := b]> nil_children)) (newFlag tr)) (branch x y ta tb).
Proof.
  intros Ra Rb. unfold branch.
  assert (R0 : repr rt (NFull nil_children (newFlag tr)) (TFull (replicate 17 TNil))).
  { constructor; [done| |apply flag_ok_new]. intros i c t Ec Et. unfold nil_children in Ec.
    apply lookup_replicate in Ec as [-> _]. apply lookup_replicate in Et as [-> _]. constructor. }
  eapply repr_set_child; [|done|apply flag_ok_new].
  eapply (repr_set_child _ _ _ (newFlag tr)); [done|done|apply flag_ok_new].
Qed.

(** The two keys of a split, from [prefixLen]. *)
Lemma split_keys key k t :
  hexkey key -> canon (TShort k t) ->
  (exists r, key = k ++ r /\ prefixLen key k = length k) \/
  (exists p x ra y rb, key = p ++ x :: ra /\ k = p ++ y :: rb /\ x <> y /\ prefixLen key k = length p).
Proof.
  intros Hk C. destruct (prefixLen_spec key k) as (p & ra & rb & -> & -> & -> & [-> | [-> | (x & y & ra' & rb' & -> & -> & Hxy)]]).
  - left. rewrite app_nil_r in Hk. exists []. rewrite !app_nil_r.
    assert (rb = []) as ->; [|by rewrite app_nil_r].
    inversion C as [k' v Hkk Hv|k' ts Hne Hn Ck|]; subst;
      [by apply (hexkey_prefix_free p)|].
    apply Forall_app in Hn as [Hn _]. by apply hexkey_not_nibbles in Hk.
  - left. exists ra. by rewrite !app_nil_r.
  - right. by exists p, x, ra', y, rb'.
Qed.

Lemma insert_split tr fuel r k n0 fl t0 prefix p x ra y rb v :
  k = p ++ y :: rb -> x <> y -> repr r (NShort k n0 fl) (TShort k t0) -> canon (TShort k t0) ->
  hexkey (p ++ x :: ra) -> value_ok v -> prefixLen (p ++ x :: ra) k = length p -> (1 <= fuel)%nat ->
  exists n', insert d tr (S fuel) (NShort k n0 fl) prefix (p ++ x :: ra) (NValue v) = Ok (true, n') /\
    repr r n' (tsub p (branch x y (tsub ra (TVal v)) (tsub rb t0))).
Proof.
  intros -> Hxy R C Hk Hv Hl Hf. inversion R as [| |r' k' n' fl' t0' R0 F| |]; subst.
  destruct (sub_slot p y rb t0 C) as (_ & _ & _ & Hy).
  destruct (sub_slot p x ra (TVal v)) as (_ & _ & _ & Hx); [by constructor|].
  destruct (p ++ x :: ra) as [|key0 key'] eqn:Ek; [by destruct p|].
  cbn [insert]. rewrite Hl, <- Ek in *. clear Ek key0 key'.
  rewrite (proj2 (Nat.eqb_neq _ _)) by (rewrite length_app; cbn; lia).
  assert (Hd : forall w (q : bytes), drop (length p + 1) (p ++ w :: q) = q)
    by (intros; rewrite drop_app_ge by lia; by replace (length p + 1 - length p)%nat with 1%nat by lia).
  assert (Hi : forall w (q : bytes), (p ++ w :: q) !! length p = Some w)
    by (intros; by rewrite lookup_app_r, Nat.sub_diag by lia).
  unfold idx. rewrite Hi. cbn [obind]. rewrite insert_into_nil, Hd by done. cbn [obind].
  assert (Ln : length nil_children = 17%nat) by done.
  rewrite set_child_ok by lia. cbn [obind]. rewrite Hi. cbn [obind].
  rewrite insert_into_nil, Hd by done. cbn [obind].
  rewrite set_child_ok by (rewrite length_insert; lia). cbn [obind]. rewrite take_app_length.
  assert (Rb : forall rt, repr rt (NFull (<[Z.to_nat x := nsub tr ra (NValue v)]>
    (<[Z.to_nat y := nsub tr rb n0]> nil_children)) (newFlag tr)) (branch x y (tsub ra (TVal v)) (tsub rb t0)))
    by (intros; apply repr_branch; apply repr_nsub_child; [constructor|done]).
  destruct p as [|p0 p]; cbn [length Nat.eqb tsub]; (eexists; split; [done|]); [done|].
  constructor; [done|apply flag_ok_new].
Qed.

Lemma insert_ok tr fuel r n t prefix key v b :
  repr r n t -> tslot b t -> keys_ok t -> kslot b key -> value_ok v -> (need n key <= fuel)%nat ->
  exists dirty n' t', insert d tr fuel n prefix key (NValue v) = Ok (dirty, n') /\
    repr r n' t' /\ ins_post b key v t t' /\ (dirty = false -> t' = t).
Proof.
  revert r n t prefix key b. induction fuel as [|fuel IH]; intros r n t prefix key b R T K Kr Hv Hf.
  { unfold need in Hf. destruct (is_hash n); lia. }
  destruct b.
  { cbn in Kr. subst key. cbn [insert]. pose proof (ins_value v t Hv T) as P.
    destruct T as [->|(w & -> & Hw)].
    - apply repr_nil_inv in R as ->. eexists _, _, _. split; [done|]. split; [constructor|by split].
    - inversion R as [| | | |r' t' N]; subst; [|discriminate]. eexists _, _, _. split; [done|].
      split; [constructor|]. split; [done|]. intros E. apply negb_false_iff, bool_decide_eq_true in E. congruence. }
  destruct n as [|cs fl|k n0 fl|h|w].
  - inversion R; subst. rewrite insert_into_nil by lia. destruct key; [by apply hexkey_nil in Kr|].
    eexists _, _, _. split; [done|]. split; [constructor; [constructor|apply flag_ok_new]|].
    split; [by apply ins_nil|done].
  - destruct (repr_full_inv _ _ _ _ R) as (ts & -> & L).
    destruct (full_slot false cs ts key T Kr L) as (x & rest & c & t & -> & Ec & Et & Kx & Tx & _ & C & Hx).
    rewrite need_loaded in Hf by done. cbn [length] in Hf. cbn [insert]. rewrite Ec.
    destruct (IH false c t (prefix ++ [x]) rest (is16 x)) as (dirty & n' & t' & E & R' & P & Hd);
      [by eapply repr_child|done|by eapply keys_ok_child|done|done|pose proof (need_le c rest); lia|].
    rewrite E. cbn [obind]. pose proof (ins_branch ts x rest v t t' C Kr Et P) as P'.
    destruct dirty; cbn [negb].
    + rewrite set_child_ok by by eapply lookup_lt_Some. cbn [obind]. eexists _, _, _. split; [done|].
      split; [eapply repr_set_child; [done..|apply flag_ok_new]|done].
    + rewrite (Hd eq_refl), list_insert_id in P' by done. eexists _, _, _. split; [done|].
      split; [exact R|]. split; [exact P'|done].
  - inversion R as [| |r' k' n' fl' t0 R0 F| |]; subst. destruct T as [|C]; [done|].
    destruct (split_keys key k t0 Kr C) as [(rest & -> & El)|(p & x & ra & y & rb & -> & Ek & Hxy & El)].
    + destruct (short_slot k t0 (k ++ rest) false) as (r0 & b' & Er & Kr0 & T0 & _ & Hne & _);
        [by right|done|by rewrite strip_app|]. apply app_inv_head in Er as <-.
      destruct k as [|k0 k]; [done|]. rewrite need_loaded, length_app in Hf by done. cbn [length] in Hf.
      cbn [insert]. rewrite El, Nat.eqb_refl, take_app_length, drop_app_length.
      destruct (IH false n0 t0 (prefix ++ (k0 :: k)) rest b') as (dirty & n' & t' & E & R' & P & Hd);
        [done..|by eapply keys_ok_short|done|done|pose proof (need_le n0 rest); lia|].
      cbn [app] in *. rewrite E. cbn [obind].
      pose proof (ins_short b' (k0 :: k) rest v t0 t' C Kr Kr0 P) as P'.
      destruct dirty; cbn [negb]; eexists _, _, _; (split; [done|]).
      * split; [|split; [exact P'|done]]. constructor; [done|apply flag_ok_new].
      * rewrite (Hd eq_refl) in P'. split; [exact R|split; [exact P'|done]].
    + rewrite need_loaded, length_app in Hf by done. cbn [length] in Hf.
      destruct (insert_split tr fuel r k n0 fl t0 prefix p x ra y rb v) as (n' & E & R'); [done..|lia|].
      eexists _, _, _. split; [done|]. split; [done|]. split; [|done]. subst k. by apply ins_split.
  - assert (C : canon t) by (inversion R as [| | | |r' t' N]; subst; by destruct T as [->|]).
    destruct (resolve_repr tr r h t prefix key R C K) as (n & E & Rn & Hn).
    destruct key as [|x key]; [by apply hexkey_nil in Kr|]. cbn [insert]. rewrite E. cbn [obind].
    destruct (IH r n t prefix (x :: key) false) as (dirty & n' & t' & E' & R' & P & Hd); [done..| |].
    + rewrite need_loaded by done. unfold need in Hf. cbn [is_hash] in Hf. lia.
    + rewrite E'. cbn [obind]. destruct dirty; cbn [negb]; eexists _, _, t'; (split; [done|]); [done|].
      rewrite (Hd eq_refl) in *. split; [exact Rn|]. split; [exact P|done].
  - inversion R; subst. by destruct T as [|C]; [|inversion C].
Qed.

(** ** Deletion *)

Lemma only_child_found cs i p : 0 <= p -> only_child cs i p = if forallb is_nil cs then p else -2.
Proof.
  revert i. induction cs as [|c cs IH]; intros i Hp; [done|]. cbn.
  destruct (is_nil c); cbn; [by apply IH|]. by rewrite (proj2 (Z.eqb_neq p (-1))) by lia.
Qed.

Lemma forallb_is_nil cs : forallb is_nil cs = true <-> forall j c, cs !! j = Some c -> is_nil c = true.
Proof.
  rewrite forallb_forall. split.
  - intros H1 j c E. apply H1, list_elem_of_In. by eapply list_elem_of_lookup_2.
  - intros H1 c Hc. apply list_elem_of_In, list_elem_of_lookup_1 in Hc as [j E]. eauto.
Qed.

Lemma only_child_spec cs i :
  0 <= i ->
  let pos := only_child cs i (-1) in
  (pos = -1 /\ forall j c, cs !! j = Some c -> is_nil c = true) \/
  (exists j c, pos = i + Z.of_nat j /\ cs !! j = Some c /\ is_nil c = false /\
     forall j' c', cs !! j' = Some c' -> j' <> j -> is_nil c' = true) \/
  (pos = -2 /\ exists j j' c c', j <> j' /\ cs !! j = Some c /\ cs !! j' = Some c' /\
     is_nil c = false /\ is_nil c' = false).
Proof.
  revert i. induction cs as [|c cs IH]; intros i Hi; [by left|]. cbn [only_child].
  destruct (is_nil c) eqn:Ec.
  - destruct (IH (i + 1) ltac:(lia)) as [[E H1]|[(j & c' & E & Ej & Hc & H1)|(E & j & j' & c1 & c2 & Hj & E1 & E2 & ?)]].
    + left. split; [done|]. intros [|j] c' Ec'; [by injection Ec' as <-|by eapply H1].
    + right. left. exists (S j), c'. split; [lia|]. repeat split; try done.
      intros [|j'] c2 E2 Hne; [by injection E2 as <-|]. eapply H1; [done|lia].
    + right. right. split; [done|]. exists (S j), (S j'), c1, c2. repeat split; try lia; tauto.
  - change (-1 =? -1) with true. cbv iota. rewrite only_child_found by done.
    destruct (forallb is_nil cs) eqn:F.
    + right. left. exists 0%nat, c. rewrite forallb_is_nil in F. repeat split; try done; [lia|].
      intros [|j'] c' E' ?; [done|by eapply F].
    + right. right. split; [done|]. apply not_true_iff_false in F. rewrite forallb_is_nil in F.
      assert (X : exists j c', cs !! j = Some c' /\ is_nil c' = false).
      { clear -F. induction cs as [|c cs IH]; [by destruct F|]. destruct (is_nil c) eqn:Ec.
        - destruct IH as (j & c' & ? & ?); [|by exists (S j), c'].
          intros G. apply F. intros [|j] c' E; [by injection E as <-|by eapply G].
        - by exists 0%nat, c. }
      destruct X as (j & c' & E' & Hc'). by exists 0%nat, (S j), c, c'.
Qed.

Definition njoin (tr : Trie) (k : bytes) (n : node) : node :=
  match n with NShort ck cv _ => NShort (k ++ ck) cv (newFlag tr) | _ => NShort k n (newFlag tr) end.

Lemma repr_njoin tr rt k n t :
  is_hash n = false -> repr false n t -> repr rt (njoin tr k n) (tjoin k t).
Proof.
  intros Hh R. inversion R as [| |r k' n' fl t' R' F|r cs fl ts L RC F|]; subst; cbn [njoin tjoin]; [..|done].
  all: apply repr_short; [try done; by constructor|apply flag_ok_new].
Qed.

Lemma absent_slot b key t : kslot b key -> del_post b key t t -> tget t key = None.
Proof. intros K P. rewrite (del_get _ _ _ _ P) by done. by rewrite decide_True. Qed.

Lemma del_keys_ok b key t t' : del_post b key t t' -> b = false -> keys_ok t -> keys_ok t'.
Proof.
  intros P -> K k v Hk E. rewrite (del_get _ _ _ _ P) in E by done. case_decide; [done|by eapply K].
Qed.

(** The tail of the branch case: what is left after a child was replaced. *)
Lemma delete_collapse tr r cs ts x rest t t' nn prefix :
  canon (TFull ts) -> hexkey (x :: rest) -> length cs = length ts -> keys_ok (TFull ts) ->
  (forall i c u, cs !! i = Some c -> ts !! i = Some u -> repr false c u) ->
  ts !! Z.to_nat x = Some t -> repr false nn t' -> del_post (is16 x) rest t t' ->
  exists n' u', (let* cs := set_child cs x nn in
    let n := NFull cs (newFlag tr) in
    let pos := only_child cs 0 (-1) in
    if 0 <=? pos then
      match cs !! Z.to_nat pos with
      | None => Panic
      | Some c =>
          let* short := (if negb (pos =? 16) then
                           let* cnode := resolve d tr c prefix [pos] in
                           match cnode with
                           | NShort ck cv _ => Ok (Some (NShort (pos :: ck) cv (newFlag tr)))
                           | _ => Ok None
                           end
                         else Ok None) in
          match short with
          | Some s => Ok (true, s)
          | None => Ok (true, NShort [pos] c (newFlag tr))
          end
      end
    else Ok (true, n)) = Ok (true, n') /\ repr r n' u' /\ del_post false (x :: rest) (TFull ts) u' /\ is_hash n' = false.
Proof.
  intros C Hk L K RC Et Rn P. pose proof (lookup_lt_Some _ _ _ Et) as Lx.
  destruct (hexkey_kslot x rest Hk) as [_ Hx].
  rewrite set_child_ok by lia. cbn [obind].
  set (cs' := <[Z.to_nat x := nn]> cs). set (ts' := <[Z.to_nat x := t']> ts).
  assert (RC' : forall i c u, cs' !! i = Some c -> ts' !! i = Some u -> repr false c u).
  { intros i c u Ec Eu. assert (R : repr false (NFull cs (newFlag tr)) (TFull ts))
      by (constructor; [done|done|apply flag_ok_new]).
    eapply (repr_child false cs' (newFlag tr) ts'); [|done..]. eapply repr_set_child; [done..|apply flag_ok_new]. }
  assert (L' : length cs' = length ts') by (subst cs' ts'; by rewrite !length_insert).
  assert (Hnn : forall i c, cs' !! i = Some c -> exists u, ts' !! i = Some u /\ (is_nil c = false <-> u <> TNil)).
  { intros i c Ec. destruct (lookup_lt_is_Some_2 ts' i) as [u Eu]; [rewrite <- L'; by eapply lookup_lt_Some|].
    exists u. split; [done|]. rewrite <- (repr_is_nil _ _ _ (RC' _ _ _ Ec Eu)). by destruct (is_nil c). }
  destruct (only_child_spec cs' 0 ltac:(done)) as [[_ Hall]|[(j & c & -> & Ec & Hc & Hone)|(-> & j & j' & c & c' & Hjj & Ec & Ec' & Hc & Hc')]].
  - destruct (del_branch_one ts x t' C) as (i & u & Eu & Hu). fold ts' in Eu.
    destruct (lookup_lt_is_Some_2 cs' i) as [c Ec]; [rewrite L'; by eapply lookup_lt_Some|].
    destruct (Hnn i c Ec) as (u' & Eu' & Hn). rewrite Eu in Eu'. injection Eu' as <-.
    apply Hn in Hu. by rewrite (Hall i c Ec) in Hu.
  - cbv zeta. rewrite Z.add_0_l, Nat2Z.id, Ec. destruct (Hnn j c Ec) as (u & Eu & Hu). apply Hu in Hc.
    assert (P' : del_post false (x :: rest) (TFull ts) (tjoin [Z.of_nat j] u)).
    { eapply (del_branch_collapse ts x rest t t'); [done..|lia|by rewrite Nat2Z.id|done|].
      rewrite Nat2Z.id. intros i w Ew Hi. destruct (lookup_lt_is_Some_2 cs' i) as [ci Eci]; [rewrite L'; by eapply lookup_lt_Some|].
      apply (repr_is_nil _ _ _ (RC' _ _ _ Eci Ew)). by eapply Hone. }
    rewrite (proj2 (Z.leb_le 0 (Z.of_nat j))) by lia.
    destruct (slots_replace ts x t t' C Et Hx (del_slot _ _ _ _ P)) as [_ S]. specialize (S j u Eu).
    pose proof (RC' _ _ _ Ec Eu) as Rc. unfold tslot, is16 in S. destruct (Z.eqb_spec (Z.of_nat j) 16) as [Ej|Ej]; cbn [negb].
    + destruct S as [|(v & -> & _)]; [done|]. inversion Rc as [| | | |r' t2 N]; subst; [|discriminate].
      cbn [obind]. eexists _, _. split; [done|]. split; [|split; [exact P'|done]].
      constructor; [constructor|apply flag_ok_new].
    + destruct S as [|Cu]; [done|].
      assert (Ku : keys_ok u).
      { subst ts'. destruct (decide (j = Z.to_nat x)) as [->|].
        - rewrite list_lookup_insert_eq in Eu by done. injection Eu as <-.
          eapply del_keys_ok; [exact P| |by eapply keys_ok_child]. unfold is16. rewrite Z2Nat.id in Ej by lia. by apply Z.eqb_neq.
        - rewrite list_lookup_insert_ne in Eu by done. by eapply keys_ok_child. }
      assert (Rs : exists cn, resolve d tr c prefix [Z.of_nat j] = Ok cn /\ repr false cn u /\ is_hash cn = false /\ (is_hash c = false -> cn = c)).
      { destruct (is_hash c) eqn:Eh; [|exists c; by destruct c].
        destruct c; try discriminate. destruct (resolve_repr tr false h u prefix [Z.of_nat j]) as (cn & ? & ? & ?); [done..|].
        by exists cn. }
      destruct Rs as (cn & Er & Rcn & Hcn & _). rewrite Er. cbn [obind].
      inversion Rcn as [| |r' ck cv fl u0 R0 F|r' cs1 fl ts1 L1 RC1 F|]; subst;
        [by inversion Cu|by inversion Cu| | |done].
      * cbn [obind]. eexists _, _. split; [done|]. split; [|split; [exact P'|done]].
        apply repr_short; [done|apply flag_ok_new].
      * cbn [obind]. eexists _, _. split; [done|]. split; [|split; [exact P'|done]].
        apply repr_short; [exact Rc|apply flag_ok_new].
  - cbv zeta. change (0 <=? -2) with false. eexists _, _. split; [done|]. split; [|split; [eapply (del_branch_keep ts x rest t t'); try done|done]].
    + constructor; [done|done|apply flag_ok_new].
    + destruct (Hnn j c Ec) as (u & Eu & Hu), (Hnn j' c' Ec') as (u' & Eu' & Hu').
      exists j, j', u, u'. repeat split; tauto.
Qed.

Lemma delete_ok tr fuel r n t prefix key b :
  repr r n t -> tslot b t -> keys_ok t -> kslot b key -> (need n key <= fuel)%nat ->
  exists dirty n' t', delete d tr fuel n prefix key = Ok (dirty, n') /\
    repr r n' t' /\ del_post b key t t' /\ (dirty = false -> t' = t) /\ (dirty = true -> is_hash n' = false).
Proof.
  revert r n t prefix key b. induction fuel as [|fuel IH]; intros r n t prefix key b R T K Kr Hf.
  { unfold need in Hf. destruct (is_hash n); lia. }
  destruct n as [|cs fl|k n0 fl|h|w].
  - inversion R; subst. eexists _, _, _. split; [done|]. split; [done|]. split; [by apply del_absent|done].
  - destruct (repr_full_inv _ _ _ _ R) as (ts & -> & L).
    destruct (full_slot b cs ts key T Kr L) as (x & rest & c & t & -> & Ec & Et & Kx & Tx & -> & C & Hx).
    rewrite need_loaded in Hf by done. cbn [length] in Hf. cbn [delete]. rewrite Ec.
    destruct (IH false c t (prefix ++ [x]) rest (is16 x)) as (dirty & n' & t' & E & R' & P & Hd & _);
      [by eapply repr_child|done|by eapply keys_ok_child|done|pose proof (need_le c rest); lia|].
    rewrite E. cbn [obind]. destruct dirty; cbn [negb].
    + destruct (delete_collapse tr r cs ts x rest t t' n' prefix) as (n2 & u' & E2 & R2 & P2 & H2);
        [exact C|exact Kr|exact L|exact K|intros; by eapply repr_child|exact Et|exact R'|exact P|].
      eexists _, _, _. split; [exact E2|]. by split.
    + rewrite (Hd eq_refl) in P. apply absent_slot in P; [|done].
      eexists _, _, _. split; [done|]. split; [exact R|]. split; [|done].
      apply del_absent; [by right|]. by rewrite tget_full, Et.
  - inversion R as [| |r' k' n' fl' t0 R0 F| |]; subst. destruct b; [by destruct T as [|(v & ? & _)]|].
    destruct T as [|C]; [done|]. cbn [delete].
    destruct (split_keys key k t0 Kr C) as [(rest & -> & El)|(p & x & ra & y & rb & -> & -> & Hxy & El)].
    + rewrite El, (proj2 (Nat.ltb_ge _ _)) by lia.
      destruct (short_slot k t0 (k ++ rest) false) as (r0 & b' & Er & Kr0 & T0 & _ & Hne & _);
        [by right|done|by rewrite strip_app|]. apply app_inv_head in Er as <-.
      inversion C as [k' v Hk Hv|k' ts Hne' Hn Ck|]; subst.
      * pose proof (hexkey_prefix_free k rest Hk Kr) as ->. rewrite app_nil_r, Nat.eqb_refl.
        eexists _, _, _. split; [done|]. split; [constructor|]. split; [apply del_leaf|done].
      * assert (Hr : rest <> []) by (intros ->; rewrite app_nil_r in Kr; by apply hexkey_not_nibbles in Kr).
        destruct rest as [|x rest]; [done|]. rewrite length_app. cbn [length].
        rewrite (proj2 (Nat.eqb_neq _ _)), take_app_length, drop_app_length by lia.
        destruct k as [|k0 k]; [done|]. rewrite need_loaded, length_app in Hf by done. cbn [length] in Hf.
        destruct b'; [done|].
        destruct (IH false n0 (TFull ts) (prefix ++ (k0 :: k)) (x :: rest) false) as (dirty & n' & t' & E & R' & P & Hd & Hh);
          [done..|by eapply keys_ok_short|done|pose proof (need_le n0 (x :: rest)); cbn [length] in *; lia|].
        rewrite E. cbn [obind]. destruct dirty; cbn [negb].
        -- exists true, (njoin tr (k0 :: k) n'), (tjoin (k0 :: k) t').
           split; [by destruct n'|]. split; [by apply repr_njoin; [apply Hh|]|].
           split; [by apply del_ext|]. split; [done|]. intros _. by destruct n'.
        -- rewrite (Hd eq_refl) in P. apply absent_slot in P; [|done].
           eexists _, _, _. split; [done|]. split; [exact R|]. split; [|done].
           apply del_absent; [by right|]. by rewrite tget_short, strip_app.
    + rewrite El, (proj2 (Nat.ltb_lt _ _)) by (rewrite length_app; cbn; lia).
      eexists _, _, _. split; [done|]. split; [exact R|]. split; [|done].
      apply del_absent; [by right|]. rewrite tget_short, strip_app_l, strip_app. cbn [strip].
      by rewrite (proj2 (Z.eqb_neq y x)) by lia.
  - assert (C : canon t) by (inversion R as [| | | |r' t' N]; subst; destruct b;
      [by destruct T as [->|(v & -> & _)]|by destruct T as [->|]]).
    destruct (resolve_repr tr r h t prefix key R C K) as (n & E & Rn & Hn).
    cbn [delete]. rewrite E. cbn [obind].
    destruct (IH r n t prefix key b) as (dirty & n' & t' & E' & R' & P & Hd & Hh); [done..| |].
    + rewrite need_loaded by done. unfold need in Hf. cbn [is_hash] in Hf. lia.
    + rewrite E'. cbn [obind]. destruct dirty; cbn [negb]; eexists _, _, t'; (split; [done|]); [done|].
      rewrite (Hd eq_refl) in *. split; [exact Rn|]. split; [exact P|done].
  - inversion R; subst. destruct b; [|by destruct T as [|C]; [|inversion C]]. cbn in Kr. subst key.
    eexists _, _, _. split; [done|]. split; [constructor|]. split; [by apply del_value|done].
Qed.
End Repr.

(** ** The operations on byte keys *)

(** Keys of the tree are keys of the exported operations. *)
Definition byte_key (key : bytes) : Prop := bytes_ok key /\ len key < 2 ^ 31.
Definition byte_keys (t : tree) : Prop :=
  forall k v, hexkey k -> tget t k = Some v -> exists b, byte_key b /\ k = compactHexDecode b.

Definition content (t : tree) (key : bytes) : option bytes := tget t (compactHexDecode key).

Section TrieOk.
Context `{Hash256} `{Database D} (d : D).

Record trie_ok (tr : Trie) (t : tree) : Prop := {
  ok_repr : repr d true (root tr) t;
  ok_canon : canon_root t;
  ok_keys : byte_keys t
}.

Lemma byte_keys_ok t : byte_keys t -> keys_ok t.
Proof.
  intros B k v Hk E. destruct (B k v Hk E) as (b & (Hb & L) & ->). unfold key_ok, compactHexDecode.
  fold (unpack b). rewrite length_app, length_unpack. cbn [length]. lia.
Qed.

Lemma hexkey_of key : byte_key key -> hexkey (compactHexDecode key).
Proof. intros [Hb _]. by apply compactHexDecode_hexkey. Qed.

Lemma need_enough n key : (need n key <= enough key)%nat.
Proof. apply need_le. Qed.

Lemma TryGet_ok tr t key :
  trie_ok tr t -> byte_key key ->
  exists tr', TryGet d tr key = Ok (content t key, tr') /\ trie_ok tr' t /\
    cachegen tr' = cachegen tr /\ cachelimit tr' = cachelimit tr.
Proof.
  intros [R C B] Hk. unfold TryGet.
  destruct (tryGet_ok d tr (enough (compactHexDecode key)) true (root tr) t (compactHexDecode key) 0 false)
    as (n' & res & E & R'); [done..|by apply byte_keys_ok|by apply hexkey_of|lia|apply need_enough|].
  cbn [drop] in E. rewrite E. cbn [obind]. eexists. split; [done|]. destruct res; by repeat split.
Qed.

Lemma trie_ok_delete tr t key :
  trie_ok tr t -> byte_key key ->
  exists dirty n t', delete d tr (enough (compactHexDecode key)) (root tr) [] (compactHexDecode key) = Ok (dirty, n) /\
    trie_ok (set_root tr n) t' /\
    forall k, byte_key k -> content t' k = if decide (k = key) then None else content t k.
Proof.
  intros [R C B] Hk.
  destruct (delete_ok d tr (enough (compactHexDecode key)) true (root tr) t [] (compactHexDecode key) false)
    as (dirty & n & t' & E & R' & P & _); [done..|by apply byte_keys_ok|by apply hexkey_of|apply need_enough|].
  exists dirty, n, t'. split; [done|]. split; [split; [done|apply (del_slot _ _ _ _ P)|]|].
  - intros k v Hk' Ek. rewrite (del_get _ _ _ _ P) in Ek by done. case_decide; [done|by eapply B].
  - intros k Hk'. unfold content. rewrite (del_get _ _ _ _ P) by by apply hexkey_of.
    destruct (decide (k = key)) as [->|Hne]; [by rewrite decide_True|].
    rewrite decide_False; [done|]. by intros ?%compactHexDecode_inj.
Qed.

Lemma TryDelete_ok tr t key :
  trie_ok tr t -> byte_key key ->
  exists n t', TryDelete d tr key = Ok (set_root tr n) /\ trie_ok (set_root tr n) t' /\
    forall k, byte_key k -> content t' k = if decide (k = key) then None else content t k.
Proof.
  intros T Hk. destruct (trie_ok_delete tr t key T Hk) as (dirty & n & t' & E & T' & G).
  exists n, t'. unfold TryDelete. rewrite E. by split.
Qed.

Lemma TryUpdate_ok tr t key value :
  trie_ok tr t -> byte_key key -> bytes_ok value -> len value < 2 ^ 32 ->
  exists n t', TryUpdate d tr key value = Ok (set_root tr n) /\ trie_ok (set_root tr n) t' /\
    forall k, byte_key k ->
      content t' k = if decide (k = key) then (if decide (value = []) then None else Some value) else content t k.
Proof.
  intros T Hk Hv Lv. unfold TryUpdate. destruct (decide (value = [])) as [->|Hne].
  { destruct (trie_ok_delete tr t key T Hk) as (dirty & n & t' & E & T' & G).
    exists n, t'. change (len [] =? 0) with true. cbn [negb]. rewrite E. by split. }
  destruct T as [R C B].
  assert (Hvo : value_ok value) by done.
  destruct (insert_ok d tr (enough (compactHexDecode key)) true (root tr) t [] (compactHexDecode key) value false)
    as (dirty & n & t' & E & R' & P & _); [done..|by apply byte_keys_ok|by apply hexkey_of|done|apply need_enough|].
  exists n, t'. rewrite (proj2 (Z.eqb_neq _ _)) by (destruct value; [done|cbn; lia]). cbn [negb]. rewrite E.
  split; [done|]. split; [split; [done|apply (ins_slot _ _ _ _ _ P)|]|].
  - intros k v Hk' Ek. rewrite (ins_get _ _ _ _ _ P) in Ek by done.
    case_decide as Ed; [subst; eauto|by eapply B].
  - intros k Hk'. unfold content. rewrite (ins_get _ _ _ _ _ P) by by apply hexkey_of.
    destruct (decide (k = key)) as [->|]; [by rewrite decide_True|].
    rewrite decide_False; [done|]. by intros ?%compactHexDecode_inj.
Qed.

(** Tries with the same content are the same tree. *)
Lemma content_unique t1 t2 :
  canon_root t1 -> canon_root t2 -> byte_keys t1 -> byte_keys t2 ->
  (forall key, byte_key key -> content t1 key = content t2 key) -> t1 = t2.
Proof.
  intros C1 C2 B1 B2 E. apply canon_root_unique; [done..|]. intros k Hk.
  assert (G : forall t t', byte_keys t -> (forall key, byte_key key -> content t key = content t' key) ->
            forall v, tget t k = Some v -> tget t' k = Some v).
  { intros t t' B E' v Ek. destruct (B k v Hk Ek) as (b & Hb & ->). change (content t' b = Some v). by rewrite <- (E' b Hb). }
  destruct (tget t1 k) as [v1|] eqn:E1; [symmetry; by apply (G t1 t2 B1 E)|].
  destruct (tget t2 k) as [v2|] eqn:E2; [|done].
  rewrite <- E1. apply (G t2 t1 B2); [|done]. intros. by rewrite E.
Qed.
End TrieOk.
