(* ===== verification/TrieHash.v ===== *)
(** * Hashing and committing (src/trie/hasher.go, and the end of src/trie/trie.go)

    The hasher replaces nodes by their hashes, writes them to a database in
    commit mode and keeps the hashes in the node cache.  A failing [Put] stops
    a commit; the writes before it stay. *)

From S2P Require Import Prelude RlpEncode RlpRaw TrieEncoding TrieNode TrieTree TrieStore Helper Database Trie TrieSpec.

Inductive hash_error := PutFailed.

Section Hasher.
Context `{Hash256} `{Writer W} (hgen hlimit : Z).

(** Results carry the writer, absent when only hashing. *)
Definition hres (A : Type) : Type := option W * outcome hash_error A.

Definition with_flags (n : node) (f : nodeFlag -> nodeFlag) : node :=
  match n with
  | NShort k v fl => NShort k v (f fl)
  | NFull cs fl => NFull cs (f fl)
  | _ => n
  end.

(** [store]: the reference to a collapsed node. *)
Definition store (n : node) (db : option W) (force : bool) : hres node :=
  match n with
  | NHash _ | NNil => (db, Ok n)
  | _ =>
      match encode_node n with
      | Ok tmp =>
          if (len tmp <? 32) && negb force then (db, Ok n)
          else
            let hash := match fst (cache n) with Some h => h | None => Keccak256 tmp end in
            match db with
            | Some w =>
                let '(w, ok) := db_put w hash tmp in
                (Some w, if ok : bool then Ok (NHash hash) else Err PutFailed)
            | None => (None, Ok (NHash hash))
            end
      | _ => (db, Panic)
      end
  end.

Section Children.
Context (rec : node -> option W -> bool -> hres (node * node)).

(** The loop over the first sixteen children. *)
Fixpoint hash_list (cs : list node) (db : option W) : hres (list node * list node) :=
  match cs with
  | [] => (db, Ok ([], []))
  | c :: cs =>
      let '(db, r) := (if is_nil c then (db, Ok (NValue [], c)) else rec c db false) in
      match r with
      | Ok (a, b) =>
          let '(db, rs) := hash_list cs db in
          match rs with
          | Ok (collapsed, cached) => (db, Ok (a :: collapsed, b :: cached))
          | Err e => (db, Err e)
          | Panic => (db, Panic)
          end
      | Err e => (db, Err e)
      | Panic => (db, Panic)
      end
  end.

Definition not_nil (n : node) : node := if is_nil n then NValue [] else n.

(** Collapsed and cached form of the node. *)
Definition hashChildren_ (original : node) (db : option W) : hres (node * node) :=
  match original with
  | NShort Key Val fl =>
      match compactEncode Key with
      | Ok ck =>
          let '(db, r) := match Val with
                          | NValue _ => (db, Ok (Val, Val))
                          | _ => rec Val db false
                          end in
          match r with
          | Ok (a, b) => (db, Ok (NShort ck (not_nil a) fl, NShort Key b fl))
          | Err e => (db, Err e)
          | Panic => (db, Panic)
          end
      | _ => (db, Panic)
      end
  | NFull Children fl =>
      let '(db, r) := hash_list (take 16 Children) db in
      match r with
      | Ok (collapsed, cached) =>
          match Children !! 16%nat with
          | Some v => (db, Ok (NFull (collapsed ++ [not_nil v]) fl, NFull (cached ++ [v]) fl))
          | None => (db, Panic)
          end
      | Err e => (db, Err e)
      | Panic => (db, Panic)
      end
  | _ => (db, Ok (original, original))
  end.
End Children.

(** Recursion over the loaded part of the trie; [node_depth] is enough fuel. *)
Fixpoint hash_ (fuel : nat) (n : node) (db : option W) (force : bool) : hres (node * node) :=
  match fuel with
  | O => (db, Panic)
  | S fuel =>
      if is_nil n then (db, Panic)
      else
        let walk :=
          let '(db, r) := hashChildren_ (hash_ fuel) n db in
          match r with
          | Ok (collapsed, cached) =>
              let '(db, r) := store collapsed db force in
              match r with
              | Ok hashed =>
                  let cachedHash := match hashed with NHash h => Some h | _ => None end in
                  (db, Ok (hashed, with_flags cached (fun fl =>
                     {| fhash := cachedHash; fgen := fgen fl;
                        fdirty := match db with Some _ => false | None => fdirty fl end |})))
              | Err e => (db, Err e)
              | Panic => (db, Panic)
              end
          | Err e => (db, Err e)
          | Panic => (db, Panic)
          end in
        match cache n with
        | (Some h, dirty) =>
            match db with
            | None => (db, Ok (NHash h, n))
            | Some _ =>
                if canUnload n hgen hlimit then (db, Ok (NHash h, NHash h))
                else if negb dirty then (db, Ok (NHash h, n))
                else walk
            end
        | (None, _) => walk
        end
  end.

Fixpoint node_depth (n : node) : nat :=
  match n with
  | NFull cs _ => S (foldr (fun c m => Nat.max (node_depth c) m) O cs)
  | NShort _ v _ => S (node_depth v)
  | _ => 1
  end.

Definition hash (n : node) (db : option W) (force : bool) : hres (node * node) :=
  hash_ (node_depth n) n db force.
Definition hashChildren (n : node) (db : option W) : hres (node * node) :=
  hashChildren_ (hash_ (node_depth n)) n db.
End Hasher.

Section TrieRoot.
Context `{Hash256}.

Definition hashRoot `{Writer W} (tr : Trie) (db : option W) : option W * outcome hash_error (node * node) :=
  match root tr with
  | NNil => (db, Ok (NHash emptyRoot, NNil))
  | n => hash (cachegen tr) (cachelimit tr) n db true
  end.

(** The type assertion [hash.(hashNode)].  No database is passed to the hasher,
    so the type [W] of databases does not matter. *)
Definition Hash (W : Type) `{Writer W} (tr : Trie) : outcome hash_error (bytes * Trie) :=
  let '(_, r) := hashRoot (W := W) tr None in
  match r with
  | Ok (NHash h, cached) => Ok (BytesToHash h, set_root tr cached)
  | _ => Panic
  end.

Definition CommitTo `{Writer W} (tr : Trie) (db : W) : option W * outcome hash_error (bytes * Trie) :=
  let '(db, r) := hashRoot tr (Some db) in
  (db, match r with
       | Ok (NHash h, cached) =>
           Ok (BytesToHash h, {| root := cached; originalRoot := originalRoot tr;
                                 cachegen := u16 (cachegen tr + 1); cachelimit := cachelimit tr |})
       | Ok _ => Panic
       | Err e => Err e
       | Panic => Panic
       end).
End TrieRoot.

(** ** What hashing computes *)

Section HashOk.
Context `{Hash256} (U : bytes -> Prop) (commit : bool) (Ucf : commit = true -> collision_free U).
Context `{DatabaseLaws D}.

(** The entries of [d] that matter survive in [d']; a commit also leaves keys
    that are no hashes alone. *)
Definition keeps (d d' : D) : Prop :=
  forall e, U e -> db_get d (Keccak256 e) = Some e -> db_get d' (Keccak256 e) = Some e.

Definition grow (d d' : D) : Prop :=
  keeps d d' /\ (forall k, length k <> 32%nat -> db_get d' k = db_get d k).

Lemma grow_refl d : grow d d.
Proof. split; [by intros e|done]. Qed.

Lemma grow_trans d1 d2 d3 : grow d1 d2 -> grow d2 d3 -> grow d1 d3.
Proof. intros [G1 G1'] [G2 G2']. split; [intros e He; eauto|]. intros k Hk. by rewrite G2', G1'. Qed.

Lemma encs_U t : encs U t -> is_node t = true -> U (tenc t).
Proof. by destruct 1. Qed.

Lemma kept_keeps d d' t : keeps d d' -> U (tenc t) -> kept d t -> kept d' t.
Proof. intros G HU K. by apply G. Qed.

Lemma below_keeps d d' t : keeps d d' -> encs U t -> below d t -> below d' t.
Proof.
  intros G E B. induction B as [|v|k t B IH K|ts B IH K]; try constructor.
  - inversion E; subst. auto.
  - intros N L. inversion E; subst. eapply kept_keeps; [done|by apply encs_U|by apply K].
  - intros i t Et. inversion E; subst. eauto.
  - intros i t Et N L. inversion E; subst. eapply kept_keeps; [done|apply encs_U; eauto|by eapply K].
Qed.

Lemma stored_keeps d d' t : keeps d d' -> encs U t -> is_node t = true -> stored d t -> stored d' t.
Proof.
  intros G E N [K B]. split; [by eapply kept_keeps; [|apply encs_U|]|by eapply below_keeps].
Qed.

Lemma flag_ok_keeps d d' r t fl :
  keeps d d' -> encs U t -> is_node t = true -> flag_ok d r t fl -> flag_ok d' r t fl.
Proof.
  intros G E N. unfold flag_ok. destruct (fhash fl); [|done]. intros (? & ? & S). split; [done|]. split; [done|].
  intros Hd. eapply stored_keeps; eauto.
Qed.

Lemma repr_keeps d d' r n t : keeps d d' -> encs U t -> repr d r n t -> repr d' r n t.
Proof.
  intros G E R. induction R as [| |r k n fl t R IH F|r cs fl ts L R IH F|r t N S L].
  - constructor.
  - constructor.
  - inversion E; subst. constructor; [auto|by eapply flag_ok_keeps].
  - inversion E; subst. constructor; [done|intros; eauto|by eapply flag_ok_keeps].
  - constructor; [done|by eapply stored_keeps|done].
Qed.

Lemma kept_grow d d' t : grow d d' -> U (tenc t) -> kept d t -> kept d' t.
Proof. intros [G _]. by apply kept_keeps. Qed.

Lemma below_grow d d' t : grow d d' -> encs U t -> below d t -> below d' t.
Proof. intros [G _]. by apply below_keeps. Qed.

Lemma stored_grow d d' t : grow d d' -> encs U t -> is_node t = true -> stored d t -> stored d' t.
Proof. intros [G _]. by apply stored_keeps. Qed.

Lemma flag_ok_grow d d' r t fl :
  grow d d' -> encs U t -> is_node t = true -> flag_ok d r t fl -> flag_ok d' r t fl.
Proof. intros [G _]. by apply flag_ok_keeps. Qed.

Lemma repr_grow d d' r n t : grow d d' -> encs U t -> repr d r n t -> repr d' r n t.
Proof. intros [G _]. by apply repr_keeps. Qed.

Lemma put_grow (d d' : D) e ok : commit = true -> U e -> db_put d (Keccak256 e) e = (d', ok) -> grow d d'.
Proof.
  intros Hc HU E. destruct ok.
  - split; [intros e' HU' E'|intros k Hk]; rewrite (db_get_put _ _ _ _ _ E); case_decide as Ek; try done.
    + apply (Ucf Hc) in Ek; [|done..]. by subst.
    + subst k. by rewrite Keccak256_length in Hk.
  - split; [intros e' HU' E'|intros k Hk]; by rewrite (db_get_put_fail _ _ _ _ _ E).
Qed.

Lemma put_kept (d d' : D) t : db_put d (Keccak256 (tenc t)) (tenc t) = (d', true) -> kept d' t.
Proof. intros E. unfold kept. rewrite (db_get_put _ _ _ _ _ E). by rewrite decide_True. Qed.

(** ** Specification of a hashing step

    [r] says that the node is the root, whose hash is forced. *)

Definition cur (d : D) (db : option D) : D := match db with Some d' => d' | None => d end.
Definition mode (d : D) (db : option D) : Prop := db = None \/ (commit = true /\ db = Some d).

Record ref_ok (r : bool) (t : tree) (h : node) : Prop := {
  ref_hash : r = true \/ 32 <= len (tenc t) -> h = NHash (Keccak256 (tenc t));
  ref_enc : r = false -> enc_node h = tref t;
  ref_small : r = false -> len (tenc t) < 32 -> is_hash h = false;
  ref_wt : node_wt h;
  ref_some : is_nil h = false
}.

Definition written (r : bool) (t : tree) (d : D) : Prop :=
  below d t /\ (r = true \/ 32 <= len (tenc t) -> kept d t).

Inductive hash_result (d : D) (db : option D) (A : Type) (Q : D -> A -> Prop) : @hres D A -> Prop :=
| hash_done a db' :
    (db = None -> db' = None) -> (db <> None -> db' <> None) ->
    grow d (cur d db') -> Q (cur d db') a -> hash_result d db A Q (db', Ok a)
| hash_failed d' : db <> None -> grow d d' -> hash_result d db A Q (Some d', Err PutFailed).

Definition hash_post (db : option D) (r : bool) (t : tree) (d' : D) (p : node * node) : Prop :=
  ref_ok r t p.1 /\ repr d' r p.2 t /\ (db <> None -> written r t d').

Definition hashes (gen limit : Z) (fuel : nat) (n : node) (r : bool) (t : tree) : Prop :=
  forall d db, mode d db -> repr d r n t ->
    hash_result d db (node * node) (hash_post db r t) (hash_ gen limit fuel n db r).

Lemma cur_idem d db : cur (cur d db) db = cur d db.
Proof. by destruct db. Qed.

(** Binding on results. *)
Lemma hash_result_bind d db A B Q (R : D -> B -> Prop) (x : @hres D A) (f : option D -> A -> @hres D B) :
  mode d db -> hash_result d db A Q x ->
  (forall db' a, (db = None -> db' = None) -> (db <> None -> db' <> None) -> grow d (cur d db') ->
     Q (cur d db') a -> mode (cur d db') db' -> hash_result (cur d db') db' B R (f db' a)) ->
  hash_result d db B R
    (let '(db', r) := x in
     match r with Ok a => f db' a | Err e => (db', Err e) | Panic => (db', Panic) end).
Proof.
  intros M0 [a db' N S G HQ|d' S G] Hf; [|by constructor].
  assert (M : mode (cur d db') db').
  { destruct db'; [right|by left]. split; [|done]. destruct M0 as [->|[? _]]; [by specialize (N eq_refl)|done]. }
  destruct (Hf db' a N S G HQ M) as [b db'' N' S' G' HR|d'' S' G'].
  - assert (E : cur (cur d db') db'' = cur d db'').
    { destruct db''; [done|]. destruct db'; [by destruct S'|done]. }
    rewrite E in *. constructor; [auto|auto|by eapply grow_trans|done].
  - destruct db' as [d1|]; [|done]. constructor; [intros ->; by specialize (N eq_refl)|].
    by eapply grow_trans.
Qed.

Lemma store_ok d db r t n :
  mode d db -> enc_node n = tenc t -> node_wt n -> len (tenc t) < 2 ^ 64 -> is_node t = true ->
  is_nil n = false -> is_hash n = false -> encs U t -> (db <> None -> below d t) ->
  (forall h, fst (cache n) = Some h -> h = Keccak256 (tenc t)) ->
  hash_result d db node (fun d' h => ref_ok r t h /\ (db <> None -> written r t d')) (store n db r).
Proof.
  intros M E Wt L N Hn Hh HE B Hc. pose proof (encs_U t HE N) as HU. unfold store.
  assert (Ec : encode_node n = Ok (tenc t)) by (rewrite <- E; apply encode_node_enc; [done|by rewrite E]).
  rewrite Ec. set (hv := match fst (cache n) with Some h => h | None => Keccak256 (tenc t) end).
  assert (Eh : hv = Keccak256 (tenc t)) by (subst hv; destruct (fst (cache n)) eqn:X; [by apply Hc|done]).
  assert (Rb : r = true \/ 32 <= len (tenc t) -> ref_ok r t (NHash hv)).
  { intros Hb. split; [by rewrite Eh|intros ->; cbn|intros -> ?; destruct Hb; [done|lia]|cbn; rewrite Eh; auto with siot|done].
    destruct Hb as [|Hb]; [done|]. unfold tref, ref_of. rewrite N, Eh. by ztests. }
  cut (hash_result d db node (fun d' h => ref_ok r t h /\ (db <> None -> written r t d'))
    (if (len (tenc t) <? 32) && negb r then (db, Ok n)
     else match db with
          | Some w => let '(w, ok) := db_put w hv (tenc t) in
                      (Some w, if ok : bool then Ok (NHash hv) else Err PutFailed)
          | None => (None, Ok (NHash hv))
          end)); [by destruct n|].
  assert (Ed : cur d db = d) by (by destruct M as [->|[Hcm ->]]).
  destruct ((len (tenc t) <? 32) && negb r) eqn:Es.
  - apply andb_true_iff in Es as [Hs Hr]. apply Z.ltb_lt in Hs. apply negb_true_iff in Hr as ->.
    constructor; rewrite ?Ed; [done|done|apply grow_refl|]. split.
    + split; [intros [|]; [done|lia]|intros _|done|done|done]. rewrite E. unfold tref, ref_of. rewrite N. by ztests.
    + intros Hdb. split; [by apply B|]. intros [|]; [done|lia].
  - assert (Hb : r = true \/ 32 <= len (tenc t)).
    { apply andb_false_iff in Es as [Hs|Hr]; [right; by apply Z.ltb_ge|left; by apply negb_false_iff]. }
    specialize (Rb Hb). destruct M as [->|[Hcm ->]].
    + constructor; [done|done|apply grow_refl|]. by split.
    + rewrite Eh in *. destruct (db_put d (Keccak256 (tenc t)) (tenc t)) as [d' ok] eqn:Ep.
      pose proof (put_grow _ _ _ _ Hcm HU Ep) as G. destruct ok; [|by constructor].
      constructor; [done|done|done|]. split; [done|]. intros _. cbn [cur].
      assert (kept d' t) by by apply put_kept in Ep. split; [by eapply below_grow; [..|apply B]|done].
Qed.

Definition list_post (db : option D) (ts : list tree) (d' : D) (p : list node * list node) : Prop :=
  concat (map enc_node p.1) = concat (map tref ts) /\ Forall node_wt p.1 /\ length p.1 = length ts /\
  Forall2 (repr d' false) p.2 ts /\ (db <> None -> Forall (fun t => written false t d') ts).

Lemma written_nil r d : r = false -> written r TNil d.
Proof. intros ->. split; [constructor|]. intros [|L]; [done|]. by vm_compute in L. Qed.

Lemma written_grow d d' r t : grow d d' -> encs U t -> is_node t = true -> written r t d -> written r t d'.
Proof.
  intros G E N [B K]. split; [by eapply below_grow|]. intros Hb. eapply kept_grow; [done|by apply encs_U|auto].
Qed.

Lemma Forall2_repr_grow d d' cs ts :
  grow d d' -> Forall (encs U) ts -> Forall2 (repr d false) cs ts -> Forall2 (repr d' false) cs ts.
Proof.
  intros G E R. induction R as [|c t cs ts Rc R IH]; [constructor|].
  apply Forall_cons in E as [Et E]. constructor; [by eapply repr_grow|auto].
Qed.

Lemma hash_list_ok gen limit fuel cs ts d db :
  Forall2 (fun c t => t = TNil \/ (is_node t = true /\ hashes gen limit fuel c false t)) cs ts ->
  Forall (encs U) ts -> mode d db -> Forall2 (repr d false) cs ts ->
  hash_result d db _ (list_post db ts) (hash_list (hash_ gen limit fuel) cs db).
Proof.
  intros F. revert d db. induction F as [|c t cs ts Hc F IH]; intros d db E M R; cbn [hash_list].
  { apply hash_done; [done|done|destruct M as [->|[Hcm ->]]; apply grow_refl|]. by repeat split; constructor. }
  apply Forall_cons in E as [Et E]. inversion R as [|? ? ? ? Rc Rcs]; subst.
  assert (Hd : cur d db = d) by (by destruct M as [->|[Hcm ->]]).
  assert (Hstep : hash_result d db (node * node)
    (fun d' p => enc_node p.1 = tref t /\ node_wt p.1 /\ repr d' false p.2 t /\ (db <> None -> written false t d'))
    (if is_nil c then (db, Ok (NValue [], c)) else hash_ gen limit fuel c db false)).
  { destruct Hc as [->|[N Hc]].
    - apply repr_nil_inv in Rc as ->. constructor; [done|done|rewrite Hd; apply grow_refl|].
      split; [done|]. split; [constructor|]. split; [constructor|]. intros _. by apply written_nil.
    - assert (is_nil c = false) as ->.
      { apply not_true_iff_false. rewrite (repr_is_nil _ _ _ _ Rc). by intros ->. }
      destruct (Hc d db M Rc) as [p db' ? ? ? (P1 & P2 & P3)|]; constructor; try done.
      split; [by apply (ref_enc _ _ _ P1)|]. split; [apply P1|by split]. }
  eapply (hash_result_bind d db _ _ _ _ _ (fun db' a => let '(a, b) := a in
            let '(db, rs) := hash_list (hash_ gen limit fuel) cs db' in
            match rs with
            | Ok (collapsed, cached) => (db, Ok (a :: collapsed, b :: cached))
            | Err e => (db, Err e)
            | Panic => (db, Panic)
            end)) in Hstep; [exact Hstep|done|].
  clear Hstep. intros db1 [a b] N1 S1 G1 (A1 & A2 & A3 & A4) M1. cbn [fst snd] in *.
  eapply (hash_result_bind _ _ _ _ (list_post db1 ts) _ _ (fun db' p => let '(collapsed, cached) := p in
    (db', Ok (a :: collapsed, b :: cached)))); [done|apply IH; [done|done|by eapply Forall2_repr_grow]|].
  intros db2 [l1 l2] N2 S2 G2 (L1 & L2 & L3 & L4 & L5) M2. cbn [fst snd] in *.
  apply hash_done; [done|done|by destruct M2 as [->|[_ ->]]; apply grow_refl|].
  rewrite cur_idem. repeat split; cbn [fst snd map concat length].
  - by rewrite A1, L1.
  - by constructor.
  - by rewrite L3.
  - constructor; [by eapply repr_grow|done].
  - intros Hdb. constructor; [|by apply L5, S1].
    destruct Hc as [->|[N _]]; [by apply written_nil|]. by eapply written_grow; [..|apply A4].
Qed.

(** ** Children *)

Lemma foldr_Forall {A} (P : A -> Prop) l : Forall P l <-> foldr (fun c Q => P c /\ Q) True l.
Proof. induction l as [|x l IH]; cbn; [done|]. by rewrite Forall_cons, IH. Qed.

Definition children_post (db : option D) (r : bool) (t : tree) (fl : nodeFlag) (d' : D) (p : node * node) : Prop :=
  enc_node p.1 = tenc t /\ node_wt p.1 /\ is_nil p.1 = false /\ is_hash p.1 = false /\
  fst (cache p.1) = fhash fl /\
  (forall d2 f, grow d' d2 -> flag_ok d2 r t (f fl) -> repr d2 r (with_flags p.2 f) t) /\
  (db <> None -> below d' t).

Lemma canon_triekey k t : canon (TShort k t) -> triekey k.
Proof. intros C. inversion C; subst; [by left|by right]. Qed.

Lemma short_children_ok gen limit fuel d db r k n0 fl t0 :
  mode d db -> canon (TShort k t0) -> keys_ok (TShort k t0) -> encs U t0 -> repr d false n0 t0 ->
  (is_node t0 = true -> hashes gen limit fuel n0 false t0) ->
  hash_result d db _ (children_post db r (TShort k t0) fl)
    (hashChildren_ (hash_ gen limit fuel) (NShort k n0 fl) db).
Proof.
  intros M C K E R Hh. cbn [hashChildren_].
  destruct (compact_spec k (canon_triekey k t0 C)) as (-> & _ & Hb & _); [by eapply keys_ok_short_key|].
  assert (Hd : cur d db = d) by (by destruct M as [->|[Hcm ->]]).
  assert (Hstep : hash_result d db (node * node)
    (fun d' p => enc_node p.1 = tref t0 /\ node_wt p.1 /\ is_nil p.1 = false /\ repr d' false p.2 t0 /\
       (db <> None -> below d' t0 /\ (is_node t0 = true -> 32 <= len (tenc t0) -> kept d' t0)))
    (match n0 with NValue _ => (db, Ok (n0, n0)) | _ => hash_ gen limit fuel n0 db false end)).
  { inversion C as [k' v Hk Hv|k' ts Hne Hn Ck|]; subst.
    - inversion R as [| | | |r' t' N]; subst; [|discriminate].
      apply hash_done; [done|done|rewrite Hd; apply grow_refl|]. destruct Hv as (_ & Hv & _).
      split; [done|]. split; [done|]. split; [done|]. split; [constructor|]. intros _. by split; [constructor|].
    - assert (X : hash_result d db (node * node) (hash_post db false (TFull ts)) (hash_ gen limit fuel n0 db false))
        by (by apply Hh).
      replace (match n0 with NValue _ => (db, Ok (n0, n0)) | _ => hash_ gen limit fuel n0 db false end)
        with (hash_ gen limit fuel n0 db false) by (inversion R; done).
      destruct X as [p db' N1 S1 G1 (P1 & P2 & P3)|]; [|by constructor].
      apply hash_done; [done..|]. split; [by apply P1|]. split; [apply P1|]. split; [apply P1|]. split; [done|].
      intros Hdb. destruct (P3 Hdb) as [B Kp]. split; [done|]. auto. }
  eapply (hash_result_bind d db _ _ _ _ _ (fun db p => let '(a, b) := p in
     (db, Ok (NShort (compact k) (not_nil a) fl, NShort k b fl)))) in Hstep; [exact Hstep|done|].
  intros db1 [a b] N1 S1 G1 (A1 & A2 & A3 & A4 & A5) M1. cbn [fst snd] in *.
  apply hash_done; [done|done|rewrite cur_idem; apply grow_refl|]. rewrite cur_idem. unfold not_nil. rewrite A3.
  repeat split; try done.
  - cbn [fst enc_node tenc]. by rewrite A1.
  - intros d2 f G F. cbn [with_flags snd]. constructor; [by eapply repr_grow|done].
  - intros Hdb. destruct (A5 Hdb) as [B Kp]. by constructor.
Qed.

Lemma full_children_ok gen limit fuel d db r cs fl ts :
  mode d db -> canon (TFull ts) -> (forall i t, ts !! i = Some t -> encs U t) -> repr d r (NFull cs fl) (TFull ts) ->
  (forall i c t, (i < 16)%nat -> cs !! i = Some c -> ts !! i = Some t -> t <> TNil -> hashes gen limit fuel c false t) ->
  hash_result d db _ (children_post db r (TFull ts) fl)
    (hashChildren_ (hash_ gen limit fuel) (NFull cs fl) db).
Proof.
  intros M C E R Hh. inversion C as [| |ts' L HC H16 _]; subst.
  inversion R as [| | |r' cs' fl' ts' Lc RC F|]; subst. cbn [hashChildren_].
  destruct (lookup_lt_is_Some_2 ts 16) as [u Eu]; [lia|]. destruct (lookup_lt_is_Some_2 cs 16) as [cu Ecu]; [lia|].
  assert (Ets : ts = take 16 ts ++ [u]) by (rewrite <- (take_drop 16 ts) at 1; f_equal;
    rewrite (drop_S _ u 16 Eu), drop_ge by lia; done).
  assert (X : hash_result d db _ (list_post db (take 16 ts)) (hash_list (hash_ gen limit fuel) (take 16 cs) db)).
  { apply hash_list_ok; [..|done|].
    - apply Forall2_lookup. intros i. destruct (take 16 ts !! i) as [t|] eqn:Et.
      + apply lookup_take_Some in Et as [Et Hi]. destruct (lookup_lt_is_Some_2 cs i) as [c Ec]; [lia|].
        rewrite lookup_take_lt, Ec by done. constructor. destruct (tree_nil_dec t) as [|Ht]; [by left|right].
        split; [|by eapply Hh]. by destruct (HC i t Hi Et Ht).
      + apply lookup_ge_None in Et. rewrite length_take in Et. rewrite lookup_ge_None_2; [constructor|].
        rewrite length_take. lia.
    - apply Forall_lookup. intros i t Et. apply lookup_take_Some in Et as [Et _]. by eapply E.
    - apply Forall2_lookup. intros i. destruct (take 16 ts !! i) as [t|] eqn:Et.
      + apply lookup_take_Some in Et as [Et Hi]. destruct (lookup_lt_is_Some_2 cs i) as [c Ec]; [lia|].
        rewrite lookup_take_lt, Ec by done. constructor. by eapply RC.
      + apply lookup_ge_None in Et. rewrite length_take in Et. rewrite lookup_ge_None_2; [constructor|].
        rewrite length_take. lia. }
  eapply (hash_result_bind d db _ _ _ _ _ (fun db p => let '(collapsed, cached) := p in
     match cs !! 16%nat with
     | Some v => (db, Ok (NFull (collapsed ++ [not_nil v]) fl, NFull (cached ++ [v]) fl))
     | None => (db, Panic)
     end)) in X; [exact X|done|].
  intros db1 [l1 l2] N1 S1 G1 (L1 & L2 & L3 & L4 & L5) M1. cbn [fst snd] in *. rewrite Ecu.
  apply hash_done; [done|done|rewrite cur_idem; apply grow_refl|]. rewrite cur_idem.
  assert (Hu : enc_node (not_nil cu) = tref u /\ node_wt (not_nil cu) /\ (u = TNil \/ exists v, u = TVal v)).
  { pose proof (RC _ _ _ Ecu Eu) as Rc. destruct (tree_nil_dec u) as [->|Hn].
    - apply repr_nil_inv in Rc as ->. split; [done|]. split; [constructor|by left].
    - destruct (H16 u Eu Hn) as (v & -> & Hv). inversion Rc as [| | | |r' t' N]; subst; [|discriminate].
      split; [done|]. split; [apply Hv|right; eauto]. }
  destruct Hu as (U1 & U2 & U3). rewrite length_take in L3.
  split; [|split; [|split; [done|split; [done|split; [done|split]]]]]; cbn [fst snd].
  - cbn [enc_node tenc]. fold tref. rewrite map_app, concat_app, L1. cbn [map concat]. rewrite U1, app_nil_r.
    rewrite Ets at 2. rewrite map_app, concat_app. cbn [map concat]. by rewrite app_nil_r.
  - cbn [node_wt]. rewrite length_app. cbn [length]. split; [lia|]. apply foldr_Forall, Forall_app. split; [done|by constructor].
  - intros d2 f G Ff. cbn [with_flags]. rewrite Ets in Ff |- *.
    assert (F2 : Forall2 (repr d2 false) (l2 ++ [cu]) (take 16 ts ++ [u])).
    { apply (Forall2_repr_grow (cur d db1)); [done|rewrite <- Ets; by apply Forall_lookup|].
      apply Forall2_app; [done|]. constructor; [|constructor]. eapply repr_grow; [done|by eapply E|by eapply RC]. }
    constructor; [by eapply Forall2_length| |done]. intros i c t Ec Et. by eapply Forall2_lookup_lr.
  - intros Hdb. specialize (L5 Hdb). rewrite Ets.
    assert (W : forall i t, (take 16 ts ++ [u]) !! i = Some t -> below (cur d db1) t /\
      (is_node t = true -> 32 <= len (tenc t) -> kept (cur d db1) t)).
    { intros i t Et. apply lookup_app_Some in Et as [Et|[_ Et]].
      - rewrite Forall_lookup in L5. destruct (L5 i t Et) as [B Kp]. split; [done|]. auto.
      - apply list_lookup_singleton_Some in Et as [_ <-].
        destruct U3 as [->|[v ->]]; by split; [constructor|]. }
    constructor; intros i t Et; by apply (W i t).
Qed.

(** From the children to the node: encode, store, set the flags. *)
Lemma walk_ok gen limit fuel d db r n fl t :
  mode d db -> canon t -> keys_ok t -> encs U t -> flag_ok d r t fl ->
  hash_result d db _ (children_post db r t fl) (hashChildren_ (hash_ gen limit fuel) n db) ->
  hash_result d db _ (hash_post db r t)
    (let '(db, r0) := hashChildren_ (hash_ gen limit fuel) n db in
     match r0 with
     | Ok (collapsed, cached) =>
         let '(db, r1) := store collapsed db r in
         match r1 with
         | Ok hashed =>
             let cachedHash := match hashed with NHash h => Some h | _ => None end in
             (db, Ok (hashed, with_flags cached (fun fl =>
                {| fhash := cachedHash; fgen := fgen fl;
                   fdirty := match db with Some _ => false | None => fdirty fl end |})))
         | Err e => (db, Err e)
         | Panic => (db, Panic)
         end
     | Err e => (db, Err e)
     | Panic => (db, Panic)
     end).
Proof.
  intros M C K E F X. destruct (canon_enc_good t C K) as (_ & Lt & _).
  eapply (hash_result_bind d db _ _ _ _ _ (fun db p => let '(collapsed, cached) := p in
     let '(db, r1) := store collapsed db r in
     match r1 with
     | Ok hashed =>
         let cachedHash := match hashed with NHash h => Some h | _ => None end in
         (db, Ok (hashed, with_flags cached (fun fl =>
            {| fhash := cachedHash; fgen := fgen fl;
               fdirty := match db with Some _ => false | None => fdirty fl end |})))
     | Err e => (db, Err e)
     | Panic => (db, Panic)
     end)) in X; [exact X|done|].
  intros db1 [a b] N1 S1 G1 (A1 & A2 & A3 & A4 & A5 & A6 & A7) M1. cbn [fst snd] in *.
  pose proof (canon_is_node t C) as N. apply (flag_ok_grow d (cur d db1) r t fl G1 E N) in F.
  assert (Y := store_ok (cur d db1) db1 r t a M1 A1 A2 ltac:(lia) N A3 A4 E
    (fun Hd => A7 (fun H => Hd (N1 H)))). rewrite A5 in Y.
  assert (Hc : forall h, fhash fl = Some h -> h = Keccak256 (tenc t)).
  { intros h Eh. unfold flag_ok in F. rewrite Eh in F. apply F. }
  specialize (Y Hc).
  eapply (hash_result_bind _ _ _ _ _ _ _ (fun db hashed =>
    (db, Ok (hashed, with_flags b (fun fl =>
            {| fhash := match hashed with NHash h => Some h | _ => None end; fgen := fgen fl;
               fdirty := match db with Some _ => false | None => fdirty fl end |}))))) in Y; [exact Y|done|].
  intros db2 h N2 S2 G2 (R1 & R2) M2. apply hash_done; [done|done|rewrite cur_idem; apply grow_refl|].
  rewrite cur_idem. split; [exact R1|]. split; [|intros Hdb; apply R2, S1, Hdb].
  cbn [snd]. apply A6; [done|]. unfold flag_ok. cbn [fhash fdirty].
  assert (Hb : (r = true \/ 32 <= len (tenc t)) \/ (r = false /\ len (tenc t) < 32))
    by (destruct r; [left; by left|]; destruct (Z.le_gt_cases 32 (len (tenc t))); [left; by right|by right]).
  destruct Hb as [Hb|[-> Hb]].
  - rewrite (ref_hash _ _ _ R1 Hb). split; [done|]. split; [done|]. intros Hd.
    destruct db2 as [d2|].
    + destruct (R2 (fun X => ltac:(by specialize (N2 X)))) as [B Kp]. split; [by apply Kp|done].
    + unfold flag_ok in F. destruct (fhash fl); [destruct F as (_ & _ & F); eapply stored_grow; eauto|].
      destruct (F Hd) as [-> ?]. destruct Hb; [done|lia].
  - pose proof (ref_small _ _ _ R1 eq_refl Hb) as Hh. destruct h; try done.
Qed.

Lemma depth_child cs fl c : c ∈ cs -> (node_depth c < node_depth (NFull cs fl))%nat.
Proof.
  intros Hc. cbn [node_depth]. induction Hc as [c cs|c c' cs Hc IH]; cbn [foldr]; lia.
Qed.

Lemma keep_hash gen limit fuel d db r n t h dirty :
  mode d db -> repr d r n t -> is_node t = true -> is_nil n = false -> cache n = (Some h, dirty) ->
  h = Keccak256 (tenc t) -> r = true \/ 32 <= len (tenc t) -> (dirty = false -> stored d t) ->
  (db = None \/ dirty = false) ->
  hash_result d db _ (hash_post db r t) (hash_ gen limit (S fuel) n db r).
Proof.
  intros M R N Hn Ec -> Hb Hs Hk. cbn [hash_]. rewrite Hn, Ec.
  assert (RO : ref_ok r t (NHash (Keccak256 (tenc t)))).
  { split; [done|intros ->|intros ->; lia|cbn; auto with siot|done].
    destruct Hb as [|Hb]; [done|]. unfold tref, ref_of. rewrite N. by ztests. }
  assert (W : dirty = false -> written r t d) by (intros Hd; destruct (Hs Hd); by split).
  destruct M as [->|[Hcm ->]]; [apply hash_done; [done|done|apply grow_refl|]; by split|].
  destruct Hk as [|Hk]; [done|]. subst dirty. cbn [negb].
  destruct (canUnload n gen limit); (apply hash_done; [done|done|apply grow_refl|]); (split; [done|]);
    (split; [|by intros; apply W]); [|done].
  apply repr_hash; [done|by apply Hs|done].
Qed.

(** A short or full node: the cached hash, or the walk. *)
Lemma hash_node_ok gen limit fuel d db r n fl t :
  mode d db -> repr d r n t -> canon t -> keys_ok t -> encs U t -> is_nil n = false ->
  cache n = (fhash fl, fdirty fl) -> canUnload n gen limit = flag_canUnload fl gen limit -> flag_ok d r t fl ->
  hash_result d db _ (children_post db r t fl) (hashChildren_ (hash_ gen limit fuel) n db) ->
  hash_result d db _ (hash_post db r t) (hash_ gen limit (S fuel) n db r).
Proof.
  intros M R C K E Hn Ec Eu F X. apply (walk_ok gen limit fuel d db r n fl t) in X; [|done..].
  destruct (fhash fl) as [h|] eqn:Eh.
  - pose proof F as F'. unfold flag_ok in F'. rewrite Eh in F'. destruct F' as (F1 & F2 & F3).
    destruct (decide (db = None \/ fdirty fl = false)) as [Hk|Hk].
    + apply (keep_hash gen limit fuel d db r n t h (fdirty fl)); try done. by apply canon_is_node.
    + cbn [hash_]. rewrite Hn, Ec, Eu. destruct db as [d0|]; [|by destruct Hk; left].
      destruct (fdirty fl) eqn:Ed; [|by destruct Hk; right].
      unfold flag_canUnload. rewrite Ed. cbn [negb andb]. exact X.
  - cbn [hash_]. rewrite Hn, Ec. exact X.
Qed.

Lemma hash_ok gen limit fuel n r t :
  canon t -> keys_ok t -> encs U t -> (node_depth n <= fuel)%nat -> hashes gen limit fuel n r t.
Proof.
  revert n r t. induction fuel as [|fuel IH]; intros n r t C K E Hf d db M R.
  { destruct n; cbn in Hf; lia. }
  pose proof (canon_is_node t C) as N.
  assert (Hn : is_nil n = false).
  { apply not_true_iff_false. rewrite (repr_is_nil _ _ _ _ R). by intros ->. }
  destruct n as [|cs fl|k n0 fl|h|v].
  - done.
  - destruct (repr_full_inv _ _ _ _ _ R) as (ts & -> & L).
    inversion R as [| | |r' cs' fl' ts' Lc RC F|]; subst.
    assert (X : hash_result d db _ (children_post db r (TFull ts) fl) (hashChildren_ (hash_ gen limit fuel) (NFull cs fl) db)).
    { apply full_children_ok; [done..|by inversion E|done|]. intros i c t Hi Ec Et Ht. apply IH.
      - by destruct (canon_child ts i t C Hi Et).
      - by eapply keys_ok_child.
      - inversion E; subst. eauto.
      - pose proof (depth_child cs fl c ltac:(by eapply list_elem_of_lookup_2)). lia. }
    by eapply hash_node_ok.
  - inversion R as [| |r' k' n' fl' t0 R0 F| |]; subst.
    assert (X : hash_result d db _ (children_post db r (TShort k t0) fl) (hashChildren_ (hash_ gen limit fuel) (NShort k n0 fl) db)).
    { apply short_children_ok; [done..|by inversion E|done|]. intros N0. apply IH.
      - inversion C; subst; [discriminate|done].
      - by eapply keys_ok_short.
      - by inversion E.
      - cbn [node_depth] in Hf. lia. }
    by eapply hash_node_ok.
  - inversion R as [| | | |r' t' N' S Hb]; subst. cbn [hash_ is_nil cache hashChildren_ store with_flags].
    assert (Hd : cur d db = d) by (by destruct M as [->|[Hcm ->]]).
    apply hash_done; [done|done|rewrite Hd; apply grow_refl|]. rewrite Hd. split; [|split; [done|]].
    + split; [done|intros ->|intros ->; lia|cbn; auto with siot|done].
      destruct Hb as [|Hb]; [done|]. unfold tref, ref_of. rewrite N. by ztests.
    + intros _. by destruct S.
  - inversion R; subst. inversion C.
Qed.
End HashOk.

(** ** Root hash, commit and reopening *)

Section Root.
Context `{Hash256} `{DatabaseLaws D}.

Definition root_hash (t : tree) : bytes := match t with TNil => emptyRoot | _ => Keccak256 (tenc t) end.

Lemma root_hash_canon t : canon t -> root_hash t = Keccak256 (tenc t).
Proof. by destruct 1. Qed.

Lemma BytesToHash_Keccak b : BytesToHash (Keccak256 b) = Keccak256 b.
Proof. apply BytesToHash_id, Keccak256_length. Qed.

Lemma encs_all t : canon t -> encs (fun _ => True) t.
Proof.
  induction 1 as [k v Hk Hv|k ts Hne Hn C IH|ts L HC IH H16 Htwo]; (constructor; [done|]); try constructor; try done.
  - by inversion IH.
  - intros i t E. destruct (tree_nil_dec t) as [->|Ht]; [constructor|].
    pose proof (lookup_lt_Some _ _ _ E). destruct (decide (i = 16%nat)) as [->|].
    + destruct (H16 t E Ht) as (v & -> & _). constructor.
    + apply (IH i); [lia|done..].
Qed.

Lemma hashRoot_some tr (db : option D) :
  root tr <> NNil -> hashRoot tr db = hash (cachegen tr) (cachelimit tr) (root tr) db true.
Proof. unfold hashRoot. by destruct (root tr). Qed.

Lemma Hash_ok (d : D) tr t :
  trie_ok d tr t ->
  exists n, Hash D tr = Ok (root_hash t, set_root tr n) /\ trie_ok d (set_root tr n) t.
Proof.
  intros [R C B]. unfold Hash. destruct C as [->|C].
  { apply repr_nil_inv in R. unfold hashRoot. rewrite R. exists NNil. split; [done|]. split; [constructor|by left|done]. }
  assert (X : hash_result (fun _ => True) d None _ (hash_post None true t)
    (hash (cachegen tr) (cachelimit tr) (root tr) None true)).
  { refine (hash_ok (fun _ => True) false _ _ _ _ _ _ _ C (byte_keys_ok t B) (encs_all t C) (le_n _) d None _ R);
      [done|by left]. }
  assert (Hn : root tr <> NNil) by (intros E; rewrite E in R; inversion R; subst; inversion C).
  rewrite (hashRoot_some tr None Hn).
  destruct X as [[h n] db' N _ _ (P1 & P2 & _)|]; [|done]. cbn [fst snd] in *.
  rewrite (ref_hash _ _ _ P1) by by left. exists n. rewrite (N eq_refl) in P2. rewrite root_hash_canon by done.
  split; [by rewrite BytesToHash_Keccak|]. by split; [|right|].
Qed.

(** A commit succeeds with everything stored, or fails on a [Put] and leaves
    what was stored before. *)
Lemma CommitTo_ok (U : bytes -> Prop) (d : D) tr t :
  collision_free U -> encs U t -> trie_ok d tr t ->
  (exists d' tr', CommitTo tr d = (Some d', Ok (root_hash t, tr')) /\ grow U d d' /\ trie_ok d' tr' t /\
     (t <> TNil -> stored d' t)) \/
  (exists d', CommitTo tr d = (Some d', Err PutFailed) /\ grow U d d' /\ trie_ok d' tr t).
Proof.
  intros Ucf E [R C B]. unfold CommitTo. destruct C as [->|C].
  { apply repr_nil_inv in R. unfold hashRoot. rewrite R. left. eexists d, _. split; [done|]. split; [apply grow_refl|].
    split; [|done]. split; [constructor|by left|done]. }
  assert (X : hash_result U d (Some d) _ (hash_post (Some d) true t)
    (hash (cachegen tr) (cachelimit tr) (root tr) (Some d) true)).
  { refine (hash_ok U true _ _ _ _ _ _ _ C (byte_keys_ok t B) E (le_n _) d (Some d) _ R); [done|by right]. }
  assert (Hn : root tr <> NNil) by (intros E'; rewrite E' in R; inversion R; subst; inversion C).
  rewrite (hashRoot_some tr (Some d) Hn).
  destruct X as [[h n] db' _ S G (P1 & P2 & P3)|d' _ G]; [left|right].
  - cbn [fst snd] in *. rewrite (ref_hash _ _ _ P1) by by left. destruct db' as [d'|]; [|by destruct S].
    eexists d', _. rewrite root_hash_canon, BytesToHash_Keccak by done. split; [done|].
    split; [done|]. split; [by split; [|right|]|]. intros _. destruct P3 as [Bl Kp]; [done|]. split; [by apply Kp; left|done].
  - exists d'. split; [done|]. split; [done|]. split; [by eapply repr_grow|by right|done].
Qed.

Lemma New_ok (d : D) t :
  canon t -> byte_keys t -> stored d t -> root_hash t <> zeros 32 -> root_hash t <> emptyRoot ->
  exists tr, New d (root_hash t) = Ok tr /\ trie_ok d tr t.
Proof.
  intros C B S H1' H2'. unfold New. rewrite !bool_decide_false by done. cbn [negb andb].
  rewrite root_hash_canon by done.
  rewrite resolveHash_stored; [|done|by apply byte_keys_ok|done]. cbn [obind].
  eexists. split; [done|]. split; [|by right|done]. cbn [root set_root].
  apply repr_tload; [apply S|]. unfold flag_ok. cbn. split; [done|]. split; [by left|done].
Qed.

Lemma New_empty (d : D) : exists tr, New d (zeros 32) = Ok tr /\ trie_ok d tr TNil.
Proof. eexists. split; [done|]. split; [constructor|by left|done]. Qed.
End Root.
