(* ===== verification/TrieMap.v ===== *)
(** * The trie as a map with a root hash

    The properties of the trie its clients rely on, stated on finite maps from
    byte strings to byte strings: every sequence of operations behaves as on a
    map, the root hash depends on the content only and determines it (as far as
    hashes do not collide), and a committed trie can be opened again. *)

From S2P Require Import Prelude RlpEncode TrieEncoding TrieNode TrieTree TrieStore Helper Database Trie TrieSpec TrieHash Keccak.

Section Map.
Context `{Hash256} `{DatabaseLaws D}.

(** ** The trie implements a finite map *)

Definition implements (d : D) (tr : Trie) (m : gmap bytes bytes) : Prop :=
  exists t, trie_ok d tr t /\ forall key, byte_key key -> content t key = m !! key.

(** Lookups in the trie answer from the tree. *)
Definition reads_as (d : D) (tr : Trie) (t : tree) : Prop :=
  forall key, byte_key key -> exists x, TryGet d tr key = Ok (content t key, x).

Definition same_content (t1 t2 : tree) : Prop := forall key, byte_key key -> content t1 key = content t2 key.

Inductive trie_op :=
| OpGet (key : bytes)
| OpUpdate (key value : bytes)
| OpDelete (key : bytes)
| OpHash.

Definition op_ok (o : trie_op) : Prop :=
  match o with
  | OpGet key | OpDelete key => byte_key key
  | OpUpdate key value => byte_key key /\ bytes_ok value /\ len value < 2 ^ 32
  | OpHash => True
  end.

(** What an operation does to the map. *)
Definition spec_op (m : gmap bytes bytes) (o : trie_op) : gmap bytes bytes :=
  match o with
  | OpGet _ | OpHash => m
  | OpUpdate key value => if decide (value = []) then base.delete key m else <[key := value]> m
  | OpDelete key => base.delete key m
  end.

Definition outcome_val {E A} (m : outcome E A) : option A := match m with Ok a => Some a | _ => None end.

(** ... and what it does to the trie; [None] is an error or a panic. *)
Definition run_op (d : D) (tr : Trie) (o : trie_op) : option Trie :=
  match o with
  | OpGet key => option_map snd (outcome_val (TryGet d tr key))
  | OpUpdate key value => outcome_val (TryUpdate d tr key value)
  | OpDelete key => outcome_val (TryDelete d tr key)
  | OpHash => option_map snd (outcome_val (Hash D tr))
  end.

Fixpoint run (d : D) (tr : Trie) (ops : list trie_op) : option Trie :=
  match ops with
  | [] => Some tr
  | o :: ops => match run_op d tr o with Some tr => run d tr ops | None => None end
  end.

Definition spec (m : gmap bytes bytes) (ops : list trie_op) : gmap bytes bytes := foldl spec_op m ops.

Lemma delete_lookup (m : gmap bytes bytes) key k :
  base.delete key m !! k = if decide (k = key) then None else m !! k.
Proof. case_decide as E; [subst; apply lookup_delete_eq|by apply lookup_delete_ne]. Qed.

Lemma run_op_ok d tr m o :
  op_ok o -> implements d tr m -> exists tr', run_op d tr o = Some tr' /\ implements d tr' (spec_op m o).
Proof.
  intros Ho (t & T & G). destruct o as [key|key value|key|]; cbn in *.
  - destruct (TryGet_ok d tr t key T Ho) as (tr' & -> & T' & _). cbn. eexists. split; [done|]. by exists t.
  - destruct Ho as (Hk & Hv & Lv). destruct (TryUpdate_ok d tr t key value T Hk Hv Lv) as (n & t' & -> & T' & G').
    cbn. eexists. split; [done|]. exists t'. split; [done|]. intros k Hk'. rewrite G', G by done.
    destruct (decide (value = [])); [by rewrite delete_lookup|].
    case_decide as E; [subst; by rewrite lookup_insert_eq|by rewrite lookup_insert_ne].
  - destruct (TryDelete_ok d tr t key T Ho) as (n & t' & -> & T' & G'). cbn. eexists. split; [done|].
    exists t'. split; [done|]. intros k Hk'. by rewrite G', G, delete_lookup.
  - destruct (Hash_ok d tr t T) as (n & -> & T'). cbn. eexists. split; [done|]. by exists t.
Qed.

Lemma run_ok d tr m ops :
  Forall op_ok ops -> implements d tr m -> exists tr', run d tr ops = Some tr' /\ implements d tr' (spec m ops).
Proof.
  intros F. revert tr m. induction F as [|o ops Ho F IH]; intros tr m I; [by exists tr|].
  destruct (run_op_ok d tr m o Ho I) as (tr' & E & I'). cbn. rewrite E. by apply IH.
Qed.

Definition empty_trie : Trie := {| root := NNil; originalRoot := zeros 32; cachegen := 0; cachelimit := 0 |}.

Lemma empty_implements d : implements d empty_trie ∅.
Proof. exists TNil. split; [|done]. split; [constructor|by left|done]. Qed.

(** ** The root hash determines the content *)

Lemma load_of_inj (U : bytes -> Prop) t1 t2 :
  collision_free U ->
  (is_node t1 = true -> U (tenc t1) /\ decodeNode None (tenc t1) 0 = Ok (tload None 0 t1)) ->
  (is_node t2 = true -> U (tenc t2) /\ decodeNode None (tenc t2) 0 = Ok (tload None 0 t2)) ->
  loadref 0 t1 = loadref 0 t2 -> tload None 0 t1 = tload None 0 t2.
Proof.
  intros Ucf H1' H2' E. unfold loadref, load_of in E.
  assert (F : forall t x, is_node t = true -> tload None 0 t <> NHash x) by (intros [] ? ? ?; discriminate).
  assert (G : forall t x, is_node t = false -> tload None 0 t <> NHash x) by (intros [] ? ? ?; discriminate).
  destruct (is_node t1) eqn:N1, (is_node t2) eqn:N2;
    destruct (len (tenc t1) <? 32), (len (tenc t2) <? 32); try done;
    try (by apply F in E); try (by symmetry in E; apply F in E); try (by apply G in E); try (by symmetry in E; apply G in E).
  injection E as E. destruct (H1' eq_refl) as [U1 D1], (H2' eq_refl) as [U2 D2].
  apply Ucf in E; [|done..]. rewrite E in D1. congruence.
Qed.

Lemma tload_short h g k t : tload h g (TShort k t) = NShort k (loadref g t) (clean h g).
Proof. done. Qed.

Lemma tload_full h g ts : tload h g (TFull ts) = NFull (map (loadref g) ts) (clean h g).
Proof. done. Qed.

Lemma loadref_nil t : loadref 0 t = NNil -> t = TNil.
Proof. unfold loadref, load_of. destruct t; cbn [is_node]; try case_match; cbn [tload]; congruence. Qed.

Lemma loadref_val t v : loadref 0 t = NValue v -> t = TVal v.
Proof. unfold loadref, load_of. destruct t; cbn [is_node]; try case_match; cbn [tload]; congruence. Qed.

Lemma tload_inj U t1 :
  collision_free U -> canon t1 -> forall t2, canon t2 -> keys_ok t1 -> keys_ok t2 -> encs U t1 -> encs U t2 ->
  tload None 0 t1 = tload None 0 t2 -> t1 = t2.
Proof.
  intros Ucf C1. pose proof C1 as C1'. revert C1'.
  induction C1 as [k v Hk Hv|k ts Hne Hn C IH|ts L HC IH H16 Htwo]; intros C1 t2 C2 K1 K2 E1 E2 E.
  - inversion C2 as [k' v' Hk'|k' ts' Hne' Hn' C'|ts' L' HC' H16' ?]; subst;
      rewrite ?tload_short, ?tload_full in E; try discriminate.
    + by injection E as -> ->.
    + injection E as _ E. symmetry in E. by apply loadref_val in E.
  - inversion C2 as [k' v' Hk'|k' ts' Hne' Hn' C'|ts' L' HC' H16' ?]; subst;
      rewrite ?tload_short, ?tload_full in E; try discriminate.
    + injection E as _ E. by apply loadref_val in E.
    + apply keys_ok_short in K1; [|done]. apply keys_ok_short in K2; [|done].
      inversion E1; inversion E2; subst.
      assert (Ek : k = k') by congruence. assert (El : loadref 0 (TFull ts) = loadref 0 (TFull ts')) by (injection E; done).
      subst k'. f_equal. apply IH; try done. eapply (load_of_inj U); [done| | |done].
      * intros _. split; [by apply encs_U|by apply decodeNode_tenc].
      * intros _. split; [by apply encs_U|by apply decodeNode_tenc].
  - inversion C2 as [k' v' Hk'|k' ts' Hne' Hn' C'|ts' L' HC' H16' ?]; subst;
      rewrite ?tload_short, ?tload_full in E; try discriminate.
    injection E as E. f_equal. apply (list_eq_same_length _ _ 17); [done..|]. intros i t t' Hi Et Et'.
    assert (El : loadref 0 t = loadref 0 t').
    { apply (f_equal (fun l => l !! i)) in E. rewrite !list_lookup_fmap, Et, Et' in E. cbn in E.
      injection E as E. exact E. }
    destruct (tree_nil_dec t) as [->|Ht]; [symmetry; by apply loadref_nil|].
    assert (Ht' : t' <> TNil) by (intros ->; by apply loadref_nil in El).
    destruct (decide (i = 16%nat)) as [->|].
    + destruct (H16 t Et Ht) as (v & -> & _). symmetry. by apply (loadref_val t' v).
    + assert (Ct : canon t) by (apply (HC i); [lia|done..]). assert (Ct' : canon t') by (apply (HC' i); [lia|done..]).
      pose proof (keys_ok_child ts i t C1 K1 Et). pose proof (keys_ok_child ts' i t' C2 K2 Et').
      inversion E1; inversion E2; subst. apply (IH i); try done; [lia|eauto|eauto|].
      eapply (load_of_inj U); [done| | |done].
      * intros N. split; [apply encs_U; eauto|by apply decodeNode_tenc].
      * intros N. split; [apply encs_U; eauto|by apply decodeNode_tenc].
Qed.

Lemma tenc_inj U t1 t2 :
  collision_free U -> canon t1 -> canon t2 -> keys_ok t1 -> keys_ok t2 -> encs U t1 -> encs U t2 ->
  tenc t1 = tenc t2 -> t1 = t2.
Proof.
  intros Ucf C1 C2 K1 K2 E1 E2 E. apply (tload_inj U); try done.
  pose proof (decodeNode_tenc None 0 t1 C1 K1) as D1. rewrite E, decodeNode_tenc in D1 by done. congruence.
Qed.

Lemma root_hash_inj U t1 t2 :
  collision_free U -> canon t1 -> canon t2 -> keys_ok t1 -> keys_ok t2 -> encs U t1 -> encs U t2 ->
  root_hash t1 = root_hash t2 -> t1 = t2.
Proof.
  intros Ucf C1 C2 K1 K2 E1 E2 E. rewrite !root_hash_canon in E by done.
  apply (tenc_inj U); try done. apply Ucf; [apply encs_U; [done|by apply canon_is_node]..|done].
Qed.

(** ** Theorems *)

(** C1: every sequence of lookups, updates, deletions and root computations on an
    empty trie runs without error or panic, and afterwards lookups return what a
    finite map holds after the same sequence (an update with an empty value
    being a deletion). *)
Theorem trie_refines_map (d : D) ops :
  Forall op_ok ops ->
  exists tr, run d empty_trie ops = Some tr /\
    forall key, byte_key key -> exists tr', TryGet d tr key = Ok (spec ∅ ops !! key, tr').
Proof.
  intros F. destruct (run_ok d empty_trie ∅ ops F (empty_implements d)) as (tr & E & t & T & G).
  exists tr. split; [done|]. intros key Hk. destruct (TryGet_ok d tr t key T Hk) as (tr' & E' & _).
  exists tr'. by rewrite E', G.
Qed.

(** C2: the root hash depends on the content only, not on the history: two
    sequences of operations that leave the same map give the same hash. *)
Theorem root_history_independent (d1 d2 : D) ops1 ops2 :
  Forall op_ok ops1 -> Forall op_ok ops2 -> spec ∅ ops1 = spec ∅ ops2 ->
  exists tr1 tr2 tr1' tr2' h,
    run d1 empty_trie ops1 = Some tr1 /\ run d2 empty_trie ops2 = Some tr2 /\
    Hash D tr1 = Ok (h, tr1') /\ Hash D tr2 = Ok (h, tr2').
Proof.
  intros F1 F2 E.
  destruct (run_ok d1 empty_trie ∅ ops1 F1 (empty_implements d1)) as (tr1 & R1 & t1 & T1 & G1).
  destruct (run_ok d2 empty_trie ∅ ops2 F2 (empty_implements d2)) as (tr2 & R2 & t2 & T2 & G2).
  assert (t1 = t2) as ->.
  { apply content_unique; try apply T1; try apply T2. intros key Hk. by rewrite G1, G2, E. }
  destruct (Hash_ok d1 tr1 t2 T1) as (n1 & H1' & _), (Hash_ok d2 tr2 t2 T2) as (n2 & H2' & _).
  by exists tr1, tr2, (set_root tr1 n1), (set_root tr2 n2), (root_hash t2).
Qed.

(** C27: the root hash binds the content: two non-empty tries with the same root
    hash hold the same values, as long as no two encodings of their nodes have
    the same hash. *)
Theorem root_hash_binding (U : bytes -> Prop) (d1 d2 : D) tr1 tr2 t1 t2 h tr1' tr2' :
  collision_free U -> encs U t1 -> encs U t2 -> t1 <> TNil -> t2 <> TNil ->
  trie_ok d1 tr1 t1 -> trie_ok d2 tr2 t2 ->
  Hash D tr1 = Ok (h, tr1') -> Hash D tr2 = Ok (h, tr2') ->
  same_content t1 t2.
Proof.
  intros Ucf E1 E2 N1 N2 T1 T2 H1' H2' key _.
  destruct (Hash_ok d1 tr1 t1 T1) as (n1 & X1 & _), (Hash_ok d2 tr2 t2 T2) as (n2 & X2 & _).
  rewrite X1 in H1'. rewrite X2 in H2'. injection H1' as H1' _. injection H2' as H2' _.
  destruct T1 as [_ [->|C1] B1], T2 as [_ [->|C2] B2]; try done.
  assert (t1 = t2) as ->; [|done].
  apply (root_hash_inj U); try done; [by apply byte_keys_ok..|congruence].
Qed.

Lemma trie_ok_reads d tr t : trie_ok d tr t -> reads_as d tr t.
Proof. intros T key Hk. destruct (TryGet_ok d tr t key T Hk) as (x & Ex & _). eauto. Qed.

(** C3: a successful commit writes everything below the root: the trie can be
    opened again from the database under the returned root hash, and every
    lookup gives the same result; a commit that fails on a write error leaves
    the trie usable. *)
Theorem commit_reopen (U : bytes -> Prop) (d : D) tr t :
  collision_free U -> encs U t -> trie_ok d tr t -> canon t ->
  root_hash t <> zeros 32 -> root_hash t <> emptyRoot ->
  (exists d' tr', CommitTo tr d = (Some d', Ok (root_hash t, tr')) /\
     exists tr2, New d' (root_hash t) = Ok tr2 /\ reads_as d' tr' t /\ reads_as d' tr2 t) \/
  (exists d', CommitTo tr d = (Some d', Err PutFailed) /\ reads_as d' tr t).
Proof.
  intros Ucf E T C Z1 Z2.
  destruct (CommitTo_ok U d tr t Ucf E T) as [(d' & tr' & Ec & _ & T' & S)|(d' & Ec & _ & T')]; [left|right].
  - exists d', tr'. split; [done|].
    destruct (New_ok d' t C (ok_keys _ _ _ T) (S (canon_not_nil t C)) Z1 Z2) as (tr2 & En & T2).
    exists tr2. split; [done|]. split; by apply trie_ok_reads.
  - exists d'. split; [done|]. by apply trie_ok_reads.
Qed.
End Map.

(** ** Witnesses *)

#[local] Existing Instance keccak_hash.

Definition sample_ops : list trie_op :=
  [OpUpdate [1; 2] [3]; OpUpdate [1; 3] [4; 5]; OpHash; OpUpdate [1; 2] [6]; OpDelete [1; 3]; OpGet [1; 2]].

Lemma trie_refines_map_witness :
  exists tr, run NewMemDatabase empty_trie sample_ops = Some tr /\
    forall key, byte_key key -> exists tr', TryGet NewMemDatabase tr key = Ok (spec ∅ sample_ops !! key, tr').
Proof.
  apply (trie_refines_map NewMemDatabase sample_ops).
  repeat constructor; cbn; unfold byte_ok; try lia.
Defined.

Lemma root_history_independent_witness :
  exists tr1 tr2 tr1' tr2' h,
    run NewMemDatabase empty_trie sample_ops = Some tr1 /\
    run NewMemDatabase empty_trie [OpUpdate [1; 2] [6]] = Some tr2 /\
    Hash MemDatabase tr1 = Ok (h, tr1') /\ Hash MemDatabase tr2 = Ok (h, tr2').
Proof.
  apply (root_history_independent (H0 := MemDatabase_database) NewMemDatabase NewMemDatabase sample_ops [OpUpdate [1; 2] [6]]).
  - repeat constructor; cbn; unfold byte_ok; try lia.
  - repeat constructor; cbn; unfold byte_ok; try lia.
  - vm_compute. reflexivity.
Defined.

(** A trie with one value, as a tree and in memory. *)
Definition leaf_tree : tree := TShort (compactHexDecode [1; 2]) (TVal [6]).
Definition leaf_trie : Trie :=
  {| root := NShort (compactHexDecode [1; 2]) (NValue [6]) {| fhash := None; fgen := 0; fdirty := true |};
     originalRoot := zeros 32; cachegen := 0; cachelimit := 0 |}.

Lemma leaf_canon : canon leaf_tree.
Proof.
  constructor; [apply compactHexDecode_hexkey|]; repeat constructor; cbn; unfold byte_ok; try lia. done.
Qed.

Lemma leaf_trie_ok : trie_ok NewMemDatabase leaf_trie leaf_tree.
Proof.
  split; [constructor; [constructor|done]|right; apply leaf_canon|].
  intros k v Hk E. unfold leaf_tree in E. rewrite tget_leaf in E. case_decide; [subst|done].
  exists [1; 2]. split; [|done]. repeat constructor; cbn; unfold byte_ok; lia.
Qed.

Definition leaf_U (e : bytes) : Prop := e = tenc leaf_tree.

Lemma leaf_encs : encs leaf_U leaf_tree.
Proof. constructor; [done|constructor]. Qed.

(** The same trie with its root hash in the cache. *)
Definition hashed_leaf_trie : Trie :=
  set_root leaf_trie (NShort (compactHexDecode [1; 2]) (NValue [6])
    {| fhash := Some (root_hash leaf_tree); fgen := 0; fdirty := true |}).

Lemma hashed_leaf_trie_ok : trie_ok NewMemDatabase hashed_leaf_trie leaf_tree.
Proof.
  split; [|right; apply leaf_canon|apply leaf_trie_ok].
  constructor; [constructor|]. split; [done|]. split; [by left|done].
Qed.

Lemma root_hash_binding_witness : same_content leaf_tree leaf_tree.
Proof.
  eapply (root_hash_binding (H0 := MemDatabase_database) leaf_U NewMemDatabase NewMemDatabase leaf_trie
            hashed_leaf_trie leaf_tree leaf_tree);
    [by intros ? ? -> ->|apply leaf_encs|apply leaf_encs|done|done|apply leaf_trie_ok|apply hashed_leaf_trie_ok| |].
  - vm_compute. reflexivity.
  - vm_compute. reflexivity.
Defined.

Lemma commit_reopen_witness :
  (exists d' tr', CommitTo leaf_trie NewMemDatabase = (Some d', Ok (root_hash leaf_tree, tr')) /\
     exists tr2, New d' (root_hash leaf_tree) = Ok tr2 /\ reads_as d' tr' leaf_tree /\ reads_as d' tr2 leaf_tree) \/
  (exists d', CommitTo leaf_trie NewMemDatabase = (Some d', Err PutFailed) /\ reads_as d' leaf_trie leaf_tree).
Proof.
  apply (commit_reopen (H0 := MemDatabase_database) leaf_U NewMemDatabase leaf_trie leaf_tree);
    [by intros ? ? -> ->|apply leaf_encs|apply leaf_trie_ok|apply leaf_canon| |].
  - intros E. apply (f_equal (fun l => l !! 0%nat)) in E. vm_compute in E. discriminate.
  - intros E. apply (f_equal (fun l => l !! 0%nat)) in E. vm_compute in E. discriminate.
Defined.
