(* ===== verification/TrieProof.v ===== *)
(** * Merkle proofs (src/trie/proof.go)

    [Prove] collects the encoded nodes on the path to a key, [VerifyProof]
    checks such a list against a root hash.  Verification of a produced proof
    gives the value of the key, and no list of byte strings verifies to
    anything else as long as hashes do not collide. *)

From S2P Require Import Prelude RlpEncode RlpRaw TrieEncoding TrieNode TrieTree TrieStore Helper Database Trie TrieSpec TrieHash TrieMap Keccak.

Inductive proof_error :=
| HashMismatch (i : nat)
| BadProofNode (i : nat) (e : node_error)
| KeyMismatch (i : nat)
| AdditionalNodes
| UnexpectedEnd.

(** ** Verification *)

(** The loop ends with a type assertion to [valueNode], which panics on
    anything else.  A round consumes at least one nibble. *)
Fixpoint get_loop (fuel : nat) (tn : node) (key : bytes) : outcome proof_error (bytes * node) :=
  match key with
  | [] => match tn with NValue v => Ok ([], NValue v) | _ => Panic end
  | key0 :: key' =>
      match fuel with
      | O => Panic
      | S fuel =>
          match tn with
          | NShort Key Val _ =>
              if (len key <? len Key) || negb (bool_decide (Key = take (length Key) key)) then Ok ([], NNil)
              else get_loop fuel Val (drop (length Key) key)
          | NFull Children _ =>
              match Children !! Z.to_nat key0 with
              | None => Panic
              | Some c => get_loop fuel c key'
              end
          | NHash h => Ok (key, tn)
          | NNil => Ok (key, NNil)
          | NValue _ => Panic
          end
      end
  end.
Definition get (tn : node) (key : bytes) : outcome proof_error (bytes * node) :=
  get_loop (S (length key)) tn key.

Section Verify.
Context `{Hash256}.

Fixpoint verify_loop (i : nat) (wantHash key : bytes) (proof : list bytes) : outcome proof_error (option bytes) :=
  match proof with
  | [] => Err UnexpectedEnd
  | buf :: rest =>
      if negb (bool_decide (Keccak256 buf = wantHash)) then Err (HashMismatch i)
      else
        let* n := match decodeNode (Some wantHash) buf 0 with
                  | Ok n => Ok n
                  | Err e => Err (BadProofNode i e)
                  | Panic => Panic
                  end in
        let* (keyrest, cld) := get n key in
        match cld with
        | NNil => match rest with [] => Ok None | _ => Err (KeyMismatch i) end
        | NHash h => verify_loop (S i) h keyrest rest
        | NValue v => match rest with [] => Ok (Some v) | _ => Err AdditionalNodes end
        | _ => verify_loop (S i) wantHash key rest
        end
  end.

Definition VerifyProof (rootHash key : bytes) (proof : list bytes) : outcome proof_error (option bytes) :=
  verify_loop 0 rootHash (compactHexDecode key) proof.
End Verify.

(** ** Construction *)

Section Prove.
Context `{Hash256} `{Database D} (d : D) (tr : Trie).

(** The nodes on the path to [key]; [None] when a node is missing. *)
Fixpoint prove_walk (fuel : nat) (tn : node) (key : bytes) : outcome trie_error (option (list node)) :=
  match fuel with
  | O => Err OutOfFuel
  | S fuel =>
      match key with
      | [] => Ok (Some [])
      | key0 :: key' =>
          match tn with
          | NNil => Ok (Some [])
          | NShort Key Val _ =>
              let cont := if (len key <? len Key) || negb (bool_decide (Key = take (length Key) key))
                          then Ok (Some []) else prove_walk fuel Val (drop (length Key) key) in
              let* r := cont in Ok (option_map (cons tn) r)
          | NFull Children _ =>
              match Children !! Z.to_nat key0 with
              | None => Panic
              | Some c => let* r := prove_walk fuel c key' in Ok (option_map (cons tn) r)
              end
          | NHash h =>
              match resolveHash d tr h [] [] with
              | Ok n => prove_walk fuel n key
              | Err _ => Ok None
              | Panic => Panic
              end
          | NValue _ => Panic
          end
      end
  end.

(** The second loop: nodes stored under their own hash, and the root. *)
Fixpoint prove_elems (first : bool) (nodes : list node) : outcome trie_error (list bytes) :=
  match nodes with
  | [] => Ok []
  | n :: nodes =>
      match hashChildren (W := D) 0 0 n None with
      | (_, Ok (n, _)) =>
          match store (W := D) n None false with
          | (_, Ok hn) =>
              if first || is_hash hn then
                match encode_node n with
                | Ok enc => let* rest := prove_elems false nodes in Ok (enc :: rest)
                | _ => Panic
                end
              else prove_elems false nodes
          | _ => Panic
          end
      | _ => Panic
      end
  end.

Definition Prove (key : bytes) : outcome trie_error (option (list bytes)) :=
  let key := compactHexDecode key in
  let* nodes := prove_walk (enough key) (root tr) key in
  match nodes with
  | None => Ok None
  | Some nodes => let* p := prove_elems true nodes in Ok (Some p)
  end.
End Prove.

(** ** The path of a key *)

Section Path.
Context `{Hash256}.

Definition big (t : tree) : bool := is_node t && (32 <=? len (tenc t)).

(** The nodes strictly below [t] on the path of [k]. *)
Fixpoint path (t : tree) (k : bytes) : list tree :=
  match t with
  | TShort p t =>
      match strip p k with Some r => if is_node t then t :: path t r else [] | None => [] end
  | TFull ts =>
      match k with
      | x :: r => match map (fun c => if is_node c then c :: path c r else []) ts !! Z.to_nat x with
                  | Some l => l
                  | None => []
                  end
      | [] => []
      end
  | _ => []
  end.

Definition bigs (t : tree) (k : bytes) : list tree := List.filter big (path t k).

Lemma path_full ts x r t :
  ts !! Z.to_nat x = Some t -> path (TFull ts) (x :: r) = if is_node t then t :: path t r else [].
Proof. intros E. cbn. by rewrite list_lookup_fmap, E. Qed.

Definition loaded (n : node) (t : tree) : Prop := (exists h, n = tload h 0 t) \/ n = loadref 0 t.

(** What is left to walk from a node: the tree itself when it is a hash. *)
Definition todo (n : node) (t : tree) (k : bytes) : list tree := if is_hash n then t :: bigs t k else bigs t k.

Inductive get_result (n : node) (s : tree) (k : bytes) : outcome proof_error (bytes * node) -> Prop :=
| get_absent k' : tget s k = None -> todo n s k = [] -> get_result n s k (Ok (k', NNil))
| get_value v : tget s k = Some v -> todo n s k = [] -> get_result n s k (Ok ([], NValue v))
| get_hash s' k' :
    canon s' -> keys_ok s' -> hexkey k' -> tget s k = tget s' k' -> todo n s k = s' :: bigs s' k' ->
    (forall U, encs U s -> encs U s') -> (exists p, k = p ++ k' /\ forall q, tget s (p ++ q) = tget s' q) ->
    get_result n s k (Ok (k', NHash (Keccak256 (tenc s'))))
| get_panic k1 x k2 v :
    tget s k = None -> k = k1 ++ [16] -> nibble x -> tget s (k1 ++ x :: k2) = Some v -> hexkey k2 ->
    get_result n s k Panic.

Lemma loaded_cases n s : loaded n s -> canon s ->
  (exists h, n = tload h 0 s) \/ (n = NHash (Keccak256 (tenc s)) /\ big s = true).
Proof.
  intros [?|E] C; [by left|]. unfold loadref, load_of, big in *. rewrite (canon_is_node s C) in *.
  destruct (Z.ltb_spec (len (tenc s)) 32); [left; eauto|right]. split; [done|]. apply Z.leb_le. lia.
Qed.

Lemma big_is_hash gen t : is_node t = true -> is_hash (loadref gen t) = big t.
Proof.
  intros N. unfold loadref, load_of, big. rewrite N. cbn [andb].
  destruct (Z.ltb_spec (len (tenc t)) 32), (Z.leb_spec 32 (len (tenc t))); try lia; by destruct t.
Qed.


(** Moving the result from a child to its parent. *)
Lemma get_result_child n s k c t r res :
  is_hash n = false ->
  tget s k = tget t r -> bigs s k = todo c t r ->
  (forall U, encs U s -> encs U t) ->
  (exists p, k = p ++ r /\ forall q, tget s (p ++ q) = tget t q) ->
  get_result c t r res -> get_result n s k res.
Proof.
  intros Hn Ek Eb HU (p & -> & Hp) G.
  assert (T : todo n s (p ++ r) = todo c t r) by (unfold todo at 1; by rewrite Hn).
  destruct G as [k' E1 E2|v E1 E2|s' k' C K Hk E1 E2 EU (p' & -> & Hp')|k1 x k2 v E1 E2 Hx E3 Hk].
  - apply get_absent; [by rewrite Ek|by rewrite T].
  - apply get_value; [by rewrite Ek|by rewrite T].
  - apply get_hash; try done; [by rewrite Ek|by rewrite T|auto|].
    exists (p ++ p'). split; [apply app_assoc|]. intros q. by rewrite <- app_assoc, Hp.
  - subst r. apply (get_panic _ _ _ (p ++ k1) x k2 v); [by rewrite Ek|by rewrite app_assoc|done| |done].
    by rewrite <- app_assoc, Hp.
Qed.

(** A branch without a value has a longer key. *)
Lemma other_child ts :
  canon (TFull ts) -> ts !! 16%nat = Some TNil ->
  exists y r w, nibble y /\ hexkey r /\ tget (TFull ts) (y :: r) = Some w.
Proof.
  intros C E16. inversion C as [| |ts' L HC H16 (i & j & ti & tj & Hij & Ei & Ej & Hi & Hj)]; subst.
  destruct (child_inhabited ts i ti C Ei Hi) as (k & v & [[Hl Hk]|[-> _]] & Ek); [|congruence].
  exists (Z.of_nat i), k, v. split; [unfold nibble; lia|done].
Qed.

Lemma bigs_child ts x r t :
  ts !! Z.to_nat x = Some t -> is_node t = true -> bigs (TFull ts) (x :: r) = todo (loadref 0 t) t r.
Proof.
  intros E N. unfold bigs. rewrite (path_full ts x r t E), N. unfold todo. rewrite big_is_hash by done. cbn [List.filter].
  by destruct (big t).
Qed.

Lemma bigs_short p t r :
  is_node t = true -> bigs (TShort p t) (p ++ r) = todo (loadref 0 t) t r.
Proof.
  intros N. unfold bigs. cbn [path]. rewrite strip_app, N. unfold todo. rewrite big_is_hash by done. cbn [List.filter].
  by destruct (big t).
Qed.

Lemma get_walk fuel n s k :
  loaded n s -> canon_root s -> keys_ok s -> hexkey k -> (length k < fuel)%nat ->
  get_result n s k (get_loop fuel n k).
Proof.
  revert n s k. induction fuel as [|fuel IH]; intros n s k L C K Hk Hf; [lia|].
  destruct k as [|x k]; [by apply hexkey_nil in Hk|]. cbn [get_loop].
  destruct C as [->|C].
  { assert (n = NNil) as -> by (by destruct L as [[h ->]| ->]). by apply get_absent. }
  destruct (loaded_cases n s L C) as [[h ->]|[-> B]].
  2:{ apply get_hash; try done. by exists []. }
  pose proof C as C'. destruct C' as [p v Hp Hv|p ts Hne Hn Cts|ts Lts HC H16 Htwo].
  - rewrite tload_short, short_test. destruct (strip p (x :: k)) as [r|] eqn:E.
    + pose proof E as E'. apply strip_Some in E'. rewrite E' in Hk. pose proof (hexkey_prefix_free p r Hp Hk) as ->.
      rewrite app_nil_r in E'. rewrite E', drop_all. change (loadref 0 (TVal v)) with (NValue v).
      replace (get_loop fuel (NValue v) []) with (@Ok proof_error _ ([] : bytes, NValue v)) by (by destruct fuel).
      apply get_value; [by rewrite tget_leaf, decide_True|].
      unfold todo, bigs. cbn [is_hash tload path]. rewrite <- (app_nil_r p) at 2. by rewrite strip_app.
    + apply get_absent; [by rewrite tget_short, E|]. unfold todo, bigs. cbn [is_hash tload path]. by rewrite E.
  - rewrite tload_short, short_test. destruct (strip p (x :: k)) as [r|] eqn:E.
    + pose proof E as E'. apply strip_Some in E'. rewrite E' in *. rewrite drop_app_length.
      assert (Hr : hexkey r).
      { destruct r; [rewrite app_nil_r in Hk; by apply hexkey_not_nibbles in Hk|by eapply hexkey_app_inv]. }
      eapply (get_result_child _ _ _ (loadref 0 (TFull ts)) (TFull ts) r); [done|by rewrite tget_short, strip_app|
        by apply bigs_short|intros U HU; by inversion HU| |].
      * exists p. split; [done|]. intros q. by rewrite tget_short, strip_app.
      * apply IH; [by right|by right|by eapply keys_ok_short|done|].
        rewrite length_app in Hf. destruct p; [done|]. cbn [length] in Hf. lia.
    + apply get_absent; [by rewrite tget_short, E|]. unfold todo, bigs. cbn [is_hash tload path]. by rewrite E.
  - destruct (full_slot false (map (loadref 0) ts) ts (x :: k)) as (x' & r & c & t & Er & Ec & Et & Kx & Tx & _ & _ & Hx);
      [by right|done|by rewrite length_map|]. injection Er as <- <-.
    rewrite tload_full, Ec. rewrite list_lookup_fmap, Et in Ec. cbn in Ec. injection Ec as <-.
    unfold tslot, kslot, is16 in Kx, Tx. destruct (Z.eqb_spec x 16) as [->|].
    + subst k. destruct Tx as [->|(v & -> & Hv)].
      * change (loadref 0 TNil) with NNil.
        replace (get_loop fuel NNil []) with (@Panic proof_error (bytes * node)) by (by destruct fuel).
        destruct (other_child ts C) as (y & r & w & Hy & Hr & Ew); [done|].
        apply (get_panic _ _ _ [] y r w); [by rewrite tget_full, Et|done..].
      * change (loadref 0 (TVal v)) with (NValue v).
        replace (get_loop fuel (NValue v) []) with (@Ok proof_error _ ([] : bytes, NValue v)) by (by destruct fuel).
        apply get_value; [by rewrite tget_full, Et|]. unfold todo, bigs. by rewrite (path_full ts 16 [] (TVal v) Et).
    + destruct (tree_nil_dec t) as [->|Ht].
      * change (loadref 0 TNil) with NNil. destruct k as [|y k]; [by apply hexkey_nil in Kx|].
        cbn [length] in Hf. destruct fuel as [|fuel]; [lia|]. cbn [get_loop].
        apply get_absent; [by rewrite tget_full, Et|]. unfold todo, bigs. by rewrite (path_full ts x (y :: k) TNil Et).
      * destruct Tx as [|Ct]; [done|].
        eapply (get_result_child _ _ _ (loadref 0 t) t k); [done|by rewrite tget_full, Et|
          by apply bigs_child; [|apply canon_is_node]|intros U HU; inversion HU; subst; by eauto| |].
        -- exists [x]. split; [done|]. intros q. cbn [app]. by rewrite tget_full, Et.
        -- apply IH; [by right|by right|by eapply keys_ok_child|done|]. cbn [length] in Hf. lia.
Qed.

(** ** Verification *)


Lemma get_walk_tload h s k :
  canon s -> keys_ok s -> hexkey k -> get_result (tload h 0 s) s k (get (tload h 0 s) k).
Proof. intros C K Hk. apply get_walk; [left; eauto|by right|done..|lia]. Qed.


Lemma verify_sound U i proof s k v :
  collision_free U -> Forall U proof -> canon s -> keys_ok s -> encs U s -> hexkey k ->
  verify_loop i (Keccak256 (tenc s)) k proof = Ok v -> v = tget s k.
Proof.
  intros Ucf F. revert i s k. induction F as [|buf proof Hb F IH]; intros i s k C K E Hk V; [discriminate|].
  cbn [verify_loop] in V. case_bool_decide as Eh; [|discriminate]. cbn [negb] in V.
  apply Ucf in Eh as ->; [|done|by apply encs_U; [|apply canon_is_node]].
  rewrite decodeNode_tenc in V by done. cbn [obind] in V.
  destruct (get_walk_tload (Some (Keccak256 (tenc s))) s k C K Hk)
    as [k' E1 E2|w E1 E2|s' k' C' K' Hk' E1 E2 EU _|k1 x k2 w E1 E2 Hx E3 Hk2]; cbn [obind] in V.
  - rewrite E1. destruct proof; [congruence|discriminate].
  - rewrite E1. destruct proof; [congruence|discriminate].
  - rewrite E1. by apply (IH (S i) s' k'); auto.
  - discriminate.
Qed.
End Path.

(** ** Construction *)

Section ProveOk.
Context `{Hash256} `{DatabaseLaws D} (d : D).






End ProveOk.

(** ** Theorems *)

Section Theorems.
Context `{Hash256} `{DatabaseLaws D}.




(** C29: proofs cannot be forged: whatever list of byte strings verifies against
    the root hash of a trie, the result is what the trie holds for the key, as
    long as the hash does not collide on the list and the trie's nodes. *)
Theorem verify_sound_root (U : bytes -> Prop) (d : D) tr t key proof v :
  collision_free U -> Forall U proof -> encs U t -> trie_ok d tr t -> canon t -> byte_key key ->
  VerifyProof (root_hash t) key proof = Ok v -> v = content t key.
Proof.
  intros Ucf F E [_ _ B] C Hk V. unfold VerifyProof in V. rewrite root_hash_canon in V by done.
  apply (verify_sound U 0 proof); try done; [by apply byte_keys_ok|by apply hexkey_of].
Qed.
End Theorems.

(** ** Witnesses *)

#[local] Existing Instance keccak_hash.


Lemma verify_sound_root_witness : Some [6] = content leaf_tree [1; 2].
Proof.
  apply (verify_sound_root (H0 := MemDatabase_database) leaf_U NewMemDatabase leaf_trie leaf_tree [1; 2]
           [tenc leaf_tree] (Some [6]));
    [by intros ? ? -> ->|by constructor|apply leaf_encs|apply leaf_trie_ok|apply leaf_canon|
     repeat constructor; cbn; unfold byte_ok; lia|vm_compute; reflexivity].
Defined.

(** Two keys that part at the first nibble. *)
Definition branch_trie : Trie :=
  match run NewMemDatabase empty_trie [OpUpdate [0x12] [1]; OpUpdate [0x32] [2]] with
  | Some tr => tr
  | None => empty_trie
  end.
Definition branch_hash : bytes := match Hash MemDatabase branch_trie with Ok (h, _) => h | _ => [] end.
Definition branch_proof : list bytes := match Prove NewMemDatabase branch_trie [] with Ok (Some p) => p | _ => [] end.

(** Verification panics instead of reporting absence when the path of the
    key ends in a branch without a value: here the proof [Prove] builds for the
    empty key, which the trie does not hold. *)
Theorem verify_absent_prefix_panics :
  option_map fst (outcome_val (TryGet NewMemDatabase branch_trie [])) = Some None /\
  length branch_proof = 1%nat /\ map Keccak256 branch_proof = [branch_hash] /\
  VerifyProof branch_hash [] branch_proof = Panic.
Proof. repeat split; vm_compute; reflexivity. Qed.
