(* ===== verification/SecureTrie.v ===== *)
(** * Secure tries (src/trie/secure_trie.go)

    A trie whose keys are hashed, with the pre-images of the keys kept in a
    cache and written with the next commit.  The cache is a Go map; a copy of a
    secure trie starts a cache of its own at its first access, which the flag
    [owner] (the self pointer of the source) decides.  The key buffers that are
    reused between calls are values here. *)

From S2P Require Import Prelude RlpEncode TrieEncoding TrieNode TrieTree TrieStore Helper Database Trie TrieSpec TrieHash TrieMap Keccak.

Record SecureTrie := { strie : Trie; secKeyCache : gmap bytes bytes; owner : bool }.

(** The bytes of "secure-key-". *)
Definition secureKeyPrefix : bytes := [115; 101; 99; 117; 114; 101; 45; 107; 101; 121; 45].

Section Secure.
Context `{Hash256} `{Database D}.

Definition hashKey (key : bytes) : bytes := Keccak256 key.
Definition secKey (key : bytes) : bytes := secureKeyPrefix ++ key.

(** [getSecKeyCache]: the cache, fresh when the trie is a copy. *)
Definition getSecKeyCache (t : SecureTrie) : SecureTrie :=
  if owner t then t else {| strie := strie t; secKeyCache := ∅; owner := true |}.

Definition NewSecure (d : D) (rootHash : bytes) (cachelimit : Z) : outcome trie_error SecureTrie :=
  let* tr := New d rootHash in
  Ok {| strie := SetCacheLimit tr cachelimit; secKeyCache := ∅; owner := false |}.

(** The struct copy [*t] of a client. *)
Definition copy (t : SecureTrie) : SecureTrie :=
  {| strie := strie t; secKeyCache := secKeyCache t; owner := false |}.

Definition set_strie (t : SecureTrie) (tr : Trie) : SecureTrie :=
  {| strie := tr; secKeyCache := secKeyCache t; owner := owner t |}.

Definition set_cache (t : SecureTrie) (c : gmap bytes bytes) : SecureTrie :=
  {| strie := strie t; secKeyCache := c; owner := owner t |}.

Definition sec_TryGet (d : D) (t : SecureTrie) (key : bytes) : outcome trie_error (option bytes * SecureTrie) :=
  let* (v, tr) := TryGet d (strie t) (hashKey key) in Ok (v, set_strie t tr).

Definition sec_TryUpdate (d : D) (t : SecureTrie) (key value : bytes) : outcome trie_error SecureTrie :=
  let hk := hashKey key in
  let* tr := TryUpdate d (strie t) hk value in
  let t := getSecKeyCache (set_strie t tr) in
  Ok (set_cache t (<[hk := key]> (secKeyCache t))).

(** The cache entry goes even when the deletion from the trie fails. *)
Definition sec_TryDelete (d : D) (t : SecureTrie) (key : bytes) : SecureTrie * outcome trie_error unit :=
  let hk := hashKey key in
  let t := getSecKeyCache t in
  let t := set_cache t (base.delete hk (secKeyCache t)) in
  match TryDelete d (strie t) hk with
  | Ok tr => (set_strie t tr, Ok tt)
  | Err e => (t, Err e)
  | Panic => (t, Panic)
  end.

Definition GetKey (d : D) (t : SecureTrie) (shaKey : bytes) : option bytes * SecureTrie :=
  let t := getSecKeyCache t in
  match secKeyCache t !! shaKey with
  | Some key => (Some key, t)
  | None => (db_get d (secKey shaKey), t)
  end.

Definition sec_Hash (t : SecureTrie) : outcome hash_error (bytes * SecureTrie) :=
  let* (h, tr) := Hash D (strie t) in Ok (h, set_strie t tr).
End Secure.

(** Committing writes to any database writer, a batch for instance. *)
Section SecureCommit.
Context `{Hash256} `{Writer W}.

(** Writing the pre-images, up to the first failing [Put]. *)
Fixpoint put_all (d : W) (l : list (bytes * bytes)) : W * bool :=
  match l with
  | [] => (d, true)
  | (hk, key) :: l =>
      let '(d, ok) := db_put d (secKey hk) key in
      if ok : bool then put_all d l else (d, false)
  end.

Definition sec_CommitTo (d : W) (t : SecureTrie) : W * SecureTrie * outcome hash_error bytes :=
  let t := getSecKeyCache t in
  let '(d, ok) := put_all d (map_to_list (secKeyCache t)) in
  if ok : bool then
    let t := set_cache t ∅ in
    let '(db, r) := CommitTo (strie t) d in
    let d := match db with Some d => d | None => d end in
    match r with
    | Ok (h, tr) => (d, set_strie t tr, Ok h)
    | Err e => (d, t, Err e)
    | Panic => (d, t, Panic)
    end
  else (d, t, Err PutFailed).
End SecureCommit.

(** ** A map on plain keys *)

Section SecureOk.
Context `{Hash256} `{DatabaseLaws D} (K : bytes -> Prop) (Kcf : collision_free K).

(** On the keys of [K] the secure trie is the map [m]; the cache holds
    pre-images. *)
Record sec_repr (d : D) (t : SecureTrie) (tr : tree) (m : gmap bytes bytes) : Prop := {
  sec_trie : trie_ok d (strie t) tr;
  sec_content : forall key, K key -> content tr (hashKey key) = m !! key;
  sec_cache : owner t = true -> forall hk key, secKeyCache t !! hk = Some key -> hk = hashKey key
}.

Definition sec_ok (d : D) (t : SecureTrie) (m : gmap bytes bytes) : Prop := exists tr, sec_repr d t tr m.

Lemma hashKey_byte key : byte_key (hashKey key).
Proof. split; [apply Keccak256_ok|]. unfold hashKey. rewrite Keccak256_length. lia. Qed.

Lemma hashKey_inj k1 k2 : K k1 -> K k2 -> hashKey k1 = hashKey k2 -> k1 = k2.
Proof. apply Kcf. Qed.

Lemma sec_TryGet_ok d t m key :
  sec_ok d t m -> K key ->
  exists t', sec_TryGet d t key = Ok (m !! key, t') /\ sec_ok d t' m.
Proof.
  intros (tr & [T G Ch]) Hk. unfold sec_TryGet.
  destruct (TryGet_ok d (strie t) tr (hashKey key) T (hashKey_byte key)) as (tr' & -> & T' & _). cbn [obind].
  rewrite G by done. eexists. split; [done|]. by exists tr.
Qed.

Lemma getSecKeyCache_ok d t tr m :
  sec_repr d t tr m -> sec_repr d (getSecKeyCache t) tr m /\ owner (getSecKeyCache t) = true.
Proof.
  intros O. unfold getSecKeyCache. destruct (owner t) eqn:E; [done|].
  split; [|done]. split; [apply O|apply O|done].
Qed.

Definition sec_update (m : gmap bytes bytes) (key value : bytes) : gmap bytes bytes :=
  if decide (value = []) then base.delete key m else <[key := value]> m.

Lemma sec_TryUpdate_ok d t m key value :
  sec_ok d t m -> K key -> bytes_ok value -> len value < 2 ^ 32 ->
  exists t', sec_TryUpdate d t key value = Ok t' /\ sec_ok d t' (sec_update m key value) /\
    owner t' = true /\ secKeyCache t' !! hashKey key = Some key.
Proof.
  intros (tr & [T G Ch]) Hk Hv Lv. unfold sec_TryUpdate.
  destruct (TryUpdate_ok d (strie t) tr (hashKey key) value T (hashKey_byte key) Hv Lv) as (n & tr' & -> & T' & G').
  cbn [obind]. eexists. split; [done|].
  assert (O : sec_repr d (set_strie t (set_root (strie t) n)) tr' (sec_update m key value)).
  { split; [done| |done]. intros k HK. rewrite G' by apply hashKey_byte. rewrite G by done.
    unfold sec_update. destruct (decide (k = key)) as [->|Hne].
    - rewrite decide_True by done. destruct (decide (value = [])); [by rewrite lookup_delete_eq|by rewrite lookup_insert_eq].
    - rewrite decide_False by (by intros ?%hashKey_inj).
      destruct (decide (value = [])); [by rewrite lookup_delete_ne|by rewrite lookup_insert_ne]. }
  destruct (getSecKeyCache_ok _ _ _ _ O) as [[T2 G2 C2] Ow]. split; [|split; [done|apply lookup_insert_eq]].
  exists tr'. split; [done|done|]. intros _ hk k. cbn. rewrite lookup_insert. destruct (decide (hashKey key = hk)) as [<-|]; [congruence|by apply C2].
Qed.

Lemma sec_TryDelete_ok d t m key :
  sec_ok d t m -> K key ->
  exists t', sec_TryDelete d t key = (t', Ok tt) /\ sec_ok d t' (base.delete key m).
Proof.
  intros [tr O] Hk. unfold sec_TryDelete. apply getSecKeyCache_ok in O as [[T G Ch] Ow].
  cbn [strie set_cache].
  destruct (TryDelete_ok d _ tr (hashKey key) T (hashKey_byte key)) as (n & tr' & -> & T' & G').
  eexists. split; [done|]. exists tr'. split; [done| |].
  - intros k HK. rewrite G' by apply hashKey_byte. rewrite G by done.
    destruct (decide (k = key)) as [->|Hne]; [by rewrite decide_True, lookup_delete_eq|].
    rewrite decide_False by (by intros ?%hashKey_inj). by rewrite lookup_delete_ne.
  - intros _ hk k. cbn. intros E. apply lookup_delete_Some in E as [_ E]. by apply Ch.
Qed.

(** ** Commit *)

Lemma secKey_length key hk : hk = hashKey key -> length (secKey hk) = 43%nat.
Proof. intros ->. unfold secKey, hashKey. rewrite length_app, Keccak256_length. done. Qed.

(** Pre-images go under keys of their own. *)
Lemma put_all_ok l (d d' : D) ok :
  Forall (fun '(hk, key) => hk = hashKey key) l -> put_all d l = (d', ok) ->
  (forall k, length k = 32%nat -> db_get d' k = db_get d k) /\
  (ok = true -> NoDup l.*1 -> forall hk key, (hk, key) ∈ l -> db_get d' (secKey hk) = Some key) /\
  (forall k, (forall hk, hk ∈ l.*1 -> k <> secKey hk) -> db_get d' k = db_get d k).
Proof.
  intros F. revert d. induction F as [|[hk key] l E F IH]; intros d P; cbn [put_all] in P.
  { injection P as <- <-. repeat split; try done. intros _ _ hk key Hin. by apply not_elem_of_nil in Hin. }
  destruct (db_put d (secKey hk) key) as [d1 ok1] eqn:E1. destruct ok1.
  - destruct (IH d1 P) as (I1 & I2 & I3).
    assert (S : forall k, db_get d1 k = if decide (k = secKey hk) then Some key else db_get d k)
      by (intros; by eapply db_get_put).
    split; [|split].
    + intros k Lk. rewrite I1, S by done. rewrite decide_False; [done|]. intros ->. by rewrite (secKey_length key) in Lk.
    + intros Hok ND hk' key' Hin. cbn in ND. apply NoDup_cons in ND as [Hn ND]. apply elem_of_cons in Hin as [[= -> ->]|Hin].
      * rewrite I3, S, decide_True by (try done; intros hk' Hhk' E'; apply app_inv_head in E'; by subst). done.
      * by apply I2.
    + intros k Hk. rewrite I3, S by (intros hk' Hhk'; apply Hk; cbn; by apply elem_of_cons; right).
      rewrite decide_False; [done|]. apply Hk. cbn. by apply elem_of_cons; left.
  - injection P as <- <-. assert (S : forall k, db_get d1 k = db_get d k) by (intros; by eapply db_get_put_fail).
    repeat split; intros; try done; by rewrite ?S.
Qed.

(** Trie nodes live under keys of 32 bytes. *)
Lemma trie_ok_ext d d' tr t :
  (forall k, length k = 32%nat -> db_get d' k = db_get d k) -> trie_ok d tr t -> trie_ok d' tr t.
Proof.
  intros E [R C B]. split; [|done|done].
  assert (HE : encs (fun _ => True) t) by (destruct C as [->|C]; [constructor|by apply encs_all]).
  apply (repr_keeps (fun _ => True) d d'); [|done|done].
  intros e _. by rewrite E by apply Keccak256_length.
Qed.

Lemma NewSecure_ok d t m limit :
  canon t -> byte_keys t -> stored d t -> root_hash t <> zeros 32 -> root_hash t <> emptyRoot ->
  (forall key, K key -> content t (hashKey key) = m !! key) ->
  exists t', NewSecure d (root_hash t) limit = Ok t' /\ sec_ok d t' m /\ owner t' = false.
Proof.
  intros C B S Z1 Z2 G. unfold NewSecure. destruct (New_ok d t C B S Z1 Z2) as (tr & -> & T). cbn [obind].
  eexists. split; [done|]. split; [|done]. exists t. split; [|done|done]. by destruct T.
Qed.

Lemma cache_list_ok d t tr m :
  sec_repr d t tr m -> owner t = true -> Forall (fun '(hk, key) => hk = hashKey key) (map_to_list (secKeyCache t)).
Proof.
  intros O Ow. apply Forall_forall. intros [hk key] Hin%elem_of_map_to_list. by apply (sec_cache _ _ _ _ O).
Qed.

Lemma sec_CommitTo_ok (U : bytes -> Prop) d t tr m :
  collision_free U -> encs U tr -> sec_repr d t tr m ->
  (exists d' t', sec_CommitTo d t = (d', t', Ok (root_hash tr)) /\ sec_repr d' t' tr m /\
     (tr <> TNil -> stored d' tr) /\
     forall hk key, owner t = true -> secKeyCache t !! hk = Some key -> db_get d' (secKey hk) = Some key) \/
  (exists d' t', sec_CommitTo d t = (d', t', Err PutFailed) /\ sec_repr d' t' tr m).
Proof.
  intros Ucf HE O. unfold sec_CommitTo.
  assert (Hc : owner t = true -> getSecKeyCache t = t) by (unfold getSecKeyCache; by intros ->).
  apply getSecKeyCache_ok in O as [O Ow]. pose proof (cache_list_ok _ _ _ _ O Ow) as F.
  destruct (put_all d _) as [d1 ok] eqn:P. destruct (put_all_ok _ _ _ _ F P) as (P1 & P2 & _). destruct O as [T G Ch].
  apply (trie_ok_ext d d1) in T; [|done]. destruct ok.
  2: { right. eexists d1, _. split; [done|]. by split. }
  cbn [strie set_cache].
  destruct (CommitTo_ok U d1 _ tr Ucf HE T) as [(d' & tr' & -> & [_ Gr] & T' & S)|(d' & -> & _ & T')]; [left|right];
    (eexists d', _; split; [done|]).
  - split; [by split|]. split; [done|]. intros hk key Hown Hhk. rewrite (Hc Hown) in *.
    rewrite Gr by (rewrite (secKey_length key); [lia|by apply Ch]).
    apply P2; [done|apply NoDup_fst_map_to_list|by apply elem_of_map_to_list].
  - by split.
Qed.

(** ** Histories *)

Inductive sec_op := SGet (key : bytes) | SUpdate (key value : bytes) | SDelete (key : bytes).

Definition sec_op_ok (o : sec_op) : Prop :=
  match o with
  | SGet key | SDelete key => K key
  | SUpdate key value => K key /\ bytes_ok value /\ len value < 2 ^ 32
  end.

(** The results of the lookups, and the final state. *)
Fixpoint sec_run (d : D) (t : SecureTrie) (ops : list sec_op) : option (list (option bytes) * SecureTrie) :=
  match ops with
  | [] => Some ([], t)
  | SGet key :: ops =>
      match sec_TryGet d t key with
      | Ok (v, t) => match sec_run d t ops with Some (vs, t) => Some (v :: vs, t) | None => None end
      | _ => None
      end
  | SUpdate key value :: ops =>
      match sec_TryUpdate d t key value with Ok t => sec_run d t ops | _ => None end
  | SDelete key :: ops =>
      match sec_TryDelete d t key with (t, Ok _) => sec_run d t ops | _ => None end
  end.

Fixpoint sec_spec (m : gmap bytes bytes) (ops : list sec_op) : list (option bytes) * gmap bytes bytes :=
  match ops with
  | [] => ([], m)
  | SGet key :: ops => let '(vs, m') := sec_spec m ops in (m !! key :: vs, m')
  | SUpdate key value :: ops => sec_spec (sec_update m key value) ops
  | SDelete key :: ops => sec_spec (base.delete key m) ops
  end.

(** A secure trie is a map on plain keys, whatever the history: for a set
    of keys whose hashes do not collide every sequence of lookups, updates and
    deletions succeeds and returns what a map returns. *)
Theorem secure_refines_map d t m ops :
  sec_ok d t m -> Forall sec_op_ok ops ->
  exists t', sec_run d t ops = Some ((sec_spec m ops).1, t') /\ sec_ok d t' (sec_spec m ops).2.
Proof.
  intros O F. revert t m O. induction F as [|o ops Ho F IH]; intros t m O; [by exists t|].
  destruct o as [key|key value|key]; cbn [sec_run sec_spec].
  - destruct (sec_TryGet_ok d t m key O Ho) as (t1 & -> & O1).
    destruct (IH t1 m O1) as (t2 & -> & O2). exists t2. by destruct (sec_spec m ops).
  - destruct Ho as (Hk & Hv & Lv). destruct (sec_TryUpdate_ok d t m key value O Hk Hv Lv) as (t1 & -> & O1 & _).
    by apply IH.
  - destruct (sec_TryDelete_ok d t m key O Ho) as (t1 & -> & O1). by apply IH.
Qed.

(** Committing a secure trie: after a successful commit a trie opened under
    the returned root is the same map, and gives the pre-image of every key
    hash the committed trie had cached; a commit that fails leaves the trie
    usable. *)
Theorem secure_commit (U : bytes -> Prop) d t tr m limit :
  collision_free U -> encs U tr -> canon tr -> root_hash tr <> zeros 32 -> root_hash tr <> emptyRoot ->
  sec_repr d t tr m ->
  (exists d' t' t2, sec_CommitTo d t = (d', t', Ok (root_hash tr)) /\ sec_ok d' t' m /\
     NewSecure d' (root_hash tr) limit = Ok t2 /\ sec_ok d' t2 m /\
     forall hk key, owner t = true -> secKeyCache t !! hk = Some key -> fst (GetKey d' t2 hk) = Some key) \/
  (exists d' t', sec_CommitTo d t = (d', t', Err PutFailed) /\ sec_ok d' t' m).
Proof.
  intros Ucf HE C Z1 Z2 O.
  destruct (sec_CommitTo_ok U d t tr m Ucf HE O) as [(d' & t' & -> & O' & S & Pr)|(d' & t' & -> & O')]; [left|right].
  - destruct (NewSecure_ok d' tr m limit C (ok_keys _ _ _ (sec_trie _ _ _ _ O)) (S (canon_not_nil tr C)) Z1 Z2
      (sec_content _ _ _ _ O)) as (t2 & En & O2 & Ow).
    exists d', t', t2. split; [done|]. split; [by exists tr|]. split; [done|]. split; [done|].
    intros hk key Hown Hhk. unfold GetKey, getSecKeyCache. rewrite Ow. cbn. by apply Pr.
  - exists d', t'. split; [done|]. by exists tr.
Qed.
End SecureOk.

(** ** Witnesses *)

#[local] Existing Instance keccak_hash.

Definition one_key : bytes -> Prop := fun key => key = [1; 2].
Definition fresh_secure : SecureTrie := {| strie := empty_trie; secKeyCache := ∅; owner := false |}.

Lemma fresh_secure_ok : sec_ok one_key NewMemDatabase fresh_secure ∅.
Proof. exists TNil. split; [|done|done]. split; [constructor|by left|done]. Qed.

Lemma secure_refines_map_witness :
  exists t', sec_run NewMemDatabase fresh_secure [SUpdate [1; 2] [3]; SGet [1; 2]; SDelete [1; 2]; SGet [1; 2]] =
    Some ([Some [3]; None], t').
Proof.
  destruct (secure_refines_map (H0 := MemDatabase_database) one_key (fun _ _ => fun E F _ => eq_trans E (eq_sym F))
    NewMemDatabase fresh_secure ∅ [SUpdate [1; 2] [3]; SGet [1; 2]; SDelete [1; 2]; SGet [1; 2]]) as (t' & E & _).
  - apply fresh_secure_ok.
  - repeat constructor; cbn; unfold byte_ok; lia.
  - exists t'. exact E.
Defined.

Definition sec_leaf_key : bytes := Eval vm_compute in hashKey [1; 2].
Definition sec_leaf_tree : tree := TShort (compactHexDecode sec_leaf_key) (TVal [3]).
Definition sec_leaf : SecureTrie :=
  {| strie := {| root := NShort (compactHexDecode sec_leaf_key) (NValue [3]) {| fhash := None; fgen := 0; fdirty := true |};
                 originalRoot := zeros 32; cachegen := 0; cachelimit := 0 |};
     secKeyCache := {[ sec_leaf_key := [1; 2] ]}; owner := true |}.

Lemma hashKey_sec_leaf : hashKey [1; 2] = sec_leaf_key.
Proof. vm_compute. reflexivity. Qed.

Lemma sec_leaf_byte_key : byte_key sec_leaf_key.
Proof. rewrite <- hashKey_sec_leaf. apply hashKey_byte. Qed.

Lemma sec_leaf_canon : canon sec_leaf_tree.
Proof.
  constructor; [apply compactHexDecode_hexkey, sec_leaf_byte_key|]; repeat constructor; cbn; unfold byte_ok; try lia. done.
Qed.

Lemma sec_leaf_ok : sec_repr one_key NewMemDatabase sec_leaf sec_leaf_tree {[ [1; 2] := [3] ]}.
Proof.
  split.
  - split; [constructor; [constructor|done]|right; apply sec_leaf_canon|].
    intros k v Hk E. unfold sec_leaf_tree in E. rewrite tget_leaf in E. case_decide; [subst|done].
    exists sec_leaf_key. split; [apply sec_leaf_byte_key|done].
  - intros key ->. rewrite hashKey_sec_leaf. unfold content, sec_leaf_tree.
    by rewrite tget_leaf, decide_True, lookup_singleton_eq.
  - intros _ hk key Hc. unfold sec_leaf in Hc. cbn [secKeyCache] in Hc. apply lookup_singleton_Some in Hc as [<- <-]. by rewrite hashKey_sec_leaf.
Qed.

Definition sec_leaf_U (e : bytes) : Prop := e = tenc sec_leaf_tree.

Lemma secure_commit_witness :
  (exists d' t' t2, sec_CommitTo NewMemDatabase sec_leaf = (d', t', Ok (root_hash sec_leaf_tree)) /\
     sec_ok one_key d' t' {[ [1; 2] := [3] ]} /\
     NewSecure d' (root_hash sec_leaf_tree) 0 = Ok t2 /\ sec_ok one_key d' t2 {[ [1; 2] := [3] ]} /\
     forall hk key, owner sec_leaf = true -> secKeyCache sec_leaf !! hk = Some key -> fst (GetKey d' t2 hk) = Some key) \/
  (exists d' t', sec_CommitTo NewMemDatabase sec_leaf = (d', t', Err PutFailed) /\ sec_ok one_key d' t' {[ [1; 2] := [3] ]}).
Proof.
  apply (secure_commit (H0 := MemDatabase_database) one_key sec_leaf_U);
    [by intros ? ? -> ->|constructor; [done|constructor]|apply sec_leaf_canon| | |apply sec_leaf_ok].
  - intros E. apply (f_equal (fun l => l !! 0%nat)) in E. vm_compute in E. discriminate.
  - intros E. apply (f_equal (fun l => l !! 0%nat)) in E. vm_compute in E. discriminate.
Defined.
