(* ===== verification/StateTrie.v ===== *)
(** * The trie interface of the state (the use of src/trie by src/blockchainCore/state)

    What package [state] calls of a secure trie, as a class of operations and a
    class of laws, with the secure trie as its instance.  [Get], [Update] and
    [Delete] are the variants of the secure trie that log errors instead of
    returning them: a failed lookup gives nil and a failed update changes
    nothing. *)

From S2P Require Import Prelude RlpEncode TrieEncoding TrieNode TrieTree TrieStore Helper Database Trie TrieSpec TrieHash TrieMap SecureTrie.

Abbreviation total A := (outcome Empty_set A).

Class StateTrie (T D : Type) := {
  st_new : D -> bytes -> Z -> outcome trie_error T;
  st_get : D -> T -> bytes -> total (bytes * T);
  st_update : D -> T -> bytes -> bytes -> total T;
  st_delete : D -> T -> bytes -> total T;
  st_hash : T -> total (bytes * T);
  st_copy : T -> T;
  st_commit W `{Writer W} : W -> T -> W * T * outcome hash_error bytes
}.

(** What a lookup returns. *)
Definition st_value `{StateTrie T D} (d : D) (t : T) (key : bytes) : bytes :=
  match st_get d t key with Ok (v, _) => v | _ => [] end.

(** [st_ok d t]: the nodes of the trie can be loaded.  Lookups and hashing then
    succeed and change no value.  [st_key]: the keys in use.  Writing one of them
    changes no other; a key that is not in use may be changed with it, since keys
    are hashed. *)
Class StateTrieLaws (T D : Type) `{StateTrie T D} := {
  st_key : bytes -> Prop;
  st_key_dec k :: Decision (st_key k);
  st_ok : D -> T -> Prop;
  st_get_ok d t key :
    st_ok d t ->
    exists v t', st_get d t key = Ok (v, t') /\ st_ok d t' /\ forall k, st_value d t' k = st_value d t k;
  st_new_empty d limit :
    exists t, st_new d (zeros 32) limit = Ok t /\ st_ok d t /\ forall k, st_value d t k = [];
  st_update_ok d t key value :
    st_ok d t -> st_key key -> bytes_ok value -> len value < 2 ^ 32 ->
    exists t', st_update d t key value = Ok t' /\ st_ok d t' /\
      forall k, (st_value d t' k = value /\ (st_key k -> k = key)) \/ (k <> key /\ st_value d t' k = st_value d t k);
  st_delete_ok d t key :
    st_ok d t -> st_key key ->
    exists t', st_delete d t key = Ok t' /\ st_ok d t' /\
      forall k, (st_value d t' k = [] /\ (st_key k -> k = key)) \/ (k <> key /\ st_value d t' k = st_value d t k);
  st_hash_ok d t :
    st_ok d t ->
    exists h t', st_hash t = Ok (h, t') /\ word 32 h /\ st_ok d t' /\ forall k, st_value d t' k = st_value d t k
}.

(** [st_in d t]: all values of the trie are under keys in use.  The hash of such
    a trie is a function of the values of these keys. *)
Class StateTrieRoots (T D : Type) `{StateTrieLaws T D} := {
  st_in : D -> T -> Prop;
  st_in_ok d t : st_in d t -> st_ok d t;
  st_in_get d t key v t' : st_in d t -> st_get d t key = Ok (v, t') -> st_in d t';
  st_in_new d limit t : st_new d (zeros 32) limit = Ok t -> st_in d t;
  st_in_update d t key value t' :
    st_in d t -> st_key key -> bytes_ok value -> len value < 2 ^ 32 -> st_update d t key value = Ok t' -> st_in d t';
  st_in_delete d t key t' : st_in d t -> st_key key -> st_delete d t key = Ok t' -> st_in d t';
  st_in_hash d t h t' : st_in d t -> st_hash t = Ok (h, t') -> st_in d t';
  st_hash_unique d1 d2 t1 t2 h1 h2 t1' t2' :
    st_in d1 t1 -> st_in d2 t2 -> (forall k, st_key k -> st_value d1 t1 k = st_value d2 t2 k) ->
    st_hash t1 = Ok (h1, t1') -> st_hash t2 = Ok (h2, t2') -> h1 = h2
}.

(** ** The secure trie *)

Section Instance_.
Context `{Hash256} `{Database D}.

Definition sec_Get (d : D) (t : SecureTrie) (key : bytes) : total (bytes * SecureTrie) :=
  match sec_TryGet d t key with
  | Ok (v, t) => Ok (default [] v, t)
  | Err _ => Ok ([], t)
  | Panic => Panic
  end.

Definition sec_Update (d : D) (t : SecureTrie) (key value : bytes) : total SecureTrie :=
  match sec_TryUpdate d t key value with Ok t => Ok t | Err _ => Ok t | Panic => Panic end.

Definition sec_Delete (d : D) (t : SecureTrie) (key : bytes) : total SecureTrie :=
  match sec_TryDelete d t key with (t, Panic) => Panic | (t, _) => Ok t end.

Definition sec_Hash_ (t : SecureTrie) : total (bytes * SecureTrie) :=
  match sec_Hash (D := D) t with Ok r => Ok r | _ => Panic end.

#[export] Instance SecureTrie_state : StateTrie SecureTrie D :=
  {| st_new := NewSecure; st_get := sec_Get; st_update := sec_Update; st_delete := sec_Delete; st_hash := sec_Hash_;
     st_copy := copy; st_commit _ _ := sec_CommitTo |}.

Lemma sec_Get_content d t tr key :
  trie_ok d (strie t) tr ->
  exists t', sec_Get d t key = Ok (default [] (content tr (hashKey key)), t') /\ trie_ok d (strie t') tr.
Proof.
  intros T. unfold sec_Get, sec_TryGet.
  destruct (TryGet_ok d (strie t) tr (hashKey key) T (hashKey_byte key)) as (tr' & -> & T' & _).
  cbn [obind]. eauto.
Qed.

Lemma sec_value_content d t tr key :
  trie_ok d (strie t) tr -> st_value d t key = default [] (content tr (hashKey key)).
Proof. intros T. unfold st_value. cbn. by destruct (sec_Get_content d t tr key T) as (? & -> & _). Qed.

Lemma listed_free (l : list bytes) : NoDup (Keccak256 <$> l) -> collision_free (fun k => k ∈ l).
Proof.
  intros ND a b Ha Hb E. apply list_elem_of_lookup in Ha as [i Ei], Hb as [j Ej].
  assert (i = j) as ->; [|congruence].
  apply (NoDup_lookup _ i j (Keccak256 a) ND); rewrite list_lookup_fmap, ?Ei, ?Ej; cbn; congruence.
Qed.

(** ** Its laws, for keys whose hashes differ *)

Context `{!DatabaseLaws D} (K : bytes -> Prop) `{!forall k, Decision (K k)} (Kcf : collision_free K).

Definition sec_loads (d : D) (t : SecureTrie) : Prop := exists tr, trie_ok d (strie t) tr.

Lemma sec_written d t t' tr tr' key value k :
  trie_ok d (strie t) tr -> trie_ok d (strie t') tr' -> K key ->
  (forall hk, byte_key hk -> default [] (content tr' hk) = if decide (hk = hashKey key) then value else default [] (content tr hk)) ->
  (st_value d t' k = value /\ (K k -> k = key)) \/ (k <> key /\ st_value d t' k = st_value d t k).
Proof.
  intros T T' Hk G. rewrite (sec_value_content d t tr), (sec_value_content d t' tr'), G by (done || apply hashKey_byte).
  destruct (decide (hashKey k = hashKey key)) as [E|E].
  - left. split; [done|]. intros Kk. by apply Kcf.
  - right. split; [by intros ->|done].
Qed.

Lemma sec_Update_content d t tr key value :
  trie_ok d (strie t) tr -> bytes_ok value -> len value < 2 ^ 32 ->
  exists t' tr', sec_Update d t key value = Ok t' /\ trie_ok d (strie t') tr' /\
    forall hk, byte_key hk -> content tr' hk = if decide (hk = hashKey key) then (if decide (value = []) then None else Some value) else content tr hk.
Proof.
  intros T Hv Lv. unfold sec_Update, sec_TryUpdate.
  destruct (TryUpdate_ok d (strie t) tr (hashKey key) value T (hashKey_byte key) Hv Lv) as (n & tr' & -> & T' & G).
  cbn [obind]. eexists _, tr'. split; [done|]. split; [|done]. unfold getSecKeyCache. cbn. by destruct (owner t).
Qed.

Lemma sec_Delete_content d t tr key :
  trie_ok d (strie t) tr ->
  exists t' tr', sec_Delete d t key = Ok t' /\ trie_ok d (strie t') tr' /\
    forall hk, byte_key hk -> content tr' hk = if decide (hk = hashKey key) then None else content tr hk.
Proof.
  intros T. unfold sec_Delete, sec_TryDelete.
  assert (T0 : trie_ok d (strie (getSecKeyCache t)) tr) by (unfold getSecKeyCache; by destruct (owner t)).
  cbn [strie set_cache].
  destruct (TryDelete_ok d _ tr (hashKey key) T0 (hashKey_byte key)) as (n & tr' & -> & T' & G).
  by eexists _, tr'.
Qed.

Lemma sec_Hash_content d t tr :
  trie_ok d (strie t) tr -> exists t', sec_Hash_ t = Ok (root_hash tr, t') /\ trie_ok d (strie t') tr.
Proof.
  intros T. unfold sec_Hash_, sec_Hash. destruct (Hash_ok d (strie t) tr T) as (n & -> & T'). cbn [obind]. by eexists.
Qed.

Lemma root_hash_word tr : word 32 (root_hash tr).
Proof.
  destruct tr; [split; [apply (bool_decide_unpack _); by vm_compute|done]|..]; (split; [apply Keccak256_ok|apply Keccak256_length]).
Qed.

#[refine] Instance SecureTrie_laws : StateTrieLaws SecureTrie D := {| st_key := K; st_ok := sec_loads |}.
Proof.
  - intros d t key [tr T]. destruct (sec_Get_content d t tr key T) as (t' & E & T').
    eexists _, t'. split; [exact E|]. split; [by exists tr|]. intros k.
    by rewrite !(sec_value_content d _ tr) by done.
  - intros d limit. cbn [st_new SecureTrie_state]. unfold NewSecure. destruct (New_empty d) as (tr & -> & T). cbn [obind].
    eexists. split; [done|]. assert (T' : trie_ok d (SetCacheLimit tr limit) TNil) by (by destruct T).
    split; [by exists TNil|]. intros k. by rewrite (sec_value_content _ _ TNil).
  - intros d t key value [tr T] Hk Hv Lv. destruct (sec_Update_content d t tr key value T Hv Lv) as (t' & tr' & E & T' & G).
    exists t'. split; [exact E|]. split; [by exists tr'|]. intros k. apply (sec_written d t t' tr tr'); [done..|].
    intros hk Hh. rewrite G by done. destruct (decide (hk = hashKey key)); [|done]. by destruct (decide (value = [])).
  - intros d t key [tr T] Hk. destruct (sec_Delete_content d t tr key T) as (t' & tr' & E & T' & G).
    exists t'. split; [exact E|]. split; [by exists tr'|]. intros k. apply (sec_written d t t' tr tr'); [done..|].
    intros hk Hh. rewrite G by done. by destruct (decide (hk = hashKey key)).
  - intros d t [tr T]. destruct (sec_Hash_content d t tr T) as (t' & E & T'). exists (root_hash tr), t'. split; [exact E|].
    split; [apply root_hash_word|]. split; [by exists tr|]. intros k. by rewrite !(sec_value_content d _ tr) by done.
Defined.

(** The values of a canonical tree are not empty. *)
Lemma canon_value t k v : canon t -> tget t k = Some v -> v <> [].
Proof.
  intros C. revert k v. induction C as [p x Hp Hx|p ts Hp Hn C IH|ts L C IH V _]; intros k v.
  - rewrite tget_leaf. case_decide; [intros [= <-]; apply Hx|done].
  - intros (k' & _ & E)%short_key. by apply (IH k').
  - destruct k as [|x k]; [done|]. rewrite tget_full. destruct (ts !! Z.to_nat x) as [t|] eqn:Et; [|done]. intros E.
    assert (N : t <> TNil) by (by intros ->). pose proof (lookup_lt_Some _ _ _ Et) as Lt.
    destruct (decide (Z.to_nat x < 16)%nat) as [Hx|Hx]; [by apply (IH _ _ Hx Et N k)|].
    replace (Z.to_nat x) with 16%nat in Et by lia. destruct (V t Et N) as (u & -> & Hu). cbn in E.
    destruct k; [injection E as <-; apply Hu|done].
Qed.

Lemma content_value d tr t k : trie_ok d tr t -> content t k = None \/ exists v, content t k = Some v /\ v <> [].
Proof.
  intros T. destruct (content t k) as [v|] eqn:E; [|by left]. right. exists v. split; [done|].
  destruct (ok_canon _ _ _ T) as [->|C]; [done|]. by apply (canon_value t (compactHexDecode k)).
Qed.

Definition sec_in (d : D) (t : SecureTrie) : Prop :=
  exists tr, trie_ok d (strie t) tr /\ forall hk, byte_key hk -> content tr hk <> None -> exists k, K k /\ hk = hashKey k.

#[refine] Instance SecureTrie_roots : @StateTrieRoots SecureTrie D SecureTrie_state SecureTrie_laws := {| st_in := sec_in |}.
Proof.
  - intros d t (tr & T & _). by exists tr.
  - intros d t key v t' In E. destruct In as (tr & T & In). destruct (sec_Get_content d t tr key T) as (t2 & E2 & T2).
    cbn [st_get SecureTrie_state] in E. rewrite E2 in E. injection E as <- <-. by exists tr.
  - intros d limit t E. cbn [st_new SecureTrie_state] in E. unfold NewSecure in E. destruct (New_empty d) as (tr & En & T).
    rewrite En in E. injection E as <-. exists TNil.
    split; [by destruct T|]. by intros hk _ [].
  - intros d t key value t' (tr & T & In) Hk Hv Lv E.
    destruct (sec_Update_content d t tr key value T Hv Lv) as (t2 & tr2 & E2 & T2 & G).
    cbn [st_update SecureTrie_state] in E. rewrite E2 in E. injection E as <-. exists tr2. split; [done|].
    intros hk Hh. rewrite G by done. destruct (decide (hk = hashKey key)); [intros _; by exists key|by apply In].
  - intros d t key t' (tr & T & In) Hk E. destruct (sec_Delete_content d t tr key T) as (t2 & tr2 & E2 & T2 & G).
    cbn [st_delete SecureTrie_state] in E. rewrite E2 in E. injection E as <-. exists tr2. split; [done|].
    intros hk Hh. rewrite G by done. case_decide; [done|by apply In].
  - intros d t h t' (tr & T & In) E. destruct (sec_Hash_content d t tr T) as (t2 & E2 & T2).
    cbn [st_hash SecureTrie_state] in E. rewrite E2 in E. injection E as <- <-. by exists tr.
  - intros d1 d2 t1 t2 h1 h2 t1' t2' (tr1 & T1 & In1) (tr2 & T2 & In2) V E1 E2.
    destruct (sec_Hash_content d1 t1 tr1 T1) as (? & F1 & _), (sec_Hash_content d2 t2 tr2 T2) as (? & F2 & _).
    cbn [st_hash SecureTrie_state] in E1, E2. rewrite F1 in E1. rewrite F2 in E2. injection E1 as <- _. injection E2 as <- _.
    f_equal. apply content_unique; try apply T1; try apply T2. intros hk Hh.
    assert (X : forall k, K k -> content tr1 (hashKey k) = content tr2 (hashKey k)).
    { intros k Hk. specialize (V k Hk). rewrite (sec_value_content d1 t1 tr1), (sec_value_content d2 t2 tr2) in V by done.
      destruct (content_value d1 _ tr1 (hashKey k) T1) as [C1|(v1 & C1 & N1)], (content_value d2 _ tr2 (hashKey k) T2) as [C2|(v2 & C2 & N2)];
        rewrite C1, C2 in *; cbn in V; by subst. }
    destruct (content tr1 hk) as [v1|] eqn:C1.
    + destruct (In1 hk Hh ltac:(by rewrite C1)) as (k & Hk & ->). by rewrite <- X, C1.
    + destruct (content tr2 hk) as [v2|] eqn:C2; [|done]. destruct (In2 hk Hh ltac:(by rewrite C2)) as (k & Hk & ->).
      by rewrite <- C2, <- X, C1.
Defined.
End Instance_.
