(* ===== verification/State.v ===== *)
(** * The state of accounts (src/blockchainCore/state)

    [statedb.go], [state_object.go] and [journal.go]: the cache of live account
    objects over the account trie, the journal that snapshots are reverted
    with, and the flush into the tries.

    Go pointers are explicit.  Account objects and tries live in a heap, the
    [World]; a [StateDB] holds pointers into it, and so do journal entries and
    the list of past tries.  Two [StateDB] values over one world can share
    tries, as the code has them after [Copy].  An operation is a function of
    the world and the state database in a state monad; [Panic] is a run-time
    panic (a nil dereference, or the panics of the source).

    The iteration order of Go maps is the parameter [order].  The LRU cache of
    code sizes, logging and the mutex that guards the list of past tries are
    left out. *)

From S2P Require Import Prelude RlpEncode RlpRaw RlpStream Helper Database Trie TrieHash StateTrie.

(** ** Data *)

Record Account := mkAccount { Nonce : Z; Balance : Z; Root : bytes; CodeHash : bytes }.

Definition account_type : rtype := TStruct [TUint 64; TBigInt; TByteArray 32; TBytes].

Definition account_val (a : Account) : rval :=
  VList [VInt (Nonce a); VInt (Balance a); VBytes (Root a); VBytes (CodeHash a)].

Definition val_account (v : rval) : option Account :=
  match v with
  | VList [VInt n; VInt b; VBytes r; VBytes c] => Some (mkAccount n b r c)
  | _ => None
  end.

(** The depth of the type bounds the recursion of the decoder. *)
Definition decode_account (enc : bytes) : outcome rlp_error Account :=
  let* v := DecodeBytes 16 enc account_type in
  match val_account v with Some a => Ok a | None => Panic end.

Inductive db_error := NoStorageTrie | BadStorageValue | NoCode.

Record StateObject := mkObject {
  address : bytes;
  data : Account;
  dbErr : option db_error;
  otrie : option nat;
  code : option bytes;
  cachedStorage : gmap bytes bytes;
  dirtyStorage : gmap bytes bytes;
  dirtyCode : bool;
  suicided : bool;
  deleted : bool;
  onDirty : bool
}.

Definition set_data (o : StateObject) (x : Account) : StateObject :=
  mkObject (address o) x (dbErr o) (otrie o) (code o) (cachedStorage o) (dirtyStorage o) (dirtyCode o) (suicided o)
    (deleted o) (onDirty o).
Definition set_balance (o : StateObject) (x : Z) : StateObject :=
  set_data o (mkAccount (Nonce (data o)) x (Root (data o)) (CodeHash (data o))).
Definition set_nonce (o : StateObject) (x : Z) : StateObject :=
  set_data o (mkAccount x (Balance (data o)) (Root (data o)) (CodeHash (data o))).
Definition set_Root (o : StateObject) (x : bytes) : StateObject :=
  set_data o (mkAccount (Nonce (data o)) (Balance (data o)) x (CodeHash (data o))).
Definition set_dbErr (o : StateObject) (x : option db_error) : StateObject :=
  mkObject (address o) (data o) x (otrie o) (code o) (cachedStorage o) (dirtyStorage o) (dirtyCode o) (suicided o)
    (deleted o) (onDirty o).
Definition set_otrie (o : StateObject) (x : option nat) : StateObject :=
  mkObject (address o) (data o) (dbErr o) x (code o) (cachedStorage o) (dirtyStorage o) (dirtyCode o) (suicided o)
    (deleted o) (onDirty o).
Definition set_code (o : StateObject) (x : option bytes) : StateObject :=
  mkObject (address o) (data o) (dbErr o) (otrie o) x (cachedStorage o) (dirtyStorage o) (dirtyCode o) (suicided o)
    (deleted o) (onDirty o).
Definition set_storage (o : StateObject) (cached dirty : gmap bytes bytes) : StateObject :=
  mkObject (address o) (data o) (dbErr o) (otrie o) (code o) cached dirty (dirtyCode o) (suicided o)
    (deleted o) (onDirty o).
Definition set_dirtyCode (o : StateObject) (x : bool) : StateObject :=
  mkObject (address o) (data o) (dbErr o) (otrie o) (code o) (cachedStorage o) (dirtyStorage o) x (suicided o)
    (deleted o) (onDirty o).
Definition set_suicided (o : StateObject) (x : bool) : StateObject :=
  mkObject (address o) (data o) (dbErr o) (otrie o) (code o) (cachedStorage o) (dirtyStorage o) (dirtyCode o) x
    (deleted o) (onDirty o).
Definition set_deleted (o : StateObject) (x : bool) : StateObject :=
  mkObject (address o) (data o) (dbErr o) (otrie o) (code o) (cachedStorage o) (dirtyStorage o) (dirtyCode o) (suicided o)
    x (onDirty o).
Definition set_onDirty (o : StateObject) (x : bool) : StateObject :=
  mkObject (address o) (data o) (dbErr o) (otrie o) (code o) (cachedStorage o) (dirtyStorage o) (dirtyCode o) (suicided o)
    (deleted o) x.

(** [setError] keeps the first error. *)
Definition setError (o : StateObject) (e : db_error) : StateObject :=
  match dbErr o with None => set_dbErr o (Some e) | Some _ => o end.

Record Log := mkLog {
  logAddress : bytes; logTopics : list bytes; logData : bytes; logBlockNumber : Z;
  logTxHash : bytes; logTxIndex : Z; logBlockHash : bytes; logIndex : Z
}.

Inductive journalEntry :=
| createObjectChange (account : bytes)
| resetObjectChange (prev : nat)
| suicideChange (account : bytes) (prev : bool) (prevbalance : Z)
| balanceChange (account : bytes) (prev : Z)
| nonceChange (account : bytes) (prev : Z)
| storageChange (account key prevalue : bytes)
| codeChange (account : bytes) (prevcode : option bytes) (prevhash : bytes)
| refundChange (prev : Z)
| addLogChange (txhash : bytes).

Record revision := mkRevision { rev_id : Z; journalIndex : nat }.

Record StateDB := mkStateDB {
  s_trie : nat;
  pastTries : list nat;
  stateObjects : gmap bytes nat;
  stateObjectsDirty : gset bytes;
  refund : Z;
  thash : bytes;
  bhash : bytes;
  txIndex : Z;
  logs : gmap bytes (list Log);
  logSize : Z;
  journal : list journalEntry;
  validRevisions : list revision;
  nextRevisionId : Z
}.

Definition set_objects (s : StateDB) (x : gmap bytes nat) : StateDB :=
  mkStateDB (s_trie s) (pastTries s) x (stateObjectsDirty s) (refund s) (thash s) (bhash s) (txIndex s) (logs s)
    (logSize s) (journal s) (validRevisions s) (nextRevisionId s).
Definition set_dirty (s : StateDB) (x : gset bytes) : StateDB :=
  mkStateDB (s_trie s) (pastTries s) (stateObjects s) x (refund s) (thash s) (bhash s) (txIndex s) (logs s)
    (logSize s) (journal s) (validRevisions s) (nextRevisionId s).
Definition set_refund (s : StateDB) (x : Z) : StateDB :=
  mkStateDB (s_trie s) (pastTries s) (stateObjects s) (stateObjectsDirty s) x (thash s) (bhash s) (txIndex s) (logs s)
    (logSize s) (journal s) (validRevisions s) (nextRevisionId s).
Definition set_logs (s : StateDB) (x : gmap bytes (list Log)) (n : Z) : StateDB :=
  mkStateDB (s_trie s) (pastTries s) (stateObjects s) (stateObjectsDirty s) (refund s) (thash s) (bhash s) (txIndex s) x
    n (journal s) (validRevisions s) (nextRevisionId s).
Definition set_journal (s : StateDB) (x : list journalEntry) (rs : list revision) : StateDB :=
  mkStateDB (s_trie s) (pastTries s) (stateObjects s) (stateObjectsDirty s) (refund s) (thash s) (bhash s) (txIndex s)
    (logs s) (logSize s) x rs (nextRevisionId s).
Definition set_pastTries (s : StateDB) (x : list nat) : StateDB :=
  mkStateDB (s_trie s) x (stateObjects s) (stateObjectsDirty s) (refund s) (thash s) (bhash s) (txIndex s)
    (logs s) (logSize s) (journal s) (validRevisions s) (nextRevisionId s).

(** [sort.Search] of the standard library: binary search for the first index
    with [f]. *)
Fixpoint search_loop (fuel : nat) (f : nat -> bool) (i j : nat) : nat :=
  match fuel with
  | O => i
  | S fuel =>
      if (i <? j)%nat then
        let h := ((i + j) / 2)%nat in
        if f h then search_loop fuel f i h else search_loop fuel f (S h) j
      else i
  end.
Definition Search (n : nat) (f : nat -> bool) : nat := search_loop n f 0 n.

(** [bytes.TrimLeft(value, "\x00")]. *)
Fixpoint trimLeft (b : bytes) : bytes := match b with 0 :: b => trimLeft b | _ => b end.

(** ** The heap *)

Record World (T D : Type) := mkWorld {
  wdb : D;
  objs : gmap nat StateObject;
  tries : gmap nat T;
  next : nat
}.
Arguments mkWorld {T D} _ _ _ _.
Arguments wdb {T D} _.
Arguments objs {T D} _.
Arguments tries {T D} _.
Arguments next {T D} _.

Section StateM.
Context {T D : Type}.

Definition SM (A : Type) : Type := World T D -> StateDB -> total (A * World T D * StateDB).

Definition retS {A} (a : A) : SM A := fun w s => Ok (a, w, s).
Definition bindS {A B} (m : SM A) (f : A -> SM B) : SM B :=
  fun w s => match m w s with Ok (a, w, s) => f a w s | Err e => Err e | Panic => Panic end.
Definition panicS {A} : SM A := fun _ _ => Panic.
Definition liftS {A} (m : total A) : SM A :=
  fun w s => match m with Ok a => Ok (a, w, s) | Err e => Err e | Panic => Panic end.

Definition getS : SM StateDB := fun w s => Ok (s, w, s).
Definition modify (f : StateDB -> StateDB) : SM unit := fun w s => Ok (tt, w, f s).
Definition getDb : SM D := fun w s => Ok (wdb w, w, s).

Definition get_obj (p : nat) : SM StateObject :=
  fun w s => match objs w !! p with Some o => Ok (o, w, s) | None => Panic end.
Definition put_obj (p : nat) (o : StateObject) : SM unit :=
  fun w s => Ok (tt, mkWorld (wdb w) (<[p := o]> (objs w)) (tries w) (next w), s).
Definition alloc_obj (o : StateObject) : SM nat :=
  fun w s => Ok (next w, mkWorld (wdb w) (<[next w := o]> (objs w)) (tries w) (S (next w)), s).
Definition get_trie (p : nat) : SM T :=
  fun w s => match tries w !! p with Some t => Ok (t, w, s) | None => Panic end.
Definition put_trie (p : nat) (t : T) : SM unit :=
  fun w s => Ok (tt, mkWorld (wdb w) (objs w) (<[p := t]> (tries w)) (next w), s).
Definition alloc_trie (t : T) : SM nat :=
  fun w s => Ok (next w, mkWorld (wdb w) (objs w) (<[next w := t]> (tries w)) (S (next w)), s).
End StateM.

Notation "'let!' p := m 'in' k" := (bindS m (fun x => match x with p => k end))
  (at level 10, p pattern, m at level 100, k at level 200) : go_scope.

Fixpoint forS {T D A} (l : list A) (f : A -> SM (T := T) (D := D) unit) : SM (T := T) (D := D) unit :=
  match l with
  | [] => retS tt
  | x :: l => let! _ := f x in forS l f
  end.

(** ** Operations

    [StartingNonce] and [MaxTrieCacheGen] are package variables. *)
Section Ops.
Context `{Hash256} `{StateTrie T D} `{Database D} (StartingNonce MaxTrieCacheGen : Z).
Context (order : forall A, list A -> list A).

Abbreviation M A := (SM (T := T) (D := D) A).

Definition emptyCodeHash : bytes := Keccak256 [].

Definition trie_Get (p : nat) (key : bytes) : M bytes :=
  let! d := getDb in
  let! t := get_trie p in
  let! (v, t) := liftS (st_get d t key) in
  let! _ := put_trie p t in
  retS v.

Definition trie_Update (p : nat) (key value : bytes) : M unit :=
  let! d := getDb in
  let! t := get_trie p in
  let! t := liftS (st_update d t key value) in
  put_trie p t.

Definition trie_Delete (p : nat) (key : bytes) : M unit :=
  let! d := getDb in
  let! t := get_trie p in
  let! t := liftS (st_delete d t key) in
  put_trie p t.

Definition trie_Hash (p : nat) : M bytes :=
  let! t := get_trie p in
  let! (h, t) := liftS (st_hash t) in
  let! _ := put_trie p t in
  retS h.

Definition append_journal (e : journalEntry) : M unit :=
  modify (fun s => set_journal s (journal s ++ [e]) (validRevisions s)).

(** *** Account objects (state_object.go) *)

(** [newObject]; nil for the balance and the code hash is [None]. *)
Definition newObject (addr : bytes) (nonce : Z) (balance : option Z) (root : bytes) (codeHash : option bytes) : StateObject :=
  mkObject addr (mkAccount nonce (default 0 balance) root (default emptyCodeHash codeHash)) None None None ∅ ∅
    false false false true.

Definition empty (o : StateObject) : bool :=
  (Nonce (data o) =? 0) && (Balance (data o) =? 0) && bool_decide (CodeHash (data o) = emptyCodeHash).

Definition MarkStateObjectDirty (addr : bytes) : M unit :=
  modify (fun s => set_dirty s ({[addr]} ∪ stateObjectsDirty s)).

(** The callback at the end of every setter, made once. *)
Definition callOnDirty (p : nat) : M unit :=
  let! o := get_obj p in
  if onDirty o then
    let! _ := MarkStateObjectDirty (address o) in put_obj p (set_onDirty o false)
  else retS tt.

Definition markSuicided (p : nat) : M unit :=
  let! o := get_obj p in
  let! _ := put_obj p (set_suicided o true) in
  callOnDirty p.

Definition getTrie (p : nat) : M nat :=
  let! o := get_obj p in
  match otrie o with
  | Some tp => retS tp
  | None =>
      let! d := getDb in
      match st_new d (Root (data o)) 0 with
      | Ok t =>
          let! tp := alloc_trie t in
          let! _ := put_obj p (set_otrie o (Some tp)) in
          retS tp
      | Err _ =>
          match st_new d (zeros 32) 0 with
          | Ok t =>
              let! tp := alloc_trie t in
              let! _ := put_obj p (setError (set_otrie o (Some tp)) NoStorageTrie) in
              retS tp
          | _ => panicS
          end
      | Panic => panicS
      end
  end.

(** The value behind an entry of the storage trie; [value] is zero before. *)
Definition decode_slot (p : nat) (enc : bytes) : M bytes :=
  if 0 <? len enc then
    match Split enc with
    | Ok (_, content, _) => retS (Hash_SetBytes (zeros 32) content)
    | Err _ =>
        let! o := get_obj p in
        let! _ := put_obj p (setError o BadStorageValue) in
        retS (Hash_SetBytes (zeros 32) [])
    | Panic => panicS
    end
  else retS (zeros 32).

Definition obj_GetState (p : nat) (key : bytes) : M bytes :=
  let! o := get_obj p in
  match cachedStorage o !! key with
  | Some value => retS value
  | None =>
      let! tp := getTrie p in
      let! enc := trie_Get tp key in
      let! value := decode_slot p enc in
      if bool_decide (value = zeros 32) then retS value
      else
        let! o := get_obj p in
        let! _ := put_obj p (set_storage o (<[key := value]> (cachedStorage o)) (dirtyStorage o)) in
        retS value
  end.

Definition setState (p : nat) (key value : bytes) : M unit :=
  let! o := get_obj p in
  let! _ := put_obj p (set_storage o (<[key := value]> (cachedStorage o)) (<[key := value]> (dirtyStorage o))) in
  callOnDirty p.

Definition obj_SetState (p : nat) (key value : bytes) : M unit :=
  let! prevalue := obj_GetState p key in
  let! o := get_obj p in
  let! _ := append_journal (storageChange (address o) key prevalue) in
  setState p key value.

(** One round of the loop of [updateTrie]. *)
Definition updateTrie_round (p tp : nat) (kv : bytes * bytes) : M unit :=
  let '(key, value) := kv in
  let! o := get_obj p in
  let! _ := put_obj p (set_storage o (cachedStorage o) (base.delete key (dirtyStorage o))) in
  if bool_decide (value = zeros 32) then trie_Delete tp key
  else match EncodeToBytes TBytes (VBytes (trimLeft value)) with
       | Ok v => trie_Update tp key v
       | _ => panicS
       end.

Definition updateTrie (p : nat) : M unit :=
  let! tp := getTrie p in
  let! o := get_obj p in
  forS (order _ (map_to_list (dirtyStorage o))) (updateTrie_round p tp).

Definition updateRoot (p : nat) : M unit :=
  let! _ := updateTrie p in
  let! o := get_obj p in
  match otrie o with
  | Some tp =>
      let! h := trie_Hash tp in
      let! o := get_obj p in
      put_obj p (set_Root o h)
  | None => panicS
  end.

Definition setBalance (p : nat) (amount : Z) : M unit :=
  let! o := get_obj p in
  let! _ := put_obj p (set_balance o amount) in
  callOnDirty p.

Definition obj_SetBalance (p : nat) (amount : Z) : M unit :=
  let! o := get_obj p in
  let! _ := append_journal (balanceChange (address o) (Balance (data o))) in
  setBalance p amount.

Definition obj_AddBalance (p : nat) (amount : Z) : M unit :=
  let! o := get_obj p in
  if (amount =? 0) && negb (empty o) then retS tt
  else obj_SetBalance p (Balance (data o) + amount).

Definition obj_SubBalance (p : nat) (amount : Z) : M unit :=
  let! o := get_obj p in
  if amount =? 0 then retS tt else obj_SetBalance p (Balance (data o) - amount).

Definition deepCopy (p : nat) : M nat :=
  let! o := get_obj p in
  alloc_obj (mkObject (address o) (data o) None (otrie o) (code o) (dirtyStorage o) (dirtyStorage o) (dirtyCode o)
    (suicided o) (deleted o) true).

Definition obj_Code (p : nat) : M (option bytes) :=
  let! o := get_obj p in
  match code o with
  | Some c => retS (Some c)
  | None =>
      if bool_decide (CodeHash (data o) = emptyCodeHash) then retS None
      else
        let! d := getDb in
        match db_get d (CodeHash (data o)) with
        | Some c => let! _ := put_obj p (set_code o (Some c)) in retS (Some c)
        | None => let! _ := put_obj p (setError o NoCode) in retS None
        end
  end.

Definition setCode (p : nat) (codeHash : bytes) (c : option bytes) : M unit :=
  let! o := get_obj p in
  let o := set_data o (mkAccount (Nonce (data o)) (Balance (data o)) (Root (data o)) codeHash) in
  let! _ := put_obj p (set_dirtyCode (set_code o c) true) in
  callOnDirty p.

Definition obj_SetCode (p : nat) (codeHash : bytes) (c : option bytes) : M unit :=
  let! prevcode := obj_Code p in
  let! o := get_obj p in
  let! _ := append_journal (codeChange (address o) prevcode (CodeHash (data o))) in
  setCode p codeHash c.

Definition setNonce (p : nat) (nonce : Z) : M unit :=
  let! o := get_obj p in
  let! _ := put_obj p (set_nonce o nonce) in
  callOnDirty p.

Definition obj_SetNonce (p : nat) (nonce : Z) : M unit :=
  let! o := get_obj p in
  let! _ := append_journal (nonceChange (address o) (Nonce (data o))) in
  setNonce p nonce.

(** *** The state database (statedb.go) *)

Definition setStateObject (p : nat) : M unit :=
  let! o := get_obj p in
  modify (fun s => set_objects s (<[address o := p]> (stateObjects s))).

Definition GetStateObject (addr : bytes) : M (option nat) :=
  let! s := getS in
  match stateObjects s !! addr with
  | Some p =>
      let! o := get_obj p in
      retS (if deleted o then None else Some p)
  | None =>
      let! enc := trie_Get (s_trie s) addr in
      if len enc =? 0 then retS None
      else match decode_account enc with
           | Ok a =>
               let! p := alloc_obj (newObject addr (Nonce a) (Some (Balance a)) (Root a) (Some (CodeHash a))) in
               let! _ := setStateObject p in
               retS (Some p)
           | Err _ => retS None
           | Panic => panicS
           end
  end.

Definition createObject (addr : bytes) : M (nat * option nat) :=
  let! prev := GetStateObject addr in
  let! newobj := alloc_obj (newObject addr 0 None (zeros 32) None) in
  let! _ := setNonce newobj StartingNonce in
  let! _ := append_journal (match prev with None => createObjectChange addr | Some p => resetObjectChange p end) in
  let! _ := setStateObject newobj in
  retS (newobj, prev).

Definition GetOrNewStateObject (addr : bytes) : M nat :=
  let create := (let! (newobj, _) := createObject addr in retS newobj) in
  let! so := GetStateObject addr in
  match so with
  | Some p => let! o := get_obj p in if deleted o then create else retS p
  | None => create
  end.

Definition CreateAccount (addr : bytes) : M nat :=
  let! (newobj, prev) := createObject addr in
  match prev with
  | Some p => let! o := get_obj p in let! _ := setBalance newobj (Balance (data o)) in retS newobj
  | None => retS newobj
  end.

Definition StartRecord (th bh : bytes) (ti : Z) : M unit :=
  modify (fun s => mkStateDB (s_trie s) (pastTries s) (stateObjects s) (stateObjectsDirty s) (refund s) th bh ti (logs s)
    (logSize s) (journal s) (validRevisions s) (nextRevisionId s)).

Definition AddLog (log : Log) : M unit :=
  let! s := getS in
  let! _ := append_journal (addLogChange (thash s)) in
  let log := mkLog (logAddress log) (logTopics log) (logData log) (logBlockNumber log)
    (thash s) (u64 (txIndex s)) (bhash s) (logSize s) in
  modify (fun s => set_logs s (<[thash s := default [] (logs s !! thash s) ++ [log]]> (logs s)) (u64 (logSize s + 1))).

Definition GetLogs (hash : bytes) : M (list Log) :=
  let! s := getS in retS (default [] (logs s !! hash)).

Definition AddRefund (gas : Z) : M unit :=
  let! s := getS in
  let! _ := append_journal (refundChange (refund s)) in
  modify (fun s => set_refund s (refund s + gas)).

Definition GetRefund : M Z := let! s := getS in retS (refund s).

Definition Exist (addr : bytes) : M bool :=
  let! so := GetStateObject addr in retS (match so with Some _ => true | None => false end).

Definition Empty (addr : bytes) : M bool :=
  let! so := GetStateObject addr in
  match so with Some p => let! o := get_obj p in retS (empty o) | None => retS true end.

Definition GetBalance (addr : bytes) : M Z :=
  let! so := GetStateObject addr in
  match so with Some p => let! o := get_obj p in retS (Balance (data o)) | None => retS 0 end.

Definition GetNonce (addr : bytes) : M Z :=
  let! so := GetStateObject addr in
  match so with Some p => let! o := get_obj p in retS (Nonce (data o)) | None => retS StartingNonce end.

Definition GetCode (addr : bytes) : M (option bytes) :=
  let! so := GetStateObject addr in
  match so with Some p => obj_Code p | None => retS None end.

Definition GetCodeHash (addr : bytes) : M bytes :=
  let! so := GetStateObject addr in
  match so with
  | Some p => let! o := get_obj p in retS (BytesToHash (CodeHash (data o)))
  | None => retS (zeros 32)
  end.

Definition GetState (addr key : bytes) : M bytes :=
  let! so := GetStateObject addr in
  match so with Some p => obj_GetState p key | None => retS (zeros 32) end.

Definition HasSuicided (addr : bytes) : M bool :=
  let! so := GetStateObject addr in
  match so with Some p => let! o := get_obj p in retS (suicided o) | None => retS false end.

Definition AddBalance (addr : bytes) (amount : Z) : M unit :=
  let! p := GetOrNewStateObject addr in obj_AddBalance p amount.

Definition SetBalance (addr : bytes) (amount : Z) : M unit :=
  let! p := GetOrNewStateObject addr in obj_SetBalance p amount.

Definition SetNonce (addr : bytes) (nonce : Z) : M unit :=
  let! p := GetOrNewStateObject addr in obj_SetNonce p nonce.

Definition SetCode (addr : bytes) (c : option bytes) : M unit :=
  let! p := GetOrNewStateObject addr in obj_SetCode p (Keccak256 (default [] c)) c.

Definition SetState (addr key value : bytes) : M unit :=
  let! p := GetOrNewStateObject addr in obj_SetState p key value.

Definition Suicide (addr : bytes) : M bool :=
  let! so := GetStateObject addr in
  match so with
  | None => retS false
  | Some p =>
      let! o := get_obj p in
      let! _ := append_journal (suicideChange addr (suicided o) (Balance (data o))) in
      let! _ := markSuicided p in
      let! o := get_obj p in
      let! _ := put_obj p (set_balance o 0) in
      retS true
  end.

(** *** The journal (journal.go) *)

(** A nil object is dereferenced except by [suicideChange]. *)
Definition with_object (addr : bytes) (f : nat -> M unit) : M unit :=
  let! so := GetStateObject addr in
  match so with Some p => f p | None => panicS end.

Definition undo (ch : journalEntry) : M unit :=
  match ch with
  | createObjectChange account =>
      with_object account (fun p =>
        let! o := get_obj p in
        let! _ := put_obj p (set_deleted o true) in
        modify (fun s => set_dirty (set_objects s (base.delete account (stateObjects s)))
                           (stateObjectsDirty s ∖ {[account]})))
  | resetObjectChange prev => setStateObject prev
  | suicideChange account prev prevbalance =>
      let! so := GetStateObject account in
      match so with
      | Some p =>
          let! o := get_obj p in
          let! _ := put_obj p (set_suicided o prev) in
          setBalance p prevbalance
      | None => retS tt
      end
  | balanceChange account prev => with_object account (fun p => setBalance p prev)
  | nonceChange account prev => with_object account (fun p => setNonce p prev)
  | codeChange account prevcode prevhash => with_object account (fun p => setCode p (BytesToHash prevhash) prevcode)
  | storageChange account key prevalue => with_object account (fun p => setState p key prevalue)
  | refundChange prev => modify (fun s => set_refund s prev)
  | addLogChange txhash =>
      let! s := getS in
      match default [] (logs s !! txhash) with
      | [] => panicS
      | [_] => modify (fun s => set_logs s (base.delete txhash (logs s)) (logSize s))
      | ls => modify (fun s => set_logs s (<[txhash := take (length ls - 1) ls]> (logs s)) (logSize s))
      end
  end.

Definition Snapshot : M Z :=
  let! s := getS in
  let id := nextRevisionId s in
  let! _ := modify (fun s =>
    mkStateDB (s_trie s) (pastTries s) (stateObjects s) (stateObjectsDirty s) (refund s) (thash s) (bhash s) (txIndex s)
      (logs s) (logSize s) (journal s) (validRevisions s ++ [mkRevision id (length (journal s))]) (nextRevisionId s + 1)) in
  retS id.

Definition RevertToSnapshot (revid : Z) : M unit :=
  let! s := getS in
  let rs := validRevisions s in
  let idx := Search (length rs) (fun i => match rs !! i with Some r => revid <=? rev_id r | None => true end) in
  match rs !! idx with
  | Some r =>
      if rev_id r =? revid then
        let snapshot := journalIndex r in
        let! _ := forS (rev (drop snapshot (journal s))) undo in
        modify (fun s => set_journal s (take snapshot (journal s)) (take idx rs))
      else panicS
  | None => panicS
  end.

(** *** Flushing into the tries *)

Definition updateStateObject (p : nat) : M unit :=
  let! o := get_obj p in
  match EncodeToBytes account_type (account_val (data o)) with
  | Ok enc => let! s := getS in trie_Update (s_trie s) (address o) enc
  | _ => panicS
  end.

Definition deleteStateObject (p : nat) : M unit :=
  let! o := get_obj p in
  let! _ := put_obj p (set_deleted o true) in
  let! s := getS in
  trie_Delete (s_trie s) (address o).

Definition clearJournalAndRefund : M unit :=
  modify (fun s => set_refund (set_journal s [] []) 0).

(** [s.stateObjects[addr]], which the callers dereference. *)
Definition live_object (addr : bytes) : M nat :=
  let! s := getS in
  match stateObjects s !! addr with Some p => retS p | None => panicS end.

Definition IntermediateRoot_round (deleteEmptyObjects : bool) (addr : bytes) : M unit :=
  let! p := live_object addr in
  let! o := get_obj p in
  if suicided o || (deleteEmptyObjects && empty o) then deleteStateObject p
  else let! _ := updateRoot p in updateStateObject p.

Definition IntermediateRoot (deleteEmptyObjects : bool) : M bytes :=
  let! s := getS in
  let! _ := forS (order _ (elements (stateObjectsDirty s))) (IntermediateRoot_round deleteEmptyObjects) in
  let! _ := clearJournalAndRefund in
  trie_Hash (s_trie s).

Definition DeleteSuicides : M unit :=
  let! _ := clearJournalAndRefund in
  let! s := getS in
  forS (order _ (elements (stateObjectsDirty s))) (fun addr =>
    let! p := live_object addr in
    let! o := get_obj p in
    let! _ := (if suicided o then put_obj p (set_deleted o true) else retS tt) in
    modify (fun s => set_dirty s (stateObjectsDirty s ∖ {[addr]}))).

(** A commit writes to a batch.  Its error is a failed [Put] or the memoised
    error of an account object. *)
Inductive commit_error := WriteFailed | ObjectError (e : db_error).

Definition trie_CommitTo {W} `{Writer W} (p : nat) (dbw : W) : M (W * option bytes) :=
  let! t := get_trie p in
  let '(dbw, t, r) := st_commit W dbw t in
  let! _ := put_trie p t in
  match r with
  | Ok root => retS (dbw, Some root)
  | Err _ => retS (dbw, None)
  | Panic => panicS
  end.

Definition CommitTrie {W} `{Writer W} (p : nat) (dbw : W) : M (W * option commit_error) :=
  let! _ := updateTrie p in
  let! o := get_obj p in
  match dbErr o, otrie o with
  | Some e, _ => retS (dbw, Some (ObjectError e))
  | None, Some tp =>
      let! (dbw, r) := trie_CommitTo tp dbw in
      match r with
      | Some root =>
          let! o := get_obj p in
          let! _ := put_obj p (set_Root o root) in
          retS (dbw, None)
      | None => retS (dbw, Some WriteFailed)
      end
  | None, None => panicS
  end.

(** The account of one round of [commit] that is not deleted. *)
Definition commit_object {W} `{Writer W} (p : nat) (dbw : W) : M (W * option commit_error) :=
  let! o := get_obj p in
  let! (dbw, ok) :=
    (match code o with
     | Some c =>
         if dirtyCode o then
           let '(dbw, ok) := db_put dbw (CodeHash (data o)) c in
           if ok : bool then
             let! _ := put_obj p (set_dirtyCode o false) in retS (dbw, true)
           else retS (dbw, false)
         else retS (dbw, true)
     | None => retS (dbw, true)
     end) in
  if ok : bool then
    let! (dbw, err) := CommitTrie p dbw in
    match err with
    | Some e => retS (dbw, Some e)
    | None => let! _ := updateStateObject p in retS (dbw, None)
    end
  else retS (dbw, Some WriteFailed).

Fixpoint commit_objects {W} `{Writer W} (l : list (bytes * nat)) (deleteEmptyObjects : bool) (dbw : W) :
    M (W * option commit_error) :=
  match l with
  | [] => retS (dbw, None)
  | (addr, p) :: l =>
      let! s := getS in
      let isDirty := bool_decide (addr ∈ stateObjectsDirty s) in
      let! o := get_obj p in
      let! (dbw, err) :=
        (if suicided o || (isDirty && deleteEmptyObjects && empty o) then
           let! _ := deleteStateObject p in retS (dbw, None)
         else if isDirty then commit_object p dbw
         else retS (dbw, None)) in
      match err with
      | Some e => retS (dbw, Some e)
      | None =>
          let! _ := modify (fun s => set_dirty s (stateObjectsDirty s ∖ {[addr]})) in
          commit_objects l deleteEmptyObjects dbw
      end
  end.

Definition maxPastTries : nat := 12.

Definition pushTrie (p : nat) : M unit :=
  modify (fun s => set_pastTries s
    (if (maxPastTries <=? length (pastTries s))%nat then drop 1 (pastTries s) ++ [p] else pastTries s ++ [p])).

(** [commit]; the root is the zero hash next to an error. *)
Definition commit {W} `{Writer W} (deleteEmptyObjects : bool) (dbw : W) : M (W * bytes * option commit_error) :=
  let! s := getS in
  let! (dbw, err) := commit_objects (order _ (map_to_list (stateObjects s))) deleteEmptyObjects dbw in
  let! r :=
    (match err with
     | Some e => retS (dbw, zeros 32, Some e)
     | None =>
         let! (dbw, r) := trie_CommitTo (s_trie s) dbw in
         match r with
         | Some root => let! _ := pushTrie (s_trie s) in retS (dbw, root, None)
         | None => retS (dbw, zeros 32, Some WriteFailed)
         end
     end) in
  let! _ := clearJournalAndRefund in
  retS r.

(** [CommitBatch] drops the error of [commit]. *)
Definition CommitBatch {W} `{Writer W} (newBatch : W) (deleteEmptyObjects : bool) : M (bytes * W) :=
  let! (batch, root, _) := commit deleteEmptyObjects newBatch in
  retS (root, batch).

(** *** Opening and copying *)

Definition new_state (tr : nat) : StateDB :=
  mkStateDB tr [] ∅ ∅ 0 (zeros 32) (zeros 32) 0 ∅ 0 [] [] 0.

(** The package function [New]. *)
Definition State_New (w : World T D) (root : bytes) : outcome trie_error (World T D * StateDB) :=
  let* t := st_new (wdb w) root MaxTrieCacheGen in
  Ok (mkWorld (wdb w) (objs w) (<[next w := t]> (tries w)) (S (next w)), new_state (next w)).

(** [openTrie]: the most recent past trie with the root, copied, or a new one. *)
Fixpoint find_past (l : list nat) (root : bytes) : M (option nat) :=
  match l with
  | [] => retS None
  | p :: l =>
      let! h := trie_Hash p in
      if bool_decide (h = root) then retS (Some p) else find_past l root
  end.

Definition openTrie (root : bytes) : M (option nat) :=
  let! s := getS in
  let! past := find_past (rev (pastTries s)) root in
  match past with
  | Some p => let! t := get_trie p in let! tp := alloc_trie (st_copy t) in retS (Some tp)
  | None =>
      let! d := getDb in
      match st_new d root MaxTrieCacheGen with
      | Ok t => let! tp := alloc_trie t in retS (Some tp)
      | Err _ => retS None
      | Panic => panicS
      end
  end.

(** The method [New]; [None] is an error. *)
Definition NewFrom (root : bytes) : M (option StateDB) :=
  let! tr := openTrie root in
  match tr with Some tp => retS (Some (new_state tp)) | None => retS None end.

Definition Reset (root : bytes) : M bool :=
  let! tr := openTrie root in
  match tr with
  | Some tp =>
      let! _ := modify (fun s => mkStateDB tp (pastTries s) ∅ ∅ (refund s) (zeros 32) (zeros 32) 0 ∅ 0 (journal s)
                                   (validRevisions s) (nextRevisionId s)) in
      let! _ := clearJournalAndRefund in
      retS true
  | None => retS false
  end.

(** The dirty objects are copied, the tries are shared. *)
Fixpoint copy_objects (l : list bytes) (c : StateDB) : M StateDB :=
  match l with
  | [] => retS c
  | addr :: l =>
      let! p := live_object addr in
      let! q := deepCopy p in
      copy_objects l (set_dirty (set_objects c (<[addr := q]> (stateObjects c))) ({[addr]} ∪ stateObjectsDirty c))
  end.

Definition Copy : M StateDB :=
  let! s := getS in
  copy_objects (order _ (elements (stateObjectsDirty s)))
    (mkStateDB (s_trie s) (pastTries s) ∅ ∅ (refund s) (zeros 32) (zeros 32) 0 (logs s) (logSize s) [] [] 0).
End Ops.
