(* ===== verification/StateSpec.v ===== *)
(** * What the state database promises

    The abstract state is a function from addresses to accounts, with the
    refund counter and the logs.  Reverting to a snapshot restores the abstract
    state that was saved; the code has no saved state, only a journal.  The
    theorem at the end says that every sequence of calls on a [StateDB] returns
    what the abstract state returns.

    [view] reads the abstract state off the heap; [rewind] applies the undo
    entries of a journal to an abstract state.  The invariant is that rewinding
    the journal from a snapshot on gives the state saved by it. *)

From S2P Require Import Prelude RlpEncode RlpRaw RlpStream Helper Database Trie TrieHash StateTrie State.

(** ** Abstract states *)

Record acct := mkAcct {
  a_nonce : Z;
  a_balance : Z;
  a_codeHash : bytes;
  a_code : option bytes;
  a_storage : bytes -> bytes;
  a_suicided : bool
}.

Definition with_nonce (x : acct) (n : Z) : acct :=
  mkAcct n (a_balance x) (a_codeHash x) (a_code x) (a_storage x) (a_suicided x).
Definition with_balance (x : acct) (b : Z) : acct :=
  mkAcct (a_nonce x) b (a_codeHash x) (a_code x) (a_storage x) (a_suicided x).
Definition with_code (x : acct) (h : bytes) (c : option bytes) : acct :=
  mkAcct (a_nonce x) (a_balance x) h c (a_storage x) (a_suicided x).
Definition with_slot (x : acct) (k v : bytes) : acct :=
  mkAcct (a_nonce x) (a_balance x) (a_codeHash x) (a_code x) (fun k' => if decide (k' = k) then v else a_storage x k')
    (a_suicided x).
Definition with_suicided (x : acct) (b : bool) : acct :=
  mkAcct (a_nonce x) (a_balance x) (a_codeHash x) (a_code x) (a_storage x) b.

Record astate := mkAstate {
  accts : bytes -> option acct;
  a_refund : Z;
  a_logs : gmap bytes (list Log)
}.

Definition upd (A : astate) (a : bytes) (x : option acct) : astate :=
  mkAstate (fun b => if decide (b = a) then x else accts A b) (a_refund A) (a_logs A).

(** Equality of abstract states, storage slot by storage slot. *)
Record acct_eq (x y : acct) : Prop := {
  eq_nonce : a_nonce x = a_nonce y;
  eq_balance : a_balance x = a_balance y;
  eq_codeHash : a_codeHash x = a_codeHash y;
  eq_code : a_code x = a_code y;
  eq_storage : forall k, a_storage x k = a_storage y k;
  eq_suicided : a_suicided x = a_suicided y
}.

Record aeq (A B : astate) : Prop := {
  eq_accts : forall a, option_Forall2 acct_eq (accts A a) (accts B a);
  eq_refund : a_refund A = a_refund B;
  eq_logs : a_logs A = a_logs B
}.

Abbreviation oeq := (option_Forall2 aeq).

#[export] Instance acct_eq_equivalence : Equivalence acct_eq.
Proof.
  split.
  - by intros x.
  - intros x y []. by split.
  - intros x y z [] []. split; congruence || (intros; etrans; eauto).
Qed.

#[export] Instance aeq_equivalence : Equivalence aeq.
Proof.
  split.
  - intros A. split; [|done|done]. intros a. reflexivity.
  - intros A B []. split; [|done|done]. intros a. symmetry. auto.
  - intros A B C [] []. split; [|congruence|congruence]. intros a. etrans; auto.
Qed.

#[export] Instance upd_proper : Proper (aeq ==> eq ==> option_Forall2 acct_eq ==> aeq) upd.
Proof. intros A B [E1 E2 E3] a ? <- x y E. split; [|done|done]. intros b. cbn. by case_decide. Qed.

Lemma upd_same A a x : accts A a = x -> aeq (upd A a x) A.
Proof. intros <-. split; [|done|done]. intros b. cbn. case_decide; by subst. Qed.

Lemma upd_upd A a x y : aeq (upd (upd A a x) a y) (upd A a y).
Proof. split; [|done|done]. intros b. cbn. by case_decide. Qed.

Lemma upd_eq A a x : accts (upd A a x) a = x.
Proof. cbn. by rewrite decide_True. Qed.

Lemma upd_ne A a b x : b <> a -> accts (upd A a x) b = accts A b.
Proof. intros. cbn. by rewrite decide_False. Qed.

(** ** The abstract state of a heap *)

Section View.
Context `{Hash256} `{StateTrieLaws T D} `{Database D}.
Implicit Types (w : World T D) (s : StateDB) (o : StateObject).

(** A storage slot, decoded. *)
Definition slot_value (enc : bytes) : bytes :=
  if 0 <? len enc then match Split enc with Ok (_, content, _) => Hash_SetBytes (zeros 32) content | _ => zeros 32 end
  else zeros 32.

(** The trie an account opens on its first access. *)
Definition open_storage (d : D) (root : bytes) : option T :=
  match st_new d root 0 with
  | Ok t => Some t
  | Err _ => match st_new d (zeros 32) 0 with Ok t => Some t | _ => None end
  | Panic => None
  end.

Definition storage_trie w o : option T :=
  match otrie o with Some tp => tries w !! tp | None => open_storage (wdb w) (Root (data o)) end.

(** The slots in use. *)
Definition o_storage w o (k : bytes) : bytes :=
  match cachedStorage o !! k with
  | Some v => v
  | None =>
      if decide (st_key k) then match storage_trie w o with Some t => slot_value (st_value (wdb w) t k) | None => zeros 32 end
      else zeros 32
  end.

(** The code behind a code hash, unless it is loaded. *)
Definition code_from (d : D) (c : option bytes) (hash : bytes) : option bytes :=
  match c with
  | Some c => Some c
  | None => if bool_decide (hash = emptyCodeHash) then None else db_get d hash
  end.

Definition o_code (d : D) o : option bytes := code_from d (code o) (CodeHash (data o)).

Definition oview w o : acct :=
  mkAcct (Nonce (data o)) (Balance (data o)) (CodeHash (data o)) (o_code (wdb w) o) (o_storage w o) (suicided o).

Definition loaded (addr : bytes) (a : Account) : StateObject :=
  newObject addr (Nonce a) (Some (Balance a)) (Root a) (Some (CodeHash a)).

(** The account of the account trie, for the addresses in use. *)
Definition trie_account w s (addr : bytes) : option Account :=
  match tries w !! s_trie s with
  | Some t =>
      let enc := st_value (wdb w) t addr in
      if decide (st_key addr) then
        if len enc =? 0 then None else match decode_account enc with Ok a => Some a | _ => None end
      else None
  | None => None
  end.

Definition view w s (addr : bytes) : option acct :=
  match stateObjects s !! addr with
  | Some p =>
      match objs w !! p with
      | Some o => if deleted o then None else Some (oview w o)
      | None => None
      end
  | None => option_map (fun a => oview w (loaded addr a)) (trie_account w s addr)
  end.

Definition abs w s : astate := mkAstate (view w s) (refund s) (logs s).

(** ** Well-formed heaps *)

(** Storage tries hold values that [rlp.Split] does not panic on. *)
Definition slots_ok (d : D) (t : T) : Prop :=
  st_ok d t /\ forall k, st_value d t k <> [] -> Split (st_value d t k) <> Panic.

Record obj_ok w o : Prop := {
  ok_storage : exists t, storage_trie w o = Some t /\ slots_ok (wdb w) t;
  ok_codeHash : length (CodeHash (data o)) = 32%nat
}.

(** The entries of live accounts are not read again. *)
Record accounts_ok w s (t : T) : Prop := {
  ok_accounts : st_ok (wdb w) t;
  ok_decode addr : st_key addr -> st_value (wdb w) t addr <> [] -> decode_account (st_value (wdb w) t addr) <> Panic;
  ok_loaded addr a :
    st_key addr -> stateObjects s !! addr = None -> decode_account (st_value (wdb w) t addr) = Ok a -> obj_ok w (loaded addr a)
}.

(** The objects that undo entries put back. *)
Definition prevs (J : list journalEntry) : list nat :=
  omap (fun e => match e with resetObjectChange p => Some p | _ => None end) J.

(** [J] is the part of the journal that can still be undone.  Objects a reset
    entry puts back are not live, so nobody changes them. *)
Record wf w s (J : list journalEntry) : Prop := {
  wf_trie : exists t, tries w !! s_trie s = Some t /\ accounts_ok w s t;
  wf_live a p : stateObjects s !! a = Some p -> exists o, objs w !! p = Some o /\ address o = a /\ obj_ok w o;
  wf_prev p : p ∈ prevs J -> exists o, objs w !! p = Some o /\ obj_ok w o /\ deleted o = false;
  wf_nodup : NoDup (prevs J);
  wf_sep a p : stateObjects s !! a = Some p -> p ∉ prevs J;
  wf_gone a p o : stateObjects s !! a = Some p -> objs w !! p = Some o -> deleted o = true -> trie_account w s a = None;
  wf_created a : createObjectChange a ∈ J -> trie_account w s a = None;
  wf_next p : (next w <= p)%nat -> objs w !! p = None /\ tries w !! p = None
}.

(** ** Worlds that differ in what is loaded *)

Definition same_trie (d : D) (t t' : T) : Prop :=
  st_ok d t -> st_ok d t' /\ forall k, st_value d t' k = st_value d t k.

(** Tries keep their values, accounts may change. *)
Record wle w w' : Prop := {
  wle_db : wdb w' = wdb w;
  wle_tries tp t : tries w !! tp = Some t -> exists t', tries w' !! tp = Some t' /\ same_trie (wdb w) t t'
}.

Lemma wle_same w w' : wdb w' = wdb w -> tries w' = tries w -> wle w w'.
Proof. intros E1 E2. split; [done|]. intros tp t E. rewrite E2. exists t. by split. Qed.

Lemma wle_refl w : wle w w.
Proof. by apply wle_same. Qed.

Lemma wle_trans w1 w2 w3 : wle w1 w2 -> wle w2 w3 -> wle w1 w3.
Proof.
  intros [E1 T1] [E2 T2]. split; [congruence|]. intros tp t Et.
  destruct (T1 tp t Et) as (t2 & Et2 & S2), (T2 tp t2 Et2) as (t3 & Et3 & S3). exists t3. split; [done|].
  intros O. destruct (S2 O) as [O2 V2]. rewrite E1 in S3. destruct (S3 O2) as [O3 V3]. split; [done|].
  intros k. by rewrite V3, V2.
Qed.

Lemma storage_trie_wle w w' o t :
  wle w w' -> storage_trie w o = Some t -> exists t', storage_trie w' o = Some t' /\ same_trie (wdb w) t t'.
Proof.
  intros [E W]. unfold storage_trie. destruct (otrie o); [apply W|]. rewrite E. intros ->. exists t. by split.
Qed.

Lemma obj_ok_wle w w' o : wle w w' -> obj_ok w o -> obj_ok w' o.
Proof.
  intros W [(t & Et & O & S) L]. destruct (storage_trie_wle w w' o t W Et) as (t' & Et' & ST).
  destruct (ST O) as [O' V]. split; [|done]. exists t'. rewrite (wle_db _ _ W). split; [done|]. split; [done|].
  intros k. rewrite V. apply S.
Qed.

Lemma oview_wle w w' o : wle w w' -> obj_ok w o -> acct_eq (oview w' o) (oview w o).
Proof.
  intros W [(t & Et & O & S) L]. destruct (storage_trie_wle w w' o t W Et) as (t' & Et' & ST).
  destruct (ST O) as [O' V]. split; try done; cbn.
  - by rewrite (wle_db _ _ W).
  - intros k. unfold o_storage. rewrite Et, Et', (wle_db _ _ W), V. done.
Qed.

Lemma accounts_ok_wle w w' s s' t t' :
  wle w w' -> same_trie (wdb w) t t' -> (forall a, stateObjects s' !! a = None -> stateObjects s !! a = None) ->
  accounts_ok w s t -> accounts_ok w' s' t'.
Proof.
  intros W S N [O Dc L]. destruct (S O) as [O' V]. split; rewrite (wle_db _ _ W); [done| |].
  - intros addr. rewrite V. apply Dc.
  - intros addr a Ka Ea. rewrite V. intros E. eapply obj_ok_wle; [done|]. apply L; auto.
Qed.

Lemma trie_account_wle w w' s s' addr :
  wle w w' -> s_trie s' = s_trie s -> (exists t, tries w !! s_trie s = Some t /\ accounts_ok w s t) ->
  trie_account w' s' addr = trie_account w s addr.
Proof.
  intros W E (t & Et & O). destruct (wle_tries _ _ W _ _ Et) as (t' & Et' & S). destruct (S (ok_accounts _ _ _ O)) as [_ V].
  unfold trie_account. by rewrite E, Et, Et', (wle_db _ _ W), V.
Qed.

Lemma trie_account_ok w s J addr a :
  wf w s J -> stateObjects s !! addr = None -> trie_account w s addr = Some a -> obj_ok w (loaded addr a).
Proof.
  intros WF N. destruct (wf_trie _ _ _ WF) as (t & Et & O). unfold trie_account. rewrite Et.
  case_decide; [|done]. destruct (_ =? 0); [done|]. destruct (decode_account _) eqn:E; intros [= <-]. by eapply ok_loaded.
Qed.

(** The account behind the view of an address. *)
Lemma view_wle w w' s s' J addr :
  wf w s J -> wle w w' -> s_trie s' = s_trie s -> stateObjects s' !! addr = stateObjects s !! addr ->
  (forall p, stateObjects s !! addr = Some p -> objs w' !! p = objs w !! p) ->
  option_Forall2 acct_eq (view w' s' addr) (view w s addr).
Proof.
  intros WF W E1 E2 E3. unfold view. rewrite E2. destruct (stateObjects s !! addr) as [p|] eqn:Ep.
  - rewrite E3 by done. destruct (wf_live _ _ _ WF addr p Ep) as (o & Eo & _ & Oo). rewrite Eo.
    destruct (deleted o); constructor. by apply oview_wle.
  - rewrite (trie_account_wle w w' s s') by (done || apply WF).
    destruct (trie_account w s addr) as [a|] eqn:Ea; constructor.
    apply oview_wle; [done|]. by eapply trie_account_ok.
Qed.

(** ** Rewinding the journal *)

Definition on_acct (A : astate) (a : bytes) (f : acct -> acct) : option astate :=
  match accts A a with Some x => Some (upd A a (Some (f x))) | None => None end.

Definition aundo w (e : journalEntry) (A : astate) : option astate :=
  match e with
  | createObjectChange a => match accts A a with Some _ => Some (upd A a None) | None => None end
  | resetObjectChange p =>
      match objs w !! p with Some o => Some (upd A (address o) (Some (oview w o))) | None => None end
  | suicideChange a prev bal => on_acct A a (fun x => with_balance (with_suicided x prev) bal)
  | balanceChange a prev => on_acct A a (fun x => with_balance x prev)
  | nonceChange a prev => on_acct A a (fun x => with_nonce x prev)
  | storageChange a key prev => on_acct A a (fun x => with_slot x key prev)
  | codeChange a prevcode prevhash => 
      on_acct A a (fun x => with_code x (BytesToHash prevhash) (code_from (wdb w) prevcode (BytesToHash prevhash)))
  | refundChange prev => Some (mkAstate (accts A) prev (a_logs A))
  | addLogChange h =>
      match default [] (a_logs A !! h) with
      | [] => None
      | [_] => Some (mkAstate (accts A) (a_refund A) (base.delete h (a_logs A)))
      | ls => Some (mkAstate (accts A) (a_refund A) (<[h := take (length ls - 1) ls]> (a_logs A)))
      end
  end.

Fixpoint rewind w (J : list journalEntry) (A : astate) : option astate :=
  match J with
  | [] => Some A
  | e :: J => match rewind w J A with Some A => aundo w e A | None => None end
  end.

Lemma rewind_app w J1 J2 A :
  rewind w (J1 ++ J2) A = match rewind w J2 A with Some A => rewind w J1 A | None => None end.
Proof. induction J1 as [|e J1 IH]; cbn; [by destruct (rewind w J2 A)|]. rewrite IH. by destruct (rewind w J2 A). Qed.

(** Objects that undo entries put back are the same in both worlds. *)
Definition stable (J : list journalEntry) w w' : Prop :=
  wle w w' /\ forall p, p ∈ prevs J -> exists o, objs w !! p = Some o /\ objs w' !! p = Some o /\ obj_ok w o.

Lemma on_acct_proper A B a f g :
  aeq A B -> (forall x y, acct_eq x y -> acct_eq (f x) (g y)) -> oeq (on_acct A a f) (on_acct B a g).
Proof.
  intros E Hf. unfold on_acct. destruct (eq_accts _ _ E a) as [x y Exy|]; [|constructor].
  constructor. apply upd_proper; [done|done|]. constructor. by apply Hf.
Qed.

Lemma aundo_proper w w' e A B : stable [e] w w' -> aeq A B -> oeq (aundo w' e A) (aundo w e B).
Proof.
  intros [W S] E. destruct e as [a|p|a prev bal|a prev|a prev|a k prev|a pc ph|prev|h]; cbn.
  - destruct (eq_accts _ _ E a); constructor. apply upd_proper; [done..|constructor].
  - destruct (S p) as (o & E1 & E2 & O); [by apply elem_of_cons; left|]. rewrite E1, E2. constructor.
    apply upd_proper; [done..|]. constructor. by apply oview_wle.
  - apply on_acct_proper; [done|]. intros x y []. by split.
  - apply on_acct_proper; [done|]. intros x y []. by split.
  - apply on_acct_proper; [done|]. intros x y []. by split.
  - apply on_acct_proper; [done|]. intros x y [? ? ? ? Es ?]. split; try done. intros k'. cbn. by case_decide.
  - apply on_acct_proper; [done|]. intros x y []. rewrite (wle_db _ _ W). by split.
  - constructor. destruct E. by split.
  - rewrite (eq_logs _ _ E), (eq_refund _ _ E). destruct (default [] _) as [|x [|y l]]; constructor; split; try done; apply E.
Qed.

Lemma stable_app J1 J2 w w' : stable (J1 ++ J2) w w' <-> stable J1 w w' /\ stable J2 w w'.
Proof.
  unfold stable, prevs. rewrite omap_app. setoid_rewrite elem_of_app. split.
  - intros [W S]. split; (split; [done|auto]).
  - intros [[W S1] [_ S2]]. split; [done|]. intros p [?|?]; auto.
Qed.

Lemma rewind_proper w w' J A B : stable J w w' -> aeq A B -> oeq (rewind w' J A) (rewind w J B).
Proof.
  induction J as [|e J IH]; intros S E; cbn; [by constructor|].
  apply (stable_app [e] J) in S as [Se S]. destruct (IH S E) as [A' B' E'|]; [|constructor].
  by apply aundo_proper.
Qed.

(** ** Frames *)

(** The fields no account operation touches. *)
Record kept s s' : Prop := {
  kept_trie : s_trie s' = s_trie s;
  kept_thash : thash s' = thash s;
  kept_bhash : bhash s' = bhash s;
  kept_txIndex : txIndex s' = txIndex s;
  kept_logSize : logSize s' = logSize s;
  kept_revisions : validRevisions s' = validRevisions s;
  kept_nextId : nextRevisionId s' = nextRevisionId s
}.

#[export] Instance kept_preorder : PreOrder kept.
Proof. split; [by intros s|]. intros s1 s2 s3 [] []. split; congruence. Qed.

Definition wfresh w : Prop := forall p, (next w <= p)%nat -> objs w !! p = None /\ tries w !! p = None.

Lemma wf_prefix w s J1 J2 : wf w s (J1 ++ J2) -> wf w s J1.
Proof.
  intros [? ? P N S ? C ?]. unfold prevs in *. rewrite omap_app in *. setoid_rewrite elem_of_app in P.
  setoid_rewrite elem_of_app in S. setoid_rewrite elem_of_app in C. split; eauto; [by apply NoDup_app in N as (N & _)|].
  intros a p Ep Hp. apply (S a p Ep). by left.
Qed.

Lemma live_inj w s J a b p : wf w s J -> stateObjects s !! a = Some p -> stateObjects s !! b = Some p -> a = b.
Proof.
  intros WF Ea Eb. destruct (wf_live _ _ _ WF a p Ea) as (o & Eo & <- & _).
  destruct (wf_live _ _ _ WF b p Eb) as (o' & Eo' & <- & _). congruence.
Qed.

Lemma prevs_stable w s J w' :
  wf w s J -> wle w w' -> (forall p, p ∈ prevs J -> objs w' !! p = objs w !! p) -> stable J w w'.
Proof.
  intros WF W E. split; [done|]. intros p Hp. destruct (wf_prev _ _ _ WF p Hp) as (o & Eo & O & _).
  exists o. by rewrite E.
Qed.

(** Replacing a live object. *)
Lemma put_live w s J w' s' a p o o' :
  wf w s J -> stateObjects s !! a = Some p -> objs w !! p = Some o ->
  wle w w' -> objs w' = <[p := o']> (objs w) -> wfresh w' ->
  address o' = a -> obj_ok w' o' -> (deleted o' = true -> trie_account w s a = None) ->
  stateObjects s' = stateObjects s -> s_trie s' = s_trie s ->
  wf w' s' J /\ stable J w w' /\
  forall b, option_Forall2 acct_eq (view w' s' b)
    (if decide (b = a) then (if deleted o' then None else Some (oview w' o')) else view w s b).
Proof.
  intros WF Ep Eo W Eobjs Fr Ad Ok' Del E1 E2.
  assert (TA : forall b, trie_account w' s' b = trie_account w s b) by (intros; apply trie_account_wle; try done; apply WF).
  assert (Other : forall b q, stateObjects s !! b = Some q -> b <> a -> objs w' !! q = objs w !! q).
  { intros b q Eq Hne. rewrite Eobjs, lookup_insert_ne; [done|]. intros ->. by destruct Hne; eapply live_inj. }
  assert (Prev : forall q, q ∈ prevs J -> objs w' !! q = objs w !! q).
  { intros q Hq. rewrite Eobjs, lookup_insert_ne; [done|]. intros ->. by apply (wf_sep _ _ _ WF a q). }
  split; [|split; [by eapply prevs_stable|]].
  - split; rewrite ?E1, ?E2; try apply WF; try done.
    + destruct (wf_trie _ _ _ WF) as (t & Et & O). destruct (wle_tries _ _ W _ _ Et) as (t' & Et' & S).
      exists t'. split; [done|]. eapply accounts_ok_wle; [done|done| |done]. intros b. by rewrite E1.
    + intros b q Eq. destruct (decide (b = a)) as [->|Hne].
      * assert (q = p) as -> by congruence. exists o'. rewrite Eobjs, lookup_insert_eq. done.
      * rewrite (Other b q) by done. destruct (wf_live _ _ _ WF b q Eq) as (x & Ex & Ax & Ox). exists x.
        split; [done|]. split; [done|]. by eapply obj_ok_wle.
    + intros q Hq. rewrite Prev by done. destruct (wf_prev _ _ _ WF q Hq) as (x & Ex & Ox & Dx). exists x.
      split; [done|]. split; [by eapply obj_ok_wle|done].
    + intros b q x Eq Ex Dx. rewrite TA. destruct (decide (b = a)) as [->|Hne].
      * assert (q = p) as -> by congruence. rewrite Eobjs, lookup_insert_eq in Ex. injection Ex as <-. auto.
      * rewrite (Other b q) in Ex by done. by eapply wf_gone.
    + intros b Hb. rewrite TA. by eapply wf_created.
  - intros b. case_decide as Eb.
    + subst b. unfold view. rewrite E1, Ep, Eobjs, lookup_insert_eq. reflexivity.
    + eapply view_wle; [done|done|done|by rewrite E1|]. intros q Eq. by eapply Other.
Qed.

(** Making another object the live one of an address. *)
Lemma attach w s J w' s' a q o :
  wf w s J -> (forall b, stateObjects s !! b <> Some q) -> q ∉ prevs J ->
  wle w w' -> objs w' !! q = Some o -> (forall r, r <> q -> objs w' !! r = objs w !! r) -> wfresh w' ->
  address o = a -> obj_ok w' o -> deleted o = false ->
  stateObjects s' = <[a := q]> (stateObjects s) -> s_trie s' = s_trie s ->
  wf w' s' J /\ stable J w w' /\
  forall b, option_Forall2 acct_eq (view w' s' b) (if decide (b = a) then Some (oview w' o) else view w s b).
Proof.
  intros WF NL NP W Eq Er Fr Ad Ok' Del E1 E2.
  assert (TA : forall b, trie_account w' s' b = trie_account w s b) by (intros; apply trie_account_wle; try done; apply WF).
  assert (Other : forall b r, stateObjects s !! b = Some r -> objs w' !! r = objs w !! r).
  { intros b r Eb. apply Er. intros ->. by apply (NL b). }
  assert (Prev : forall r, r ∈ prevs J -> objs w' !! r = objs w !! r) by (intros r Hr; apply Er; by intros ->).
  split; [|split; [by eapply prevs_stable|]].
  - split; rewrite ?E2; try apply WF; try done.
    + destruct (wf_trie _ _ _ WF) as (t & Et & O). destruct (wle_tries _ _ W _ _ Et) as (t' & Et' & S).
      exists t'. split; [done|]. eapply accounts_ok_wle; [done|done| |done]. intros b. rewrite E1. by intros [? _]%lookup_insert_None.
    + intros b r. rewrite E1, lookup_insert. case_decide; [intros [= <-]; subst; eauto|]. intros Eb.
      rewrite (Other b r) by done. destruct (wf_live _ _ _ WF b r Eb) as (x & Ex & Ax & Ox). exists x.
      split; [done|]. split; [done|]. by eapply obj_ok_wle.
    + intros r Hr. rewrite Prev by done. destruct (wf_prev _ _ _ WF r Hr) as (x & Ex & Ox & Dx). exists x.
      split; [done|]. split; [by eapply obj_ok_wle|done].
    + intros b r. rewrite E1, lookup_insert. case_decide; [by intros [= <-]|]. apply WF.
    + intros b r x. rewrite E1, lookup_insert, TA. case_decide; [intros [= <-]; congruence|]. intros Eb.
      rewrite (Other b r) by done. by eapply wf_gone.
    + intros b Hb. rewrite TA. by eapply wf_created.
  - intros b. unfold view at 1. rewrite E1, lookup_insert. case_decide as Eb.
    + subst b. rewrite decide_True, Eq, Del by done. reflexivity.
    + rewrite decide_False by done.
      assert (V : option_Forall2 acct_eq (view w' (set_objects s' (stateObjects s)) b) (view w s b)).
      { eapply view_wle; [done|done|done|done|]. intros r Eb'. by eapply Other. }
      exact V.
Qed.

(** Adding an undo entry. *)
Definition entry_ok w s J (e : journalEntry) : Prop :=
  match e with
  | createObjectChange a => trie_account w s a = None
  | resetObjectChange p =>
      (p ∉ prevs J) /\ (forall a, stateObjects s !! a <> Some p) /\
      exists o, objs w !! p = Some o /\ obj_ok w o /\ deleted o = false
  | _ => True
  end.

Lemma wf_snoc w s J e :
  wf w s J -> entry_ok w s J e -> wf w s (J ++ [e]).
Proof.
  intros [? ? P N S ? C ?] He.
  assert (Ep : prevs (J ++ [e]) = prevs J ++ prevs [e]) by apply omap_app.
  split; rewrite ?Ep; try done.
  - intros p. rewrite elem_of_app. intros [Hp|Hp]; [auto|]. destruct e; cbn in Hp; try by apply not_elem_of_nil in Hp.
    apply list_elem_of_singleton in Hp as ->. apply He.
  - apply NoDup_app. split; [done|]. split.
    + intros p Hp Hp'. destruct e; cbn in Hp'; try by apply not_elem_of_nil in Hp'.
      apply list_elem_of_singleton in Hp' as ->. by destruct He.
    + destruct e; cbn; try constructor; [by apply not_elem_of_nil|constructor].
  - intros a p Ea. rewrite elem_of_app. intros [Hp|Hp]; [by apply (S a p)|].
    destruct e; cbn in Hp; try by apply not_elem_of_nil in Hp.
    apply list_elem_of_singleton in Hp as ->. by apply (proj1 (proj2 He) a).
  - intros a. rewrite elem_of_app. intros [Ha|Ha]; [auto|]. apply list_elem_of_singleton in Ha. by subst e.
Qed.

(** ** Lookups change nothing *)

Record quiet J w s w' s' : Prop := {
  q_wf : wf w' s' J;
  q_abs : aeq (abs w' s') (abs w s);
  q_stable : stable J w w';
  q_kept : kept s s';
  q_journal : journal s' = journal s;
  q_ptr b q : stateObjects s !! b = Some q -> stateObjects s' !! b = Some q
}.

Lemma stable_trans J w1 w2 w3 : stable J w1 w2 -> stable J w2 w3 -> stable J w1 w3.
Proof.
  intros [W1 S1] [W2 S2]. split; [by eapply wle_trans|]. intros p Hp.
  destruct (S1 p Hp) as (o & E1 & E2 & O), (S2 p Hp) as (o' & E3 & E4 & _). exists o. split; [done|]. split; [congruence|done].
Qed.

Lemma quiet_refl J w s : wf w s J -> quiet J w s w s.
Proof. intros WF. split; try done. eapply prevs_stable; [done|apply wle_refl|done]. Qed.

Lemma quiet_trans J w1 s1 w2 s2 w3 s3 : quiet J w1 s1 w2 s2 -> quiet J w2 s2 w3 s3 -> quiet J w1 s1 w3 s3.
Proof.
  intros [] []. split; [done|by etrans|by eapply stable_trans|by etrans|congruence|auto].
Qed.

Lemma abs_eq w s w' s' :
  (forall b, option_Forall2 acct_eq (view w' s' b) (view w s b)) -> refund s' = refund s -> logs s' = logs s ->
  aeq (abs w' s') (abs w s).
Proof. by split. Qed.

Lemma wf_loaded w s J w' : wf w s J -> wle w w' -> objs w' = objs w -> wfresh w' -> quiet J w s w' s.
Proof.
  intros WF W E Fr.
  assert (TA : forall b, trie_account w' s b = trie_account w s b) by (intros; apply trie_account_wle; try done; apply WF).
  split; try done; [|apply abs_eq; try done|eapply prevs_stable; [done|done|by rewrite E]].
  - split; try apply WF; try done.
    + destruct (wf_trie _ _ _ WF) as (t & Et & O). destruct (wle_tries _ _ W _ _ Et) as (t' & Et' & S).
      exists t'. split; [done|]. by eapply accounts_ok_wle.
    + intros b r Eb. rewrite E. destruct (wf_live _ _ _ WF b r Eb) as (x & Ex & Ax & Ox). exists x.
      split; [done|]. split; [done|]. by eapply obj_ok_wle.
    + intros r Hr. rewrite E. destruct (wf_prev _ _ _ WF r Hr) as (x & Ex & Ox & Dx). exists x.
      split; [done|]. split; [by eapply obj_ok_wle|done].
    + intros b r x Eb. rewrite E, TA. by apply (wf_gone _ _ _ WF).
    + intros b Hb. rewrite TA. by eapply wf_created.
  - intros b. eapply view_wle; try done. intros p _. by rewrite E.
Qed.

Lemma trie_Get_ok w s tp t key :
  tries w !! tp = Some t -> st_ok (wdb w) t -> wfresh w ->
  exists w', trie_Get tp key w s = Ok (st_value (wdb w) t key, w', s) /\ wle w w' /\ objs w' = objs w /\
    next w' = next w /\ wfresh w'.
Proof.
  intros Et O Fr. unfold trie_Get, bindS, getDb, get_trie, liftS, put_trie, retS. rewrite Et.
  destruct (st_get_ok (wdb w) t key O) as (v & t' & E & O' & V). unfold st_value at 1. rewrite E.
  eexists. split; [done|]. split; [|split; [done|split; [done|]]].
  - split; [done|]. intros tp' x Ex. cbn. rewrite lookup_insert. case_decide as Etp; [|exists x; by split].
    subst tp'. exists t'. split; [done|]. assert (x = t) as -> by congruence. by split.
  - intros p Hp. cbn in *. rewrite lookup_insert_ne; [by apply Fr|].
    intros ->. destruct (Fr p Hp) as [_ F]. congruence.
Qed.

(** The live object of an address. *)
Definition live w s (a : bytes) (p : nat) (o : StateObject) : Prop :=
  stateObjects s !! a = Some p /\ objs w !! p = Some o /\ deleted o = false.

Lemma live_view w s a p o : live w s a p o -> view w s a = Some (oview w o).
Proof. intros (E1 & E2 & E3). unfold view. by rewrite E1, E2, E3. Qed.

Lemma fresh_not_live w s J p b : wf w s J -> (next w <= p)%nat -> stateObjects s !! b <> Some p.
Proof.
  intros WF Hp Eb. destruct (wf_live _ _ _ WF b p Eb) as (o & Eo & _), (wf_next _ _ _ WF p Hp). congruence.
Qed.

Lemma fresh_not_prev w s J p : wf w s J -> (next w <= p)%nat -> p ∉ prevs J.
Proof.
  intros WF Hp Hin. destruct (wf_prev _ _ _ WF p Hin) as (o & Eo & _), (wf_next _ _ _ WF p Hp). congruence.
Qed.

Definition add_obj w (o : StateObject) : World T D :=
  mkWorld (wdb w) (<[next w := o]> (objs w)) (tries w) (S (next w)).

Lemma add_obj_fresh w o : wfresh w -> wfresh (add_obj w o).
Proof. intros F p Hp. cbn in *. rewrite lookup_insert_ne by lia. apply F. lia. Qed.

Lemma attach_new w s J s' o :
  wf w s J -> obj_ok w o -> deleted o = false ->
  stateObjects s' = <[address o := next w]> (stateObjects s) -> s_trie s' = s_trie s ->
  wf (add_obj w o) s' J /\ stable J w (add_obj w o) /\ live (add_obj w o) s' (address o) (next w) o /\
  forall b, option_Forall2 acct_eq (view (add_obj w o) s' b)
    (if decide (b = address o) then Some (oview w o) else view w s b).
Proof.
  intros WF Ok' Del E1 E2.
  assert (W : wle w (add_obj w o)) by by apply wle_same.
  destruct (attach w s J (add_obj w o) s' (address o) (next w) o) as (WF' & St & V); try done.
  - intros b. by eapply fresh_not_live.
  - by eapply fresh_not_prev.
  - cbn. by rewrite lookup_insert_eq.
  - intros r Hr. cbn. by rewrite lookup_insert_ne.
  - apply add_obj_fresh. exact (wf_next _ _ _ WF).
  - by eapply obj_ok_wle.
  - split; [done|]. split; [done|]. split; [|done]. split; [by rewrite E1, lookup_insert_eq|].
    split; [cbn; by rewrite lookup_insert_eq|done].
Qed.

(** An address that can be looked up: it is in use or its account is live. *)
Definition known s (a : bytes) : Prop := stateObjects s !! a = None -> st_key a.

Lemma GetStateObject_ok w s J a :
  wf w s J -> known s a ->
  exists r w' s', GetStateObject a w s = Ok (r, w', s') /\ quiet J w s w' s' /\
    match r with
    | Some p => exists o, live w' s' a p o
    | None => view w s a = None /\ s' = s /\ trie_account w' s' a = None /\ view w' s' a = None
    end.
Proof.
  intros WF Kn. unfold GetStateObject, bindS, getS. destruct (stateObjects s !! a) as [p|] eqn:Ep.
  - destruct (wf_live _ _ _ WF a p Ep) as (o & Eo & Ea & Oo). unfold get_obj, retS. rewrite Eo.
    destruct (deleted o) eqn:Ed; eexists _, w, s; (split; [done|]); (split; [by apply quiet_refl|]).
    + assert (V : view w s a = None) by (unfold view; by rewrite Ep, Eo, Ed).
      repeat split; try done. by eapply wf_gone.
    + by exists o.
  - destruct (wf_trie _ _ _ WF) as (t & Et & [O Dc L]).
    destruct (trie_Get_ok w s _ t a Et O (wf_next _ _ _ WF)) as (w1 & -> & W1 & Eo1 & En1 & Fr1).
    pose proof (wf_loaded w s J w1 WF W1 Eo1 Fr1) as Q.
    assert (TA : forall x, trie_account w s a = x -> trie_account w1 s a = x).
    { intros x <-. apply trie_account_wle; try done. apply WF. }
    assert (N : trie_account w s a = None -> view w s a = None /\ s = s /\ trie_account w1 s a = None /\ view w1 s a = None).
    { intros E. unfold view. rewrite Ep, (TA _ E), E. done. }
    assert (TE : trie_account w s a = if len (st_value (wdb w) t a) =? 0 then None else
      match decode_account (st_value (wdb w) t a) with Ok x => Some x | _ => None end)
      by (unfold trie_account; rewrite Et; by rewrite (decide_True _ _ (Kn Ep))).
    rewrite TE in N, TA. clear TE.
    destruct (len (st_value (wdb w) t a) =? 0) eqn:Z0.
    { eexists None, w1, s. split; [done|]. split; [done|]. by apply N. }
    assert (NE : st_value (wdb w) t a <> []) by (intros E; by rewrite E in Z0).
    destruct (decode_account (st_value (wdb w) t a)) as [ac|e|] eqn:Ed.
    + pose proof (obj_ok_wle _ _ _ W1 (L a ac (Kn Ep) Ep Ed)) as Ol. pose proof (TA _ eq_refl) as TA1. clear TA N.
      set (s' := set_objects s (<[a := next w1]> (stateObjects s))).
      destruct (attach_new w1 s J s' (loaded a ac) (q_wf _ _ _ _ _ Q) Ol) as (WF' & St & Lv & V); try done.
      exists (Some (next w1)), (add_obj w1 (loaded a ac)), s'. split.
      { unfold setStateObject, bindS, get_obj, alloc_obj, modify, retS. cbn. by rewrite lookup_insert_eq. }
      split; [|by eexists]. eapply quiet_trans; [done|]. split; try done.
      2: { intros b q Eb. cbn. rewrite lookup_insert_ne; [done|]. intros <-. congruence. }
      apply abs_eq; [|done|done]. intros b. etrans; [apply V|]. change (address (loaded a ac)) with a.
      case_decide as Eb; [|reflexivity]. subst b. unfold view. rewrite Ep, TA1. reflexivity.
    + eexists None, w1, s. split; [done|]. split; [done|]. by apply N.
    + by apply (Dc a (Kn Ep)) in Ed.
Qed.

(** ** Changing a live object *)

Definition put w p (o : StateObject) : World T D := mkWorld (wdb w) (<[p := o]> (objs w)) (tries w) (next w).

(** The object and the dirty set after the callback. *)
Definition fired (o : StateObject) : StateObject := if onDirty o then set_onDirty o false else o.
Definition fire s (o : StateObject) : StateDB :=
  if onDirty o then set_dirty s ({[address o]} ∪ stateObjectsDirty s) else s.

Lemma put_callOnDirty w s p o :
  bindS (put_obj p o) (fun _ => callOnDirty p) w s = Ok (tt, put w p (fired o), fire s o).
Proof.
  unfold callOnDirty, bindS, put_obj, get_obj, MarkStateObjectDirty, modify, retS, fired, fire. cbn.
  rewrite lookup_insert_eq. destruct (onDirty o); cbn; [|done]. unfold put_obj, put. cbn. by rewrite insert_insert_eq.
Qed.

Lemma oview_fired w o : oview w (fired o) = oview w o.
Proof. unfold fired. by destruct (onDirty o). Qed.

Lemma fired_same o :
  address (fired o) = address o /\ data (fired o) = data o /\ deleted (fired o) = deleted o /\ otrie (fired o) = otrie o.
Proof. unfold fired. by destruct (onDirty o). Qed.

Lemma fire_same s o :
  stateObjects (fire s o) = stateObjects s /\ kept s (fire s o) /\ journal (fire s o) = journal s /\
  refund (fire s o) = refund s /\ logs (fire s o) = logs s.
Proof. unfold fire. by destruct (onDirty o). Qed.

Lemma obj_ok_same w w' o o' :
  wdb w' = wdb w -> tries w' = tries w -> otrie o' = otrie o -> Root (data o') = Root (data o) ->
  length (CodeHash (data o')) = 32%nat -> obj_ok w o -> obj_ok w' o'.
Proof.
  intros E1 E2 E3 E4 L [(t & Et & S) _]. split; [|done]. exists t. unfold storage_trie in *.
  by rewrite E1, E2, E3, E4.
Qed.

Lemma put_fresh w s J p o x : wf w s J -> objs w !! p = Some x -> wfresh (put w p o).
Proof.
  intros WF E q Hq. cbn in *. destruct (wf_next _ _ _ WF q Hq) as [E1 E2]. split; [|done].
  rewrite lookup_insert_ne; [done|]. intros ->. congruence.
Qed.

Lemma update_live w s J a p o o' s' :
  wf w s J -> live w s a p o -> address o' = a -> deleted o' = false -> obj_ok w o' ->
  stateObjects s' = stateObjects s -> s_trie s' = s_trie s ->
  wf (put w p (fired o')) s' J /\ stable J w (put w p (fired o')) /\ live (put w p (fired o')) s' a p (fired o') /\
  forall b, option_Forall2 acct_eq (view (put w p (fired o')) s' b)
    (if decide (b = a) then Some (oview w o') else view w s b).
Proof.
  intros WF (Ep & Eo & Ed) Ea Ed' Ok' E1 E2. destruct (fired_same o') as (Fa & Fd & Fdel & Ft).
  destruct (put_live w s J (put w p (fired o')) s' a p o (fired o')) as (WF' & St & V); try done.
  - by apply wle_same.
  - by eapply put_fresh.
  - congruence.
  - eapply (obj_ok_same w); try done; [by rewrite Fd|rewrite Fd; apply Ok'].
  - congruence.
  - split; [done|]. split; [done|]. rewrite Fdel, Ed', oview_fired in V. split; [|done].
    split; [by rewrite E1|]. split; [cbn; by rewrite lookup_insert_eq|congruence].
Qed.

Lemma abs_upd w s w' s' a x :
  (forall b, option_Forall2 acct_eq (view w' s' b) (if decide (b = a) then x else view w s b)) ->
  refund s' = refund s -> logs s' = logs s -> aeq (abs w' s') (upd (abs w s) a x).
Proof. by split. Qed.

Lemma view_live w s J a x :
  wf w s J -> view w s a = Some x ->
  exists p w' s' o, GetStateObject a w s = Ok (Some p, w', s') /\ quiet J w s w' s' /\ live w' s' a p o /\ obj_ok w' o /\
    address o = a /\ acct_eq (oview w' o) x.
Proof.
  intros WF V. assert (Kn : known s a).
  { intros N. unfold view, trie_account in V. rewrite N in V. destruct (tries w !! s_trie s); [|done]. by destruct (decide (st_key a)). }
  destruct (GetStateObject_ok w s J a WF Kn) as ([p|] & w' & s' & E & Q & P).
  2: { destruct P. congruence. }
  destruct P as (o & Lv). exists p, w', s', o. split; [done|]. split; [done|]. split; [done|].
  destruct Q as [WF' Ab _ _ _ _]. destruct Lv as (Lp & Lo & Ld).
  destruct (wf_live _ _ _ WF' a p Lp) as (o' & Eo' & Ea & Oo). assert (o' = o) as -> by congruence.
  split; [done|]. split; [done|].
  pose proof (eq_accts _ _ Ab a) as X. cbn in X. rewrite V, (live_view w' s' a p o) in X by done. by inversion X.
Qed.

(** Undoing a change of one account: whatever object with the earlier view
    replaces the live one. *)
Lemma field_undo w s J a f A :
  wf w s J -> on_acct (abs w s) a f = Some A -> (forall x y, acct_eq x y -> acct_eq (f x) (f y)) ->
  exists p w' s' o, GetStateObject a w s = Ok (Some p, w', s') /\ objs w' !! p = Some o /\ deleted o = false /\
    obj_ok w' o /\ address o = a /\ wdb w' = wdb w /\
    forall o', address o' = a -> deleted o' = false -> obj_ok w' o' -> acct_eq (oview w' o') (f (oview w' o)) ->
      quiet J w s w' s' /\ wf (put w' p (fired o')) (fire s' o') J /\
      aeq (abs (put w' p (fired o')) (fire s' o')) A /\ stable J w (put w' p (fired o')).
Proof.
  intros WF E Pf. unfold on_acct in E. cbn in E. destruct (view w s a) as [x|] eqn:V; [|done]. injection E as <-.
  destruct (view_live w s J a x WF V) as (p & w' & s' & o & Eg & Q & Lv & Oo & Ea & Ex).
  exists p, w', s', o. destruct Lv as (Lp & Lo & Ld). split; [done|]. split; [done|]. split; [done|]. split; [done|].
  split; [done|]. split; [apply (q_stable _ _ _ _ _ Q)|].
  intros o' Ea' Ed' Oo' Ef. destruct (fire_same s' o') as (F1 & F2 & F3 & F4 & F5).
  destruct Q as [WF' Ab St Kp Jn Qp].
  destruct (update_live w' s' J a p o o' (fire s' o')) as (WF2 & St2 & _ & V2); try done; [apply F2|].
  split; [by split|]. split; [done|]. split; [|by eapply stable_trans].
  etrans; [by apply (abs_upd w' s' _ _ a)|]. apply upd_proper; [done|done|]. constructor.
  etrans; [done|]. by apply Pf.
Qed.

(** ** Undo entries undo *)

Lemma o_storage_insert w o k v dirty k' :
  o_storage w (set_storage o (<[k := v]> (cachedStorage o)) dirty) k' = if decide (k' = k) then v else o_storage w o k'.
Proof.
  unfold o_storage. cbn. rewrite lookup_insert. destruct (decide (k = k')), (decide (k' = k)); congruence || done.
Qed.

Definition undone J w s w' s' (A : astate) : Prop :=
  wf w' s' J /\ aeq (abs w' s') A /\ stable J w w' /\ kept s s' /\ journal s' = journal s.

(** An entry that changes one account through [with_object]. *)
Lemma with_object_undo w s J a f g A :
  wf w s J -> on_acct (abs w s) a f = Some A -> (forall x y, acct_eq x y -> acct_eq (f x) (f y)) ->
  (forall w' o, wdb w' = wdb w -> obj_ok w' o ->
     address (g o) = address o /\ deleted (g o) = deleted o /\ obj_ok w' (g o) /\
     acct_eq (oview w' (g o)) (f (oview w' o))) ->
  exists w' s', with_object a (fun p => bindS (get_obj p) (fun x => bindS (put_obj p (g x)) (fun _ => callOnDirty p))) w s =
    Ok (tt, w', s') /\ undone J w s w' s' A.
Proof.
  intros WF E Pf Hg. destruct (field_undo w s J a f A WF E Pf) as (p & w' & s' & o & Eg & Eo & Ed & Oo & Ea & Edb & Fin).
  destruct (Hg w' o Edb Oo) as (G1 & G2 & G3 & G4). destruct (Fin (g o)) as (Q & WF' & Ab & St); try congruence; try done.
  eexists _, _. split.
  - unfold with_object. unfold bindS at 1. rewrite Eg. unfold bindS at 1, get_obj. rewrite Eo. apply put_callOnDirty.
  - destruct (fire_same s' (g o)) as (F1 & F2 & F3 & F4 & F5). destruct Q as [_ _ _ Kp Jn _].
    split; [done|]. split; [done|]. split; [done|]. split; [by etrans|congruence].
Qed.

(** An account without an entry need not be live. *)
Lemma account_forgotten w s s' a :
  stateObjects s' = base.delete a (stateObjects s) -> s_trie s' = s_trie s -> trie_account w s a = None ->
  (exists t, tries w !! s_trie s = Some t /\ accounts_ok w s t) -> exists t, tries w !! s_trie s' = Some t /\ accounts_ok w s' t.
Proof.
  intros E1 E2 N (t & Et & [O1 O2 O3]). exists t. rewrite E2. split; [done|]. split; [done|done|]. intros b x. rewrite E1.
  intros Kb. rewrite lookup_delete_None. intros [<-|Eb] Ex; [|by apply O3]. unfold trie_account in N. rewrite Et, decide_True in N by done.
  destruct (len _ =? 0) eqn:Z0; [|by rewrite Ex in N].
  apply Z.eqb_eq in Z0. destruct (st_value (wdb w) t a); [by vm_compute in Ex|cbn in Z0; lia].
Qed.

Lemma undo_create w s J a A :
  wf w s (J ++ [createObjectChange a]) -> aundo w (createObjectChange a) (abs w s) = Some A ->
  exists w' s', undo (createObjectChange a) w s = Ok (tt, w', s') /\ undone J w s w' s' A.
Proof.
  intros WF E. cbn in E. destruct (view w s a) as [x|] eqn:V; [|done]. injection E as <-.
  assert (TA : trie_account w s a = None) by (eapply (wf_created _ _ _ WF), elem_of_app; right; by apply list_elem_of_singleton).
  apply wf_prefix in WF. destruct (view_live w s J a x WF V) as (p & w1 & s1 & o & Eg & Q & (Lp & Lo & Ld) & Oo & Ea & _).
  destruct Q as [WF1 Ab1 St1 Kp1 Jn1 _].
  set (w2 := put w1 p (set_deleted o true)).
  set (s2 := set_dirty (set_objects s1 (base.delete a (stateObjects s1))) (stateObjectsDirty s1 ∖ {[a]})).
  exists w2, s2. split.
  { cbn. unfold with_object. unfold bindS at 1. rewrite Eg. unfold bindS, get_obj, put_obj, modify. by rewrite Lo. }
  assert (TA1 : trie_account w1 s1 a = None).
  { rewrite <- TA. apply trie_account_wle; [apply St1|apply Kp1|apply WF]. }
  destruct (put_live w1 s1 J w2 s1 a p o (set_deleted o true) WF1 Lp Lo) as (WF2 & St2 & V2);
    [by apply wle_same|reflexivity|by eapply put_fresh|exact Ea| |intros _; exact TA1|reflexivity|reflexivity|].
  { apply (obj_ok_same w1 _ o); [reflexivity..|apply Oo|exact Oo]. }
  assert (Dl : forall b q, stateObjects s2 !! b = Some q -> stateObjects s1 !! b = Some q /\ b <> a).
  { intros b q. cbn. by intros [? ?]%lookup_delete_Some. }
  assert (WF3 : wf w2 s2 J).
  { destruct WF2 as [I1 I2 I3 I4 I5 I6 I7 I8]. split; [| |exact I3|exact I4| | |exact I7|exact I8]; [eapply (account_forgotten w2 s1 s2 a); done || (rewrite <- TA1; apply trie_account_wle; [by apply wle_same|done|apply WF1])| | |]; intros b q.
    - intros [Eb _]%Dl. exact (I2 b q Eb).
    - intros [Eb _]%Dl. exact (I5 b q Eb).
    - intros x' [Eb _]%Dl. exact (I6 b q x' Eb). }
  split; [exact WF3|]. split; [|split; [by eapply stable_trans|split; [|exact Jn1]]].
  2: { etrans; [exact Kp1|]. by split. }
  transitivity (upd (abs w1 s1) a None); [|apply upd_proper; [exact Ab1|done|constructor]].
  apply abs_upd; [|reflexivity|reflexivity]. intros b. specialize (V2 b).
  unfold view at 1. cbn [s2 stateObjects set_dirty set_objects].
  case_decide as Eb.
  - subst b. rewrite lookup_delete_eq.
    replace (trie_account w2 s2 a) with (trie_account w1 s1 a); [rewrite TA1; constructor|].
    symmetry. apply trie_account_wle; [by apply wle_same|reflexivity|apply WF1].
  - rewrite lookup_delete_ne by done. exact V2.
Qed.

Lemma undo_reset w s J q A :
  wf w s (J ++ [resetObjectChange q]) -> aundo w (resetObjectChange q) (abs w s) = Some A ->
  exists w' s', undo (resetObjectChange q) w s = Ok (tt, w', s') /\ undone J w s w' s' A.
Proof.
  intros WF E. cbn in E.
  assert (Hq : q ∈ prevs (J ++ [resetObjectChange q])) by (unfold prevs; rewrite omap_app; apply elem_of_app; right; by apply list_elem_of_singleton).
  destruct (wf_prev _ _ _ WF q Hq) as (o & Eo & Oo & Do). rewrite Eo in E. injection E as <-.
  assert (NP : q ∉ prevs J).
  { pose proof (wf_nodup _ _ _ WF) as N. unfold prevs in N. rewrite omap_app in N.
    apply NoDup_app in N as (_ & N & _). intros Hin. apply (N q Hin). by left. }
  set (s' := set_objects s (<[address o := q]> (stateObjects s))).
  destruct (attach w s J w s' (address o) q o) as (WF' & St & V); try done.
  - by eapply wf_prefix.
  - intros b Eb. by apply (wf_sep _ _ _ WF b q).
  - apply wle_refl.
  - exact (wf_next _ _ _ WF).
  - exists w, s'. split; [cbn; unfold setStateObject, bindS, get_obj, modify; by rewrite Eo|].
    split; [done|]. split; [by apply abs_upd|]. done.
Qed.

Lemma obj_ok_fields w o o' :
  otrie o' = otrie o -> Root (data o') = Root (data o) -> CodeHash (data o') = CodeHash (data o) -> obj_ok w o -> obj_ok w o'.
Proof. intros E1 E2 E3 O. eapply (obj_ok_same w w o); [done..| |done]. rewrite E3. apply O. Qed.

Lemma undo_suicide w s J a prev bal A :
  wf w s J -> aundo w (suicideChange a prev bal) (abs w s) = Some A ->
  exists w' s', undo (suicideChange a prev bal) w s = Ok (tt, w', s') /\ undone J w s w' s' A.
Proof.
  intros WF E.
  destruct (field_undo w s J a _ A WF E) as (p & w1 & s1 & o & Eg & Eo & Ed & Oo & Ea & _ & Fin); [by intros x y []|].
  set (o' := set_balance (set_suicided o prev) bal).
  destruct (Fin o') as (Q & WF2 & Ab & St); [done|done|by apply (obj_ok_fields w1 o)|done|].
  exists (put w1 p (fired o')), (fire s1 o'). split.
  - cbn. unfold bindS at 1. rewrite Eg. unfold bindS at 1, get_obj at 1. rewrite Eo.
    unfold bindS at 1, put_obj at 1. unfold setBalance, bindS at 1, get_obj at 1. cbn [objs]. rewrite lookup_insert_eq.
    etrans; [apply put_callOnDirty|]. unfold put. cbn. by rewrite insert_insert_eq.
  - destruct Q as [_ _ _ Kp Jn _]. destruct (fire_same s1 o') as (F1 & F2 & F3 & F4 & F5).
    split; [done|]. split; [done|]. split; [done|]. split; [by etrans|congruence].
Qed.

(** Fields outside the heap. *)
Lemma wf_state w s s' J :
  stateObjects s' = stateObjects s -> s_trie s' = s_trie s -> wf w s J -> wf w s' J.
Proof.
  intros E1 E2 [(t & Et & [O1 O2 O3]) I2 I3 I4 I5 I6 I7 I8]. unfold trie_account in *.
  split; unfold trie_account; rewrite ?E1, ?E2; auto. exists t. split; [done|]. split; [done|done|]. by rewrite E1.
Qed.

Lemma view_state w s s' b : stateObjects s' = stateObjects s -> s_trie s' = s_trie s -> view w s' b = view w s b.
Proof. intros E1 E2. unfold view, trie_account. by rewrite E1, E2. Qed.

Lemma undone_state w s J s' :
  wf w s J -> stateObjects s' = stateObjects s -> kept s s' -> journal s' = journal s ->
  undone J w s w s' (mkAstate (view w s) (refund s') (logs s')).
Proof.
  intros WF E1 Kp Jn. split; [by apply (wf_state w s); [| |done]; [|apply Kp]|]. split.
  - split; [|done|done]. intros b. cbn. rewrite (view_state w s s') by (done || apply Kp). reflexivity.
  - split; [apply (quiet_refl J w s WF)|done].
Qed.

(** Every undo entry takes the heap to the abstract state before the change. *)
Lemma undo_ok w s J e A :
  wf w s (J ++ [e]) -> aundo w e (abs w s) = Some A ->
  exists w' s', undo e w s = Ok (tt, w', s') /\ undone J w s w' s' A.
Proof.
  intros WF E. pose proof (wf_prefix _ _ _ _ WF) as WF'.
  destruct e as [a|p|a prev bal|a prev|a prev|a k prev|a pc ph|prev|h].
  - by apply undo_create.
  - by apply undo_reset.
  - by apply undo_suicide.
  - eapply (with_object_undo w s J a _ (fun o => set_balance o prev) A WF' E); [by intros x y []|].
    intros w0 o Edb O. split; [done|]. split; [done|]. split; [by apply (obj_ok_fields w0 o)|done].
  - eapply (with_object_undo w s J a _ (fun o => set_nonce o prev) A WF' E); [by intros x y []|].
    intros w0 o Edb O. split; [done|]. split; [done|]. split; [by apply (obj_ok_fields w0 o)|done].
  - eapply (with_object_undo w s J a _
      (fun o => set_storage o (<[k := prev]> (cachedStorage o)) (<[k := prev]> (dirtyStorage o))) A WF' E).
    { intros x y [? ? ? ? Es ?]. split; try done. intros k'. cbn. by case_decide. }
    intros w0 o Edb O. split; [done|]. split; [done|]. split; [by apply (obj_ok_fields w0 o)|].
    split; try done. intros k'. cbn. apply o_storage_insert.
  - eapply (with_object_undo w s J a _ (fun o => set_dirtyCode (set_code (set_data o (mkAccount (Nonce (data o))
      (Balance (data o)) (Root (data o)) (BytesToHash ph))) pc) true) A WF' E); [by intros x y []|].
    intros w0 o Edb O. split; [done|]. split; [done|]. split; [|].
    { eapply (obj_ok_same w0 w0 o); [done..| |done]. apply length_setFixed. }
    split; try done. cbn -[BytesToHash]. by rewrite Edb.
  - cbn in E. injection E as <-. eexists w, _. split; [done|]. by apply (undone_state w s J (set_refund s prev)).
  - cbn in E |- *. unfold bindS, getS. destruct (default [] _) as [|x [|y l]]; [done|injection E as <-..];
      (eexists w, _; split; [done|]); by apply (undone_state w s J (set_logs s _ _)).
Qed.

(** Undoing the end of the journal, last entry first. *)
Lemma undo_all w s J1 J2 A :
  wf w s (J1 ++ J2) -> oeq (rewind w J2 (abs w s)) (Some A) ->
  exists w' s', forS (rev J2) undo w s = Ok (tt, w', s') /\ undone J1 w s w' s' A.
Proof.
  revert w s A. induction J2 as [|e J2 IH] using rev_ind; intros w s A WF E.
  - cbn in E. inversion E; subst. rewrite app_nil_r in WF. exists w, s. split; [done|]. split; [done|]. split; [done|].
    split; [apply (quiet_refl J1 w s WF)|done].
  - rewrite rewind_app in E. cbn in E. destruct (aundo w e (abs w s)) as [B|] eqn:Eb; [|inversion E].
    rewrite app_assoc in WF. destruct (undo_ok w s (J1 ++ J2) e B WF Eb) as (w1 & s1 & Eu & WF1 & Ab1 & St1 & Kp1 & Jn1).
    apply stable_app in St1 as [St1 St2].
    destruct (IH w1 s1 A WF1) as (w2 & s2 & Ef & WF2 & Ab2 & St3 & Kp2 & Jn2).
    { etrans; [|exact E]. by apply rewind_proper. }
    exists w2, s2. rewrite rev_app_distr. cbn. unfold bindS. rewrite Eu, Ef. split; [done|].
    split; [done|]. split; [done|]. split; [by eapply stable_trans|]. split; [by etrans|congruence].
Qed.

(** ** Steps that can be undone *)

(** From [(w, s)] to [(w', s')] with abstract state [A]: the new journal
    entries rewind to where the step started. *)
Record step w s w' s' (A : astate) : Prop := {
  step_wf : wf w' s' (journal s');
  step_abs : aeq (abs w' s') A;
  step_journal : exists new, journal s' = journal s ++ new /\ oeq (rewind w' new (abs w' s')) (Some (abs w s));
  step_stable : stable (journal s) w w';
  step_kept : kept s s'
}.

Lemma quiet_step w s w' s' : quiet (journal s) w s w' s' -> step w s w' s' (abs w s).
Proof.
  intros [WF Ab St Kp Jn _]. split; [by rewrite Jn|done| |done|done].
  exists []. rewrite app_nil_r. split; [done|]. by constructor.
Qed.

Lemma step_trans w1 s1 w2 s2 w3 s3 A B : step w1 s1 w2 s2 A -> step w2 s2 w3 s3 B -> step w1 s1 w3 s3 B.
Proof.
  intros [_ _ (n1 & E1 & R1) St1 Kp1] [WF3 Ab3 (n2 & E2 & R2) St2 Kp2].
  split; [done|done| | |by etrans].
  - exists (n1 ++ n2). split; [by rewrite E2, E1, app_assoc|]. rewrite rewind_app.
    inversion R2 as [X Y EXY HX|]; subst. rewrite E1 in St2. apply stable_app in St2 as [_ St2].
    etrans; [by apply rewind_proper|done].
  - rewrite E1 in St2. apply stable_app in St2 as [St2 _]. by eapply stable_trans.
Qed.

Lemma step_aeq w s w' s' A B : aeq A B -> step w s w' s' A -> step w s w' s' B.
Proof. intros E []. split; try done. by etrans. Qed.

(** A change of the live object [o] to [o'] with the undo entry [e]. *)
Lemma update_step w s a p o o' e s' :
  wf w s (journal s) -> live w s a p o -> address o' = a -> deleted o' = false -> obj_ok w o' ->
  stateObjects s' = stateObjects s -> kept s s' -> refund s' = refund s -> logs s' = logs s ->
  journal s' = journal s ++ [e] ->
  entry_ok w s (journal s) e ->
  oeq (aundo (put w p (fired o')) e (upd (abs w s) a (Some (oview w o')))) (Some (abs w s)) ->
  prevs [e] = [] ->
  step w s (put w p (fired o')) s' (upd (abs w s) a (Some (oview w o'))).
Proof.
  intros WF Lv Ea Ed Oo E1 Kp E3 E4 Jn He Eu Pe.
  assert (E2 : s_trie s' = s_trie s) by apply Kp.
  destruct (update_live w s (journal s) a p o o' s' WF Lv Ea Ed Oo E1 E2) as (WF' & St & _ & V).
  assert (Ab : aeq (abs (put w p (fired o')) s') (upd (abs w s) a (Some (oview w o')))) by by apply abs_upd.
  split; [|done| |done|done].
  - rewrite Jn. apply wf_snoc; [done|]. destruct e; try done.
    cbn in He |- *. rewrite <- He. apply trie_account_wle; [by apply wle_same|done|apply WF].
  - exists [e]. split; [done|]. cbn. etrans; [|exact Eu]. apply aundo_proper; [|done].
    split; [by apply wle_same|]. rewrite Pe. intros q Hq. by apply not_elem_of_nil in Hq.
Qed.

Lemma live_ok w s J a p o : wf w s J -> live w s a p o -> obj_ok w o /\ address o = a.
Proof. intros WF (Ep & Eo & _). destruct (wf_live _ _ _ WF a p Ep) as (o' & Eo' & Ea & Oo). by replace o with o' by congruence. Qed.

(** The shape of all setters: an undo entry, then the change. *)
Lemma journalled w s a p o e g h :
  wf w s (journal s) -> live w s a p o ->
  address (g o) = address o -> deleted (g o) = deleted o -> obj_ok w (g o) ->
  (forall w' B, wdb w' = wdb w -> aundo w' e B = on_acct B a h) -> acct_eq (h (oview w (g o))) (oview w o) ->
  prevs [e] = [] -> (forall b, e <> createObjectChange b) ->
  exists w' s', bindS (append_journal e) (fun _ => bindS (get_obj p) (fun x => bindS (put_obj p (g x)) (fun _ => callOnDirty p))) w s
      = Ok (tt, w', s') /\ step w s w' s' (upd (abs w s) a (Some (oview w (g o)))) /\ live w' s' a p (fired (g o)) /\
    w' = put w p (fired (g o)) /\ s' = fire (set_journal s (journal s ++ [e]) (validRevisions s)) (g o).
Proof.
  intros WF Lv G1 G2 G3 Eu Eh Pe Ne. destruct (live_ok w s _ a p o WF Lv) as [Oo Ea]. pose proof Lv as (Lp & Lo & Ld).
  set (s1 := set_journal s (journal s ++ [e]) (validRevisions s)).
  destruct (fire_same s1 (g o)) as (F1 & F2 & F3 & F4 & F5).
  exists (put w p (fired (g o))), (fire s1 (g o)). split; [|split; [|split]].
  - unfold bindS at 1, append_journal, modify. unfold bindS at 1, get_obj. rewrite Lo. apply put_callOnDirty.
  - apply (update_step w s a p o (g o) e); try done; try congruence.
    + destruct F2. by split.
    + destruct e; try done. by destruct (Ne account).
    + rewrite Eu by done. unfold on_acct. rewrite upd_eq. constructor.
      etrans; [apply upd_upd|]. transitivity (upd (abs w s) a (Some (oview w o))).
      * apply upd_proper; [done|done|by constructor].
      * apply upd_same. cbn. by apply (live_view w s a p o).
  - destruct (fired_same (g o)) as (? & ? & ? & ?). split; [by rewrite F1|].
    split; [cbn; by rewrite lookup_insert_eq|congruence].
  - done.
Qed.

Lemma obj_SetBalance_ok w s a p o amount :
  wf w s (journal s) -> live w s a p o ->
  exists w' s' o', obj_SetBalance p amount w s = Ok (tt, w', s') /\
    step w s w' s' (upd (abs w s) a (Some (with_balance (oview w o) amount))) /\ live w' s' a p o' /\
    stateObjects s' = stateObjects s.
Proof.
  intros WF Lv. destruct (live_ok w s _ a p o WF Lv) as [Oo Ea].
  destruct (journalled w s a p o (balanceChange (address o) (Balance (data o))) (fun x => set_balance x amount)
    (fun x => with_balance x (Balance (data o)))) as (w' & s' & E & St & Lv' & _ & Es); try done;
    [by apply (obj_ok_fields w o)|by rewrite Ea|].
  exists w', s', (fired (set_balance o amount)). split; [|split; [done|split; [done|by rewrite Es, (proj1 (fire_same _ _))]]]. unfold obj_SetBalance, bindS at 1, get_obj at 1.
  destruct Lv as (_ & -> & _). exact E.
Qed.

Lemma obj_SetNonce_ok w s a p o nonce :
  wf w s (journal s) -> live w s a p o ->
  exists w' s' o', obj_SetNonce p nonce w s = Ok (tt, w', s') /\
    step w s w' s' (upd (abs w s) a (Some (with_nonce (oview w o) nonce))) /\ live w' s' a p o' /\
    stateObjects s' = stateObjects s.
Proof.
  intros WF Lv. destruct (live_ok w s _ a p o WF Lv) as [Oo Ea].
  destruct (journalled w s a p o (nonceChange (address o) (Nonce (data o))) (fun x => set_nonce x nonce)
    (fun x => with_nonce x (Nonce (data o)))) as (w' & s' & E & St & Lv' & _ & Es); try done;
    [by apply (obj_ok_fields w o)|by rewrite Ea|].
  exists w', s', (fired (set_nonce o nonce)). split; [|split; [done|split; [done|by rewrite Es, (proj1 (fire_same _ _))]]]. unfold obj_SetNonce, bindS at 1, get_obj at 1.
  destruct Lv as (_ & -> & _). exact E.
Qed.

(** *** Lookups in an object *)

(** A silent change of a live object: same view, no undo entry. *)
Lemma update_quiet w s J w' a p o o' :
  wf w s J -> live w s a p o -> wle w w' -> objs w' = <[p := o']> (objs w) -> wfresh w' ->
  address o' = a -> deleted o' = false -> obj_ok w' o' -> acct_eq (oview w' o') (oview w o) ->
  quiet J w s w' s /\ live w' s a p o'.
Proof.
  intros WF Lv W Eo Fr Ea Ed Oo Ev. pose proof Lv as (Lp & Lo & Ld).
  destruct (put_live w s J w' s a p o o') as (WF' & St & V); try done; [by rewrite Ed|].
  split.
  - split; try done. apply abs_eq; [|done|done]. intros b. etrans; [apply V|]. case_decide as Eb; [|reflexivity].
    subst b. rewrite Ed, (live_view w s a p o) by done. by constructor.
  - split; [done|]. split; [by rewrite Eo, lookup_insert_eq|done].
Qed.

Lemma put_wle w p o : wle w (put w p o).
Proof. by apply wle_same. Qed.

(** ... without touching tries. *)
Lemma put_quiet w s J a p o o' :
  wf w s J -> live w s a p o -> address o' = address o -> deleted o' = deleted o -> data o' = data o ->
  otrie o' = otrie o -> acct_eq (oview w o') (oview w o) ->
  quiet J w s (put w p o') s /\ live (put w p o') s a p o' /\ acct_eq (oview (put w p o') o') (oview w o).
Proof.
  intros WF Lv E1 E2 E3 E4 Ev. destruct (live_ok w s _ a p o WF Lv) as [Oo Ea]. pose proof Lv as (Lp & Lo & Ld).
  assert (Oo' : obj_ok (put w p o') o').
  { apply (obj_ok_same w _ o); try done; rewrite E3; [done|apply Oo]. }
  destruct (update_quiet w s J (put w p o') a p o o') as [Q Lv']; try done; try congruence;
    [apply put_wle|by eapply put_fresh].
Qed.

Lemma obj_Code_ok w s J a p o :
  wf w s J -> live w s a p o ->
  exists w' o', obj_Code p w s = Ok (o_code (wdb w) o, w', s) /\ quiet J w s w' s /\ live w' s a p o' /\
    acct_eq (oview w' o') (oview w o).
Proof.
  intros WF Lv. pose proof Lv as (Lp & Lo & Ld).
  unfold obj_Code, bindS, get_obj, retS, getDb, put_obj. rewrite Lo. unfold o_code, code_from.
  destruct (code o) as [c|] eqn:Ec; [exists w, o; split; [done|]; split; [by apply quiet_refl|done]|].
  case_bool_decide as Eh; [exists w, o; split; [done|]; split; [by apply quiet_refl|done]|].
  destruct (db_get (wdb w) (CodeHash (data o))) as [c|] eqn:Eg.
  - exists (put w p (set_code o (Some c))), (set_code o (Some c)). split; [done|]. apply put_quiet; try done.
    split; try done. cbn. unfold o_code, code_from. cbn. by rewrite Ec, bool_decide_false.
  - exists (put w p (setError o NoCode)), (setError o NoCode). split; [done|].
    apply put_quiet; try done; unfold setError; by destruct (dbErr o).
Qed.

(** Opening the storage trie. *)
Definition opened w p o (t : T) : World T D :=
  mkWorld (wdb w) (<[p := o]> (objs w)) (<[next w := t]> (tries w)) (S (next w)).

Lemma opened_quiet w s J a p o o' t :
  wf w s J -> live w s a p o -> otrie o = None -> storage_trie w o = Some t -> slots_ok (wdb w) t ->
  address o' = address o -> deleted o' = deleted o -> data o' = data o -> code o' = code o ->
  cachedStorage o' = cachedStorage o -> suicided o' = suicided o -> otrie o' = Some (next w) ->
  quiet J w s (opened w p o' t) s /\ live (opened w p o' t) s a p o' /\ acct_eq (oview (opened w p o' t) o') (oview w o).
Proof.
  intros WF Lv Eo Et St E1 E2 E3 E4 E5 E6 E7. destruct (live_ok w s _ a p o WF Lv) as [Oo Ea].
  pose proof Lv as (Lp & Lo & Ld). pose proof (wf_next _ _ _ WF) as Fr.
  assert (W : wle w (opened w p o' t)).
  { split; [done|]. intros tp x Ex. exists x. split; [|by split]. cbn. rewrite lookup_insert_ne; [done|].
    intros <-. destruct (Fr (next w) (le_n _)). congruence. }
  assert (Es : storage_trie (opened w p o' t) o' = Some t) by (unfold storage_trie; rewrite E7; apply lookup_insert_eq).
  assert (V : acct_eq (oview (opened w p o' t) o') (oview w o)).
  { split; cbn; rewrite ?E3; try done.
    - unfold o_code. by rewrite E3, E4.
    - intros k. unfold o_storage. by rewrite E5, Es, Et. }
  destruct (update_quiet w s J (opened w p o' t) a p o o') as [Q Lv']; try done; try congruence.
  - intros q Hq. cbn in Hq |- *. destruct (Fr q ltac:(lia)) as [F1 F2].
    rewrite !lookup_insert_ne; [done|lia|]. intros ->. congruence.
  - split; [by exists t|]. rewrite E3. apply Oo.
Qed.

Lemma getTrie_ok w s J a p o :
  wf w s J -> live w s a p o ->
  exists tp t w' o', getTrie p w s = Ok (tp, w', s) /\ quiet J w s w' s /\ live w' s a p o' /\
    acct_eq (oview w' o') (oview w o) /\ cachedStorage o' = cachedStorage o /\
    otrie o' = Some tp /\ tries w' !! tp = Some t /\ slots_ok (wdb w) t /\ storage_trie w o = Some t /\ wdb w' = wdb w.
Proof.
  intros WF Lv. destruct (live_ok w s _ a p o WF Lv) as [Oo Ea]. pose proof Lv as (Lp & Lo & Ld).
  destruct (ok_storage _ _ Oo) as (t & Et & St).
  unfold getTrie, bindS, get_obj, retS, getDb. rewrite Lo. destruct (otrie o) as [tp|] eqn:Eo.
  { exists tp, t, w, o. split; [done|]. split; [by apply quiet_refl|]. split; [done|]. split; [done|]. split; [done|].
    split; [done|]. unfold storage_trie in *. rewrite Eo in *. done. }
  assert (Op : forall o', address o' = address o -> deleted o' = deleted o -> data o' = data o -> code o' = code o ->
    cachedStorage o' = cachedStorage o -> suicided o' = suicided o -> otrie o' = Some (next w) ->
    exists tp t' w' o'', Ok (E := Empty_set) (next w, opened w p o' t, s) = Ok (tp, w', s) /\ quiet J w s w' s /\
      live w' s a p o'' /\ acct_eq (oview w' o'') (oview w o) /\ cachedStorage o'' = cachedStorage o /\
      otrie o'' = Some tp /\ tries w' !! tp = Some t' /\ slots_ok (wdb w) t' /\ storage_trie w o = Some t' /\ wdb w' = wdb w).
  { intros o' E1 E2 E3 E4 E5 E6 E7. destruct (opened_quiet w s J a p o o' t) as (Q & Lv' & V); try done.
    exists (next w), t, (opened w p o' t), o'. split; [done|]. split; [done|]. split; [done|]. split; [done|].
    split; [done|]. split; [done|]. split; [cbn; apply lookup_insert_eq|done]. }
  unfold storage_trie, open_storage in Et. rewrite Eo in Et.
  destruct (st_new (wdb w) (Root (data o)) 0) as [x|e|]; [injection Et as ->| |done].
  - unfold alloc_trie, put_obj. cbn. by apply (Op (set_otrie o (Some (next w)))).
  - destruct (st_new (wdb w) (zeros 32) 0) as [x| |]; [injection Et as ->|done..].
    unfold alloc_trie, put_obj. cbn.
    by apply (Op (setError (set_otrie o (Some (next w))) NoStorageTrie)); unfold setError; cbn; destruct (dbErr o).
Qed.

Lemma o_storage_cached w o k v dirty :
  o_storage w o k = v -> acct_eq (oview w (set_storage o (<[k := v]> (cachedStorage o)) dirty)) (oview w o).
Proof.
  intros E. split; try done. intros k'. cbn. rewrite o_storage_insert. case_decide; by subst.
Qed.

Lemma decode_slot_ok w s J a p o enc :
  wf w s J -> live w s a p o -> (enc <> [] -> Split enc <> Panic) ->
  exists w' o', decode_slot p enc w s = Ok (slot_value enc, w', s) /\ quiet J w s w' s /\ live w' s a p o' /\
    acct_eq (oview w' o') (oview w o).
Proof.
  intros WF Lv NP. unfold decode_slot, slot_value.
  assert (Here : quiet J w s w s /\ live w s a p o /\ acct_eq (oview w o) (oview w o))
    by (split; [by apply quiet_refl|done]).
  destruct (0 <? len enc) eqn:Z0; [|by exists w, o].
  destruct (Split enc) as [[[k c] r]|e|] eqn:Es; [by exists w, o| |].
  - destruct (put_quiet w s J a p o (setError o BadStorageValue)) as (Q & Lv' & V);
      try done; try (unfold setError; by destruct (dbErr o)).
    exists (put w p (setError o BadStorageValue)), (setError o BadStorageValue). split; [|done].
    unfold bindS at 1, get_obj. destruct Lv as (_ & -> & _). done.
  - exfalso. apply NP; [|done]. intros En. by rewrite En in Z0.
Qed.

Lemma obj_GetState_ok w s J a p o key :
  wf w s J -> live w s a p o -> st_key key ->
  exists w' o', obj_GetState p key w s = Ok (o_storage w o key, w', s) /\ quiet J w s w' s /\ live w' s a p o' /\
    acct_eq (oview w' o') (oview w o).
Proof.
  intros WF Lv Hk. unfold obj_GetState. unfold bindS at 1, get_obj at 1. pose proof Lv as (_ & Lo & _). rewrite Lo.
  destruct (cachedStorage o !! key) as [v|] eqn:Ec.
  { exists w, o. unfold o_storage. rewrite Ec. split; [done|]. split; [by apply quiet_refl|done]. }
  destruct (getTrie_ok w s J a p o WF Lv)
    as (tp & t & w1 & o1 & Eg & Q1 & Lv1 & V1 & C1 & Ot1 & Et1 & [Sok Ssp] & Est & Edb).
  unfold bindS at 1. rewrite Eg.
  destruct (trie_Get_ok w1 s tp t key Et1) as (w2 & Et2 & W2 & Eo2 & _ & Fr2);
    [by rewrite Edb|exact (wf_next _ _ _ (q_wf _ _ _ _ _ Q1))|].
  unfold bindS at 1. rewrite Et2, Edb.
  pose proof (wf_loaded w1 s J w2 (q_wf _ _ _ _ _ Q1) W2 Eo2 Fr2) as Q2.
  assert (Lv2 : live w2 s a p o1) by (destruct Lv1 as (? & ? & ?); split; [done|]; by rewrite Eo2).
  destruct (decode_slot_ok w2 s J a p o1 (st_value (wdb w) t key)) as (w3 & o3 & Ed & Q3 & Lv3 & V3);
    [apply Q2|done|apply Ssp|]. unfold bindS at 1. rewrite Ed.
  assert (V : acct_eq (oview w3 o3) (oview w o)).
  { etrans; [exact V3|]. etrans; [|exact V1]. apply oview_wle; [done|]. eapply live_ok; [apply Q1|done]. }
  assert (Q : quiet J w s w3 s) by (eapply quiet_trans; [done|]; by eapply quiet_trans).
  assert (Ev : slot_value (st_value (wdb w) t key) = o_storage w o key) by (unfold o_storage; by rewrite Ec, decide_True, Est).
  rewrite Ev. case_bool_decide as Ez; [by exists w3, o3|].
  destruct (put_quiet w3 s J a p o3 (set_storage o3 (<[key := o_storage w o key]> (cachedStorage o3)) (dirtyStorage o3)))
    as (Q4 & Lv4 & V4); try done; [apply Q|apply o_storage_cached; apply V|].
  eexists _, _. split; [|split; [by eapply quiet_trans|split; [exact Lv4|by etrans]]].
  unfold bindS at 1, get_obj. destruct Lv3 as (_ & -> & _). done.
Qed.

Lemma obj_SetState_ok w s a p o key value :
  wf w s (journal s) -> live w s a p o -> st_key key ->
  exists w' s' o', obj_SetState p key value w s = Ok (tt, w', s') /\
    step w s w' s' (upd (abs w s) a (Some (with_slot (oview w o) key value))) /\ live w' s' a p o'.
Proof.
  intros WF Lv Hk. destruct (obj_GetState_ok w s _ a p o key WF Lv Hk) as (w1 & o1 & Eg & Q & Lv1 & V).
  destruct (live_ok w1 s _ a p o1 (q_wf _ _ _ _ _ Q) Lv1) as [Oo1 Ea1].
  set (g := fun x => set_storage x (<[key := value]> (cachedStorage x)) (<[key := value]> (dirtyStorage x))).
  destruct (journalled w1 s a p o1 (storageChange (address o1) key (o_storage w o key)) g
    (fun x => with_slot x key (o_storage w o key))) as (w' & s' & E & St & Lv' & _); try done.
  - apply Q.
  - by apply (obj_ok_fields w1 o1).
  - by rewrite Ea1.
  - split; try done. intros k. unfold g. cbn. rewrite o_storage_insert. case_decide; [subst k; symmetry; apply (eq_storage _ _ V)|done].
  - exists w', s', (fired (g o1)). split; [|split; [|done]].
    + unfold obj_SetState, bindS at 1. rewrite Eg. unfold bindS at 1, get_obj at 1. destruct Lv1 as (_ & -> & _). exact E.
    + eapply step_trans; [by apply quiet_step|]. eapply step_aeq; [|exact St].
      apply upd_proper; [apply Q|done|]. constructor. destruct V as [? ? ? ? Vs ?]. split; try done.
      intros k. unfold g. cbn. rewrite o_storage_insert. case_decide; [done|apply Vs].
Qed.

Lemma obj_SetCode_ok w s a p o hash c :
  wf w s (journal s) -> live w s a p o -> length hash = 32%nat ->
  exists w' s' o', obj_SetCode p hash c w s = Ok (tt, w', s') /\
    step w s w' s' (upd (abs w s) a (Some (with_code (oview w o) hash (code_from (wdb w) c hash)))) /\ live w' s' a p o'.
Proof.
  intros WF Lv Lh. destruct (obj_Code_ok w s _ a p o WF Lv) as (w1 & o1 & Eg & Q & Lv1 & V).
  destruct (live_ok w1 s _ a p o1 (q_wf _ _ _ _ _ Q) Lv1) as [Oo1 Ea1].
  assert (Edb : wdb w1 = wdb w) by apply Q.
  set (g := fun x => set_dirtyCode (set_code (set_data x (mkAccount (Nonce (data x)) (Balance (data x)) (Root (data x)) hash)) c) true).
  destruct (journalled w1 s a p o1 (codeChange (address o1) (o_code (wdb w) o) (CodeHash (data o1))) g
    (fun x => with_code x (BytesToHash (CodeHash (data o1)))
       (code_from (wdb w) (o_code (wdb w) o) (BytesToHash (CodeHash (data o1)))))) as (w' & s' & E & St & Lv' & _); try done.
  - apply Q.
  - by apply (obj_ok_same w1 w1 o1).
  - intros w2 B Edb2. cbn -[BytesToHash]. by rewrite Ea1, Edb2, Edb.
  - rewrite BytesToHash_id by apply Oo1. split; try done. cbn.
    assert (Ec : o_code (wdb w1) o1 = o_code (wdb w) o) by apply (eq_code _ _ V).
    rewrite Ec. unfold code_from. destruct (o_code (wdb w) o) eqn:E'; [done|].
    rewrite Edb in Ec. unfold o_code, code_from in Ec. by destruct (code o1).
  - exists w', s', (fired (g o1)). split; [|split; [|done]].
    + unfold obj_SetCode, bindS at 1. rewrite Eg. unfold bindS at 1, get_obj at 1. destruct Lv1 as (_ & -> & _). exact E.
    + eapply step_trans; [by apply quiet_step|]. eapply step_aeq; [|exact St].
      apply upd_proper; [apply Q|done|]. constructor. destruct V as [? ? ? ? Vs ?]. split; try done.
      cbn. unfold o_code. cbn. by rewrite Edb.
Qed.

(** *** Creating accounts *)

Definition creation (a : bytes) (prev : option nat) : journalEntry :=
  match prev with None => createObjectChange a | Some p => resetObjectChange p end.

(** What [GetStateObject] found. *)
Definition found w s (a : bytes) (prev : option nat) : Prop :=
  match prev with
  | Some p => exists o, live w s a p o
  | None => trie_account w s a = None /\ view w s a = None
  end.

Lemma create_undo w s J a prev o s' :
  wf w s J -> found w s a prev -> address o = a -> stable J w (add_obj w o) ->
  oeq (aundo (add_obj w o) (creation a prev) (upd (abs w s) a (Some (oview w o)))) (Some (abs w s)) /\
  (stateObjects s' = <[a := next w]> (stateObjects s) -> s_trie s' = s_trie s ->
   entry_ok (add_obj w o) s' J (creation a prev)).
Proof.
  intros WF F Ea St. assert (W : wle w (add_obj w o)) by apply St. destruct prev as [p|].
  - destruct F as (x & Lv). destruct (live_ok w s J a p x WF Lv) as [Ox Eax]. pose proof Lv as (Lp & Lx & Ld).
    assert (Hp : p <> next w) by (intros ->; destruct (wf_next _ _ _ WF (next w) (le_n _)); congruence).
    assert (Ex : objs (add_obj w o) !! p = Some x) by (cbn; by rewrite lookup_insert_ne).
    split.
    + cbn [aundo creation]. rewrite Ex, Eax. constructor. etrans; [apply upd_upd|].
      transitivity (upd (abs w s) a (Some (oview w x))); [|apply upd_same; cbn; by apply (live_view w s a p x)].
      apply upd_proper; [done|done|]. constructor. by apply oview_wle.
    + intros E1 E2. cbn. split; [by apply (wf_sep _ _ _ WF a)|]. split.
      * intros b. rewrite E1, lookup_insert. case_decide as Eb; [by intros [=]|]. intros Eb'. by destruct Eb; eapply live_inj.
      * exists x. split; [done|]. split; [by eapply obj_ok_wle|done].
  - destruct F as [TA V]. split.
    + cbn [aundo creation]. rewrite upd_eq. constructor. etrans; [apply upd_upd|]. by apply upd_same.
    + intros E1 E2. cbn. rewrite <- TA. apply trie_account_wle; [done|done|apply WF].
Qed.

Lemma create_step w s a prev o s' :
  wf w s (journal s) -> found w s a prev -> address o = a -> deleted o = false -> obj_ok w o ->
  stateObjects s' = <[a := next w]> (stateObjects s) -> kept s s' -> refund s' = refund s -> logs s' = logs s ->
  journal s' = journal s ++ [creation a prev] ->
  step w s (add_obj w o) s' (upd (abs w s) a (Some (oview w o))) /\ live (add_obj w o) s' a (next w) o.
Proof.
  intros WF F Ea Ed Oo E1 Kp E3 E4 Jn. assert (E2 : s_trie s' = s_trie s) by apply Kp. subst a.
  destruct (attach_new w s (journal s) s' o WF Oo Ed E1 E2) as (WF' & St & Lv & V).
  destruct (create_undo w s (journal s) (address o) prev o s' WF F eq_refl St) as [Eu En].
  split; [|done]. assert (Ab : aeq (abs (add_obj w o) s') (upd (abs w s) (address o) (Some (oview w o)))) by by apply abs_upd.
  split; [|done| |done|done].
  - rewrite Jn. apply wf_snoc; [done|]. by apply En.
  - exists [creation (address o) prev]. split; [done|]. cbn [rewind].
    etrans; [|exact Eu]. apply aundo_proper; [|done]. split; [apply wle_refl|].
    intros q Hq. destruct (wf_prev _ _ _ (wf_snoc _ _ _ _ WF' (En E1 E2)) q) as (x & Ex & Ox & _).
    { unfold prevs. rewrite omap_app. apply elem_of_app. by right. }
    exists x. done.
Qed.

Section Creating.
Context (StartingNonce : Z).

Definition fresh_acct (balance : Z) : acct := mkAcct StartingNonce balance emptyCodeHash None (fun _ => zeros 32) false.

(** The object [createObject] makes, with a balance. *)
Definition fresh_object (a : bytes) (balance : Z) : StateObject :=
  mkObject a (mkAccount StartingNonce balance (zeros 32) emptyCodeHash) None None None ∅ ∅ false false false false.

Lemma fresh_object_ok w a balance :
  obj_ok w (fresh_object a balance) /\ acct_eq (oview w (fresh_object a balance)) (fresh_acct balance).
Proof.
  destruct (st_new_empty (wdb w) 0) as (t & Et & Ot & Vt).
  assert (Es : storage_trie w (fresh_object a balance) = Some t).
  { unfold storage_trie, open_storage. cbn [fresh_object otrie data Root]. by rewrite Et. }
  split; [split|split]; try done.
  - exists t. split; [done|]. split; [done|]. intros k. by rewrite Vt.
  - apply Keccak256_length.
  - cbn. unfold o_code, code_from. cbn. by rewrite bool_decide_true.
  - intros k. cbn [oview a_storage]. unfold o_storage. rewrite Es, Vt. by destruct (decide (st_key k)).
Qed.

Definition created_state s (a : bytes) (r : option nat) (q : nat) : StateDB :=
  set_objects (set_journal (set_dirty s ({[a]} ∪ stateObjectsDirty s)) (journal s ++ [creation a r]) (validRevisions s))
    (<[a := q]> (stateObjects s)).

Lemma createObject_run a w s r w1 s1 :
  GetStateObject a w s = Ok (r, w1, s1) ->
  createObject StartingNonce a w s =
    Ok ((next w1, r), add_obj w1 (fresh_object a 0), created_state s1 a r (next w1)).
Proof.
  intros E. unfold createObject. unfold bindS at 1. rewrite E. unfold bindS at 1, alloc_obj at 1.
  unfold bindS at 1, setNonce at 1. unfold bindS at 1, get_obj at 1. cbn [objs]. rewrite lookup_insert_eq.
  unfold put_obj, callOnDirty, setStateObject, append_journal, modify, bindS, get_obj, MarkStateObjectDirty, retS. cbn.
  rewrite !lookup_insert_eq. cbn. rewrite lookup_insert_eq. cbn. unfold add_obj. rewrite !insert_insert_eq. by destruct r.
Qed.

(** The account of an address, new when there is none. *)
Definition acct_of (A : astate) (a : bytes) : acct := default (fresh_acct 0) (accts A a).

Lemma GetStateObject_found w s J a :
  wf w s J -> known s a ->
  exists r w' s', GetStateObject a w s = Ok (r, w', s') /\ quiet J w s w' s' /\ found w' s' a r /\
    option_Forall2 acct_eq (view w s a) (match r with Some p => view w' s' a | None => None end).
Proof.
  intros WF Kn. destruct (GetStateObject_ok w s J a WF Kn) as (r & w' & s' & E & Q & P). exists r, w', s'.
  split; [done|]. split; [done|]. pose proof (eq_accts _ _ (q_abs _ _ _ _ _ Q) a) as V. cbn in V.
  destruct r as [p|]; [split; [done|by symmetry]|]. destruct P as (V0 & -> & TA & V1).
  split; [done|]. rewrite V0. constructor.
Qed.

Lemma created w s w1 s1 a r :
  wf w s (journal s) -> GetStateObject a w s = Ok (r, w1, s1) -> quiet (journal s) w s w1 s1 -> found w1 s1 a r ->
  exists s', createObject StartingNonce a w s = Ok ((next w1, r), add_obj w1 (fresh_object a 0), s') /\
    forall balance, step w s (add_obj w1 (fresh_object a balance)) s' (upd (abs w s) a (Some (fresh_acct balance))) /\
      live (add_obj w1 (fresh_object a balance)) s' a (next w1) (fresh_object a balance) /\
      forall b q, b <> a -> stateObjects s !! b = Some q -> stateObjects s' !! b = Some q.
Proof.
  intros WF Eg Q F. exists (created_state s1 a r (next w1)). split; [by apply createObject_run|]. intros balance.
  pose proof Q as [WF1 Ab1 St1 Kp1 Jn1 _]. destruct (fresh_object_ok w1 a balance) as [Of Vf].
  destruct (create_step w1 s1 a r (fresh_object a balance) (created_state s1 a r (next w1))) as [St Lv];
    [by rewrite Jn1|exact F|reflexivity|reflexivity|exact Of|reflexivity|by split|reflexivity|reflexivity|reflexivity|].
  split; [|split; [exact Lv|]].
  - eapply step_trans; [by apply quiet_step|]. eapply step_aeq; [|exact St]. apply upd_proper; [done|done|by constructor].
  - intros b q Hb Eb. cbn. rewrite lookup_insert_ne by done. by apply (q_ptr _ _ _ _ _ Q).
Qed.

Lemma GetOrNewStateObject_ok w s a :
  wf w s (journal s) -> st_key a ->
  exists p w' s' o, GetOrNewStateObject StartingNonce a w s = Ok (p, w', s') /\
    step w s w' s' (upd (abs w s) a (Some (acct_of (abs w s) a))) /\ live w' s' a p o /\
    acct_eq (oview w' o) (acct_of (abs w s) a) /\
    forall b q, (b = a -> view w s a <> None) -> stateObjects s !! b = Some q -> stateObjects s' !! b = Some q.
Proof.
  intros WF Ka. destruct (GetStateObject_found w s (journal s) a WF (fun _ => Ka)) as (r & w1 & s1 & Eg & Q & F & V).
  unfold GetOrNewStateObject. unfold bindS at 1. rewrite Eg. unfold acct_of. cbn [abs accts].
  destruct r as [p|].
  - destruct F as (o & Lv). rewrite (live_view _ _ _ _ _ Lv) in V. inversion V as [x y Exy Ex|]; subst.
    exists p, w1, s1, o. pose proof Lv as (Lp & Lo & Ld).
    split; [|split; [|split; [done|split; [by symmetry|intros b q _; apply Q]]]].
    + unfold bindS, get_obj. by rewrite Lo, Ld.
    + eapply step_aeq; [|by apply quiet_step]. symmetry. by apply upd_same.
  - inversion V as [|HN]. destruct F as [TA V1]. assert (Q0 := Q).
    destruct (GetStateObject_found w1 s1 (journal s) a (q_wf _ _ _ _ _ Q) (fun _ => Ka)) as (r2 & w2 & s2 & Eg2 & Q2 & F2 & V2).
    rewrite V1 in V2. destruct r2 as [p2|].
    { destruct F2 as (o & Lv). rewrite (live_view _ _ _ _ _ Lv) in V2. inversion V2. }
    assert (WF1 : wf w1 s1 (journal s1)) by (rewrite (q_journal _ _ _ _ _ Q); apply Q).
    rewrite <- (q_journal _ _ _ _ _ Q) in Q2.
    destruct (created w1 s1 w2 s2 a None WF1 Eg2 Q2 F2) as (s' & Ec & St). destruct (St 0) as (St0 & Lv & Pt).
    exists (next w2), (add_obj w2 (fresh_object a 0)), s', (fresh_object a 0).
    split; [unfold bindS; by rewrite Ec|]. split; [|split; [done|split; [apply fresh_object_ok|]]].
    2: { intros b q Hb Eb. apply Pt; [|by apply Q]. intros ->. apply Hb; [done|]. by inversion V. }
    eapply step_trans; [by apply quiet_step|]. eapply step_aeq; [|exact St0].
    apply upd_proper; [apply Q|done|reflexivity].
Qed.

Lemma CreateAccount_ok w s a :
  wf w s (journal s) -> st_key a ->
  exists p w' s' o, CreateAccount StartingNonce a w s = Ok (p, w', s') /\
    step w s w' s' (upd (abs w s) a (Some (fresh_acct (match view w s a with Some x => a_balance x | None => 0 end)))) /\
    live w' s' a p o /\ forall b q, b <> a -> stateObjects s !! b = Some q -> stateObjects s' !! b = Some q.
Proof.
  intros WF Ka. destruct (GetStateObject_found w s (journal s) a WF (fun _ => Ka)) as (r & w1 & s1 & Eg & Q & F & V).
  destruct (created w s w1 s1 a r WF Eg Q F) as (s' & Ec & St).
  unfold CreateAccount. unfold bindS at 1. rewrite Ec. destruct r as [p|].
  - destruct F as (o & Lv). rewrite (live_view _ _ _ _ _ Lv) in V. inversion V as [x y Exy Ex|]; subst.
    rewrite (eq_balance _ _ Exy). cbn [oview a_balance]. destruct (St (Balance (data o))) as (StB & LvB & PtB).
    eexists _, _, s', _. split; [|split; [exact StB|split; [exact LvB|exact PtB]]].
    pose proof Lv as (Lp & Lo & Ld). unfold bindS at 1, get_obj at 1. cbn [objs add_obj].
    assert (Hp : p <> next w1).
    { intros ->. destruct (wf_next _ _ _ (q_wf _ _ _ _ _ Q) (next w1) (le_n _)). congruence. }
    rewrite lookup_insert_ne, Lo by done.
    unfold setBalance, bindS, get_obj, put_obj, callOnDirty, retS. cbn. rewrite lookup_insert_eq. cbn.
    unfold bindS, get_obj. cbn. rewrite lookup_insert_eq. cbn. unfold retS, add_obj. by rewrite insert_insert_eq.
  - inversion V. destruct (St 0) as (St0 & Lv0 & Pt0). eexists _, _, s', _. split; [reflexivity|]. split; [exact St0|]. split; [exact Lv0|exact Pt0].
Qed.
End Creating.
End View.
