(* ===== verification/StateRefine.v ===== *)
(** * The state database refines the abstract state

    The interface of [statedb.go] as a list of calls, run on the heap by the
    code and on an abstract state with a stack of saved states by the
    specification.  Every sequence of calls gives the same answers in both, and
    panics in the code exactly when it reverts to a snapshot that is no longer
    valid. *)

From S2P Require Import Prelude RlpEncode RlpRaw RlpStream Helper Database Keccak TrieNode Trie TrieHash StateTrie SecureTrie State StateSpec.

(** ** Calls *)

Inductive call :=
| CGetBalance (a : bytes) | CGetNonce (a : bytes) | CGetCode (a : bytes) | CGetCodeHash (a : bytes)
| CGetState (a k : bytes) | CHasSuicided (a : bytes) | CExist (a : bytes) | CEmpty (a : bytes)
| CGetRefund | CGetLogs (h : bytes)
| CAddBalance (a : bytes) (z : Z) | CSetBalance (a : bytes) (z : Z) | CSetNonce (a : bytes) (n : Z)
| CSetCode (a : bytes) (c : option bytes) | CSetState (a k v : bytes) | CSuicide (a : bytes) | CCreateAccount (a : bytes)
| CAddRefund (z : Z) | CAddLog (l : Log) | CStartRecord (th bh : bytes) (ti : Z)
| CSnapshot | CRevertToSnapshot (id : Z).

Inductive answer :=
| AUnit | AInt (z : Z) | ABytes (b : bytes) | ACode (c : option bytes) | ABool (b : bool) | ALogs (l : list Log).

Section Refine.
Context `{Hash256} `{StateTrieLaws T D} `{Database D} (StartingNonce : Z).
Implicit Types (w : World T D) (s : StateDB) (A : astate).

Abbreviation M A := (SM (T := T) (D := D) A).

Definition answering {X} (f : X -> answer) (m : M X) : M answer := bindS m (fun x => retS (f x)).
Definition unit_answer (m : M unit) : M answer := answering (fun _ => AUnit) m.

(** The code. *)
Definition run_call (c : call) : M answer :=
  match c with
  | CGetBalance a => answering AInt (GetBalance a)
  | CGetNonce a => answering AInt (GetNonce StartingNonce a)
  | CGetCode a => answering ACode (GetCode a)
  | CGetCodeHash a => answering ABytes (GetCodeHash a)
  | CGetState a k => answering ABytes (GetState a k)
  | CHasSuicided a => answering ABool (HasSuicided a)
  | CExist a => answering ABool (Exist a)
  | CEmpty a => answering ABool (Empty a)
  | CGetRefund => answering AInt GetRefund
  | CGetLogs h => answering ALogs (GetLogs h)
  | CAddBalance a z => unit_answer (AddBalance StartingNonce a z)
  | CSetBalance a z => unit_answer (SetBalance StartingNonce a z)
  | CSetNonce a n => unit_answer (SetNonce StartingNonce a n)
  | CSetCode a c => unit_answer (SetCode StartingNonce a c)
  | CSetState a k v => unit_answer (SetState StartingNonce a k v)
  | CSuicide a => answering ABool (Suicide a)
  | CCreateAccount a => answering (fun _ => AUnit) (CreateAccount StartingNonce a)
  | CAddRefund z => unit_answer (AddRefund z)
  | CAddLog l => unit_answer (AddLog l)
  | CStartRecord th bh ti => unit_answer (StartRecord th bh ti)
  | CSnapshot => answering AInt Snapshot
  | CRevertToSnapshot id => unit_answer (RevertToSnapshot id)
  end.

Fixpoint run_calls (cs : list call) : M (list answer) :=
  match cs with
  | [] => retS []
  | c :: cs => bindS (run_call c) (fun x => bindS (run_calls cs) (fun xs => retS (x :: xs)))
  end.

(** ** The specification *)

Record spec := mkSpec {
  cur : astate;
  saved : list (Z * astate);
  nextId : Z;
  r_thash : bytes;
  r_bhash : bytes;
  r_txIndex : Z;
  r_logSize : Z
}.

Definition set_cur (sp : spec) (A : astate) : spec :=
  mkSpec A (saved sp) (nextId sp) (r_thash sp) (r_bhash sp) (r_txIndex sp) (r_logSize sp).

(** A change of one account, created when missing. *)
Definition change (sp : spec) (a : bytes) (f : acct -> acct) : spec :=
  set_cur sp (upd (cur sp) a (Some (f (acct_of StartingNonce (cur sp) a)))).

Definition ask {X} (sp : spec) (a : bytes) (f : acct -> X) (x : X) : X :=
  match accts (cur sp) a with Some y => f y | None => x end.

Definition stamp (sp : spec) (l : Log) : Log :=
  mkLog (logAddress l) (logTopics l) (logData l) (logBlockNumber l) (r_thash sp) (u64 (r_txIndex sp)) (r_bhash sp)
    (r_logSize sp).

(** The position of a snapshot on the stack. *)
Fixpoint position (id : Z) (l : list (Z * astate)) : option (nat * astate) :=
  match l with
  | [] => None
  | (i, A) :: l => if i =? id then Some (0%nat, A) else match position id l with Some (n, A) => Some (S n, A) | None => None end
  end.

Definition spec_call (c : call) (sp : spec) : option (answer * spec) :=
  let A := cur sp in
  match c with
  | CGetBalance a => Some (AInt (ask sp a a_balance 0), sp)
  | CGetNonce a => Some (AInt (ask sp a a_nonce StartingNonce), sp)
  | CGetCode a => Some (ACode (ask sp a a_code None), sp)
  | CGetCodeHash a => Some (ABytes (ask sp a a_codeHash (zeros 32)), sp)
  | CGetState a k => Some (ABytes (ask sp a (fun x => a_storage x k) (zeros 32)), sp)
  | CHasSuicided a => Some (ABool (ask sp a a_suicided false), sp)
  | CExist a => Some (ABool (ask sp a (fun _ => true) false), sp)
  | CEmpty a =>
      Some (ABool (ask sp a (fun x => (a_nonce x =? 0) && (a_balance x =? 0) && bool_decide (a_codeHash x = emptyCodeHash))
                     true), sp)
  | CGetRefund => Some (AInt (a_refund A), sp)
  | CGetLogs h => Some (ALogs (default [] (a_logs A !! h)), sp)
  | CAddBalance a z => Some (AUnit, change sp a (fun x => with_balance x (a_balance x + z)))
  | CSetBalance a z => Some (AUnit, change sp a (fun x => with_balance x z))
  | CSetNonce a n => Some (AUnit, change sp a (fun x => with_nonce x n))
  | CSetCode a c => Some (AUnit, change sp a (fun x => with_code x (Keccak256 (default [] c)) c))
  | CSetState a k v => Some (AUnit, change sp a (fun x => with_slot x k v))
  | CSuicide a =>
      match accts A a with
      | Some _ => Some (ABool true, change sp a (fun x => with_balance (with_suicided x true) 0))
      | None => Some (ABool false, sp)
      end
  | CCreateAccount a => Some (AUnit, set_cur sp (upd A a (Some (fresh_acct StartingNonce (ask sp a a_balance 0)))))
  | CAddRefund z => Some (AUnit, set_cur sp (mkAstate (accts A) (a_refund A + z) (a_logs A)))
  | CAddLog l =>
      Some (AUnit, mkSpec (mkAstate (accts A) (a_refund A)
                             (<[r_thash sp := default [] (a_logs A !! r_thash sp) ++ [stamp sp l]]> (a_logs A)))
                     (saved sp) (nextId sp) (r_thash sp) (r_bhash sp) (r_txIndex sp) (u64 (r_logSize sp + 1)))
  | CStartRecord th bh ti => Some (AUnit, mkSpec A (saved sp) (nextId sp) th bh ti (r_logSize sp))
  | CSnapshot =>
      Some (AInt (nextId sp), mkSpec A (saved sp ++ [(nextId sp, A)]) (nextId sp + 1) (r_thash sp) (r_bhash sp)
                                (r_txIndex sp) (r_logSize sp))
  | CRevertToSnapshot id =>
      match position id (saved sp) with
      | Some (n, A) => Some (AUnit, mkSpec A (take n (saved sp)) (nextId sp) (r_thash sp) (r_bhash sp) (r_txIndex sp)
                                      (r_logSize sp))
      | None => None
      end
  end.

Fixpoint spec_calls (cs : list call) (sp : spec) : option (list answer * spec) :=
  match cs with
  | [] => Some ([], sp)
  | c :: cs =>
      match spec_call c sp with
      | Some (x, sp) => match spec_calls cs sp with Some (xs, sp) => Some (x :: xs, sp) | None => None end
      | None => None
      end
  end.

(** ** The simulation *)

Definition saves w s (r : revision) (x : Z * astate) : Prop :=
  rev_id r = x.1 /\ (journalIndex r <= length (journal s))%nat /\
  oeq (rewind w (drop (journalIndex r) (journal s)) (abs w s)) (Some x.2).

(** A transaction without logs has no entry. *)
Definition full_logs A : Prop := forall h, a_logs A !! h <> Some [].

Record inv w s (sp : spec) : Prop := {
  inv_wf : wf w s (journal s);
  inv_cur : aeq (abs w s) (cur sp);
  inv_saved : Forall2 (saves w s) (validRevisions s) (saved sp);
  inv_sorted i j r1 r2 : (i < j)%nat -> validRevisions s !! i = Some r1 -> validRevisions s !! j = Some r2 ->
    rev_id r1 < rev_id r2 /\ (journalIndex r1 <= journalIndex r2)%nat;
  inv_bound r : r ∈ validRevisions s -> rev_id r < nextRevisionId s;
  inv_nextId : nextRevisionId s = nextId sp;
  inv_thash : thash s = r_thash sp;
  inv_bhash : bhash s = r_bhash sp;
  inv_txIndex : txIndex s = r_txIndex sp;
  inv_logSize : logSize s = r_logSize sp;
  inv_logs : full_logs (cur sp) /\ Forall (fun x => full_logs x.2) (saved sp)
}.

Lemma stable_drop J w w' n : stable J w w' -> stable (drop n J) w w'.
Proof. intros St. rewrite <- (take_drop n J) in St. by apply stable_app in St as [_ St]. Qed.

Lemma saves_step w s w' s' A r x : step w s w' s' A -> saves w s r x -> saves w' s' r x.
Proof.
  intros [_ _ (new & Jn & R) St _] (E1 & E2 & E3). split; [done|]. rewrite Jn, length_app. split; [lia|].
  rewrite drop_app_le by done. rewrite rewind_app. inversion R as [X Y EXY HX|]; subst.
  etrans; [|exact E3]. apply rewind_proper; [by apply stable_drop|done].
Qed.

Lemma inv_step w s w' s' sp A B :
  inv w s sp -> step w s w' s' A -> aeq A B -> full_logs B -> inv w' s' (set_cur sp B).
Proof.
  intros [I1 I2 I3 I4 I5 I6 I7 I8 I9 I10 I11] St EAB Fl. pose proof St as [S1 S2 _ _ [K1 K2 K3 K4 K5 K6 K7]].
  split; cbn; rewrite ?K2, ?K3, ?K4, ?K5, ?K6, ?K7; try done.
  - by etrans.
  - eapply Forall2_impl; [done|]. intros r x. by eapply saves_step.
  - split; [done|apply I11].
Qed.

Lemma set_cur_id (sp : spec) : set_cur sp (cur sp) = sp.
Proof. by destruct sp. Qed.

Lemma inv_quiet w s w' s' sp : inv w s sp -> quiet (journal s) w s w' s' -> inv w' s' sp.
Proof.
  intros I Q. rewrite <- (set_cur_id sp). eapply inv_step; [done|by apply quiet_step|apply I|apply I].
Qed.

Definition respects {X} (f : acct -> X) (R : X -> X -> Prop) : Prop := forall x y, acct_eq x y -> R (f x) (f y).

Lemma ask_eq {X} w s sp a (f : acct -> X) x :
  inv w s sp -> respects f eq -> match view w s a with Some y => f y | None => x end = ask sp a f x.
Proof. intros I Hf. unfold ask. pose proof (eq_accts _ _ (inv_cur _ _ _ I) a) as E. cbn in E. destruct E; [by apply Hf|done]. Qed.

(** A lookup through the object of an address. *)
Lemma query_quiet {X} w s sp a (m : nat -> M X) (f : acct -> X) x :
  inv w s sp -> st_key a -> respects f eq ->
  (forall w s p o, wf w s (journal s) -> live w s a p o ->
     exists w', m p w s = Ok (f (oview w o), w', s) /\ quiet (journal s) w s w' s) ->
  exists w' s', (let! so := GetStateObject a in match so with Some p => m p | None => retS x end) w s =
    Ok (ask sp a f x, w', s') /\ quiet (journal s) w s w' s'.
Proof.
  intros I Ka Hf Hm. destruct (GetStateObject_found w s (journal s) a (inv_wf _ _ _ I) (fun _ => Ka)) as (r & w1 & s1 & Eg & Q & F & V).
  rewrite <- (ask_eq w s sp a f x I Hf). unfold bindS. rewrite Eg. pose proof (inv_quiet _ _ _ _ _ I Q) as I1.
  destruct r as [p|]; [|inversion V; by exists w1, s1].
  destruct F as (o & Lv). rewrite (live_view _ _ _ _ _ Lv) in V. inversion V as [y z Eyz Ey|]; subst.
  destruct (Hm w1 s1 p o (inv_wf _ _ _ I1) Lv) as (w2 & E2 & Q2). exists w2, s1. rewrite E2, (Hf _ _ Eyz).
  split; [done|]. eapply quiet_trans; [exact Q|]. by rewrite <- (q_journal _ _ _ _ _ Q).
Qed.

Lemma query_ok {X} w s sp a (m : nat -> M X) (f : acct -> X) x :
  inv w s sp -> st_key a -> respects f eq ->
  (forall w s p o, wf w s (journal s) -> live w s a p o ->
     exists w', m p w s = Ok (f (oview w o), w', s) /\ quiet (journal s) w s w' s) ->
  exists w' s', (let! so := GetStateObject a in match so with Some p => m p | None => retS x end) w s =
    Ok (ask sp a f x, w', s') /\ inv w' s' sp.
Proof.
  intros I Ka Hf Hm. destruct (query_quiet w s sp a m f x I Ka Hf Hm) as (w' & s' & E & Q). exists w', s'.
  split; [exact E|]. by eapply inv_quiet.
Qed.

(** ... that only reads the object. *)
Lemma read_ok {X} w s sp a (g : StateObject -> X) (f : acct -> X) x :
  inv w s sp -> st_key a -> respects f eq -> (forall w s p o, wf w s (journal s) -> live w s a p o -> g o = f (oview w o)) ->
  exists w' s', (let! so := GetStateObject a in match so with Some p => bindS (get_obj p) (fun o => retS (g o)) | None => retS x end)
      w s = Ok (ask sp a f x, w', s') /\ inv w' s' sp.
Proof.
  intros I Ka Hf Hg. apply query_ok; [done..|]. intros w0 s0 p o WF Lv. exists w0.
  unfold bindS, get_obj. pose proof Lv as (_ & -> & _). split; [by rewrite (Hg w0 s0 p o)|by apply quiet_refl].
Qed.

Lemma acct_of_eq w s sp a : inv w s sp -> acct_eq (acct_of StartingNonce (abs w s) a) (acct_of StartingNonce (cur sp) a).
Proof. intros I. unfold acct_of. by destruct (eq_accts _ _ (inv_cur _ _ _ I) a). Qed.

(** A change of the account of an address. *)
Lemma change_ok w s sp a (m : nat -> M unit) (g : acct -> acct) :
  inv w s sp -> st_key a -> respects g acct_eq ->
  (forall w s p o, wf w s (journal s) -> live w s a p o ->
     exists w' s', m p w s = Ok (tt, w', s') /\ step w s w' s' (upd (abs w s) a (Some (g (oview w o))))) ->
  exists w' s', (let! p := GetOrNewStateObject StartingNonce a in m p) w s = Ok (tt, w', s') /\ inv w' s' (change sp a g).
Proof.
  intros I Ka Hg Hm. destruct (GetOrNewStateObject_ok StartingNonce w s a (inv_wf _ _ _ I) Ka) as (p & w1 & s1 & o & Eg & St & Lv & V & _).
  destruct (Hm w1 s1 p o (step_wf _ _ _ _ _ St) Lv) as (w2 & s2 & E2 & St2). exists w2, s2. unfold bindS. rewrite Eg, E2.
  split; [done|]. eapply inv_step; [done|by eapply step_trans| |apply I].
  transitivity (upd (upd (abs w s) a (Some (acct_of StartingNonce (abs w s) a))) a (Some (g (oview w1 o)))).
  { apply upd_proper; [apply St|done|done]. }
  etrans; [apply upd_upd|]. apply upd_proper; [apply I|done|]. constructor. apply Hg. etrans; [done|].
  by apply (acct_of_eq w s).
Qed.

Lemma obj_AddBalance_ok w s a p o amount :
  wf w s (journal s) -> live w s a p o ->
  exists w' s', obj_AddBalance p amount w s = Ok (tt, w', s') /\
    step w s w' s' (upd (abs w s) a (Some (with_balance (oview w o) (Balance (data o) + amount)))).
Proof.
  intros WF Lv. unfold obj_AddBalance, bindS at 1, get_obj at 1. pose proof Lv as (_ & Lo & _). rewrite Lo.
  destruct (_ && _) eqn:Z0.
  - apply andb_true_iff in Z0 as [->%Z.eqb_eq _]. exists w, s. split; [done|].
    eapply step_aeq; [|by apply quiet_step, quiet_refl]. symmetry. rewrite Z.add_0_r. apply upd_same. cbn.
    rewrite (live_view _ _ _ _ _ Lv). done.
  - destruct (obj_SetBalance_ok w s a p o (Balance (data o) + amount) WF Lv) as (w' & s' & o' & E & St & _). eauto.
Qed.

Lemma Suicide_ok w s sp a :
  inv w s sp -> st_key a ->
  exists x w' s' sp', Suicide a w s = Ok (x, w', s') /\ spec_call (CSuicide a) sp = Some (ABool x, sp') /\ inv w' s' sp'.
Proof.
  intros I Ka. destruct (GetStateObject_found w s (journal s) a (inv_wf _ _ _ I) (fun _ => Ka)) as (r & w1 & s1 & Eg & Q & F & V).
  pose proof (inv_quiet _ _ _ _ _ I Q) as I1. unfold Suicide, bindS at 1. rewrite Eg. cbn [spec_call].
  pose proof (eq_accts _ _ (inv_cur _ _ _ I) a) as Vc. cbn in Vc. destruct r as [p|].
  2: { inversion V as [|E1 E2]. rewrite <- E1 in Vc. inversion Vc as [|E3 E4]. by eexists false, w1, s1, sp. }
  destruct F as (o & Lv). rewrite (live_view _ _ _ _ _ Lv) in V. destruct (view w s a) as [y|]; inversion V as [? ? Eyz|]; subst.
  destruct (accts (cur sp) a) as [z|] eqn:Ez; inversion Vc as [? ? Eyz'|]; subst.
  destruct (live_ok w1 s1 _ a p o (inv_wf _ _ _ I1) Lv) as [Oo Ea]. pose proof Lv as (Lp & Lo & Ld).
  set (g := fun o => set_balance (set_suicided o true) 0).
  destruct (journalled w1 s1 a p o (suicideChange a (suicided o) (Balance (data o))) g
    (fun x => with_balance (with_suicided x (suicided o)) (Balance (data o)))) as (w2 & s2 & E & St & Lv2 & Ew & Es);
    try done; [apply I1|by apply (obj_ok_fields w1 o)|].
  eexists true, w2, s2, _. split; [|split; [done|]].
  - unfold bindS at 1, get_obj at 1. rewrite Lo. subst w2 s2.
    unfold bindS at 1, append_journal, modify. unfold bindS at 1, markSuicided. unfold bindS at 1, get_obj at 1. rewrite Lo.
    rewrite put_callOnDirty. unfold bindS, get_obj, put_obj, retS. cbn. rewrite lookup_insert_eq. unfold put. cbn.
    rewrite insert_insert_eq. unfold fired, fire, g. cbn. by destruct (onDirty o).
  - eapply inv_step; [exact I1|exact St| |apply I1]. apply upd_proper; [apply I1|done|]. constructor.
    unfold acct_of. rewrite Ez. cbn. assert (E' : acct_eq (oview w1 o) z) by (etrans; [by symmetry|done]).
    destruct E'. by split.
Qed.

(** Entries for the refund counter and the logs. *)
Lemma state_step w s s' e A :
  wf w s (journal s) -> stateObjects s' = stateObjects s -> kept s s' -> journal s' = journal s ++ [e] ->
  entry_ok w s (journal s) e -> prevs [e] = [] -> aeq (abs w s') A -> oeq (aundo w e A) (Some (abs w s)) -> step w s w s' A.
Proof.
  intros WF E1 Kp Jn He Pe Ab Eu. assert (E2 : s_trie s' = s_trie s) by apply Kp.
  split; [|done| |apply (quiet_refl _ w s WF)|done].
  - rewrite Jn. apply (wf_state w s); [done|done|]. by apply wf_snoc.
  - exists [e]. split; [done|]. cbn. etrans; [|exact Eu]. apply aundo_proper; [|done].
    split; [apply wle_refl|]. rewrite Pe. intros q Hq. by apply not_elem_of_nil in Hq.
Qed.

Lemma abs_state w s s' :
  stateObjects s' = stateObjects s -> s_trie s' = s_trie s -> aeq (abs w s') (mkAstate (view w s) (refund s') (logs s')).
Proof. intros E1 E2. split; [|done|done]. intros b. cbn. rewrite (view_state w s s') by done. reflexivity. Qed.

Lemma AddRefund_ok w s sp z :
  inv w s sp ->
  exists s', AddRefund z w s = Ok (tt, w, s') /\
    inv w s' (set_cur sp (mkAstate (accts (cur sp)) (a_refund (cur sp) + z) (a_logs (cur sp)))).
Proof.
  intros I. eexists. split; [done|]. pose proof (inv_cur _ _ _ I) as [E1 E2 E3]. cbn in E2, E3.
  set (s' := set_refund _ _).
  assert (St : step w s w s' (mkAstate (view w s) (refund s') (logs s'))).
  { apply (state_step w s _ (refundChange (refund s))); [apply I|done|by split|done..|by apply abs_state|]. cbn. constructor. by split. }
  eapply inv_step; [exact I|exact St| |apply I]. split; cbn; [apply I|congruence|done].
Qed.

Lemma log_undo w s (A : astate) h l :
  a_logs A = <[h := default [] (logs s !! h) ++ [l]]> (logs s) -> (logs s !! h <> Some []) ->
  a_refund A = refund s -> (forall b, option_Forall2 acct_eq (accts A b) (view w s b)) ->
  oeq (aundo w (addLogChange h) A) (Some (abs w s)).
Proof.
  intros El Hn Er Ea. cbn. rewrite El, lookup_insert_eq. cbn [default].
  destruct (logs s !! h) as [ls|] eqn:Eh; cbn.
  - destruct ls as [|x ls]; [done|]. cbn.
    assert (En : (ls ++ [l])%list <> []) by (by destruct ls). destruct (ls ++ [l])%list as [|y ys] eqn:Eys; [done|].
    constructor. split; [done|done|]. cbn. rewrite insert_insert_eq. apply insert_id. rewrite Eh. f_equal.
    change (x :: ls = take (S (S (length ys)) - 1) (x :: y :: ys)). rewrite <- Eys.
    replace (S (S (length ys)) - 1)%nat with (length (x :: ls)).
    + change (x :: (ls ++ [l]))%list with ((x :: ls) ++ [l])%list. by rewrite take_app_length.
    + apply (f_equal length) in Eys. rewrite length_app in Eys. cbn in *. lia.
  - constructor. split; [done|done|]. cbn. by rewrite delete_insert_eq, delete_id.
Qed.

(** The fields no snapshot restores. *)
Lemma inv_record w s s' sp :
  inv w s sp -> stateObjects s' = stateObjects s -> s_trie s' = s_trie s -> refund s' = refund s -> logs s' = logs s ->
  journal s' = journal s -> validRevisions s' = validRevisions s -> nextRevisionId s' = nextRevisionId s ->
  inv w s' (mkSpec (cur sp) (saved sp) (nextId sp) (thash s') (bhash s') (txIndex s') (logSize s')).
Proof.
  intros [I1 I2 I3 I4 I5 I6 I7 I8 I9 I10 I11] E1 E2 E3 E4 E5 E6 E7.
  assert (Ab : aeq (abs w s') (abs w s)).
  { etrans; [by apply (abs_state w s)|]. rewrite E3, E4. reflexivity. }
  split; cbn; rewrite ?E5, ?E6, ?E7; try done.
  - by apply (wf_state w s).
  - by etrans.
  - eapply Forall2_impl; [done|]. intros r x (S1 & S2 & S3). split; [done|]. rewrite E5. split; [done|].
    etrans; [|exact S3]. apply rewind_proper; [|done]. apply stable_drop, (quiet_refl _ w s I1).
Qed.

Lemma AddLog_ok w s sp l :
  inv w s sp -> exists s' sp', AddLog l w s = Ok (tt, w, s') /\ spec_call (CAddLog l) sp = Some (AUnit, sp') /\ inv w s' sp'.
Proof.
  intros I. pose proof (inv_cur _ _ _ I) as [E1 E2 E3]. cbn in E2, E3.
  set (ls := <[thash s := default [] (logs s !! thash s) ++ [stamp sp l]]> (logs s)).
  set (s1 := set_logs (set_journal s (journal s ++ [addLogChange (thash s)]) (validRevisions s)) ls (logSize s)).
  assert (St : step w s w s1 (mkAstate (view w s) (refund s) ls)).
  { apply (state_step w s _ (addLogChange (thash s))); [apply I|done|by split|done..|by apply (abs_state w s)|].
    eapply (log_undo w s _ (thash s) (stamp sp l)); [done| |done|intros b; reflexivity].
    rewrite E3. apply I. }
  assert (I1 : inv w s1 (set_cur sp (mkAstate (accts (cur sp)) (a_refund (cur sp))
    (<[r_thash sp := default [] (a_logs (cur sp) !! r_thash sp) ++ [stamp sp l]]> (a_logs (cur sp)))))).
  { eapply inv_step; [exact I|exact St|split; cbn; [apply I|done|]|].
    - unfold ls. by rewrite (inv_thash _ _ _ I), E3.
    - intros h. cbn. rewrite lookup_insert. case_decide; [|apply I]. intros [= Eh]. by apply app_nil in Eh as [_ ?]. }
  set (s' := set_logs s1 ls (u64 (logSize s + 1))). exists s'. eexists. split; [|split; [done|]].
  - unfold s', s1, ls, stamp. rewrite <- (inv_thash _ _ _ I), <- (inv_bhash _ _ _ I), <- (inv_txIndex _ _ _ I),
      <- (inv_logSize _ _ _ I). done.
  - pose proof (inv_record w s1 s' _ I1) as I2. cbn in I2.
    rewrite <- (inv_thash _ _ _ I), <- (inv_bhash _ _ _ I), <- (inv_txIndex _ _ _ I), <- (inv_logSize _ _ _ I).
    by rewrite (inv_thash _ _ _ I) at 1 2; apply I2.
Qed.

(** ** Snapshots *)

Lemma search_loop_spec fuel f i j n :
  (j - i <= fuel)%nat -> (i <= j <= n)%nat -> (forall a b, (a <= b < n)%nat -> f a = true -> f b = true) ->
  (forall k, (k < i)%nat -> f k = false) -> (forall k, (j <= k < n)%nat -> f k = true) ->
  forall k, (k < n)%nat -> f k = negb (k <? search_loop fuel f i j)%nat.
Proof.
  revert i j. induction fuel as [|fuel IH]; intros i j Hf Hij Mono Lo Hi k Hk; cbn [search_loop].
  { destruct (Nat.ltb_spec k i); cbn [negb]; [by apply Lo|apply Hi; lia]. }
  destruct (Nat.ltb_spec i j) as [Lt|]; [|destruct (Nat.ltb_spec k i); cbn [negb]; [by apply Lo|apply Hi; lia]].
  assert (i <= (i + j) / 2 < j)%nat by (split; [apply Nat.div_le_lower_bound|apply Nat.Div0.div_lt_upper_bound]; lia).
  destruct (f ((i + j) / 2)%nat) eqn:Eh.
  - apply IH; [lia|lia|done|done| |done]. intros x Hx. eapply Mono; [|exact Eh]. lia.
  - apply IH; [lia|lia|done| |done|done]. intros x Hx.
    destruct (f x) eqn:Ex; [|done]. rewrite <- Eh. symmetry. eapply Mono; [|exact Ex]. lia.
Qed.

Lemma Search_spec f n :
  (forall a b, (a <= b < n)%nat -> f a = true -> f b = true) ->
  forall k, (k < n)%nat -> f k = negb (k <? Search n f)%nat.
Proof. intros Mono. apply search_loop_spec; try lia; done. Qed.

Lemma position_spec id l :
  match position id l with
  | Some (n, A) => l !! n = Some (id, A)
  | None => forall n A, l !! n <> Some (id, A)
  end.
Proof.
  induction l as [|[i A] l IH]; cbn; [done|]. destruct (Z.eqb_spec i id) as [->|Hne]; [done|].
  destruct (position id l) as [[n B]|]; [done|]. intros [|n] B; cbn; [congruence|apply IH].
Qed.

(** The revision [RevertToSnapshot] finds. *)
Definition find_revision s (id : Z) : nat :=
  Search (length (validRevisions s)) (fun i => match validRevisions s !! i with Some r => id <=? rev_id r | None => true end).

Lemma find_revision_spec w s sp id n r :
  inv w s sp -> validRevisions s !! n = Some r -> rev_id r = id -> find_revision s id = n.
Proof.
  intros I Er Ei. unfold find_revision. set (f := fun i => _). pose proof (lookup_lt_Some _ _ _ Er) as Hn.
  assert (Hs : forall k, (k < length (validRevisions s))%nat -> f k = negb (k <? Search (length (validRevisions s)) f)%nat).
  { apply Search_spec. intros a b [Hab Hb]. unfold f.
    destruct (lookup_lt_is_Some_2 (validRevisions s) a) as [ra Ea]; [lia|].
    destruct (lookup_lt_is_Some_2 (validRevisions s) b) as [rb Eb]; [lia|]. rewrite Ea, Eb.
    destruct (decide (a = b)) as [->|]; [congruence|].
    destruct (inv_sorted _ _ _ I a b ra rb) as [Lt _]; [lia|done|done|]. intros ?%Z.leb_le. apply Z.leb_le. lia. }
  set (m := Search _ f) in *. destruct (lt_eq_lt_dec m n) as [[Lt|]|Gt]; [|done|].
  - pose proof (Hs m ltac:(lia)) as E. rewrite Nat.ltb_irrefl in E. cbn [negb] in E. unfold f in E.
    destruct (lookup_lt_is_Some_2 (validRevisions s) m) as [rm Em]; [lia|]. rewrite Em in E. apply Z.leb_le in E.
    destruct (inv_sorted _ _ _ I m n rm r) as [? _]; [done..|]. lia.
  - pose proof (Hs n Hn) as E. rewrite (proj2 (Nat.ltb_lt n m)) in E by done. cbn [negb] in E. unfold f in E. rewrite Er in E.
    apply Z.leb_gt in E. lia.
Qed.

Lemma Snapshot_ok w s sp :
  inv w s sp ->
  exists s' sp', Snapshot w s = Ok (nextId sp, w, s') /\ spec_call CSnapshot sp = Some (AInt (nextId sp), sp') /\ inv w s' sp'.
Proof.
  intros [I1 I2 I3 I4 I5 I6 I7 I8 I9 I10 [I11 I12]]. eexists _, _. split; [by unfold Snapshot, bindS, getS, modify, retS; rewrite I6|].
  split; [done|]. split; cbn; try done.
  - by apply (wf_state w s).
  - apply Forall2_app; [exact I3|]. constructor; [|constructor]. split; [done|]. cbn. split; [lia|].
    rewrite drop_all. cbn. by constructor.
  - intros i j r1 r2 Hij. rewrite !lookup_app. intros E1 E2.
    destruct (validRevisions s !! i) as [x|] eqn:Ex.
    + injection E1 as <-. destruct (validRevisions s !! j) as [y|] eqn:Ey; [injection E2 as <-; by eapply I4|].
      destruct (Forall2_lookup_l _ _ _ _ _ I3 Ex) as (z & _ & (_ & Hz & _)).
      apply list_lookup_singleton_Some in E2 as [_ <-]. cbn. split; [|done].
      rewrite <- I6. apply I5. by apply list_elem_of_lookup_2 in Ex.
    + apply lookup_ge_None in Ex. destruct (validRevisions s !! j) eqn:Ey; [apply lookup_lt_Some in Ey; lia|].
      apply list_lookup_singleton_Some in E1 as [? _], E2 as [? _]. lia.
  - intros r. rewrite elem_of_app. intros [Hr|Hr%list_elem_of_singleton]; [apply I5 in Hr|subst; cbn]; lia.
  - split; [done|]. apply Forall_app. split; [done|]. by constructor.
Qed.

Lemma drop_take_split {X : Type} (J : list X) n m : (n <= m)%nat -> drop n J = drop n (take m J) ++ drop m J.
Proof.
  intros L. rewrite <- (take_drop m J) at 1. destruct (decide (m <= length J)%nat).
  - rewrite drop_app_le; [done|]. rewrite length_take. lia.
  - rewrite (drop_ge J m) by lia. by rewrite !app_nil_r.
Qed.

(** A snapshot below the one reverted to stays valid. *)
Lemma saves_revert w s w' s' m A r x rs :
  undone (take m (journal s)) w s w' s' A -> oeq (rewind w (drop m (journal s)) (abs w s)) (Some A) ->
  (journalIndex r <= m <= length (journal s))%nat -> saves w s r x ->
  saves w' (set_journal s' (take m (journal s')) rs) r x.
Proof.
  intros (WF & Ab & St & Kp & Jn) Em Hm (E1 & E2 & E3). split; [done|]. cbn. rewrite Jn, length_take. split; [lia|].
  rewrite (drop_take_split _ _ m), rewind_app in E3 by lia. inversion Em as [X Y EXY HX|]; subst. rewrite <- HX in E3.
  etrans; [|exact E3]. apply rewind_proper; [by apply stable_drop|].
  etrans; [exact Ab|by symmetry].
Qed.

Lemma Revert_run w s id :
  RevertToSnapshot id w s =
    match validRevisions s !! find_revision s id with
    | Some r =>
        if rev_id r =? id then
          match forS (rev (drop (journalIndex r) (journal s))) undo w s with
          | Ok (_, w', s') => Ok (tt, w', set_journal s' (take (journalIndex r) (journal s')) (take (find_revision s id) (validRevisions s)))
          | Err e => Err e
          | Panic => Panic
          end
        else Panic
    | None => Panic
    end.
Proof.
  unfold RevertToSnapshot, find_revision, bindS, getS, modify, panicS. destruct (validRevisions s !! _) as [r|]; [|done].
  destruct (rev_id r =? id); [|done]. destruct (forS _ _ _ _) as [[[[] ?] ?]| |]; done.
Qed.

Lemma Revert_ok w s sp id :
  inv w s sp ->
  match spec_call (CRevertToSnapshot id) sp with
  | Some (x, sp') => x = AUnit /\ exists w' s', RevertToSnapshot id w s = Ok (tt, w', s') /\ inv w' s' sp'
  | None => RevertToSnapshot id w s = Panic
  end.
Proof.
  intros I. cbn [spec_call]. rewrite Revert_run. pose proof (position_spec id (saved sp)) as P.
  destruct (position id (saved sp)) as [[n A]|].
  - split; [done|]. pose proof I as [I1 I2 I3 I4 I5 I6 I7 I8 I9 I10 [I11 I12]].
    destruct (Forall2_lookup_r _ _ _ _ _ I3 P) as (r & Er & (S1 & S2 & S3)). cbn in S1, S3.
    rewrite (find_revision_spec w s sp id n r I Er S1), Er, S1, Z.eqb_refl.
    destruct (undo_all w s (take (journalIndex r) (journal s)) (drop (journalIndex r) (journal s)) A) as (w' & s' & E & U);
      [by rewrite take_drop|done|]. rewrite E. eexists w', _. split; [done|].
    pose proof U as (WF' & Ab & St & [K1 K2 K3 K4 K5 K6 K7] & Jn).
    assert (Tk : forall i y, take n (validRevisions s) !! i = Some y -> (i < n)%nat /\ validRevisions s !! i = Some y)
      by (intros i y [? ?]%lookup_take_Some; done).
    split; cbn; rewrite ?K2, ?K3, ?K4, ?K5, ?K7, ?Jn; try done.
    + by apply (wf_state w' s').
    + apply Forall2_same_length_lookup_2; [rewrite !length_take; by rewrite (Forall2_length _ _ _ I3)|].
      intros i y z [Hi Ey]%Tk [Hi' Ez]%lookup_take_Some. destruct (I4 i n y r Hi Ey Er) as [_ Lj].
      pose proof (saves_revert w s w' s' (journalIndex r) A y z (take n (validRevisions s)) U S3) as X.
      rewrite Jn in X. apply X; [lia|]. by eapply Forall2_lookup_lr.
    + intros i j r1 r2 Hij [_ E1]%Tk [_ E2]%Tk. by eapply I4.
    + intros y Hy. apply I5. apply list_elem_of_lookup_1 in Hy as [i [_ Ei]%Tk]. by eapply list_elem_of_lookup_2.
    + split; [|by apply Forall_take]. eapply (Forall_lookup_1 _ _ _ _ I12 P).
  - destruct (validRevisions s !! find_revision s id) as [r|] eqn:Er; [|done].
    destruct (Z.eqb_spec (rev_id r) id) as [Ei|]; [|done]. exfalso.
    destruct (Forall2_lookup_l _ _ _ _ _ (inv_saved _ _ _ I) Er) as ([i A] & Ez & (S1 & _)). cbn in S1. subst.
    by eapply P.
Qed.

(** ** Every call *)

Lemma answering_ok {X} (f : X -> answer) (m : M X) w s sp x :
  (exists w' s', m w s = Ok (x, w', s') /\ inv w' s' sp) -> exists w' s', answering f m w s = Ok (f x, w', s') /\ inv w' s' sp.
Proof. intros (w' & s' & E & I). exists w', s'. unfold answering, bindS. by rewrite E. Qed.

Lemma unit_ok (m : M unit) w s sp :
  (exists w' s', m w s = Ok (tt, w', s') /\ inv w' s' sp) -> exists w' s', unit_answer m w s = Ok (AUnit, w', s') /\ inv w' s' sp.
Proof. apply (answering_ok (fun _ => AUnit)). Qed.

Lemma Exist_ok w s sp a :
  inv w s sp -> st_key a -> exists w' s', Exist a w s = Ok (ask sp a (fun _ => true) false, w', s') /\ inv w' s' sp.
Proof.
  intros I Ka. destruct (query_ok w s sp a (fun _ => retS true) (fun _ => true) false) as (w' & s' & E & I'); [done..| |].
  - intros w0 s0 p o WF _. exists w0. split; [done|by apply quiet_refl].
  - exists w', s'. split; [|done]. rewrite <- E. unfold Exist, bindS. by destruct (GetStateObject a w s) as [[[[p|] ?] ?]| |].
Qed.

Lemma codeHash_ok w s a p o : wf w s (journal s) -> live w s a p o -> BytesToHash (CodeHash (data o)) = CodeHash (data o).
Proof. intros WF Lv. apply BytesToHash_id, (live_ok w s _ a p o WF Lv). Qed.

Lemma SetCode_from (d : D) c : code_from d c (Keccak256 (default [] c)) = c.
Proof. unfold code_from. destruct c; [done|]. cbn. by rewrite bool_decide_true. Qed.

(** The call is about an address and a slot in use. *)
Definition in_use (c : call) : Prop :=
  match c with
  | CGetBalance a | CGetNonce a | CGetCode a | CGetCodeHash a | CHasSuicided a | CExist a | CEmpty a
  | CAddBalance a _ | CSetBalance a _ | CSetNonce a _ | CSetCode a _ | CSuicide a | CCreateAccount a => st_key a
  | CGetState a k | CSetState a k _ => st_key a /\ st_key k
  | _ => True
  end.

#[export] Instance in_use_dec c : Decision (in_use c).
Proof. destruct c; apply _. Defined.

Lemma call_ok w s sp c :
  inv w s sp -> in_use c ->
  match spec_call c sp with
  | Some (x, sp') => exists w' s', run_call c w s = Ok (x, w', s') /\ inv w' s' sp'
  | None => run_call c w s = Panic
  end.
Proof.
  intros I Ka. destruct c as [a|a|a|a|a k|a|a|a| |h|a z|a z|a n|a c|a k v|a|a|z|l|th bh ti| |id];
    cbn [spec_call run_call in_use] in *; first [apply unit_ok|apply answering_ok|idtac].
  - apply read_ok; [done|done|by intros x y []|done].
  - apply read_ok; [done|done|by intros x y []|done].
  - apply query_ok; [done|done|by intros x y []|]. intros w0 s0 p o WF Lv.
    destruct (obj_Code_ok w0 s0 _ a p o WF Lv) as (w' & o' & E & Q & _). eauto.
  - apply read_ok; [done|done|by intros x y []|]. intros w0 s0 p o WF Lv. by eapply codeHash_ok.
  - apply query_ok; [done|apply Ka|by intros x y []|]. intros w0 s0 p o WF Lv.
    destruct (obj_GetState_ok w0 s0 _ a p o k WF Lv (proj2 Ka)) as (w' & o' & E & Q & _). eauto.
  - apply read_ok; [done|done|by intros x y []|done].
  - by apply Exist_ok.
  - apply read_ok; [done|done| |done]. intros x y [E1 E2 E3 _ _ _]. by rewrite E1, E2, E3.
  - exists w, s. split; [|done]. by rewrite <- (eq_refund _ _ (inv_cur _ _ _ I)).
  - exists w, s. split; [|done]. by rewrite <- (eq_logs _ _ (inv_cur _ _ _ I)).
  - apply change_ok; [done|done|by intros x y []; split; cbn; congruence|]. intros w0 s0 p o. apply obj_AddBalance_ok.
  - apply change_ok; [done|done|by intros x y []; split|]. intros w0 s0 p o WF Lv.
    destruct (obj_SetBalance_ok w0 s0 a p o z WF Lv) as (w' & s' & o' & E & St & _). eauto.
  - apply change_ok; [done|done|by intros x y []; split|]. intros w0 s0 p o WF Lv.
    destruct (obj_SetNonce_ok w0 s0 a p o n WF Lv) as (w' & s' & o' & E & St & _). eauto.
  - apply change_ok; [done|done|by intros x y []; split|]. intros w0 s0 p o WF Lv.
    destruct (obj_SetCode_ok w0 s0 a p o (Keccak256 (default [] c)) c WF Lv (Keccak256_length _)) as (w' & s' & o' & E & St & _).
    rewrite SetCode_from in St. eauto.
  - apply change_ok; [done|apply Ka| |].
    { intros x y [? ? ? ? Es ?]. split; try done. intros k'. cbn. by case_decide. }
    intros w0 s0 p o WF Lv. destruct (obj_SetState_ok w0 s0 a p o k v WF Lv (proj2 Ka)) as (w' & s' & o' & E & St & _). eauto.
  - destruct (Suicide_ok w s sp a I Ka) as (x & w' & s' & sp' & E & Es & I'). cbn [spec_call] in Es. rewrite Es.
    apply answering_ok. eauto.
  - destruct (CreateAccount_ok StartingNonce w s a (inv_wf _ _ _ I) Ka) as (p & w' & s' & o & E & St & _).
    exists w', s'. split; [unfold answering, bindS; by rewrite E|].
    eapply inv_step; [done|exact St| |apply I]. apply upd_proper; [apply I|done|].
    rewrite (ask_eq w s sp a a_balance 0 I) by (by intros x y []). reflexivity.
  - destruct (AddRefund_ok w s sp z I) as (s' & E & I'). eauto.
  - destruct (AddLog_ok w s sp l I) as (s' & sp' & E & Es & I'). cbn [spec_call] in Es. injection Es as <-. eauto.
  - eexists w, _. split; [done|]. rewrite <- (inv_logSize _ _ _ I).
    by apply (inv_record w s (mkStateDB (s_trie s) (pastTries s) (stateObjects s) (stateObjectsDirty s) (refund s) th bh ti
      (logs s) (logSize s) (journal s) (validRevisions s) (nextRevisionId s))).
  - destruct (Snapshot_ok w s sp I) as (s' & sp' & E & Es & I'). cbn [spec_call] in Es. injection Es as <-. eauto.
  - pose proof (Revert_ok w s sp id I) as R. cbn [spec_call] in R.
    destruct (position id (saved sp)) as [[n A]|]; [apply unit_ok; tauto|].
    unfold unit_answer, answering, bindS. by rewrite R.
Qed.

Lemma calls_ok w s sp cs :
  inv w s sp -> Forall in_use cs ->
  match spec_calls cs sp with
  | Some (xs, sp') => exists w' s', run_calls cs w s = Ok (xs, w', s') /\ inv w' s' sp'
  | None => run_calls cs w s = Panic
  end.
Proof.
  revert w s sp. induction cs as [|c cs IH]; intros w s sp I U; cbn [run_calls spec_calls]; [by exists w, s|].
  apply Forall_cons in U as [Uc U]. pose proof (call_ok w s sp c I Uc) as C. destruct (spec_call c sp) as [[x sp1]|]; [|unfold bindS; by rewrite C].
  destruct C as (w1 & s1 & E & I1). pose proof (IH w1 s1 sp1 I1 U) as R.
  destruct (spec_calls cs sp1) as [[xs sp2]|]; [|unfold bindS; by rewrite E, R].
  destruct R as (w2 & s2 & E2 & I2). exists w2, s2. unfold bindS. by rewrite E, E2.
Qed.

(** ** From a root *)

Definition start w s : spec := mkSpec (abs w s) [] 0 (zeros 32) (zeros 32) 0 0.

Lemma accounts_ok_add w s s' t n :
  stateObjects s = ∅ -> accounts_ok w s t -> accounts_ok (mkWorld (wdb w) (objs w) (<[next w := t]> (tries w)) n) s' t.
Proof.
  intros Em [O1 O2 O3]. split; [done|done|]. intros addr a Ka _ E.
  destruct (O3 addr a Ka) as [(st & Es & Ss) L]; [by rewrite Em|done|].
  split; [|done]. by exists st.
Qed.

Lemma State_New_ok MaxTrieCacheGen w w1 s1 root t :
  wfresh w -> st_new (wdb w) root MaxTrieCacheGen = Ok t -> accounts_ok w (new_state 0) t ->
  State_New MaxTrieCacheGen w root = Ok (w1, s1) -> inv w1 s1 (start w1 s1).
Proof.
  intros Fr En Ok' E. unfold State_New in E. rewrite En in E. injection E as <- <-.
  split; cbn; try done; try (by constructor).
  - split; try done; cbn; try by (intros; constructor).
    + exists t. split; [by rewrite lookup_insert_eq|by apply (accounts_ok_add w (new_state 0))].
    + intros p Hp. by apply not_elem_of_nil in Hp.
    + intros a Ha. by apply not_elem_of_nil in Ha.
    + intros p Hp. destruct (Fr p ltac:(lia)). split; [done|]. by rewrite lookup_insert_ne by lia.
  - intros r Hr. by apply not_elem_of_nil in Hr.
Qed.

(** C4: a state database opened at a root whose tries can be loaded implements
    the abstract state of accounts: every sequence of queries, changes,
    snapshots and reverts gives the answers of the specification, which saves
    whole states where the code keeps a journal; the code panics exactly when a
    snapshot that is not valid any more is reverted to. *)
Theorem statedb_refines MaxTrieCacheGen w w1 s1 root t cs :
  wfresh w -> st_new (wdb w) root MaxTrieCacheGen = Ok t -> accounts_ok w (new_state 0) t ->
  State_New MaxTrieCacheGen w root = Ok (w1, s1) -> Forall in_use cs ->
  match spec_calls cs (start w1 s1) with
  | Some (xs, sp') => exists w' s', run_calls cs w1 s1 = Ok (xs, w', s') /\ inv w' s' sp'
  | None => run_calls cs w1 s1 = Panic
  end.
Proof. intros Fr En Ok' E U. apply calls_ok; [|done]. by eapply State_New_ok. Qed.
End Refine.

(** ** Witnesses and examples *)

#[local] Existing Instance keccak_hash.

Definition world0 : World SecureTrie MemDatabase := mkWorld NewMemDatabase ∅ ∅ 0.
Definition trie0 : SecureTrie :=
  {| strie := {| root := NNil; originalRoot := zeros 32; cachegen := 0; cachelimit := 120 |}; secKeyCache := ∅; owner := false |}.
Definition world1 : World SecureTrie MemDatabase := mkWorld NewMemDatabase ∅ {[ 0%nat := trie0 ]} 1.

Definition addr1 : bytes := replicate 20 1.
Definition addr2 : bytes := replicate 20 2.
Definition addr3 : bytes := replicate 20 3.
(** The first account that the first one creates. *)
Definition addr4 : bytes := [28; 129; 166; 26; 64; 112; 23; 197; 131; 151; 164; 125; 42; 178; 129; 145; 185; 184; 236; 155].

(** The keys the examples use. *)
Definition keys0 : list bytes := [addr1; addr2; addr3; addr4; zeros 32].

Lemma keys0_free : collision_free (fun k => k ∈ keys0).
Proof. apply listed_free. apply (bool_decide_unpack _). by vm_compute. Qed.

#[export] Instance laws0 : StateTrieLaws SecureTrie MemDatabase := SecureTrie_laws (fun k => k ∈ keys0) keys0_free.

Lemma trie0_ok : accounts_ok world0 (new_state 0) trie0.
Proof.
  assert (V : forall k, st_value NewMemDatabase trie0 k = []).
  { intros k. destruct (st_new_empty (T := SecureTrie) NewMemDatabase 120) as (t & Et & _ & V). injection Et as <-. apply V. }
  split; [by destruct (st_new_empty (T := SecureTrie) NewMemDatabase 120) as (t & [= <-] & O & _)|intros a _; by rewrite V|].
  intros a x _ _. cbn [wdb world0]. rewrite V. intros E. vm_compute in E. discriminate.
Qed.

Definition sample_calls : list call :=
  [CAddBalance addr1 10; CSnapshot; CSetBalance addr1 7; CSetState addr2 (zeros 32) (replicate 32 9); CSnapshot;
   CSuicide addr1; CCreateAccount addr2; CRevertToSnapshot 1; CGetBalance addr1; CGetState addr2 (zeros 32);
   CRevertToSnapshot 0; CGetBalance addr1; CExist addr2].

Lemma statedb_refines_witness :
  exists w' s', run_calls 0 sample_calls world1 (new_state 0) =
    Ok ([AUnit; AInt 0; AUnit; AUnit; AInt 1; ABool true; AUnit; AUnit; AInt 7; ABytes (replicate 32 9); AUnit; AInt 10;
         ABool false], w', s').
Proof.
  pose proof (statedb_refines (T := SecureTrie) (D := MemDatabase) 0 120 world0 world1 (new_state 0) (zeros 32) trie0 sample_calls) as R.
  assert (S : option_map fst (spec_calls 0 sample_calls (start world1 (new_state 0))) =
    Some [AUnit; AInt 0; AUnit; AUnit; AInt 1; ABool true; AUnit; AUnit; AInt 7; ABytes (replicate 32 9); AUnit; AInt 10;
          ABool false]) by (vm_compute; reflexivity).
  destruct (spec_calls 0 sample_calls (start world1 (new_state 0))) as [[xs sp']|]; [|discriminate S].
  injection S as ->. destruct R as (w' & s' & E & _); [by intros p|done|apply trie0_ok|done|apply (bool_decide_unpack _); by vm_compute|]. exists w', s'. exact E.
Defined.

(** ** Behaviours the journal and the caches do not cover *)

Definition sample_log : Log := mkLog addr1 [] [1; 2; 3] 0 [] 0 [] 0.

(** Reverting a log does not give its index back: after one log has been
    added and reverted, the only log of the block has index 1. *)
Theorem reverted_log_keeps_index :
  match run_calls 0 [CSnapshot; CAddLog sample_log; CRevertToSnapshot 0; CAddLog sample_log; CGetLogs (zeros 32)]
          world1 (new_state 0) with
  | Ok (xs, _, _) => last xs = Some (ALogs [mkLog addr1 [] [1; 2; 3] 0 (zeros 32) 0 (zeros 32) 1])
  | _ => False
  end.
Proof. vm_compute. reflexivity. Qed.

(** Two commits with a change in between. *)
Definition commit_twice : total (bytes * Z * bytes) :=
  match (let! _ := AddBalance 0 addr1 10 in
         let! (r1, _) := CommitBatch (fun _ l => l) NewBatch false in
         let! _ := AddBalance 0 addr1 5 in
         let! b := GetBalance addr1 in
         let! (r2, _) := CommitBatch (fun _ l => l) NewBatch false in
         retS (r1, b, r2)) world1 (new_state 0) with
  | Ok (x, _, _) => Ok x
  | _ => Panic
  end.

(** An account object calls back once to be marked dirty; after a commit
    has cleared the mark, further changes of the object are visible but not
    part of the next root. *)
Theorem commit_forgets_live_objects :
  exists r, commit_twice = Ok (r, 15, r).
Proof. eexists. vm_compute. reflexivity. Qed.
