(* ===== verification/StateFlush.v ===== *)
(** * What flushing the accounts into the tries relies on

    The state database keeps changed accounts in objects and writes them to the
    tries when a root is asked for.  [flushable] is the invariant behind this:
    an object that differs from its entry in the account trie is marked dirty,
    the storage that is not marked dirty is the storage of the trie, no two
    objects share a storage trie, and undo entries lead back to such states.
    Every operation of the interface keeps it. *)

From S2P Require Import Prelude RlpEncode RlpRaw RlpStream Helper Database Trie TrieHash StateTrie State StateSpec StateRefine.

(** ** Entries of the tries *)

(** A slot; a zero slot has no entry. *)
Definition slot_enc (v : bytes) : bytes := if decide (v = zeros 32) then [] else enc_string (trimLeft v).

Lemma trimLeft_zeros v : exists n, v = replicate n 0 ++ trimLeft v.
Proof.
  induction v as [|x v [n IH]]; [by exists 0%nat|]. destruct (decide (x = 0)) as [->|Hx].
  - exists (S n). cbn. by rewrite <- IH.
  - exists 0%nat. by destruct x.
Qed.

Lemma trimLeft_word v : word 32 v -> bytes_ok (trimLeft v) /\ len (trimLeft v) <= 32 /\ Hash_SetBytes (zeros 32) (trimLeft v) = v.
Proof.
  intros [Hb L]. destruct (trimLeft_zeros v) as [n E].
  assert (Ln : (n + length (trimLeft v) = 32)%nat) by (rewrite <- L; rewrite E at 2; by rewrite length_app, length_replicate).
  rewrite E in Hb. apply Forall_app in Hb as [_ Hb]. split; [done|]. split; [lia|].
  unfold Hash_SetBytes, setFixed. change (length (zeros 32)) with 32%nat. rewrite (proj2 (Nat.ltb_ge _ _)) by lia.
  etrans; [|symmetry; exact E]. f_equal. unfold zeros. rewrite take_replicate. f_equal. lia.
Qed.

Lemma slot_enc_ok v : word 32 v -> bytes_ok (slot_enc v) /\ len (slot_enc v) < 2 ^ 32.
Proof.
  intros Hv. destruct (trimLeft_word v Hv) as (Hb & L & _). unfold slot_enc. case_decide; [by split|].
  split; [apply enc_string_ok; [done|lia]|]. pose proof (enc_string_len (trimLeft v)). lia.
Qed.

Lemma slot_enc_split v : word 32 v -> slot_enc v = [] \/ exists k, Split (slot_enc v) = Ok (k, trimLeft v, []).
Proof.
  intros Hv. destruct (trimLeft_word v Hv) as (Hb & L & _). unfold slot_enc. case_decide; [by left|right].
  destruct (kind_of_string (trimLeft v)) as (k & Hk & E & _). exists k.
  pose proof (enc_string_len (trimLeft v)). apply Split_iff; [apply enc_string_ok; [done|lia]|lia|].
  by rewrite app_nil_r, E.
Qed.

Lemma slot_value_enc v : word 32 v -> slot_value (slot_enc v) = v.
Proof.
  intros Hv. unfold slot_value. destruct (slot_enc_split v Hv) as [E|(k & E)].
  - rewrite E. cbn. unfold slot_enc in E. destruct (decide (v = zeros 32)); [done|].
    destruct (trimLeft_word v Hv) as (Hb & L & _). pose proof (enc_string_len (trimLeft v)) as X. rewrite E in X. cbn in X. lia.
  - rewrite E. destruct (Z.ltb_spec 0 (len (slot_enc v))) as [_|Z0]; [by apply trimLeft_word|].
    destruct (slot_enc v); [by vm_compute in E|cbn in Z0; lia].
Qed.

(** Accounts of the sizes the chain has. *)
Record account_fits (a : Account) : Prop := {
  fit_nonce : 0 <= Nonce a < 2 ^ 64;
  fit_balance : 0 <= Balance a < 2 ^ 256;
  fit_root : word 32 (Root a);
  fit_code : word 32 (CodeHash a)
}.

Definition account_enc (a : Account) : bytes := enc (account_val a) account_type.

Lemma account_enc_list a :
  account_enc a = enc_list (enc_string (Bytes (Nonce a)) ++ enc_string (Bytes (Balance a)) ++ enc_string (Root a) ++ enc_string (CodeHash a)).
Proof. unfold account_enc. cbn [enc account_val account_type zip_with concat]. by rewrite app_nil_r. Qed.

Lemma account_enc_len a : account_fits a -> 0 < len (account_enc a) < 2 ^ 32.
Proof.
  intros [N B [_ R] [_ C]]. rewrite account_enc_list.
  pose proof (Bytes_length (Nonce a) 8 ltac:(cbn; lia)) as L1. pose proof (Bytes_length (Balance a) 32 ltac:(cbn; lia)) as L2.
  pose proof (enc_string_len (Bytes (Nonce a))) as X1. pose proof (enc_string_len (Bytes (Balance a))) as X2.
  pose proof (enc_string_len (Root a)) as X3. pose proof (enc_string_len (CodeHash a)) as X4.
  match goal with |- context [enc_list ?p] => pose proof (enc_list_len p) as X5; assert (L : len p < 200) by (rewrite !length_app; lia) end.
  lia.
Qed.

Lemma account_rt a : account_fits a -> rt (account_val a) account_type.
Proof.
  intros [N B [R1 R2] [C1 C2]]. cbn. split; [split; [tauto|done]|]. split; [lia|]. split; [|done].
  split; [done|]. split; [done|]. intros E. by rewrite E in R2.
Qed.

Lemma account_encode a : account_fits a -> EncodeToBytes account_type (account_val a) = Ok (account_enc a).
Proof. intros F. pose proof (account_enc_len a F). apply EncodeToBytes_enc; [by apply rt_wt, account_rt|unfold account_enc in *; lia]. Qed.

Lemma account_decode a : account_fits a -> decode_account (account_enc a) = Ok a.
Proof.
  intros F. pose proof (account_enc_len a F). unfold decode_account.
  pose proof (DecodeBytes_enc account_type (account_val a) 16 (account_rt a F)) as R. fold (account_enc a) in R.
  rewrite R by (lia || (cbn; lia)). by destruct a.
Qed.

Lemma account_enc_ok a : account_fits a -> bytes_ok (account_enc a).
Proof. intros F. pose proof (account_enc_len a F). apply enc_ok; [by apply rt_wt, account_rt|unfold account_enc in *; lia]. Qed.

Section Flush.
Context `{Hash256} `{StateTrieRoots T D} `{Database D} (StartingNonce : Z) (del : bool).
Implicit Types (w : World T D) (s : StateDB) (o : StateObject) (J : list journalEntry).

Abbreviation M A := (SM (T := T) (D := D) A).

(** ** Storage tries *)

(** A storage trie with the slots of [f]. *)
Record holds (d : D) (t : T) (f : bytes -> bytes) : Prop := {
  h_in : st_in d t;
  h_word k : st_key k -> word 32 (f k);
  h_value k : st_key k -> st_value d t k = slot_enc (f k)
}.

(** The root of a storage. *)
Definition has_root (f : bytes -> bytes) (h : bytes) : Prop := exists d t t', holds d t f /\ st_hash t = Ok (h, t').

Lemma root_unique f g h1 h2 : has_root f h1 -> has_root g h2 -> (forall k, st_key k -> f k = g k) -> h1 = h2.
Proof.
  intros (d1 & t1 & t1' & [I1 W1 V1] & E1) (d2 & t2 & t2' & [I2 W2 V2] & E2) E.
  apply (st_hash_unique d1 d2 t1 t2 h1 h2 t1' t2'); [done..|by intros k Hk; rewrite V1, V2, E|done|done].
Qed.

Lemma holds_ext d t f g : holds d t f -> (forall k, st_key k -> f k = g k) -> holds d t g.
Proof. intros [I W V] E. split; [done|..]; intros k Hk; rewrite <- E by done; auto. Qed.

Lemma has_root_ext f g h : has_root f h -> (forall k, st_key k -> f k = g k) -> has_root g h.
Proof. intros (d & t & t' & O & E) Ef. exists d, t, t'. split; [|done]. by eapply holds_ext. Qed.

Lemma holds_same d t t' f : holds d t f -> st_in d t' -> (forall k, st_value d t' k = st_value d t k) -> holds d t' f.
Proof. intros [I W V] I' E. split; [done|done|]. intros k Hk. rewrite E. auto. Qed.

Lemma holds_slot d t f k : holds d t f -> st_key k -> slot_value (st_value d t k) = f k.
Proof. intros [I W V] Hk. rewrite V by done. by apply slot_value_enc, W. Qed.

(** ** The invariant *)

(** An entry of the account trie: nothing, or an account whose storage can be
    loaded and has the root it says. *)
Definition entry_good (d : D) (enc : bytes) : Prop :=
  enc = [] \/ exists a t f, enc = account_enc a /\ account_fits a /\ st_new d (Root a) 0 = Ok t /\ holds d t f /\ has_root f (Root a).

Definition account_entry w s (a : bytes) : bytes :=
  match tries w !! s_trie s with Some t => st_value (wdb w) t a | None => [] end.

(** The slots of an object that are not marked dirty are those of its trie. *)
Record obj_good w o : Prop := {
  g_trie : exists t f, storage_trie w o = Some t /\ holds (wdb w) t f /\
    forall k v, cachedStorage o !! k = Some v -> dirtyStorage o !! k = None -> v = f k;
  g_dirty k v : dirtyStorage o !! k = Some v -> cachedStorage o !! k = Some v;
  g_cached k v : cachedStorage o !! k = Some v -> st_key k /\ word 32 v;
  g_key : st_key (address o)
}.

(** The entry of the object is up to date. *)
Record synced w s o : Prop := {
  y_entry : account_entry w s (address o) = account_enc (data o);
  y_fits : account_fits (data o);
  y_alive : suicided o = false /\ deleted o = false;
  y_clean : dirtyStorage o = ∅;
  y_root : has_root (o_storage w o) (Root (data o))
}.

(** What the flush deletes. *)
Definition gone o : bool := suicided o || (del && empty o).

Record live_good w s (a : bytes) o : Prop := {
  l_addr : address o = a;
  l_good : obj_good w o;
  l_synced : a ∈ stateObjectsDirty s \/ synced w s o;
  l_fired : onDirty o = false -> a ∈ stateObjectsDirty s;
  l_deleted : deleted o = true -> gone o = true /\ account_entry w s a = []
}.

(** The object that a reset puts back; its address has an account. *)
Record prev_good w s o : Prop := {
  p_good : obj_good w o;
  p_deleted : deleted o = false;
  p_dirty : address o ∈ stateObjectsDirty s;
  p_live : exists q x, stateObjects s !! address o = Some q /\ objs w !! q = Some x /\ deleted x = false
}.

Definition entry_fits w s (e : journalEntry) : Prop :=
  match e with
  | createObjectChange a => st_key a /\ account_entry w s a = []
  | resetObjectChange p => exists o, objs w !! p = Some o /\ prev_good w s o
  | suicideChange a _ _ | balanceChange a _ | nonceChange a _ | codeChange a _ _ => st_key a
  | storageChange a k v => st_key a /\ st_key k /\ word 32 v
  | _ => True
  end.

(** No reset of an account precedes its creation. *)
Definition ordered w J : Prop :=
  forall J1 a J2 p o, J = J1 ++ createObjectChange a :: J2 -> resetObjectChange p ∈ J1 -> objs w !! p = Some o -> address o <> a.

Record flushable w s J : Prop := {
  f_trie : exists t, tries w !! s_trie s = Some t /\ st_in (wdb w) t;
  f_entry a : st_key a -> stateObjects s !! a = None -> entry_good (wdb w) (account_entry w s a);
  f_live a p : stateObjects s !! a = Some p -> exists o, objs w !! p = Some o /\ live_good w s a o;
  f_dirty a : a ∈ stateObjectsDirty s -> is_Some (stateObjects s !! a);
  f_journal : Forall (entry_fits w s) J;
  f_order : ordered w J;
  f_otrie p o tp : objs w !! p = Some o -> otrie o = Some tp -> is_Some (tries w !! tp) /\ tp <> s_trie s;
  f_sep p q o x tp : objs w !! p = Some o -> objs w !! q = Some x -> otrie o = Some tp -> otrie x = Some tp -> p = q;
  f_fresh : wfresh w
}.

(** ** Loading *)

(** The tries have loaded nodes, and there may be more tries. *)
Record loads w w' : Prop := {
  ld_wle : wle w w';
  ld_in tp t t' : tries w !! tp = Some t -> tries w' !! tp = Some t' -> st_in (wdb w) t -> st_in (wdb w) t'
}.

Lemma loads_same w w' : wdb w' = wdb w -> tries w' = tries w -> loads w w'.
Proof. intros E1 E2. split; [by apply wle_same|]. intros tp t t'. rewrite E2. congruence. Qed.

Lemma loads_trans w1 w2 w3 : loads w1 w2 -> loads w2 w3 -> loads w1 w3.
Proof.
  intros [W1 I1] [W2 I2]. split; [by eapply wle_trans|]. intros tp t t3 E1 E3 Hin.
  destruct (wle_tries _ _ W1 tp t E1) as (t2 & E2 & _). rewrite (wle_db _ _ W1) in I2. eauto.
Qed.

Lemma storage_trie_loads w w' o t f :
  loads w w' -> storage_trie w o = Some t -> holds (wdb w) t f ->
  exists t', storage_trie w' o = Some t' /\ holds (wdb w') t' f /\ forall k, st_value (wdb w') t' k = st_value (wdb w) t k.
Proof.
  intros [W I] Et O. destruct (storage_trie_wle w w' o t W Et) as (t' & Et' & S).
  destruct (S (st_in_ok _ _ (h_in _ _ _ O))) as [_ V]. exists t'. rewrite (wle_db _ _ W). split; [done|]. split; [|done].
  apply (holds_same _ t); [done| |done]. unfold storage_trie in *. destruct (otrie o) as [tp|].
  - apply (I tp t t'); [done..|apply O].
  - rewrite (wle_db _ _ W), Et in Et'. injection Et' as <-. apply O.
Qed.

Lemma obj_good_loads w w' o : loads w w' -> obj_good w o -> obj_good w' o.
Proof.
  intros L [(t & f & Et & O & C) G2 G3 G4]. destruct (storage_trie_loads w w' o t f L Et O) as (t' & Et' & O' & _).
  split; [by exists t', f|done..].
Qed.

(** Two objects with the same storage. *)
Lemma obj_good_same w o o' :
  otrie o' = otrie o -> Root (data o') = Root (data o) -> address o' = address o ->
  cachedStorage o' = cachedStorage o -> dirtyStorage o' = dirtyStorage o -> obj_good w o -> obj_good w o'.
Proof.
  intros E1 E2 E3 E4 E5 [(t & f & Et & O & C) G2 G3 G4].
  split; rewrite ?E3, ?E4, ?E5; [|done..]. exists t, f. unfold storage_trie in *. by rewrite E1, E2.
Qed.

Lemma o_storage_loads w w' o k : loads w w' -> obj_good w o -> o_storage w' o k = o_storage w o k.
Proof.
  intros L [(t & f & Et & O & C) G2 G3 G4]. destruct (storage_trie_loads w w' o t f L Et O) as (t' & Et' & _ & V).
  unfold o_storage. by rewrite Et, Et', V.
Qed.

Definition has_trie w s : Prop := exists t, tries w !! s_trie s = Some t /\ st_in (wdb w) t.

Lemma has_trie_loads w w' s s' : loads w w' -> s_trie s' = s_trie s -> has_trie w s -> has_trie w' s'.
Proof.
  intros [W I] E (t & Et & Hin). destruct (wle_tries _ _ W _ _ Et) as (t' & Et' & _). exists t'.
  rewrite E, (wle_db _ _ W). split; [done|]. by apply (I (s_trie s) t t').
Qed.

Lemma account_entry_loads w w' s s' a :
  loads w w' -> s_trie s' = s_trie s -> has_trie w s -> account_entry w' s' a = account_entry w s a.
Proof.
  intros [W I] E (t & Et & Hin). destruct (wle_tries _ _ W _ _ Et) as (t' & Et' & S).
  destruct (S (st_in_ok _ _ Hin)) as [_ V]. unfold account_entry. by rewrite E, Et, Et', (wle_db _ _ W), V.
Qed.

Lemma synced_loads w w' s s' o :
  loads w w' -> s_trie s' = s_trie s -> has_trie w s -> obj_good w o -> synced w s o -> synced w' s' o.
Proof.
  intros L E HT G [Y1 Y2 Y3 Y4 Y5]. split; [|done..|].
  - by rewrite (account_entry_loads w w' s s').
  - apply (has_root_ext (o_storage w o)); [done|]. intros k _. symmetry. by apply o_storage_loads.
Qed.

Lemma live_good_loads w w' s s' a o :
  loads w w' -> s_trie s' = s_trie s -> has_trie w s -> stateObjectsDirty s ⊆ stateObjectsDirty s' ->
  live_good w s a o -> live_good w' s' a o.
Proof.
  intros L E HT Sub [L1 L2 L3 L4 L5]. split; [done|by eapply obj_good_loads| | |].
  - destruct L3 as [?|Y]; [left; by apply Sub|right; by apply (synced_loads w w' s s')].
  - intros F. by apply Sub, L4.
  - by rewrite (account_entry_loads w w' s s').
Qed.

(** ** Changing one object *)

Lemma entry_good_loads w w' s s' a :
  loads w w' -> s_trie s' = s_trie s -> has_trie w s ->
  entry_good (wdb w) (account_entry w s a) -> entry_good (wdb w') (account_entry w' s' a).
Proof. intros L E HT. by rewrite (account_entry_loads w w' s s'), (wle_db _ _ (ld_wle _ _ L)). Qed.

(** Where the storage trie of the changed object comes from. *)
Definition trie_from w w' o o' : Prop :=
  otrie o' = otrie o \/ (otrie o' = Some (next w) /\ is_Some (tries w' !! next w)).

Lemma otrie_known w s J p o tp : flushable w s J -> objs w !! p = Some o -> otrie o = Some tp -> (tp < next w)%nat.
Proof.
  intros F Eo Et. destruct (f_otrie _ _ _ F p o tp Eo Et) as [[t Ht] _].
  destruct (decide (tp < next w)%nat) as [|Hn]; [done|]. destruct (f_fresh _ _ _ F tp ltac:(lia)). congruence.
Qed.

Lemma trie_known w s J : flushable w s J -> (s_trie s < next w)%nat.
Proof.
  intros F. destruct (f_trie _ _ _ F) as (t & Et & _). destruct (decide (s_trie s < next w)%nat) as [|Hn]; [done|].
  destruct (f_fresh _ _ _ F (s_trie s) ltac:(lia)). congruence.
Qed.

(** The separation of storage tries, when one object changes. *)
Lemma put_otrie w s J w' s' p o o' :
  flushable w s J -> loads w w' -> objs w !! p = Some o -> objs w' = <[p := o']> (objs w) -> s_trie s' = s_trie s ->
  trie_from w w' o o' ->
  (forall q x tp, objs w' !! q = Some x -> otrie x = Some tp -> is_Some (tries w' !! tp) /\ tp <> s_trie s') /\
  (forall q r x y tp, objs w' !! q = Some x -> objs w' !! r = Some y -> otrie x = Some tp -> otrie y = Some tp -> q = r).
Proof.
  intros F L Eo Eobjs Es Tf.
  assert (X : forall q x tp, objs w' !! q = Some x -> otrie x = Some tp ->
    (exists x0, objs w !! q = Some x0 /\ otrie x0 = Some tp) \/ (q = p /\ tp = next w /\ is_Some (tries w' !! next w))).
  { intros q x tp. rewrite Eobjs, lookup_insert. case_decide as Hq; [|intros Eq Et; left; by exists x].
    subst q. intros [= <-] Et. destruct Tf as [E|[E S]]; [left; exists o; by rewrite <- E|right].
    rewrite E in Et. by injection Et as <-. }
  pose proof (trie_known _ _ _ F) as Hs. split.
  - intros q x tp Eq Et. rewrite Es. destruct (X q x tp Eq Et) as [(x0 & E0 & T0)|(-> & -> & S)].
    + destruct (f_otrie _ _ _ F q x0 tp E0 T0) as [[t Ht] N]. split; [|done].
      destruct (wle_tries _ _ (ld_wle _ _ L) tp t Ht) as (t' & Ht' & _). eauto.
    + split; [done|]. lia.
  - intros q r x y tp Eq Er Ex Ey.
    destruct (X q x tp Eq Ex) as [(x0 & E0 & T0)|(-> & -> & _)], (X r y _ Er Ey) as [(y0 & E1 & T1)|(-> & E' & _)]; try done.
    + by apply (f_sep _ _ _ F q r x0 y0 tp).
    + subst tp. pose proof (otrie_known _ _ _ _ _ _ F E0 T0). lia.
    + pose proof (otrie_known _ _ _ _ _ _ F E1 T1). lia.
Qed.

Lemma flushable_put w s J w' s' p o o' :
  flushable w s J -> loads w w' -> wfresh w' -> objs w !! p = Some o -> objs w' = <[p := o']> (objs w) ->
  stateObjects s' = stateObjects s -> s_trie s' = s_trie s -> stateObjectsDirty s ⊆ stateObjectsDirty s' ->
  (forall a, a ∈ stateObjectsDirty s' -> is_Some (stateObjects s !! a)) ->
  address o' = address o -> deleted o' = deleted o -> trie_from w w' o o' -> obj_good w' o' ->
  (forall a, stateObjects s !! a = Some p -> live_good w' s' a o') -> flushable w' s' J.
Proof.
  intros F L Fr Eo Eobjs E1 E2 Sub Dom Ea Ed Tf G Lg. destruct (put_otrie w s J w' s' p o o') as [T1 T2]; [done..|].
  pose proof (f_trie _ _ _ F) as HT. split; [by apply (has_trie_loads w w' s s')|..|done|done|done].
  - intros a Ka Na. apply (entry_good_loads w w' s s'); [done..|]. apply (f_entry _ _ _ F); [done|by rewrite <- E1].
  - intros a q. rewrite E1, Eobjs, lookup_insert. case_decide as Hq; [subst q; intros Eq; exists o'; auto|].
    intros Eq. destruct (f_live _ _ _ F a q Eq) as (x & Ex & Lx). exists x. split; [done|]. by apply (live_good_loads w w' s s').
  - intros a Ha. rewrite E1. auto.
  - eapply Forall_impl; [apply (f_journal _ _ _ F)|]. intros [b|q| | | | | | |]; cbn; try done.
    { by rewrite (account_entry_loads w w' s s'). }
    intros (x & Ex & [P1 P2 P3 (r & y & P4 & P5 & P6)]).
    assert (PL : exists r y, stateObjects s' !! address x = Some r /\ objs w' !! r = Some y /\ deleted y = false).
    { exists r. rewrite E1, Eobjs, lookup_insert. case_decide; [|by exists y]. subst r. exists o'. split; [done|]. split; [done|congruence]. }
    rewrite Eobjs, lookup_insert. case_decide as Hq; [|exists x; split; [done|]; split; [by eapply obj_good_loads|done|by apply Sub|done]].
    subst q. exists o'. split; [done|]. assert (x = o) as -> by congruence. split; [done|congruence| |]; rewrite Ea; [by apply Sub|done].
  - intros J1 a J2 q x EJ Hq. rewrite Eobjs, lookup_insert. case_decide as Hqp; [|by apply (f_order _ _ _ F J1 a J2 q x)].
    subst q. intros [= <-]. rewrite Ea. by apply (f_order _ _ _ F J1 a J2 p o).
Qed.

(** Another object becomes the live one of an address. *)
Lemma flushable_attach w s J w' s' a q o :
  flushable w s J -> wdb w' = wdb w -> tries w' = tries w -> wfresh w' -> objs w' !! q = Some o ->
  (forall r, r <> q -> objs w' !! r = objs w !! r) -> (objs w !! q = Some o \/ (objs w !! q = None /\ otrie o = None)) ->
  stateObjects s' = <[a := q]> (stateObjects s) -> s_trie s' = s_trie s -> stateObjectsDirty s ⊆ stateObjectsDirty s' ->
  stateObjectsDirty s' ⊆ {[a]} ∪ stateObjectsDirty s -> deleted o = false -> live_good w' s' a o -> flushable w' s' J.
Proof.
  intros F E1 E2 Fr Eq Er Old Es Et Sub Sup Ed Lg. assert (L : loads w w') by by apply loads_same.
  pose proof (f_trie _ _ _ F) as HT.
  assert (X : forall r x, objs w' !! r = Some x -> objs w !! r = Some x \/ (r = q /\ x = o /\ otrie o = None)).
  { intros r x Ex. destruct (decide (r = q)) as [->|Hr]; [|left; by rewrite <- Er]. rewrite Eq in Ex. injection Ex as <-.
    destruct Old as [?|[? ?]]; auto. }
  assert (Y : forall r x, objs w !! r = Some x -> objs w' !! r = Some x).
  { intros r x Ex. destruct (decide (r = q)) as [->|Hr]; [|by rewrite Er]. destruct Old as [?|[? ?]]; congruence. }
  split; [by apply (has_trie_loads w w' s s')|..|done].
  - intros b Kb. rewrite Es, lookup_insert_None. intros [Nb _]. apply (entry_good_loads w w' s s'); [done..|]. by apply (f_entry _ _ _ F).
  - intros b r. rewrite Es, lookup_insert. case_decide as Hb; [subst b; intros [= <-]; by exists o|].
    intros Eb. destruct (f_live _ _ _ F b r Eb) as (x & Ex & Lx). exists x. split; [by apply Y|]. by apply (live_good_loads w w' s s').
  - intros b Hb. rewrite Es, lookup_insert. case_decide as Hab; [eauto|]. apply (f_dirty _ _ _ F).
    by apply Sup, elem_of_union in Hb as [->%elem_of_singleton|].
  - eapply Forall_impl; [apply (f_journal _ _ _ F)|]. intros [b|r| | | | | | |]; cbn; try done.
    { by rewrite (account_entry_loads w w' s s'). }
    intros (x & Ex & [P1 P2 P3 (u & y & P4 & P5 & P6)]). exists x. split; [by apply Y|].
    split; [by eapply obj_good_loads|done|by apply Sub|]. rewrite Es, lookup_insert.
    case_decide; [exists q, o; done|]. exists u, y. split; [done|]. split; [by apply Y|done].
  - intros J1 b J2 r x EJ Hr Ex. destruct (X r x Ex) as [Ex'|(-> & -> & _)]; [by apply (f_order _ _ _ F J1 b J2 r x)|].
    assert (Hj : resetObjectChange q ∈ J) by (rewrite EJ, elem_of_app; by left).
    destruct (proj1 (Forall_forall _ _) (f_journal _ _ _ F) _ Hj) as (y & Ey & _). destruct Old as [Eo|[Eo _]]; [|congruence].
    by apply (f_order _ _ _ F J1 b J2 q o).
  - intros r x tp Ex Tx. rewrite E2, Et. destruct (X r x Ex) as [Ex'|(-> & -> & N)]; [by apply (f_otrie _ _ _ F r x)|congruence].
  - intros r u x y tp Ex Ey Tx Ty. destruct (X r x Ex) as [Ex'|(-> & -> & N)]; [|congruence].
    destruct (X u y Ey) as [Ey'|(-> & -> & N)]; [|congruence]. by apply (f_sep _ _ _ F r u x y tp).
Qed.

(** Changes of the rest of the state database. *)
Lemma flushable_state w s s' J :
  stateObjects s' = stateObjects s -> stateObjectsDirty s' = stateObjectsDirty s -> s_trie s' = s_trie s ->
  flushable w s J -> flushable w s' J.
Proof.
  intros E1 E2 E3 F. assert (L : loads w w) by by apply loads_same. pose proof (f_trie _ _ _ F) as HT.
  assert (EA : forall a, account_entry w s' a = account_entry w s a) by (intros a; unfold account_entry; by rewrite E3).
  split; rewrite ?E1, ?E2, ?E3; try apply F; try done.
  - intros a Ka Na. rewrite EA. by apply F.
  - intros a p Ep. destruct (f_live _ _ _ F a p Ep) as (o & Eo & Lo). exists o. split; [done|].
    apply (live_good_loads w w s s'); [done..| |done]. by rewrite E2.
  - eapply Forall_impl; [apply (f_journal _ _ _ F)|]. intros [b|r| | | | | | |]; cbn; try done; [by rewrite EA|].
    intros (x & Ex & [P1 P2 P3 P4]). exists x. split; [done|]. by split; rewrite ?E1, ?E2.
Qed.

(** Journal entries. *)
Definition entry_fresh w J (e : journalEntry) : Prop :=
  match e with
  | createObjectChange a => forall p o, resetObjectChange p ∈ J -> objs w !! p = Some o -> address o <> a
  | _ => True
  end.

Lemma flushable_snoc w s J e : flushable w s J -> entry_fits w s e -> entry_fresh w J e -> flushable w s (J ++ [e]).
Proof.
  intros [F1 F2 F3 F4 F5 F6 F7 F8 F9] Hf Hn. split; try done.
  - apply Forall_app. split; [done|]. by constructor.
  - intros J1 a J2 p o EJ Hp Eo. destruct (decide (J2 = [])) as [->|N].
    + apply app_inj_tail in EJ as [-> ->]. by apply (Hn p).
    + destruct (exists_last N) as (J3 & e' & ->). rewrite app_comm_cons, app_assoc in EJ. apply app_inj_tail in EJ as [-> ->].
      by apply (F6 J1 a J3 p o).
Qed.

Lemma flushable_prefix w s J1 J2 : flushable w s (J1 ++ J2) -> flushable w s J1.
Proof.
  intros [F1 F2 F3 F4 F5 F6 F7 F8 F9]. apply Forall_app in F5 as [F5 _]. split; try done.
  intros J3 a J4 p o -> Hp Eo. apply (F6 J3 a (J4 ++ J2) p o); [by rewrite <- app_assoc|done|done].
Qed.

(** ** Operations on a live object *)

Lemma live_flush w s J a p o : flushable w s J -> live w s a p o -> live_good w s a o.
Proof. intros F (Ep & Eo & _). destruct (f_live _ _ _ F a p Ep) as (x & Ex & Lx). congruence. Qed.

Lemma live_only w s J a b p o : flushable w s J -> live w s a p o -> stateObjects s !! b = Some p -> b = a.
Proof.
  intros F Lv Eb. destruct (live_flush _ _ _ _ _ _ F Lv) as [<- _ _ _ _]. destruct Lv as (_ & Eo & _).
  destruct (f_live _ _ _ F b p Eb) as (x & Ex & [<- _ _ _ _]). congruence.
Qed.

Lemma put_wfresh w p o x : wfresh w -> objs w !! p = Some x -> wfresh (put w p o).
Proof. intros Fr Ex q Hq. cbn in *. destruct (Fr q Hq). split; [|done]. rewrite lookup_insert_ne; [done|]. intros ->. congruence. Qed.

(** A setter, with its callback. *)
Lemma flush_set w s J a p o o' :
  flushable w s J -> live w s a p o -> address o' = a -> deleted o' = false -> onDirty o' = onDirty o -> otrie o' = otrie o ->
  obj_good w o' ->
  flushable (put w p (fired o')) (fire s o') J /\ live (put w p (fired o')) (fire s o') a p (fired o').
Proof.
  intros F Lv Ea Ed En Et G. pose proof (live_flush _ _ _ _ _ _ F Lv) as [L1 L2 L3 L4 L5]. pose proof Lv as (Lp & Lo & Ld).
  destruct (fired_same o') as (F1 & F2 & F3 & F4).
  destruct (fire_same s o') as (G1 & [G2 _ _ _ _ _ _] & _).
  assert (Fd : stateObjectsDirty (fire s o') = {[a]} ∪ stateObjectsDirty s).
  { unfold fire. rewrite En, Ea. destruct (onDirty o) eqn:On; [done|]. specialize (L4 eq_refl).
    by rewrite subseteq_union_1_L by (by apply singleton_subseteq_l). }
  assert (Gf : obj_good (put w p (fired o')) (fired o')).
  { apply (obj_good_loads w); [by apply loads_same|]. apply (obj_good_same w o'); try done; [by rewrite F2|..]; unfold fired; by destruct (onDirty o'). }
  split.
  - apply (flushable_put w s J _ _ p o (fired o')); try done; [by apply loads_same|by eapply put_wfresh, Lo; apply F|..].
    + rewrite Fd. apply union_subseteq_r.
    + rewrite Fd. intros b [->%elem_of_singleton|Hb]%elem_of_union; [eauto|by apply (f_dirty _ _ _ F)].
    + congruence.
    + congruence.
    + left. congruence.
    + intros b Eb. assert (b = a) as -> by (by eapply live_only). split; [congruence|done| | |].
      * left. rewrite Fd. apply elem_of_union_l, elem_of_singleton. done.
      * intros _. rewrite Fd. apply elem_of_union_l, elem_of_singleton. done.
      * rewrite F3. congruence.
  - split; [by rewrite G1|]. split; [cbn; apply lookup_insert_eq|congruence].
Qed.

(** A change that no view shows. *)
Lemma flush_quiet w w' s J a p o o' :
  flushable w s J -> live w s a p o -> loads w w' -> wfresh w' -> objs w' = <[p := o']> (objs w) ->
  address o' = address o -> data o' = data o -> deleted o' = deleted o -> suicided o' = suicided o ->
  onDirty o' = onDirty o -> dirtyStorage o' = dirtyStorage o -> trie_from w w' o o' -> obj_good w' o' ->
  (forall k, st_key k -> o_storage w' o' k = o_storage w o k) ->
  flushable w' s J /\ live w' s a p o'.
Proof.
  intros F Lv L Fr Eo E1 E2 E3 E4 E5 E6 E7 G Es. pose proof (live_flush _ _ _ _ _ _ F Lv) as [L1 L2 L3 L4 L5].
  pose proof Lv as (Lp & Lo & Ld). split; [|split; [done|split; [by rewrite Eo, lookup_insert_eq|congruence]]].
  apply (flushable_put w s J w' s p o o'); try done.
  - intros b. apply (f_dirty _ _ _ F).
  - intros b Eb. assert (b = a) as -> by (by eapply live_only). split; [congruence|done| |by rewrite E5|congruence].
    destruct L3 as [?|[Y1 Y2 Y3 Y4 Y5]]; [by left|right]. split; rewrite ?E1, ?E2, ?E3, ?E4, ?E6; try done.
    + rewrite (account_entry_loads w w' s s); [done|done|done|apply F].
    + apply (has_root_ext (o_storage w o)); [done|]. intros k Hk. by rewrite Es.
Qed.

Lemma flush_Code w s J a p o :
  flushable w s J -> live w s a p o ->
  exists c w' o', obj_Code p w s = Ok (c, w', s) /\ flushable w' s J /\ live w' s a p o'.
Proof.
  intros F Lv. pose proof (live_flush _ _ _ _ _ _ F Lv) as [L1 L2 L3 L4 L5]. pose proof Lv as (Lp & Lo & Ld).
  unfold obj_Code, bindS, get_obj, retS, getDb, put_obj. rewrite Lo.
  destruct (code o) as [c|]; [by exists (Some c), w, o|]. case_bool_decide; [by exists None, w, o|].
  assert (Q : forall o', address o' = address o -> data o' = data o -> deleted o' = deleted o -> suicided o' = suicided o ->
    onDirty o' = onDirty o -> dirtyStorage o' = dirtyStorage o -> cachedStorage o' = cachedStorage o -> otrie o' = otrie o ->
    flushable (put w p o') s J /\ live (put w p o') s a p o').
  { intros o' E1 E2 E3 E4 E5 E6 E7 E8. apply (flush_quiet w _ s J a p o); try done; [by apply loads_same|by eapply put_wfresh, Lo; apply F|by left| |].
    - apply (obj_good_loads w); [by apply loads_same|]. apply (obj_good_same w o); try done. by rewrite E2.
    - intros k _. unfold o_storage, storage_trie. by rewrite E7, E8, E2. }
  destruct (db_get _ _) as [c|].
  - exists (Some c), (put w p (set_code o (Some c))), (set_code o (Some c)). split; [done|]. by apply Q.
  - exists None, (put w p (setError o NoCode)), (setError o NoCode). split; [done|].
    apply Q; unfold setError; by destruct (dbErr o).
Qed.

(** The object after its storage trie has been opened. *)
Record got_trie w s J a p o (tp : nat) (t : T) (f : bytes -> bytes) w' o' : Prop := {
  gt_flushable : flushable w' s J;
  gt_live : live w' s a p o';
  gt_storage k : o_storage w' o' k = o_storage w o k;
  gt_cached : cachedStorage o' = cachedStorage o;
  gt_dirty : dirtyStorage o' = dirtyStorage o;
  gt_data : data o' = data o;
  gt_address : address o' = address o;
  gt_suicided : suicided o' = suicided o;
  gt_onDirty : onDirty o' = onDirty o;
  gt_otrie : otrie o' = Some tp;
  gt_trie : tries w' !! tp = Some t;
  gt_opened : storage_trie w o = Some t;
  gt_holds : holds (wdb w) t f;
  gt_db : wdb w' = wdb w;
  gt_others q : q <> p -> objs w' !! q = objs w !! q;
  gt_loads : loads w w';
  gt_clean k v : cachedStorage o !! k = Some v -> dirtyStorage o !! k = None -> v = f k
}.

Lemma opened_got w s J a p o o' t f :
  flushable w s J -> live w s a p o -> otrie o = None -> storage_trie w o = Some t -> holds (wdb w) t f ->
  (forall k v, cachedStorage o !! k = Some v -> dirtyStorage o !! k = None -> v = f k) ->
  address o' = address o -> data o' = data o -> deleted o' = deleted o -> suicided o' = suicided o ->
  onDirty o' = onDirty o -> dirtyStorage o' = dirtyStorage o -> cachedStorage o' = cachedStorage o -> otrie o' = Some (next w) ->
  got_trie w s J a p o (next w) t f (opened w p o' t) o'.
Proof.
  intros F Lv Eo Et O C E1 E2 E3 E4 E5 E6 E7 E8.
  pose proof (live_flush _ _ _ _ _ _ F Lv) as [_ [_ G2 G3 G4] _ _ _]. pose proof Lv as (Lp & Lo & Ld). set (w' := opened w p o' t).
  assert (Fr : tries w !! next w = None) by (apply (f_fresh _ _ _ F); lia).
  assert (L : loads w w').
  { split; [split; [done|]|]; cbn.
    - intros tp x Ex. exists x. split; [|by split]. rewrite lookup_insert_ne; [done|congruence].
    - intros tp x x' Ex. rewrite lookup_insert_ne by congruence. congruence. }
  assert (Es : storage_trie w' o' = Some t) by (unfold storage_trie; rewrite E8; apply lookup_insert_eq).
  assert (Est : forall k, o_storage w' o' k = o_storage w o k) by (intros k; unfold o_storage; by rewrite E7, Es, Et).
  destruct (flush_quiet w w' s J a p o o') as [F' Lv']; try done.
  - intros q Hq. cbn in *. destruct (f_fresh _ _ _ F q ltac:(lia)).
    split; rewrite lookup_insert_ne; try done; [intros ->; congruence|lia].
  - right. split; [done|]. cbn. rewrite lookup_insert_eq. eauto.
  - split; rewrite ?E1, ?E6, ?E7; [|done..]. by exists t, f.
  - split; try done; [cbn; apply lookup_insert_eq|]. intros q Hq. cbn. by rewrite lookup_insert_ne.
Qed.

Lemma flush_getTrie w s J a p o :
  flushable w s J -> live w s a p o ->
  exists tp t f w' o', getTrie p w s = Ok (tp, w', s) /\ got_trie w s J a p o tp t f w' o'.
Proof.
  intros F Lv. pose proof (live_flush _ _ _ _ _ _ F Lv) as [_ [(t & f & Et & O & C) _ _ _] _ _ _]. pose proof Lv as (_ & Lo & _).
  unfold getTrie, bindS, get_obj, retS, getDb. rewrite Lo. pose proof Et as Es. unfold storage_trie in Es.
  destruct (otrie o) as [tp|] eqn:Eo; [exists tp, t, f, w, o; split; [done|]; split; try done; by apply loads_same|].
  pose proof (fun o' => opened_got w s J a p o o' t f F Lv Eo Et O C) as Q. unfold open_storage in Es.
  destruct (st_new (wdb w) (Root (data o)) 0) as [x|e|]; [injection Es as ->| |done].
  - exists (next w), t, f, (opened w p (set_otrie o (Some (next w))) t), (set_otrie o (Some (next w))). split; [done|]. by apply Q.
  - destruct (st_new (wdb w) (zeros 32) 0) as [x| |]; [injection Es as ->|done..].
    set (o' := setError (set_otrie o (Some (next w))) NoStorageTrie). exists (next w), t, f, (opened w p o' t), o'.
    split; [done|]. apply Q; unfold o', setError; cbn; by destruct (dbErr o).
Qed.

Lemma flush_loads w w' s J : flushable w s J -> loads w w' -> objs w' = objs w -> wfresh w' -> flushable w' s J.
Proof.
  intros F L E Fr. pose proof (f_trie _ _ _ F) as HT. split; [by apply (has_trie_loads w w' s s)|..|done].
  - intros a Ka Na. apply (entry_good_loads w w' s s); [done..|]. by apply (f_entry _ _ _ F).
  - intros a p Ep. rewrite E. destruct (f_live _ _ _ F a p Ep) as (o & Eo & Lo). exists o. split; [done|].
    by apply (live_good_loads w w' s s).
  - apply F.
  - eapply Forall_impl; [apply (f_journal _ _ _ F)|]. intros [b|r| | | | | | |]; cbn; try done.
    { by rewrite (account_entry_loads w w' s s). }
    rewrite E. intros (x & Ex & [P1 P2 P3 (u & y & P4)]). exists x. split; [done|].
    split; [by eapply obj_good_loads|done|done|]. exists u, y. by rewrite E.
  - intros J1 a J2 p o EJ Hp. rewrite E. by apply (f_order _ _ _ F J1 a J2).
  - intros p o tp Eo Et. rewrite E in Eo. destruct (f_otrie _ _ _ F p o tp Eo Et) as [[t Ht] N]. split; [|done].
    destruct (wle_tries _ _ (ld_wle _ _ L) tp t Ht) as (t' & Ht' & _). eauto.
  - intros p q o x tp. rewrite E. apply (f_sep _ _ _ F).
Qed.

Lemma trie_Get_loads w s tp t key :
  tries w !! tp = Some t -> st_in (wdb w) t -> wfresh w ->
  exists w', trie_Get tp key w s = Ok (st_value (wdb w) t key, w', s) /\ loads w w' /\ objs w' = objs w /\ wfresh w'.
Proof.
  intros Et Hin Fr. destruct (trie_Get_ok w s tp t key Et (st_in_ok _ _ Hin) Fr) as (w' & E & W & Eo & _ & Fr').
  exists w'. split; [done|]. split; [|done]. split; [done|].
  unfold trie_Get, bindS, getDb, get_trie, liftS, put_trie, retS in E. rewrite Et in E.
  destruct (st_get (wdb w) t key) as [[v t2]| |] eqn:Eg; [|done..]. injection E as _ <-. cbn.
  intros tp' x x' Ex. rewrite lookup_insert. case_decide as Htp; [|congruence]. subst tp'. intros [= <-] _.
  assert (x = t) as -> by congruence. by eapply st_in_get.
Qed.

(** What a lookup in the storage trie gives. *)
Lemma decode_slot_run w s p v : word 32 v -> decode_slot p (slot_enc v) w s = Ok (v, w, s).
Proof.
  intros Hv. pose proof (slot_value_enc v Hv) as E. unfold slot_value in E. unfold decode_slot.
  destruct (0 <? len (slot_enc v)) eqn:Z0; [|unfold retS; by rewrite <- E].
  destruct (slot_enc_split v Hv) as [X|(k & X)]; [by rewrite X in Z0|]. rewrite X in *. unfold retS. by rewrite E.
Qed.

(** The cache may hold a slot that the trie has. *)
Lemma flush_cache w s J a p o key v :
  flushable w s J -> live w s a p o -> st_key key -> cachedStorage o !! key = None -> o_storage w o key = v ->
  let o' := set_storage o (<[key := v]> (cachedStorage o)) (dirtyStorage o) in
  flushable (put w p o') s J /\ live (put w p o') s a p o'.
Proof.
  intros F Lv Hk Ec Ev o'. pose proof (live_flush _ _ _ _ _ _ F Lv) as [_ [(t & f & Et & O & C) G2 G3 G4] _ _ _].
  pose proof Lv as (_ & Lo & _).
  assert (Ef : v = f key) by (rewrite <- Ev; unfold o_storage; rewrite Ec, Et, decide_True by done; by apply holds_slot).
  apply (flush_quiet w (put w p o') s J a p o o'); try done; [by apply loads_same|by eapply put_wfresh, Lo; apply F|by left|..].
  - split; cbn; [| | |done].
    + exists t, f. split; [done|]. split; [done|]. intros k u. rewrite lookup_insert. case_decide; [|apply C]. subst k. by intros [= <-].
    + intros k u Ek. rewrite lookup_insert. case_decide; [|by apply G2]. subst k. apply G2 in Ek. congruence.
    + intros k u. rewrite lookup_insert. case_decide; [|apply G3]. subst k. intros [= <-]. rewrite Ef. split; [done|by apply O].
  - intros k _. unfold o'. change (o_storage (put w p ?x) ?y k) with (o_storage w y k). rewrite o_storage_insert. case_decide; by subst.
Qed.

Lemma flush_GetState w s J a p o key :
  flushable w s J -> live w s a p o -> st_key key ->
  exists v w' o', obj_GetState p key w s = Ok (v, w', s) /\ flushable w' s J /\ live w' s a p o' /\ word 32 v.
Proof.
  intros F Lv Hk. unfold obj_GetState. unfold bindS at 1, get_obj at 1. pose proof Lv as (_ & Lo & _). rewrite Lo.
  pose proof (live_flush _ _ _ _ _ _ F Lv) as [_ [_ _ G3 _] _ _ _].
  destruct (cachedStorage o !! key) as [v|] eqn:Ec; [exists v, w, o; do 3 (split; [done|]); by apply (G3 key v)|].
  destruct (flush_getTrie w s J a p o F Lv) as (tp & t & f & w1 & o1 & Eg & [F1 Lv1 St1 Ch1 _ _ _ _ _ Ot1 Et1 Est O Edb _ _ _]).
  unfold bindS at 1. rewrite Eg. destruct (trie_Get_loads w1 s tp t key Et1) as (w2 & E2 & L2 & Eo2 & Fr2);
    [rewrite Edb; apply O|apply F1|].
  unfold bindS at 1. rewrite E2, Edb, (h_value _ _ _ O) by done.
  unfold bindS at 1. rewrite decode_slot_run by (by apply O). pose proof (flush_loads _ _ _ _ F1 L2 Eo2 Fr2) as F2.
  assert (Lv2 : live w2 s a p o1) by (destruct Lv1 as (? & ? & ?); split; [done|]; by rewrite Eo2).
  case_bool_decide; [exists (f key), w2, o1; do 3 (split; [done|]); by apply O|].
  pose proof (live_flush _ _ _ _ _ _ F1 Lv1) as [_ G1 _ _ _].
  destruct (flush_cache w2 s J a p o1 key (f key) F2 Lv2 Hk) as [F3 Lv3]; [by rewrite Ch1| |].
  - rewrite (o_storage_loads w1 w2), St1 by done. unfold o_storage. rewrite Ec, Est, decide_True by done. by apply holds_slot.
  - eexists (f key), _, _. split; [|split; [exact F3|split; [exact Lv3|by apply O]]].
    unfold bindS at 1, get_obj. destruct Lv2 as (_ & -> & _). done.
Qed.

(** A setter with an undo entry. *)
Lemma flush_journalled w s a p o o' e :
  flushable w s (journal s) -> live w s a p o -> address o' = a -> deleted o' = false -> onDirty o' = onDirty o ->
  otrie o' = otrie o -> obj_good w o' -> entry_fits w s e -> (forall b, e <> createObjectChange b) ->
  let s1 := set_journal s (journal s ++ [e]) (validRevisions s) in
  flushable (put w p (fired o')) (fire s1 o') (journal (fire s1 o')) /\ live (put w p (fired o')) (fire s1 o') a p (fired o').
Proof.
  intros F Lv Ea Ed En Et G Fe Ne s1. assert (F1 : flushable w s1 (journal s ++ [e])).
  { apply flushable_snoc; [by apply (flushable_state w s)| |by destruct e; try done; destruct (Ne account)].
    destruct e; try done; by destruct Fe as (x & Ex & []); exists x. }
  replace (journal (fire s1 o')) with (journal s ++ [e]); [by apply (flush_set w s1 _ a p o)|].
  unfold fire. by destruct (onDirty o').
Qed.

Definition flushed a p (m : total (unit * World T D * StateDB)) : Prop :=
  exists w' s' o', m = Ok (tt, w', s') /\ flushable w' s' (journal s') /\ live w' s' a p o'.

Lemma flushed_by w s a p o (g : StateObject -> StateObject) e :
  flushable w s (journal s) -> live w s a p o -> address (g o) = address o -> deleted (g o) = deleted o ->
  onDirty (g o) = onDirty o -> otrie (g o) = otrie o -> obj_good w (g o) -> entry_fits w s e -> (forall b, e <> createObjectChange b) ->
  flushed a p (bindS (append_journal e) (fun _ => bindS (get_obj p) (fun x => bindS (put_obj p (g x)) (fun _ => callOnDirty p))) w s).
Proof.
  intros F Lv E1 E2 E3 E4 G Fe Ne. pose proof (live_flush _ _ _ _ _ _ F Lv) as [L1 _ _ _ _]. pose proof Lv as (_ & Lo & Ld).
  destruct (flush_journalled w s a p o (g o) e) as [F' Lv']; try done; try congruence.
  eexists _, _, _. split; [|split; [exact F'|exact Lv']].
  unfold bindS at 1, append_journal, modify. unfold bindS at 1, get_obj. rewrite Lo. apply put_callOnDirty.
Qed.

Lemma good_data w o x : Root x = Root (data o) -> obj_good w o -> obj_good w (set_data o x).
Proof. intros E. by apply obj_good_same. Qed.

Lemma flush_SetBalance w s a p o amount :
  flushable w s (journal s) -> live w s a p o -> flushed a p (obj_SetBalance p amount w s).
Proof.
  intros F Lv. pose proof (live_flush _ _ _ _ _ _ F Lv) as [_ G _ _ _]. unfold obj_SetBalance, bindS at 1, get_obj at 1.
  pose proof Lv as (_ & -> & _). by apply (flushed_by w s a p o (fun x => set_balance x amount)); try done; [apply good_data|apply G].
Qed.

Lemma flush_SetNonce w s a p o nonce :
  flushable w s (journal s) -> live w s a p o -> flushed a p (obj_SetNonce p nonce w s).
Proof.
  intros F Lv. pose proof (live_flush _ _ _ _ _ _ F Lv) as [_ G _ _ _]. unfold obj_SetNonce, bindS at 1, get_obj at 1.
  pose proof Lv as (_ & -> & _). by apply (flushed_by w s a p o (fun x => set_nonce x nonce)); try done; [apply good_data|apply G].
Qed.

Lemma flush_SetCode w s a p o hash c :
  flushable w s (journal s) -> live w s a p o -> flushed a p (obj_SetCode p hash c w s).
Proof.
  intros F Lv. destruct (flush_Code w s _ a p o F Lv) as (c' & w1 & o1 & E & F1 & Lv1). unfold obj_SetCode, bindS at 1. rewrite E.
  pose proof (live_flush _ _ _ _ _ _ F1 Lv1) as [_ G _ _ _]. unfold bindS at 1, get_obj at 1. pose proof Lv1 as (_ & -> & _).
  apply (flushed_by w1 s a p o1 (fun x => set_dirtyCode (set_code (set_data x (mkAccount (Nonce (data x)) (Balance (data x)) (Root (data x)) hash)) c) true));
    try done; [by apply (obj_good_same w1 o1)|apply G].
Qed.

Lemma good_slot w o k v :
  st_key k -> word 32 v -> obj_good w o ->
  obj_good w (set_storage o (<[k := v]> (cachedStorage o)) (<[k := v]> (dirtyStorage o))).
Proof.
  intros Hk Hv [(t & f & Et & O & C) G2 G3 G4]. split; cbn; [| | |done].
  - exists t, f. split; [done|]. split; [done|]. intros k' u. rewrite !lookup_insert. case_decide; [done|apply C].
  - intros k' u. rewrite !lookup_insert. case_decide; [done|apply G2].
  - intros k' u. rewrite lookup_insert. case_decide; [subst; by intros [= <-]|apply G3].
Qed.

Lemma flush_SetState w s a p o k v :
  flushable w s (journal s) -> live w s a p o -> st_key k -> word 32 v -> flushed a p (obj_SetState p k v w s).
Proof.
  intros F Lv Hk Hv. destruct (flush_GetState w s _ a p o k F Lv Hk) as (u & w1 & o1 & E & F1 & Lv1 & Hu).
  unfold obj_SetState, bindS at 1. rewrite E. pose proof (live_flush _ _ _ _ _ _ F1 Lv1) as [_ G _ _ _].
  unfold bindS at 1, get_obj at 1. pose proof Lv1 as (_ & -> & _).
  apply (flushed_by w1 s a p o1 (fun x => set_storage x (<[k := v]> (cachedStorage x)) (<[k := v]> (dirtyStorage x)))); try done; [by apply good_slot|].
  split; [apply G|done].
Qed.

Lemma flush_AddBalance w s a p o amount :
  flushable w s (journal s) -> live w s a p o -> flushed a p (obj_AddBalance p amount w s).
Proof.
  intros F Lv. unfold obj_AddBalance, bindS at 1, get_obj at 1. pose proof Lv as (_ & -> & _).
  destruct (_ && _); [by exists w, s, o|by eapply flush_SetBalance].
Qed.

Lemma flush_SubBalance w s a p o amount :
  flushable w s (journal s) -> live w s a p o -> flushed a p (obj_SubBalance p amount w s).
Proof.
  intros F Lv. unfold obj_SubBalance, bindS at 1, get_obj at 1. pose proof Lv as (_ & -> & _).
  destruct (_ =? 0); [by exists w, s, o|by eapply flush_SetBalance].
Qed.

(** ** Finding and creating accounts *)


Lemma loaded_good w s J a x t f :
  flushable w s J -> st_key a -> account_entry w s a = account_enc x -> account_fits x -> st_new (wdb w) (Root x) 0 = Ok t ->
  holds (wdb w) t f -> has_root f (Root x) -> live_good w s a (loaded a x).
Proof.
  intros F Ka Ee Fx Et O R.
  assert (Es : storage_trie w (loaded a x) = Some t) by (unfold storage_trie, open_storage; cbn; by rewrite Et).
  split; [done| | |done|done].
  - split; [by exists t, f|done..].
  - right. split; cbn; [done|by destruct x|done|done|]. apply (has_root_ext f); [done|]. intros k Hk. unfold o_storage. rewrite Es, decide_True by done.
    symmetry. by apply holds_slot.
Qed.

Lemma flush_GetStateObject w s J a :
  flushable w s J -> known s a ->
  exists r w' s', GetStateObject a w s = Ok (r, w', s') /\ flushable w' s' J /\ journal s' = journal s /\
    match r with
    | Some p => exists o, live w' s' a p o
    | None => account_entry w' s' a = [] /\ (stateObjects s' !! a = None \/ exists p o, stateObjects s' !! a = Some p /\ objs w' !! p = Some o /\ deleted o = true)
    end.
Proof.
  intros F Kn. unfold GetStateObject, bindS, getS. destruct (stateObjects s !! a) as [p|] eqn:Ep.
  - destruct (f_live _ _ _ F a p Ep) as (o & Eo & [L1 L2 L3 L4 L5]). unfold get_obj, retS. rewrite Eo.
    destruct (deleted o) eqn:Ed; eexists _, w, s; (split; [done|]); (split; [done|]); (split; [done|]).
    + split; [by apply L5|]. right. by exists p, o.
    + by exists o.
  - pose proof (f_entry _ _ _ F a (Kn Ep) Ep) as En. destruct (f_trie _ _ _ F) as (t & Et & Hin).
    destruct (trie_Get_loads w s _ t a Et Hin (f_fresh _ _ _ F)) as (w1 & -> & L1 & Eo1 & Fr1).
    pose proof (flush_loads _ _ _ _ F L1 Eo1 Fr1) as F1.
    assert (Ee : account_entry w1 s a = account_entry w s a) by (apply account_entry_loads; [done|done|apply F]).
    replace (st_value (wdb w) t a) with (account_entry w s a) by (unfold account_entry; by rewrite Et).
    destruct En as [En|(x & tx & f & En & Fx & Ex & O & R)]; rewrite En.
    { exists None, w1, s. do 3 (split; [done|]). split; [congruence|by left]. }
    pose proof (account_enc_len x Fx) as Lx. rewrite (proj2 (Z.eqb_neq _ _)), (account_decode x Fx) by lia.
    set (s' := set_objects s (<[a := next w1]> (stateObjects s))).
    assert (Lg : live_good w1 s a (loaded a x)).
    { apply (loaded_good w1 s J a x tx f); try done; [apply Kn, Ep|by rewrite Ee|..]; by rewrite (wle_db _ _ (ld_wle _ _ L1)). }
    exists (Some (next w1)), (add_obj w1 (loaded a x)), s'. split.
    { unfold setStateObject, bindS, get_obj, alloc_obj, modify, retS. cbn. by rewrite lookup_insert_eq. }
    assert (Fw : objs w1 !! next w1 = None) by (apply (f_fresh _ _ _ F1); lia).
    split; [|split; [done|]]. 2: { exists (loaded a x). split; [apply lookup_insert_eq|]. split; [apply lookup_insert_eq|done]. }
    apply (flushable_attach w1 s J _ s' a (next w1) (loaded a x)); try done.
    + by apply add_obj_fresh.
    + cbn. apply lookup_insert_eq.
    + intros r Hr. cbn. by rewrite lookup_insert_ne.
    + right. by split.
    + apply union_subseteq_r.
    + apply (live_good_loads w1 _ s s'); [by apply loads_same|done|apply F1|done|done].
Qed.

Lemma fresh_good w a balance : st_key a -> obj_good w (fresh_object StartingNonce a balance).
Proof.
  intros Ka. destruct (st_new_empty (wdb w) 0) as (t & Et & Ot & Vt). split; try done.
  exists t, (fun _ => zeros 32). split; [unfold storage_trie, open_storage; cbn [fresh_object otrie data Root]; by rewrite Et|]. split; [|done].
  split; [by eapply st_in_new|intros k _; by split; [apply Forall_replicate|]|]. intros k _. rewrite Vt. unfold slot_enc.
  by rewrite decide_True.
Qed.

Lemma flush_created w s a r balance :
  flushable w s (journal s) -> st_key a ->
  match r with
  | Some p => exists o, live w s a p o
  | None => account_entry w s a = [] /\ (stateObjects s !! a = None \/ exists p o, stateObjects s !! a = Some p /\ objs w !! p = Some o /\ deleted o = true)
  end ->
  let w' := add_obj w (fresh_object StartingNonce a balance) in
  let s' := created_state s a r (next w) in
  flushable w' s' (journal s') /\ live w' s' a (next w) (fresh_object StartingNonce a balance).
Proof.
  intros F Ka Fd w' s'. set (o := fresh_object StartingNonce a balance).
  assert (Nw : objs w !! next w = None) by (apply (f_fresh _ _ _ F); lia).
  assert (L : loads w w') by by apply loads_same.
  assert (Go : obj_good w' o) by by apply fresh_good.
  assert (Lv : live w' s' a (next w) o) by (split; [apply lookup_insert_eq|]; split; [apply lookup_insert_eq|done]).
  assert (F' : flushable w' s' (journal s)).
  { apply (flushable_attach w s _ w' s' a (next w) o); try done; [apply add_obj_fresh, F|apply lookup_insert_eq| |by right|apply union_subseteq_r|].
    - intros q Hq. cbn. by rewrite lookup_insert_ne.
    - assert (Ha : a ∈ stateObjectsDirty s') by (by apply elem_of_union_l, elem_of_singleton). split; try done. by left. }
  split; [|done]. change (journal s') with (journal s ++ [creation a r]). apply flushable_snoc; [done|..]; destruct r as [p|]; cbn.
  - destruct Fd as (x & Lx). pose proof (live_flush _ _ _ _ _ _ F Lx) as [L1 L2 _ _ _]. destruct Lx as (Ep & Eo & Ed).
    exists x. split; [rewrite lookup_insert_ne; [done|congruence]|]. split; [by eapply obj_good_loads|done| |]; rewrite L1.
    + by apply elem_of_union_l, elem_of_singleton.
    + exists (next w), o. split; [apply lookup_insert_eq|]. split; [apply lookup_insert_eq|done].
  - split; [done|]. destruct Fd as [Fd _]. rewrite (account_entry_loads w w' s s'); [done|done|done|apply F].
  - done.
  - intros p x Hp Ex. destruct (proj1 (Forall_forall _ _) (f_journal _ _ _ F) _ Hp) as (y & Ey & [_ _ _ (q & z & P1 & P2 & P3)]).
    rewrite lookup_insert_ne in Ex by congruence. assert (y = x) as -> by congruence. intros Ea. rewrite Ea in P1.
    destruct Fd as [_ [N|(q' & z' & N1 & N2 & N3)]]; congruence.
Qed.

Lemma flush_GetOrNew w s a :
  flushable w s (journal s) -> st_key a ->
  exists p w' s' o, GetOrNewStateObject StartingNonce a w s = Ok (p, w', s') /\ flushable w' s' (journal s') /\ live w' s' a p o.
Proof.
  intros F Ka. destruct (flush_GetStateObject w s _ a F (fun _ => Ka)) as (r & w1 & s1 & Eg & F1 & J1 & R). rewrite <- J1 in F1.
  unfold GetOrNewStateObject. unfold bindS at 1. rewrite Eg. destruct r as [p|].
  - destruct R as (o & Lv). exists p, w1, s1, o. split; [|done]. unfold bindS, get_obj. destruct Lv as (_ & -> & ->). done.
  - destruct (flush_GetStateObject w1 s1 _ a F1 (fun _ => Ka)) as (r2 & w2 & s2 & Eg2 & F2 & J2 & R2). rewrite <- J2 in F2.
    destruct (flush_created w2 s2 a r2 0 F2 Ka R2) as [F3 Lv3]. eexists _, _, _, _. split; [|split; [exact F3|exact Lv3]].
    unfold bindS. by rewrite (createObject_run StartingNonce a w1 s1 r2 w2 s2 Eg2).
Qed.

Lemma flush_CreateAccount w s a :
  flushable w s (journal s) -> st_key a ->
  exists p w' s' o, CreateAccount StartingNonce a w s = Ok (p, w', s') /\ flushable w' s' (journal s') /\ live w' s' a p o.
Proof.
  intros F Ka. destruct (flush_GetStateObject w s _ a F (fun _ => Ka)) as (r & w1 & s1 & Eg & F1 & J1 & R). rewrite <- J1 in F1.
  unfold CreateAccount. unfold bindS at 1. rewrite (createObject_run StartingNonce a w s r w1 s1 Eg).
  pose proof (fun b => flush_created w1 s1 a r b F1 Ka R) as C. destruct r as [p|].
  - destruct R as (o & Lv). pose proof Lv as (Lp & Lo & Ld). destruct (C (Balance (data o))) as [F2 Lv2].
    eexists _, _, _, _. split; [|split; [exact F2|exact Lv2]]. unfold bindS at 1, get_obj at 1. cbn [objs add_obj].
    assert (Nw : objs w1 !! next w1 = None) by (apply (f_fresh _ _ _ F1); lia).
    rewrite lookup_insert_ne, Lo by congruence.
    unfold setBalance, bindS, get_obj, put_obj, callOnDirty, retS. cbn. rewrite lookup_insert_eq. cbn.
    unfold bindS, get_obj. cbn. rewrite lookup_insert_eq. cbn. unfold retS, add_obj. by rewrite insert_insert_eq.
  - destruct (C 0) as [F2 Lv2]. eexists _, _, _, _. split; [|split; [exact F2|exact Lv2]]. done.
Qed.

Lemma flush_Suicide w s a :
  flushable w s (journal s) -> st_key a ->
  exists x w' s', Suicide a w s = Ok (x, w', s') /\ flushable w' s' (journal s').
Proof.
  intros F Ka. destruct (flush_GetStateObject w s _ a F (fun _ => Ka)) as (r & w1 & s1 & Eg & F1 & J1 & R). rewrite <- J1 in F1.
  unfold Suicide. unfold bindS at 1. rewrite Eg. destruct r as [p|]; [|by exists false, w1, s1].
  destruct R as (o & Lv). pose proof Lv as (Lp & Lo & Ld). pose proof (live_flush _ _ _ _ _ _ F1 Lv) as [L1 G _ _ _].
  set (o' := set_balance (set_suicided o true) 0).
  destruct (flush_journalled w1 s1 a p o o' (suicideChange a (suicided o) (Balance (data o)))) as [F' _]; try done;
    [by apply (obj_good_same w1 o)|].
  eexists true, _, _. split; [|exact F'].
  unfold bindS at 1, get_obj at 1. rewrite Lo.
  unfold bindS at 1, append_journal, modify. unfold bindS at 1, markSuicided. unfold bindS at 1, get_obj at 1. rewrite Lo.
  rewrite put_callOnDirty. unfold bindS, get_obj, put_obj, retS. cbn. rewrite lookup_insert_eq. unfold put. cbn.
  rewrite insert_insert_eq. unfold fired, fire, o'. cbn. by destruct (onDirty o).
Qed.

(** ** Undoing *)

(** An undo that puts fields back. *)
Lemma undo_field w s J a (g : StateObject -> StateObject) w' s' :
  flushable w s J -> st_key a ->
  (forall w o, obj_good w o -> address (g o) = address o /\ deleted (g o) = deleted o /\ onDirty (g o) = onDirty o /\
     otrie (g o) = otrie o /\ obj_good w (g o)) ->
  (let! so := GetStateObject a in
   match so with
   | Some p => bindS (get_obj p) (fun x => bindS (put_obj p (g x)) (fun _ => callOnDirty p))
   | None => panicS
   end) w s = Ok (tt, w', s') -> flushable w' s' J /\ journal s' = journal s.
Proof.
  intros F Ka Hg E. destruct (flush_GetStateObject w s J a F (fun _ => Ka)) as (r & w1 & s1 & Eg & F1 & J1 & R).
  unfold bindS at 1 in E. rewrite Eg in E. destruct r as [p|]; [|done]. destruct R as (o & Lv). pose proof Lv as (Lp & Lo & Ld).
  pose proof (live_flush _ _ _ _ _ _ F1 Lv) as [L1 G _ _ _]. destruct (Hg w1 o G) as (E1 & E2 & E3 & E4 & G').
  unfold bindS at 1, get_obj in E. rewrite Lo, put_callOnDirty in E. injection E as <- <-.
  destruct (flush_set w1 s1 J a p o (g o)) as [F2 _]; try done; try congruence. split; [done|].
  by rewrite (proj1 (proj2 (proj2 (fire_same s1 (g o))))).
Qed.

(** The object of an address is forgotten. *)
Lemma flushable_forget w s J a p o :
  flushable w s (J ++ [createObjectChange a]) -> live w s a p o ->
  flushable (put w p (set_deleted o true))
    (set_dirty (set_objects s (base.delete a (stateObjects s))) (stateObjectsDirty s ∖ {[a]})) J.
Proof.
  intros F Lv. set (w' := put _ _ _). set (s' := set_dirty _ _).
  assert (Hj : createObjectChange a ∈ J ++ [createObjectChange a]) by (apply elem_of_app; right; by apply list_elem_of_singleton).
  destruct (proj1 (Forall_forall _ _) (f_journal _ _ _ F) _ Hj) as [Ka En].
  assert (Hn : forall p o, resetObjectChange p ∈ J -> objs w !! p = Some o -> address o <> a) by (intros q x; by apply (f_order _ _ _ F J a [] q x)).
  apply flushable_prefix in F. pose proof Lv as (Lp & Lo & Ld). pose proof (live_flush _ _ _ _ _ _ F Lv) as [L1 G _ _ _].
  assert (L : loads w w') by by apply loads_same.
  destruct (put_otrie w s J w' s' p o (set_deleted o true)) as [T1 T2]; [done..|by left|].
  assert (Other : forall q, q <> p -> objs w' !! q = objs w !! q) by (intros q Hq; cbn; by rewrite lookup_insert_ne).
  split; [apply F|..|done|done|by eapply put_wfresh, Lo; apply F].
  - intros b Kb. cbn [stateObjects s' set_dirty set_objects]. destruct (decide (b = a)) as [->|Hb]; [by left|].
    rewrite lookup_delete_ne by done. by apply (f_entry _ _ _ F).
  - intros b q. cbn [stateObjects s' set_dirty set_objects]. intros [Hb Eq]%lookup_delete_Some. assert (q <> p) by (intros ->; by destruct Hb; symmetry; eapply live_only).
    rewrite Other by done. destruct (f_live _ _ _ F b q Eq) as (x & Ex & [M1 M2 M3 M4 M5]). exists x. split; [done|].
    split; [done|by eapply obj_good_loads| | |done].
    + destruct M3 as [?|Y]; [left; apply elem_of_difference; split; [done|by intros ?%elem_of_singleton]|right].
      by apply (synced_loads w w' s s'); try done; apply F.
    + intros ?. apply elem_of_difference. split; [auto|by intros ?%elem_of_singleton].
  - intros b [Hb Na]%elem_of_difference. cbn. rewrite lookup_delete_ne by (by intros ->; apply Na, elem_of_singleton).
    by apply (f_dirty _ _ _ F).
  - apply Forall_forall. intros e He. pose proof (proj1 (Forall_forall _ _) (f_journal _ _ _ F) e He) as Fe.
    destruct e as [b|q| | | | | | |]; cbn in Fe |- *; try done. destruct Fe as (x & Ex & [P1 P2 P3 (u & y & P4 & P5 & P6)]).
    pose proof (Hn q x He Ex) as Na. assert (q <> p) by (intros ->; congruence). assert (u <> p) by (intros ->; destruct Na; by eapply live_only).
    exists x. split; [by rewrite lookup_insert_ne|]. split; [by eapply obj_good_loads|done| |].
    + apply elem_of_difference. split; [done|by intros ?%elem_of_singleton].
    + exists u, y. cbn. rewrite lookup_delete_ne, lookup_insert_ne by congruence. done.
  - intros J1 b J2 q x EJ Hq. cbn. rewrite lookup_insert. case_decide as Hqp; [|by apply (f_order _ _ _ F J1 b J2 q x)].
    subst q. intros [= <-]. by apply (f_order _ _ _ F J1 b J2 p o).
Qed.

Lemma undo_created w s J a w' s' :
  flushable w s (J ++ [createObjectChange a]) -> undo (createObjectChange a) w s = Ok (tt, w', s') ->
  flushable w' s' J /\ journal s' = journal s.
Proof.
  intros F E. assert (Hj : createObjectChange a ∈ J ++ [createObjectChange a]) by (apply elem_of_app; right; by apply list_elem_of_singleton).
  destruct (proj1 (Forall_forall _ _) (f_journal _ _ _ F) _ Hj) as [Ka _].
  destruct (flush_GetStateObject w s _ a F (fun _ => Ka)) as (r & w1 & s1 & Eg & F1 & J1 & R).
  cbn in E. unfold with_object in E. unfold bindS at 1 in E. rewrite Eg in E. destruct r as [p|]; [|done]. destruct R as (o & Lv).
  pose proof Lv as (Lp & Lo & Ld). unfold bindS, get_obj, put_obj, modify in E. rewrite Lo in E. injection E as <- <-.
  split; [|done]. by apply flushable_forget.
Qed.

Lemma undo_put_back w s J q w' s' :
  flushable w s (J ++ [resetObjectChange q]) -> undo (resetObjectChange q) w s = Ok (tt, w', s') ->
  flushable w' s' J /\ journal s' = journal s.
Proof.
  intros F E. assert (Hj : resetObjectChange q ∈ J ++ [resetObjectChange q]) by (apply elem_of_app; right; by apply list_elem_of_singleton).
  destruct (proj1 (Forall_forall _ _) (f_journal _ _ _ F) _ Hj) as (o & Eo & [P1 P2 P3 P4]). apply flushable_prefix in F.
  cbn in E. unfold setStateObject, bindS, get_obj, modify in E. rewrite Eo in E. injection E as <- <-. split; [|done].
  apply (flushable_attach w s J w _ (address o) q o); try done; [apply F|by left|apply union_subseteq_r|].
  split; [done|done|by left|done|congruence].
Qed.

Lemma undo_flush w s J e w' s' :
  flushable w s (J ++ [e]) -> undo e w s = Ok (tt, w', s') -> flushable w' s' J /\ journal s' = journal s.
Proof.
  intros F E. assert (Fe : entry_fits w s e).
  { apply (proj1 (Forall_forall _ _) (f_journal _ _ _ F)), elem_of_app. right. by apply list_elem_of_singleton. }
  pose proof (flushable_prefix _ _ _ _ F) as F0.
  destruct e as [a|p|a prev bal|a prev|a prev|a k prev|a pc ph|prev|h]; cbn [entry_fits] in Fe.
  - by apply (undo_created w s J a).
  - by apply (undo_put_back w s J p).
  - cbn in E. destruct (flush_GetStateObject w s J a F0 (fun _ => Fe)) as (r & w1 & s1 & Eg & F1 & J1 & R).
    pose proof (undo_field w s J a (fun x => set_balance (set_suicided x prev) bal) w' s' F0 Fe) as U.
    unfold bindS at 1 in E. unfold bindS at 1 in U. rewrite Eg in E, U.
    destruct r as [p|]; [|injection E as <- <-; done]. apply U.
    { intros w0 o G. by repeat (split; [done|]); apply (obj_good_same w0 o). }
    rewrite <- E. unfold setBalance, bindS, get_obj, put_obj. destruct (objs w1 !! p) as [o|]; [|done].
    cbn. rewrite lookup_insert_eq. unfold callOnDirty, bindS, get_obj. cbn. rewrite !lookup_insert_eq. by rewrite insert_insert_eq.
  - apply (undo_field w s J a (fun x => set_balance x prev)); try done. intros w0 o G. repeat (split; [done|]). by apply good_data.
  - apply (undo_field w s J a (fun x => set_nonce x prev)); try done. intros w0 o G. repeat (split; [done|]). by apply good_data.
  - apply (undo_field w s J a (fun x => set_storage x (<[k := prev]> (cachedStorage x)) (<[k := prev]> (dirtyStorage x)))); try done; [apply Fe|].
    intros w0 o G. repeat (split; [done|]). by apply good_slot; try apply Fe.
  - apply (undo_field w s J a (fun x => set_dirtyCode (set_code (set_data x (mkAccount (Nonce (data x)) (Balance (data x)) (Root (data x))
      (BytesToHash ph))) pc) true)); try done. intros w0 o G. repeat (split; [done|]). by apply (obj_good_same w0 o).
  - injection E as <- <-. split; [|done]. by apply (flushable_state w s).
  - cbn in E. unfold bindS, getS, modify, panicS in E.
    destruct (default [] (logs s !! h)) as [|x [|y l]]; [done|..]; injection E as <- <-; (split; [|done]); by apply (flushable_state w s).
Qed.

Lemma flushable_undo_all w s J L w' s' :
  flushable w s (J ++ L) -> forS (rev L) undo w s = Ok (tt, w', s') -> flushable w' s' J /\ journal s' = journal s.
Proof.
  revert w s. induction L as [|e L IH] using rev_ind; intros w s F E.
  - rewrite app_nil_r in F. by injection E as <- <-.
  - rewrite rev_app_distr in E. cbn [rev app forS] in E. unfold bindS in E.
    destruct (undo e w s) as [[[[] w1] s1]| |] eqn:Eu; [|done..]. rewrite app_assoc in F.
    destruct (undo_flush w s (J ++ L) e w1 s1 F Eu) as [F1 J1]. destruct (IH w1 s1 F1 E) as [F2 J2]. split; [done|congruence].
Qed.

Lemma Revert_flush w s id w' s' :
  flushable w s (journal s) -> RevertToSnapshot id w s = Ok (tt, w', s') -> flushable w' s' (journal s').
Proof.
  intros F E. unfold RevertToSnapshot in E. unfold bindS at 1, getS in E. destruct (validRevisions s !! _) as [r|]; [|done].
  destruct (rev_id r =? id); [|done]. unfold bindS, modify in E.
  destruct (forS _ _ w s) as [[[[] w1] s1]| |] eqn:Eu; [|done..]. injection E as <- <-.
  rewrite <- (take_drop (journalIndex r) (journal s)) in F. destruct (flushable_undo_all _ _ _ _ _ _ F Eu) as [F1 J1].
  cbn. rewrite J1. by apply (flushable_state w1 s1).
Qed.

(** ** Calls *)

(** Keys in use and values of the right size. *)
Definition call_fits (c : call) : Prop :=
  in_use c /\ match c with CSetState _ k v => word 32 v | _ => True end.

#[export] Instance call_fits_dec c : Decision (call_fits c).
Proof. destruct c; apply _. Defined.

Lemma query_flush {X} w s a (m : nat -> M X) x y w' s' :
  flushable w s (journal s) -> st_key a ->
  (forall w s p o, flushable w s (journal s) -> live w s a p o ->
     exists z w' o', m p w s = Ok (z, w', s) /\ flushable w' s (journal s) /\ live w' s a p o') ->
  (let! so := GetStateObject a in match so with Some p => m p | None => retS x end) w s = Ok (y, w', s') ->
  flushable w' s' (journal s').
Proof.
  intros F Ka Hm E. destruct (flush_GetStateObject w s _ a F (fun _ => Ka)) as (r & w1 & s1 & Eg & F1 & J1 & R). rewrite <- J1 in F1.
  unfold bindS in E. rewrite Eg in E. destruct r as [p|]; [|by injection E as _ <- <-].
  destruct R as (o & Lv). destruct (Hm w1 s1 p o F1 Lv) as (z & w2 & o2 & E2 & F2 & _). rewrite E2 in E. by injection E as _ <- <-.
Qed.

Lemma change_flush w s a (m : nat -> M unit) w' s' :
  flushable w s (journal s) -> st_key a ->
  (forall w s p o, flushable w s (journal s) -> live w s a p o -> flushed a p (m p w s)) ->
  (let! p := GetOrNewStateObject StartingNonce a in m p) w s = Ok (tt, w', s') -> flushable w' s' (journal s').
Proof.
  intros F Ka Hm E. destruct (flush_GetOrNew w s a F Ka) as (p & w1 & s1 & o & Eg & F1 & Lv). unfold bindS in E. rewrite Eg in E.
  destruct (Hm w1 s1 p o F1 Lv) as (w2 & s2 & o2 & E2 & F2 & _). rewrite E2 in E. by injection E as <- <-.
Qed.

Lemma answering_inv {X} (f : X -> answer) (m : M X) w s x w' s' :
  answering f m w s = Ok (x, w', s') -> exists y, m w s = Ok (y, w', s').
Proof. unfold answering, bindS. destruct (m w s) as [[[y w1] s1]| |]; [|done..]. intros [= _ <- <-]. by exists y. Qed.

Lemma read_flush {X} w s a p o (g : StateObject -> X) :
  flushable w s (journal s) -> live w s a p o ->
  exists z w' o', bindS (get_obj p) (fun o => retS (g o)) w s = Ok (z, w', s) /\ flushable w' s (journal s) /\ live w' s a p o'.
Proof. intros F Lv. exists (g o), w, o. unfold bindS, get_obj. by destruct (Lv) as (_ & -> & _). Qed.

Lemma Exist_flush w s a x w' s' :
  flushable w s (journal s) -> st_key a -> Exist a w s = Ok (x, w', s') -> flushable w' s' (journal s').
Proof.
  intros F Ka E. apply (query_flush w s a (fun _ => retS true) false x); [done|done|..].
  - intros w0 s0 p o F0 Lv. by exists true, w0, o.
  - rewrite <- E. unfold Exist, bindS. by destruct (GetStateObject a w s) as [[[[p|] ?] ?]| |].
Qed.

Lemma call_flush w s c x w' s' :
  flushable w s (journal s) -> call_fits c -> run_call StartingNonce c w s = Ok (x, w', s') -> flushable w' s' (journal s').
Proof.
  intros F [Ka Kv] E.
  destruct c as [a|a|a|a|a k|a|a|a| |h|a z|a z|a n|a c|a k v|a|a|z|l|th bh ti| |id]; cbn [run_call in_use] in *;
    apply answering_inv in E as [y E].
  1,2,4,6,8: eapply query_flush; [exact F|exact Ka| |exact E]; intros; by eapply read_flush.
  - eapply query_flush; [exact F|exact Ka| |exact E]. intros w0 s0 p o F0 Lv. by apply flush_Code with o.
  - eapply query_flush; [exact F|exact (proj1 Ka)| |exact E]. intros w0 s0 p o F0 Lv.
    destruct (flush_GetState w0 s0 _ a p o k F0 Lv (proj2 Ka)) as (v & w1 & o1 & E1 & F1 & Lv1 & _). by exists v, w1, o1.
  - by eapply Exist_flush.
  - by injection E as _ <- <-.
  - by injection E as _ <- <-.
  - destruct y. eapply change_flush; [exact F|exact Ka| |exact E]. intros w0 s0 p o. apply flush_AddBalance.
  - destruct y. eapply change_flush; [exact F|exact Ka| |exact E]. intros w0 s0 p o. apply flush_SetBalance.
  - destruct y. eapply change_flush; [exact F|exact Ka| |exact E]. intros w0 s0 p o. apply flush_SetNonce.
  - destruct y. eapply change_flush; [exact F|exact Ka| |exact E]. intros w0 s0 p o. apply flush_SetCode.
  - destruct y. eapply change_flush; [exact F|exact (proj1 Ka)| |exact E]. intros w0 s0 p o F0 Lv. by destruct Ka; apply flush_SetState with o.
  - destruct (flush_Suicide w s a F Ka) as (b & w1 & s1 & E1 & F1). rewrite E1 in E. by injection E as _ <- <-.
  - destruct (flush_CreateAccount w s a F Ka) as (p & w1 & s1 & o & E1 & F1 & _). rewrite E1 in E. by injection E as _ <- <-.
  - injection E as _ <- <-. cbn. apply flushable_snoc; [|done|done]. by apply (flushable_state w s).
  - injection E as _ <- <-. cbn. apply flushable_snoc; [|done|done]. by apply (flushable_state w s).
  - injection E as _ <- <-. cbn. by apply (flushable_state w s).
  - injection E as _ <- <-. cbn. by apply (flushable_state w s).
  - destruct y. by eapply Revert_flush.
Qed.

Lemma calls_flush w s cs xs w' s' :
  flushable w s (journal s) -> Forall call_fits cs -> run_calls StartingNonce cs w s = Ok (xs, w', s') -> flushable w' s' (journal s').
Proof.
  revert w s xs. induction cs as [|c cs IH]; intros w s xs F Fc E; cbn [run_calls] in E; [by injection E as _ <- <-|].
  apply Forall_cons in Fc as [Fc Fcs]. unfold bindS in E. destruct (run_call StartingNonce c w s) as [[[x w1] s1]| |] eqn:E1; [|done..].
  destruct (run_calls StartingNonce cs w1 s1) as [[[ys w2] s2]| |] eqn:E2; [|done..]. injection E as _ <- <-.
  eapply IH; [|done|exact E2]. by eapply call_flush.
Qed.

(** Both invariants: the accounts are those of the specification, and they can
    be written to the tries. *)
Definition sound w s (sp : spec) : Prop := inv w s sp /\ flushable w s (journal s).
End Flush.
