(* ===== verification/StateRoot.v ===== *)
(** * The state root

    [IntermediateRoot] of statedb.go writes the dirty accounts to the tries and
    returns the hash of the account trie.  It does not change the accounts,
    except that it removes those marked for suicide (and, after a fork, the
    empty ones that were touched), and the hash is determined by the accounts:
    by nonce, balance, code hash and storage of each, whatever calls, undo
    entries, caches and map orders led there. *)

From S2P Require Import Prelude RlpEncode RlpRaw RlpStream Helper Database Keccak Trie TrieHash StateTrie SecureTrie State StateSpec StateRefine StateFlush.

Section Root.
Context `{Hash256} `{StateTrieRoots T D} `{Database D} (del : bool).
Context (order : forall A, list A -> list A) (Order : forall A (l : list A), order A l ≡ₚ l).
Implicit Types (w : World T D) (s : StateDB) (o : StateObject).

Abbreviation flushable0 w s := (flushable del w s []).

(** ** Writing the storage of an object *)

Definition write (f : bytes -> bytes) (kv : bytes * bytes) : bytes -> bytes :=
  fun k => if decide (k = kv.1) then kv.2 else f k.

Lemma write_other l f k : k ∉ l.*1 -> foldl write f l k = f k.
Proof.
  revert f. induction l as [|[k1 v1] l IH]; intros f Hk; [done|]. cbn in *. apply not_elem_of_cons in Hk as [Hne Hk].
  rewrite IH by done. unfold write. cbn. by rewrite decide_False.
Qed.

Lemma write_in l f k v : NoDup l.*1 -> (k, v) ∈ l -> foldl write f l k = v.
Proof.
  revert f. induction l as [|[k1 v1] l IH]; intros f ND Hk; [by apply not_elem_of_nil in Hk|]. cbn in *.
  apply NoDup_cons in ND as [Hn ND]. apply elem_of_cons in Hk as [[= -> ->]|Hk]; [|by apply IH].
  rewrite write_other by done. unfold write. cbn. by rewrite decide_True.
Qed.

Definition with_world w p o tp (t : T) : World T D := mkWorld (wdb w) (<[p := o]> (objs w)) (<[tp := t]> (tries w)) (next w).

Definition forget o (k : bytes) : StateObject := set_storage o (cachedStorage o) (base.delete k (dirtyStorage o)).

(** One slot. *)
Lemma updateTrie_round_run w s p tp o t f k v :
  objs w !! p = Some o -> tries w !! tp = Some t -> holds (wdb w) t f -> slots_ok (wdb w) t -> st_key k -> word 32 v ->
  exists t', updateTrie_round p tp (k, v) w s = Ok (tt, with_world w p (forget o k) tp t', s) /\
    holds (wdb w) t' (write f (k, v)) /\ slots_ok (wdb w) t'.
Proof.
  intros Eo Et O [Ok' Sp] Hk Hv. destruct (slot_enc_ok v Hv) as [Bv Lv].
  assert (St : forall t', st_ok (wdb w) t' -> st_in (wdb w) t' ->
    (forall k', (st_value (wdb w) t' k' = slot_enc v /\ (st_key k' -> k' = k)) \/ (k' <> k /\ st_value (wdb w) t' k' = st_value (wdb w) t k')) ->
    holds (wdb w) t' (write f (k, v)) /\ slots_ok (wdb w) t').
  { intros t' O' I' V. split; [split; [done|..]|split; [done|]].
    - intros k' Hk'. unfold write. cbn. case_decide; [done|by apply O].
    - intros k' Hk'. unfold write. cbn. destruct (V k') as [[-> E]|[N ->]]; [by rewrite decide_True by auto|].
      rewrite decide_False by done. by apply O.
    - intros k'. destruct (V k') as [[-> _]|[_ ->]]; [|apply Sp]. intros _.
      destruct (slot_enc_split v Hv) as [->|(kd & ->)]; [by vm_compute|done]. }
  unfold updateTrie_round. unfold bindS at 1, get_obj. rewrite Eo. unfold bindS at 1, put_obj.
  unfold slot_enc in St. case_bool_decide as Ez.
  - destruct (st_delete_ok (wdb w) t k Ok' Hk) as (t' & E & O' & V). exists t'.
    rewrite decide_True in St by done. destruct (St t') as [H1' H2']; [done|apply (st_in_delete (wdb w) t k t' (h_in _ _ _ O) Hk E)|done|].
    split; [|done]. unfold trie_Delete, bindS, getDb, get_trie, liftS, put_trie. cbn. by rewrite Et, E.
  - rewrite decide_False in St by done. unfold slot_enc in Bv, Lv. rewrite decide_False in Bv, Lv by done.
    destruct (trimLeft_word v Hv) as (Tb & Tl & _).
    assert (Ee : EncodeToBytes TBytes (VBytes (trimLeft v)) = Ok (enc_string (trimLeft v))).
    { apply (EncodeToBytes_enc TBytes (VBytes (trimLeft v))); [done|]. cbn [enc]. lia. }
    rewrite Ee. destruct (st_update_ok (wdb w) t k _ Ok' Hk Bv Lv) as (t' & E & O' & V). exists t'.
    destruct (St t') as [H1' H2']; [done|apply (st_in_update (wdb w) t k _ t' (h_in _ _ _ O) Hk Bv Lv E)|done|].
    split; [|done]. unfold trie_Update, bindS, getDb, get_trie, liftS, put_trie. cbn. by rewrite Et, E.
Qed.

Lemma with_world_id w p o tp t : objs w !! p = Some o -> tries w !! tp = Some t -> with_world w p o tp t = w.
Proof. intros E1 E2. unfold with_world. rewrite (insert_id _ _ _ E1), (insert_id _ _ _ E2). by destruct w. Qed.

Lemma with_world_twice w p o1 o2 tp t1 t2 : with_world (with_world w p o1 tp t1) p o2 tp t2 = with_world w p o2 tp t2.
Proof. unfold with_world. cbn. by rewrite !insert_insert_eq. Qed.

Lemma updateTrie_loop l w s p tp o t f :
  objs w !! p = Some o -> tries w !! tp = Some t -> holds (wdb w) t f -> slots_ok (wdb w) t ->
  Forall (fun kv => st_key kv.1 /\ word 32 kv.2) l ->
  exists t', forS l (updateTrie_round p tp) w s = Ok (tt, with_world w p (foldl forget o l.*1) tp t', s) /\
    holds (wdb w) t' (foldl write f l) /\ slots_ok (wdb w) t'.
Proof.
  revert w o t f. induction l as [|[k v] l IH]; intros w o t f Eo Et O So Fl; cbn [forS foldl fmap list_fmap].
  - exists t. split; [|done]. by rewrite with_world_id.
  - apply Forall_cons in Fl as [[Hk Hv] Fl]. cbn in Hk, Hv.
    destruct (updateTrie_round_run w s p tp o t f k v Eo Et O So Hk Hv) as (t1 & E1 & O1 & S1). unfold bindS. rewrite E1.
    destruct (IH (with_world w p (forget o k) tp t1) (forget o k) t1 (write f (k, v))) as (t2 & E2 & O2 & S2);
      [apply lookup_insert_eq|apply lookup_insert_eq|done..|].
    exists t2. rewrite E2, with_world_twice. done.
Qed.

Definition clean o : StateObject := set_storage o (cachedStorage o) ∅.

Lemma forget_all o (l : list (bytes * bytes)) : l ≡ₚ map_to_list (dirtyStorage o) -> foldl forget o l.*1 = clean o.
Proof.
  intros P. assert (E : forall ks o, foldl forget o ks = set_storage o (cachedStorage o) (foldl (fun m k => base.delete k m) (dirtyStorage o) ks)).
  { clear. induction ks as [|k ks IH]; intros o; cbn; [by destruct o|]. by rewrite IH. }
  rewrite E. unfold clean. f_equal. apply map_eq. intros k. rewrite lookup_empty.
  assert (X : forall ks (m : gmap bytes bytes), k ∈ ks \/ m !! k = None -> foldl (fun m k => base.delete k m) m ks !! k = None).
  { clear. induction ks as [|k' ks IH]; intros m Hk; cbn; [destruct Hk as [Hk|?]; [by apply not_elem_of_nil in Hk|done]|].
    apply IH. rewrite elem_of_cons in Hk. destruct Hk as [[->|?]|Hm]; [right; apply lookup_delete_eq|by left|right].
    rewrite lookup_delete_None. auto. }
  apply X. destruct (dirtyStorage o !! k) as [v|] eqn:Ek; [left|by right]. apply list_elem_of_fmap. exists (k, v). split; [done|].
  rewrite P. by apply elem_of_map_to_list.
Qed.

(** The storage trie of an object and its root, after [updateRoot]. *)
Lemma updateRoot_run w s a p o :
  wf w s [] -> flushable0 w s -> live w s a p o ->
  exists w1 o1 tp t0 f0 t h, updateRoot order p w s = Ok (tt, with_world w1 p (set_Root (clean o1) h) tp t, s) /\
    quiet [] w s w1 s /\ got_trie del w s [] a p o tp t0 f0 w1 o1 /\
    holds (wdb w1) t (o_storage w1 o1) /\ slots_ok (wdb w1) t /\ word 32 h /\ has_root (o_storage w1 o1) h.
Proof.
  intros WF F Lv. destruct (flush_getTrie del w s [] a p o F Lv) as (tp & t0 & f0 & w1 & o1 & Eg & G). pose proof G as [F1 Lv1 _ Ch _ _ _ _ _ Ot Et0 Est O0 Edb _ _ Cl].
  destruct (getTrie_ok w s [] a p o WF Lv) as (tp' & t' & w1' & o1' & Eg' & Q & _ & _ & _ & _ & _ & So & Est' & _).
  rewrite Eg in Eg'. injection Eg' as <- <-. assert (t' = t0) as -> by congruence. clear Est' o1'.
  pose proof Lv1 as (_ & Lo1 & _). pose proof (live_flush _ _ _ _ _ _ _ F1 Lv1) as [_ [_ G2 G3 _] _ _ _].
  set (l := order _ (map_to_list (dirtyStorage o1))). assert (P : l ≡ₚ map_to_list (dirtyStorage o1)) by apply Order.
  assert (ND : NoDup l.*1) by (rewrite P; apply NoDup_fst_map_to_list).
  destruct (updateTrie_loop l w1 s p tp o1 t0 f0 Lo1 Et0) as (t2 & E2 & O2 & S2); [by rewrite Edb..| |].
  { apply Forall_forall. intros [k v] Hk. rewrite P in Hk. apply elem_of_map_to_list in Hk. apply (G3 k v). by apply G2. }
  rewrite (forget_all o1 l P) in E2.
  assert (O3 : holds (wdb w1) t2 (o_storage w1 o1)).
  { apply (holds_ext _ _ _ _ O2). intros k Hk. unfold o_storage. destruct (dirtyStorage o1 !! k) as [v|] eqn:Ed.
    - rewrite (G2 k v Ed). apply write_in; [done|]. rewrite P. by apply elem_of_map_to_list.
    - rewrite write_other.
      2: { intros ([k' v] & -> & Hk')%list_elem_of_fmap. rewrite P in Hk'. apply elem_of_map_to_list in Hk'. cbn in Ed. congruence. }
      destruct (cachedStorage o1 !! k) as [v|] eqn:Ec; [|unfold storage_trie; rewrite Ot, Et0, Edb, decide_True by done; symmetry; by apply holds_slot].
      symmetry. apply Cl; [by rewrite <- Ch|]. rewrite <- (gt_dirty _ _ _ _ _ _ _ _ _ _ _ _ G). done. }
  destruct S2 as [So2 Sp2]. destruct (st_hash_ok (wdb w1) t2 So2) as (h & t3 & Eh & Hw & So3 & V3).
  exists w1, o1, tp, t0, f0, t3, h. split; [|split; [done|split; [done|split; [|split; [|split; [done|]]]]]].
  - unfold updateRoot, updateTrie. unfold bindS at 1 2. rewrite Eg. unfold bindS at 1, get_obj at 1. rewrite Lo1. fold l.
    rewrite E2. unfold bindS at 1, get_obj at 1. cbn [objs with_world]. rewrite lookup_insert_eq. cbn [clean otrie set_storage]. rewrite Ot.
    unfold trie_Hash, bindS, get_trie, liftS, put_trie, retS, get_obj, put_obj. cbn. rewrite lookup_insert_eq, Eh. cbn. rewrite lookup_insert_eq.
    unfold with_world. cbn. by rewrite !insert_insert_eq.
  - apply (holds_same _ t2); [done| |done]. by eapply st_in_hash; [apply O3|].
  - split; [done|]. intros k. rewrite V3. apply Sp2.
  - exists (wdb w1), t2, t3. done.
Qed.

(** ** Writing an account *)

(** The object of an account, its storage trie and its entry change. *)
Record rewrote w s (a : bytes) p o w' o' (v : bytes) : Prop := {
  rw_db : wdb w' = wdb w;
  rw_next : next w' = next w;
  rw_ptr : stateObjects s !! a = Some p;
  rw_old : objs w !! p = Some o;
  rw_objs : objs w' = <[p := o']> (objs w);
  rw_tries tp : tp <> s_trie s -> otrie o <> Some tp -> tries w' !! tp = tries w !! tp;
  rw_dom tp : is_Some (tries w' !! tp) <-> is_Some (tries w !! tp);
  rw_trie : exists t, tries w' !! s_trie s = Some t /\ st_in (wdb w) t /\
    forall k, (st_value (wdb w) t k = v /\ (st_key k -> k = a)) \/ (k <> a /\ st_value (wdb w) t k = account_entry w s k);
  rw_address : address o' = address o;
  rw_otrie : otrie o' = otrie o
}.

#[local] Arguments rw_db {_ _ _ _ _ _ _ _} _.
#[local] Arguments rw_next {_ _ _ _ _ _ _ _} _.
#[local] Arguments rw_ptr {_ _ _ _ _ _ _ _} _.
#[local] Arguments rw_old {_ _ _ _ _ _ _ _} _.
#[local] Arguments rw_objs {_ _ _ _ _ _ _ _} _.
#[local] Arguments rw_tries {_ _ _ _ _ _ _ _} _ _ _ _.
#[local] Arguments rw_dom {_ _ _ _ _ _ _ _} _ _.
#[local] Arguments rw_trie {_ _ _ _ _ _ _ _} _.
#[local] Arguments rw_address {_ _ _ _ _ _ _ _} _.
#[local] Arguments rw_otrie {_ _ _ _ _ _ _ _} _.

Section Rewrote.
Context w s (a : bytes) p o w' o' (v : bytes) (F : flushable0 w s) (RW : rewrote w s a p o w' o' v).

Lemma rw_key : st_key a /\ address o = a.
Proof.
  destruct (f_live _ _ _ _ F a p (rw_ptr RW)) as (x & Ex & [L1 [_ _ _ G4] _ _ _]).
  rewrite (rw_old RW) in Ex. injection Ex as <-. by rewrite <- L1.
Qed.

Lemma rw_entry k : st_key k -> account_entry w' s k = if decide (k = a) then v else account_entry w s k.
Proof.
  intros Kk. destruct (rw_trie RW) as (t & Et & _ & V). unfold account_entry at 1.
  rewrite Et, (rw_db RW). destruct (V k) as [[-> E]|[N ->]]; [by rewrite decide_True by auto|by rewrite decide_False].
Qed.

Lemma rw_other q : q <> p -> objs w' !! q = objs w !! q.
Proof. intros Hq. rewrite (rw_objs RW). by rewrite lookup_insert_ne. Qed.

Lemma rw_storage q x : q <> p -> objs w !! q = Some x -> storage_trie w' x = storage_trie w x.
Proof.
  intros Hq Ex. unfold storage_trie. rewrite (rw_db RW). destruct (otrie x) as [tp|] eqn:Et; [|done].
  apply (rw_tries RW); [by apply (f_otrie _ _ _ _ F q x tp)|]. intros Eo. apply Hq.
  apply (f_sep _ _ _ _ F q p x o tp); [done|apply RW|done|done].
Qed.

Lemma rw_good q x : q <> p -> objs w !! q = Some x -> obj_good w x -> obj_good w' x.
Proof.
  intros Hq Ex [(t & f & Et & O & C) G2 G3 G4]. split; [|done..]. exists t, f.
  by rewrite (rw_storage q x), (rw_db RW).
Qed.

Lemma rw_o_storage q x k : q <> p -> objs w !! q = Some x -> o_storage w' x k = o_storage w x k.
Proof. intros Hq Ex. unfold o_storage. by rewrite (rw_storage q x), (rw_db RW). Qed.

Lemma rw_synced q x : q <> p -> objs w !! q = Some x -> st_key (address x) -> address x <> a -> synced w s x -> synced w' s x.
Proof.
  intros Hq Ex Kx Na [Y1 Y2 Y3 Y4 Y5]. split; [|done..|].
  - by rewrite rw_entry, decide_False.
  - apply (has_root_ext (o_storage w x)); [done|]. intros k _. symmetry. by apply (rw_o_storage q).
Qed.

Lemma rw_unique b q : stateObjects s !! b = Some q -> b <> a -> q <> p.
Proof.
  intros Eb Hb ->. destruct rw_key as [_ Ea]. destruct (f_live _ _ _ _ F b p Eb) as (x & Ex & [L1 _ _ _ _]).
  rewrite (rw_old RW) in Ex. injection Ex as <-. congruence.
Qed.

Lemma rewrote_flushable :
  a ∈ stateObjectsDirty s -> obj_good w' o' -> (deleted o' = true -> gone del o' = true /\ v = []) -> flushable0 w' s.
Proof.
  intros Ha G Dl. destruct rw_key as [Ka Ea]. destruct (rw_trie RW) as (t & Et & Hin & V).
  pose proof (rw_db RW) as Edb. split.
  - exists t. by rewrite Edb.
  - intros b Kb Nb. rewrite rw_entry by done. destruct (decide (b = a)) as [->|Hb]; [by rewrite (rw_ptr RW) in Nb|].
    rewrite Edb. by apply (f_entry _ _ _ _ F).
  - intros b q Eb. destruct (decide (b = a)) as [->|Hb].
    + rewrite (rw_ptr RW) in Eb. injection Eb as <-. exists o'. rewrite (rw_objs RW), lookup_insert_eq.
      split; [done|]. split; [by rewrite (rw_address RW)|done|by left|done|].
      by rewrite rw_entry, decide_True by done.
    + pose proof (rw_unique b q Eb Hb) as Hq. rewrite (rw_other q Hq). destruct (f_live _ _ _ _ F b q Eb) as (x & Ex & [L1 L2 L3 L4 L5]).
      assert (Kb : st_key b) by (rewrite <- L1; apply L2). exists x. split; [done|]. split; [done|by apply (rw_good q)| |done|].
      * destruct L3 as [?|Y]; [by left|right]. apply (rw_synced q); [done|done|apply L2|congruence|done].
      * by rewrite rw_entry, decide_False.
  - apply F.
  - done.
  - intros J1 c J2 q x EJ. by destruct J1.
  - assert (X : forall q x tp, objs w' !! q = Some x -> otrie x = Some tp -> exists y, objs w !! q = Some y /\ otrie y = Some tp).
    { intros q x tp. destruct (decide (q = p)) as [->|Hq]; [|rewrite (rw_other q Hq); eauto].
      rewrite (rw_objs RW), lookup_insert_eq. intros [= <-]. rewrite (rw_otrie RW).
      exists o. split; [apply RW|done]. }
    intros q x tp Ex Tx. destruct (X q x tp Ex Tx) as (y & Ey & Ty). rewrite (rw_dom RW). by apply (f_otrie _ _ _ _ F q y).
  - intros q r x y tp. destruct (decide (q = p)) as [->|Hq], (decide (r = p)) as [->|Hr]; [done|..];
      rewrite ?(rw_other _ Hq), ?(rw_other _ Hr), ?(rw_objs RW), ?lookup_insert_eq.
    + intros [= <-] Ey. rewrite (rw_otrie RW). apply (f_sep _ _ _ _ F p r o y tp); [apply RW|done].
    + intros Ex [= <-]. rewrite (rw_otrie RW). apply (f_sep _ _ _ _ F q p x o tp); [done|apply RW].
    + apply (f_sep _ _ _ _ F q r x y tp).
  - intros q Hq. rewrite (rw_next RW) in Hq. destruct (f_fresh _ _ _ _ F q Hq) as [N1 N2].
    rewrite (rw_other q) by (intros ->; rewrite (rw_old RW) in N1; done). split; [done|].
    destruct (tries w' !! q) eqn:E; [|done]. destruct (proj1 (rw_dom RW q)) as [? ?]; [eauto|congruence].
Qed.

Lemma trie_account_entry w0 b :
  (exists t, tries w0 !! s_trie s = Some t) ->
  trie_account w0 s b = if decide (st_key b) then
    if len (account_entry w0 s b) =? 0 then None else match decode_account (account_entry w0 s b) with Ok x => Some x | _ => None end
    else None.
Proof. intros (t & Et). unfold trie_account, account_entry. by rewrite Et. Qed.

Lemma rw_account b : b <> a -> trie_account w' s b = trie_account w s b.
Proof.
  intros Hb. destruct (rw_trie RW) as (t & Et & _). destruct (f_trie _ _ _ _ F) as (t0 & Et0 & _).
  rewrite !trie_account_entry by eauto. case_decide; [|done]. by rewrite rw_entry, decide_False.
Qed.

Lemma rw_obj_ok q x : q <> p -> objs w !! q = Some x -> obj_ok w x -> obj_ok w' x.
Proof. intros Hq Ex [(t & Et & S) L]. split; [|done]. exists t. by rewrite (rw_storage q x), (rw_db RW). Qed.

Lemma rewrote_wf :
  wf w s [] -> obj_ok w' o' -> (deleted o' = true -> v = []) -> (v <> [] -> decode_account v <> Panic) -> wf w' s [].
Proof.
  intros WF Oo Dl Dv. destruct rw_key as [Ka Ea]. destruct (rw_trie RW) as (t & Et & Hin & V). destruct (wf_trie _ _ _ WF) as (t0 & Et0 & [O1 O2 O3]).
  assert (EV : forall k, account_entry w s k = st_value (wdb w) t0 k) by (intros k; unfold account_entry; by rewrite Et0).
  pose proof (rw_db RW) as Edb. split; try done.
  - exists t. split; [done|]. split; rewrite Edb.
    + by apply st_in_ok.
    + intros b Kb. destruct (V b) as [[-> _]|[_ ->]]; [done|]. rewrite EV. by apply O2.
    + intros b x Kb Nb Ex. destruct (V b) as [[_ E]|[_ E]]; [specialize (E Kb); subst b; by rewrite (rw_ptr RW) in Nb|].
      rewrite E, EV in Ex. destruct (O3 b x Kb Nb Ex) as [(tx & Etx & S) L]. split; [|done]. exists tx.
      unfold storage_trie in *. cbn in *. by rewrite Edb.
  - intros b q Eb. destruct (decide (b = a)) as [->|Hb].
    + rewrite (rw_ptr RW) in Eb. injection Eb as <-. exists o'. rewrite (rw_objs RW), lookup_insert_eq. by rewrite (rw_address RW).
    + pose proof (rw_unique b q Eb Hb) as Hq. rewrite (rw_other q Hq). destruct (wf_live _ _ _ WF b q Eb) as (x & Ex & Ax & Ox).
      exists x. split; [done|]. split; [done|]. by apply (rw_obj_ok q).
  - intros p' Hp. by apply not_elem_of_nil in Hp.
  - constructor.
  - intros b q _. apply not_elem_of_nil.
  - intros b q x Eb. destruct (decide (b = a)) as [->|Hb].
    + rewrite (rw_ptr RW) in Eb. injection Eb as <-. rewrite (rw_objs RW), lookup_insert_eq. intros [= <-] Dx.
      rewrite trie_account_entry, rw_entry, !decide_True by eauto. by rewrite (Dl Dx).
    + rewrite (rw_other q (rw_unique b q Eb Hb)), rw_account by done. by apply (wf_gone _ _ _ WF).
  - intros b Hb. by apply not_elem_of_nil in Hb.
  - intros q Hq. rewrite (rw_next RW) in Hq. destruct (f_fresh _ _ _ _ F q Hq) as [N1 N2].
    rewrite (rw_other q) by (intros ->; rewrite (rw_old RW) in N1; done). split; [done|].
    destruct (tries w' !! q) eqn:E; [|done]. destruct (proj1 (rw_dom RW q)) as [? ?]; [eauto|congruence].
Qed.

Lemma rewrote_view b :
  wf w s [] -> option_Forall2 acct_eq (view w' s b)
    (if decide (b = a) then (if deleted o' then None else Some (oview w' o')) else view w s b).
Proof.
  intros WF. case_decide as Hb.
  - subst b. unfold view. by rewrite (rw_ptr RW), (rw_objs RW), lookup_insert_eq.
  - unfold view. destruct (stateObjects s !! b) as [q|] eqn:Eb.
    + pose proof (rw_unique b q Eb Hb) as Hq. rewrite (rw_other q Hq). destruct (objs w !! q) as [x|] eqn:Ex; [|constructor].
      destruct (deleted x); constructor. split; try done; cbn; [by rewrite (rw_db RW)|]. intros k. by apply (rw_o_storage q).
    + rewrite rw_account by done. destruct (trie_account w s b) as [x|]; constructor. split; try done; cbn.
      * by rewrite (rw_db RW).
      * intros k. unfold o_storage, storage_trie. cbn. by rewrite (rw_db RW).
Qed.
End Rewrote.

(** ** Settling the accounts *)

Definition acct_fits (x : acct) : Prop := 0 <= a_nonce x < 2 ^ 64 /\ 0 <= a_balance x < 2 ^ 256 /\ word 32 (a_codeHash x).

Definition acct_empty (x : acct) : bool := (a_nonce x =? 0) && (a_balance x =? 0) && bool_decide (a_codeHash x = emptyCodeHash).

(** What is left of an account that was touched. *)
Definition settle (r : option acct) : option acct :=
  match r with Some x => if a_suicided x || (del && acct_empty x) then None else Some x | None => None end.

Lemma settle_proper r1 r2 : option_Forall2 acct_eq r1 r2 -> option_Forall2 acct_eq (settle r1) (settle r2).
Proof.
  intros [x y [E1 E2 E3 E4 E5 E6]|]; [|constructor]. cbn. unfold acct_empty. rewrite E1, E2, E3, E6. case_match; by constructor.
Qed.

(** The entry of a live account is up to date. *)
Definition settled w s (a : bytes) : Prop :=
  exists p o, stateObjects s !! a = Some p /\ objs w !! p = Some o /\ ((deleted o = true /\ account_entry w s a = []) \/ synced w s o).

Lemma settled_rewrote w s a p o w' o' v b : flushable0 w s -> rewrote w s a p o w' o' v -> b <> a -> settled w s b -> settled w' s b.
Proof.
  intros F RW Hb (q & x & Eb & Ex & S). exists q, x. pose proof (rw_unique w s a p o w' o' v F RW b q Eb Hb) as Hq.
  destruct (f_live _ _ _ _ F b q Eb) as (x' & Ex' & [L1 [_ _ _ G4] _ _ _]). rewrite Ex in Ex'. injection Ex' as <-.
  split; [done|]. rewrite (rw_other w s a p o w' o' v RW q Hq). split; [done|]. destruct S as [[Dx E]|Y]; [left|right].
  - split; [done|]. rewrite (rw_entry w s a p o w' o' v RW), decide_False by congruence. done.
  - by apply (rw_synced w s a p o w' o' v F RW q); [..|congruence|].
Qed.

Lemma settled_got w s a p o tp t f w' o' b :
  flushable0 w s -> live w s a p o -> got_trie del w s [] a p o tp t f w' o' -> b <> a -> settled w s b -> settled w' s b.
Proof.
  intros F Lv G Hb (q & x & Eb & Ex & S). exists q, x.
  assert (Hq : q <> p) by (intros ->; apply Hb; by apply (live_only del w s [] a b p o)).
  destruct (f_live _ _ _ _ F b q Eb) as (x' & Ex' & [L1 L2 _ _ _]). rewrite Ex in Ex'. injection Ex' as <-.
  rewrite (gt_others _ _ _ _ _ _ _ _ _ _ _ _ G q Hq). split; [done|]. split; [done|].
  pose proof (gt_loads _ _ _ _ _ _ _ _ _ _ _ _ G) as L. pose proof (f_trie _ _ _ _ F) as HT.
  destruct S as [[Dx E]|Y]; [left|right; by apply (synced_loads w w' s s)]. split; [done|]. by rewrite (account_entry_loads w w' s s).
Qed.

(** What a round of the loop establishes. *)
Record round w s (a : bytes) w' : Prop := {
  rd_wf : wf w' s [];
  rd_flushable : flushable0 w' s;
  rd_settled : settled w' s a;
  rd_others b : b <> a -> settled w s b -> settled w' s b;
  rd_view b : option_Forall2 acct_eq (view w' s b) (if decide (b = a) then settle (view w s a) else view w s b)
}.

Lemma round_gone w s a p o :
  wf w s [] -> flushable0 w s -> a ∈ stateObjectsDirty s -> stateObjects s !! a = Some p -> objs w !! p = Some o -> gone del o = true ->
  exists w', deleteStateObject p w s = Ok (tt, w', s) /\ round w s a w'.
Proof.
  intros WF F Ha Ep Eo Hg. destruct (f_live _ _ _ _ F a p Ep) as (x & Ex & [L1 L2 _ _ L5]). rewrite Eo in Ex. injection Ex as <-.
  destruct (f_trie _ _ _ _ F) as (t & Et & Hin). assert (Ka : st_key a) by (rewrite <- L1; apply L2).
  destruct (st_delete_ok (wdb w) t a (st_in_ok _ _ Hin) Ka) as (t' & Ed & O' & V).
  set (o' := set_deleted o true). set (w' := mkWorld (wdb w) (<[p := o']> (objs w)) (<[s_trie s := t']> (tries w)) (next w)).
  exists w'. split.
  - unfold deleteStateObject, trie_Delete, bindS, get_obj, put_obj, getS, getDb, get_trie, liftS, put_trie. rewrite Eo. cbn. by rewrite L1, Et, Ed.
  - assert (RW : rewrote w s a p o w' o' []).
    { split; try done; cbn.
      - intros tp N _. by rewrite lookup_insert_ne by done.
      - intros tp. rewrite lookup_insert. case_decide; [subst tp; by rewrite Et; split; eauto|done].
      - exists t'. rewrite lookup_insert_eq. split; [done|]. split; [by eapply st_in_delete|]. intros k. unfold account_entry. rewrite Et. apply V. }
    assert (Es : storage_trie w' o' = storage_trie w o).
    { unfold storage_trie. cbn. destruct (otrie o) as [tp|] eqn:Eot; [|done]. destruct (f_otrie _ _ _ _ F p o tp Eo Eot) as [_ N].
      by rewrite lookup_insert_ne. }
    assert (Ee : account_entry w' s a = []) by (rewrite (rw_entry w s a p o w' o' [] RW a Ka); by rewrite decide_True).
    split.
    + apply (rewrote_wf w s a p o w' o' [] F RW WF); try done. destruct (wf_live _ _ _ WF a p Ep) as (x & Ex & _ & [Ox1 Ox2]).
      rewrite Eo in Ex. injection Ex as <-. split; [by rewrite Es|done].
    + apply (rewrote_flushable w s a p o w' o' [] F RW Ha); [|done]. destruct L2 as [G1 G2 G3 G4]. split; [by rewrite Es|done..].
    + exists p, o'. split; [done|]. split; [apply lookup_insert_eq|]. by left.
    + intros b. by apply (settled_rewrote w s a p o w' o' [] b F RW).
    + intros b. etrans; [by apply (rewrote_view w s a p o w' o' [] F RW b)|]. case_decide; [|done]. cbn.
      unfold view. rewrite Ep, Eo. destruct (deleted o); [constructor|]. cbn. unfold gone, empty in Hg. unfold acct_empty. cbn. rewrite Hg. constructor.
Qed.

(** An object whose storage trie and root have been updated. *)
Lemma cleaned_storage w1 o1 w' h tp t k :
  otrie o1 = Some tp -> tries w' !! tp = Some t -> wdb w' = wdb w1 -> holds (wdb w1) t (o_storage w1 o1) ->
  o_storage w' (set_Root (clean o1) h) k = o_storage w1 o1 k.
Proof.
  intros Ot Et Edb O. unfold o_storage at 1. cbn. unfold storage_trie. cbn. rewrite Ot, Et, Edb. case_decide as Hk.
  - rewrite (holds_slot _ _ _ _ O Hk). unfold o_storage. by destruct (cachedStorage o1 !! k).
  - unfold o_storage. destruct (cachedStorage o1 !! k); [done|]. by rewrite decide_False.
Qed.

Lemma cleaned_good w1 o1 w' h tp t :
  otrie o1 = Some tp -> tries w' !! tp = Some t -> wdb w' = wdb w1 -> holds (wdb w1) t (o_storage w1 o1) ->
  obj_good w1 o1 -> obj_good w' (set_Root (clean o1) h).
Proof.
  intros Ot Et Edb O [_ _ G3 G4]. split; cbn; [|done|done|done].
  exists t, (o_storage w1 o1). unfold storage_trie. cbn. rewrite Ot, Edb. split; [done|]. split; [done|].
  intros k v Ec _. unfold o_storage. by rewrite Ec.
Qed.

Lemma updateStateObject_run w s a p o :
  has_trie w s -> objs w !! p = Some o -> address o = a -> st_key a -> account_fits (data o) ->
  exists t, updateStateObject p w s = Ok (tt, mkWorld (wdb w) (objs w) (<[s_trie s := t]> (tries w)) (next w), s) /\ st_in (wdb w) t /\
    forall k, (st_value (wdb w) t k = account_enc (data o) /\ (st_key k -> k = a)) \/ (k <> a /\ st_value (wdb w) t k = account_entry w s k).
Proof.
  intros (t0 & Et & Hin) Eo Ea Ka Fx. pose proof (account_enc_ok _ Fx) as B. pose proof (account_enc_len _ Fx) as L.
  destruct (st_update_ok (wdb w) t0 a (account_enc (data o)) (st_in_ok _ _ Hin) Ka B ltac:(lia)) as (t & Eu & O & V).
  exists t. split; [|split; [by eapply st_in_update; [done|done|exact B|lia|done]|]].
  - unfold updateStateObject, trie_Update, bindS, get_obj. rewrite Eo, (account_encode _ Fx).
    unfold getS, getDb, get_trie, liftS, put_trie. by rewrite Et, Ea, Eu.
  - intros k. unfold account_entry. rewrite Et. apply V.
Qed.

Lemma round_kept w s a p o :
  wf w s [] -> flushable0 w s -> a ∈ stateObjectsDirty s -> live w s a p o -> gone del o = false -> acct_fits (oview w o) ->
  exists w', bindS (updateRoot order p) (fun _ => updateStateObject p) w s = Ok (tt, w', s) /\ round w s a w'.
Proof.
  intros WF F Ha Lv Hg (N & B & C). destruct (updateRoot_run w s a p o WF F Lv) as (w1 & o1 & tp & t0 & f0 & t & h & Eu & Q & G & O & So & Hw & R).
  pose proof (gt_flushable _ _ _ _ _ _ _ _ _ _ _ _ G) as F1. pose proof (gt_live _ _ _ _ _ _ _ _ _ _ _ _ G) as Lv1.
  pose proof (gt_otrie _ _ _ _ _ _ _ _ _ _ _ _ G) as Ot. pose proof (gt_data _ _ _ _ _ _ _ _ _ _ _ _ G) as Da.
  pose proof (gt_suicided _ _ _ _ _ _ _ _ _ _ _ _ G) as Su. pose proof Lv1 as (Lp & Lo & Ld).
  pose proof (live_flush _ _ _ _ _ _ _ F1 Lv1) as [L1 L2 _ _ _]. assert (Ka : st_key a) by (rewrite <- L1; apply L2).
  destruct (f_otrie _ _ _ _ F1 p o1 tp Lo Ot) as [[t1 Et1] Ntp]. destruct (f_trie _ _ _ _ F1) as (ta & Eta & Hin).
  set (o' := set_Root (clean o1) h) in *. set (w2 := with_world w1 p o' tp t) in *.
  assert (Fx : account_fits (data o')) by (unfold o'; cbn; rewrite Da; split; cbn; [exact N|exact B|done|exact C]).
  destruct (updateStateObject_run w2 s a p o') as (t' & E' & Hin' & V'); [|apply lookup_insert_eq|done..|].
  { exists ta. unfold w2. cbn. by rewrite lookup_insert_ne. }
  assert (Ew : forall k, account_entry w2 s k = account_entry w1 s k) by (intros k; unfold account_entry, w2; cbn; by rewrite lookup_insert_ne).
  set (w' := mkWorld (wdb w2) (objs w2) (<[s_trie s := t']> (tries w2)) (next w2)) in *.
  assert (Et' : tries w' !! tp = Some t) by (cbn; by rewrite lookup_insert_ne, lookup_insert_eq).
  assert (RW : rewrote w1 s a p o1 w' o' (account_enc (data o'))).
  { split; try done; cbn.
    - intros tp' N1 N2. rewrite Ot in N2. rewrite !lookup_insert_ne by congruence. done.
    - intros tp'. rewrite !lookup_insert. repeat case_decide; subst; rewrite ?Eta, ?Et1; by split; eauto.
    - exists t'. rewrite lookup_insert_eq. split; [done|]. split; [done|]. intros k. rewrite <- Ew. apply V'. }
  assert (Os : forall k, o_storage w' o' k = o_storage w1 o1 k) by (intros k; by apply (cleaned_storage w1 o1 w' h tp t)).
  assert (Vo : acct_eq (oview w' o') (oview w1 o1)) by (split; cbn; done). assert (Dl : deleted o' = false) by done.
  exists w'. split; [unfold bindS; by rewrite Eu|]. split.
  - apply (rewrote_wf w1 s a p o1 w' o' _ F1 RW (q_wf _ _ _ _ _ Q)); [|by rewrite Dl|by rewrite account_decode].
    split; [|apply (fit_code _ Fx)]. exists t. unfold storage_trie. cbn. by rewrite Ot.
  - apply (rewrote_flushable w1 s a p o1 w' o' _ F1 RW Ha); [by apply (cleaned_good w1 o1 w' h tp t)|by rewrite Dl].
  - exists p, o'. split; [done|]. split; [apply lookup_insert_eq|]. right. split; [|done| |done|].
    + unfold o' at 1. cbn. rewrite L1, (rw_entry w1 s a p o1 w' o' _ RW) by done. by rewrite decide_True.
    + split; [|done]. cbn. unfold gone in Hg. rewrite Su. by destruct (suicided o).
    + by apply (has_root_ext (o_storage w1 o1)).
  - intros b Hb Sb. apply (settled_rewrote w1 s a p o1 w' o' _ b F1 RW Hb). by apply (settled_got w s a p o tp t0 f0 w1 o1 b).
  - intros b. etrans; [by apply (rewrote_view w1 s a p o1 w' o' _ F1 RW b), Q|]. case_decide.
    + rewrite Dl, (live_view w s a p o Lv). cbn. unfold gone, empty in Hg. unfold acct_empty. cbn. rewrite Hg. constructor.
      etrans; [exact Vo|]. pose proof (eq_accts _ _ (q_abs _ _ _ _ _ Q) a) as X. cbn in X.
      rewrite (live_view w s a p o Lv), (live_view w1 s a p o1 Lv1) in X. by inversion X.
    + apply (eq_accts _ _ (q_abs _ _ _ _ _ Q) b).
Qed.

(** ** The loop *)

Lemma round_run w s a :
  wf w s [] -> flushable0 w s -> a ∈ stateObjectsDirty s -> (forall x, settle (view w s a) = Some x -> acct_fits x) ->
  exists w', IntermediateRoot_round order del a w s = Ok (tt, w', s) /\ round w s a w'.
Proof.
  intros WF F Ha Fx. destruct (f_dirty _ _ _ _ F a Ha) as [p Ep]. destruct (f_live _ _ _ _ F a p Ep) as (o & Eo & L).
  unfold IntermediateRoot_round, live_object. unfold bindS at 1 2, getS. rewrite Ep. unfold retS. unfold bindS at 1, get_obj. rewrite Eo.
  change (suicided o || (del && empty o)) with (gone del o). destruct (gone del o) eqn:Eg; [by apply (round_gone w s a p o)|].
  assert (Lv : live w s a p o) by (split; [done|split; [done|]]; destruct (deleted o) eqn:Ed; [|done]; destruct (l_deleted _ _ _ _ _ L Ed); congruence).
  apply (round_kept w s a p o); try done. apply Fx. rewrite (live_view w s a p o Lv). cbn. unfold gone, empty in Eg. unfold acct_empty. cbn. by rewrite Eg.
Qed.

Lemma acct_fits_eq x y : acct_eq x y -> acct_fits x -> acct_fits y.
Proof. intros [E1 E2 E3 _ _ _]. unfold acct_fits. by rewrite E1, E2, E3. Qed.

Lemma rounds_run l w s :
  wf w s [] -> flushable0 w s -> NoDup l -> (forall a, a ∈ l -> a ∈ stateObjectsDirty s) ->
  (forall a x, a ∈ l -> settle (view w s a) = Some x -> acct_fits x) ->
  exists w', forS l (IntermediateRoot_round order del) w s = Ok (tt, w', s) /\ wf w' s [] /\ flushable0 w' s /\
    (forall a, a ∈ l \/ settled w s a -> settled w' s a) /\
    forall b, option_Forall2 acct_eq (view w' s b) (if decide (b ∈ l) then settle (view w s b) else view w s b).
Proof.
  revert w. induction l as [|a l IH]; intros w WF F ND Sub Fx; cbn [forS].
  - exists w. do 3 (split; [done|]). split; [by intros a [Ha|?]; [apply not_elem_of_nil in Ha|]|].
    intros b. rewrite decide_False by apply not_elem_of_nil. reflexivity.
  - apply NoDup_cons in ND as [Na ND]. setoid_rewrite elem_of_cons in Sub. setoid_rewrite elem_of_cons in Fx.
    destruct (round_run w s a WF F) as (w1 & E1 & [W1 F1 S1 O1 V1]); [by apply Sub; left|by intros x; apply Fx; left|].
    destruct (IH w1 W1 F1 ND) as (w2 & E2 & W2 & F2 & S2 & V2); [by auto| |].
    { intros b x Hb Ex. specialize (V1 b). rewrite decide_False in V1 by (intros ->; done). apply settle_proper in V1.
      rewrite Ex in V1. destruct (settle (view w s b)) as [y|] eqn:Ey; inversion V1. eapply acct_fits_eq; [by symmetry|].
      by apply (Fx b); [right|]. }
    exists w2. unfold bindS. rewrite E1, E2. do 3 (split; [done|]). split.
    + intros b Hb. apply S2. rewrite elem_of_cons in Hb. destruct (decide (b = a)) as [->|Hne]; [by right|].
      destruct Hb as [[?|?]|?]; [done|by left|right; by apply O1].
    + intros b. etrans; [apply V2|]. specialize (V1 b). destruct (decide (b = a)) as [->|Hne].
      * rewrite decide_False by done. by rewrite decide_True by (apply elem_of_cons; by left).
      * destruct (decide (b ∈ l)) as [Hb|Hb]; [rewrite decide_True by (apply elem_of_cons; by right); by apply settle_proper|].
        rewrite decide_False; [done|]. by rewrite elem_of_cons; intros [?|?].
Qed.

(** ** Roots of accounts *)

(** The entry of an account: its fields with the root of its storage. *)
Definition entry_of (r : option acct) (e : bytes) : Prop :=
  match r with
  | Some x => exists h, has_root (a_storage x) h /\ e = account_enc (mkAccount (a_nonce x) (a_balance x) h (a_codeHash x))
  | None => e = []
  end.

(** [h] is the hash of a trie with the entries of the accounts. *)
Definition state_root (A : bytes -> option acct) (h : bytes) : Prop :=
  exists (d : D) (t t' : T), st_in d t /\ (forall a, st_key a -> entry_of (A a) (st_value d t a)) /\ st_hash t = Ok (h, t').

(** Accounts that differ at most in loaded code and marks. *)
Record acct_same (x y : acct) : Prop := {
  same_nonce : a_nonce x = a_nonce y;
  same_balance : a_balance x = a_balance y;
  same_codeHash : a_codeHash x = a_codeHash y;
  same_storage k : st_key k -> a_storage x k = a_storage y k
}.

Lemma acct_eq_same x y : acct_eq x y -> acct_same x y.
Proof. intros []. by split. Qed.

Lemma same_refl (r : option acct) : option_Forall2 acct_same r r.
Proof. destruct r; constructor. by split. Qed.

Lemma entry_of_same r1 r2 e1 e2 : option_Forall2 acct_same r1 r2 -> entry_of r1 e1 -> entry_of r2 e2 -> e1 = e2.
Proof.
  intros [x y [S1 S2 S3 S4]|]; cbn; [|congruence]. intros (h1 & R1 & ->) (h2 & R2 & ->).
  by rewrite S1, S2, S3, (root_unique _ _ h1 h2 R1 R2 S4).
Qed.

Lemma entry_of_eq r1 r2 e : option_Forall2 acct_eq r1 r2 -> entry_of r1 e -> entry_of r2 e.
Proof.
  intros [x y [S1 S2 S3 _ S4 _]|]; [|done]. intros (h & R & ->). exists h. rewrite S1, S2, S3. split; [|done].
  by apply (has_root_ext (a_storage x)).
Qed.

(** The root is a function of the accounts. *)
Lemma state_root_unique A B h1 h2 :
  state_root A h1 -> state_root B h2 -> (forall a, st_key a -> option_Forall2 acct_same (A a) (B a)) -> h1 = h2.
Proof.
  intros (d1 & t1 & t1' & I1 & V1 & E1) (d2 & t2 & t2' & I2 & V2 & E2) S.
  apply (st_hash_unique d1 d2 t1 t2 h1 h2 t1' t2'); [done..| |done|done]. intros k Hk. by eapply entry_of_same; [apply S|apply V1|apply V2].
Qed.

(** When every touched account is settled, the account trie has the entries of
    the accounts. *)
Lemma synced_entry w s a p o : live w s a p o -> address o = a -> synced w s o -> entry_of (view w s a) (account_entry w s a).
Proof.
  intros Lv Ea [Y1 _ _ _ Y5]. rewrite (live_view w s a p o Lv). cbn. exists (Root (data o)). split; [done|].
  rewrite <- Ea, Y1. by destruct (data o).
Qed.

Lemma settled_entries w s a :
  flushable0 w s -> (forall b, b ∈ stateObjectsDirty s -> settled w s b) -> st_key a -> entry_of (view w s a) (account_entry w s a).
Proof.
  intros F S Ka. destruct (stateObjects s !! a) as [p|] eqn:Ep.
  - destruct (f_live _ _ _ _ F a p Ep) as (o & Eo & [L1 _ L3 _ _]).
    assert (Sy : synced w s o -> entry_of (view w s a) (account_entry w s a)).
    { intros Y. apply (synced_entry w s a p o); [|done|done]. split; [done|]. split; [done|apply Y]. }
    destruct L3 as [Hd|Y]; [|by apply Sy]. destruct (S a Hd) as (p' & o' & Ep' & Eo' & X).
    rewrite Ep in Ep'. injection Ep' as <-. rewrite Eo in Eo'. injection Eo' as <-. destruct X as [[Dx Ee]|Y]; [|by apply Sy].
    unfold view. by rewrite Ep, Eo, Dx.
  - unfold view. rewrite Ep, trie_account_entry, decide_True; [|done|by destruct (f_trie _ _ _ _ F) as (t & Et & _); eauto].
    destruct (f_entry _ _ _ _ F a Ka Ep) as [E|(x & t & f & E & Fx & En & O & R)]; [by rewrite E|].
    rewrite E, (account_decode x Fx). pose proof (account_enc_len x Fx). destruct (Z.eqb_spec (len (account_enc x)) 0); [lia|].
    cbn. exists (Root x). split; [|by destruct x]. apply (has_root_ext f); [done|]. intros k Hk. unfold o_storage, storage_trie, open_storage.
    cbn. rewrite En, decide_True by done. symmetry. by apply holds_slot.
Qed.

(** The entry of an account that can be read back. *)
Definition accounted w s (a : bytes) : Prop :=
  match view w s a with
  | Some x => exists y, account_entry w s a = account_enc y /\ account_fits y /\ Nonce y = a_nonce x /\ Balance y = a_balance x
  | None => account_entry w s a = []
  end.

Lemma settled_accounted w s a :
  flushable0 w s -> (forall b, b ∈ stateObjectsDirty s -> settled w s b) -> st_key a -> accounted w s a.
Proof.
  intros F S Ka. unfold accounted. destruct (stateObjects s !! a) as [p|] eqn:Ep.
  - destruct (f_live _ _ _ _ F a p Ep) as (o & Eo & [L1 _ L3 _ _]). unfold view. rewrite Ep, Eo.
    assert (Sy : synced w s o -> if deleted o then False else
      exists y, account_entry w s a = account_enc y /\ account_fits y /\ Nonce y = Nonce (data o) /\ Balance y = Balance (data o)).
    { intros [Y1 Y2 [_ ->] _ _]. exists (data o). by rewrite <- L1. }
    destruct L3 as [Hd|Y]; [|apply Sy in Y; by destruct (deleted o)]. destruct (S a Hd) as (p' & o' & Ep' & Eo' & X).
    rewrite Ep in Ep'. injection Ep' as <-. rewrite Eo in Eo'. injection Eo' as <-.
    destruct X as [[-> Ee]|Y]; [done|]. apply Sy in Y. by destruct (deleted o).
  - unfold view. rewrite Ep, trie_account_entry, decide_True; [|done|by destruct (f_trie _ _ _ _ F) as (t & Et & _); eauto].
    destruct (f_entry _ _ _ _ F a Ka Ep) as [E|(x & t & f & E & Fx & En & O & R)]; [by rewrite E|].
    rewrite E, (account_decode x Fx). pose proof (account_enc_len x Fx). destruct (Z.eqb_spec (len (account_enc x)) 0); [lia|].
    by exists x.
Qed.

(** ** The root of a state database *)

Definition cleared s : StateDB := set_refund (set_journal s [] []) 0.

(** The specification: touched accounts are settled, snapshots are forgotten. *)
Definition spec_root (touched : gset bytes) (sp : spec) : spec :=
  mkSpec (mkAstate (fun a => if decide (a ∈ touched) then settle (accts (cur sp) a) else accts (cur sp) a) 0 (a_logs (cur sp)))
    [] (nextId sp) (r_thash sp) (r_bhash sp) (r_txIndex sp) (r_logSize sp).

Lemma trie_Hash_run w s tp t :
  tries w !! tp = Some t -> st_in (wdb w) t -> wfresh w ->
  exists h t' w', trie_Hash tp w s = Ok (h, w', s) /\ st_hash t = Ok (h, t') /\ loads w w' /\ objs w' = objs w /\ wfresh w'.
Proof.
  intros Et Hin Fr. destruct (st_hash_ok (wdb w) t (st_in_ok _ _ Hin)) as (h & t' & Eh & _ & O & V).
  exists h, t'. eexists. unfold trie_Hash, bindS, get_trie, liftS, put_trie, retS. rewrite Et, Eh.
  do 2 (split; [done|]). split; [|split; [done|]].
  - split; [split; [done|]|]; cbn.
    + intros tp' x Ex. rewrite lookup_insert. case_decide as Etp; [|exists x; by split]. subst tp'. exists t'. split; [done|].
      assert (x = t) as -> by congruence. by split.
    + intros tp' x x' Ex. rewrite lookup_insert. case_decide as Etp; [|congruence]. subst tp'. intros [= <-] _. by eapply st_in_hash.
  - intros p Hp. cbn in *. rewrite lookup_insert_ne; [by apply Fr|]. intros ->. destruct (Fr p Hp). congruence.
Qed.

Lemma IntermediateRoot_run w s :
  wf w s (journal s) -> flushable del w s (journal s) ->
  (forall a x, a ∈ stateObjectsDirty s -> settle (view w s a) = Some x -> acct_fits x) ->
  exists h w', IntermediateRoot order del w s = Ok (h, w', cleared s) /\ wf w' (cleared s) [] /\ flushable0 w' (cleared s) /\
    state_root (view w' (cleared s)) h /\ (forall a, st_key a -> accounted w' (cleared s) a) /\
    forall b, option_Forall2 acct_eq (view w' (cleared s) b) (if decide (b ∈ stateObjectsDirty s) then settle (view w s b) else view w s b).
Proof.
  intros WF F Fx. apply (wf_prefix w s []) in WF. apply (flushable_prefix del w s []) in F.
  set (l := order _ (elements (stateObjectsDirty s))). assert (P : l ≡ₚ elements (stateObjectsDirty s)) by apply Order.
  assert (In : forall a, a ∈ l <-> a ∈ stateObjectsDirty s) by (intros a; rewrite P; apply elem_of_elements).
  destruct (rounds_run l w s WF F) as (w1 & E1 & W1 & F1 & S1 & V1); [rewrite P; apply NoDup_elements|by intros a; apply In|by intros a x Ha; apply Fx, In|].
  assert (Fc : flushable0 w1 (cleared s)) by by apply (flushable_state del w1 s).
  assert (Wc : wf w1 (cleared s) []) by by apply (wf_state w1 s).
  destruct (f_trie _ _ _ _ Fc) as (t & Et & Hin). destruct (trie_Hash_run w1 (cleared s) (s_trie s) t Et Hin (f_fresh _ _ _ _ Fc)) as (h & t' & w2 & E2 & Eh & L & Eo & Fr).
  pose proof (wf_loaded w1 (cleared s) [] w2 Wc (ld_wle _ _ L) Eo Fr) as Q.
  assert (F2 : flushable0 w2 (cleared s)) by by apply (flush_loads del w1 w2). exists h, w2. split; [|split; [apply Q|split; [done|split; [|split]]]].
  - unfold IntermediateRoot. unfold bindS at 1, getS. fold l. unfold bindS at 1. rewrite E1. unfold bindS, clearJournalAndRefund, modify. done.
  - exists (wdb w1), t, t'. split; [done|]. split; [|done]. intros a Ka.
    apply (entry_of_eq (view w1 (cleared s) a)); [symmetry; apply (eq_accts _ _ (q_abs _ _ _ _ _ Q) a)|].
    rewrite (view_state w1 s (cleared s)) by done. replace (st_value (wdb w1) t a) with (account_entry w1 s a) by (unfold account_entry; change (s_trie s) with (s_trie (cleared s)); by rewrite Et).
    apply settled_entries; [done| |done]. intros b Hb. apply S1. left. by apply In.
  - intros a Ka. assert (A : accounted w1 s a) by (apply settled_accounted; [done| |done]; intros b Hb; apply S1; left; by apply In).
    unfold accounted in *. rewrite (account_entry_loads w1 w2 s (cleared s) a L) by (done || apply F1).
    pose proof (eq_accts _ _ (q_abs _ _ _ _ _ Q) a) as V. cbn in V. rewrite (view_state w1 s (cleared s)) in V by done.
    destruct (view w2 (cleared s) a), (view w1 s a); inversion V as [? ? [En Eb _ _ _ _]|]; subst; [|done]. by rewrite En, Eb.
  - intros b. etrans; [apply (eq_accts _ _ (q_abs _ _ _ _ _ Q) b)|]. cbn. rewrite (view_state w1 s (cleared s)) by done. etrans; [apply V1|].
    destruct (decide (b ∈ l)) as [Hb|Hb]; rewrite In in Hb; [by rewrite decide_True|by rewrite decide_False].
Qed.

Lemma root_spec w s sp :
  inv w s sp -> flushable del w s (journal s) -> (forall a x, accts (cur sp) a = Some x -> acct_fits x) ->
  exists h w', IntermediateRoot order del w s = Ok (h, w', cleared s) /\ inv w' (cleared s) (spec_root (stateObjectsDirty s) sp) /\
    flushable0 w' (cleared s) /\ state_root (accts (cur (spec_root (stateObjectsDirty s) sp))) h /\
    forall a, st_key a -> accounted w' (cleared s) a.
Proof.
  intros I F Fx. pose proof (eq_accts _ _ (inv_cur _ _ _ I)) as Ac. cbn in Ac.
  destruct (IntermediateRoot_run w s (inv_wf _ _ _ I) F) as (h & w' & E & W & F' & R & Ac' & V).
  { intros a x _ Ex. pose proof (settle_proper _ _ (Ac a)) as S. rewrite Ex in S. unfold settle in S.
    destruct (accts (cur sp) a) as [y|] eqn:Ey; [|by inversion S]. destruct (_ || _); [by inversion S|].
    inversion S. eapply acct_fits_eq; [by symmetry|]. by apply (Fx a). }
  assert (V' : forall b, option_Forall2 acct_eq (view w' (cleared s) b) (accts (cur (spec_root (stateObjectsDirty s) sp)) b)).
  { intros b. etrans; [apply V|]. cbn. case_decide; [apply settle_proper|]; apply Ac. }
  exists h, w'. split; [done|]. split; [|split; [done|split; [|done]]].
  - destruct I as [_ I2 _ _ _ I6 I7 I8 I9 I10 I11]. split; cbn; try done; try (by constructor).
    + split; [done|done|apply I2].
    + intros r Hr. by apply not_elem_of_nil in Hr.
    + split; [apply I11|by constructor].
  - destruct R as (d & t & t' & Hin & Ve & Eh). exists d, t, t'. split; [done|]. split; [|done].
    intros a Ka. by apply (entry_of_eq (view w' (cleared s) a)); [|apply Ve].
Qed.

(** ** Everything that can be reached *)

Context (StartingNonce MaxTrieCacheGen : Z).

(** A trie of well-formed accounts, whose storage tries can be loaded. *)
Record good_state w (t : T) : Prop := {
  gs_fresh : wfresh w;
  gs_in : st_in (wdb w) t;
  gs_ok : accounts_ok w (new_state 0) t;
  gs_entry a : st_key a -> entry_good (wdb w) (st_value (wdb w) t a);
  gs_objs p o tp : objs w !! p = Some o -> otrie o = Some tp -> is_Some (tries w !! tp);
  gs_sep p q o x tp : objs w !! p = Some o -> objs w !! q = Some x -> otrie o = Some tp -> otrie x = Some tp -> p = q
}.

(** States of a database that was opened, changed by the calls of its interface
    and asked for roots, with what the specification says of them. *)
Inductive reached : World T D -> StateDB -> spec -> Prop :=
| reached_new w root t w1 s1 :
    good_state w t -> st_new (wdb w) root MaxTrieCacheGen = Ok t -> State_New MaxTrieCacheGen w root = Ok (w1, s1) ->
    reached w1 s1 (start w1 s1)
| reached_calls w s sp cs xs w' s' sp' :
    reached w s sp -> Forall call_fits cs -> run_calls StartingNonce cs w s = Ok (xs, w', s') ->
    spec_calls StartingNonce cs sp = Some (xs, sp') -> reached w' s' sp'
| reached_root w s sp h w' s' :
    reached w s sp -> (forall a x, accts (cur sp) a = Some x -> acct_fits x) ->
    IntermediateRoot order del w s = Ok (h, w', s') -> reached w' s' (spec_root (stateObjectsDirty s) sp).

Lemma opened_flushable w root t w1 s1 :
  good_state w t -> st_new (wdb w) root MaxTrieCacheGen = Ok t -> State_New MaxTrieCacheGen w root = Ok (w1, s1) ->
  flushable del w1 s1 (journal s1).
Proof.
  intros [G1 G2 _ G4 G5 G6] En E. unfold State_New in E. rewrite En in E. injection E as <- <-. split; cbn; try done.
  - exists t. by rewrite lookup_insert_eq.
  - intros a Ka _. unfold account_entry. cbn. rewrite lookup_insert_eq. by apply G4.
  - intros J1 a J2 p o EJ. by destruct J1.
  - intros p o tp Eo Et. destruct (G5 p o tp Eo Et) as [x Ex]. assert (N : tp <> next w) by (intros ->; destruct (G1 (next w) ltac:(lia)); congruence).
    by rewrite lookup_insert_ne by done.
  - intros p Hp. cbn in *. destruct (G1 p ltac:(lia)). by rewrite lookup_insert_ne by lia.
Qed.

Lemma reached_inv w s sp : reached w s sp -> sound del w s sp.
Proof.
  induction 1 as [w root t w1 s1 G En E|w s sp cs xs w' s' sp' _ [I F] Fc E Es|w s sp h w' s' _ [I F] Fx E].
  - split; [|by eapply opened_flushable]. by eapply State_New_ok; [apply G|exact En|apply G|exact E].
  - split; [|by eapply calls_flush]. pose proof (calls_ok StartingNonce w s sp cs I) as C. rewrite Es in C.
    destruct C as (w2 & s2 & E2 & I2); [by eapply Forall_impl; [done|]; intros c [? _]|]. rewrite E in E2. by injection E2 as <- <-.
  - destruct (root_spec w s sp I F Fx) as (h' & w2 & E2 & I2 & F2 & _). rewrite E in E2. by injection E2 as _ -> ->.
Qed.

(** C5: computing the state root succeeds in every state that can be reached by
    calls and earlier roots.  It leaves the accounts as they are, except that
    touched accounts that committed suicide (and, if asked for, touched empty
    ones) are removed; it resets the refund counter and forgets the snapshots;
    and the root is the hash of a trie with exactly the entries of the accounts
    that are left: nonce, balance, code hash and the root of the storage. *)
Theorem IntermediateRoot_correct w s sp :
  reached w s sp -> (forall a x, accts (cur sp) a = Some x -> acct_fits x) ->
  exists h w' s', IntermediateRoot order del w s = Ok (h, w', s') /\
    inv w' s' (spec_root (stateObjectsDirty s) sp) /\ state_root (accts (cur (spec_root (stateObjectsDirty s) sp))) h.
Proof.
  intros R Fx. destruct (reached_inv w s sp R) as [I F]. destruct (root_spec w s sp I F Fx) as (h & w' & E & I' & _ & Rt & _).
  by exists h, w', (cleared s).
Qed.

(** ** Copies *)

Abbreviation M A := (SM (T := T) (D := D) A).

(** Operations that leave the account trie of the state where it is. *)
Definition keeps_trie {X} (m : M X) : Prop := forall w s x w' s', m w s = Ok (x, w', s') -> s_trie s' = s_trie s.

Lemma keeps_bind {X Y} (m : M X) (k : X -> M Y) : keeps_trie m -> (forall x, keeps_trie (k x)) -> keeps_trie (bindS m k).
Proof.
  intros Km Kk w s y w' s'. unfold bindS. destruct (m w s) as [[[x w1] s1]| |] eqn:E; [|done|done]. intros E'.
  apply Km in E. apply Kk in E'. congruence.
Qed.

Lemma keeps_modify f : (forall s, s_trie (f s) = s_trie s) -> keeps_trie (modify f).
Proof. intros Hf w s x w' s' E. injection E as _ _ <-. apply Hf. Qed.

Lemma keeps_state {X} (m : M X) : (forall w s, match m w s with Ok (_, _, s') => s' = s | _ => True end) -> keeps_trie m.
Proof. intros Hm w s x w' s' E. specialize (Hm w s). rewrite E in Hm. by subst. Qed.

Lemma keeps_forS {X} (l : list X) (f : X -> M unit) : (forall x, keeps_trie (f x)) -> keeps_trie (forS l f).
Proof. intros Hf. induction l as [|x l IH]; [by apply keeps_state|]. apply keeps_bind; [apply Hf|]. by intros []. Qed.

Ltac keeps_prim :=
  apply keeps_state; intros ? ?;
  unfold retS, panicS, liftS, getS, getDb, get_obj, put_obj, alloc_obj, get_trie, put_trie, alloc_trie; repeat (case_match; simplify_eq); done.

Ltac keeps_step :=
  match goal with
  | |- keeps_trie (bindS _ _) => apply keeps_bind; [|intros ?]
  | |- keeps_trie (modify _) => apply keeps_modify; done
  | |- keeps_trie (forS _ _) => apply keeps_forS; intros ?
  | |- keeps_trie (match ?x with _ => _ end) => destruct x
  | |- keeps_trie (let _ := _ in _) => cbv zeta
  | |- _ => keeps_prim
  end.

Lemma keeps_get a : keeps_trie (GetStateObject a).
Proof. unfold GetStateObject, trie_Get, setStateObject. repeat keeps_step. Qed.

Lemma keeps_new a : keeps_trie (GetOrNewStateObject StartingNonce a).
Proof.
  unfold GetOrNewStateObject, createObject, setStateObject, setNonce, callOnDirty, MarkStateObjectDirty, append_journal.
  repeat first [apply keeps_get|keeps_step].
Qed.

Lemma keeps_undo e : keeps_trie (undo e).
Proof.
  destruct e; cbn [undo]; unfold with_object, setStateObject, setBalance, setNonce, setCode, setState, callOnDirty, MarkStateObjectDirty;
    repeat first [apply keeps_get|keeps_step].
Qed.

Lemma keeps_state_at p k : keeps_trie (obj_GetState p k).
Proof. unfold obj_GetState, getTrie, trie_Get, decode_slot. repeat keeps_step. Qed.

Lemma keeps_call c : keeps_trie (run_call StartingNonce c).
Proof.
  destruct c; cbn [run_call]; unfold unit_answer, answering, GetBalance, GetNonce, GetCode, GetCodeHash, GetState, HasSuicided, Exist, Empty,
    GetRefund, GetLogs, AddBalance, SetBalance, SetNonce, SetCode, SetState, Suicide, CreateAccount, createObject, AddRefund, AddLog, StartRecord,
    Snapshot, RevertToSnapshot, obj_AddBalance, obj_SetBalance, obj_SetNonce, obj_SetCode, obj_SetState, obj_Code, setStateObject, setBalance,
    setNonce, setCode, setState, markSuicided, callOnDirty, MarkStateObjectDirty, append_journal;
    repeat first [apply keeps_get|apply keeps_new|apply keeps_undo|apply keeps_state_at|keeps_step].
Qed.

Lemma keeps_calls cs : keeps_trie (run_calls StartingNonce cs).
Proof. induction cs as [|c cs IH]; cbn [run_calls]; repeat first [apply keeps_call|exact IH|keeps_step]. Qed.

(** The balance of an account that is not loaded is read from the trie. *)
Lemma GetBalance_unloaded w s a :
  has_trie w s -> wfresh w -> stateObjects s !! a = None ->
  (account_entry w s a = [] -> exists w' s', GetBalance a w s = Ok (0, w', s')) /\
  forall y, account_entry w s a = account_enc y -> account_fits y -> exists w' s', GetBalance a w s = Ok (Balance y, w', s').
Proof.
  intros (t & Et & Hin) Fr N. destruct (trie_Get_loads w s (s_trie s) t a Et Hin Fr) as (w1 & E1 & _).
  unfold account_entry. rewrite Et. unfold GetBalance, GetStateObject. unfold bindS, getS at 1 2. rewrite N, E1. split.
  - intros ->. cbn. eauto.
  - intros y -> Fy. pose proof (account_enc_len y Fy). destruct (Z.eqb_spec (len (account_enc y)) 0); [lia|].
    rewrite (account_decode y Fy). unfold setStateObject, alloc_obj, get_obj, bindS, modify, retS. cbn [objs].
    rewrite lookup_insert_eq. cbn [objs]. rewrite lookup_insert_eq. cbn. eauto.
Qed.

(** C39: a copy of a state is not independent of it.  Open a state at any root of a
    well-formed database and copy it; change the copy by any calls and let it
    compute its root.  The account trie is shared, so the original, which nobody
    has touched, now reports for every account the balance it has in the copy. *)
Theorem copy_shares_trie w root t w1 s1 cs xs sp2 :
  good_state w t -> st_new (wdb w) root MaxTrieCacheGen = Ok t -> State_New MaxTrieCacheGen w root = Ok (w1, s1) ->
  Forall call_fits cs -> spec_calls StartingNonce cs (start w1 s1) = Some (xs, sp2) ->
  (forall a x, accts (cur sp2) a = Some x -> acct_fits x) ->
  exists c w2 c2 h w3 c3, Copy order w1 s1 = Ok (c, w1, s1) /\ run_calls StartingNonce cs w1 c = Ok (xs, w2, c2) /\
    IntermediateRoot order del w2 c2 = Ok (h, w3, c3) /\ inv w3 c3 (spec_root (stateObjectsDirty c2) sp2) /\
    forall a, st_key a -> exists w4 s4, GetBalance a w3 s1 = Ok (ask (spec_root (stateObjectsDirty c2) sp2) a a_balance 0, w4, s4).
Proof.
  intros G En E Fc Es Fx. pose proof (reached_inv _ _ _ (reached_new w root t w1 s1 G En E)) as [I1 F1].
  pose proof (calls_ok StartingNonce w1 s1 _ cs I1) as C. rewrite Es in C.
  destruct C as (w2 & c2 & E2 & I2); [by eapply Forall_impl; [done|]; intros c [? _]|].
  pose proof (calls_flush StartingNonce del w1 s1 cs xs w2 c2 F1 Fc E2) as F2. pose proof (keeps_calls cs _ _ _ _ _ E2) as Kt.
  destruct (root_spec w2 c2 sp2 I2 F2 Fx) as (h & w3 & E3 & I3 & F3 & _ & Ac). exists s1, w2, c2, h, w3, (cleared c2).
  unfold State_New in E. rewrite En in E. injection E as <- <-. split; [|do 3 (split; [done|])].
  { unfold Copy, bindS, getS. cbn [new_state stateObjectsDirty]. rewrite elements_empty.
    rewrite (proj1 (Permutation_nil_r _) (Order bytes [])). done. }
  intros a Ka. specialize (Ac a Ka). unfold accounted in Ac. pose proof (f_trie _ _ _ _ F3) as (t3 & Et3 & Hin).
  cbn [new_state cleared set_refund set_journal s_trie] in Kt, Et3. rewrite Kt in Et3.
  assert (Eq : account_entry w3 (cleared c2) a = account_entry w3 (new_state (next w)) a) by (unfold account_entry; cbn; by rewrite Kt).
  destruct (GetBalance_unloaded w3 (new_state (next w)) a) as [H0' H1']; [by exists t3|apply (f_fresh _ _ _ _ F3)|done|].
  pose proof (eq_accts _ _ (inv_cur _ _ _ I3) a) as V. change (accts (abs w3 (cleared c2)) a) with (view w3 (cleared c2) a) in V.
  revert V. unfold ask. generalize (accts (cur (spec_root (stateObjectsDirty c2) sp2)) a). intros r V. rewrite Eq in Ac.
  destruct (view w3 (cleared c2) a) as [x|]; inversion V as [? x' Ex|]; subst.
  - destruct Ac as (y & Ey & Fy & _ & Eb). replace (a_balance x') with (Balance y) by (rewrite Eb; by destruct Ex). by apply H1'.
  - by apply H0'.
Qed.
End Root.

(** C6: the state root depends on the accounts only.  Two state databases, opened
    at any roots of any databases and changed by any calls, reverts and roots in
    any order of the map iterations, report the same root as soon as the
    specification gives them the same accounts (nonce, balance, code hash and
    storage). *)
Theorem state_root_history_independent `{Hash256} `{StateTrieRoots T D} `{Database D} StartingNonce MaxTrieCacheGen
    del1 order1 w1 s1 sp1 h1 w1' s1' del2 order2 w2 s2 sp2 h2 w2' s2' :
  (forall A (l : list A), order1 A l ≡ₚ l) -> (forall A (l : list A), order2 A l ≡ₚ l) ->
  reached del1 order1 StartingNonce MaxTrieCacheGen w1 s1 sp1 -> reached del2 order2 StartingNonce MaxTrieCacheGen w2 s2 sp2 ->
  (forall a x, accts (cur sp1) a = Some x -> acct_fits x) -> (forall a x, accts (cur sp2) a = Some x -> acct_fits x) ->
  IntermediateRoot order1 del1 w1 s1 = Ok (h1, w1', s1') -> IntermediateRoot order2 del2 w2 s2 = Ok (h2, w2', s2') ->
  (forall a, st_key a -> option_Forall2 acct_same (accts (cur (spec_root del1 (stateObjectsDirty s1) sp1)) a)
    (accts (cur (spec_root del2 (stateObjectsDirty s2) sp2)) a)) ->
  h1 = h2.
Proof.
  intros O1 O2 R1 R2 X1 X2 E1 E2 S. destruct (reached_inv del1 order1 O1 _ _ w1 s1 sp1 R1) as [I1 F1], (reached_inv del2 order2 O2 _ _ w2 s2 sp2 R2) as [I2 F2].
  destruct (root_spec del1 order1 O1 w1 s1 sp1 I1 F1 X1) as (h & w & E & _ & _ & Q1 & _). rewrite E1 in E. injection E as <- _ _.
  destruct (root_spec del2 order2 O2 w2 s2 sp2 I2 F2 X2) as (h & w3 & E & _ & _ & Q2 & _). rewrite E2 in E. injection E as <- _ _.
  exact (state_root_unique _ _ h1 h2 Q1 Q2 S).
Qed.

(** ** Witnesses *)

#[local] Existing Instance keccak_hash.

#[export] Instance roots0 : StateTrieRoots SecureTrie MemDatabase := SecureTrie_roots (fun k => k ∈ keys0) keys0_free.

Lemma value0 k : st_value NewMemDatabase trie0 k = [].
Proof. destruct (st_new_empty (T := SecureTrie) NewMemDatabase 120) as (t & Et & _ & V). injection Et as <-. apply V. Qed.

Lemma good0 : good_state world0 trie0.
Proof.
  split; [by intros p|by apply (st_in_new NewMemDatabase 120)|apply trie0_ok| |by intros p o tp|by intros p q o x tp].
  intros a _. left. apply value0.
Qed.

Lemma view0 a : view world1 (new_state 0) a = None.
Proof.
  unfold view, trie_account. change (tries world1 !! s_trie (new_state 0)) with (Some trie0). change (wdb world1) with NewMemDatabase.
  cbv beta iota zeta. rewrite value0. change (stateObjects (new_state 0)) with (∅ : gmap bytes nat).
  rewrite lookup_empty. by case_decide.
Qed.

Definition rich (z : Z) : acct := mkAcct 0 z emptyCodeHash None (fun _ => zeros 32) false.

(** Two ways to give two accounts their balances. *)
Definition calls_a : list call := [CAddBalance addr1 10; CSetBalance addr2 5].
Definition calls_b : list call :=
  [CSetBalance addr2 5; CSnapshot; CSetBalance addr1 7; CSuicide addr2; CRevertToSnapshot 0; CCreateAccount addr1; CAddBalance addr1 10].
Definition both (a : bytes) : option acct :=
  if decide (a = addr1) then Some (rich 10) else if decide (a = addr2) then Some (rich 5) else None.

Lemma spec_a : exists xs sp, spec_calls 0 calls_a (start world1 (new_state 0)) = Some (xs, sp) /\ forall a, accts (cur sp) a = both a.
Proof. eexists _, _. split; [reflexivity|]. intros a. unfold both. cbn. rewrite !view0. by repeat case_decide; simplify_eq. Qed.

Lemma spec_b : exists xs sp, spec_calls 0 calls_b (start world1 (new_state 0)) = Some (xs, sp) /\ forall a, accts (cur sp) a = both a.
Proof. eexists _, _. split; [reflexivity|]. intros a. unfold both. cbn. rewrite !view0. by repeat case_decide; simplify_eq. Qed.

Lemma both_fits a x : both a = Some x -> acct_fits x.
Proof.
  assert (C : word 32 emptyCodeHash) by (split; [apply (bool_decide_unpack _); vm_compute|]; reflexivity || exact I).
  unfold both. repeat case_decide; intros [= <-]; (split; [|split]; [cbn; lia..|done]).
Qed.

Abbreviation in_order := (fun A (l : list A) => l).
Abbreviation reversed := (fun A (l : list A) => rev l).

Lemma reversed_order A (l : list A) : reversed A l ≡ₚ l.
Proof. symmetry. apply Permutation_rev. Qed.

(** The calls can be made, and a root can be computed. *)
Lemma run0 order cs xs sp :
  (forall A (l : list A), order A l ≡ₚ l) -> Forall call_fits cs -> spec_calls 0 cs (start world1 (new_state 0)) = Some (xs, sp) ->
  (forall a, accts (cur sp) a = both a) ->
  exists w s h w' s', run_calls 0 cs world1 (new_state 0) = Ok (xs, w, s) /\ reached false order 0 120 w s sp /\
    IntermediateRoot order false w s = Ok (h, w', s').
Proof.
  intros Ord Fc Es Ac. assert (R0 : reached false order 0 120 world1 (new_state 0) (start world1 (new_state 0)))
    by by apply (reached_new _ _ _ _ world0 (zeros 32) trie0); [apply good0|..].
  destruct (reached_inv false order Ord _ _ _ _ _ R0) as [I F]. pose proof (calls_ok 0 world1 (new_state 0) _ cs I) as C. rewrite Es in C.
  destruct C as (w & s & E & _); [by eapply Forall_impl; [done|]; intros c [? _]|].
  assert (R : reached false order 0 120 w s sp) by by eapply reached_calls.
  destruct (reached_inv false order Ord _ _ _ _ _ R) as [I1 F1].
  destruct (root_spec false order Ord w s sp I1 F1) as (h & w' & Er & _); [intros a x; rewrite Ac; apply both_fits|].
  by exists w, s, h, w', (cleared s).
Qed.

Lemma key_addr1 : st_key (T := SecureTrie) (D := MemDatabase) addr1.
Proof. apply list_elem_of_here. Qed.

Lemma key_addr2 : st_key (T := SecureTrie) (D := MemDatabase) addr2.
Proof. apply list_elem_of_further, list_elem_of_here. Qed.

Lemma calls_a_fit : Forall call_fits calls_a.
Proof. repeat (apply Forall_cons; split; [split; [apply key_addr1 || apply key_addr2 || exact I|exact I]|]). by apply Forall_nil. Qed.

Lemma calls_b_fit : Forall call_fits calls_b.
Proof. repeat (apply Forall_cons; split; [split; [apply key_addr1 || apply key_addr2 || exact I|exact I]|]). by apply Forall_nil. Qed.

Lemma root_accounts touched sp a : (forall a, accts (cur sp) a = both a) -> accts (cur (spec_root false touched sp)) a = both a.
Proof. intros Ac. cbn. rewrite Ac. unfold both. by repeat case_decide. Qed.

Lemma IntermediateRoot_correct_witness :
  exists xs w s h w' s', run_calls 0 calls_a world1 (new_state 0) = Ok (xs, w, s) /\
    IntermediateRoot in_order false w s = Ok (h, w', s') /\ state_root (T := SecureTrie) (D := MemDatabase) both h.
Proof.
  destruct spec_a as (xs & sp & Es & Ac).
  destruct (run0 in_order calls_a xs sp ltac:(done) calls_a_fit Es Ac) as (w & s & _ & _ & _ & E & R & _).
  destruct (IntermediateRoot_correct false in_order ltac:(done) 0 120 w s sp R) as (h & w' & s' & Er & _ & d & t & t' & Hin & V & Eh);
    [intros a x; rewrite Ac; apply both_fits|].
  exists xs, w, s, h, w', s'. split; [exact E|]. split; [exact Er|]. exists d, t, t'. split; [done|]. split; [|done]. intros a Ka.
  specialize (V a Ka). by rewrite (root_accounts _ sp a Ac) in V.
Defined.

Lemma state_root_history_independent_witness :
  exists xs1 xs2 w1 s1 w2 s2 h w1' s1' w2' s2',
    run_calls 0 calls_a world1 (new_state 0) = Ok (xs1, w1, s1) /\ run_calls 0 calls_b world1 (new_state 0) = Ok (xs2, w2, s2) /\
    IntermediateRoot in_order false w1 s1 = Ok (h, w1', s1') /\ IntermediateRoot reversed false w2 s2 = Ok (h, w2', s2').
Proof.
  destruct spec_a as (xs1 & sp1 & Es1 & Ac1), spec_b as (xs2 & sp2 & Es2 & Ac2).
  destruct (run0 in_order calls_a xs1 sp1 ltac:(done) calls_a_fit Es1 Ac1) as (w1 & s1 & h1 & w1' & s1' & E1 & R1 & Q1).
  destruct (run0 reversed calls_b xs2 sp2 reversed_order calls_b_fit Es2 Ac2) as (w2 & s2 & h2 & w2' & s2' & E2 & R2 & Q2).
  assert (h1 = h2) as <-.
  { apply (state_root_history_independent 0 120 false in_order w1 s1 sp1 h1 w1' s1' false reversed w2 s2 sp2 h2 w2' s2');
      [done|apply reversed_order|done|done|intros a x; rewrite Ac1; apply both_fits|intros a x; rewrite Ac2; apply both_fits|done|done|].
    intros a _. rewrite (root_accounts _ sp1 a Ac1), (root_accounts _ sp2 a Ac2). apply same_refl. }
  exists xs1, xs2, w1, s1, w2, s2, h1, w1', s1', w2', s2'. split; [exact E1|]. split; [exact E2|]. split; [exact Q1|exact Q2].
Defined.

(** The original state of an empty database reports the 10 that the copy got. *)
Lemma copy_shares_trie_witness :
  exists c w2 c2 h w3 c3 w4 s4, Copy in_order world1 (new_state 0) = Ok (c, world1, new_state 0) /\
    run_calls (T := SecureTrie) (D := MemDatabase) 0 [CAddBalance addr1 10] world1 c = Ok ([AUnit], w2, c2) /\
    IntermediateRoot in_order false w2 c2 = Ok (h, w3, c3) /\ GetBalance addr1 w3 (new_state 0) = Ok (10, w4, s4).
Proof.
  destruct (copy_shares_trie (T := SecureTrie) (D := MemDatabase) false in_order ltac:(done) 0 120 world0 (zeros 32) trie0 world1 (new_state 0)
    [CAddBalance addr1 10] [AUnit] (change 0 (start world1 (new_state 0)) addr1 (fun x => with_balance x (a_balance x + 10)))
    good0 eq_refl eq_refl) as (c & w2 & c2 & h & w3 & c3 & E1 & E2 & E3 & _ & B).
  - constructor; [|constructor]. split; [exact key_addr1|exact Logic.I].
  - reflexivity.
  - intros a x. cbn. case_decide; [|by rewrite view0]. unfold acct_of. cbn. rewrite view0. intros [= <-].
    apply (both_fits addr1). by vm_compute.
  - destruct (B addr1 key_addr1) as (w4 & s4 & E4). exists c, w2, c2, h, w3, c3, w4, s4.
    split; [exact E1|]. split; [exact E2|]. split; [exact E3|]. rewrite E4. do 3 f_equal. unfold ask. cbn.
    rewrite !(decide_True (P := _ = _)), !view0 by done. by case_decide.
Defined.
