(* ===== verification/Transition.v ===== *)
(** * State transitions (src/blockchainCore)

    [state_transition.go], [execution.go], [gaspool.go] and the environment
    [vm_env.go]: buying gas, the value transfer of a call or of an account
    creation, refunds and fees.

    Accounts are the heap objects of the state database: [from] and [to] are
    pointers, held across calls as in the code.  The remaining gas of a
    transition is one big integer that the code passes around by pointer; here
    it is threaded through.  [ReturnGas] of an account does nothing.  The errors
    of the source are values; [Panic] is a run-time panic. *)

From S2P Require Import Prelude RlpEncode Helper Database StateTrie State.

(** ** Parameters (src/configure) *)

Definition TxGas : Z := 21000.
Definition TxGasExternalLogicCreation : Z := 53000.
Definition TxDataZeroGas : Z := 4.
Definition TxDataNonZeroGas : Z := 68.
Definition CallCreateDepth : Z := 1024.
Definition CreateDataGas : Z := 200.
Definition MaxCodeSize : Z := 24576.

(** Fork blocks; [None] is nil, no fork. *)
Record ChainConfig := {
  ChainId : Z;
  HomesteadBlock : option Z;
  DAOForkBlock : option Z;
  DAOForkSupport : bool;
  SiotImpr0Block : option Z;
  SiotImpr0Hash : bytes;
  SiotImpr1Block : option Z;
  SiotImpr2Block : option Z
}.

Definition forked (block : option Z) (num : Z) : bool :=
  match block with None => false | Some b => b <=? num end.

Definition IsHomestead (c : ChainConfig) (num : Z) : bool := forked (HomesteadBlock c) num.
Definition IsSiotImpr0 (c : ChainConfig) (num : Z) : bool := forked (SiotImpr0Block c) num.
Definition IsSiotImpr1 (c : ChainConfig) (num : Z) : bool := forked (SiotImpr1Block c) num.
Definition IsSiotImpr2 (c : ChainConfig) (num : Z) : bool := forked (SiotImpr2Block c) num.

(** ** Messages and environments *)

Record Message := {
  From : bytes;
  To : option bytes;
  GasPrice : Z;
  Gas : Z;
  Value : Z;
  MsgNonce : Z;
  CheckNonce : bool;
  Data : bytes
}.

Definition MessageCreatesExternalLogic (msg : Message) : bool :=
  match To msg with None => true | Some _ => false end.

(** What the code reads of [VMEnv]. *)
Record VMEnv := {
  chainConfig : ChainConfig;
  BlockNumber : Z;
  Coinbase : bytes;
  depth : Z
}.

Inductive tx_error :=
| NonceErr (is_ exp : Z)
| InsufficientFunds (want have : Z)
| GasLimitErr (have want : Z)
| OutOfGasError
| ValueTransferErr (want have : Z)
| DepthError
| CodeStoreOutOfGasError.

(** ** The gas pool (gaspool.go) *)

Definition AddGas (gp amount : Z) : Z := gp + amount.

Definition SubGas (gp amount : Z) : tx_error + Z :=
  if gp <? amount then inl (GasLimitErr gp amount) else inr (gp - amount).

(** ** Intrinsic gas *)

Definition IntrinsicGas (data : bytes) (externalLogicCreation homestead : bool) : Z :=
  let igas := if externalLogicCreation && homestead then TxGasExternalLogicCreation else TxGas in
  if 0 <? len data then
    let nz := len (filter (fun b => b <> 0) data) in
    igas + nz * TxDataNonZeroGas + (len data - nz) * TxDataZeroGas
  else igas.

(** [useGas] of package localEnv, and the method of the same name. *)
Definition useGas (gas amount : Z) : option Z := if gas <? amount then None else Some (gas - amount).

(** Addresses of the precompiled accounts. *)
Definition Precompiled (addr : bytes) : bool :=
  bool_decide (addr ∈ [LeftPadBytes [1] 20; LeftPadBytes [2] 20; LeftPadBytes [3] 20; LeftPadBytes [4] 20]).

Section Transition.
Context `{Hash256} `{StateTrie T D} `{Database D} (StartingNonce : Z).

Abbreviation M A := (SM (T := T) (D := D) A).

(** [crypto.CreateAddress]; an address and a number can always be encoded. *)
Definition CreateAddress (b : bytes) (nonce : Z) : M bytes :=
  match EncodeToBytes (TSlice false TInterface)
          (VList [VIface (TByteArray 20) (VBytes b); VIface (TUint 64) (VInt nonce)]) with
  | Ok data => retS (BytesToAddress (drop 12 (Keccak256 data)))
  | _ => panicS
  end.

(** ** Execution (execution.go, vm_env.go) *)

(** Calling a method on an account that may be nil. *)
Definition deref (a : option nat) : M nat := match a with Some p => retS p | None => panicS end.

Definition GetAccount (addr : bytes) : M nat := let! a := GetStateObject addr in deref a.

Definition CanTransfer (addr : bytes) (amount : Z) : M bool :=
  let! b := GetBalance addr in retS (amount <=? b).

Definition Transfer (from to : nat) (amount : Z) : M unit :=
  let! _ := obj_SubBalance from amount in
  obj_AddBalance to amount.

(** The checks at the start of [Call], [CallCode] and [Create]. *)
Definition check_call (env : VMEnv) (caller : bytes) (value : Z) : M (option tx_error) :=
  if CallCreateDepth <? depth env then retS (Some DepthError)
  else
    let! ok := CanTransfer caller value in
    if ok : bool then retS None
    else let! b := GetBalance caller in retS (Some (ValueTransferErr value b)).

(** No code runs: after the transfer [Call] has nothing to fail on. *)
Definition Call (env : VMEnv) (caller addr : bytes) (value : Z) : M (option tx_error) :=
  let! err := check_call env caller value in
  match err with
  | Some e => retS (Some e)
  | None =>
      let! _ := Snapshot in
      let! from := GetStateObject caller in
      let! exists_ := Exist addr in
      if negb exists_ && negb (Precompiled addr) && IsSiotImpr2 (chainConfig env) (BlockNumber env) && (value =? 0) then
        retS None
      else
        let! to := (if exists_ : bool then GetAccount addr else CreateAccount StartingNonce addr) in
        let! from := deref from in
        let! _ := Transfer from to value in
        retS None
  end.

Definition CallCode (env : VMEnv) (caller : bytes) (value : Z) : M (option tx_error) :=
  let! err := check_call env caller value in
  match err with
  | Some e => retS (Some e)
  | None =>
      let! _ := Snapshot in
      let! _ := GetStateObject caller in
      retS None
  end.

(** [AsDelegate] asserts that the caller is itself an external logic. *)
Definition DelegateCall (env : VMEnv) (caller : bytes) (caller_is_logic : bool) : M (option tx_error) :=
  if CallCreateDepth <? depth env then retS (Some DepthError)
  else
    let! _ := Snapshot in
    let! _ := GetStateObject caller in
    if caller_is_logic then retS None else panicS.

(** [Create] with the remaining gas; the returned code [ret] is nil. *)
Definition Create (env : VMEnv) (caller : bytes) (gas value : Z) : M (Z * option tx_error) :=
  let! err := check_call env caller value in
  match err with
  | Some e => retS (gas, Some e)
  | None =>
      let! nonce := GetNonce StartingNonce caller in
      let! _ := SetNonce StartingNonce caller (u64 (nonce + 1)) in
      let! snapshot := Snapshot in
      let! addr := CreateAddress caller nonce in
      let! from := GetAccount caller in
      let! to := CreateAccount StartingNonce addr in
      let! _ := (if IsSiotImpr2 (chainConfig env) (BlockNumber env) then SetNonce StartingNonce addr 1 else retS tt) in
      let! _ := Transfer from to value in
      let ret := @nil Z in
      let maxCodeSizeExceeded := MaxCodeSize <? len ret in
      let! (gas, err) :=
        (if negb maxCodeSizeExceeded then
           match useGas gas (len ret * CreateDataGas) with
           | Some gas => let! _ := SetCode StartingNonce addr None in retS (gas, None)
           | None => retS (gas, Some CodeStoreOutOfGasError)
           end
         else retS (gas, None)) in
      match err with
      | Some e =>
          if maxCodeSizeExceeded || IsHomestead (chainConfig env) (BlockNumber env) then
            let! _ := RevertToSnapshot snapshot in retS (0, Some e)
          else retS (gas, None)
      | None =>
          if maxCodeSizeExceeded then let! _ := RevertToSnapshot snapshot in retS (0, None)
          else retS (gas, None)
      end
  end.

(** ** The transition (state_transition.go) *)

Definition from (msg : Message) : M nat :=
  let! e := Exist (From msg) in
  if e : bool then GetAccount (From msg) else CreateAccount StartingNonce (From msg).

Definition to (addr : bytes) : M nat :=
  let! e := Exist addr in
  if e : bool then GetAccount addr else CreateAccount StartingNonce addr.

(** The new gas pool with the result; the gas bought is [Gas msg]. *)
Definition buyGas (msg : Message) (gp : Z) : M (Z * option tx_error) :=
  let mgas := Gas msg in
  let mgval := mgas * GasPrice msg in
  let! sender := from msg in
  let! o := get_obj sender in
  if Balance (data o) <? mgval then retS (gp, Some (InsufficientFunds mgval (Balance (data o))))
  else
    match SubGas gp mgas with
    | inl e => retS (gp, Some e)
    | inr gp => let! _ := obj_SubBalance sender mgval in retS (gp, None)
    end.

Definition preCheck (msg : Message) (gp : Z) : M (Z * option tx_error) :=
  let! sender := from msg in
  let! o := get_obj sender in
  let! bad :=
    (if CheckNonce msg then
       let! n := GetNonce StartingNonce (address o) in
       retS (if n =? MsgNonce msg then None else Some (NonceErr (MsgNonce msg) n))
     else retS None) in
  match bad with
  | Some e => retS (gp, Some e)
  | None => buyGas msg gp
  end.

(** [refundGas] with the remaining gas; the refund is the counter of the state
    itself when that is smaller, which the multiplication then overwrites. *)
Definition refundGas (msg : Message) (gas gp : Z) : M (Z * Z) :=
  let! sender := from msg in
  let! _ := obj_AddBalance sender (gas * GasPrice msg) in
  let uhalf := (Gas msg - gas) / 2 in
  let! r := GetRefund in
  let refund := if r <? uhalf then r else uhalf in
  let gas := gas + refund in
  let amount := refund * GasPrice msg in
  let! _ := (if r <? uhalf then modify (fun s => set_refund s amount) else retS tt) in
  let! o := get_obj sender in
  let! _ := AddBalance StartingNonce (address o) amount in
  retS (gas, AddGas gp gas).

(** The gas pool, and an error or the gas required and used. *)
Definition TransitionDb (env : VMEnv) (msg : Message) (gp : Z) : M (Z * (tx_error + Z * Z)) :=
  let! (gp, err) := preCheck msg gp in
  match err with
  | Some e => retS (gp, inl e)
  | None =>
      let! sender := from msg in
      let! so := get_obj sender in
      let homestead := IsHomestead (chainConfig env) (BlockNumber env) in
      let creation := MessageCreatesExternalLogic msg in
      match useGas (Gas msg) (IntrinsicGas (Data msg) creation homestead) with
      | None => retS (gp, inl OutOfGasError)
      | Some gas =>
          let! (gas, err) :=
            (match To msg with
             | None =>
                 let! (gas, err) := Create env (address so) gas (Value msg) in
                 retS (if homestead && match err with Some CodeStoreOutOfGasError => true | _ => false end then 0 else gas, err)
             | Some addr =>
                 let! n := GetNonce StartingNonce (address so) in
                 let! _ := SetNonce StartingNonce (address so) (u64 (n + 1)) in
                 let! t := to addr in
                 let! o := get_obj t in
                 let! err := Call env (address so) (address o) (Value msg) in
                 retS (gas, err)
             end) in
          match err with
          | Some (ValueTransferErr want have) => retS (gp, inl (ValueTransferErr want have))
          | _ =>
              let requiredGas := Gas msg - gas in
              let! (gas, gp) := refundGas msg gas gp in
              let usedGas := Gas msg - gas in
              let! _ := AddBalance StartingNonce (Coinbase env) (usedGas * GasPrice msg) in
              retS (gp, inr (requiredGas, usedGas))
          end
      end
  end.

Definition ApplyMessage (env : VMEnv) (msg : Message) (gp : Z) : M (Z * (tx_error + Z)) :=
  let! (gp, r) := TransitionDb env msg gp in
  retS (gp, match r with inl e => inl e | inr (_, used) => inr used end).
End Transition.
