(* ===== verification/TransitionSpec.v ===== *)
(** * State transitions: what they do to the accounts

    The transition of [Transition] runs on the heap of account objects; here it
    is related to a specification on abstract accounts.  The gas accounting, the
    conservation of value and the effect of errors are then facts about the
    specification. *)

From S2P Require Import Prelude RlpEncode RlpRaw RlpStream Helper Database Keccak TrieNode Trie TrieHash StateTrie SecureTrie State StateSpec StateRefine StateFlush StateRoot Transition.

Section TransitionSpec.
Context `{Hash256} `{StateTrieRoots T D} `{Database D} (StartingNonce : Z) (del : bool).
Implicit Types (w : World T D) (s : StateDB) (sp : spec).

Abbreviation M A := (SM (T := T) (D := D) A).

Lemma run_bind {X Y} (m : M X) (k : X -> M Y) w s x w1 s1 : m w s = Ok (x, w1, s1) -> bindS m k w s = k x w1 s1.
Proof. unfold bindS. by intros ->. Qed.

(** ** The specification *)

Definition bal sp (a : bytes) : Z := ask sp a a_balance 0.
Definition nonce_of sp (a : bytes) : Z := ask sp a a_nonce StartingNonce.
Definition present sp (a : bytes) : bool := ask sp a (fun _ => true) false.

Definition credit sp (a : bytes) (z : Z) : spec := change StartingNonce sp a (fun x => with_balance x (a_balance x + z)).
Definition renonce sp (a : bytes) (n : Z) : spec := change StartingNonce sp a (fun x => with_nonce x n).
Definition snap sp : spec :=
  mkSpec (cur sp) (saved sp ++ [(nextId sp, cur sp)]) (nextId sp + 1) (r_thash sp) (r_bhash sp) (r_txIndex sp) (r_logSize sp).
Definition create sp (a : bytes) : spec := set_cur sp (upd (cur sp) a (Some (fresh_acct StartingNonce (bal sp a)))).
Definition touch sp (a : bytes) : spec := if present sp a then sp else create sp a.
Definition recode sp (a : bytes) : spec := change StartingNonce sp a (fun x => with_code x (Keccak256 []) None).

Definition check_spec (env : VMEnv) sp (caller : bytes) (value : Z) : option tx_error :=
  if CallCreateDepth <? depth env then Some DepthError
  else if value <=? bal sp caller then None else Some (ValueTransferErr value (bal sp caller)).

Definition call_spec (env : VMEnv) sp (caller addr : bytes) (value : Z) : option tx_error * spec :=
  match check_spec env sp caller value with
  | Some e => (Some e, sp)
  | None =>
      if negb (present sp addr) && negb (Precompiled addr) && IsSiotImpr2 (chainConfig env) (BlockNumber env) && (value =? 0)
      then (None, snap sp)
      else (None, credit (credit (touch (snap sp) addr) caller (- value)) addr value)
  end.

(** ** Pointers to accounts *)

Definition keep (P : bytes -> Prop) s s' : Prop :=
  forall b q, P b -> stateObjects s !! b = Some q -> stateObjects s' !! b = Some q.

Lemma keep_quiet P J w s w' s' : quiet J w s w' s' -> keep P s s'.
Proof. intros Q b q _. apply Q. Qed.

Lemma keep_trans P s1 s2 s3 : keep P s1 s2 -> keep P s2 s3 -> keep P s1 s3.
Proof. intros K1 K2 b q Pb E. by apply K2, K1. Qed.

Lemma keep_eq P s s' : stateObjects s' = stateObjects s -> keep P s s'.
Proof. intros E b q _. by rewrite E. Qed.

Lemma keep_weaken (P Q : bytes -> Prop) s s' : keep P s s' -> (forall b, Q b -> P b) -> keep Q s s'.
Proof. intros K PQ b q Qb. by apply K, PQ. Qed.

Lemma respects_id : respects (fun x => x) acct_eq. Proof. by intros x y. Qed.

Lemma respects_add z : respects (fun x => with_balance x (a_balance x + z)) acct_eq.
Proof. intros x y []. split; cbn; congruence. Qed.

Lemma respects_nonce n : respects (fun x => with_nonce x n) acct_eq.
Proof. intros x y []. by split. Qed.

Lemma respects_code h c : respects (fun x => with_code x h c) acct_eq.
Proof. intros x y []. by split. Qed.

#[local] Hint Resolve respects_id respects_add respects_nonce respects_code : core.

(** The object behind the pointer of an account that exists. *)
Lemma ptr_live w s sp a p :
  sound del w s sp -> stateObjects s !! a = Some p -> present sp a = true ->
  exists o x, live w s a p o /\ address o = a /\ accts (cur sp) a = Some x /\ acct_eq (oview w o) x.
Proof.
  intros I Ep Ha. unfold present, ask in Ha. destruct (accts (cur sp) a) as [x|] eqn:Ex; [|done].
  pose proof (eq_accts _ _ (inv_cur _ _ _ (proj1 I)) a) as V. rewrite Ex in V. cbn in V.
  destruct (view w s a) as [y|] eqn:Ey; inversion V as [? ? Eyx|]; subst.
  unfold view in Ey. rewrite Ep in Ey. destruct (objs w !! p) as [o|] eqn:Eo; [|done].
  destruct (deleted o) eqn:Ed; [done|]. injection Ey as <-. assert (Lv : live w s a p o) by done.
  exists o, x. destruct (live_ok w s _ a p o (inv_wf _ _ _ (proj1 I)) Lv). done.
Qed.

Lemma get_obj_run {X} w s p o (k : StateObject -> M X) : objs w !! p = Some o -> bindS (get_obj p) k w s = k o w s.
Proof. intros E. unfold bindS, get_obj. by rewrite E. Qed.

(** A change through a pointer. *)
Lemma ptr_change w s sp a p (m : M unit) g :
  sound del w s sp -> stateObjects s !! a = Some p -> present sp a = true -> respects g acct_eq ->
  (forall o, live w s a p o -> exists w' s', m w s = Ok (tt, w', s') /\
     step w s w' s' (upd (abs w s) a (Some (g (oview w o)))) /\ stateObjects s' = stateObjects s) ->
  (forall o, live w s a p o -> flushed del a p (m w s)) ->
  exists w' s', m w s = Ok (tt, w', s') /\ sound del w' s' (change StartingNonce sp a g) /\ stateObjects s' = stateObjects s.
Proof.
  intros I Ep Ha Hg Hm Hf. destruct (ptr_live w s sp a p I Ep Ha) as (o & x & Lv & Ea & Ex & Eo). destruct I as [I Fl].
  destruct (Hm o Lv) as (w' & s' & E & St & Es). exists w', s'. split; [exact E|]. split; [|exact Es].
  destruct (Hf o Lv) as (w2 & s2 & o2 & E2 & F2 & _). rewrite E in E2. injection E2 as <- <-. split; [|done].
  eapply inv_step; [exact I|exact St| |apply I]. apply upd_proper; [apply I|done|]. constructor.
  unfold acct_of. rewrite Ex. by apply Hg.
Qed.

Lemma obj_balance_step w s a p o z (m : M unit) :
  wf w s (journal s) -> live w s a p o ->
  (m w s = Ok (tt, w, s) /\ z = 0) \/ m w s = obj_SetBalance p (Balance (data o) + z) w s ->
  exists w' s', m w s = Ok (tt, w', s') /\
    step w s w' s' (upd (abs w s) a (Some (with_balance (oview w o) (a_balance (oview w o) + z)))) /\
    stateObjects s' = stateObjects s.
Proof.
  intros WF Lv [[E ->]|E].
  - exists w, s. split; [exact E|]. split; [|done]. eapply step_aeq; [|by apply quiet_step, quiet_refl]. symmetry.
    rewrite Z.add_0_r. apply upd_same. cbn. rewrite (live_view _ _ _ _ _ Lv). done.
  - rewrite E. destruct (obj_SetBalance_ok w s a p o (Balance (data o) + z) WF Lv) as (w' & s' & o' & E' & St & _ & Es).
    by exists w', s'.
Qed.

Lemma obj_AddBalance_run w s sp a p z :
  sound del w s sp -> stateObjects s !! a = Some p -> present sp a = true ->
  exists w' s', obj_AddBalance p z w s = Ok (tt, w', s') /\ sound del w' s' (credit sp a z) /\ stateObjects s' = stateObjects s.
Proof.
  intros I Ep Ha. apply (ptr_change w s sp a p); [done|done|done|auto| |intros o; apply flush_AddBalance, I]. intros o Lv.
  apply (obj_balance_step w s a p); [apply I|done|]. unfold obj_AddBalance.
  rewrite (get_obj_run _ _ _ o) by apply Lv. destruct (_ && _) eqn:Z0; [left|by right].
  apply andb_true_iff in Z0 as [->%Z.eqb_eq _]. done.
Qed.

Lemma obj_SubBalance_run w s sp a p z :
  sound del w s sp -> stateObjects s !! a = Some p -> present sp a = true ->
  exists w' s', obj_SubBalance p z w s = Ok (tt, w', s') /\ sound del w' s' (credit sp a (- z)) /\ stateObjects s' = stateObjects s.
Proof.
  intros I Ep Ha. apply (ptr_change w s sp a p); [done|done|done|auto| |intros o; apply flush_SubBalance, I]. intros o Lv.
  apply (obj_balance_step w s a p); [apply I|done|]. unfold obj_SubBalance.
  rewrite (get_obj_run _ _ _ o) by apply Lv. destruct (z =? 0) eqn:Z0; [left|by right]. by apply Z.eqb_eq in Z0 as ->.
Qed.

(** ** Operations of the state *)

Lemma GetStateObject_run w s sp a :
  sound del w s sp -> st_key a ->
  exists r w' s', GetStateObject a w s = Ok (r, w', s') /\ sound del w' s' sp /\ (forall P, keep P s s') /\
    (if present sp a then exists p, r = Some p /\ stateObjects s' !! a = Some p else r = None).
Proof.
  intros [I Fl] Ka. destruct (GetStateObject_found w s (journal s) a (inv_wf _ _ _ I) (fun _ => Ka)) as (r & w1 & s1 & Eg & Q & F & V).
  destruct (flush_GetStateObject del w s _ a Fl (fun _ => Ka)) as (r' & w1' & s1' & Eg' & F1 & J1 & _).
  rewrite Eg in Eg'. injection Eg' as <- <- <-. rewrite <- J1 in F1.
  exists r, w1, s1. pose proof (inv_quiet _ _ _ _ _ I Q) as I1.
  split; [done|]. split; [done|]. split; [intros P; by eapply keep_quiet|].
  unfold present. rewrite <- (ask_eq w s sp a _ false I) by done. destruct r as [p|].
  - destruct F as (o & Lv). rewrite (live_view _ _ _ _ _ Lv) in V. destruct (view w s a); [|by inversion V].
    exists p. split; [done|apply Lv].
  - destruct (view w s a); [by inversion V|done].
Qed.

Lemma Exist_run w s sp a :
  sound del w s sp -> st_key a -> exists w' s', Exist a w s = Ok (present sp a, w', s') /\ sound del w' s' sp /\ forall P, keep P s s'.
Proof.
  intros I Ka. destruct (GetStateObject_run w s sp a I Ka) as (r & w1 & s1 & Eg & I1 & K & Hr). exists w1, s1.
  unfold Exist. rewrite (run_bind _ _ _ _ _ _ _ Eg). split; [|done].
  destruct (present sp a); [by destruct Hr as (p & -> & _)|by subst].
Qed.

Lemma read_run {X} w s sp a (g : StateObject -> X) (f : acct -> X) x :
  sound del w s sp -> st_key a -> respects f eq -> (forall w o, g o = f (oview w o)) ->
  exists w' s', (let! so := GetStateObject a in match so with Some p => bindS (get_obj p) (fun o => retS (g o)) | None => retS x end)
      w s = Ok (ask sp a f x, w', s') /\ sound del w' s' sp /\ forall P, keep P s s'.
Proof.
  intros [I Fl] Ka Hf Hg. destruct (query_quiet w s sp a (fun p => bindS (get_obj p) (fun o => retS (g o))) f x I Ka Hf) as (w' & s' & E & Q).
  - intros w0 s0 p o WF Lv. exists w0. unfold bindS, get_obj. pose proof Lv as (_ & -> & _).
    split; [by rewrite (Hg w0)|by apply quiet_refl].
  - exists w', s'. split; [exact E|]. split; [split; [by eapply inv_quiet|]|intros P; by eapply keep_quiet].
    eapply query_flush; [exact Fl|exact Ka| |exact E]. intros w0 s0 p o. by apply read_flush.
Qed.

Lemma GetBalance_run w s sp a :
  sound del w s sp -> st_key a -> exists w' s', GetBalance a w s = Ok (bal sp a, w', s') /\ sound del w' s' sp /\ forall P, keep P s s'.
Proof. intros I Ka. apply read_run; [done|done|by intros x y []|done]. Qed.

Lemma GetNonce_run w s sp a :
  sound del w s sp -> st_key a -> exists w' s', GetNonce StartingNonce a w s = Ok (nonce_of sp a, w', s') /\ sound del w' s' sp /\ forall P, keep P s s'.
Proof. intros I Ka. apply read_run; [done|done|by intros x y []|done]. Qed.

Lemma CreateAccount_run w s sp a :
  sound del w s sp -> st_key a ->
  exists p w' s', CreateAccount StartingNonce a w s = Ok (p, w', s') /\ sound del w' s' (create sp a) /\
    stateObjects s' !! a = Some p /\ keep (fun b => b <> a) s s'.
Proof.
  intros [I Fl] Ka. destruct (CreateAccount_ok StartingNonce w s a (inv_wf _ _ _ I) Ka) as (p & w' & s' & o & E & St & Lv & K).
  destruct (flush_CreateAccount StartingNonce del w s a Fl Ka) as (p1 & w1 & s1 & o1 & E1 & F1 & _).
  rewrite E in E1. injection E1 as <- <- <-. exists p, w', s'. split; [done|]. split; [split; [|done]|split; [apply Lv|exact K]].
  eapply inv_step; [done|exact St| |apply I]. apply upd_proper; [apply I|done|].
  unfold bal. by rewrite <- (ask_eq w s sp a a_balance 0 I) by (by intros x y []).
Qed.

(** A change of an account that may have to be created. *)
Lemma api_run w s sp a (m : nat -> M unit) g :
  sound del w s sp -> st_key a -> respects g acct_eq ->
  (forall w s p o, wf w s (journal s) -> live w s a p o ->
     exists w' s', m p w s = Ok (tt, w', s') /\ step w s w' s' (upd (abs w s) a (Some (g (oview w o)))) /\
       stateObjects s' = stateObjects s) ->
  (forall w s p o, flushable del w s (journal s) -> live w s a p o -> flushed del a p (m p w s)) ->
  exists w' s', (let! p := GetOrNewStateObject StartingNonce a in m p) w s = Ok (tt, w', s') /\
    sound del w' s' (change StartingNonce sp a g) /\ keep (fun b => b = a -> present sp a = true) s s'.
Proof.
  intros [I Fl] Ka Hg Hm Hf. destruct (GetOrNewStateObject_ok StartingNonce w s a (inv_wf _ _ _ I) Ka) as (p & w1 & s1 & o & Eg & St & Lv & V & K).
  destruct (Hm w1 s1 p o (step_wf _ _ _ _ _ St) Lv) as (w2 & s2 & E2 & St2 & Es). exists w2, s2.
  destruct (change_ok StartingNonce w s sp a m g I Ka Hg) as (w3 & s3 & E3 & I3).
  { intros w0 s0 q o0 WF0 Lv0. destruct (Hm w0 s0 q o0 WF0 Lv0) as (w' & s' & ? & ? & _). by exists w', s'. }
  pose proof (change_flush StartingNonce del w s a m w3 s3 Fl Ka Hf E3) as F3.
  unfold bindS in E3 |- *. rewrite Eg in E3 |- *. rewrite E2 in E3 |- *.
  injection E3 as <- <-. split; [done|]. split; [done|]. intros b q Hb Eb. rewrite Es. apply K; [|done].
  intros ->. specialize (Hb eq_refl). unfold present in Hb. rewrite <- (ask_eq w s sp a _ false I) in Hb by done.
  by destruct (view w s a).
Qed.

Lemma AddBalance_run w s sp a z :
  sound del w s sp -> st_key a -> exists w' s', AddBalance StartingNonce a z w s = Ok (tt, w', s') /\ sound del w' s' (credit sp a z).
Proof.
  intros I Ka. destruct (api_run w s sp a (fun p => obj_AddBalance p z) (fun x => with_balance x (a_balance x + z)) I Ka) as (w' & s' & E & I' & _);
    [auto| |intros w0 s0 p o; apply flush_AddBalance|by exists w', s'].
  intros w0 s0 p o WF Lv. apply (obj_balance_step w0 s0 a p); [done|done|]. unfold obj_AddBalance.
  rewrite (get_obj_run _ _ _ o) by apply Lv. destruct (_ && _) eqn:Z0; [left|by right].
  apply andb_true_iff in Z0 as [->%Z.eqb_eq _]. done.
Qed.

Lemma SetNonce_run w s sp a n :
  sound del w s sp -> st_key a ->
  exists w' s', SetNonce StartingNonce a n w s = Ok (tt, w', s') /\ sound del w' s' (renonce sp a n) /\
    keep (fun b => b = a -> present sp a = true) s s'.
Proof.
  intros I Ka. apply api_run; [done|done|auto| |intros w0 s0 p o; apply flush_SetNonce]. intros w0 s0 p o WF Lv.
  destruct (obj_SetNonce_ok w0 s0 a p o n WF Lv) as (w' & s' & o' & E & St & _ & Es). by exists w', s'.
Qed.

Lemma SetCode_run w s sp a :
  sound del w s sp -> st_key a -> exists w' s', SetCode StartingNonce a None w s = Ok (tt, w', s') /\ sound del w' s' (recode sp a).
Proof.
  intros [I Fl] Ka. pose proof (call_ok StartingNonce w s sp (CSetCode a None) I Ka) as (w' & s' & E & I').
  pose proof (call_flush StartingNonce del w s (CSetCode a None) _ w' s' Fl (conj Ka Logic.I) E) as F'. exists w', s'. split; [|by split]. cbn [run_call] in E. unfold unit_answer, answering, bindS in E.
  by destruct (SetCode _ _ _ _ _) as [[[[] ?] ?]| |]; [injection E as <- <-|..].
Qed.

Lemma present_upd sp a b x : present (set_cur sp (upd (cur sp) a (Some x))) b = bool_decide (b = a) || present sp b.
Proof. unfold present, ask. cbn. unfold upd. cbn. repeat case_decide; subst; case_bool_decide; by try congruence. Qed.

Lemma present_touch sp a b : present (touch sp a) b = bool_decide (b = a) || present sp b.
Proof. unfold touch. destruct (present sp a) eqn:E; [case_bool_decide; [subst; by rewrite E|done]|apply present_upd]. Qed.

Lemma ensure_run w s sp a :
  sound del w s sp -> st_key a ->
  exists p w' s', (let! e := Exist a in if e : bool then GetAccount a else CreateAccount StartingNonce a) w s = Ok (p, w', s') /\
    sound del w' s' (touch sp a) /\ stateObjects s' !! a = Some p.
Proof.
  intros I Ka. destruct (Exist_run w s sp a I Ka) as (w1 & s1 & E1 & I1 & _). unfold touch.
  rewrite (run_bind _ _ _ _ _ _ _ E1). destruct (present sp a) eqn:Ha.
  - destruct (GetStateObject_run w1 s1 sp a I1 Ka) as (r & w2 & s2 & E2 & I2 & _ & Hr). rewrite Ha in Hr.
    destruct Hr as (p & -> & Ep). exists p, w2, s2. unfold GetAccount. by rewrite (run_bind _ _ _ _ _ _ _ E2).
  - destruct (CreateAccount_run w1 s1 sp a I1 Ka) as (p & w2 & s2 & E2 & I2 & Ep & _). by exists p, w2, s2.
Qed.

Lemma Transfer_run w s sp f t p q v :
  sound del w s sp -> stateObjects s !! f = Some p -> present sp f = true -> stateObjects s !! t = Some q -> present sp t = true ->
  exists w' s', Transfer p q v w s = Ok (tt, w', s') /\ sound del w' s' (credit (credit sp f (- v)) t v).
Proof.
  intros I Ep Hp Eq Hq. destruct (obj_SubBalance_run w s sp f p v I Ep Hp) as (w1 & s1 & E1 & I1 & Es).
  unfold Transfer. rewrite (run_bind _ _ _ _ _ _ _ E1).
  destruct (obj_AddBalance_run w1 s1 (credit sp f (- v)) t q v I1) as (w2 & s2 & E2 & I2 & _); [by rewrite Es| |by exists w2, s2].
  unfold credit, change. by rewrite present_upd, Hq, orb_true_r.
Qed.

Lemma check_run env w s sp a v :
  sound del w s sp -> st_key a -> exists w' s', check_call env a v w s = Ok (check_spec env sp a v, w', s') /\ sound del w' s' sp.
Proof.
  intros I Ka. unfold check_call, check_spec. destruct (CallCreateDepth <? depth env); [by exists w, s|].
  unfold CanTransfer. destruct (GetBalance_run w s sp a I Ka) as (w1 & s1 & E1 & I1 & _).
  assert (E : bindS (GetBalance a) (fun b => retS (v <=? b)) w s = Ok (v <=? bal sp a, w1, s1)) by (by rewrite (run_bind _ _ _ _ _ _ _ E1)).
  rewrite (run_bind _ _ _ _ _ _ _ E). destruct (v <=? bal sp a); [by exists w1, s1|].
  destruct (GetBalance_run w1 s1 sp a I1 Ka) as (w2 & s2 & E2 & I2 & _). exists w2, s2. by rewrite (run_bind _ _ _ _ _ _ _ E2).
Qed.

Lemma Snapshot_run w s sp :
  sound del w s sp -> exists s', Snapshot w s = Ok (nextId sp, w, s') /\ sound del w s' (snap sp).
Proof.
  intros [I Fl]. destruct (Snapshot_ok StartingNonce w s sp I) as (s' & sp' & E & Es & I'). injection Es as <-. exists s'.
  split; [done|]. split; [done|]. injection E as _ <-. by apply (flushable_state del w s).
Qed.

(** The account called, with the caller's pointer still good. *)
Lemma target_run w s sp a b p :
  sound del w s sp -> st_key b -> present sp a = true -> stateObjects s !! a = Some p ->
  exists q w' s', (if present sp b then GetAccount b else CreateAccount StartingNonce b) w s = Ok (q, w', s') /\
    sound del w' s' (touch sp b) /\ stateObjects s' !! b = Some q /\ stateObjects s' !! a = Some p.
Proof.
  intros I Kb Ha Ep. unfold touch. destruct (present sp b) eqn:Hb.
  - destruct (GetStateObject_run w s sp b I Kb) as (r & w1 & s1 & E1 & I1 & K1 & Hr). rewrite Hb in Hr.
    destruct Hr as (q & -> & Eq). exists q, w1, s1. unfold GetAccount. rewrite (run_bind _ _ _ _ _ _ _ E1).
    split; [done|]. split; [done|]. split; [done|]. by apply (K1 (fun _ => True)).
  - destruct (CreateAccount_run w s sp b I Kb) as (q & w1 & s1 & E1 & I1 & Eq & K1). exists q, w1, s1.
    split; [done|]. split; [done|]. split; [done|]. apply K1; [congruence|done].
Qed.

(** A call, when the caller exists. *)
Lemma Call_run env w s sp a b v :
  sound del w s sp -> st_key a -> st_key b -> present sp a = true ->
  exists w' s', Call StartingNonce env a b v w s = Ok ((call_spec env sp a b v).1, w', s') /\ sound del w' s' (call_spec env sp a b v).2.
Proof.
  intros I Ka Kb Ha. destruct (check_run env w s sp a v I Ka) as (w1 & s1 & E1 & I1). unfold Call, call_spec.
  rewrite (run_bind _ _ _ _ _ _ _ E1). destruct (check_spec env sp a v) as [e|]; [by exists w1, s1|].
  destruct (Snapshot_run w1 s1 sp I1) as (s2 & E2 & I2). rewrite (run_bind _ _ _ _ _ _ _ E2).
  destruct (GetStateObject_run w1 s2 _ a I2 Ka) as (r & w3 & s3 & E3 & I3 & _ & Hr). rewrite (run_bind _ _ _ _ _ _ _ E3).
  change (present (snap sp) a) with (present sp a) in Hr. rewrite Ha in Hr. destruct Hr as (p & -> & Ep).
  destruct (Exist_run w3 s3 _ b I3 Kb) as (w4 & s4 & E4 & I4 & K4). rewrite (run_bind _ _ _ _ _ _ _ E4).
  change (present (snap sp) b) with (present sp b). apply (K4 (fun _ => True)) in Ep; [|done].
  destruct (negb _ && _ && _ && _); [by exists w4, s4|].
  destruct (target_run w4 s4 _ a b p I4 Kb Ha Ep) as (q & w5 & s5 & E5 & I5 & Eq & Ep5).
  change (present (snap sp) b) with (present sp b) in E5.
  rewrite (run_bind _ _ _ _ _ _ _ E5). cbn [deref].
  unfold bindS at 1. cbn [retS].
  destruct (Transfer_run w5 s5 _ a b p q v I5 Ep5) as (w6 & s6 & E6 & I6); [|done| |].
  - rewrite present_touch. change (present (snap sp) a) with (present sp a). by rewrite Ha, orb_true_r.
  - by rewrite present_touch, bool_decide_true.
  - exists w6, s6. by rewrite (run_bind _ _ _ _ _ _ _ E6).
Qed.

(** ** Creation *)

(** The address of a created account: the last 20 bytes of the hash of the
    list of its creator's address and nonce. *)
Definition new_address (b : bytes) (nonce : Z) : bytes :=
  BytesToAddress (drop 12 (Keccak256 (enc_list (enc_string b ++ enc_string (Bytes nonce))))).

Lemma CreateAddress_run w s b nonce :
  bytes_ok b -> length b = 20%nat -> 0 <= nonce < 2 ^ 64 -> CreateAddress b nonce w s = Ok (new_address b nonce, w, s).
Proof.
  intros Hb Hl Hn. unfold CreateAddress. rewrite EncodeToBytes_enc.
  - unfold retS, new_address. cbn [enc map concat]. by rewrite app_nil_r.
  - cbn. split; [done|]. split; [done|]. split; [|done]. split; [tauto|done].
  - cbn [enc map concat]. rewrite app_nil_r. pose proof (Bytes_length_64 nonce Hn) as Hz.
    assert (Lb : len b = 20) by (by rewrite Hl). assert (Lz : len (Bytes nonce) <= 8) by (clear -Hz; lia).
    pose proof (enc_string_len_short b ltac:(rewrite Lb; done)) as L1.
    pose proof (enc_string_len_short (Bytes nonce) ltac:(clear -Lz; lia)) as L2.
    assert (L : len (enc_string b ++ enc_string (Bytes nonce)) <= 30).
    { rewrite length_app. clear -L1 L2 Lb Lz. lia. }
    pose proof (enc_list_len (enc_string b ++ enc_string (Bytes nonce))) as L3. clear -L L3. lia.
Qed.

Definition create_spec (env : VMEnv) sp (caller : bytes) (gas value : Z) : Z * option tx_error * spec :=
  match check_spec env sp caller value with
  | Some e => (gas, Some e, sp)
  | None =>
      let nonce := nonce_of sp caller in
      let addr := new_address caller nonce in
      let sp := create (snap (renonce sp caller (u64 (nonce + 1)))) addr in
      let sp := if IsSiotImpr2 (chainConfig env) (BlockNumber env) then renonce sp addr 1 else sp in
      (gas, None, recode (credit (credit sp caller (- value)) addr value) addr)
  end.

(** The new account holds what the address held before, and a nonce of 1 since
    the fork. *)
Lemma fresh_run env w s sp a b p :
  sound del w s sp -> st_key b -> stateObjects s !! a = Some p -> a <> b ->
  exists q w' s',
    (forall X (k : nat -> M X),
       (let! to := CreateAccount StartingNonce b in
        let! _ := (if IsSiotImpr2 (chainConfig env) (BlockNumber env) then SetNonce StartingNonce b 1 else retS tt) in
        k to) w s = k q w' s') /\
    sound del w' s' (if IsSiotImpr2 (chainConfig env) (BlockNumber env) then renonce (create sp b) b 1 else create sp b) /\
    stateObjects s' !! a = Some p /\ stateObjects s' !! b = Some q.
Proof.
  intros I Kb Ep Hab. destruct (CreateAccount_run w s sp b I Kb) as (q & w1 & s1 & E1 & I1 & Eq & K1).
  apply K1 in Ep; [|done]. exists q.
  destruct (IsSiotImpr2 _ _); [|exists w1, s1; split; [intros X k; by rewrite (run_bind _ _ _ _ _ _ _ E1)|done]].
  destruct (SetNonce_run w1 s1 _ b 1 I1 Kb) as (w2 & s2 & E2 & I2 & K2). exists w2, s2.
  split; [intros X k; by rewrite (run_bind _ _ _ _ _ _ _ E1), (run_bind _ _ _ _ _ _ _ E2)|]. split; [done|]. split; apply K2; try done. intros _. unfold create.
  by rewrite present_upd, bool_decide_true.
Qed.

Lemma Create_run env w s sp a gas v :
  sound del w s sp -> st_key a -> st_key (new_address a (nonce_of sp a)) ->
  bytes_ok a -> length a = 20%nat -> 0 <= nonce_of sp a < 2 ^ 64 ->
  a <> new_address a (nonce_of sp a) -> 0 <= gas ->
  let '(g, e, sp') := create_spec env sp a gas v in
  exists w' s', Create StartingNonce env a gas v w s = Ok ((g, e), w', s') /\ sound del w' s' sp'.
Proof.
  intros I Ka Kb Hb Hl Hn Hne Hg. destruct (check_run env w s sp a v I Ka) as (w1 & s1 & E1 & I1). unfold create_spec, Create.
  destruct (check_spec env sp a v) as [e|]; [exists w1, s1; by rewrite (run_bind _ _ _ _ _ _ _ E1)|].
  rewrite (run_bind _ _ _ _ _ _ _ E1).
  destruct (GetNonce_run w1 s1 sp a I1 Ka) as (w2 & s2 & E2 & I2 & _). rewrite (run_bind _ _ _ _ _ _ _ E2).
  set (n := nonce_of sp a) in *. set (b := new_address a n) in *.
  destruct (SetNonce_run w2 s2 sp a (u64 (n + 1)) I2 Ka) as (w3 & s3 & E3 & I3 & _). rewrite (run_bind _ _ _ _ _ _ _ E3).
  destruct (Snapshot_run w3 s3 _ I3) as (s4 & E4 & I4). rewrite (run_bind _ _ _ _ _ _ _ E4).
  rewrite (run_bind _ _ _ _ _ _ _ (CreateAddress_run w3 s4 a n Hb Hl Hn)).
  set (sp4 := snap _) in *.
  assert (P4 : present sp4 a = true) by (change (present (renonce sp a (u64 (n + 1))) a = true); unfold renonce, change;
    by rewrite present_upd, bool_decide_true).
  destruct (GetStateObject_run w3 s4 sp4 a I4 Ka) as (r & w5 & s5 & E5 & I5 & _ & Hr). rewrite P4 in Hr.
  destruct Hr as (p & -> & Ep).
  assert (E5' : GetAccount a w3 s4 = Ok (p, w5, s5)) by (unfold GetAccount; by rewrite (run_bind _ _ _ _ _ _ _ E5)).
  rewrite (run_bind _ _ _ _ _ _ _ E5').
  destruct (fresh_run env w5 s5 sp4 a b p I5 Kb Ep Hne) as (q & w6 & s6 & E6 & I6 & Ep6 & Eq6).
  rewrite E6. clear E6. set (sp6 := if IsSiotImpr2 _ _ then renonce (create sp4 b) b 1 else _) in *.
  assert (P6 : forall c, c = b \/ present sp4 c = true -> present sp6 c = true).
  { intros c Hc. assert (X : present (create sp4 b) c = true).
    { unfold create. rewrite present_upd. by destruct Hc as [->| ->]; [rewrite bool_decide_true|rewrite orb_true_r]. }
    unfold sp6. destruct (IsSiotImpr2 _ _); [|done]. unfold renonce, change. by rewrite present_upd, X, orb_true_r. }
  destruct (Transfer_run w6 s6 sp6 a b p q v I6 Ep6 (P6 a (or_intror P4)) Eq6 (P6 b (or_introl eq_refl))) as (w7 & s7 & E7 & I7).
  rewrite (run_bind _ _ _ _ _ _ _ E7). destruct (SetCode_run w7 s7 _ b I7 Kb) as (w8 & s8 & E8 & I8). exists w8, s8.
  split; [|exact I8]. change (MaxCodeSize <? len (@nil Z)) with false. cbn [negb orb].
  assert (Eu : useGas gas (len (@nil Z) * CreateDataGas) = Some gas).
  { unfold useGas. change (len (@nil Z) * CreateDataGas) with 0. by rewrite (proj2 (Z.ltb_ge gas 0)), Z.sub_0_r. }
  rewrite Eu. rewrite (run_bind _ _ _ _ (gas, None) w8 s8); [done|]. by rewrite (run_bind _ _ _ _ _ _ _ E8).
Qed.

(** ** The transition *)

Definition precheck_spec (msg : Message) (gp : Z) sp : Z * option tx_error * spec :=
  let sp := touch sp (From msg) in
  let cost := Gas msg * GasPrice msg in
  if CheckNonce msg && negb (nonce_of sp (From msg) =? MsgNonce msg)
  then (gp, Some (NonceErr (MsgNonce msg) (nonce_of sp (From msg))), sp)
  else if bal sp (From msg) <? cost then (gp, Some (InsufficientFunds cost (bal sp (From msg))), sp)
  else if gp <? Gas msg then (gp, Some (GasLimitErr gp (Gas msg)), sp)
  else (gp - Gas msg, None, credit sp (From msg) (- cost)).

(** Nothing is refunded; what is left is sold back and the rest goes to the
    coinbase. *)
Definition settle_spec (env : VMEnv) (msg : Message) (gas : Z) sp : spec :=
  let sp := credit (credit sp (From msg) (gas * GasPrice msg)) (From msg) 0 in
  credit sp (Coinbase env) ((Gas msg - gas) * GasPrice msg).

Definition execute_spec (env : VMEnv) (msg : Message) (gas : Z) sp : Z * option tx_error * spec :=
  match To msg with
  | None => create_spec env sp (From msg) gas (Value msg)
  | Some addr =>
      let sp := touch (renonce sp (From msg) (u64 (nonce_of sp (From msg) + 1))) addr in
      let '(err, sp) := call_spec env sp (From msg) addr (Value msg) in
      (gas, err, sp)
  end.

Definition required (env : VMEnv) (msg : Message) : Z :=
  IntrinsicGas (Data msg) (MessageCreatesExternalLogic msg) (IsHomestead (chainConfig env) (BlockNumber env)).

Definition transition_spec (env : VMEnv) (msg : Message) (gp : Z) sp : Z * (tx_error + Z * Z) * spec :=
  let '(gp, err, sp) := precheck_spec msg gp sp in
  match err with
  | Some e => (gp, inl e, sp)
  | None =>
      if Gas msg <? required env msg then (gp, inl OutOfGasError, sp)
      else
        let '(gas, err, sp) := execute_spec env msg (Gas msg - required env msg) sp in
        match err with
        | Some (ValueTransferErr want have) => (gp, inl (ValueTransferErr want have), sp)
        | _ => (gp + gas, inr (Gas msg - gas, Gas msg - gas), settle_spec env msg gas sp)
        end
  end.

(** The sender's object, which is the account of its address. *)
Lemma from_run w s sp msg :
  sound del w s sp -> st_key (From msg) ->
  exists p o w' s', from StartingNonce msg w s = Ok (p, w', s') /\ sound del w' s' (touch sp (From msg)) /\
    stateObjects s' !! From msg = Some p /\ objs w' !! p = Some o /\ address o = From msg /\
    Balance (data o) = bal (touch sp (From msg)) (From msg).
Proof.
  intros I Kf. destruct (ensure_run w s sp (From msg) I Kf) as (p & w' & s' & E & I' & Ep).
  destruct (ptr_live w' s' _ (From msg) p I' Ep) as (o & x & Lv & Ea & Ex & Eo).
  { by rewrite present_touch, bool_decide_true. }
  exists p, o, w', s'. split; [exact E|]. split; [done|]. split; [done|]. split; [apply Lv|]. split; [done|].
  unfold bal, ask. rewrite Ex. by destruct Eo.
Qed.

Lemma touch_present sp a : present sp a = true -> touch sp a = sp.
Proof. unfold touch. by intros ->. Qed.

Lemma touch_touch sp a : touch (touch sp a) a = touch sp a.
Proof. apply touch_present. by rewrite present_touch, bool_decide_true. Qed.

Lemma buyGas_run w s sp msg gp :
  sound del w s sp -> st_key (From msg) -> present sp (From msg) = true ->
  let cost := Gas msg * GasPrice msg in
  let '(g, e, sp') :=
    (if bal sp (From msg) <? cost then (gp, Some (InsufficientFunds cost (bal sp (From msg))), sp)
     else if gp <? Gas msg then (gp, Some (GasLimitErr gp (Gas msg)), sp)
     else (gp - Gas msg, None, credit sp (From msg) (- cost))) in
  exists w' s', buyGas StartingNonce msg gp w s = Ok ((g, e), w', s') /\ sound del w' s' sp'.
Proof.
  intros I Kf P cost. destruct (from_run w s sp msg I Kf) as (p & o & w1 & s1 & E1 & I1 & Ep & Eo & Ea & Eb).
  rewrite (touch_present sp _ P) in *. unfold buyGas, SubGas.
  destruct (bal sp (From msg) <? cost) eqn:Lt; [|destruct (gp <? Gas msg) eqn:Lg].
  - exists w1, s1. rewrite (run_bind _ _ _ _ _ _ _ E1), (get_obj_run _ _ _ _ _ Eo), Eb. fold cost. by rewrite Lt.
  - exists w1, s1. rewrite (run_bind _ _ _ _ _ _ _ E1), (get_obj_run _ _ _ _ _ Eo), Eb. fold cost. by rewrite Lt.
  - destruct (obj_SubBalance_run w1 s1 sp (From msg) p cost I1 Ep P) as (w2 & s2 & E2 & I2 & _). exists w2, s2.
    rewrite (run_bind _ _ _ _ _ _ _ E1), (get_obj_run _ _ _ _ _ Eo), Eb. fold cost. rewrite Lt.
    by rewrite (run_bind _ _ _ _ _ _ _ E2).
Qed.

Lemma preCheck_run w s sp msg gp :
  sound del w s sp -> st_key (From msg) ->
  let '(g, e, sp') := precheck_spec msg gp sp in
  exists w' s', preCheck StartingNonce msg gp w s = Ok ((g, e), w', s') /\ sound del w' s' sp'.
Proof.
  intros I Kf. destruct (from_run w s sp msg I Kf) as (p & o & w1 & s1 & E1 & I1 & Ep & Eo & Ea & Eb).
  assert (P : present (touch sp (From msg)) (From msg) = true) by (by rewrite present_touch, bool_decide_true).
  unfold precheck_spec, preCheck. set (sp1 := touch sp (From msg)) in *.
  assert (X : exists w2 s2, (if CheckNonce msg then
       let! n := GetNonce StartingNonce (address o) in
       retS (if n =? MsgNonce msg then None else Some (NonceErr (MsgNonce msg) n))
     else retS None) w1 s1 = Ok (if CheckNonce msg && negb (nonce_of sp1 (From msg) =? MsgNonce msg)
       then Some (NonceErr (MsgNonce msg) (nonce_of sp1 (From msg))) else None, w2, s2) /\ sound del w2 s2 sp1).
  { destruct (CheckNonce msg); [|by exists w1, s1]. rewrite Ea.
    destruct (GetNonce_run w1 s1 sp1 (From msg) I1 Kf) as (w2 & s2 & E2 & I2 & _). exists w2, s2.
    rewrite (run_bind _ _ _ _ _ _ _ E2). by destruct (_ =? _). }
  destruct X as (w2 & s2 & E2 & I2). rewrite (run_bind _ _ _ _ _ _ _ E1), (get_obj_run _ _ _ _ _ Eo), (run_bind _ _ _ _ _ _ _ E2).
  destruct (CheckNonce msg && _); [by exists w2, s2|]. apply (buyGas_run w2 s2 sp1 msg gp I2 Kf P).
Qed.

Lemma refundGas_run w s sp msg gas gp :
  sound del w s sp -> st_key (From msg) -> present sp (From msg) = true -> a_refund (cur sp) = 0 -> 2 <= Gas msg - gas ->
  exists w' s', refundGas StartingNonce msg gas gp w s = Ok ((gas, gp + gas), w', s') /\
    sound del w' s' (credit (credit sp (From msg) (gas * GasPrice msg)) (From msg) 0).
Proof.
  intros I Kf P Rf Hg. destruct (from_run w s sp msg I Kf) as (p & o & w1 & s1 & E1 & I1 & Ep & _).
  rewrite (touch_present sp _ P) in *. unfold refundGas.
  destruct (obj_AddBalance_run w1 s1 sp (From msg) p (gas * GasPrice msg) I1 Ep P) as (w2 & s2 & E2 & I2 & Es).
  set (sp2 := credit sp (From msg) (gas * GasPrice msg)) in *.
  assert (R2 : refund s2 = 0) by (rewrite <- Rf; change (refund s2 = a_refund (cur sp2)); apply (eq_refund _ _ (inv_cur _ _ _ (proj1 I2)))).
  assert (Er : GetRefund w2 s2 = Ok (0, w2, s2)) by (unfold GetRefund, bindS, getS, retS; by rewrite R2).
  assert (L : (0 <? (Gas msg - gas) / 2) = true) by (apply Z.ltb_lt, Z.div_str_pos; lia).
  assert (E0 : set_refund s2 0 = s2) by (rewrite <- R2 at 1; by destruct s2).
  destruct (ptr_live w2 s2 sp2 (From msg) p I2) as (o2 & x & Lv & Ea & _); [by rewrite Es| |].
  { unfold sp2, credit, change. by rewrite present_upd, bool_decide_true. }
  destruct (AddBalance_run w2 s2 sp2 (From msg) 0 I2 Kf) as (w3 & s3 & E3 & I3). exists w3, s3. split; [|exact I3].
  rewrite (run_bind _ _ _ _ _ _ _ E1), (run_bind _ _ _ _ _ _ _ E2), (run_bind _ _ _ _ _ _ _ Er), L. cbn zeta.
  unfold bindS at 1, modify. rewrite Z.mul_0_l, E0, (get_obj_run _ _ _ o2) by apply Lv.
  rewrite Ea, (run_bind _ _ _ _ _ _ _ E3). by rewrite Z.add_0_r.
Qed.

(** What the operations of the specification change. *)
Lemma present_change sp a f b : present (change StartingNonce sp a f) b = bool_decide (b = a) || present sp b.
Proof. apply present_upd. Qed.

Lemma present_create sp a b : present (create sp a) b = bool_decide (b = a) || present sp b.
Proof. apply present_upd. Qed.

Lemma refund_touch sp a : a_refund (cur (touch sp a)) = a_refund (cur sp).
Proof. unfold touch. by destruct (present sp a). Qed.

Lemma ask_change {X} sp a f b (g : acct -> X) x :
  ask (change StartingNonce sp a f) b g x =
    if decide (b = a) then g (f (acct_of StartingNonce (cur sp) a)) else ask sp b g x.
Proof. unfold ask, change. cbn. by case_decide. Qed.

Lemma acct_of_bal sp a : a_balance (acct_of StartingNonce (cur sp) a) = bal sp a.
Proof. unfold acct_of, bal, ask. by destruct (accts (cur sp) a). Qed.

Lemma acct_of_nonce sp a : a_nonce (acct_of StartingNonce (cur sp) a) = nonce_of sp a.
Proof. unfold acct_of, nonce_of, ask. by destruct (accts (cur sp) a). Qed.

Lemma bal_credit sp a z b : bal (credit sp a z) b = bal sp b + (if decide (b = a) then z else 0).
Proof. unfold bal at 1, credit. rewrite ask_change. case_decide; [subst|]; cbn; rewrite ?acct_of_bal; unfold bal; lia. Qed.

Lemma bal_renonce sp a n b : bal (renonce sp a n) b = bal sp b.
Proof. unfold bal at 1, renonce. rewrite ask_change. case_decide; [subst|]; cbn; by rewrite ?acct_of_bal. Qed.

Lemma bal_recode sp a b : bal (recode sp a) b = bal sp b.
Proof. unfold bal at 1, recode. rewrite ask_change. case_decide; [subst|]; cbn; by rewrite ?acct_of_bal. Qed.

Lemma bal_create sp a b : bal (create sp a) b = bal sp b.
Proof. unfold bal at 1, ask, create. cbn. case_decide; [by subst|done]. Qed.

Lemma bal_snap sp b : bal (snap sp) b = bal sp b. Proof. done. Qed.

Lemma bal_touch sp a b : bal (touch sp a) b = bal sp b.
Proof. unfold touch. destruct (present sp a); [done|apply bal_create]. Qed.

Lemma nonce_credit sp a z b : nonce_of (credit sp a z) b = nonce_of sp b.
Proof. unfold nonce_of at 1, credit. rewrite ask_change. case_decide; [subst|]; cbn; by rewrite ?acct_of_nonce. Qed.

Lemma nonce_recode sp a b : nonce_of (recode sp a) b = nonce_of sp b.
Proof. unfold nonce_of at 1, recode. rewrite ask_change. case_decide; [subst|]; cbn; by rewrite ?acct_of_nonce. Qed.

Lemma nonce_renonce sp a n b : nonce_of (renonce sp a n) b = if decide (b = a) then n else nonce_of sp b.
Proof. unfold nonce_of at 1, renonce. rewrite ask_change. by case_decide. Qed.

Lemma nonce_create sp a b : nonce_of (create sp a) b = if decide (b = a) then StartingNonce else nonce_of sp b.
Proof. unfold nonce_of at 1, ask, create. cbn. by case_decide. Qed.

Lemma nonce_snap sp b : nonce_of (snap sp) b = nonce_of sp b. Proof. done. Qed.

Lemma nonce_touch sp a b : nonce_of (touch sp a) b = nonce_of sp b.
Proof.
  unfold touch, present, nonce_of, ask. destruct (accts (cur sp) a) eqn:E; [done|]. cbn.
  case_decide; [subst; by rewrite E|done].
Qed.

(** The account a message goes to. *)
Definition target (msg : Message) sp : bytes :=
  match To msg with Some a => a | None => new_address (From msg) (nonce_of sp (From msg)) end.

(** The accounts of a message are among those in use, and a creation names an
    address the sender does not have. *)
Record addressed (env : VMEnv) (msg : Message) sp : Prop := {
  ad_from : st_key (From msg);
  ad_target : st_key (target msg sp);
  ad_coinbase : st_key (Coinbase env);
  ad_create :
    To msg = None ->
    bytes_ok (From msg) /\ length (From msg) = 20%nat /\ 0 <= nonce_of sp (From msg) < 2 ^ 64 /\
    From msg <> new_address (From msg) (nonce_of sp (From msg))
}.

Lemma execute_run env w s sp msg so gas :
  sound del w s sp -> present sp (From msg) = true -> address so = From msg -> addressed env msg sp -> 0 <= gas ->
  let '(g, e, sp') := execute_spec env msg gas sp in
  exists w' s',
    (match To msg with
     | None =>
         let! (gas, err) := Create StartingNonce env (address so) gas (Value msg) in
         retS (if IsHomestead (chainConfig env) (BlockNumber env) &&
                  match err with Some CodeStoreOutOfGasError => true | _ => false end then 0 else gas, err)
     | Some addr =>
         let! n := GetNonce StartingNonce (address so) in
         let! _ := SetNonce StartingNonce (address so) (u64 (n + 1)) in
         let! t := to StartingNonce addr in
         let! o := get_obj t in
         let! err := Call StartingNonce env (address so) (address o) (Value msg) in
         retS (gas, err)
     end) w s = Ok ((g, e), w', s') /\ sound del w' s' sp'.
Proof.
  intros I P Ea [Kf Kt _ C] Hg. unfold execute_spec. unfold target in Kt. rewrite Ea. destruct (To msg) as [addr|] eqn:Et.
  - destruct (GetNonce_run w s sp (From msg) I Kf) as (w1 & s1 & E1 & I1 & _). rewrite (run_bind _ _ _ _ _ _ _ E1).
    destruct (SetNonce_run w1 s1 sp (From msg) (u64 (nonce_of sp (From msg) + 1)) I1 Kf) as (w2 & s2 & E2 & I2 & _).
    rewrite (run_bind _ _ _ _ _ _ _ E2). set (sp2 := renonce sp _ _) in *.
    destruct (ensure_run w2 s2 sp2 addr I2 Kt) as (q & w3 & s3 & E3 & I3 & Eq). unfold to. rewrite (run_bind _ _ _ _ _ _ _ E3).
    destruct (ptr_live w3 s3 _ addr q I3 Eq) as (o & x & Lv & Eo & _); [by rewrite present_touch, bool_decide_true|].
    rewrite (get_obj_run _ _ _ o) by apply Lv. rewrite Eo.
    destruct (Call_run env w3 s3 _ (From msg) addr (Value msg) I3 Kf Kt) as (w4 & s4 & E4 & I4).
    { rewrite present_touch. unfold sp2, renonce, change. by rewrite present_upd, P, !orb_true_r. }
    destruct (call_spec env _ _ _ _) as [e sp']. exists w4, s4. by rewrite (run_bind _ _ _ _ _ _ _ E4).
  - destruct (C eq_refl) as (C1 & C2 & C3 & C4).
    pose proof (Create_run env w s sp (From msg) gas (Value msg) I Kf Kt C1 C2 C3 C4 Hg) as R. unfold create_spec in *.
    destruct (check_spec env sp (From msg) (Value msg)) as [e|] eqn:Ec; destruct R as (w' & s' & E & I'); exists w', s'.
    + rewrite (run_bind _ _ _ _ _ _ _ E). split; [|done]. unfold check_spec in Ec.
      destruct (_ <? _); [|destruct (_ <=? _); [done|]]; injection Ec as <-; by rewrite andb_false_r.
    + rewrite (run_bind _ _ _ _ _ _ _ E). by rewrite andb_false_r.
Qed.

Lemma required_pos env msg : TxGas <= required env msg.
Proof.
  unfold required, IntrinsicGas. set (g := if _ && _ then _ else _).
  assert (TxGas <= g) by (unfold g, TxGas, TxGasExternalLogicCreation; destruct (_ && _); lia). destruct (0 <? _); [|done].
  pose proof (length_filter (fun b => b <> 0) (Data msg)). unfold TxDataNonZeroGas, TxDataZeroGas. lia.
Qed.

Lemma present_credit sp a z b : present (credit sp a z) b = bool_decide (b = a) || present sp b. Proof. apply present_upd. Qed.
Lemma present_renonce sp a n b : present (renonce sp a n) b = bool_decide (b = a) || present sp b. Proof. apply present_upd. Qed.
Lemma present_recode sp a b : present (recode sp a) b = bool_decide (b = a) || present sp b. Proof. apply present_upd. Qed.
Lemma present_snap sp b : present (snap sp) b = present sp b. Proof. done. Qed.
Lemma refund_credit sp a z : a_refund (cur (credit sp a z)) = a_refund (cur sp). Proof. done. Qed.
Lemma refund_renonce sp a n : a_refund (cur (renonce sp a n)) = a_refund (cur sp). Proof. done. Qed.
Lemma refund_recode sp a : a_refund (cur (recode sp a)) = a_refund (cur sp). Proof. done. Qed.
Lemma refund_create sp a : a_refund (cur (create sp a)) = a_refund (cur sp). Proof. done. Qed.
Lemma refund_snap sp : a_refund (cur (snap sp)) = a_refund (cur sp). Proof. done. Qed.

Create Rewrite HintDb obs.
#[local] Hint Rewrite present_credit present_renonce present_recode present_snap present_create present_touch : obs.
#[local] Hint Rewrite refund_touch refund_credit refund_renonce refund_recode refund_create refund_snap : obs.
#[local] Hint Rewrite bal_credit bal_renonce bal_recode bal_create bal_snap bal_touch : obs.
#[local] Hint Rewrite nonce_credit nonce_recode nonce_renonce nonce_create nonce_snap nonce_touch : obs.

Lemma precheck_spec_ok msg gp sp :
  let '(gp', err, sp') := precheck_spec msg gp sp in
  present sp' (From msg) = true /\ a_refund (cur sp') = a_refund (cur sp) /\ (forall b, nonce_of sp' b = nonce_of sp b) /\
  match err with
  | Some e =>
      match e with NonceErr _ _ | InsufficientFunds _ _ | GasLimitErr _ _ => True | _ => False end /\
      gp' = gp /\ (forall b, bal sp' b = bal sp b)
  | None =>
      gp' = gp - Gas msg /\ Gas msg <= gp /\ Gas msg * GasPrice msg <= bal sp (From msg) /\
      (CheckNonce msg = true -> nonce_of sp (From msg) = MsgNonce msg) /\
      (forall b, bal sp' b = bal sp b - (if decide (b = From msg) then Gas msg * GasPrice msg else 0))
  end.
Proof.
  assert (P : present (touch sp (From msg)) (From msg) = true) by (by rewrite present_touch, bool_decide_true).
  unfold precheck_spec. rewrite nonce_touch, bal_touch.
  destruct (CheckNonce msg && _) eqn:En; [repeat split; auto using nonce_touch, bal_touch, refund_touch|].
  destruct (Z.ltb_spec (bal sp (From msg)) (Gas msg * GasPrice msg)); [repeat split; auto using nonce_touch, bal_touch, refund_touch|].
  destruct (Z.ltb_spec gp (Gas msg)); [repeat split; auto using nonce_touch, bal_touch, refund_touch|].
  split; [by rewrite present_credit, P, orb_true_r|]. split; [apply refund_touch|].
  split; [intros b; by autorewrite with obs|]. split; [done|]. split; [done|]. split; [done|]. split.
  - intros Ck. rewrite Ck in En. cbn in En. apply negb_false_iff in En. lia.
  - intros b. autorewrite with obs. case_decide; lia.
Qed.

Definition moves (a b : bytes) (v : Z) (c : bytes) : Z := (if decide (c = b) then v else 0) - (if decide (c = a) then v else 0).

Lemma check_spec_ok env sp a v :
  match check_spec env sp a v with
  | None => depth env <= CallCreateDepth /\ v <= bal sp a
  | Some e => (e = DepthError /\ CallCreateDepth < depth env) \/ exists want have, e = ValueTransferErr want have
  end.
Proof.
  unfold check_spec. destruct (Z.ltb_spec CallCreateDepth (depth env)); [by left|].
  destruct (Z.leb_spec v (bal sp a)); [done|]. right. eauto.
Qed.

Lemma execute_spec_ok env msg gas sp :
  present sp (From msg) = true -> (To msg = None -> From msg <> target msg sp) ->
  let '(gas', err, sp') := execute_spec env msg gas sp in
  gas' = gas /\ present sp' (From msg) = true /\ a_refund (cur sp') = a_refund (cur sp) /\
  match err with
  | None =>
      Value msg <= bal sp (From msg) /\ nonce_of sp' (From msg) = u64 (nonce_of sp (From msg) + 1) /\
      (forall b, bal sp' b = bal sp b + moves (From msg) (target msg sp) (Value msg) b)
  | Some e => (forall b, bal sp' b = bal sp b) /\ ((e = DepthError /\ CallCreateDepth < depth env) \/ exists want have, e = ValueTransferErr want have)
  end.
Proof.
  intros P C. unfold execute_spec, call_spec, create_spec, target, moves in *. destruct (To msg) as [addr|].
  - match goal with |- context [check_spec env ?s0 ?a ?v] => pose proof (check_spec_ok env s0 a v) as K end.
    destruct (check_spec _ _ _ _) as [e|]; [|rewrite bal_touch, bal_renonce in K; destruct (negb _ && _ && _ && _) eqn:En].
    + split; [done|]. autorewrite with obs. rewrite P, !orb_true_r. split; [done|]. split; [done|].
      split; [|done]. intros b. by autorewrite with obs.
    + split; [done|]. autorewrite with obs. rewrite P, !orb_true_r, decide_True by done. split; [done|]. split; [done|].
      split; [tauto|]. split; [done|]. apply andb_true_iff in En as [_ ->%Z.eqb_eq]. intros b. autorewrite with obs.
      repeat case_decide; lia.
    + split; [done|]. autorewrite with obs. rewrite P, !orb_true_r, decide_True by done. split; [done|]. split; [done|].
      split; [tauto|]. split; [done|]. intros b. autorewrite with obs. repeat case_decide; lia.
  - pose proof (check_spec_ok env sp (From msg) (Value msg)) as K. specialize (C eq_refl).
    destruct (check_spec _ _ _ _) as [e|]; [done|]. split; [done|].
    destruct (IsSiotImpr2 _ _); autorewrite with obs; rewrite P, !orb_true_r;
      rewrite !(decide_False (P := From msg = new_address _ _)), decide_True by done;
      (split; [done|]; split; [done|]; split; [tauto|]; split; [done|]);
      intros b; autorewrite with obs; repeat case_decide; lia.
Qed.

Lemma addressed_eq env msg sp sp' :
  (forall b, nonce_of sp' b = nonce_of sp b) -> addressed env msg sp -> addressed env msg sp'.
Proof. intros E [K1 K2 K3 C]. split; [done| |done|]; unfold target in *; by rewrite !E. Qed.

Lemma transition_run env w s sp msg gp :
  sound del w s sp -> addressed env msg sp -> a_refund (cur sp) = 0 ->
  let '(gp', r, sp') := transition_spec env msg gp sp in
  exists w' s', TransitionDb StartingNonce env msg gp w s = Ok ((gp', r), w', s') /\ sound del w' s' sp'.
Proof.
  intros I C Rf. unfold transition_spec, TransitionDb.
  pose proof (preCheck_run w s sp msg gp I (ad_from _ _ _ C)) as R1. pose proof (precheck_spec_ok msg gp sp) as S1.
  destruct (precheck_spec msg gp sp) as [[gp1 err1] sp1]. destruct R1 as (w1 & s1 & E1 & I1).
  destruct S1 as (P1 & Rf1 & N1 & _). destruct err1 as [e|].
  { exists w1, s1. by rewrite (run_bind _ _ _ _ _ _ _ E1). }
  destruct (from_run w1 s1 sp1 msg I1 (ad_from _ _ _ C)) as (p & so & w2 & s2 & E2 & I2 & _ & Eo & Ea & _). rewrite (touch_present _ _ P1) in I2.
  rewrite (run_bind _ _ _ _ _ _ _ E1), (run_bind _ _ _ _ _ _ _ E2), (get_obj_run _ _ _ _ _ Eo).
  change (IntrinsicGas (Data msg) (MessageCreatesExternalLogic msg) _) with (required env msg). unfold useGas.
  pose proof (required_pos env msg) as Rq. unfold TxGas in Rq.
  destruct (Z.ltb_spec (Gas msg) (required env msg)); [by exists w2, s2|]. set (gas := Gas msg - required env msg).
  assert (Hg : 0 <= gas) by (unfold gas; lia).
  pose proof (execute_run env w2 s2 sp1 msg so gas I2 P1 Ea (addressed_eq _ _ _ _ N1 C) Hg) as R2.
  pose proof (execute_spec_ok env msg gas sp1 P1) as S2.
  destruct (execute_spec env msg gas sp1) as [[gas' err] sp2]. destruct R2 as (w3 & s3 & E3 & I3).
  destruct S2 as (-> & P2 & Rf2 & _).
  { intros Et. unfold target. rewrite Et, N1. by apply (ad_create _ _ _ C). }
  rewrite (run_bind _ _ _ _ _ _ _ E3).
  assert (F : exists w' s', (let! (gas0, gp0) := refundGas StartingNonce msg gas gp1 in
      let! _ := AddBalance StartingNonce (Coinbase env) ((Gas msg - gas0) * GasPrice msg) in
      retS (gp0, @inr tx_error _ (Gas msg - gas, Gas msg - gas0))) w3 s3 =
        Ok ((gp1 + gas, inr (Gas msg - gas, Gas msg - gas)), w', s') /\ sound del w' s' (settle_spec env msg gas sp2)).
  { destruct (refundGas_run w3 s3 sp2 msg gas gp1 I3 (ad_from _ _ _ C) P2) as (w4 & s4 & E4 & I4); [congruence|unfold gas; lia|].
    rewrite (run_bind _ _ _ _ _ _ _ E4).
    destruct (AddBalance_run w4 s4 _ (Coinbase env) ((Gas msg - gas) * GasPrice msg) I4 (ad_coinbase _ _ _ C)) as (w5 & s5 & E5 & I5).
    exists w5, s5. by rewrite (run_bind _ _ _ _ _ _ _ E5). }
  destruct err as [[]|]; try exact F. by exists w3, s3.
Qed.

(** What a transition does to balances, gas and the sender's nonce. *)
Definition transition_effect (env : VMEnv) (msg : Message) (gp : Z) sp (gp' : Z) (r : tx_error + Z * Z) sp' : Prop :=
  let cost := Gas msg * GasPrice msg in
  match r with
  | inr (req, used) =>
      req = used /\ used = required env msg /\ used <= Gas msg <= gp /\ gp' = gp - used /\
      (CheckNonce msg = true -> nonce_of sp (From msg) = MsgNonce msg) /\ cost + Value msg <= bal sp (From msg) /\
      nonce_of sp' (From msg) = u64 (nonce_of sp (From msg) + 1) /\
      forall b, bal sp' b = bal sp b + moves (From msg) (target msg sp) (Value msg) b +
        moves (From msg) (Coinbase env) (used * GasPrice msg) b
  | inl (OutOfGasError | ValueTransferErr _ _) =>
      gp' = gp - Gas msg /\ Gas msg <= gp /\ cost <= bal sp (From msg) /\
      forall b, bal sp' b = bal sp b - (if decide (b = From msg) then cost else 0)
  | inl (NonceErr _ _ | InsufficientFunds _ _ | GasLimitErr _ _) => gp' = gp /\ forall b, bal sp' b = bal sp b
  | inl _ => False
  end.

Lemma transition_spec_ok env msg gp sp :
  depth env <= CallCreateDepth -> (To msg = None -> From msg <> target msg sp) ->
  let '(gp', r, sp') := transition_spec env msg gp sp in transition_effect env msg gp sp gp' r sp'.
Proof.
  intros Dp C. unfold transition_spec, transition_effect. pose proof (precheck_spec_ok msg gp sp) as S1.
  destruct (precheck_spec msg gp sp) as [[gp1 err1] sp1]. destruct S1 as (P1 & _ & N1 & S1).
  destruct err1 as [e|]; [destruct S1 as (He & S1); by destruct e|]. destruct S1 as (-> & Hg & Hc & Hn & B1).
  destruct (Z.ltb_spec (Gas msg) (required env msg)) as [|Hr]; [done|]. set (gas := Gas msg - required env msg).
  assert (Tg : target msg sp1 = target msg sp) by (unfold target; by rewrite N1).
  pose proof (execute_spec_ok env msg gas sp1 P1) as S2. rewrite Tg in S2. specialize (S2 C).
  destruct (execute_spec env msg gas sp1) as [[gas' err] sp2]. destruct S2 as (-> & P2 & _ & S2). destruct err as [e|].
  - destruct S2 as (B2 & [[-> ?]|(want & have & ->)]); [lia|]. split; [done|]. split; [done|]. split; [done|].
    intros b. by rewrite B2, B1.
  - destruct S2 as (Hv & N2 & B2). rewrite B1, decide_True in Hv by done. unfold settle_spec, gas. split; [done|].
    split; [lia|]. split; [lia|]. split; [lia|]. split; [done|]. split; [lia|].
    split; [autorewrite with obs; by rewrite N2, N1|]. intros b. autorewrite with obs. rewrite B2, B1. unfold moves.
    repeat case_decide; lia.
Qed.

Lemma transition_ok env w s sp msg gp :
  sound del w s sp -> addressed env msg sp -> a_refund (cur sp) = 0 -> depth env <= CallCreateDepth ->
  exists gp' r w' s' sp', TransitionDb StartingNonce env msg gp w s = Ok ((gp', r), w', s') /\ sound del w' s' sp' /\
    transition_effect env msg gp sp gp' r sp'.
Proof.
  intros I C Rf Dp. pose proof (transition_run env w s sp msg gp I C Rf) as R.
  pose proof (transition_spec_ok env msg gp sp Dp) as E. destruct (transition_spec env msg gp sp) as [[gp' r] sp'].
  destruct R as (w' & s' & R & I'). exists gp', r, w', s', sp'. split; [done|]. split; [done|]. apply E.
  intros Et. unfold target. rewrite Et. by apply (ad_create _ _ _ C).
Qed.

(** The balances of some accounts together. *)
Definition total sp (l : list bytes) : Z := foldr (fun a z => bal sp a + z) 0 l.

Lemma total_shift sp sp' (f : bytes -> Z) l :
  (forall b, bal sp' b = bal sp b + f b) -> total sp' l = total sp l + foldr (fun a z => f a + z) 0 l.
Proof. intros E. induction l as [|a l IH]; cbn; [done|]. rewrite E. unfold total in IH. rewrite IH. lia. Qed.

Lemma sum_single (a : bytes) v (l : list bytes) :
  NoDup l -> foldr (fun b z => (if decide (b = a) then v else 0) + z) 0 l = if decide (a ∈ l) then v else 0.
Proof.
  induction 1 as [|b l Hb Hl IH]; cbn; [done|]. rewrite IH. destruct (decide (b = a)) as [->|Hne].
  - rewrite (decide_True (P := a ∈ a :: l)) by left. rewrite decide_False by done. lia.
  - destruct (decide (a ∈ l)); [rewrite decide_True by (by right); lia|]. rewrite decide_False; [lia|].
    rewrite elem_of_cons. intros [?|?]; congruence.
Qed.

Lemma sum_moves a b v (l : list bytes) : NoDup l -> a ∈ l -> b ∈ l -> foldr (fun c z => moves a b v c + z) 0 l = 0.
Proof.
  intros Hl Ha Hb. pose proof (sum_single a v l Hl) as Sa. pose proof (sum_single b v l Hl) as Sb.
  rewrite decide_True in Sa by done. rewrite decide_True in Sb by done.
  assert (E : forall l, foldr (fun c z => moves a b v c + z) 0 l =
    foldr (fun c z => (if decide (c = b) then v else 0) + z) 0 l - foldr (fun c z => (if decide (c = a) then v else 0) + z) 0 l).
  { clear. intros l. induction l as [|c l IH]; cbn; [done|]. rewrite IH. unfold moves. lia. }
  rewrite E, Sa, Sb. lia.
Qed.

Lemma total_same sp sp' l : (forall b, bal sp' b = bal sp b) -> total sp' l = total sp l.
Proof. intros B. induction l as [|a l IH]; cbn; [done|]. rewrite B. f_equal. exact IH. Qed.

Lemma transition_total env msg gp sp gp' r sp' l :
  transition_effect env msg gp sp gp' r sp' -> NoDup l -> From msg ∈ l -> target msg sp ∈ l -> Coinbase env ∈ l ->
  total sp' l = total sp l -
    match r with inl (OutOfGasError | ValueTransferErr _ _) => Gas msg * GasPrice msg | _ => 0 end.
Proof.
  intros E Hl Hf Ht Hc.
  assert (S1 : (forall b, bal sp' b = bal sp b - (if decide (b = From msg) then Gas msg * GasPrice msg else 0)) ->
    total sp' l = total sp l - Gas msg * GasPrice msg).
  { intros B. rewrite (total_shift sp sp' (fun b => if decide (b = From msg) then - (Gas msg * GasPrice msg) else 0)).
    - rewrite sum_single, decide_True by done. lia.
    - intros b. rewrite B. case_decide; lia. }
  destruct r as [[]|[req used]]; cbn in E; try done; try (rewrite Z.sub_0_r; by apply total_same, E); try (by apply S1, E).
  destruct E as (_ & _ & _ & _ & _ & _ & _ & B).
  rewrite (total_shift sp sp' (fun b => moves (From msg) (target msg sp) (Value msg) b +
    moves (From msg) (Coinbase env) (used * GasPrice msg) b)) by (intros b; rewrite B; lia).
  assert (X : forall (f g : bytes -> Z) m, foldr (fun a z => f a + g a + z) 0 m =
    foldr (fun a z => f a + z) 0 m + foldr (fun a z => g a + z) 0 m).
  { intros f g m. induction m as [|c m IH]; cbn; [done|]. rewrite IH. lia. }
  rewrite X, !sum_moves by done. lia.
Qed.

Lemma effect_balances env msg gp sp gp' r sp' :
  transition_effect env msg gp sp gp' r sp' -> 0 <= Value msg -> 0 <= GasPrice msg -> (forall b, 0 <= bal sp b) ->
  forall b, 0 <= bal sp' b.
Proof.
  intros Eff Hv Hp B b. specialize (B b). pose proof (required_pos env msg) as Rq.
  unfold TxGas in Rq. destruct r as [[]|[req used]]; cbn in Eff; try done.
  1-3: by rewrite (proj2 Eff).
  1-2: destruct Eff as (_ & _ & Hc & ->); case_decide; subst; lia.
  destruct Eff as (_ & -> & Hu & _ & _ & Hc & _ & ->). 
  assert (0 <= required env msg * GasPrice msg <= Gas msg * GasPrice msg) by nia.
  unfold moves. destruct (decide (b = From msg)) as [->|]; repeat case_decide; lia.
Qed.

(** ** Sequences of messages *)

(** Messages processed one after the other, each with its environment and the
    gas pool of its block. *)
Fixpoint transitions (l : list (VMEnv * Message * Z)) : M (list (tx_error + Z * Z)) :=
  match l with
  | [] => retS []
  | (env, msg, gp) :: l =>
      let! (_, r) := TransitionDb StartingNonce env msg gp in
      let! rs := transitions l in
      retS (r :: rs)
  end.

(** Every message is addressed where it is processed, and none creates an
    account at the address [a]. *)
Fixpoint all_addressed (a : bytes) (l : list (VMEnv * Message * Z)) sp : Prop :=
  match l with
  | [] => True
  | (env, msg, gp) :: l =>
      addressed env msg sp /\ depth env <= CallCreateDepth /\ (To msg = None -> target msg sp <> a) /\
      all_addressed a l (transition_spec env msg gp sp).2
  end.

Lemma execute_spec_nonce env msg gas sp a :
  (To msg = None -> target msg sp <> a) ->
  let '(_, _, sp') := execute_spec env msg gas sp in
  nonce_of sp' a = nonce_of sp a \/ nonce_of sp' a = u64 (nonce_of sp a + 1).
Proof.
  intros C. unfold execute_spec, call_spec, create_spec, target in *. destruct (To msg) as [addr|].
  - destruct (check_spec _ _ _ _) as [e|]; [|destruct (negb _ && _ && _ && _)];
      autorewrite with obs; case_decide; subst; auto.
  - specialize (C eq_refl). destruct (check_spec _ _ _ _) as [e|]; [auto|].
    destruct (IsSiotImpr2 _ _); autorewrite with obs;
      repeat case_decide; subst; try done; auto.
Qed.

Lemma execute_spec_refund env msg gas sp : a_refund (cur (execute_spec env msg gas sp).2) = a_refund (cur sp).
Proof.
  unfold execute_spec, call_spec, create_spec. destruct (To msg) as [addr|].
  - destruct (check_spec _ _ _ _) as [e|]; [|destruct (negb _ && _ && _ && _)]; cbn [snd]; by autorewrite with obs.
  - destruct (check_spec _ _ _ _) as [e|]; [done|]. cbn [snd]. destruct (IsSiotImpr2 _ _); by autorewrite with obs.
Qed.

Lemma transition_spec_refund env msg gp sp : a_refund (cur (transition_spec env msg gp sp).2) = a_refund (cur sp).
Proof.
  unfold transition_spec. pose proof (precheck_spec_ok msg gp sp) as S1.
  destruct (precheck_spec msg gp sp) as [[gp1 err1] sp1]. destruct S1 as (_ & R1 & _). destruct err1; [done|].
  destruct (Gas msg <? required env msg); [done|].
  pose proof (execute_spec_refund env msg (Gas msg - required env msg) sp1) as R2.
  destruct (execute_spec _ _ _ _) as [[gas err] sp2]. rewrite <- R1, <- R2. by destruct err as [[]|].
Qed.

(** The nonce of an account at whose address nothing is created never decreases. *)
Lemma transition_spec_nonce env msg gp sp a :
  (To msg = None -> target msg sp <> a) -> 0 <= nonce_of sp a < 2 ^ 64 - 1 ->
  nonce_of sp a <= nonce_of (transition_spec env msg gp sp).2 a <= nonce_of sp a + 1.
Proof.
  intros C Hn. unfold transition_spec. pose proof (precheck_spec_ok msg gp sp) as S1.
  destruct (precheck_spec msg gp sp) as [[gp1 err1] sp1]. destruct S1 as (_ & _ & N1 & _).
  destruct err1; [cbn; rewrite N1; lia|]. destruct (Gas msg <? required env msg); [cbn; rewrite N1; lia|].
  pose proof (execute_spec_nonce env msg (Gas msg - required env msg) sp1 a) as N2.
  destruct (execute_spec _ _ _ _) as [[gas err] sp2]. unfold target in N2. rewrite !N1 in N2. specialize (N2 C).
  rewrite u64_small in N2 by lia.
  assert (N3 : nonce_of (settle_spec env msg gas sp2) a = nonce_of sp2 a) by (unfold settle_spec; by autorewrite with obs).
  destruct err as [[]|]; cbn [snd]; rewrite ?N3; lia.
Qed.

Lemma transitions_run a l w s sp :
  sound del w s sp -> a_refund (cur sp) = 0 -> all_addressed a l sp ->
  0 <= nonce_of sp a -> nonce_of sp a + len l < 2 ^ 64 ->
  exists rs w' s' sp', transitions l w s = Ok (rs, w', s') /\ sound del w' s' sp' /\ nonce_of sp a <= nonce_of sp' a.
Proof.
  revert w s sp. induction l as [|[[env msg] gp] l IH]; intros w s sp I Rf C Hn Hl; cbn [transitions].
  { exists [], w, s, sp. done. }
  destruct C as (C & Dp & Tg & Cs). pose proof (transition_run env w s sp msg gp I C Rf) as R.
  pose proof (transition_spec_refund env msg gp sp) as Rf1. cbn [length] in Hl.
  pose proof (transition_spec_nonce env msg gp sp a Tg ltac:(lia)) as N1.
  destruct (transition_spec env msg gp sp) as [[gp1 r] sp1]. cbn [snd] in *. destruct R as (w1 & s1 & E1 & I1).
  destruct (IH w1 s1 sp1 I1 ltac:(congruence) Cs) as (rs & w2 & s2 & sp2 & E2 & I2 & N2); [lia|lia|].
  exists (r :: rs), w2, s2, sp2. rewrite (run_bind _ _ _ _ _ _ _ E1), (run_bind _ _ _ _ _ _ _ E2).
  split; [done|]. split; [done|]. lia.
Qed.

(** A message whose nonce is not the sender's is refused. *)
Lemma refused_run env w s sp msg gp :
  sound del w s sp -> st_key (From msg) -> CheckNonce msg = true -> nonce_of sp (From msg) <> MsgNonce msg ->
  exists w' s', TransitionDb StartingNonce env msg gp w s =
      Ok ((gp, inl (NonceErr (MsgNonce msg) (nonce_of sp (From msg)))), w', s') /\ sound del w' s' (touch sp (From msg)).
Proof.
  intros I Kf Ck Ne. pose proof (preCheck_run w s sp msg gp I Kf) as R. unfold precheck_spec in R.
  rewrite nonce_touch, Ck, (proj2 (Z.eqb_neq _ _) Ne) in R. cbn [andb negb] in R. destruct R as (w' & s' & E & I').
  exists w', s'. split; [|done]. unfold TransitionDb. by rewrite (run_bind _ _ _ _ _ _ _ E).
Qed.

(** ** The properties *)

(** C7: the transition of a message on the heap of account objects gives the
    result, the gas pool and the accounts of the specification, in every state
    the database can be in between transactions. *)
Theorem transition_refines env w s sp msg gp :
  sound del w s sp -> addressed env msg sp -> a_refund (cur sp) = 0 ->
  let '(gp', r, sp') := transition_spec env msg gp sp in
  exists w' s', TransitionDb StartingNonce env msg gp w s = Ok ((gp', r), w', s') /\ sound del w' s' sp'.
Proof. apply transition_run. Qed.

(** C9: a transition that succeeds uses the intrinsic gas of its message, at most
    the gas it brought, and takes exactly that from the pool; one that fails
    takes nothing or all of it, and the pool never becomes negative. *)
Theorem transition_gas env w s sp msg gp :
  sound del w s sp -> addressed env msg sp -> a_refund (cur sp) = 0 -> depth env <= CallCreateDepth -> 0 <= gp ->
  exists gp' r w' s', TransitionDb StartingNonce env msg gp w s = Ok ((gp', r), w', s') /\ 0 <= gp' /\
    match r with
    | inr (req, used) => TxGas <= used <= Gas msg /\ used = required env msg /\ req = used /\ gp' = gp - used
    | inl (OutOfGasError | ValueTransferErr _ _) => gp' = gp - Gas msg
    | inl _ => gp' = gp
    end.
Proof.
  intros I C Rf Dp Hg. destruct (transition_ok env w s sp msg gp I C Rf Dp) as (gp' & r & w' & s' & sp' & E & _ & Eff).
  exists gp', r, w', s'. split; [done|]. pose proof (required_pos env msg).
  destruct r as [[]|[req used]]; cbn in Eff; try done; destruct Eff as (-> & Eff); try (split; [|done]; lia); split; lia.
Qed.

(** C8: a transition neither makes nor destroys value: the balances of any set of
    accounts that has the sender, the recipient and the coinbase sum to the same,
    except that a message that runs out of intrinsic gas or cannot pay the value
    it sends loses the price of all its gas, which goes to nobody. *)
Theorem transition_conserves env w s sp msg gp l :
  sound del w s sp -> addressed env msg sp -> a_refund (cur sp) = 0 -> depth env <= CallCreateDepth ->
  NoDup l -> From msg ∈ l -> target msg sp ∈ l -> Coinbase env ∈ l ->
  exists gp' r w' s' sp', TransitionDb StartingNonce env msg gp w s = Ok ((gp', r), w', s') /\ sound del w' s' sp' /\
    total sp' l = total sp l -
      match r with inl (OutOfGasError | ValueTransferErr _ _) => Gas msg * GasPrice msg | _ => 0 end.
Proof.
  intros I C Rf Dp Hl Hf Ht Hc. destruct (transition_ok env w s sp msg gp I C Rf Dp) as (gp' & r & w' & s' & sp' & E & I' & Eff).
  exists gp', r, w', s', sp'. split; [done|]. split; [done|]. by eapply transition_total.
Qed.

(** No transition makes a balance negative. *)
Theorem transition_balances env w s sp msg gp :
  sound del w s sp -> addressed env msg sp -> a_refund (cur sp) = 0 -> depth env <= CallCreateDepth ->
  0 <= Value msg -> 0 <= GasPrice msg -> (forall b, 0 <= bal sp b) ->
  exists gp' r w' s' sp', TransitionDb StartingNonce env msg gp w s = Ok ((gp', r), w', s') /\ sound del w' s' sp' /\
    forall b, 0 <= bal sp' b.
Proof.
  intros I C Rf Dp Hv Hp B. destruct (transition_ok env w s sp msg gp I C Rf Dp) as (gp' & r & w' & s' & sp' & E & I' & Eff).
  exists gp', r, w', s', sp'. split; [done|]. split; [done|]. by eapply effect_balances.
Qed.

(** C10: a message that checks its nonce is applied at most once: after it
    succeeded, and after any further messages were processed, whatever came of
    them, the same message fails with a nonce error and leaves the gas pool and
    every balance as they are.  No message in between creates an account at the
    sender's address, and there are fewer of them than nonces are left. *)
Theorem transition_no_replay env w s sp msg gp later :
  sound del w s sp -> a_refund (cur sp) = 0 -> all_addressed (From msg) ((env, msg, gp) :: later) sp ->
  CheckNonce msg = true -> 0 <= nonce_of sp (From msg) -> nonce_of sp (From msg) + len later + 1 < 2 ^ 64 ->
  forall gp' res w1 s1, TransitionDb StartingNonce env msg gp w s = Ok ((gp', inr res), w1, s1) ->
  exists rs w2 s2 sp2, transitions later w1 s1 = Ok (rs, w2, s2) /\ sound del w2 s2 sp2 /\
  forall env3 gp3, exists have w3 s3 sp3,
    TransitionDb StartingNonce env3 msg gp3 w2 s2 = Ok ((gp3, inl (NonceErr (MsgNonce msg) have)), w3, s3) /\
    MsgNonce msg < have /\ sound del w3 s3 sp3 /\ forall b, bal sp3 b = bal sp2 b.
Proof.
  intros I Rf (C & Dp & Tg & Cs) Ck Hn Hl gp' res w1 s1 E.
  pose proof (transition_run env w s sp msg gp I C Rf) as R. pose proof (transition_spec_refund env msg gp sp) as Rf1.
  pose proof (transition_spec_ok env msg gp sp Dp) as Eff.
  destruct (transition_spec env msg gp sp) as [[gp1 r] sp1]. cbn [snd] in *.
  destruct R as (w1' & s1' & E1 & I1). rewrite E in E1. injection E1 as <- <- <- <-. destruct res as [req used].
  destruct Eff as (_ & _ & _ & _ & En & _ & N1 & _). { intros Et. by apply not_eq_sym, Tg. }
  specialize (En Ck). rewrite u64_small in N1 by lia.
  destruct (transitions_run (From msg) later w1 s1 sp1 I1 ltac:(congruence) Cs) as (rs & w2 & s2 & sp2 & E2 & I2 & N2); [lia|lia|].
  exists rs, w2, s2, sp2. split; [done|]. split; [done|]. intros env3 gp3.
  destruct (refused_run env3 w2 s2 sp2 msg gp3 I2 (ad_from _ _ _ C) Ck) as (w3 & s3 & E3 & I3); [lia|].
  exists (nonce_of sp2 (From msg)), w3, s3, (touch sp2 (From msg)). split; [done|]. split; [lia|].
  split; [done|]. intros b. apply bal_touch.
Qed.
End TransitionSpec.

(** ** Witnesses *)

#[local] Existing Instance keccak_hash.

Definition funded : spec := change 0 (start world1 (new_state 0)) addr1 (fun x => with_balance x 1000000).

Lemma funded_sound del : exists w s, sound (T := SecureTrie) (D := MemDatabase) del w s funded.
Proof.
  assert (R0 : reached del in_order 0 120 world1 (new_state 0) (start world1 (new_state 0)))
    by by apply (reached_new _ _ _ _ world0 (zeros 32) trie0); [apply good0|..].
  destruct (reached_inv del in_order ltac:(done) _ _ _ _ _ R0) as [I F].
  destruct (call_ok 0 _ _ _ (CSetBalance addr1 1000000) I key_addr1) as (w & s & E & I').
  exists w, s. split; [exact I'|]. by apply (call_flush 0 del _ _ (CSetBalance addr1 1000000) _ w s F (conj key_addr1 Logic.I) E).
Qed.

Lemma funded_bal b : bal funded b = if decide (b = addr1) then 1000000 else 0.
Proof.
  unfold bal, funded. rewrite ask_change. case_decide; [done|]. unfold ask, start. cbn [cur].
  change (accts (abs world1 (new_state 0)) b) with (view world1 (new_state 0) b). by rewrite view0.
Qed.

Definition config0 : ChainConfig :=
  {| ChainId := 1; HomesteadBlock := Some 0; DAOForkBlock := None; DAOForkSupport := false; SiotImpr0Block := Some 0;
     SiotImpr0Hash := zeros 32; SiotImpr1Block := Some 0; SiotImpr2Block := Some 0 |}.
Definition env0 : VMEnv := {| chainConfig := config0; BlockNumber := 1; Coinbase := replicate 20 3; depth := 0 |}.
Definition pay : Message :=
  {| From := addr1; To := Some addr2; GasPrice := 2; Gas := 30000; Value := 5; MsgNonce := 0; CheckNonce := true; Data := [0; 1] |}.
Definition spawn : Message :=
  {| From := addr1; To := None; GasPrice := 2; Gas := 60000; Value := 7; MsgNonce := 0; CheckNonce := true; Data := [] |}.

Lemma pay_other : addressed 0 env0 pay funded.
Proof. split; [apply (bool_decide_unpack _); by vm_compute..|done]. Qed.

Lemma spawn_other : addressed 0 env0 spawn funded.
Proof.
  split; [apply (bool_decide_unpack _); by vm_compute..|]. intros _. split; [by repeat constructor|]. split; [done|]. split; [vm_compute; done|]. intros E. vm_compute in E. discriminate.
Qed.

(** A creation: the new account has nonce 1 and the value sent. *)
Lemma transition_refines_witness :
  exists w s w' s' sp',
    TransitionDb (T := SecureTrie) (D := MemDatabase) 0 env0 spawn 100000 w s = Ok ((47000, inr (53000, 53000)), w', s') /\
    sound false w' s' sp' /\ nonce_of 0 sp' (new_address addr1 0) = 1 /\ bal sp' (new_address addr1 0) = 7.
Proof.
  destruct (funded_sound false) as (w & s & I).
  pose proof (transition_refines (T := SecureTrie) (D := MemDatabase) 0 false env0 w s funded spawn 100000 I spawn_other eq_refl) as R.
  assert (S : (let '(gp, r, sp) := transition_spec 0 env0 spawn 100000 funded in
    (gp, r, nonce_of 0 sp (new_address addr1 0), bal sp (new_address addr1 0))) = (47000, inr (53000, 53000), 1, 7))
    by (vm_compute; reflexivity).
  destruct (transition_spec 0 env0 spawn 100000 funded) as [[gp r] sp]. injection S as -> -> S1 S2.
  destruct R as (w' & s' & E & I'). by exists w, s, w', s', sp.
Defined.

Lemma transition_gas_witness :
  exists w s gp' r w' s', TransitionDb (T := SecureTrie) (D := MemDatabase) 0 env0 pay 100000 w s = Ok ((gp', r), w', s') /\ 0 <= gp'.
Proof.
  destruct (funded_sound false) as (w & s & I).
  destruct (transition_gas (T := SecureTrie) (D := MemDatabase) 0 false env0 w s funded pay 100000 I pay_other eq_refl) as (gp' & r & w' & s' & E & G & _);
    [vm_compute; discriminate|lia|].
  by exists w, s, gp', r, w', s'.
Defined.

Lemma transition_conserves_witness :
  exists w s gp' r w' s' sp',
    TransitionDb (T := SecureTrie) (D := MemDatabase) 0 env0 pay 100000 w s = Ok ((gp', r), w', s') /\ sound false w' s' sp' /\
    total sp' [addr1; addr2; replicate 20 3] =
      total funded [addr1; addr2; replicate 20 3] - match r with inl (OutOfGasError | ValueTransferErr _ _) => 60000 | _ => 0 end.
Proof.
  destruct (funded_sound false) as (w & s & I).
  destruct (transition_conserves (T := SecureTrie) (D := MemDatabase) 0 false env0 w s funded pay 100000 [addr1; addr2; replicate 20 3] I pay_other eq_refl)
    as (gp' & r & w' & s' & sp' & E & I' & S);
    [vm_compute; discriminate|apply (bool_decide_unpack _); by vm_compute|left|right; left|do 2 right; left|].
  by exists w, s, gp', r, w', s', sp'.
Defined.

Lemma transition_balances_witness :
  exists w s gp' r w' s' sp',
    TransitionDb (T := SecureTrie) (D := MemDatabase) 0 env0 pay 100000 w s = Ok ((gp', r), w', s') /\ sound false w' s' sp' /\
    forall b, 0 <= bal sp' b.
Proof.
  destruct (funded_sound false) as (w & s & I).
  destruct (transition_balances (T := SecureTrie) (D := MemDatabase) 0 false env0 w s funded pay 100000 I pay_other eq_refl)
    as (gp' & r & w' & s' & sp' & E & I' & S);
    [vm_compute; discriminate|done|done|intros b; rewrite funded_bal; by case_decide|].
  by exists w, s, gp', r, w', s', sp'.
Defined.

Definition pay_next : Message :=
  {| From := addr1; To := Some addr2; GasPrice := 2; Gas := 30000; Value := 5; MsgNonce := 1; CheckNonce := true; Data := [] |}.

(** The message is paid, another one of its sender follows, and the first is
    sent again. *)
Lemma transition_no_replay_witness :
  exists w s w1 s1 rs w2 s2 have w3 s3,
    TransitionDb (T := SecureTrie) (D := MemDatabase) 0 env0 pay 100000 w s = Ok ((78928, inr (21072, 21072)), w1, s1) /\
    transitions (T := SecureTrie) (D := MemDatabase) 0 [(env0, pay_next, 78928)] w1 s1 = Ok (rs, w2, s2) /\
    TransitionDb (T := SecureTrie) (D := MemDatabase) 0 env0 pay 50000 w2 s2 = Ok ((50000, inl (NonceErr 0 have)), w3, s3).
Proof.
  destruct (funded_sound false) as (w & s & I).
  pose proof (transition_run (T := SecureTrie) (D := MemDatabase) 0 false env0 w s funded pay 100000 I pay_other eq_refl) as R.
  assert (S : (transition_spec 0 env0 pay 100000 funded).1 = (78928, inr (21072, 21072))) by (vm_compute; reflexivity).
  destruct (transition_spec 0 env0 pay 100000 funded) as [[gp r] sp] eqn:Es. injection S as -> ->. destruct R as (w1 & s1 & E & _).
  destruct (transition_no_replay (T := SecureTrie) (D := MemDatabase) 0 false env0 w s funded pay 100000 [(env0, pay_next, 78928)] I eq_refl)
    with (gp' := 78928) (res := (21072, 21072)) (w1 := w1) (s1 := s1) as (rs & w2 & s2 & sp2 & E2 & _ & Rp).
  - cbn [all_addressed]. rewrite Es. split; [exact pay_other|]. split; [vm_compute; discriminate|]. split; [done|].
    split; [split; [apply (bool_decide_unpack _); by vm_compute..|done]|]. split; [vm_compute; discriminate|done].
  - done.
  - vm_compute. discriminate.
  - vm_compute. reflexivity.
  - exact E.
  - destruct (Rp env0 50000) as (have & w3 & s3 & sp3 & E3 & _). by exists w, s, w1, s1, rs, w2, s2, have, w3, s3.
Defined.
