(* ===== verification/Types.v ===== *)
(** * Consensus data types (src/blockchainCore/types, localEnv/log.go)

    Headers, transactions, bodies, blocks, receipts and logs, with their RLP
    forms and hashes; bloom filters ([bloom9.go]) and the root hash of a list
    ([derive_sha.go]).

    A big integer of a header or transaction is never nil after decoding; where
    the code allows nil it stands for 0 (in the encoding and in [CopyHeader]),
    and is 0 here.  The caches of hashes and sizes are left out. *)

From S2P Require Import Prelude RlpEncode RlpRaw RlpStream Helper Database TrieNode Trie TrieHash StateTrie State.

(** ** Data *)

Record Header := mkHeader {
  hParentHash : bytes;
  hUncleHash : bytes;
  hCoinbase : bytes;
  hRoot : bytes;
  hTxHash : bytes;
  hReceiptHash : bytes;
  hBloom : bytes;
  hDifficulty : Z;
  hNumber : Z;
  hGasLimit : Z;
  hGasUsed : Z;
  hTime : Z;
  hExtra : bytes;
  hMixDigest : bytes;
  hNonce : bytes
}.

(** [txdata]; a missing recipient means creation. *)
Record Transaction := mkTx {
  AccountNonce : Z;
  Price : Z;
  GasLimit : Z;
  Recipient : option bytes;
  Amount : Z;
  Payload : bytes;
  V : Z;
  R : Z;
  S_ : Z
}.

Record Body := mkBody { b_Transactions : list Transaction; b_Uncles : list Header }.

Record Block := mkBlock {
  header : Header;
  uncles : list Header;
  transactions : list Transaction;
  td : option Z
}.

Record Receipt := mkReceipt {
  PostState : bytes;
  CumulativeGasUsed : Z;
  rBloom : bytes;
  Logs : list Log;
  rTxHash : bytes;
  ExternalLogicAddress : bytes;
  rGasUsed : Z
}.

(** ** Their RLP forms *)

Definition header_type : rtype :=
  TStruct [TByteArray 32; TByteArray 32; TByteArray 20; TByteArray 32; TByteArray 32; TByteArray 32; TByteArray 256;
           TBigInt; TBigInt; TBigInt; TBigInt; TBigInt; TBytes; TByteArray 32; TByteArray 8].

Definition header_val (h : Header) : rval :=
  VList [VBytes (hParentHash h); VBytes (hUncleHash h); VBytes (hCoinbase h); VBytes (hRoot h); VBytes (hTxHash h);
         VBytes (hReceiptHash h); VBytes (hBloom h); VInt (hDifficulty h); VInt (hNumber h); VInt (hGasLimit h);
         VInt (hGasUsed h); VInt (hTime h); VBytes (hExtra h); VBytes (hMixDigest h); VBytes (hNonce h)].

Definition val_header (v : rval) : option Header :=
  match v with
  | VList [VBytes a; VBytes b; VBytes c; VBytes d; VBytes e; VBytes f; VBytes g; VInt h; VInt i; VInt j; VInt k; VInt l;
           VBytes m; VBytes n; VBytes o] => Some (mkHeader a b c d e f g h i j k l m n o)
  | _ => None
  end.

Definition tx_type : rtype :=
  TStruct [TUint 64; TBigInt; TBigInt; TPtr true (TByteArray 20); TBigInt; TBytes; TBigInt; TBigInt; TBigInt].

Definition ptr_val (a : option bytes) : rval := match a with Some b => VPtr (VBytes b) | None => VNil end.

Definition tx_val (t : Transaction) : rval :=
  VList [VInt (AccountNonce t); VInt (Price t); VInt (GasLimit t); ptr_val (Recipient t); VInt (Amount t);
         VBytes (Payload t); VInt (V t); VInt (R t); VInt (S_ t)].

Definition val_ptr (v : rval) : option (option bytes) :=
  match v with VPtr (VBytes b) => Some (Some b) | VNil => Some None | _ => None end.

Definition val_tx (v : rval) : option Transaction :=
  match v with
  | VList [VInt a; VInt b; VInt c; d; VInt e; VBytes f; VInt g; VInt h; VInt i] =>
      match val_ptr d with Some d => Some (mkTx a b c d e f g h i) | None => None end
  | _ => None
  end.

(** Lists of pointers. *)
Definition ptrs {A} (f : A -> rval) (l : list A) : rval := VList (map (fun x => VPtr (f x)) l).

Definition val_ptrs {A} (f : rval -> option A) (v : rval) : option (list A) :=
  match v with
  | VList vs => mapM (fun v => match v with VPtr v => f v | _ => None end) vs
  | _ => None
  end.

Definition body_type : rtype := TStruct [TSlice false (TPtr false tx_type); TSlice false (TPtr false header_type)].

Definition body_val (b : Body) : rval := VList [ptrs tx_val (b_Transactions b); ptrs header_val (b_Uncles b)].

Definition val_body (v : rval) : option Body :=
  match v with
  | VList [ts; us] =>
      match val_ptrs val_tx ts, val_ptrs val_header us with
      | Some ts, Some us => Some (mkBody ts us)
      | _, _ => None
      end
  | _ => None
  end.

(** [extblock] and, with the total difficulty, [storageblock]. *)
Definition extblock_type : rtype :=
  TStruct [TPtr false header_type; TSlice false (TPtr false tx_type); TSlice false (TPtr false header_type)].

Definition extblock_val (b : Block) : rval :=
  VList [VPtr (header_val (header b)); ptrs tx_val (transactions b); ptrs header_val (uncles b)].

Definition val_extblock (v : rval) : option Block :=
  match v with
  | VList [VPtr h; ts; us] =>
      match val_header h, val_ptrs val_tx ts, val_ptrs val_header us with
      | Some h, Some ts, Some us => Some (mkBlock h us ts None)
      | _, _, _ => None
      end
  | _ => None
  end.

Definition storageblock_type : rtype :=
  TStruct [TPtr false header_type; TSlice false (TPtr false tx_type); TSlice false (TPtr false header_type); TBigInt].

Definition val_storageblock (v : rval) : option Block :=
  match v with
  | VList [VPtr h; ts; us; VInt td] =>
      match val_header h, val_ptrs val_tx ts, val_ptrs val_header us with
      | Some h, Some ts, Some us => Some (mkBlock h us ts (Some td))
      | _, _, _ => None
      end
  | _ => None
  end.

(** Logs: the consensus fields, as a list of interfaces, and all of them. *)
Definition hashes_val (l : list bytes) : rval := VList (map VBytes l).

Definition log_val (l : Log) : rval :=
  VList [VIface (TByteArray 20) (VBytes (logAddress l)); VIface (TSlice false (TByteArray 32)) (hashes_val (logTopics l));
         VIface TBytes (VBytes (logData l))].

Definition log_storage_type : rtype :=
  TStruct [TByteArray 20; TSlice false (TByteArray 32); TBytes; TUint 64; TByteArray 32; TUint 64; TByteArray 32; TUint 64].

Definition log_storage_val (l : Log) : rval :=
  VList [VBytes (logAddress l); hashes_val (logTopics l); VBytes (logData l); VInt (logBlockNumber l); VBytes (logTxHash l);
         VInt (logTxIndex l); VBytes (logBlockHash l); VInt (logIndex l)].

Definition val_hashes (v : rval) : option (list bytes) :=
  match v with VList vs => mapM (fun v => match v with VBytes b => Some b | _ => None end) vs | _ => None end.

Definition val_log_storage (v : rval) : option Log :=
  match v with
  | VList [VBytes a; t; VBytes d; VInt n; VBytes th; VInt ti; VBytes bh; VInt i] =>
      match val_hashes t with Some t => Some (mkLog a t d n th ti bh i) | None => None end
  | _ => None
  end.

(** [Receipt.EncodeRLP]: the consensus fields. *)
Definition receipt_val (r : Receipt) : rval :=
  VList [VIface TBytes (VBytes (PostState r)); VIface TBigInt (VInt (CumulativeGasUsed r));
         VIface (TByteArray 256) (VBytes (rBloom r));
         VIface (TSlice false (TPtr false (TSlice false TInterface))) (ptrs log_val (Logs r))].

(** [ReceiptForStorage.EncodeRLP] and [DecodeRLP]: all fields. *)
Definition receipt_storage_val (r : Receipt) : rval :=
  VList [VIface TBytes (VBytes (PostState r)); VIface TBigInt (VInt (CumulativeGasUsed r));
         VIface (TByteArray 256) (VBytes (rBloom r)); VIface (TByteArray 32) (VBytes (rTxHash r));
         VIface (TByteArray 20) (VBytes (ExternalLogicAddress r));
         VIface (TSlice false (TPtr false log_storage_type)) (ptrs log_storage_val (Logs r));
         VIface TBigInt (VInt (rGasUsed r))].

Definition receipt_storage_type : rtype :=
  TStruct [TBytes; TBigInt; TByteArray 256; TByteArray 32; TByteArray 20; TSlice false (TPtr false log_storage_type); TBigInt].

Definition val_receipt_storage (v : rval) : option Receipt :=
  match v with
  | VList [VBytes p; VInt c; VBytes b; VBytes th; VBytes a; ls; VInt g] =>
      match val_ptrs val_log_storage ls with Some ls => Some (mkReceipt p c b ls th a g) | None => None end
  | _ => None
  end.

Definition NewReceipt (root : bytes) (cumulativeGasUsed : Z) : Receipt :=
  mkReceipt root cumulativeGasUsed (zeros 256) [] (zeros 32) (zeros 20) 0.

(** The fuel to decode a value from its encoding. *)
Definition decode_fuel (b : bytes) : nat := 16 + 3 * length b.

(** [rlp.Decode] from a reader over [b], at a type with a conversion; unlike
    [DecodeBytes] it does not look at what follows the value. *)
Definition decode_with {A} (t : rtype) (f : rval -> option A) (b : bytes) : outcome rlp_error A :=
  match decoder (decode_fuel b) t (NewStream b (len b)) with
  | (Ok v, _) => match f v with Some a => Ok a | None => Panic end
  | (Err e, _) => Err e
  | (Panic, _) => Panic
  end.

Definition decode_all {A} (t : rtype) (f : rval -> option A) (b : bytes) : outcome rlp_error A :=
  let* v := DecodeBytes (decode_fuel b) b t in
  match f v with Some a => Ok a | None => Panic end.

(** ** Hashes *)

Section Hashes.
Context `{Hash256}.

(** An error of the encoder leaves nothing written to the hash. *)
Definition rlpHash (t : rtype) (v : rval) : bytes :=
  match EncodeToBytes t v with Ok b => Keccak256 b | _ => Keccak256 [] end.

Definition Header_Hash (h : Header) : bytes := rlpHash header_type (header_val h).

Definition HashNoNonce (h : Header) : bytes :=
  rlpHash (TSlice false TInterface)
    (VList [VIface (TByteArray 32) (VBytes (hParentHash h)); VIface (TByteArray 32) (VBytes (hUncleHash h));
            VIface (TByteArray 20) (VBytes (hCoinbase h)); VIface (TByteArray 32) (VBytes (hRoot h));
            VIface (TByteArray 32) (VBytes (hTxHash h)); VIface (TByteArray 32) (VBytes (hReceiptHash h));
            VIface (TByteArray 256) (VBytes (hBloom h)); VIface TBigInt (VInt (hDifficulty h));
            VIface TBigInt (VInt (hNumber h)); VIface TBigInt (VInt (hGasLimit h)); VIface TBigInt (VInt (hGasUsed h));
            VIface TBigInt (VInt (hTime h)); VIface TBytes (VBytes (hExtra h))]).

Definition tx_Hash (t : Transaction) : bytes := rlpHash tx_type (tx_val t).
Definition block_Hash (b : Block) : bytes := Header_Hash (header b).
Definition CalcUncleHash (us : list Header) : bytes := rlpHash (TSlice false (TPtr false header_type)) (ptrs header_val us).

(** ** Transactions *)

Definition Cost (t : Transaction) : Z := Price t * GasLimit t + Amount t.

(** The transactions of [a] that are not in [b], compared by hash. *)
Definition TxDifference (a b : list Transaction) : list Transaction :=
  let remove : gset bytes := list_to_set (map tx_Hash b) in
  filter (fun t => tx_Hash t ∉ remove) a.

Definition block_Transaction (b : Block) (hash : bytes) : option Transaction :=
  match list_find (fun t => tx_Hash t = hash) (transactions b) with Some (_, t) => Some t | None => None end.

(** ** Bloom filters *)

Definition bloomLength : nat := 256.

Definition Bloom_SetBytes (b d : bytes) : option bytes :=
  if (length b <? length d)%nat then None else Some (take (bloomLength - length d) b ++ d).

Definition BytesToBloom (b : bytes) : option bytes := Bloom_SetBytes (zeros bloomLength) b.

Definition bloom9 (b : bytes) : Z :=
  let b := Keccak256 b in
  let bit i := Z.shiftl 1 (Z.land (b !!! (i + 1)%nat + Z.shiftl (b !!! i) 8) 2047) in
  Z.lor (Z.lor (Z.lor 0 (bit 0%nat)) (bit 2%nat)) (bit 4%nat).

Definition Bloom_Add (b : bytes) (d : Z) : option bytes :=
  Bloom_SetBytes b (Bytes (Z.lor (SetBytes b) (bloom9 (Bytes d)))).

(** [topic] is the [Bytes()] of an address, a hash or an integer. *)
Definition BloomLookup (bin topic : bytes) : bool :=
  let cmp := bloom9 topic in Z.land (SetBytes bin) cmp =? cmp.

Definition Bloom_Test (b : bytes) (test : Z) : bool := BloomLookup b (Bytes test).
Definition Bloom_TestBytes (b test : bytes) : bool := Bloom_Test b (SetBytes test).

Definition log_bloom (bin : Z) (l : Log) : Z :=
  foldl (fun bin t => Z.lor bin (bloom9 t)) (Z.lor bin (bloom9 (logAddress l))) (logTopics l).
Definition LogsBloom (ls : list Log) : Z := foldl log_bloom 0 ls.

Definition CreateBloom (rs : list Receipt) : option bytes :=
  BytesToBloom (Bytes (foldl (fun bin r => Z.lor bin (LogsBloom (Logs r))) 0 rs)).

(** ** The root hash of a list *)

Section Derive.
Context `{Database D} (d : D).

(** The trie has no database; [d] is not used, since nothing is unloaded.  The
    elements are the results of [GetRlp]. *)
Fixpoint derive_loop (tr : Trie) (i : Z) (l : list bytes) : total Trie :=
  match l with
  | [] => Ok tr
  | x :: l =>
      match EncodeToBytes (TUint 64) (VInt (u64 i)) with
      | Ok key => match Update d tr key x with Ok tr => derive_loop tr (i + 1) l | _ => Panic end
      | _ => Panic
      end
  end.

Definition new_trie : Trie := {| root := NNil; originalRoot := zeros 32; cachegen := 0; cachelimit := 0 |}.

Definition DeriveSha (l : list bytes) : total bytes :=
  match derive_loop new_trie 0 l with
  | Ok tr => match Hash D tr with Ok (h, _) => Ok h | _ => Panic end
  | _ => Panic
  end.

Definition tx_GetRlp (t : Transaction) : bytes :=
  match EncodeToBytes tx_type (tx_val t) with Ok b => b | _ => [] end.

(** [Receipts.GetRlp] panics on an encoding error. *)
Definition receipt_GetRlp (r : Receipt) : option bytes :=
  match EncodeToBytes (TSlice false TInterface) (receipt_val r) with Ok b => Some b | _ => None end.

Definition txs_root (ts : list Transaction) : total bytes := DeriveSha (map tx_GetRlp ts).

Definition receipts_root (rs : list Receipt) : total bytes :=
  match mapM receipt_GetRlp rs with Some l => DeriveSha l | None => Panic end.

(** ** Blocks *)

Definition set_roots (h : Header) (txHash receiptHash uncleHash bloom : bytes) : Header :=
  mkHeader (hParentHash h) uncleHash (hCoinbase h) (hRoot h) txHash receiptHash bloom (hDifficulty h) (hNumber h)
    (hGasLimit h) (hGasUsed h) (hTime h) (hExtra h) (hMixDigest h) (hNonce h).

Definition NewBlock (h : Header) (txs : list Transaction) (us : list Header) (rs : list Receipt) : total Block :=
  let* txHash := txs_root txs in
  let* (receiptHash, bloom) :=
    (match rs with
     | [] => let* e := txs_root [] in Ok (e, hBloom h)
     | _ => let* r := receipts_root rs in match CreateBloom rs with Some b => Ok (r, b) | None => Panic end
     end) in
  Ok (mkBlock (set_roots h txHash receiptHash (CalcUncleHash us) bloom) us txs (Some 0)).
End Derive.

Definition NewBlockWithHeader (h : Header) : Block := mkBlock h [] [] None.

Definition WithBody (b : Block) (ts : list Transaction) (us : list Header) : Block := mkBlock (header b) us ts None.

Definition EncodeNonce (i : Z) : bytes := be_fixed 8 i.

Definition WithMiningResult (b : Block) (nonce : Z) (mixDigest : bytes) : Block :=
  let h := header b in
  mkBlock (mkHeader (hParentHash h) (hUncleHash h) (hCoinbase h) (hRoot h) (hTxHash h) (hReceiptHash h) (hBloom h)
             (hDifficulty h) (hNumber h) (hGasLimit h) (hGasUsed h) (hTime h) (hExtra h) mixDigest (EncodeNonce nonce))
    (uncles b) (transactions b) None.

Definition block_Body (b : Block) : Body := mkBody (transactions b) (uncles b).

Definition NumberU64 (b : Block) : Z := u64 (hNumber (header b)).
End Hashes.
