(* ===== verification/TypesSpec.v ===== *)
(** * Consensus data types: encodings, hashes and filters

    Headers, transactions, bodies, blocks and receipts survive their encodings;
    hashes of headers and transactions bind them; bloom filters have no false
    negatives; the root hash of a list binds the list. *)

From S2P Require Import Prelude RlpEncode RlpRaw RlpStream Helper Database Keccak TrieEncoding TrieNode TrieTree TrieStore Trie TrieSpec TrieHash TrieMap StateTrie State Types.

(** ** Well-formed data *)

Record header_ok (h : Header) : Prop := {
  ok_ParentHash : word 32 (hParentHash h);
  ok_UncleHash : word 32 (hUncleHash h);
  ok_Coinbase : word 20 (hCoinbase h);
  ok_Root : word 32 (hRoot h);
  ok_TxHash : word 32 (hTxHash h);
  ok_ReceiptHash : word 32 (hReceiptHash h);
  ok_Bloom : word 256 (hBloom h);
  ok_Difficulty : 0 <= hDifficulty h;
  ok_Number : 0 <= hNumber h;
  ok_GasLimit : 0 <= hGasLimit h;
  ok_GasUsed : 0 <= hGasUsed h;
  ok_Time : 0 <= hTime h;
  ok_Extra : bytes_ok (hExtra h);
  ok_MixDigest : word 32 (hMixDigest h);
  ok_Nonce : word 8 (hNonce h)
}.

Record tx_ok (t : Transaction) : Prop := {
  ok_AccountNonce : 0 <= AccountNonce t < 2 ^ 64;
  ok_Price : 0 <= Price t;
  ok_txGasLimit : 0 <= GasLimit t;
  ok_Recipient b : Recipient t = Some b -> word 20 b;
  ok_Amount : 0 <= Amount t;
  ok_Payload : bytes_ok (Payload t);
  ok_V : 0 <= V t;
  ok_R : 0 <= R t;
  ok_S : 0 <= S_ t
}.

Record log_ok (l : Log) : Prop := {
  ok_logAddress : word 20 (logAddress l);
  ok_logTopics : Forall (word 32) (logTopics l);
  ok_logData : bytes_ok (logData l);
  ok_logBlockNumber : 0 <= logBlockNumber l < 2 ^ 64;
  ok_logTxHash : word 32 (logTxHash l);
  ok_logTxIndex : 0 <= logTxIndex l < 2 ^ 64;
  ok_logBlockHash : word 32 (logBlockHash l);
  ok_logIndex : 0 <= logIndex l < 2 ^ 64
}.

Record receipt_ok (r : Receipt) : Prop := {
  ok_PostState : bytes_ok (PostState r);
  ok_CumulativeGasUsed : 0 <= CumulativeGasUsed r;
  ok_rBloom : word 256 (rBloom r);
  ok_Logs : Forall log_ok (Logs r);
  ok_rTxHash : word 32 (rTxHash r);
  ok_ExternalLogicAddress : word 20 (ExternalLogicAddress r);
  ok_rGasUsed : 0 <= rGasUsed r
}.

Definition body_ok (b : Body) : Prop := Forall tx_ok (b_Transactions b) /\ Forall header_ok (b_Uncles b).

(** ** Values of the types *)

Lemma word_rt n b : word n b -> n <> 1%nat -> rt (VBytes b) (TByteArray n).
Proof. intros [Hb Hl] Hn. split; [done|]. split; [done|]. intros ->. by subst. Qed.

Lemma uint64_rt z : 0 <= z < 2 ^ 64 -> rt (VInt z) (TUint 64).
Proof. intros Hz. split; [tauto|done]. Qed.

Lemma recipient_rt a : (forall b, a = Some b -> word 20 b) -> rt (ptr_val a) (TPtr true (TByteArray 20)).
Proof.
  intros Hw. destruct a as [b|]; [|by left]. destruct (Hw b eq_refl) as [Hb Hl]. cbn. split; [by apply (word_rt 20)|].
  destruct b as [|x [|y b]]; try discriminate. unfold enc_string, head_bytes. rewrite Hl. by split.
Qed.

Create HintDb types.
#[export] Hint Resolve word_rt uint64_rt recipient_rt : types.

Lemma ptrs_rt {A} (f : A -> rval) t l :
  Forall (fun x => rt (f x) t) l -> rt (ptrs f l) (TSlice false (TPtr false t)).
Proof. intros F. split; [done|]. induction F; [done|]. by split. Qed.

Lemma header_rt h : header_ok h -> rt (header_val h) header_type.
Proof. intros []. repeat (split; [by auto with types|]). done. Qed.

Lemma tx_rt t : tx_ok t -> rt (tx_val t) tx_type.
Proof. intros []. repeat (split; [by auto with types|]). done. Qed.

#[export] Hint Resolve header_rt tx_rt : types.

Lemma body_rt b : body_ok b -> rt (body_val b) body_type.
Proof.
  intros [Ht Hu]. split; [|split; [|done]]; apply ptrs_rt; eapply Forall_impl; try done; auto with types.
Qed.

Lemma hashes_rt l : Forall (word 32) l -> rt (hashes_val l) (TSlice false (TByteArray 32)).
Proof. intros F. split; [done|]. induction F; [done|]. split; [by apply (word_rt 32)|done]. Qed.

Lemma log_rt l : log_ok l -> rt (log_storage_val l) log_storage_type.
Proof. intros []. split; [by auto with types|]. split; [by apply hashes_rt|]. repeat (split; [by auto with types|]). done. Qed.

(** ... and back. *)
Lemma val_header_val h : val_header (header_val h) = Some h.
Proof. by destruct h. Qed.

Lemma val_tx_val t : val_tx (tx_val t) = Some t.
Proof. destruct t as [? ? ? [] ? ? ? ? ?]; done. Qed.

Lemma val_ptrs_ptrs {A} (f : A -> rval) g l : (forall x, g (f x) = Some x) -> val_ptrs g (ptrs f l) = Some l.
Proof. intros E. cbn. induction l as [|x l IH]; [done|]. cbn. rewrite E. cbn. by rewrite IH. Qed.

Lemma val_body_val b : val_body (body_val b) = Some b.
Proof.
  destruct b as [ts us]. cbn [body_val val_body b_Transactions b_Uncles].
  by rewrite (val_ptrs_ptrs tx_val) by apply val_tx_val; rewrite (val_ptrs_ptrs header_val) by apply val_header_val.
Qed.

Lemma val_hashes_val l : val_hashes (hashes_val l) = Some l.
Proof. cbn. induction l as [|x l IH]; [done|]. cbn. by rewrite IH. Qed.

Lemma val_log_val l : val_log_storage (log_storage_val l) = Some l.
Proof. destruct l as [a t d n th ti bh i]. cbn [log_storage_val val_log_storage]. by rewrite val_hashes_val. Qed.

(** ** Decoding *)

Definition fits (v : rval) (t : rtype) : Prop := len (enc v t) < 2 ^ 64.

Lemma decode_fuel_enough v t : rt v t -> shallow t = true -> (vsize v <= decode_fuel (enc v t))%nat.
Proof. intros R Sh. pose proof (vsize_enc v t R Sh). unfold decode_fuel. lia. Qed.

Lemma decode_with_enc {A} (f : rval -> option A) v t x :
  rt v t -> shallow t = true -> fits v t -> f v = Some x -> decode_with t f (enc v t) = Ok x.
Proof.
  intros R Sh L E. unfold decode_with.
  destruct (decoder_enc t v (decode_fuel (enc v t)) R L (decode_fuel_enough v t R Sh)) as (s' & -> & _). by rewrite E.
Qed.

Lemma decode_all_enc {A} (f : rval -> option A) v t x :
  rt v t -> shallow t = true -> fits v t -> f v = Some x -> decode_all t f (enc v t) = Ok x.
Proof.
  intros R Sh L E. unfold decode_all. rewrite DecodeBytes_enc by (done || by apply decode_fuel_enough). cbn. by rewrite E.
Qed.

(** The storage form of a receipt is written as a list of interfaces and read as
    a struct; the bytes are the same. *)
Definition receipt_storage_struct (r : Receipt) : rval :=
  VList [VBytes (PostState r); VInt (CumulativeGasUsed r); VBytes (rBloom r); VBytes (rTxHash r);
         VBytes (ExternalLogicAddress r); ptrs log_storage_val (Logs r); VInt (rGasUsed r)].

Lemma receipt_enc r :
  enc (receipt_storage_val r) (TSlice false TInterface) = enc (receipt_storage_struct r) receipt_storage_type.
Proof. done. Qed.

Lemma receipt_rt r : receipt_ok r -> rt (receipt_storage_struct r) receipt_storage_type.
Proof.
  intros []. do 5 (split; [by auto with types|]). split; [|by auto].
  apply ptrs_rt. eapply Forall_impl; [done|]. intros. by apply log_rt.
Qed.

Lemma val_receipt_val r : val_receipt_storage (receipt_storage_struct r) = Some r.
Proof.
  destruct r as [p c b ls th a g]. cbn [receipt_storage_struct val_receipt_storage PostState CumulativeGasUsed rBloom rTxHash ExternalLogicAddress Logs rGasUsed].
  by rewrite (val_ptrs_ptrs log_storage_val) by apply val_log_val.
Qed.

(** ** Hashes bind what they hash *)

Lemma enc_inj v1 v2 t :
  rt v1 t -> rt v2 t -> shallow t = true -> fits v1 t -> enc v1 t = enc v2 t -> v1 = v2.
Proof.
  intros R1 R2 Sh L E. pose proof (DecodeBytes_enc t v1 _ R1 L (decode_fuel_enough v1 t R1 Sh)) as D1. unfold fits in L.
  rewrite E in D1, L. rewrite (DecodeBytes_enc t v2 _ R2 L (decode_fuel_enough v2 t R2 Sh)) in D1. congruence.
Qed.

Section Binding.
Context `{Hash256} (U : bytes -> Prop) (Ucf : collision_free U).

Lemma rlpHash_enc t v : rt v t -> fits v t -> rlpHash t v = Keccak256 (enc v t).
Proof. intros R L. unfold rlpHash. by rewrite EncodeToBytes_enc by (done || by apply rt_wt). Qed.

Lemma rlpHash_inj t v1 v2 :
  rt v1 t -> rt v2 t -> shallow t = true -> fits v1 t -> fits v2 t -> U (enc v1 t) -> U (enc v2 t) ->
  rlpHash t v1 = rlpHash t v2 -> v1 = v2.
Proof.
  intros R1 R2 Sh L1 L2 U1 U2. rewrite !rlpHash_enc by done. intros E. apply Ucf in E; [|done..]. by apply (enc_inj _ _ t).
Qed.

Lemma header_val_inj h1 h2 : header_val h1 = header_val h2 -> h1 = h2.
Proof. intros E. pose proof (val_header_val h1) as V1. rewrite E, val_header_val in V1. congruence. Qed.

Lemma tx_val_inj t1 t2 : tx_val t1 = tx_val t2 -> t1 = t2.
Proof. intros E. pose proof (val_tx_val t1) as V1. rewrite E, val_tx_val in V1. congruence. Qed.

Lemma uncles_val_inj l1 l2 : ptrs header_val l1 = ptrs header_val l2 -> l1 = l2.
Proof.
  intros E. pose proof (val_ptrs_ptrs header_val val_header l1 val_header_val) as V1.
  rewrite E, (val_ptrs_ptrs header_val val_header l2 val_header_val) in V1. congruence.
Qed.
End Binding.

(** ** The trie of a list *)

Section Derive.
Context `{Hash256} `{DatabaseLaws D} (d : D).

(** The key of an element. *)
Definition index_key (i : nat) : bytes := enc_string (Bytes (Z.of_nat i)).

(** [t] has the elements of [l] from position [n] on, nothing else. *)
Definition list_trie (l : list bytes) (t : tree) : Prop :=
  canon_root t /\ byte_keys t /\
  (forall i x, l !! i = Some x -> content t (index_key i) = Some x) /\
  (forall key v, byte_key key -> content t key = Some v -> exists i, key = index_key i /\ l !! i = Some v).

Definition element_ok (x : bytes) : Prop := bytes_ok x /\ 0 < len x < 2 ^ 32.

Lemma index_key_ok i : Z.of_nat i < 2 ^ 64 -> byte_key (index_key i).
Proof.
  intros Hi. pose proof (Bytes_length_64 (Z.of_nat i) ltac:(lia)) as L. unfold index_key. split.
  - apply enc_string_ok; [apply Bytes_ok|lia].
  - pose proof (enc_string_len_short (Bytes (Z.of_nat i))). lia.
Qed.

Lemma index_key_inj i j : Z.of_nat i < 2 ^ 64 -> Z.of_nat j < 2 ^ 64 -> index_key i = index_key j -> i = j.
Proof.
  intros Hi Hj E. assert (Ev : VInt (Z.of_nat i) = VInt (Z.of_nat j)); [|injection Ev; lia].
  apply (enc_inj _ _ (TUint 64)); [apply uint64_rt; lia|apply uint64_rt; lia|done| |exact E].
  unfold fits. cbn. destruct (index_key_ok i Hi) as [_ L]. unfold index_key in L. lia.
Qed.

Lemma derive_step tr t l x :
  trie_ok d tr t -> list_trie l t -> element_ok x -> Z.of_nat (length l) < 2 ^ 64 ->
  exists tr' t', Update d tr (index_key (length l)) x = Ok tr' /\ trie_ok d tr' t' /\ list_trie (l ++ [x]) t'.
Proof.
  intros T (C & B & L1 & L2) (Hx & Lx) Hl. pose proof (index_key_ok (length l) Hl) as Hk.
  destruct (TryUpdate_ok d tr t (index_key (length l)) x T Hk Hx ltac:(lia)) as (n & t' & E & T' & G).
  exists (set_root tr n), t'. split; [unfold Update; by rewrite E|]. split; [done|].
  assert (Hne : x <> []) by (intros ->; cbn in Lx; lia). split; [apply T'|]. split; [apply T'|]. split.
  - intros i y Hy. assert (Hi : Z.of_nat i < 2 ^ 64) by (apply lookup_lt_Some in Hy; rewrite length_app in Hy; cbn in Hy; lia).
    rewrite G by (by apply index_key_ok). apply lookup_snoc_Some in Hy as [[Hlt Hy]|[-> ->]].
    + rewrite decide_False; [by apply L1|]. intros X. apply index_key_inj in X; [lia|done|lia].
    + by rewrite decide_True, decide_False.
  - intros key v Hkey. rewrite G by done. destruct (decide (key = _)) as [->|Hn].
    + rewrite decide_False by done. intros [= <-]. exists (length l). split; [done|]. by apply lookup_snoc_Some; right.
    + intros (i & -> & Hi)%L2; [|done]. exists i. split; [done|]. apply lookup_app_l_Some. done.
Qed.

Lemma derive_ok l0 l tr t :
  trie_ok d tr t -> list_trie l0 t -> Forall element_ok l -> Z.of_nat (length (l0 ++ l)) < 2 ^ 64 ->
  exists tr' t', derive_loop d tr (Z.of_nat (length l0)) l = Ok tr' /\ trie_ok d tr' t' /\ list_trie (l0 ++ l) t'.
Proof.
  revert l0 tr t. induction l as [|x l IH]; intros l0 tr t T L F Hl; cbn [derive_loop].
  { exists tr, t. by rewrite app_nil_r. }
  inversion F as [|? ? Hx F']; subst. rewrite length_app in Hl. cbn in Hl.
  assert (Ek : EncodeToBytes (TUint 64) (VInt (u64 (Z.of_nat (length l0)))) = Ok (index_key (length l0))).
  { rewrite u64_small by lia. rewrite EncodeToBytes_enc; [done|split; [tauto|lia]|].
    destruct (index_key_ok (length l0) ltac:(lia)) as [_ L']. cbn. unfold index_key in L'. lia. }
  rewrite Ek. destruct (derive_step tr t l0 x T L Hx ltac:(lia)) as (tr' & t' & -> & T' & L').
  replace (Z.of_nat (length l0) + 1) with (Z.of_nat (length (l0 ++ [x]))) by (rewrite length_app; cbn; lia).
  destruct (IH (l0 ++ [x]) tr' t' T' L' F') as (tr2 & t2 & E2 & T2 & L2); [rewrite <- app_assoc, length_app; cbn; lia|].
  exists tr2, t2. rewrite <- app_assoc in L2. done.
Qed.

Lemma DeriveSha_ok l :
  Forall element_ok l -> Z.of_nat (length l) < 2 ^ 64 ->
  exists t, DeriveSha d l = Ok (root_hash t) /\ list_trie l t.
Proof.
  intros F Hl. destruct (derive_ok [] l new_trie TNil) as (tr & t & E & T & L); [|split; [by left|]|done|done|].
  - split; [constructor|by left|done].
  - split; [done|]. split; [by intros i x Hx|]. intros key v _ E. discriminate E.
  - exists t. unfold DeriveSha. change (Z.of_nat (length (@nil bytes))) with 0 in E. rewrite E. destruct (Hash_ok d tr t T) as (n & -> & _). done.
Qed.

Lemma list_trie_inj l1 l2 t :
  list_trie l1 t -> list_trie l2 t -> Z.of_nat (length l1) < 2 ^ 64 -> Z.of_nat (length l2) < 2 ^ 64 -> l1 = l2.
Proof.
  intros (_ & _ & A1 & B1) (_ & _ & A2 & B2) H1' H2'. apply list_eq. intros i.
  assert (G : forall l l' x, (forall i x, l !! i = Some x -> content t (index_key i) = Some x) ->
    (forall key v, byte_key key -> content t key = Some v -> exists i, key = index_key i /\ l' !! i = Some v) ->
    Z.of_nat (length l) < 2 ^ 64 -> Z.of_nat (length l') < 2 ^ 64 -> l !! i = Some x -> l' !! i = Some x).
  { intros l l' x A B Hl Hl' Hx. pose proof (lookup_lt_Some _ _ _ Hx) as Hi.
    destruct (B (index_key i) x (index_key_ok i ltac:(lia)) (A i x Hx)) as (j & Ej & Hj).
    pose proof (lookup_lt_Some _ _ _ Hj). apply index_key_inj in Ej; [by subst|lia|lia]. }
  destruct (l1 !! i) as [x|] eqn:E1; [symmetry; by apply (G l1 l2)|].
  destruct (l2 !! i) as [x|] eqn:E2; [|done]. apply (G l2 l1) in E2; [congruence|done..].
Qed.

(** Equal roots mean equal lists. *)
Lemma DeriveSha_inj (U : bytes -> Prop) l1 l2 h :
  collision_free U -> U [0x80] -> emptyRoot = Keccak256 [0x80] ->
  Forall element_ok l1 -> Forall element_ok l2 -> Z.of_nat (length l1) < 2 ^ 64 -> Z.of_nat (length l2) < 2 ^ 64 ->
  (forall t, list_trie l1 t -> encs U t) -> (forall t, list_trie l2 t -> encs U t) ->
  DeriveSha d l1 = Ok h -> DeriveSha d l2 = Ok h -> l1 = l2.
Proof.
  intros Ucf U0 E0 F1 F2 N1 N2 C1 C2 D1 D2.
  destruct (DeriveSha_ok l1 F1 N1) as (t1 & X1 & L1). destruct (DeriveSha_ok l2 F2 N2) as (t2 & X2 & L2).
  rewrite X1 in D1. rewrite X2 in D2. injection D1 as D1. injection D2 as D2.
  assert (t1 = t2) as ->; [|by eapply list_trie_inj].
  pose proof (C1 t1 L1) as U1. pose proof (C2 t2 L2) as U2.
  destruct L1 as (K1 & B1 & _). destruct L2 as (K2 & B2 & _).
  assert (G : forall t, canon t -> byte_keys t -> encs U t -> root_hash t <> emptyRoot).
  { intros t C B Ue. rewrite root_hash_canon, E0 by done. intros E.
    apply Ucf in E; [|by apply encs_U; [|apply canon_is_node]|done].
    destruct (canon_enc_good t C (byte_keys_ok t B)) as (_ & _ & c & Ec & _). rewrite Ec in E.
    unfold enc_list, head_bytes in E. destruct (_ <? _); cbn in E; injection E; lia. }
  destruct K1 as [->|K1], K2 as [->|K2]; [done| | |].
  - exfalso. apply (G t2 K2 B2 U2). rewrite D2, <- D1. done.
  - exfalso. apply (G t1 K1 B1 U1). rewrite D1, <- D2. done.
  - apply (root_hash_inj U); try done; [by apply byte_keys_ok..|congruence].
Qed.
End Derive.

(** ** Blocks *)

Record block_ok (b : Block) : Prop := {
  bo_header : header_ok (header b);
  bo_uncles : Forall header_ok (uncles b);
  bo_txs : Forall tx_ok (transactions b);
  bo_count : Z.of_nat (length (transactions b)) < 2 ^ 64;
  bo_header_fits : fits (header_val (header b)) header_type;
  bo_uncles_fit : fits (ptrs header_val (uncles b)) (TSlice false (TPtr false header_type));
  bo_txs_fit : Forall (fun t => len (enc (tx_val t) tx_type) < 2 ^ 32) (transactions b)
}.

Section BlockBinding.
Context `{Hash256} `{DatabaseLaws D} (d : D).

(** What the validator checks of the header against the body. *)
Definition sealed (b : Block) : Prop :=
  txs_root d (transactions b) = Ok (hTxHash (header b)) /\ CalcUncleHash (uncles b) = hUncleHash (header b).

(** The byte strings that are hashed for a block. *)
Definition hashed (U : bytes -> Prop) (b : Block) : Prop :=
  U (enc (header_val (header b)) header_type) /\
  U (enc (ptrs header_val (uncles b)) (TSlice false (TPtr false header_type))) /\
  forall t, list_trie (map tx_GetRlp (transactions b)) t -> encs U t.

Lemma tx_GetRlp_enc t : tx_ok t -> len (enc (tx_val t) tx_type) < 2 ^ 32 -> tx_GetRlp t = enc (tx_val t) tx_type.
Proof. intros T L. unfold tx_GetRlp. by rewrite EncodeToBytes_enc by (by apply rt_wt, tx_rt || lia). Qed.

Lemma txs_elements b : block_ok b -> Forall element_ok (map tx_GetRlp (transactions b)).
Proof.
  intros [_ _ T _ _ _ L]. apply Forall_map, Forall_forall. intros t Ht.
  pose proof (proj1 (Forall_forall _ _) T t Ht) as Tt. pose proof (proj1 (Forall_forall _ _) L t Ht) as Lt. cbv beta in Lt.
  rewrite tx_GetRlp_enc by done. pose proof (enc_pos _ _ (tx_rt t Tt)). split; [|lia].
  apply enc_ok; [by apply rt_wt, tx_rt|lia].
Qed.

Lemma tx_GetRlp_inj b1 b2 :
  block_ok b1 -> block_ok b2 -> map tx_GetRlp (transactions b1) = map tx_GetRlp (transactions b2) ->
  transactions b1 = transactions b2.
Proof.
  intros [_ _ T1 _ _ _ L1] [_ _ T2 _ _ _ L2]. revert T1 L1 T2 L2. generalize (transactions b2). generalize (transactions b1).
  induction l as [|t1 l1 IH]; intros [|t2 l2]; try done. intros T1 L1 T2 L2.
  inversion T1; inversion L1; inversion T2; inversion L2; subst. cbn. intros [= E El].
  f_equal; [|by apply IH]. rewrite !tx_GetRlp_enc in E by done. apply tx_val_inj.
  apply (enc_inj _ _ tx_type); try done; [by apply tx_rt|by apply tx_rt|unfold fits; lia].
Qed.

(** C21: the hash of a block binds the whole block: two blocks whose headers match
    their bodies, with the same hash, have the same header, transactions and
    uncles, as long as no two byte strings hashed for them collide. *)
Theorem block_hash_binding (U : bytes -> Prop) b1 b2 :
  collision_free U -> U [0x80] -> emptyRoot = Keccak256 [0x80] ->
  block_ok b1 -> block_ok b2 -> hashed U b1 -> hashed U b2 -> sealed b1 -> sealed b2 ->
  block_Hash b1 = block_Hash b2 ->
  header b1 = header b2 /\ transactions b1 = transactions b2 /\ uncles b1 = uncles b2.
Proof.
  intros Ucf U0 E0 B1 B2 (U1 & V1 & W1) (U2 & V2 & W2) [S1 C1] [S2 C2] E. pose proof B1 as []. pose proof B2 as [].
  assert (Eh : header b1 = header b2).
  { apply header_val_inj, (rlpHash_inj U Ucf header_type); auto using header_rt. }
  split; [done|]. rewrite <- Eh in S2, C2. split.
  - apply tx_GetRlp_inj; [done..|].
    apply (DeriveSha_inj d U _ _ (hTxHash (header b1))); rewrite ?length_map; auto using txs_elements.
  - apply uncles_val_inj, (rlpHash_inj U Ucf (TSlice false (TPtr false header_type))); try done.
    + apply ptrs_rt. eapply Forall_impl; [done|]. auto using header_rt.
    + apply ptrs_rt. eapply Forall_impl; [done|]. auto using header_rt.
    + unfold CalcUncleHash in C1, C2. congruence.
Qed.
End BlockBinding.

(** ** Bloom filters *)

Section Bloom.
Context `{Hash256}.

(** All bits of [c] are in [v]. *)
Definition covers (v c : Z) : Prop := Z.land v c = c.

Lemma covers_self c : covers c c. Proof. apply Z.land_diag. Qed.
Lemma covers_l a b c : covers a c -> covers (Z.lor a b) c.
Proof.
  unfold covers. intros E. rewrite Z.land_lor_distr_l, E. apply Z.bits_inj. intros n. rewrite Z.lor_spec, Z.land_spec.
  by destruct (Z.testbit b n), (Z.testbit c n).
Qed.
Lemma covers_r a b c : covers b c -> covers (Z.lor a b) c.
Proof. rewrite Z.lor_comm. apply covers_l. Qed.
#[local] Hint Resolve covers_self covers_l covers_r : types.

Definition small (v : Z) : Prop := 0 <= v < 2 ^ 2048.

Lemma small_lor a b : small a -> small b -> small (Z.lor a b).
Proof.
  intros [A1 A2] [B1 B2]. split; [by apply Z.lor_nonneg|].
  assert (Z.lor a b = 0 \/ 0 < Z.lor a b) as [->|P] by (pose proof (proj2 (Z.lor_nonneg a b) (conj A1 B1)); lia); [done|].
  apply Z.log2_lt_pow2; [done|]. rewrite Z.log2_lor by done.
  assert (G : forall v, 0 <= v < 2 ^ 2048 -> Z.log2 v < 2048).
  { intros v Hv. destruct (decide (v = 0)) as [->|]; [done|]. apply Z.log2_lt_pow2; lia. }
  pose proof (G a). pose proof (G b). lia.
Qed.

Lemma small_bit n : small (Z.shiftl 1 (Z.land n 2047)).
Proof.
  assert (0 <= Z.land n 2047 < 2048).
  { change 2047 with (Z.ones 11). rewrite Z.land_ones by done. apply Z.mod_pos_bound. done. }
  rewrite Z.shiftl_1_l. split; [apply Z.pow_nonneg; lia|]. apply Z.pow_lt_mono_r; lia.
Qed.

Lemma bloom9_small b : small (bloom9 b).
Proof. unfold bloom9. repeat apply small_lor; try apply small_bit. done. Qed.
#[local] Hint Resolve small_lor bloom9_small : types.

Lemma log_bloom_small v l : small v -> small (log_bloom v l).
Proof.
  unfold log_bloom. intros Hv. assert (Hv' : small (Z.lor v (bloom9 (logAddress l)))) by auto with types.
  revert Hv'. generalize (Z.lor v (bloom9 (logAddress l))). induction (logTopics l) as [|t ts IH]; cbn; auto with types.
Qed.

Lemma log_bloom_mono v l c : covers v c -> covers (log_bloom v l) c.
Proof.
  unfold log_bloom. intros Hv. assert (Hv' : covers (Z.lor v (bloom9 (logAddress l))) c) by auto with types.
  revert Hv'. generalize (Z.lor v (bloom9 (logAddress l))). induction (logTopics l) as [|t ts IH]; cbn; auto with types.
Qed.

Lemma log_bloom_topic v l t : t = logAddress l \/ t ∈ logTopics l -> covers (log_bloom v l) (bloom9 t).
Proof.
  unfold log_bloom. intros Ht.
  assert (G : forall ts u, covers u (bloom9 t) \/ t ∈ ts -> covers (foldl (fun bin t => Z.lor bin (bloom9 t)) u ts) (bloom9 t)).
  { induction ts as [|x ts IH]; intros u [Hu|Hu]; cbn; [done|by apply not_elem_of_nil in Hu|auto with types|].
    apply elem_of_cons in Hu as [->|Hu]; [auto with types|]. apply IH. by right. }
  apply G. destruct Ht as [->|Ht]; [left; auto with types|by right].
Qed.

Lemma LogsBloom_ok ls :
  small (LogsBloom ls) /\
  forall l t, l ∈ ls -> t = logAddress l \/ t ∈ logTopics l -> covers (LogsBloom ls) (bloom9 t).
Proof.
  unfold LogsBloom. assert (S0 : small 0) by done. revert S0. generalize 0 as v.
  induction ls as [|x ls IH]; intros v Hv; cbn; [split; [done|]; intros l t Hl; by apply not_elem_of_nil in Hl|].
  destruct (IH (log_bloom v x) (log_bloom_small v x Hv)) as [S1 C1]. split; [done|]. intros l t Hl Ht.
  apply elem_of_cons in Hl as [->|Hl]; [|by eapply C1].
  assert (G : forall ls u, covers u (bloom9 t) -> covers (foldl log_bloom u ls) (bloom9 t)).
  { induction ls0 as [|y ys IHy]; intros u Hu; cbn; [done|]. apply IHy. by apply log_bloom_mono. }
  apply G. by apply log_bloom_topic.
Qed.

Lemma receipts_bloom_ok rs v :
  small v ->
  small (foldl (fun bin r => Z.lor bin (LogsBloom (Logs r))) v rs) /\
  (forall c, covers v c -> covers (foldl (fun bin r => Z.lor bin (LogsBloom (Logs r))) v rs) c) /\
  forall r l t, r ∈ rs -> l ∈ Logs r -> t = logAddress l \/ t ∈ logTopics l ->
    covers (foldl (fun bin r => Z.lor bin (LogsBloom (Logs r))) v rs) (bloom9 t).
Proof.
  revert v. induction rs as [|x rs IH]; intros v Hv; cbn.
  { split; [done|]. split; [done|]. intros r l t Hr. by apply not_elem_of_nil in Hr. }
  destruct (LogsBloom_ok (Logs x)) as [S1 C1]. destruct (IH (Z.lor v (LogsBloom (Logs x)))) as (S2 & M2 & C2); [auto with types|].
  split; [done|]. split; [intros c Hc; apply M2; auto with types|]. intros r l t Hr Hl Ht.
  apply elem_of_cons in Hr as [->|Hr]; [|by eapply C2]. apply M2, covers_r. by eapply C1.
Qed.

(** A small integer fits in a filter. *)
Lemma BytesToBloom_ok v :
  small v -> exists b, BytesToBloom (Bytes v) = Some b /\ word 256 b /\ SetBytes b = v.
Proof.
  intros Hv. assert (L : (length (Bytes v) <= 256)%nat) by (apply Bytes_length; change (256 ^ Z.of_nat 256) with (2 ^ 2048); done).
  unfold BytesToBloom, Bloom_SetBytes. change (length (zeros bloomLength)) with 256%nat. rewrite (proj2 (Nat.ltb_ge _ _)) by done.
  eexists. split; [done|]. unfold zeros, bloomLength. rewrite take_replicate, Nat.min_l by lia. split.
  - split; [apply Forall_app; split; [apply Forall_replicate; unfold byte_ok; lia|apply Bytes_ok]|].
    rewrite length_app, length_replicate. lia.
  - rewrite SetBytes_app, SetBytes_Bytes by apply Hv.
    assert (Z0 : forall n, SetBytes (replicate n 0) = 0).
    { intros n. induction n as [|n IHn]; [done|]. rewrite replicate_S, SetBytes_cons, IHn. lia. }
    rewrite Z0. lia.
Qed.

(** The bloom filter of a block's receipts has no false negatives: looking up
    the address or a topic of any log of any receipt succeeds; and the filter
    can always be built. *)
Theorem bloom_complete rs :
  exists b, CreateBloom rs = Some b /\ word 256 b /\
    forall r l t, r ∈ rs -> l ∈ Logs r -> t = logAddress l \/ t ∈ logTopics l -> BloomLookup b t = true.
Proof.
  destruct (receipts_bloom_ok rs 0) as (S1 & _ & C1); [done|]. destruct (BytesToBloom_ok _ S1) as (b & E & Wb & Vb).
  exists b. split; [exact E|]. split; [done|]. intros r l t Hr Hl Ht. unfold BloomLookup. rewrite Vb. apply Z.eqb_eq.
  by eapply C1.
Qed.

(** Adding to a filter keeps what is in it. *)
Lemma Bloom_Add_ok b x :
  word 256 b ->
  exists b', Bloom_Add b x = Some b' /\ word 256 b' /\ Bloom_Test b' x = true /\
    forall y, Bloom_Test b y = true -> Bloom_Test b' y = true.
Proof.
  intros [Hb Hl]. set (v := Z.lor (SetBytes b) (bloom9 (Bytes x))).
  assert (Sb : small (SetBytes b)).
  { pose proof (SetBytes_range b Hb) as X. rewrite Hl in X. change (256 ^ Z.of_nat 256) with (2 ^ 2048) in X. done. }
  assert (Sv : small v) by (unfold v; auto with types).
  assert (L : (length (Bytes v) <= 256)%nat) by (apply Bytes_length; change (256 ^ Z.of_nat 256) with (2 ^ 2048); done).
  set (b' := take (bloomLength - length (Bytes v)) b ++ Bytes v).
  assert (E : Bloom_Add b x = Some b').
  { unfold Bloom_Add, Bloom_SetBytes. fold v. by rewrite Hl, (proj2 (Nat.ltb_ge _ _)). }
  assert (Wb : word 256 b').
  { split; [apply Forall_app; split; [by apply Forall_take|apply Bytes_ok]|].
    unfold b', bloomLength. rewrite length_app, length_take. lia. }
  assert (Le : SetBytes b <= v).
  { unfold v. set (x9 := bloom9 (Bytes x)). assert (Z.lor (SetBytes b) x9 = SetBytes b + Z.ldiff x9 (SetBytes b)) as ->.
    - rewrite Z.add_nocarry_lxor; apply Z.bits_inj; intros n;
        rewrite ?Z.lxor_spec, ?Z.lor_spec, ?Z.land_spec, ?Z.ldiff_spec, ?Z.bits_0;
        by destruct (Z.testbit (SetBytes b) n), (Z.testbit x9 n).
    - assert (0 <= Z.ldiff x9 (SetBytes b)) by (apply Z.ldiff_nonneg; left; apply bloom9_small). lia. }
  assert (Vb : SetBytes b' = v).
  { unfold b'. rewrite SetBytes_app, SetBytes_Bytes by apply Sv. set (k := (bloomLength - length (Bytes v))%nat).
    pose proof (SetBytes_app (take k b) (drop k b)) as Es. rewrite take_drop in Es.
    assert (Ld : len (drop k b) = len (Bytes v)) by (rewrite length_drop; unfold k, bloomLength; lia). rewrite Ld in Es.
    pose proof (SetBytes_range (drop k b) ltac:(by apply Forall_drop)) as Rd. rewrite Ld in Rd.
    pose proof (SetBytes_range (take k b) ltac:(by apply Forall_take)) as Rt.
    pose proof (SetBytes_range (Bytes v) (Bytes_ok v)) as Rv. rewrite SetBytes_Bytes in Rv by apply Sv.
    clear -Es Rd Rt Rv Le. set (P := 256 ^ len (Bytes v)) in *. assert (SetBytes (take k b) = 0) as -> by nia. lia. }
  exists b'. split; [done|]. split; [done|]. unfold Bloom_Test, BloomLookup. rewrite Vb. unfold v. split.
  - apply Z.eqb_eq, covers_r, covers_self.
  - intros y Hy. apply Z.eqb_eq, covers_l. by apply Z.eqb_eq.
Qed.
End Bloom.

(** ** Witness *)

#[local] Existing Instance keccak_hash.

Definition header0 : Header :=
  mkHeader (zeros 32) (CalcUncleHash []) (zeros 20) (zeros 32) emptyRoot emptyRoot (zeros 256) 131072 1 5000 0 10 [1; 2]
    (zeros 32) (zeros 8).
Definition block0 : Block := mkBlock header0 [] [] None.

Definition hashed0 (e : bytes) : Prop :=
  e = enc (header_val header0) header_type \/ e = [0xC0] \/ e = [0x80].

Lemma zeros_word n : word n (zeros n).
Proof. split; [apply Forall_replicate; unfold byte_ok; lia|apply length_replicate]. Qed.

Lemma rlpHash_word `{Hash256} t v : word 32 (rlpHash t v).
Proof. unfold rlpHash. split; destruct (EncodeToBytes _ _); apply Keccak256_length || apply Keccak256_ok. Qed.

Lemma block0_ok : block_ok block0.
Proof.
  assert (H0 : word 32 (CalcUncleHash [])) by apply rlpHash_word.
  assert (H1 : word 32 emptyRoot) by (split; [apply (bool_decide_unpack _); by vm_compute|done]).
  assert (Hb : bytes_ok [1; 2]) by (apply (bool_decide_unpack _); by vm_compute).
  split; [|constructor|constructor|done|by vm_compute|by vm_compute|constructor].
  split; [apply zeros_word|exact H0|apply zeros_word|apply zeros_word|exact H1|exact H1|apply zeros_word|
    cbn; lia|cbn; lia|cbn; lia|cbn; lia|cbn; lia|exact Hb|apply zeros_word|apply zeros_word].
Qed.

Lemma hashed0_free : collision_free hashed0.
Proof.
  assert (D : bool_decide (NoDup (map Keccak256 [enc (header_val header0) header_type; [0xC0]; [0x80]])) = true) by (vm_compute; reflexivity).
  apply bool_decide_eq_true_1 in D. cbn [map] in D. rewrite !NoDup_cons, !not_elem_of_cons in D. destruct D as ((N1 & N2 & _) & (N3 & _) & _).
  intros a b [->|[->| ->]] [->|[->| ->]] E; first [reflexivity|congruence].
Qed.

Lemma block_hash_binding_witness :
  header block0 = header block0 /\ transactions block0 = transactions block0 /\ uncles block0 = uncles block0.
Proof.
  assert (Hh : hashed hashed0 block0).
  { split; [by left|]. split; [by right; left|]. intros t (C & B & _ & L). destruct C as [->|C]; [constructor|].
    destruct (canon_inhabited t C) as (k & v & Hk & Ev). destruct (B k v Hk Ev) as (b & Hb & ->).
    destruct (L b v Hb Ev) as (i & _ & Hi). discriminate Hi. }
  assert (Sl : sealed NewMemDatabase block0) by (split; vm_compute; reflexivity).
  refine (block_hash_binding (H0 := MemDatabase_database) NewMemDatabase hashed0 block0 block0 hashed0_free _ _
    block0_ok block0_ok Hh Hh Sl Sl eq_refl); [by right; right|vm_compute; reflexivity].
Defined.
