(* ===== verification/ChainDb.v ===== *)
(** * The chain database (src/blockchainCore/database_util.go)

    Keys and values of headers, bodies, total difficulties, receipts,
    transactions, canonical hashes and head pointers, on any key-value store.

    [glog.Fatalf] ends the process, which is the error [Fatal] here.  A [Get]
    that fails reads as no data.  The functions append to the slices of the
    prefixes, which one goroutine can do safely.  The chain configuration is
    stored as JSON by the standard library and is left out. *)

From S2P Require Import Prelude RlpEncode RlpRaw RlpStream Helper Database TrieNode Trie TrieHash StateTrie State Types.
From Stdlib Require Import Strings.Ascii Strings.String.

(** Go string constants. *)
Definition str (s : string) : bytes := map (fun c => Z.of_N (N_of_ascii c)) (list_ascii_of_string s).

(** ** The store *)

(** What the functions use of a database besides reading and writing one key. *)
Class Store (D : Type) := {
  store_db :: Database D;
  db_delete : D -> bytes -> D;
  db_write : D -> list (bytes * bytes) -> D * bool
}.

(** A successful write of a batch leaves each key with the last value put to it. *)
Class StoreLaws (D : Type) `{Store D} := {
  store_laws :: DatabaseLaws D;
  db_get_delete d k k' : db_get (db_delete d k) k' = if decide (k' = k) then None else db_get d k';
  db_get_write d d' ws k : db_write d ws = (d', true) ->
    db_get d' k = foldl (fun r kv => if decide (k = kv.1) then Some kv.2 else r) (db_get d k) ws
}.

(** The memory database between the calls of one goroutine: its lock is free, so
    every method returns. *)
Record OpenMem := open_mem { contents : gmap bytes bytes }.
Definition unlocked (d : OpenMem) : MemDatabase := {| db := contents d; lock := free |}.
Definition returns (d : OpenMem) (r : option MemDatabase) : OpenMem * bool :=
  match r with Some r => (open_mem (db r), true) | None => (d, false) end.

#[global] Instance OpenMem_writer : Writer OpenMem := { db_put d k v := returns d (Put k v (unlocked d)) }.
#[global] Instance OpenMem_database : Database OpenMem := { db_get d k := db_get (unlocked d) k }.
#[global] Instance OpenMem_store : Store OpenMem := {
  db_delete d k := fst (returns d (Delete k (unlocked d)));
  db_write d ws := returns d (snd <$> batch_Write {| writes := ws; batch_lock := free |} (unlocked d))
}.

Lemma lookup_insert_case (m : gmap bytes bytes) k v k' : <[k := v]> m !! k' = if decide (k' = k) then Some v else m !! k'.
Proof. case_decide as E; [subst; apply lookup_insert_eq|by apply lookup_insert_ne]. Qed.

#[global] Instance OpenMem_laws : StoreLaws OpenMem.
Proof.
  split; [split|..].
  - intros d d' k v k'. cbn. intros [= <-]. apply lookup_insert_case.
  - intros d d' k v k'. discriminate.
  - intros d k k'. cbn. case_decide as E; [subst; apply lookup_delete_eq|by apply lookup_delete_ne].
  - intros d d' ws k. cbn. intros [= <-]. cbn. generalize (contents d).
    induction ws as [|[k1 v1] ws IH]; intros m; [done|]. cbn. rewrite IH. f_equal. apply lookup_insert_case.
Qed.

(** ** Keys *)

Definition headHeaderKey : bytes := str "LastHeader".
Definition headBlockKey : bytes := str "LastBlock".
Definition headFastKey : bytes := str "LastFast".
Definition headerPrefix : bytes := str "h".
Definition tdSuffix : bytes := str "t".
Definition numSuffix : bytes := str "n".
Definition blockHashPrefix : bytes := str "H".
Definition bodyPrefix : bytes := str "b".
Definition blockReceiptsPrefix : bytes := str "r".
Definition txMetaSuffix : bytes := [0x01].
Definition receiptsPrefix : bytes := str "receipts-".
Definition mipmapPre : bytes := str "mipmap-log-bloom-".
Definition MIPMapLevels : list Z := [1000000; 500000; 100000; 50000; 1000].
Definition oldBlockPrefix : bytes := str "block-".
Definition oldHeaderSuffix : bytes := str "-header".
Definition oldTdSuffix : bytes := str "-td".
Definition oldBodySuffix : bytes := str "-body".
Definition oldBlockNumPrefix : bytes := str "block-num-".
Definition oldBlockReceiptsPrefix : bytes := str "receipts-block-".
Definition oldBlockHashPrefix : bytes := str "block-hash-".
Definition versionKey : bytes := str "BlockchainVersion".

Definition encodeBlockNumber (number : Z) : bytes := be_fixed 8 number.

Definition missingNumber : Z := 0xffffffffffffffff.

(** [int64] of a [uint64]. *)
Definition int64 (z : Z) : Z := if z <? 2 ^ 63 then z else z - 2 ^ 64.

Inductive chain_error := Fatal | EncodeFailed | PutError | WriteError.

Section ChainDb.
Context `{Hash256} `{Store D}.

(** [data, _ := db.Get(key)]; nil and empty data are alike to the callers. *)
Definition get (d : D) (key : bytes) : bytes := default [] (db_get d key).

Definition put_fatal (d : D) (key value : bytes) : outcome chain_error D :=
  let '(d, ok) := db_put d key value in if ok : bool then Ok d else Err Fatal.

Definition encoded (t : rtype) (v : rval) : outcome chain_error bytes :=
  match EncodeToBytes t v with Ok b => Ok b | Err _ => Err EncodeFailed | Panic => Panic end.

(** An error of decoding is logged and reads as nothing. *)
Definition or_nil {A} (m : outcome rlp_error A) : total (option A) :=
  match m with Ok a => Ok (Some a) | Err _ => Ok None | Panic => Panic end.

(** ** Reading *)

Definition GetCanonicalHash (d : D) (number : Z) : bytes :=
  let data := get d (headerPrefix ++ encodeBlockNumber number ++ numSuffix) in
  if len data =? 0 then
    let data := get d (oldBlockNumPrefix ++ Bytes (Z.abs (int64 number))) in
    if len data =? 0 then zeros 32 else BytesToHash data
  else BytesToHash data.

Definition GetBlockNumber (d : D) (hash : bytes) : outcome chain_error Z :=
  let data := get d (blockHashPrefix ++ hash) in
  if negb (len data =? 8) then
    let data := get d (oldBlockPrefix ++ hash ++ oldHeaderSuffix) in
    if len data =? 0 then Ok missingNumber
    else
      match decode_with header_type val_header data with
      | Ok h => Ok (u64 (hNumber h))
      | Err _ => Err Fatal
      | Panic => Panic
      end
  else Ok (SetBytes data).

Definition head_hash (d : D) (key : bytes) : bytes :=
  let data := get d key in if len data =? 0 then zeros 32 else BytesToHash data.

Definition GetHeadHeaderHash (d : D) : bytes := head_hash d headHeaderKey.
Definition GetHeadBlockHash (d : D) : bytes := head_hash d headBlockKey.
Definition GetHeadFastBlockHash (d : D) : bytes := head_hash d headFastKey.

Definition GetHeaderRLP (d : D) (hash : bytes) (number : Z) : bytes :=
  let data := get d (headerPrefix ++ encodeBlockNumber number ++ hash) in
  if len data =? 0 then get d (oldBlockPrefix ++ hash ++ oldHeaderSuffix) else data.

Definition GetHeader (d : D) (hash : bytes) (number : Z) : total (option Header) :=
  let data := GetHeaderRLP d hash number in
  if len data =? 0 then Ok None else or_nil (decode_with header_type val_header data).

Definition GetBodyRLP (d : D) (hash : bytes) (number : Z) : bytes :=
  let data := get d (bodyPrefix ++ encodeBlockNumber number ++ hash) in
  if len data =? 0 then get d (oldBlockPrefix ++ hash ++ oldBodySuffix) else data.

Definition GetBody (d : D) (hash : bytes) (number : Z) : total (option Body) :=
  let data := GetBodyRLP d hash number in
  if len data =? 0 then Ok None else or_nil (decode_with body_type val_body data).

Definition val_int (v : rval) : option Z := match v with VInt z => Some z | _ => None end.

Definition GetTd (d : D) (hash : bytes) (number : Z) : total (option Z) :=
  let data := get d (headerPrefix ++ encodeBlockNumber number ++ hash ++ tdSuffix) in
  let data := if len data =? 0 then get d (oldBlockPrefix ++ hash ++ oldTdSuffix) else data in
  if len data =? 0 then Ok None else or_nil (decode_with TBigInt val_int data).

Definition GetBlock (d : D) (hash : bytes) (number : Z) : total (option Block) :=
  let* h := GetHeader d hash number in
  match h with
  | None => Ok None
  | Some h =>
      let* b := GetBody d hash number in
      match b with
      | None => Ok None
      | Some b => Ok (Some (WithBody (NewBlockWithHeader h) (b_Transactions b) (b_Uncles b)))
      end
  end.

Definition receipts_type : rtype := TSlice false (TPtr false receipt_storage_type).

Definition GetBlockReceipts (d : D) (hash : bytes) (number : Z) : total (option (list Receipt)) :=
  let data := get d (blockReceiptsPrefix ++ encodeBlockNumber number ++ hash) in
  let data := if len data =? 0 then get d (oldBlockReceiptsPrefix ++ hash) else data in
  if len data =? 0 then Ok None else or_nil (decode_all receipts_type (val_ptrs val_receipt_storage) data).

Definition meta_type : rtype := TStruct [TByteArray 32; TUint 64; TUint 64].
Definition val_meta (v : rval) : option (bytes * Z * Z) :=
  match v with VList [VBytes h; VInt n; VInt i] => Some (h, n, i) | _ => None end.

Definition GetTransaction (d : D) (hash : bytes) : total (option (Transaction * bytes * Z * Z)) :=
  let data := get d hash in
  if len data =? 0 then Ok None
  else
    let* tx := or_nil (decode_all tx_type val_tx data) in
    match tx with
    | None => Ok None
    | Some tx =>
        let data := get d (hash ++ txMetaSuffix) in
        if len data =? 0 then Ok None
        else
          let* meta := or_nil (decode_all meta_type val_meta data) in
          match meta with None => Ok None | Some (bh, n, i) => Ok (Some (tx, bh, n, i)) end
    end.

(** Data that does not decode is returned as an empty receipt, and bytes after
    the receipt do not matter: the error is only logged. *)
Definition receipt0 : Receipt := mkReceipt [] 0 (zeros 256) [] (zeros 32) (zeros 20) 0.

Definition GetReceipt (d : D) (txHash : bytes) : total (option Receipt) :=
  let data := get d (receiptsPrefix ++ txHash) in
  if len data =? 0 then Ok None
  else
    let* r := or_nil (decode_with receipt_storage_type val_receipt_storage data) in
    Ok (Some (default receipt0 r)).

(** ** Writing *)

Definition WriteCanonicalHash (d : D) (hash : bytes) (number : Z) : outcome chain_error D :=
  put_fatal d (headerPrefix ++ encodeBlockNumber number ++ numSuffix) hash.

Definition WriteHeadHeaderHash (d : D) (hash : bytes) : outcome chain_error D := put_fatal d headHeaderKey hash.
Definition WriteHeadBlockHash (d : D) (hash : bytes) : outcome chain_error D := put_fatal d headBlockKey hash.
Definition WriteHeadFastBlockHash (d : D) (hash : bytes) : outcome chain_error D := put_fatal d headFastKey hash.

Definition WriteHeader (d : D) (h : Header) : outcome chain_error D :=
  let* data := encoded header_type (header_val h) in
  let hash := Header_Hash h in
  let num := u64 (hNumber h) in
  let encNum := encodeBlockNumber num in
  let* d := put_fatal d (blockHashPrefix ++ hash) encNum in
  put_fatal d (headerPrefix ++ encNum ++ hash) data.

Definition WriteBodyRLP (d : D) (hash : bytes) (number : Z) (rlp : bytes) : outcome chain_error D :=
  put_fatal d (bodyPrefix ++ encodeBlockNumber number ++ hash) rlp.

Definition WriteBody (d : D) (hash : bytes) (number : Z) (body : Body) : outcome chain_error D :=
  let* data := encoded body_type (body_val body) in
  WriteBodyRLP d hash number data.

Definition WriteTd (d : D) (hash : bytes) (number td : Z) : outcome chain_error D :=
  let* data := encoded TBigInt (VInt td) in
  put_fatal d (headerPrefix ++ encodeBlockNumber number ++ hash ++ tdSuffix) data.

Definition WriteBlock (d : D) (b : Block) : outcome chain_error D :=
  let* d := WriteBody d (block_Hash b) (NumberU64 b) (block_Body b) in
  WriteHeader d (header b).

(** The storage form of the receipts, each with its own encoder. *)
Definition WriteBlockReceipts (d : D) (hash : bytes) (number : Z) (receipts : list Receipt) : outcome chain_error D :=
  let* data := encoded (TSlice false (TPtr false (TSlice false TInterface))) (ptrs receipt_storage_val receipts) in
  put_fatal d (blockReceiptsPrefix ++ encodeBlockNumber number ++ hash) data.

Definition meta_val (hash : bytes) (number index : Z) : rval := VList [VBytes hash; VInt number; VInt index].

(** The entries of the batch. *)
Fixpoint tx_entries (b : Block) (i : Z) (ts : list Transaction) : outcome chain_error (list (bytes * bytes)) :=
  match ts with
  | [] => Ok []
  | t :: ts =>
      let* data := encoded tx_type (tx_val t) in
      let* meta := encoded meta_type (meta_val (block_Hash b) (NumberU64 b) (u64 i)) in
      let* rest := tx_entries b (i + 1) ts in
      Ok ((tx_Hash t, data) :: (tx_Hash t ++ txMetaSuffix, meta) :: rest)
  end.

Definition WriteTransactions (d : D) (b : Block) : outcome chain_error D :=
  let* ws := tx_entries b 0 (transactions b) in
  let '(d, ok) := db_write d ws in if ok : bool then Ok d else Err Fatal.

Definition receipt_data (r : Receipt) : outcome chain_error bytes :=
  encoded (TSlice false TInterface) (receipt_storage_val r).

Definition WriteReceipt (d : D) (r : Receipt) : outcome chain_error D :=
  let* data := receipt_data r in
  let '(d, ok) := db_put d (receiptsPrefix ++ rTxHash r) data in if ok : bool then Ok d else Err PutError.

Fixpoint receipt_entries (rs : list Receipt) : outcome chain_error (list (bytes * bytes)) :=
  match rs with
  | [] => Ok []
  | r :: rs =>
      let* data := receipt_data r in
      let* rest := receipt_entries rs in
      Ok ((receiptsPrefix ++ rTxHash r, data) :: rest)
  end.

Definition WriteReceipts (d : D) (rs : list Receipt) : outcome chain_error D :=
  let* ws := receipt_entries rs in
  let '(d, ok) := db_write d ws in if ok : bool then Ok d else Err Fatal.

(** ** Deleting *)

Definition DeleteCanonicalHash (d : D) (number : Z) : D := db_delete d (headerPrefix ++ encodeBlockNumber number ++ numSuffix).

Definition DeleteHeader (d : D) (hash : bytes) (number : Z) : D :=
  let d := db_delete d (blockHashPrefix ++ hash) in
  db_delete d (headerPrefix ++ encodeBlockNumber number ++ hash).

Definition DeleteBody (d : D) (hash : bytes) (number : Z) : D := db_delete d (bodyPrefix ++ encodeBlockNumber number ++ hash).

Definition DeleteTd (d : D) (hash : bytes) (number : Z) : D :=
  db_delete d (headerPrefix ++ encodeBlockNumber number ++ hash ++ tdSuffix).

Definition DeleteBlockReceipts (d : D) (hash : bytes) (number : Z) : D :=
  db_delete d (blockReceiptsPrefix ++ encodeBlockNumber number ++ hash).

Definition DeleteBlock (d : D) (hash : bytes) (number : Z) : D :=
  let d := DeleteBlockReceipts d hash number in
  let d := DeleteHeader d hash number in
  let d := DeleteBody d hash number in
  DeleteTd d hash number.

Definition DeleteTransaction (d : D) (hash : bytes) : D := db_delete (db_delete d hash) (hash ++ txMetaSuffix).

Definition DeleteReceipt (d : D) (hash : bytes) : D := db_delete d (receiptsPrefix ++ hash).

(** ** The rest *)

Definition GetBlockByHashOld (d : D) (hash : bytes) : total (option Block) :=
  let data := get d (oldBlockHashPrefix ++ hash) in
  if len data =? 0 then Ok None else or_nil (decode_with storageblock_type val_storageblock data).

Definition mipmapKey (num level : Z) : bytes :=
  mipmapPre ++ be_fixed 8 level ++ Bytes (num / level * level).

(** [BytesToBloom] panics on data that is too long. *)
Definition add_logs (bloom : option bytes) (rs : list Receipt) : option bytes :=
  foldl (fun b r => foldl (fun b l => match b with Some b => Bloom_Add b (SetBytes (logAddress l)) | None => None end) b (Logs r))
    bloom rs.

Fixpoint mipmap_entries (d : D) (number : Z) (rs : list Receipt) (levels : list Z) : outcome chain_error (list (bytes * bytes)) :=
  match levels with
  | [] => Ok []
  | level :: levels =>
      let key := mipmapKey number level in
      match add_logs (BytesToBloom (get d key)) rs with
      | None => Panic
      | Some bloom => let* rest := mipmap_entries d number rs levels in Ok ((key, bloom) :: rest)
      end
  end.

Definition WriteMipmapBloom (d : D) (number : Z) (rs : list Receipt) : outcome chain_error D :=
  let* ws := mipmap_entries d number rs MIPMapLevels in
  let '(d, ok) := db_write d ws in if ok : bool then Ok d else Err WriteError.

Definition GetMipmapBloom (d : D) (number level : Z) : option bytes := BytesToBloom (get d (mipmapKey number level)).

Definition GetBlockChainVersion (d : D) : total Z :=
  let* v := or_nil (decode_with (TUint 64) val_int (get d versionKey)) in Ok (int64 (default 0 v)).

Definition WriteBlockChainVersion (d : D) (vsn : Z) : total D :=
  match EncodeToBytes (TUint 64) (VInt (u64 vsn)) with
  | Ok enc => Ok (fst (db_put d versionKey enc))
  | _ => Ok (fst (db_put d versionKey []))
  end.

(** ** Common ancestors *)

(** The ancestor of [a] at height [bn] or below. *)
Fixpoint descend (fuel : nat) (d : D) (a : Header) (bn : Z) : outcome chain_error (option Header) :=
  match fuel with
  | O => Panic
  | S fuel =>
      if bn <? u64 (hNumber a) then
        match GetHeader d (hParentHash a) (u64 (u64 (hNumber a) - 1)) with
        | Ok (Some a) => descend fuel d a bn
        | Ok None => Ok None
        | _ => Panic
        end
      else Ok (Some a)
  end.

Fixpoint meet (fuel : nat) (d : D) (a b : Header) : outcome chain_error (option Header) :=
  match fuel with
  | O => Panic
  | S fuel =>
      if bool_decide (Header_Hash a = Header_Hash b) then Ok (Some a)
      else
        match GetHeader d (hParentHash a) (u64 (u64 (hNumber a) - 1)) with
        | Ok (Some a) =>
            match GetHeader d (hParentHash b) (u64 (u64 (hNumber b) - 1)) with
            | Ok (Some b) => meet fuel d a b
            | Ok None => Ok None
            | _ => Panic
            end
        | Ok None => Ok None
        | _ => Panic
        end
  end.

(** The fuel bounds the length of the walk; it is enough in a database whose
    headers are numbered along their parents. *)
Definition FindCommonAncestor (fuel : nat) (d : D) (a b : Header) : outcome chain_error (option Header) :=
  let* a := descend fuel d a (u64 (hNumber b)) in
  match a with
  | None => Ok None
  | Some a =>
      let* b := descend fuel d b (u64 (hNumber a)) in
      match b with
      | None => Ok None
      | Some b => meet fuel d a b
      end
  end.
End ChainDb.
