(* ===== verification/ChainDbSpec.v ===== *)
(** * The chain database as a typed map

    The keys of database_util.go do not overlap, so the byte store behaves as a
    map from typed keys to headers, bodies, receipts and the rest: a refinement
    for any sequence of writes and deletions.  On top of it, the search for the
    common ancestor of two headers. *)

From stdpp Require Import functions.
From S2P Require Import Prelude RlpEncode RlpRaw RlpStream Helper Keccak Database TrieNode Trie TrieHash StateTrie State Types TypesSpec ChainDb.

(** ** The abstract store *)

Inductive ckey :=
| KHeadHeader | KHeadBlock | KHeadFast
| KCanonical (n : Z)
| KNumber (h : bytes)
| KHeader (h : bytes) (n : Z)
| KTd (h : bytes) (n : Z)
| KBody (h : bytes) (n : Z)
| KReceipts (h : bytes) (n : Z)
| KTx (h : bytes)
| KMeta (h : bytes)
| KReceipt (h : bytes).

#[global] Instance ckey_eq_dec : EqDecision ckey.
Proof. solve_decision. Defined.

Inductive cval :=
| CHash (h : bytes)
| CNum (n : Z)
| CHeader (h : Header)
| CTd (td : Z)
| CBody (b : Body)
| CReceipts (rs : list Receipt)
| CTx (t : Transaction)
| CMeta (bh : bytes) (n i : Z)
| CReceipt (r : Receipt).

Abbreviation achain := (ckey -> option cval).
Definition aempty : achain := fun _ => None.

(** What the readers see of it. *)
Definition aHash (a : achain) (k : ckey) : bytes := match a k with Some (CHash h) => h | _ => zeros 32 end.
Definition aNumber (a : achain) h : Z := match a (KNumber h) with Some (CNum n) => n | _ => missingNumber end.
Definition aHeader (a : achain) h n : option Header := match a (KHeader h n) with Some (CHeader x) => Some x | _ => None end.
Definition aTd (a : achain) h n : option Z := match a (KTd h n) with Some (CTd x) => Some x | _ => None end.
Definition aBody (a : achain) h n : option Body := match a (KBody h n) with Some (CBody x) => Some x | _ => None end.
Definition aReceipts (a : achain) h n : option (list Receipt) :=
  match a (KReceipts h n) with Some (CReceipts x) => Some x | _ => None end.
Definition aReceipt (a : achain) h : option Receipt := match a (KReceipt h) with Some (CReceipt x) => Some x | _ => None end.
Definition aTx (a : achain) h : option (Transaction * bytes * Z * Z) :=
  match a (KTx h), a (KMeta h) with Some (CTx t), Some (CMeta bh n i) => Some (t, bh, n, i) | _, _ => None end.
Definition aBlock (a : achain) h n : option Block :=
  match aHeader a h n, aBody a h n with
  | Some x, Some b => Some (mkBlock x (b_Uncles b) (b_Transactions b) None)
  | _, _ => None
  end.

(** ** Keys as bytes *)

Definition key_bytes (k : ckey) : bytes :=
  match k with
  | KHeadHeader => headHeaderKey
  | KHeadBlock => headBlockKey
  | KHeadFast => headFastKey
  | KCanonical n => headerPrefix ++ encodeBlockNumber n ++ numSuffix
  | KNumber h => blockHashPrefix ++ h
  | KHeader h n => headerPrefix ++ encodeBlockNumber n ++ h
  | KTd h n => headerPrefix ++ encodeBlockNumber n ++ h ++ tdSuffix
  | KBody h n => bodyPrefix ++ encodeBlockNumber n ++ h
  | KReceipts h n => blockReceiptsPrefix ++ encodeBlockNumber n ++ h
  | KTx h => h
  | KMeta h => h ++ txMetaSuffix
  | KReceipt h => receiptsPrefix ++ h
  end.

(** Keys of the old format. *)
Inductive legacy : bytes -> Prop :=
| legacy_header h : length h = 32%nat -> legacy (oldBlockPrefix ++ h ++ oldHeaderSuffix)
| legacy_td h : length h = 32%nat -> legacy (oldBlockPrefix ++ h ++ oldTdSuffix)
| legacy_body h : length h = 32%nat -> legacy (oldBlockPrefix ++ h ++ oldBodySuffix)
| legacy_receipts h : length h = 32%nat -> legacy (oldBlockReceiptsPrefix ++ h)
| legacy_number n : 0 <= n < 2 ^ 64 -> legacy (oldBlockNumPrefix ++ Bytes n).

(** Keys of the log filters, for numbers whose keys are shorter than a hash. *)
Inductive mip : bytes -> Prop :=
| mip_key n level : 0 <= n < 2 ^ 48 -> level ∈ MIPMapLevels -> mip (mipmapKey n level).

(** Block numbers whose keys do not start like [receipts-] or [block-]. *)
Definition num_ok (n : Z) : Prop := 0 <= n < 2 ^ 64 /\ n / 2 ^ 56 <> 0x65 /\ n / 2 ^ 56 <> 0x6c.

Section Keys.
(** The block hashes and the transaction hashes in use.  The key of the number of
    a block and the key of the position of a transaction have the same length and
    no common prefix. *)
Context (B X : bytes -> Prop) (BX : forall b x, B b -> X x -> blockHashPrefix ++ b <> x ++ txMetaSuffix).

Definition key_ok (k : ckey) : Prop :=
  match k with
  | KHeadHeader | KHeadBlock | KHeadFast => True
  | KCanonical n => num_ok n
  | KNumber h => length h = 32%nat /\ B h
  | KHeader h n | KTd h n | KBody h n | KReceipts h n => length h = 32%nat /\ num_ok n
  | KReceipt h => length h = 32%nat
  | KTx h | KMeta h => length h = 32%nat /\ X h
  end.

Definition key_length (k : ckey) : nat :=
  match k with
  | KHeadHeader | KCanonical _ => 10
  | KHeadBlock => 9
  | KHeadFast => 8
  | KNumber _ | KMeta _ => 33
  | KHeader _ _ | KBody _ _ | KReceipts _ _ | KReceipt _ => 41
  | KTd _ _ => 42
  | KTx _ => 32
  end.

Lemma key_bytes_length k : key_ok k -> length (key_bytes k) = key_length k.
Proof.
  destruct k; cbn [key_ok key_bytes key_length]; intros K; unfold encodeBlockNumber; rewrite ?length_app, ?be_fixed_length;
    cbn; try done; try destruct K; lia.
Qed.

(** The first byte of a number. *)
Lemma encodeBlockNumber_cons n : num_ok n -> exists r, encodeBlockNumber n = n / 2 ^ 56 :: r.
Proof.
  intros [Hn _]. eexists. unfold encodeBlockNumber. cbn [be_fixed]. f_equal.
  rewrite Z.shiftr_div_pow2 by done. change (8 * Z.of_nat 7) with 56. apply Z.mod_small.
  split; [apply Z.div_pos; lia|apply Z.div_lt_upper_bound; lia].
Qed.

Lemma encodeBlockNumber_inj n m : num_ok n -> num_ok m -> encodeBlockNumber n = encodeBlockNumber m -> n = m.
Proof.
  intros [Hn _] [Hm _] E. apply (f_equal SetBytes) in E. unfold encodeBlockNumber in E. rewrite !SetBytes_be_fixed in E.
  rewrite !Z.mod_small in E by (change (256 ^ Z.of_nat 8) with (2 ^ 64); lia). done.
Qed.

Lemma number_app_inj n m (r s : bytes) :
  num_ok n -> num_ok m -> encodeBlockNumber n ++ r = encodeBlockNumber m ++ s -> n = m /\ r = s.
Proof.
  intros Hn Hm E. apply app_inj_1 in E as [E ->]; [|unfold encodeBlockNumber; by rewrite !be_fixed_length].
  split; [by apply encodeBlockNumber_inj|done].
Qed.

Lemma cons_neq (x y : Z) (r s : bytes) : x <> y -> x :: r <> y :: s.
Proof. congruence. Qed.

Lemma receipts_apart n (h h' : bytes) :
  num_ok n -> blockReceiptsPrefix ++ encodeBlockNumber n ++ h <> receiptsPrefix ++ h'.
Proof. intros N. destruct (encodeBlockNumber_cons n N) as [r ->]. destruct N as (_ & N & _). intros E. apply N. by injection E. Qed.

Lemma body_apart n (h b : bytes) :
  num_ok n -> bodyPrefix ++ encodeBlockNumber n ++ h <> oldBlockPrefix ++ b.
Proof. intros N. destruct (encodeBlockNumber_cons n N) as [r ->]. destruct N as (_ & _ & N). intros E. apply N. by injection E. Qed.

(** Distinct keys have distinct bytes. *)
Lemma key_bytes_inj k1 k2 : key_ok k1 -> key_ok k2 -> key_bytes k1 = key_bytes k2 -> k1 = k2.
Proof.
  intros K1 K2 E. pose proof (f_equal length E) as L. rewrite !key_bytes_length in L by done.
  destruct k1, k2; cbn [key_length] in L; try discriminate L; clear L; try done; cbn [key_bytes key_ok] in *;
    try (exfalso; revert E; apply cons_neq; done).
  - apply app_inv_head, number_app_inj in E as [-> _]; done.
  - by apply app_inv_head in E as ->.
  - destruct K1, K2. by destruct (BX h h0).
  - destruct K1, K2. by apply app_inv_head, number_app_inj in E as [-> ->].
  - destruct K1, K2. apply app_inv_head, number_app_inj in E as [-> E]; [|done..]. by apply app_inv_tail in E as ->.
  - destruct K1, K2. by apply app_inv_head, number_app_inj in E as [-> ->].
  - destruct K1, K2. by apply app_inv_head, number_app_inj in E as [-> ->].
  - destruct K1. by apply receipts_apart in E.
  - by f_equal.
  - destruct K1, K2. by destruct (BX h0 h).
  - by apply app_inv_tail in E as ->.
  - destruct K2. symmetry in E. by apply receipts_apart in E.
  - by apply app_inv_head in E as ->.
Qed.

(** No key is one of the old format. *)
Lemma key_not_legacy k : key_ok k -> ~ legacy (key_bytes k).
Proof.
  intros K Le. pose proof (key_bytes_length k K) as L.
  remember (key_bytes k) as b eqn:E. destruct Le as [h Hh|h Hh|h Hh|h Hh|n Hn]; rewrite !length_app in L; cbn in L;
    try (pose proof (Bytes_length_64 n Hn)); destruct k; cbn in L; try lia; cbn [key_bytes key_ok] in *;
    try (revert E; apply cons_neq; done).
  destruct K as [_ K]. symmetry in E. by apply body_apart in E.
Qed.

(** Nor is it one of the log filters. *)
Lemma mip_short k : mip k -> (length k <= 31)%nat /\ exists r, k = 0x6d :: r.
Proof.
  intros [n level Hn Hl]. split; [|by eexists]. unfold mipmapKey. rewrite !length_app, be_fixed_length.
  assert (length (Bytes (n / level * level)) <= 6)%nat; [|cbn; lia]. apply Bytes_length.
  assert (0 < level) by (unfold MIPMapLevels in Hl; rewrite !elem_of_cons, elem_of_nil in Hl; lia).
  pose proof (Z.mul_div_le n level). pose proof (Z.div_pos n level). change (256 ^ Z.of_nat 6) with (2 ^ 48). nia.
Qed.

Lemma key_not_mip k : key_ok k -> ~ mip (key_bytes k).
Proof.
  intros K M. destruct (mip_short _ M) as (L & r & E). rewrite (key_bytes_length k K) in L.
  destruct k; cbn [key_length] in L; try lia; discriminate E.
Qed.

Lemma mip_not_legacy k : mip k -> ~ legacy k.
Proof. intros M Le. destruct (mip_short _ M) as (_ & r & ->). inversion Le as [? ? E|? ? E|? ? E|? ? E|? ? E]; discriminate E. Qed.
End Keys.

(** ** Values as bytes *)

Definition cval_type (v : cval) : rtype :=
  match v with
  | CHeader _ => header_type
  | CTd _ => TBigInt
  | CBody _ => body_type
  | CReceipts _ => receipts_type
  | CTx _ => tx_type
  | CMeta _ _ _ => meta_type
  | CReceipt _ => receipt_storage_type
  | CHash _ | CNum _ => TBytes
  end.

Definition cval_val (v : cval) : rval :=
  match v with
  | CHeader h => header_val h
  | CTd td => VInt td
  | CBody b => body_val b
  | CReceipts rs => ptrs receipt_storage_struct rs
  | CTx t => tx_val t
  | CMeta bh n i => meta_val bh n i
  | CReceipt r => receipt_storage_struct r
  | CHash b => VBytes b
  | CNum n => VBytes (encodeBlockNumber n)
  end.

(** Hashes and numbers are stored as they are, the rest as RLP. *)
Definition cval_bytes (v : cval) : bytes :=
  match v with
  | CHash h => h
  | CNum n => encodeBlockNumber n
  | _ => enc (cval_val v) (cval_type v)
  end.

Definition cval_ok (k : ckey) (v : cval) : Prop :=
  fits (cval_val v) (cval_type v) /\
  match k, v with
  | (KHeadHeader | KHeadBlock | KHeadFast | KCanonical _), CHash h => length h = 32%nat
  | KNumber _, CNum n => 0 <= n < 2 ^ 64
  | KHeader _ _, CHeader h => header_ok h
  | KTd _ _, CTd td => 0 <= td
  | KBody _ _, CBody b => body_ok b
  | KReceipts _ _, CReceipts rs => Forall receipt_ok rs
  | KTx _, CTx t => tx_ok t
  | KMeta _, CMeta bh n i => word 32 bh /\ 0 <= n < 2 ^ 64 /\ 0 <= i < 2 ^ 64
  | KReceipt _, CReceipt r => receipt_ok r
  | _, _ => False
  end.

Lemma receipts_rt rs : Forall receipt_ok rs -> rt (ptrs receipt_storage_struct rs) receipts_type.
Proof. intros F. apply ptrs_rt. eapply Forall_impl; [done|]. intros. by apply receipt_rt. Qed.

Lemma meta_rt bh n i : word 32 bh -> 0 <= n < 2 ^ 64 -> 0 <= i < 2 ^ 64 -> rt (meta_val bh n i) meta_type.
Proof. intros W N I. repeat (split; [by auto with types|]). done. Qed.

#[export] Hint Resolve receipt_rt receipts_rt body_rt meta_rt : types.

Definition is_rlp (v : cval) : bool := match v with CHash _ | CNum _ => false | _ => true end.

Lemma cval_rt k v : cval_ok k v -> is_rlp v = true -> rt (cval_val v) (cval_type v) /\ cval_bytes v = enc (cval_val v) (cval_type v).
Proof. intros [_ Hv] R. split; [|by destruct v]. destruct k, v; try done; cbn [cval_val cval_type]; auto with types.
  destruct Hv as (? & ? & ?). by apply meta_rt.
Qed.

Lemma cval_bytes_pos k v : cval_ok k v -> (len (cval_bytes v) =? 0) = false.
Proof.
  intros Hv. destruct (is_rlp v) eqn:R.
  - destruct (cval_rt k v Hv R) as [Rt ->]. pose proof (enc_pos _ _ Rt). lia.
  - destruct Hv as [_ Hv], k, v; try done; cbn [cval_bytes]; unfold encodeBlockNumber; rewrite ?be_fixed_length; lia.
Qed.

(** ** Encoding what is written *)

Lemma encoded_ok t v : rt v t -> fits v t -> encoded t v = Ok (enc v t).
Proof. intros R L. unfold encoded. rewrite EncodeToBytes_enc; [done|by apply rt_wt|exact L]. Qed.

(** Receipts are encoded field by field and decoded as structs. *)
Lemma receipt_wt r : receipt_ok r -> wt (receipt_storage_val r) (TSlice false TInterface).
Proof.
  intros R. pose proof (rt_wt _ _ (receipt_rt r R)) as (W1 & W2 & W3 & W4 & W5 & W6 & W7 & _). split; [done|]. by do 7 (split; [assumption|]).
Qed.

Lemma receipts_enc rs :
  enc (ptrs receipt_storage_val rs) (TSlice false (TPtr false (TSlice false TInterface))) =
  enc (ptrs receipt_storage_struct rs) receipts_type.
Proof.
  unfold ptrs, receipts_type. cbn. f_equal. induction rs as [|r rs IH]; [done|]. cbn. by rewrite IH.
Qed.

Lemma receipts_wt rs :
  Forall receipt_ok rs -> wt (ptrs receipt_storage_val rs) (TSlice false (TPtr false (TSlice false TInterface))).
Proof. intros F. split; [done|]. induction F; [done|]. split; [by apply receipt_wt|done]. Qed.

(** ** Operations *)

Inductive cop :=
| OCanonical (hash : bytes) (n : Z)
| OHeadHeader (hash : bytes) | OHeadBlock (hash : bytes) | OHeadFast (hash : bytes)
| OHeader (h : Header)
| OBody (hash : bytes) (n : Z) (b : Body)
| OTd (hash : bytes) (n td : Z)
| OBlock (b : Block)
| OReceipts (hash : bytes) (n : Z) (rs : list Receipt)
| OTransactions (b : Block)
| OReceipt (r : Receipt)
| OReceiptBatch (rs : list Receipt)
| ODelCanonical (n : Z)
| ODelHeader (hash : bytes) (n : Z)
| ODelBody (hash : bytes) (n : Z)
| ODelTd (hash : bytes) (n : Z)
| ODelReceipts (hash : bytes) (n : Z)
| ODelBlock (hash : bytes) (n : Z)
| ODelTx (hash : bytes)
| ODelReceipt (hash : bytes).

Section Refinement.
Context `{Hash256} `{StoreLaws D}.
Context (B X : bytes -> Prop) (BX : forall b x, B b -> X x -> blockHashPrefix ++ b <> x ++ txMetaSuffix).

Definition run_op (d : D) (o : cop) : outcome chain_error D :=
  match o with
  | OCanonical hash n => WriteCanonicalHash d hash n
  | OHeadHeader hash => WriteHeadHeaderHash d hash
  | OHeadBlock hash => WriteHeadBlockHash d hash
  | OHeadFast hash => WriteHeadFastBlockHash d hash
  | OHeader h => WriteHeader d h
  | OBody hash n b => WriteBody d hash n b
  | OTd hash n td => WriteTd d hash n td
  | OBlock b => WriteBlock d b
  | OReceipts hash n rs => WriteBlockReceipts d hash n rs
  | OTransactions b => WriteTransactions d b
  | OReceipt r => WriteReceipt d r
  | OReceiptBatch rs => WriteReceipts d rs
  | ODelCanonical n => Ok (DeleteCanonicalHash d n)
  | ODelHeader hash n => Ok (DeleteHeader d hash n)
  | ODelBody hash n => Ok (DeleteBody d hash n)
  | ODelTd hash n => Ok (DeleteTd d hash n)
  | ODelReceipts hash n => Ok (DeleteBlockReceipts d hash n)
  | ODelBlock hash n => Ok (DeleteBlock d hash n)
  | ODelTx hash => Ok (DeleteTransaction d hash)
  | ODelReceipt hash => Ok (DeleteReceipt d hash)
  end.

Fixpoint run_ops (d : D) (os : list cop) : outcome chain_error D :=
  match os with [] => Ok d | o :: os => let* d' := run_op d o in run_ops d' os end.

(** What an operation does to the abstract store. *)
Definition header_entries (h : Header) : list (ckey * option cval) :=
  [(KNumber (Header_Hash h), Some (CNum (u64 (hNumber h)))); (KHeader (Header_Hash h) (u64 (hNumber h)), Some (CHeader h))].

Fixpoint position_entries (b : Block) (i : Z) (ts : list Transaction) : list (ckey * option cval) :=
  match ts with
  | [] => []
  | t :: ts => (KTx (tx_Hash t), Some (CTx t)) :: (KMeta (tx_Hash t), Some (CMeta (block_Hash b) (NumberU64 b) (u64 i))) :: position_entries b (i + 1) ts
  end.

Definition op_entries (o : cop) : list (ckey * option cval) :=
  match o with
  | OCanonical hash n => [(KCanonical n, Some (CHash hash))]
  | OHeadHeader hash => [(KHeadHeader, Some (CHash hash))]
  | OHeadBlock hash => [(KHeadBlock, Some (CHash hash))]
  | OHeadFast hash => [(KHeadFast, Some (CHash hash))]
  | OHeader h => header_entries h
  | OBody hash n b => [(KBody hash n, Some (CBody b))]
  | OTd hash n td => [(KTd hash n, Some (CTd td))]
  | OBlock b => (KBody (block_Hash b) (NumberU64 b), Some (CBody (block_Body b))) :: header_entries (header b)
  | OReceipts hash n rs => [(KReceipts hash n, Some (CReceipts rs))]
  | OTransactions b => position_entries b 0 (transactions b)
  | OReceipt r => [(KReceipt (rTxHash r), Some (CReceipt r))]
  | OReceiptBatch rs => map (fun r => (KReceipt (rTxHash r), Some (CReceipt r))) rs
  | ODelCanonical n => [(KCanonical n, None)]
  | ODelHeader hash n => [(KNumber hash, None); (KHeader hash n, None)]
  | ODelBody hash n => [(KBody hash n, None)]
  | ODelTd hash n => [(KTd hash n, None)]
  | ODelReceipts hash n => [(KReceipts hash n, None)]
  | ODelBlock hash n => [(KReceipts hash n, None); (KNumber hash, None); (KHeader hash n, None); (KBody hash n, None); (KTd hash n, None)]
  | ODelTx hash => [(KTx hash, None); (KMeta hash, None)]
  | ODelReceipt hash => [(KReceipt hash, None)]
  end.

Definition apply_entry (a : achain) (e : ckey * option cval) : achain := <[e.1 := e.2]> a.
Definition spec_op (a : achain) (o : cop) : achain := foldl apply_entry a (op_entries o).
Definition spec_ops (a : achain) (os : list cop) : achain := foldl spec_op a os.

Definition entry_ok (e : ckey * option cval) : Prop :=
  key_ok B X e.1 /\ forall v, e.2 = Some v -> cval_ok e.1 v.
Definition op_ok (o : cop) : Prop := Forall entry_ok (op_entries o).

(** The bytes in the store are those of the abstract store. *)
Record rep (g : bytes -> option bytes) (a : achain) : Prop := {
  rep_get k : key_ok B X k -> g (key_bytes k) = cval_bytes <$> a k;
  rep_ok k v : a k = Some v -> cval_ok k v;
  rep_legacy k : legacy k -> g k = None;
  rep_mip k b : mip k -> g k = Some b -> word 256 b
}.

Lemma rep_update g g' a k v :
  rep g a -> entry_ok (k, v) ->
  (forall k', g' k' = if decide (k' = key_bytes k) then cval_bytes <$> v else g k') ->
  rep g' (<[k := v]> a).
Proof.
  intros [G O L F] [K V] U. cbn in K, V. split.
  - intros k' K'. rewrite U. destruct (decide (k = k')) as [<-|Hne].
    + by rewrite fn_lookup_insert, decide_True.
    + rewrite fn_lookup_insert_ne by done. rewrite decide_False; [by apply G|]. intros E. by apply (key_bytes_inj B X BX) in E.
  - intros k' v'. destruct (decide (k = k')) as [<-|Hne].
    + rewrite fn_lookup_insert. apply V.
    + rewrite fn_lookup_insert_ne by done. apply O.
  - intros k' Le. rewrite U, decide_False; [by apply L|]. intros ->. by apply (key_not_legacy B X) in Le.
  - intros k' b M. rewrite U, decide_False; [by apply F|]. intros ->. by apply (key_not_mip B X) in M.
Qed.

(** Writing a log filter changes nothing of the abstract store. *)
Lemma rep_mip_update g g' a k v :
  rep g a -> mip k -> word 256 v -> (forall k', g' k' = if decide (k' = k) then Some v else g k') -> rep g' a.
Proof.
  intros [G O L F] M W U. split; [|done|..].
  - intros k' K'. rewrite U, decide_False; [by apply G|]. intros <-. by apply (key_not_mip B X) in M.
  - intros k' Le. rewrite U, decide_False; [by apply L|]. intros ->. by apply mip_not_legacy in M.
  - intros k' b M'. rewrite U. case_decide; [by intros [= <-]|by apply F].
Qed.

Lemma rep_ext g g' a : rep g a -> (forall k, g' k = g k) -> rep g' a.
Proof. intros [G O L F] E. split; [intros k; rewrite E; apply G|done|intros k; rewrite E; apply L|intros k b; rewrite E; apply F]. Qed.

(** Writes succeed. *)
Definition reliable : Prop :=
  (forall (d : D) k v, (db_put d k v).2 = true) /\ (forall (d : D) ws, (db_write d ws).2 = true).

(** The store is the abstract one, or a write to it failed. *)
Definition refines (m : outcome chain_error D) (a : achain) : Prop :=
  match m with Ok d => rep (db_get d) a | Err e => e <> EncodeFailed /\ ~ reliable | Panic => False end.

Lemma refines_bind m f a a' :
  refines m a -> (forall d : D, rep (db_get d) a -> refines (f d) a') -> refines (let* d := m in f d) a'.
Proof. destruct m; cbn; auto. Qed.

Lemma put_refines (d : D) a k v :
  rep (db_get d) a -> entry_ok (k, Some v) -> refines (put_fatal d (key_bytes k) (cval_bytes v)) (<[k := Some v]> a).
Proof.
  intros R E. unfold put_fatal. destruct (db_put _ _ _) as [d' []] eqn:P.
  2: { split; [done|]. intros [Hp _]. specialize (Hp d (key_bytes k) (cval_bytes v)). by rewrite P in Hp. }
  apply (rep_update (db_get d)); [done..|]. intros k'. by rewrite (db_get_put _ _ _ _ _ P).
Qed.

Lemma delete_rep (d : D) a k : rep (db_get d) a -> key_ok B X k -> rep (db_get (db_delete d (key_bytes k))) (<[k := None]> a).
Proof. intros R K. apply (rep_update (db_get d)); [done|by split|]. intros k'. by rewrite db_get_delete. Qed.

(** A batch. *)
Definition entry_bytes (e : ckey * option cval) : list (bytes * bytes) :=
  match e with (k, Some v) => [(key_bytes k, cval_bytes v)] | _ => [] end.

Definition put_entry (e : ckey * option cval) : Prop := is_Some e.2.

Lemma batch_rep es g a :
  rep g a -> Forall entry_ok es -> Forall put_entry es ->
  rep (fun k => foldl (fun r kv => if decide (k = kv.1) then Some kv.2 else r) (g k) (es ≫= entry_bytes)) (foldl apply_entry a es).
Proof.
  intros R F P. revert g a R. induction es as [|[k o] es IH]; intros g a R; [done|].
  inversion F; inversion P as [|? ? [v Ev]]; cbn in Ev; subst. cbn. apply IH; [done..|].
  apply (rep_update g); [done..|]. intros k'. done.
Qed.

Lemma write_refines (d : D) a es e :
  e <> EncodeFailed -> rep (db_get d) a -> Forall entry_ok es -> Forall put_entry es ->
  refines (let '(d, ok) := db_write d (es ≫= entry_bytes) in if ok : bool then Ok d else Err e) (foldl apply_entry a es).
Proof.
  intros He R F P. destruct (db_write _ _) as [d' []] eqn:W.
  2: { split; [done|]. intros [_ Hw]. specialize (Hw d (es ≫= entry_bytes)). by rewrite W in Hw. }
  apply (rep_ext (fun k => foldl (fun r kv => if decide (k = kv.1) then Some kv.2 else r) (db_get d k) (es ≫= entry_bytes)));
    [by apply batch_rep|]. intros k. by apply db_get_write.
Qed.

Lemma WriteHeader_refines (d : D) a h :
  rep (db_get d) a -> Forall entry_ok (header_entries h) -> refines (WriteHeader d h) (foldl apply_entry a (header_entries h)).
Proof.
  intros R F. inversion F as [|? ? E1 F1]; inversion F1 as [|? ? E2 _]; subst. unfold WriteHeader.
  destruct (proj2 E2 _ eq_refl) as [L O]. rewrite encoded_ok by (by apply header_rt || done). cbn [obind].
  eapply (refines_bind _ _ _ _ (put_refines d a _ _ R E1)). intros d1 R1. exact (put_refines d1 _ _ _ R1 E2).
Qed.

Lemma WriteBody_refines (d : D) a hash n b :
  rep (db_get d) a -> entry_ok (KBody hash n, Some (CBody b)) ->
  refines (WriteBody d hash n b) (<[KBody hash n := Some (CBody b)]> a).
Proof.
  intros R E. unfold WriteBody. destruct (proj2 E _ eq_refl) as [L O]. rewrite encoded_ok by (by apply body_rt || done).
  exact (put_refines d a _ _ R E).
Qed.

Lemma tx_entries_ok b i ts :
  Forall entry_ok (position_entries b i ts) ->
  tx_entries b i ts = Ok (position_entries b i ts ≫= entry_bytes) /\ Forall put_entry (position_entries b i ts).
Proof.
  revert i. induction ts as [|t ts IH]; intros i F; [by split|]. cbn [position_entries tx_entries] in *.
  inversion F as [|? ? E1 F1]; inversion F1 as [|? ? E2 F2]; subst.
  destruct (proj2 E1 _ eq_refl) as [L1 O1]. destruct (proj2 E2 _ eq_refl) as [L2 (O2 & O3 & O4)].
  destruct (IH (i + 1) F2) as [-> P]. rewrite encoded_ok by (by apply tx_rt || done).
  rewrite encoded_ok by (by apply meta_rt || done). split; [done|]. do 2 (constructor; [by eexists|]). done.
Qed.

Lemma receipt_data_ok h r : cval_ok (KReceipt h) (CReceipt r) -> receipt_data r = Ok (cval_bytes (CReceipt r)).
Proof.
  intros [L O]. unfold receipt_data, encoded. rewrite EncodeToBytes_enc; [done|by apply receipt_wt|exact L].
Qed.

Lemma receipt_entries_ok rs :
  Forall entry_ok (map (fun r => (KReceipt (rTxHash r), Some (CReceipt r))) rs) ->
  receipt_entries rs = Ok (map (fun r => (KReceipt (rTxHash r), Some (CReceipt r))) rs ≫= entry_bytes) /\
  Forall put_entry (map (fun r => (KReceipt (rTxHash r), Some (CReceipt r))) rs).
Proof.
  induction rs as [|r rs IH]; intros F; [by split|]. cbn [map] in F. inversion F as [|? ? E1 F1]; subst.
  destruct (IH F1) as [E P]. cbn [receipt_entries map]. rewrite (receipt_data_ok _ _ (proj2 E1 _ eq_refl)), E.
  split; [done|]. constructor; [by eexists|done].
Qed.

Lemma WriteTd_refines (d : D) a hash n td :
  rep (db_get d) a -> entry_ok (KTd hash n, Some (CTd td)) -> refines (WriteTd d hash n td) (<[KTd hash n := Some (CTd td)]> a).
Proof.
  intros R E. unfold WriteTd. destruct (proj2 E _ eq_refl) as [L O]. rewrite encoded_ok by done. exact (put_refines d a _ _ R E).
Qed.

Lemma WriteBlockReceipts_refines (d : D) a hash n rs :
  rep (db_get d) a -> entry_ok (KReceipts hash n, Some (CReceipts rs)) ->
  refines (WriteBlockReceipts d hash n rs) (<[KReceipts hash n := Some (CReceipts rs)]> a).
Proof.
  intros R E. unfold WriteBlockReceipts, encoded. destruct (proj2 E _ eq_refl) as [L O].
  rewrite EncodeToBytes_enc, receipts_enc; [|by apply receipts_wt|rewrite receipts_enc; exact L].
  exact (put_refines d a _ _ R E).
Qed.

Lemma WriteReceipt_refines (d : D) a r :
  rep (db_get d) a -> entry_ok (KReceipt (rTxHash r), Some (CReceipt r)) ->
  refines (WriteReceipt d r) (<[KReceipt (rTxHash r) := Some (CReceipt r)]> a).
Proof.
  intros R E. unfold WriteReceipt. rewrite (receipt_data_ok _ _ (proj2 E _ eq_refl)). cbn [obind].
  pose proof (put_refines d a _ _ R E) as P. unfold put_fatal in P. cbn [key_bytes] in P. destruct (db_put _ _ _) as [d' []]; [done|]. split; [done|apply P].
Qed.

(** Deletions do not fail. *)
Lemma deletes_rep (d : D) a ks :
  rep (db_get d) a -> Forall entry_ok (map (fun k => (k, None)) ks) ->
  rep (db_get (foldl (fun d k => db_delete d (key_bytes k)) d ks)) (foldl apply_entry a (map (fun k => (k, None)) ks)).
Proof.
  revert d a. induction ks as [|k ks IH]; intros d a R F; [done|]. cbn [map foldl] in *. inversion F as [|? ? E F']; subst.
  apply IH; [|done]. apply delete_rep; [done|apply E].
Qed.

(** Every operation. *)
Lemma op_refines (d : D) a o : rep (db_get d) a -> op_ok o -> refines (run_op d o) (spec_op a o).
Proof.
  intros R F. unfold op_ok, spec_op in *.
  destruct o as [hash n|hash|hash|hash|h|hash n b|hash n td|b|hash n rs|b|r|rs|n|hash n|hash n|hash n|hash n|hash n|hash|hash];
    cbn [op_entries run_op] in *.
  1-4: apply Forall_cons in F as [F _]; exact (put_refines d a _ _ R F).
  - by apply WriteHeader_refines.
  - apply Forall_cons in F as [F _]. by apply WriteBody_refines.
  - apply Forall_cons in F as [F _]. by apply WriteTd_refines.
  - apply Forall_cons in F as [E F]. eapply (refines_bind _ _ _ _ (WriteBody_refines d a _ _ _ R E)). intros d1 R1.
    by apply WriteHeader_refines.
  - apply Forall_cons in F as [F _]. by apply WriteBlockReceipts_refines.
  - unfold WriteTransactions. destruct (tx_entries_ok b 0 (transactions b) F) as [-> P]. by apply write_refines.
  - apply Forall_cons in F as [F _]. by apply WriteReceipt_refines.
  - unfold WriteReceipts. destruct (receipt_entries_ok rs F) as [-> P]. by apply write_refines.
  - exact (deletes_rep d a [KCanonical n] R F).
  - exact (deletes_rep d a [KNumber hash; KHeader hash n] R F).
  - exact (deletes_rep d a [KBody hash n] R F).
  - exact (deletes_rep d a [KTd hash n] R F).
  - exact (deletes_rep d a [KReceipts hash n] R F).
  - exact (deletes_rep d a [KReceipts hash n; KNumber hash; KHeader hash n; KBody hash n; KTd hash n] R F).
  - exact (deletes_rep d a [KTx hash; KMeta hash] R F).
  - exact (deletes_rep d a [KReceipt hash] R F).
Qed.

Lemma ops_refine (d : D) a os : rep (db_get d) a -> Forall op_ok os -> refines (run_ops d os) (spec_ops a os).
Proof.
  revert d a. induction os as [|o os IH]; intros d a R F; [done|]. apply Forall_cons in F as [E F].
  cbn [run_ops]. unfold spec_ops. cbn [foldl]. apply (refines_bind _ _ (spec_op a o)); [by apply op_refines|]. intros d1 R1. by apply IH.
Qed.

(** ** Reading *)

Record reads (d : D) (a : achain) : Prop := {
  reads_heads : GetHeadHeaderHash d = aHash a KHeadHeader /\ GetHeadBlockHash d = aHash a KHeadBlock /\
    GetHeadFastBlockHash d = aHash a KHeadFast;
  reads_canonical n : num_ok n -> GetCanonicalHash d n = aHash a (KCanonical n);
  reads_number h : length h = 32%nat -> B h -> GetBlockNumber d h = Ok (aNumber a h);
  reads_header h n : length h = 32%nat -> num_ok n -> GetHeader d h n = Ok (aHeader a h n);
  reads_td h n : length h = 32%nat -> num_ok n -> GetTd d h n = Ok (aTd a h n);
  reads_body h n : length h = 32%nat -> num_ok n -> GetBody d h n = Ok (aBody a h n);
  reads_block h n : length h = 32%nat -> num_ok n -> GetBlock d h n = Ok (aBlock a h n);
  reads_receipts h n : length h = 32%nat -> num_ok n -> GetBlockReceipts d h n = Ok (aReceipts a h n);
  reads_tx h : length h = 32%nat -> X h -> GetTransaction d h = Ok (aTx a h);
  reads_receipt h : length h = 32%nat -> GetReceipt d h = Ok (aReceipt a h)
}.

Section Reads.
Context (d : D) (a : achain) (R : rep (db_get d) a).

Lemma get_new k : key_ok B X k -> get d (key_bytes k) = match a k with Some v => cval_bytes v | None => [] end.
Proof. intros K. unfold get. rewrite (rep_get _ _ R k K). by destruct (a k). Qed.

Lemma get_old k : legacy k -> get d k = [].
Proof. intros L. unfold get. by rewrite (rep_legacy _ _ R k L). Qed.

Lemma val_length k v : a k = Some v -> (len (cval_bytes v) =? 0) = false.
Proof. intros E. by apply (cval_bytes_pos k), (rep_ok _ _ R). Qed.

Lemma head_hash_read k : key_ok B X k -> match k with KHeadHeader | KHeadBlock | KHeadFast => True | _ => False end ->
  head_hash d (key_bytes k) = aHash a k.
Proof.
  intros K Hk. unfold head_hash, aHash. rewrite get_new by done. destruct (a k) as [v|] eqn:E; [|done].
  rewrite (val_length k v E). destruct (rep_ok _ _ R k v E) as [_ O]. destruct k, v; try done; by apply BytesToHash_id.
Qed.

Lemma canonical_read n : num_ok n -> GetCanonicalHash d n = aHash a (KCanonical n).
Proof.
  intros N. unfold GetCanonicalHash, aHash. pose proof (get_new (KCanonical n) N) as E. cbn [key_bytes] in E. rewrite E.
  destruct (a (KCanonical n)) as [v|] eqn:Ea.
  - rewrite (val_length _ v Ea). destruct (rep_ok _ _ R _ v Ea) as [_ O]. destruct v; try done. by apply BytesToHash_id.
  - rewrite get_old; [done|]. constructor. destruct N as [N _]. unfold int64. destruct (Z.ltb_spec n (2 ^ 63)); lia.
Qed.

Lemma number_read h : length h = 32%nat -> B h -> GetBlockNumber d h = Ok (aNumber a h).
Proof.
  intros Lh Bh. unfold GetBlockNumber, aNumber. pose proof (get_new (KNumber h) (conj Lh Bh)) as E. cbn [key_bytes] in E. rewrite E.
  destruct (a (KNumber h)) as [v|] eqn:Ea.
  - destruct (rep_ok _ _ R _ v Ea) as [_ O]. destruct v as [|n| | | | | | |]; try done. cbn [cval_bytes]. unfold encodeBlockNumber.
    rewrite be_fixed_length. cbn. f_equal. change (SetBytes (be_fixed 8 n) = n). rewrite SetBytes_be_fixed. by apply Z.mod_small.
  - cbn [length Z.of_nat Z.eqb negb]. rewrite get_old by (by constructor). done.
Qed.

(** What is stored as RLP decodes. *)
Lemma decode_with_val {A} k v t (f : rval -> option A) x :
  a k = Some v -> is_rlp v = true -> cval_type v = t -> shallow t = true -> f (cval_val v) = Some x ->
  decode_with t f (cval_bytes v) = Ok x.
Proof.
  intros E Hv <- Sh Ef. destruct (cval_rt k v (rep_ok _ _ R k v E) Hv) as [Rt ->].
  apply decode_with_enc; [done..|apply (rep_ok _ _ R k v E)|done].
Qed.

Lemma decode_all_val {A} k v t (f : rval -> option A) x :
  a k = Some v -> is_rlp v = true -> cval_type v = t -> shallow t = true -> f (cval_val v) = Some x ->
  decode_all t f (cval_bytes v) = Ok x.
Proof.
  intros E Hv <- Sh Ef. destruct (cval_rt k v (rep_ok _ _ R k v E) Hv) as [Rt ->].
  apply decode_all_enc; [done..|apply (rep_ok _ _ R k v E)|done].
Qed.

Lemma header_read h n : length h = 32%nat -> num_ok n -> GetHeader d h n = Ok (aHeader a h n).
Proof.
  intros Lh N. unfold GetHeader, GetHeaderRLP, aHeader. pose proof (get_new (KHeader h n) (conj Lh N)) as E. cbn [key_bytes] in E. rewrite E.
  destruct (a (KHeader h n)) as [v|] eqn:Ea.
  - rewrite !(val_length _ v Ea). destruct (rep_ok _ _ R _ v Ea) as [_ O]. destruct v as [| |x| | | | | |]; try done.
    by rewrite (decode_with_val _ _ _ val_header x Ea) by (done || apply val_header_val).
  - cbn [length Z.of_nat Z.eqb]. rewrite get_old by (by constructor). done.
Qed.

Lemma body_read h n : length h = 32%nat -> num_ok n -> GetBody d h n = Ok (aBody a h n).
Proof.
  intros Lh N. unfold GetBody, GetBodyRLP, aBody. pose proof (get_new (KBody h n) (conj Lh N)) as E. cbn [key_bytes] in E. rewrite E.
  destruct (a (KBody h n)) as [v|] eqn:Ea.
  - rewrite !(val_length _ v Ea). destruct (rep_ok _ _ R _ v Ea) as [_ O]. destruct v as [| | | |x| | | |]; try done.
    by rewrite (decode_with_val _ _ _ val_body x Ea) by (done || apply val_body_val).
  - cbn [length Z.of_nat Z.eqb]. rewrite get_old by (by constructor). done.
Qed.

Lemma td_read h n : length h = 32%nat -> num_ok n -> GetTd d h n = Ok (aTd a h n).
Proof.
  intros Lh N. unfold GetTd, aTd. pose proof (get_new (KTd h n) (conj Lh N)) as E. cbn [key_bytes] in E. rewrite E.
  destruct (a (KTd h n)) as [v|] eqn:Ea.
  - rewrite !(val_length _ v Ea). destruct (rep_ok _ _ R _ v Ea) as [_ O]. destruct v as [| | |x| | | | |]; try done.
    by rewrite (decode_with_val _ _ _ val_int x Ea).
  - cbn [length Z.of_nat Z.eqb]. rewrite get_old by (by constructor). done.
Qed.

Lemma receipts_read h n : length h = 32%nat -> num_ok n -> GetBlockReceipts d h n = Ok (aReceipts a h n).
Proof.
  intros Lh N. unfold GetBlockReceipts, aReceipts. pose proof (get_new (KReceipts h n) (conj Lh N)) as E. cbn [key_bytes] in E. rewrite E.
  destruct (a (KReceipts h n)) as [v|] eqn:Ea.
  - rewrite !(val_length _ v Ea). destruct (rep_ok _ _ R _ v Ea) as [_ O]. destruct v as [| | | | |rs| | |]; try done.
    by rewrite (decode_all_val _ _ _ (val_ptrs val_receipt_storage) rs Ea) by (done || apply val_ptrs_ptrs, val_receipt_val).
  - cbn [length Z.of_nat Z.eqb]. rewrite get_old by (by constructor). done.
Qed.

Lemma tx_read h : length h = 32%nat -> X h -> GetTransaction d h = Ok (aTx a h).
Proof.
  intros Lh Xh. unfold GetTransaction, aTx. pose proof (get_new (KTx h) (conj Lh Xh)) as E1. pose proof (get_new (KMeta h) (conj Lh Xh)) as E2.
  cbn [key_bytes] in E1, E2. rewrite E1, E2. destruct (a (KTx h)) as [v|] eqn:Ea; [|done].
  rewrite !(val_length _ v Ea). destruct (rep_ok _ _ R _ v Ea) as [_ O]. destruct v as [| | | | | |t| |]; try done.
  rewrite (decode_all_val _ _ _ val_tx t Ea) by (done || apply val_tx_val). cbn [or_nil obind].
  destruct (a (KMeta h)) as [v|] eqn:Eb; [|done]. rewrite !(val_length _ v Eb). destruct (rep_ok _ _ R _ v Eb) as [_ O'].
  destruct v as [| | | | | | |bh n i|]; try done. by rewrite (decode_all_val _ _ _ val_meta (bh, n, i) Eb).
Qed.

Lemma receipt_read h : length h = 32%nat -> GetReceipt d h = Ok (aReceipt a h).
Proof.
  intros Lh. unfold GetReceipt, aReceipt. pose proof (get_new (KReceipt h) Lh) as E. cbn [key_bytes] in E. rewrite E.
  destruct (a (KReceipt h)) as [v|] eqn:Ea; [|done]. rewrite (val_length _ v Ea). destruct (rep_ok _ _ R _ v Ea) as [_ O].
  destruct v as [| | | | | | | |r]; try done. by rewrite (decode_with_val _ _ _ val_receipt_storage r Ea) by (done || apply val_receipt_val).
Qed.

Lemma rep_reads : reads d a.
Proof.
  split; eauto using canonical_read, number_read, header_read, td_read, body_read, receipts_read, tx_read, receipt_read.
  - split; [|split]; [exact (head_hash_read KHeadHeader I I)|exact (head_hash_read KHeadBlock I I)|exact (head_hash_read KHeadFast I I)].
  - intros h n Lh N. unfold GetBlock, aBlock. rewrite header_read by done. cbn [obind]. destruct (aHeader a h n); [|done].
    rewrite body_read by done. cbn [obind]. by destruct (aBody a h n).
Qed.
End Reads.

Lemma rep_empty (g : bytes -> option bytes) : (forall k, g k = None) -> rep g aempty.
Proof. intros E. split; [|done|..]; intros k; [intros _; by rewrite E..|]. intros b _. by rewrite E. Qed.

(** ** Log filters *)

Lemma BytesToBloom_word b : word 256 b -> BytesToBloom b = Some b.
Proof.
  intros [_ L]. unfold BytesToBloom, Bloom_SetBytes, zeros, bloomLength. rewrite length_replicate, L. cbn [Nat.ltb].
  by rewrite Nat.ltb_irrefl, Nat.sub_diag, take_0.
Qed.

Lemma add_logs_ok rs b : word 256 b -> exists b', add_logs (Some b) rs = Some b' /\ word 256 b'.
Proof.
  revert b. unfold add_logs. induction rs as [|r rs IH]; intros b W; [by exists b|]. cbn [foldl].
  assert (Hx : exists b', foldl (fun b l => match b with Some b => Bloom_Add b (SetBytes (logAddress l)) | None => None end) (Some b) (Logs r) = Some b' /\ word 256 b').
  { revert b W. induction (Logs r) as [|l ls IHl]; intros b W; [by exists b|]. cbn [foldl].
    destruct (Bloom_Add_ok b (SetBytes (logAddress l)) W) as (b' & -> & W' & _). by apply IHl. }
  destruct Hx as (b' & -> & W'). by apply IH.
Qed.

Lemma mipmap_entries_ok (d : D) a n rs ls :
  rep (db_get d) a -> 0 <= n < 2 ^ 48 -> (forall l, l ∈ ls -> l ∈ MIPMapLevels) ->
  exists ws, mipmap_entries d n rs ls = Ok ws /\ Forall (fun kv => mip kv.1 /\ word 256 kv.2) ws.
Proof.
  intros R Hn. induction ls as [|l ls IH]; intros Hl; [by exists []|]. cbn [mipmap_entries].
  assert (Hm : mip (mipmapKey n l)) by (constructor; [done|apply Hl; left]).
  assert (Hx : exists b, BytesToBloom (get d (mipmapKey n l)) = Some b /\ word 256 b).
  { unfold get. destruct (db_get d (mipmapKey n l)) as [b|] eqn:E; cbn [default from_option id].
    - pose proof (rep_mip _ _ R _ b Hm E) as W. exists b. split; [by apply BytesToBloom_word|done].
    - exists (zeros 256). split; [done|]. split; [apply Forall_replicate; unfold byte_ok; lia|done]. }
  destruct Hx as (b & -> & W). destruct (add_logs_ok rs b W) as (b' & -> & W').
  destruct IH as (ws & -> & F); [intros l' H'; apply Hl; by right|]. eexists. split; [done|]. by constructor.
Qed.

Lemma mip_batch_rep ws g a :
  rep g a -> Forall (fun kv => mip kv.1 /\ word 256 kv.2) ws ->
  rep (fun k => foldl (fun r kv => if decide (k = kv.1) then Some kv.2 else r) (g k) ws) a.
Proof.
  intros R F. revert g R. induction F as [|[k v] ws [M W] F IH]; intros g R; [done|]. cbn [foldl fst snd].
  apply (IH (fun k' => if decide (k' = k) then Some v else g k')). by apply (rep_mip_update g _ a k v).
Qed.

Lemma WriteMipmapBloom_refines (d : D) a n rs :
  rep (db_get d) a -> 0 <= n < 2 ^ 48 -> refines (WriteMipmapBloom d n rs) a.
Proof.
  intros R Hn. unfold WriteMipmapBloom. destruct (mipmap_entries_ok d a n rs MIPMapLevels R Hn) as (ws & -> & F); [done|].
  cbn [obind]. destruct (db_write d ws) as [d' []] eqn:W.
  - apply (rep_ext (fun k => foldl (fun r kv => if decide (k = kv.1) then Some kv.2 else r) (db_get d k) ws));
      [by apply mip_batch_rep|]. intros k. by apply db_get_write.
  - split; [done|]. intros [_ Hw]. specialize (Hw d ws). by rewrite W in Hw.
Qed.
End Refinement.

(** C14: the chain database is a typed store.  Start from an empty key-value store
    and write and delete headers, bodies, blocks, total difficulties, receipts,
    transactions, canonical hashes and head pointers in any order.  Every reader
    then returns what was last written for its arguments and not deleted since,
    unless a write to the store failed; no encoding fails.  The block numbers stay
    outside of two ranges whose keys run into other prefixes, and no transaction
    hash followed by its suffix is the key of a block number. *)
Theorem chain_db_refines `{Hash256} `{StoreLaws D} (B X : bytes -> Prop) (d : D) os :
  (forall b x, B b -> X x -> blockHashPrefix ++ b <> x ++ txMetaSuffix) ->
  (forall k, db_get d k = None) -> Forall (op_ok B X) os ->
  match run_ops d os with
  | Ok d' => reads B X d' (spec_ops aempty os)
  | Err e => e <> EncodeFailed /\ ~ reliable (D := D)
  | Panic => False
  end.
Proof.
  intros BX E F. pose proof (ops_refine B X BX d aempty os (rep_empty B X _ E) F) as R.
  destruct (run_ops d os); [|done..]. by apply rep_reads.
Qed.

(** ** Common ancestors *)

Section Ancestor.
Context (a : achain).

Definition num (x : Header) : Z := u64 (hNumber x).

Definition parent (x : Header) : option Header := aHeader a (hParentHash x) (u64 (num x - 1)).

(** [ancestor x z]: following parents from [x] leads to [z]. *)
Inductive ancestor : Header -> Header -> Prop :=
| ancestor_refl x : ancestor x x
| ancestor_step x y z : parent x = Some y -> ancestor y z -> ancestor x z.

(** A stored header has the number it is stored under, which is not the number
    that stands for a missing block. *)
Definition numbered : Prop :=
  forall h n x, aHeader a h n = Some x -> header_ok x /\ num x = n /\ num_ok n /\ n < missingNumber.

Context (Nm : numbered).

Lemma num_range x : 0 <= num x < 2 ^ 64.
Proof. apply Z.mod_pos_bound. done. Qed.

Lemma parent_num x y : parent x = Some y -> num x = num y + 1.
Proof.
  intros E. apply Nm in E as (_ & E & _ & L). pose proof (num_range x). unfold missingNumber in L.
  destruct (Z.eq_dec (num x) 0) as [E0|]; [rewrite E0 in L; by vm_compute in L|]. rewrite u64_small in E by lia. lia.
Qed.

Lemma ancestor_num x z : ancestor x z -> num z <= num x.
Proof. induction 1 as [|x y z E _ IH]; [lia|]. apply parent_num in E. lia. Qed.

Lemma ancestor_same x z : ancestor x z -> num x <= num z -> x = z.
Proof. destruct 1 as [|x y z E A]; [done|]. apply parent_num in E. apply ancestor_num in A. lia. Qed.

Lemma ancestor_trans x y z : ancestor x y -> ancestor y z -> ancestor x z.
Proof. induction 1; [done|]. intros. econstructor; eauto. Qed.

(** The ancestors of a header are a chain. *)
Lemma ancestor_chain x y z : ancestor x y -> ancestor x z -> num z <= num y -> ancestor y z.
Proof.
  induction 1 as [|x y' y E A IH]; [done|]. intros Az L. inversion Az as [|? y2 ? E2 A2]; subst.
  - apply parent_num in E. apply ancestor_num in A. lia.
  - rewrite E in E2. injection E2 as <-. by apply IH.
Qed.

Lemma ancestor_below x z : ancestor x z -> num z < num x -> exists y, parent x = Some y /\ ancestor y z.
Proof. destruct 1; [lia|]. eauto. Qed.
End Ancestor.

Section FindAncestor.
Context `{Hash256} `{Store D} (d : D) (a : achain) (Nm : numbered a).
Context (Rd : forall h n, length h = 32%nat -> num_ok n -> GetHeader d h n = Ok (aHeader a h n)).

(** A header whose parent can be looked up. *)
Definition looked_up (x : Header) : Prop :=
  length (hParentHash x) = 32%nat /\ num_ok (u64 (num x - 1)).

Context (Lk : forall h n x, aHeader a h n = Some x -> looked_up x).

Lemma read_parent x : looked_up x -> GetHeader d (hParentHash x) (u64 (u64 (hNumber x) - 1)) = Ok (parent a x).
Proof. intros []. by apply Rd. Qed.

Lemma ancestor_looked_up x z : ancestor a x z -> looked_up x -> looked_up z.
Proof. induction 1 as [|x y z E _ IH]; [done|]. intros _. by eapply IH, Lk. Qed.

Lemma descend_ok fuel x bn :
  looked_up x -> num x < Z.of_nat fuel -> 0 <= bn ->
  exists r, descend fuel d x bn = Ok r /\
    match r with
    | Some y => ancestor a x y /\ num y = Z.min (num x) bn
    | None => forall z, ancestor a x z -> bn < num z
    end.
Proof.
  revert x. induction fuel as [|fuel IH]; intros x Lx Hf Hb; [pose proof (num_range x); lia|].
  cbn [descend]. fold (num x). destruct (Z.ltb_spec bn (num x)).
  - rewrite read_parent by done. destruct (parent a x) as [y|] eqn:E.
    + pose proof (parent_num a Nm x y E). destruct (IH y) as (r & -> & Hr); [by eapply Lk|lia..|]. exists r. split; [done|].
      destruct r as [w|].
      * destruct Hr. split; [by econstructor|lia].
      * intros z Az. inversion Az as [|? y' ? E' Az']; subst; [lia|]. rewrite E in E'. injection E' as <-. by apply Hr.
    + exists None. split; [done|]. intros z Az. inversion Az as [|? y' ? E' Az']; subst; [lia|congruence].
  - exists (Some x). split; [done|]. split; [constructor|lia].
Qed.

(** The last of the common ancestors, if there is one. *)
Definition last_common (x y : Header) (r : option Header) : Prop :=
  match r with
  | Some c => ancestor a x c /\ ancestor a y c /\ forall z, ancestor a x z -> ancestor a y z -> ancestor a c z
  | None => forall z, ~ (ancestor a x z /\ ancestor a y z)
  end.

Definition hash_distinct (x y : Header) : Prop :=
  forall u v, ancestor a x u -> ancestor a y v -> Header_Hash u = Header_Hash v -> u = v.

Lemma meet_ok fuel x y :
  looked_up x -> looked_up y -> hash_distinct x y -> num x = num y -> num x < Z.of_nat fuel ->
  exists r, meet fuel d x y = Ok r /\ last_common x y r.
Proof.
  revert x y. induction fuel as [|fuel IH]; intros x y Lx Ly Hd En Hf; [pose proof (num_range x); lia|].
  cbn [meet]. case_bool_decide as Eh.
  { apply Hd in Eh; [subst|constructor..]. exists (Some y). split; [done|]. split; [constructor|]. split; [constructor|]. auto. }
  assert (Hz : forall z, ancestor a x z -> ancestor a y z -> num z < num x).
  { intros z Ax Ay. pose proof (ancestor_num a Nm _ _ Ax). destruct (Z.eq_dec (num z) (num x)); [|lia].
    apply (ancestor_same a Nm) in Ax, Ay; [|lia..]. congruence. }
  rewrite !read_parent by done. destruct (parent a x) as [x1|] eqn:E1; [destruct (parent a y) as [y1|] eqn:E2|].
  - pose proof (parent_num a Nm _ _ E1). pose proof (parent_num a Nm _ _ E2).
    destruct (IH x1 y1) as (r & Er & Hr); [by eapply Lk|by eapply Lk| |lia..|].
    { intros u v Au Av. apply Hd; by econstructor. }
    exists r. split; [done|].
    assert (Hs : forall z, ancestor a x z -> ancestor a y z -> ancestor a x1 z /\ ancestor a y1 z).
    { intros z Ax Ay. pose proof (Hz z Ax Ay). destruct (ancestor_below a _ _ Ax) as (? & E & ?); [lia|]. rewrite E1 in E. injection E as <-.
      destruct (ancestor_below a _ _ Ay) as (? & E & ?); [lia|]. rewrite E2 in E. injection E as <-. done. }
    destruct r as [c|].
    + destruct Hr as (A1 & A2 & A3). split; [by econstructor|]. split; [by econstructor|]. intros z Ax Ay. destruct (Hs z Ax Ay). auto.
    + intros z [Ax Ay]. apply (Hr z). auto.
  - exists None. split; [done|]. intros z [Ax Ay]. pose proof (Hz z Ax Ay). destruct (ancestor_below a _ _ Ay) as (? & E & ?); [lia|congruence].
  - exists None. split; [done|]. intros z [Ax Ay]. pose proof (Hz z Ax Ay). destruct (ancestor_below a _ _ Ax) as (? & E & ?); [lia|congruence].
Qed.

Lemma FindCommonAncestor_ok fuel x y :
  looked_up x -> looked_up y -> hash_distinct x y -> num x < Z.of_nat fuel -> num y < Z.of_nat fuel ->
  exists r, FindCommonAncestor fuel d x y = Ok r /\ last_common x y r.
Proof.
  intros Lx Ly Hd Fx Fy. unfold FindCommonAncestor. fold (num y). pose proof (num_range x). pose proof (num_range y).
  destruct (descend_ok fuel x (num y) Lx Fx ltac:(lia)) as ([x1|] & -> & Hx); cbn [obind].
  2: { exists None. split; [done|]. intros z [Ax Ay]. apply Hx in Ax. apply (ancestor_num a Nm) in Ay. lia. }
  destruct Hx as [A1 N1]. fold (num x1).
  destruct (descend_ok fuel y (num x1) Ly Fy ltac:(lia)) as ([y1|] & -> & Hy); cbn [obind].
  2: { exists None. split; [done|]. intros z [Ax Ay]. pose proof (Hy z Ay). pose proof (ancestor_num a Nm _ _ Ax).
       pose proof (ancestor_num a Nm _ _ Ay). lia. }
  destruct Hy as [A2 N2].
  destruct (meet_ok fuel x1 y1) as (r & -> & Hr);
    [by eapply ancestor_looked_up|by eapply ancestor_looked_up|intros u v Au Av; apply Hd; by eapply ancestor_trans|lia..|].
  exists r. split; [done|].
  assert (Hs : forall z, ancestor a x z -> ancestor a y z -> ancestor a x1 z /\ ancestor a y1 z).
  { intros z Ax Ay. pose proof (ancestor_num a Nm _ _ Ax). pose proof (ancestor_num a Nm _ _ Ay).
    split; [apply (ancestor_chain a Nm x)|apply (ancestor_chain a Nm y)]; done || lia. }
  destruct r as [c|].
  - destruct Hr as (B1 & B2 & B3). split; [by eapply ancestor_trans|]. split; [by eapply ancestor_trans|].
    intros z Ax Ay. destruct (Hs z Ax Ay). auto.
  - intros z [Ax Ay]. apply (Hr z). auto.
Qed.
End FindAncestor.

Section StoredHeaders.
Context `{Hash256}.

(** The headers an operation writes. *)
Definition op_headers (o : cop) : list Header :=
  match o with OHeader h => [h] | OBlock b => [header b] | _ => [] end.

(** Block numbers far below the ranges in which keys overlap. *)
Definition low (x : Header) : Prop := num x < 2 ^ 62.

Definition stored_ok (a : achain) : Prop := forall h n v, a (KHeader h n) = Some v -> exists x, v = CHeader x /\ header_ok x /\ num x = n /\ low x.

Lemma low_ok n : 0 <= n < 2 ^ 62 -> num_ok n.
Proof.
  intros Hn. assert (n / 2 ^ 56 < 64) by (apply Z.div_lt_upper_bound; lia). split; [lia|]. lia.
Qed.

(** Entries that put no header. *)
Definition plain_entry (e : ckey * option cval) : Prop := match e with (KHeader _ _, Some _) => False | _ => True end.

Lemma apply_plain a e : plain_entry e -> stored_ok a -> stored_ok (apply_entry a e).
Proof.
  intros He S h n v. unfold apply_entry. destruct e as [k o]. cbn [fst snd]. destruct (decide (k = KHeader h n)) as [->|Hne].
  - rewrite fn_lookup_insert. by destruct o.
  - rewrite fn_lookup_insert_ne by done. apply S.
Qed.

Lemma apply_plains a es : Forall plain_entry es -> stored_ok a -> stored_ok (foldl apply_entry a es).
Proof. intros F. revert a. induction F as [|e es He F IH]; intros a S; [done|]. by apply IH, apply_plain. Qed.

Lemma apply_header a x : header_ok x -> low x -> stored_ok a -> stored_ok (foldl apply_entry a (header_entries x)).
Proof.
  intros Hx Lx S. pose proof (apply_plain a (KNumber (Header_Hash x), Some (CNum (u64 (hNumber x)))) I S) as S1.
  intros h n v. cbn [header_entries foldl]. unfold apply_entry at 1. cbn [fst snd].
  destruct (decide (KHeader (Header_Hash x) (u64 (hNumber x)) = KHeader h n)) as [E|Hne].
  - rewrite <- E, fn_lookup_insert. intros [= <-]. injection E as _ E. eauto 6.
  - rewrite fn_lookup_insert_ne by done. apply S1.
Qed.

Lemma position_plain b i ts : Forall plain_entry (position_entries b i ts).
Proof. revert i. induction ts; intros i; repeat constructor; done. Qed.

Lemma header_entries_ok B X x : Forall (entry_ok B X) (header_entries x) -> header_ok x.
Proof. intros F. inversion F as [|? ? _ F1]; inversion F1 as [|? ? E2 _]; subst. apply (proj2 E2 _ eq_refl). Qed.

Lemma spec_op_stored B X a o : op_ok B X o -> Forall low (op_headers o) -> stored_ok a -> stored_ok (spec_op a o).
Proof.
  intros F L S. unfold spec_op, op_ok in *. destruct o; cbn [op_entries op_headers] in *;
    try (apply apply_plains; [|done]; by repeat constructor).
  - apply Forall_cons in L as [L _]. apply apply_header; [by eapply header_entries_ok|done..].
  - apply Forall_cons in L as [L _]. apply Forall_cons in F as [_ F]. cbn [foldl].
    apply apply_header; [by eapply header_entries_ok|done|by apply apply_plain].
  - apply apply_plains; [apply position_plain|done].
  - apply apply_plains; [|done]. apply Forall_map, Forall_forall. done.
Qed.

Lemma spec_ops_stored B X os : Forall (op_ok B X) os -> Forall low (os ≫= op_headers) -> stored_ok (spec_ops aempty os).
Proof.
  unfold spec_ops. assert (S0 : stored_ok aempty) by done. revert S0. generalize aempty.
  induction os as [|o os IH]; intros a S F L; [done|]. apply Forall_cons in F as [Fo F].
  cbn in L. apply Forall_app in L as [Lo L]. cbn [foldl]. apply IH; [|done..]. by eapply spec_op_stored.
Qed.

Lemma stored_header a h n x : stored_ok a -> aHeader a h n = Some x -> header_ok x /\ num x = n /\ low x.
Proof.
  intros S. unfold aHeader. destruct (a (KHeader h n)) as [v|] eqn:E; [|done].
  destruct (S h n v E) as (y & -> & Hy). by intros [= <-].
Qed.

Lemma stored_numbered a : stored_ok a -> numbered a.
Proof.
  intros S h n x E. destruct (stored_header a h n x S E) as (Hx & <- & L). pose proof (num_range x). unfold low in L.
  split; [done|]. split; [done|]. split; [apply low_ok; lia|]. unfold missingNumber. lia.
Qed.

Lemma low_looked_up x : header_ok x -> low x -> looked_up x.
Proof.
  intros [[_ P]] L. split; [done|]. pose proof (num_range x). unfold low in L. destruct (Z.eq_dec (num x) 0) as [->|].
  - split; [by vm_compute|]. by split.
  - rewrite u64_small by lia. apply low_ok. lia.
Qed.
End StoredHeaders.

(** The search for the common ancestor of two headers terminates and returns
    the last one.  In a database written by the functions of the package, with
    headers stored under their hash and number, a walk of as many steps as the
    larger block number is enough.  The header returned is an ancestor of both,
    and every common ancestor is an ancestor of it; nothing is returned only if
    there is no common ancestor.  Headers on the two branches are taken to have
    distinct hashes. *)
Theorem FindCommonAncestor_last `{Hash256} `{StoreLaws D} (B X : bytes -> Prop) (d d' : D) os fuel x y :
  (forall b x, B b -> X x -> blockHashPrefix ++ b <> x ++ txMetaSuffix) ->
  (forall k, db_get d k = None) -> Forall (op_ok B X) os -> Forall low (os ≫= op_headers) -> run_ops d os = Ok d' ->
  header_ok x -> header_ok y -> low x -> low y -> hash_distinct (spec_ops aempty os) x y ->
  num x < Z.of_nat fuel -> num y < Z.of_nat fuel ->
  exists r, FindCommonAncestor fuel d' x y = Ok r /\ last_common (spec_ops aempty os) x y r.
Proof.
  intros BX E F L Ed Hx Hy Lx Ly Hd Fx Fy. pose proof (ops_refine B X BX d aempty os (rep_empty B X _ E) F) as R. rewrite Ed in R.
  pose proof (spec_ops_stored B X os F L) as S.
  apply FindCommonAncestor_ok; try done; try by apply low_looked_up.
  - by apply stored_numbered.
  - apply (reads_header _ _ _ _ (rep_reads B X d' _ R)).
  - intros h n z Ez. destruct (stored_header _ h n z S Ez) as (Hz & _ & Lz). by apply low_looked_up.
Qed.

(** ** Witness *)

#[local] Existing Instance keccak_hash.

Definition tx0 : Transaction := mkTx 0 1 21000 (Some (zeros 20)) 5 [1; 2; 3] 27 1 1.
Definition block1 : Block := mkBlock header0 [header0] [tx0] None.
Definition ops0 : list cop :=
  let h := block_Hash block1 in
  [OBlock block1; OTransactions block1; OTd h 1 131072; OCanonical h 1; OHeadBlock h; OReceipts h 1 [receipt0];
   OReceipt receipt0; ODelReceipts h 1; ODelReceipt (zeros 32)].

(** No transaction hash in use starts like the key of a block number. *)
Definition blocks0 (h : bytes) : Prop := True.
Definition txs0 (h : bytes) : Prop := head h <> Some 0x48.

Lemma tx0_ok : tx_ok tx0.
Proof.
  assert (bytes_ok [1; 2; 3]) by (apply (bool_decide_unpack _); by vm_compute).
  split; cbn; try lia; [|done]. intros b [= <-]. apply zeros_word.
Qed.

Lemma receipt0_ok : receipt_ok receipt0.
Proof. split; cbn; try lia; try apply zeros_word; constructor. Qed.

Lemma tx0_hash : txs0 (tx_Hash tx0).
Proof. apply (bool_decide_unpack _). vm_compute. reflexivity. Qed.

Lemma tx0_fits : fits (tx_val tx0) tx_type.
Proof. by vm_compute. Qed.

Lemma ops0_ok : Forall (op_ok blocks0 txs0) ops0.
Proof.
  pose proof (bo_header _ block0_ok) as Hh. pose proof tx0_ok. pose proof receipt0_ok.
  assert (N : num_ok 1) by (split; [lia|]; split; by vm_compute).
  assert (W : word 32 (block_Hash block1)) by apply rlpHash_word. assert (L : length (block_Hash block1) = 32%nat) by apply W.
  assert (Lt : length (tx_Hash tx0) = 32%nat) by apply rlpHash_word.
  pose proof tx0_hash as Tx.
  assert (Fh : fits (header_val header0) header_type) by by vm_compute.
  assert (Fb : fits (body_val (block_Body block1)) body_type) by by vm_compute.
  pose proof tx0_fits as Ft.
  assert (Fr : fits (receipt_storage_struct receipt0) receipt_storage_type) by by vm_compute.
  assert (Fs : fits (ptrs receipt_storage_struct [receipt0]) receipts_type) by by vm_compute.
  assert (Fm : fits (meta_val (block_Hash block1) 1 0) meta_type).
  { pose proof (enc_string_len_short (block_Hash block1)) as Le. unfold fits. cbn [meta_val meta_type enc zip_with concat].
    revert L Le. generalize (block_Hash block1). intros h L Le. pose proof (enc_list_len (enc_string h ++ enc_string (Bytes 1) ++ enc_string (Bytes 0) ++ [])) as Ll.
    rewrite !length_app in Ll. change (length (enc_string (Bytes 1))) with 1%nat in Ll. change (length (enc_string (Bytes 0))) with 1%nat in Ll. cbn [length] in Ll. lia. }
  assert (Bb : body_ok (block_Body block1)) by (split; constructor; [exact tx0_ok|constructor|exact Hh|constructor]).
  assert (G : forall h, length h = 32%nat -> fits (VBytes h) TBytes).
  { intros h Eh. unfold fits. cbn. pose proof (enc_string_len_short h). lia. }
  assert (P : forall k v, key_ok blocks0 txs0 k -> cval_ok k v -> entry_ok blocks0 txs0 (k, Some v)).
  { intros k v K V. split; [exact K|]. intros v' [= <-]. exact V. }
  assert (Q : forall k, key_ok blocks0 txs0 k -> entry_ok blocks0 txs0 (k, None)) by (intros k K; split; [exact K|discriminate]).
  assert (En : Forall (entry_ok blocks0 txs0) (header_entries header0)).
  { assert (Eh : block_Hash block1 = Header_Hash header0) by reflexivity. rewrite Eh in L.
    unfold header_entries. change (u64 (hNumber header0)) with 1. revert L. generalize (Header_Hash header0). intros h L.
    constructor; [refine (P (KNumber h) (CNum 1) (conj L I) (conj _ (conj _ _))); [reflexivity|discriminate|reflexivity]|].
    constructor; [exact (P (KHeader h 1) (CHeader header0) (conj L N) (conj Fh Hh))|constructor]. }
  set (h := block_Hash block1) in *.
  constructor; [constructor; [exact (P (KBody h 1) (CBody _) (conj L N) (conj Fb Bb))|exact En]|].
  constructor.
  { constructor; [exact (P (KTx _) (CTx tx0) (conj Lt Tx) (conj Ft tx0_ok))|].
    constructor; [|constructor]. refine (P (KMeta _) (CMeta h 1 0) (conj Lt Tx) (conj Fm (conj W (conj _ _)))); split; [discriminate|reflexivity|discriminate|reflexivity]. }
  constructor; [constructor; [refine (P (KTd h 1) (CTd _) (conj L N) (conj _ _)); by vm_compute|constructor]|].
  constructor; [constructor; [exact (P (KCanonical 1) (CHash h) N (conj (G h L) L))|constructor]|].
  constructor; [constructor; [exact (P KHeadBlock (CHash h) I (conj (G h L) L))|constructor]|].
  constructor; [constructor; [refine (P (KReceipts h 1) (CReceipts _) (conj L N) (conj Fs _)); by constructor|constructor]|].
  constructor; [constructor; [exact (P (KReceipt (zeros 32)) (CReceipt receipt0) eq_refl (conj Fr receipt0_ok))|constructor]|].
  constructor; [constructor; [exact (Q (KReceipts h 1) (conj L N))|constructor]|].
  constructor; [constructor; [exact (Q (KReceipt (zeros 32)) eq_refl)|constructor]|constructor].
Qed.

Lemma hashes0_apart b x : blocks0 b -> txs0 x -> blockHashPrefix ++ b <> x ++ txMetaSuffix.
Proof. destruct x as [|x r]; intros _ Hx E; [discriminate E|]. apply Hx. injection E as E _. cbn. by rewrite <- E. Qed.

Lemma chain_db_refines_witness :
  match run_ops (open_mem ∅) ops0 with
  | Ok d => reads blocks0 txs0 d (spec_ops aempty ops0)
  | Err e => e <> EncodeFailed /\ ~ reliable (D := OpenMem)
  | Panic => False
  end.
Proof.
  apply (chain_db_refines blocks0 txs0 (open_mem ∅) ops0); [apply hashes0_apart|intros k; apply lookup_empty|exact ops0_ok].
Defined.

(** A genesis header with two children. *)
Definition genesis_header : Header :=
  mkHeader (zeros 32) (zeros 32) (zeros 20) (zeros 32) (zeros 32) (zeros 32) (zeros 256) 131072 0 5000 0 0 [] (zeros 32) (zeros 8).
Definition child_of (parent : bytes) (time : Z) : Header :=
  mkHeader parent (zeros 32) (zeros 20) (zeros 32) (zeros 32) (zeros 32) (zeros 256) 131072 1 5000 0 time []
    (zeros 32) (zeros 8).
Definition child : Z -> Header := child_of (Header_Hash genesis_header).
Definition fork_ops : list cop := [OHeader genesis_header; OHeader (child 10); OHeader (child 11)].

Lemma genesis_header_ok : header_ok genesis_header.
Proof. split; cbn; try lia; try apply zeros_word. constructor. Qed.

Lemma child_of_ok p t : word 32 p -> 0 <= t -> header_ok (child_of p t).
Proof. intros Hp Ht. split; cbn; try lia; try apply zeros_word; [done|constructor]. Qed.

Lemma Header_Hash_word h : word 32 (Header_Hash h).
Proof. apply rlpHash_word. Qed.

Lemma child_ok t : 0 <= t -> header_ok (child t).
Proof. apply child_of_ok, Header_Hash_word. Qed.

Lemma header_op_ok h : header_ok h -> fits (header_val h) header_type -> low h -> op_ok blocks0 txs0 (OHeader h).
Proof.
  intros Hh Fh Lh. pose proof (num_range h) as Nh. unfold low in Lh. assert (N : num_ok (num h)) by (apply low_ok; lia).
  pose proof (proj2 (Header_Hash_word h)) as L.
  unfold op_ok. cbn [op_entries]. unfold header_entries. fold (num h). set (b := Header_Hash h) in *. clearbody b.
  constructor; [|constructor; [|constructor]]; (split; [done|]); intros v [= <-]; split; try done.
Qed.

Lemma fork_ops_ok : Forall (op_ok blocks0 txs0) fork_ops /\ Forall low (fork_ops ≫= op_headers).
Proof.
  assert (F : forall h, h = genesis_header \/ h = child 10 \/ h = child 11 -> low h /\ op_ok blocks0 txs0 (OHeader h)).
  { intros h Hh. assert (low h) by (destruct Hh as [->|[->| ->]]; by vm_compute). split; [done|].
    apply header_op_ok; [|destruct Hh as [->|[->| ->]]; by vm_compute|done].
    destruct Hh as [->|[->| ->]]; [apply genesis_header_ok|by apply child_ok..]. }
  destruct (F genesis_header) as [L0 O0]; [auto|]. destruct (F (child 10)) as [L1 O1]; [auto|]. destruct (F (child 11)) as [L2 O2]; [auto|].
  split; [exact (Forall_cons_2 _ _ _ O0 (Forall_cons_2 _ _ _ O1 (Forall_cons_2 _ _ _ O2 (Forall_nil_2 _))))|].
  exact (Forall_cons_2 _ _ _ L0 (Forall_cons_2 _ _ _ L1 (Forall_cons_2 _ _ _ L2 (Forall_nil_2 _)))).
Qed.

(** The store holds the genesis header under its number, and nothing under the
    largest one. *)
Lemma fork_parents h :
  aHeader (spec_ops aempty fork_ops) h 0 = (if decide (h = Header_Hash genesis_header) then Some genesis_header else None) /\
  aHeader (spec_ops aempty fork_ops) h (u64 (0 - 1)) = None.
Proof.
  unfold spec_ops, fork_ops, spec_op. cbn [foldl op_entries header_entries]. unfold apply_entry, aHeader. cbn [fst snd].
  change (u64 (hNumber genesis_header)) with 0. change (u64 (hNumber (child 10))) with 1. change (u64 (hNumber (child 11))) with 1.
  generalize (Header_Hash genesis_header) (Header_Hash (child 10)) (Header_Hash (child 11)). intros h0 h1 h2.
  split; [|repeat (rewrite fn_lookup_insert_ne by discriminate); reflexivity].
  do 4 (rewrite fn_lookup_insert_ne by discriminate). destruct (decide (h = h0)) as [->|N]; [by rewrite fn_lookup_insert|].
  rewrite fn_lookup_insert_ne by (intros E; apply N; by injection E). by rewrite fn_lookup_insert_ne.
Qed.

Lemma child_of_parent a p t : parent a (child_of p t) = aHeader a p 0.
Proof. reflexivity. Qed.

Lemma genesis_parent a : parent a genesis_header = aHeader a (zeros 32) (u64 (0 - 1)).
Proof. reflexivity. Qed.

Lemma fork_ancestors t u : ancestor (spec_ops aempty fork_ops) (child t) u -> u = child t \/ u = genesis_header.
Proof.
  intros A. inversion A as [|? y ? E A']; subst; [by left|]. right.
  pose proof (proj1 (fork_parents (Header_Hash genesis_header))) as Eg. rewrite decide_True in Eg by reflexivity.
  assert (y = genesis_header) as ->.
  { unfold child in E. rewrite child_of_parent in E. congruence. }
  inversion A' as [|? y ? E' _]; subst; [done|]. exfalso.
  pose proof (proj2 (fork_parents (zeros 32))) as En. rewrite genesis_parent in E'. congruence.
Qed.

(** The hashes of the headers are distinct and not zero. *)
Definition apart (hs : list bytes) : bool := bool_decide (NoDup hs /\ zeros 32 ∉ hs).

Lemma apart_inj l x y : apart (map Header_Hash l) = true -> x ∈ l -> y ∈ l -> Header_Hash x = Header_Hash y -> x = y.
Proof.
  intros [Nd _]%bool_decide_eq_true_1 [i Hi]%list_elem_of_lookup [j Hj]%list_elem_of_lookup E.
  pose proof (list_lookup_fmap Header_Hash l i) as Ei. rewrite Hi in Ei.
  pose proof (list_lookup_fmap Header_Hash l j) as Ej. rewrite Hj in Ej. cbn [fmap option_fmap option_map] in Ei, Ej.
  rewrite <- E in Ej. pose proof (NoDup_lookup _ _ _ _ Nd Ei Ej) as <-. rewrite Hi in Hj. injection Hj. exact (fun e => e).
Qed.

Lemma apart_nonzero l x : apart (map Header_Hash l) = true -> x ∈ l -> Header_Hash x <> zeros 32.
Proof. intros [_ Nz]%bool_decide_eq_true_1 Ex E. apply Nz. rewrite <- E. apply list_elem_of_fmap. exists x. exact (conj eq_refl Ex). Qed.

Definition fork_headers : list Header := [genesis_header; child 10; child 11].

(** Evaluated with the hash of the genesis header shared. *)
Lemma fork_hashes_shared :
  (let h := Header_Hash genesis_header in apart [h; Header_Hash (child_of h 10); Header_Hash (child_of h 11)]) = true.
Proof. vm_compute. reflexivity. Qed.

Lemma fork_hashes : apart (map Header_Hash fork_headers) = true.
Proof. exact fork_hashes_shared. Qed.

Lemma fork_distinct : hash_distinct (spec_ops aempty fork_ops) (child 10) (child 11).
Proof.
  assert (M : forall t u, t = 10 \/ t = 11 -> u = child t \/ u = genesis_header -> u ∈ fork_headers).
  { intros t u [->| ->] [->| ->]; unfold fork_headers; rewrite !elem_of_cons; auto. }
  intros u v Au Av. apply (apart_inj fork_headers u v fork_hashes); [apply (M 10)|apply (M 11)]; auto; by apply fork_ancestors.
Qed.

(** The database after the writes. *)
Definition fork_db : OpenMem := match run_ops (open_mem ∅) fork_ops with Ok d => d | _ => open_mem ∅ end.

Lemma OpenMem_reliable : reliable (D := OpenMem).
Proof. split; intros; reflexivity. Qed.

Lemma fork_run : run_ops (open_mem ∅) fork_ops = Ok fork_db.
Proof.
  pose proof (ops_refine blocks0 txs0 hashes0_apart (open_mem ∅) aempty fork_ops) as R. unfold fork_db. revert R.
  generalize (run_ops (open_mem ∅) fork_ops). intros m R. specialize (R (rep_empty blocks0 txs0 _ (fun k => lookup_empty k)) (proj1 fork_ops_ok)).
  destruct m; [reflexivity|destruct R as [_ N]; destruct (N OpenMem_reliable)|destruct R].
Qed.

Lemma FindCommonAncestor_last_witness :
  exists r, FindCommonAncestor 2 fork_db (child 10) (child 11) = Ok r /\
    last_common (spec_ops aempty fork_ops) (child 10) (child 11) r.
Proof.
  refine (FindCommonAncestor_last blocks0 txs0 (open_mem ∅) fork_db fork_ops 2 (child 10) (child 11)
    _ _ (proj1 fork_ops_ok) (proj2 fork_ops_ok) fork_run (child_ok 10 _) (child_ok 11 _) _ _ fork_distinct _ _);
    [apply hashes0_apart|intros k; apply lookup_empty|discriminate|discriminate|reflexivity..].
Defined.
