(* ===== verification/Heap.v ===== *)
(** * Binary heaps (container/heap of the Go standard library)

    [Init], [Push], [Pop] and [Remove] on a slice ordered by a key, with the
    loops [up] and [down], and the theorems that they keep the heap order and
    the elements.  The fuel of a loop is the length of the slice. *)

From S2P Require Import Prelude.

Section Heap.
Context {A : Type} `{!Inhabited A} (key : A -> Z).
Implicit Types (l : list A) (i j n : nat).

Definition less l i j : bool := key (l !!! i) <? key (l !!! j).

Definition swap l i j : list A := <[i := l !!! j]> (<[j := l !!! i]> l).

(** [(j - 1) / 2], which is 0 at 0. *)
Definition par j : nat := Nat.div (j - 1) 2.

Fixpoint up (fuel : nat) l j : list A :=
  match fuel with
  | O => l
  | S fuel =>
      let i := par j in
      if (i =? j)%nat || negb (less l j i) then l else up fuel (swap l i j) i
  end.

(** The index where the element ends up, and the slice. *)
Fixpoint down_loop (fuel : nat) l i n : list A * nat :=
  match fuel with
  | O => (l, i)
  | S fuel =>
      let j1 := (2 * i + 1)%nat in
      if (n <=? j1)%nat then (l, i)
      else
        let j2 := (j1 + 1)%nat in
        let j := if (j2 <? n)%nat && less l j2 j1 then j2 else j1 in
        if negb (less l j i) then (l, i) else down_loop fuel (swap l i j) j n
  end.

Definition down l i0 n : list A * bool :=
  let '(l, i) := down_loop (length l) l i0 n in (l, (i0 <? i)%nat).

Fixpoint init_loop (i : nat) l n : list A :=
  match i with O => l | S i => init_loop i (down l i n).1 n end.

Definition heap_Init l : list A := init_loop (Nat.div (length l) 2) l (length l).

Definition heap_Push l x : list A := up (length l) (l ++ [x]) (length l).

(** The last element of the slice is what [Pop] of the interface returns. *)
Definition pop_last l : option (A * list A) :=
  match last l with Some x => Some (x, take (length l - 1) l) | None => None end.

Definition heap_Pop l : option (A * list A) :=
  match l with
  | [] => None
  | _ => let n := (length l - 1)%nat in pop_last (down (swap l 0 n) 0 n).1
  end.

Definition heap_Remove l i : option (A * list A) :=
  if (length l <=? i)%nat then None
  else
    let n := (length l - 1)%nat in
    let l := if (n =? i)%nat then l
             else let '(l, moved) := down (swap l i n) i n in if moved then l else up (length l) l i in
    pop_last l.

(** ** Swapping *)

Definition transpose i j k : nat := if decide (k = i) then j else if decide (k = j) then i else k.

Lemma length_swap l i j : length (swap l i j) = length l.
Proof. unfold swap. by rewrite !length_insert. Qed.

Lemma swap_at l i j k : (i < length l)%nat -> (j < length l)%nat -> swap l i j !!! k = l !!! transpose i j k.
Proof.
  intros Hi Hj. unfold swap, transpose. destruct (decide (k = i)) as [->|Hki].
  - by rewrite list_lookup_total_insert_eq by (rewrite length_insert; done).
  - rewrite list_lookup_total_insert_ne by done. destruct (decide (k = j)) as [->|Hkj].
    + by rewrite list_lookup_total_insert_eq.
    + by rewrite list_lookup_total_insert_ne.
Qed.

Lemma swap_perm l i j : (i < length l)%nat -> (j < length l)%nat -> swap l i j ≡ₚ l.
Proof.
  intros Hi Hj. destruct (lookup_lt_is_Some_2 l i Hi) as [x Hx]. destruct (lookup_lt_is_Some_2 l j Hj) as [y Hy].
  unfold swap. rewrite (list_lookup_total_correct _ _ _ Hx), (list_lookup_total_correct _ _ _ Hy). by apply Permutation_insert_swap.
Qed.

Lemma swap_key l i j k : (i < length l)%nat -> (j < length l)%nat -> key (swap l i j !!! k) = key (l !!! transpose i j k).
Proof. intros. by rewrite swap_at. Qed.

(** ** Heap order *)

(** The element at [j] is not below its parent. *)
Definition pair_ok l j : Prop := key (l !!! par j) <= key (l !!! j).

(** Heap order of the first [n] elements, from the parent [s] on. *)
Definition heap_from (s : nat) l n : Prop := forall j, (0 < j < n)%nat -> (s <= par j)%nat -> pair_ok l j.
Definition is_heap l : Prop := heap_from 0 l (length l).

Lemma par_lt j : (0 < j)%nat -> (par j < j)%nat.
Proof. intros. unfold par. apply Nat.Div0.div_lt_upper_bound. lia. Qed.

Lemma par_eq i j : (0 < j)%nat -> par j = i <-> (j = 2 * i + 1 \/ j = 2 * i + 2)%nat.
Proof.
  intros Hj. unfold par. pose proof (Nat.div_mod (j - 1) 2 ltac:(lia)) as E. pose proof (Nat.mod_upper_bound (j - 1) 2 ltac:(lia)). lia.
Qed.

(** [l'] is [l] with the elements below [n] rearranged. *)
Definition rearranged l l' n : Prop := l' ≡ₚ l /\ forall k, (n <= k)%nat -> l' !! k = l !! k.

Lemma rearranged_refl l n : rearranged l l n.
Proof. done. Qed.

Lemma rearranged_trans l1 l2 l3 n : rearranged l1 l2 n -> rearranged l2 l3 n -> rearranged l1 l3 n.
Proof. intros [P1 E1] [P2 E2]. split; [by rewrite P2|]. intros k Hk. by rewrite E2, E1. Qed.

Lemma rearranged_length l l' n : rearranged l l' n -> length l' = length l.
Proof. intros [P _]. by rewrite P. Qed.

Lemma swap_rearranged l i j n : (i < n)%nat -> (j < n)%nat -> (n <= length l)%nat -> rearranged l (swap l i j) n.
Proof.
  intros. split; [apply swap_perm; lia|]. intros k Hk. unfold swap. by rewrite !list_lookup_insert_ne by lia.
Qed.

(** Every pair is in order but those of [i] with its parent and its children, and
    the children of [i] are not below the parent of [i]. *)
Definition hole (s : nat) l n i : Prop :=
  (forall j, (0 < j < n)%nat -> (s <= par j)%nat -> par j <> i -> j <> i -> pair_ok l j) /\
  (forall j, (0 < j < n)%nat -> par j = i -> (0 < i)%nat -> (s <= par i)%nat -> key (l !!! par i) <= key (l !!! j)).

Lemma less_spec l i j : reflect (key (l !!! i) < key (l !!! j)) (less l i j).
Proof. apply Z.ltb_spec0. Qed.

(** The smaller child. *)
Lemma smaller_child l i n (j1 := (2 * i + 1)%nat) (j := if (j1 + 1 <? n)%nat && less l (j1 + 1) j1 then (j1 + 1)%nat else j1) :
  (j1 < n)%nat ->
  (i < j < n)%nat /\ par j = i /\ forall k, (0 < k < n)%nat -> par k = i -> key (l !!! j) <= key (l !!! k).
Proof.
  intros Hj. assert (Hc : forall k, (0 < k < n)%nat -> par k = i -> k = j1 \/ k = (j1 + 1)%nat).
  { intros k Hk E. apply par_eq in E; lia. }
  destruct (Nat.ltb_spec (j1 + 1) n); cbn [andb] in *.
  - destruct (less_spec l (j1 + 1) j1) as [L|L]; unfold j; (split; [lia|]); (split; [apply par_eq; lia|]);
      intros k Hk E; destruct (Hc k Hk E) as [->| ->]; lia.
  - unfold j. split; [lia|]. split; [apply par_eq; lia|]. intros k Hk E. destruct (Hc k Hk E) as [->| ->]; lia.
Qed.

(** Moving the smaller child up moves the hole down. *)
Lemma hole_down s l n i j :
  (s <= i)%nat -> (j < n)%nat -> (n <= length l)%nat -> (i < j)%nat -> par j = i ->
  (forall k, (0 < k < n)%nat -> par k = i -> key (l !!! j) <= key (l !!! k)) ->
  hole s l n i -> hole s (swap l i j) n j /\ ((0 < i)%nat -> (s <= par i)%nat -> pair_ok (swap l i j) i).
Proof.
  intros Hs Hj Hn Hij Ej Hmin [H1 H2].
  assert (K : forall k, key (swap l i j !!! k) = key (l !!! transpose i j k)) by (intros; apply swap_key; lia).
  assert (Pi : (0 < i)%nat -> (s <= par i)%nat -> pair_ok (swap l i j) i).
  { intros Hi Hp. unfold pair_ok. rewrite !K. unfold transpose. pose proof (par_lt i Hi).
    rewrite (decide_False (P := par i = i)), (decide_False (P := par i = j)), decide_True by lia. apply H2; lia. }
  split; [|done]. split.
  - intros k Hk Sk Nk Nk'. destruct (decide (k = i)) as [->|]; [apply Pi; lia|]. unfold pair_ok. rewrite !K. unfold transpose.
    rewrite (decide_False (P := k = i)), (decide_False (P := k = j)), (decide_False (P := par k = j)) by done.
    destruct (decide (par k = i)) as [E|E]; [by apply Hmin|by apply H1].
  - intros k Hk E _ _. rewrite !K. unfold transpose. rewrite Ej, (decide_True (P := i = i)) by done.
    pose proof (par_lt k ltac:(lia)). rewrite (decide_False (P := k = i)), (decide_False (P := k = j)) by lia.
    specialize (H1 k Hk). unfold pair_ok in H1. rewrite E in H1. apply H1; lia.
Qed.

Lemma down_loop_ok fuel s l i n :
  (s <= i)%nat -> (i < n)%nat -> (n <= length l)%nat -> (n <= fuel + i)%nat -> hole s l n i ->
  let '(l', i') := down_loop fuel l i n in
  rearranged l l' n /\ (i <= i')%nat /\ (i' = i -> l' = l) /\
  (forall j, (0 < j < n)%nat -> (s <= par j)%nat -> j <> i -> pair_ok l' j) /\
  ((i < i')%nat -> (0 < i)%nat -> (s <= par i)%nat -> pair_ok l' i).
Proof.
  revert l i. induction fuel as [|fuel IH]; intros l i Hs Hi Hn Hf Ho; [lia|]. cbn [down_loop].
  destruct (Nat.leb_spec n (2 * i + 1)) as [L|L].
  { split; [apply rearranged_refl|]. repeat split; try done; [|lia]. intros j Hj Sj Nj. apply Ho; try done.
    intros E. apply par_eq in E; lia. }
  destruct (smaller_child l i n L) as (Hc & Ec & Hmin). cbv zeta in Hc, Ec, Hmin.
  set (j := if _ && _ then _ else _) in *. clearbody j. destruct (less_spec l j i) as [Lj|Lj]; cbn [negb].
  - destruct (hole_down s l n i j Hs (proj2 Hc) Hn (proj1 Hc) Ec Hmin Ho) as [Ho' Pi].
    specialize (IH (swap l i j) j ltac:(lia) ltac:(lia) ltac:(rewrite length_swap; lia) ltac:(lia) Ho').
    destruct (down_loop fuel (swap l i j) j n) as [l' i']. destruct IH as (R & Hi' & E & Pj & Pm).
    split; [eapply rearranged_trans; [apply (swap_rearranged l i j n); lia|done]|]. split; [lia|]. split; [lia|].
    assert (Pjj : pair_ok l' j).
    { destruct (decide (i' = j)) as [->|]; [|apply Pm; rewrite ?Ec; lia]. rewrite E by done. unfold pair_ok. rewrite !swap_key by lia.
      unfold transpose. rewrite Ec, (decide_True (P := i = i)), (decide_False (P := j = i)), (decide_True (P := j = j)) by lia. lia. }
    split; [intros k Hk Sk Nk; destruct (decide (k = j)) as [->|]; [done|by apply Pj]|]. intros _ H0 Sp. apply Pj; lia.
  - split; [apply rearranged_refl|]. repeat split; try done; [|lia]. intros k Hk Sk Nk.
    destruct (decide (par k = i)) as [E|E]; [|by apply Ho]. unfold pair_ok. rewrite E. pose proof (Hmin k Hk E). lia.
Qed.

Lemma down_ok s l i n :
  (s <= i)%nat -> (i < n)%nat -> (n <= length l)%nat -> hole s l n i ->
  let '(l', moved) := down l i n in
  rearranged l l' n /\ (moved = false -> l' = l) /\
  (forall j, (0 < j < n)%nat -> (s <= par j)%nat -> j <> i -> pair_ok l' j) /\
  (moved = true -> (0 < i)%nat -> (s <= par i)%nat -> pair_ok l' i).
Proof.
  intros Hs Hi Hn Ho. unfold down. pose proof (down_loop_ok (length l) s l i n Hs Hi Hn ltac:(lia) Ho) as D.
  destruct (down_loop (length l) l i n) as [l' i']. destruct D as (R & Hi' & E & P & Pm).
  split; [done|]. destruct (Nat.ltb_spec i i'); (split; [intros ?; try done; apply E; lia|]); (split; [done|]); intros ?; [auto|done].
Qed.

(** When the hole is at the first parent, the order is restored. *)
Lemma down_heap l i n : (i < n)%nat -> (n <= length l)%nat -> heap_from (S i) l n ->
  rearranged l (down l i n).1 n /\ heap_from i (down l i n).1 n.
Proof.
  intros Hi Hn Hh. pose proof (down_ok i l i n ltac:(lia) Hi Hn) as D. destruct (down l i n) as [l' moved]. cbn.
  destruct D as (R & _ & P & _); [split|split; [done|]].
  - intros j Hj Sj Nj _. apply Hh; lia.
  - intros j Hj Ej Hi0 Sj. pose proof (par_lt i Hi0). lia.
  - intros j Hj Sj. destruct (decide (j = i)) as [->|]; [pose proof (par_lt i ltac:(lia)); lia|by apply P].
Qed.

(** ** Moving up *)

Lemma up_ok fuel l j n :
  (j < n)%nat -> (n <= length l)%nat -> (j <= fuel)%nat ->
  (forall k, (0 < k < n)%nat -> k <> j -> pair_ok l k) ->
  (forall k, (0 < k < n)%nat -> par k = j -> (0 < j)%nat -> key (l !!! par j) <= key (l !!! k)) ->
  rearranged l (up fuel l j) n /\ heap_from 0 (up fuel l j) n.
Proof.
  revert l j. induction fuel as [|fuel IH]; intros l j Hj Hn Hf H1 H2; cbn [up].
  { split; [apply rearranged_refl|]. intros k Hk _. apply H1; lia. }
  destruct (decide (j = 0%nat)) as [->|Hj0].
  { change (par 0) with 0%nat. rewrite Nat.eqb_refl. cbn [orb]. split; [apply rearranged_refl|]. intros k Hk _. apply H1; lia. }
  pose proof (par_lt j ltac:(lia)) as Hp. rewrite (proj2 (Nat.eqb_neq _ _)) by lia. cbn [orb].
  set (i := par j) in *. destruct (less_spec l j i) as [L|L]; cbn [negb].
  2: { split; [apply rearranged_refl|]. intros k Hk _. destruct (decide (k = j)) as [->|]; [unfold pair_ok; fold i; lia|by apply H1]. }
  assert (K : forall k, key (swap l i j !!! k) = key (l !!! transpose i j k)) by (intros; apply swap_key; lia).
  destruct (IH (swap l i j) i) as [P Hh]; [lia|rewrite length_swap; lia|lia|..].
  - intros k Hk Nk. unfold pair_ok. rewrite !K. unfold transpose. rewrite (decide_False (P := k = i)) by done.
    destruct (decide (k = j)) as [->|Nkj].
    + fold i. rewrite (decide_True (P := i = i)) by done. lia.
    + destruct (decide (par k = i)) as [E|E].
      * pose proof (H1 k Hk Nkj) as Pk. unfold pair_ok in Pk. rewrite E in Pk. lia.
      * destruct (decide (par k = j)) as [E2|E2]; [|apply H1; done].
        exact (H2 k Hk E2 ltac:(lia)).
  - intros k Hk E Hi0. rewrite !K. unfold transpose. pose proof (par_lt i Hi0).
    rewrite (decide_False (P := par i = i)), (decide_False (P := par i = j)) by lia.
    pose proof (H1 i ltac:(lia) ltac:(lia)) as Pi. unfold pair_ok in Pi.
    pose proof (par_lt k ltac:(lia)). rewrite (decide_False (P := k = i)) by lia. destruct (decide (k = j)) as [->|Nkj]; [done|].
    pose proof (H1 k Hk Nkj) as Pk. unfold pair_ok in Pk. rewrite E in Pk. lia.
  - split; [|done]. eapply rearranged_trans; [|exact P]. apply swap_rearranged; lia.
Qed.

(** ** The operations *)

Lemma init_loop_ok i l n : n = length l -> (i <= n)%nat -> heap_from i l n ->
  init_loop i l n ≡ₚ l /\ heap_from 0 (init_loop i l n) n.
Proof.
  revert l. induction i as [|i IH]; intros l En Hi Hh; [done|]. cbn [init_loop].
  destruct (down_heap l i n ltac:(lia) ltac:(lia) Hh) as [R H']. destruct (IH (down l i n).1) as [P H2]; [|lia|done|].
  - by rewrite (rearranged_length _ _ _ R).
  - split; [|done]. rewrite P. apply R.
Qed.

Lemma Init_ok l : heap_Init l ≡ₚ l /\ is_heap (heap_Init l).
Proof.
  unfold heap_Init, is_heap. pose proof (Nat.div_mod (length l) 2 ltac:(lia)) as E. pose proof (Nat.mod_upper_bound (length l) 2 ltac:(lia)).
  destruct (init_loop_ok (length l / 2) l (length l)) as [P Hh]; [done|lia| |].
  - intros j Hj Sj. unfold par in Sj. pose proof (Nat.div_mod (j - 1) 2 ltac:(lia)). lia.
  - split; [done|]. by rewrite (Permutation_length P).
Qed.

Lemma Push_ok l x : is_heap l -> heap_Push l x ≡ₚ x :: l /\ is_heap (heap_Push l x).
Proof.
  intros Hh. assert (El : length (l ++ [x]) = S (length l)) by (rewrite length_app; cbn; lia).
  unfold heap_Push. destruct (up_ok (length l) (l ++ [x]) (length l) (S (length l))) as [P H']; [lia|lia|lia|..].
  - intros k Hk Nk. pose proof (par_lt k ltac:(lia)). unfold pair_ok. rewrite !lookup_total_app_l by lia. apply Hh; lia.
  - intros k Hk E _. pose proof (par_lt k ltac:(lia)). lia.
  - split; [rewrite (proj1 P); by rewrite Permutation_app_comm|]. unfold is_heap. by rewrite (rearranged_length _ _ _ P), El.
Qed.

(** The first element is the smallest. *)
Lemma heap_min l j : is_heap l -> (j < length l)%nat -> key (l !!! 0%nat) <= key (l !!! j).
Proof.
  intros Hh. induction j as [j IH] using lt_wf_ind. intros Hj. destruct (decide (j = 0%nat)) as [->|]; [lia|].
  pose proof (par_lt j ltac:(lia)). pose proof (IH (par j) ltac:(lia) ltac:(lia)). pose proof (Hh j ltac:(lia) ltac:(lia)) as P.
  unfold pair_ok in P. lia.
Qed.

Lemma heap_min_elem x l y : is_heap (x :: l) -> y ∈ x :: l -> key x <= key y.
Proof.
  intros Hh [j Hj]%list_elem_of_lookup. pose proof (lookup_lt_Some _ _ _ Hj). pose proof (heap_min (x :: l) j Hh ltac:(done)) as M.
  by rewrite (list_lookup_total_correct (x :: l) j y Hj) in M.
Qed.

(** Dropping the last element. *)
Lemma pop_last_ok l x l1 : l1 ≡ₚ l -> last l1 = Some x -> heap_from 0 l1 (length l - 1) ->
  exists l', pop_last l1 = Some (x, l') /\ x :: l' ≡ₚ l /\ is_heap l'.
Proof.
  intros P L Hh. unfold pop_last. rewrite L. apply last_Some in L as [l' ->]. eexists. split; [done|].
  rewrite length_app. cbn [length]. replace (length l' + 1 - 1)%nat with (length l') by lia. rewrite take_app_length.
  assert (Ln : (length l - 1)%nat = length l') by (rewrite <- P, length_app; cbn; lia).
  split; [rewrite <- P; by rewrite Permutation_app_comm|]. rewrite Ln in Hh. intros j Hj Sj. pose proof (Hh j Hj Sj) as Pj.
  unfold pair_ok in *. pose proof (par_lt j ltac:(lia)). by rewrite !lookup_total_app_l in Pj by lia.
Qed.

(** The last element stays where [down] leaves it. *)
Lemma last_rearranged l l1 n : rearranged l l1 n -> length l = S n -> last l1 = Some (l !!! n).
Proof.
  intros R E. rewrite last_lookup, (rearranged_length _ _ _ R), E. cbn. rewrite (proj2 R n ltac:(lia)).
  apply list_lookup_lookup_total_lt. lia.
Qed.

Lemma Pop_ok x l : is_heap (x :: l) -> exists l', heap_Pop (x :: l) = Some (x, l') /\ l' ≡ₚ l /\ is_heap l'.
Proof.
  intros Hh. set (l0 := x :: l) in *. assert (El : length l0 = S (length l)) by done.
  assert (Ep : heap_Pop l0 = pop_last (down (swap l0 0 (length l)) 0 (length l)).1).
  { unfold heap_Pop, l0. cbn [length]. by rewrite Nat.sub_succ, Nat.sub_0_r. }
  rewrite Ep. set (n := length l) in *. set (l1 := (down (swap l0 0 n) 0 n).1).
  assert (Rs : swap l0 0 n ≡ₚ l0) by (apply swap_perm; lia).
  assert (D : rearranged (swap l0 0 n) l1 n /\ heap_from 0 l1 n).
  { destruct (decide (n = 0%nat)) as [E0|].
    - unfold l1. rewrite E0. unfold down. rewrite length_swap, El, E0. cbn. split; [apply rearranged_refl|]. intros j Hj. lia.
    - apply down_heap; [lia|rewrite length_swap; lia|]. intros j Hj Sj. unfold pair_ok. rewrite !swap_at by lia.
      unfold transpose. pose proof (par_lt j ltac:(lia)).
      rewrite !decide_False by lia. apply Hh; lia. }
  destruct D as [R H1].
  destruct (pop_last_ok l0 x l1) as (l' & E & P & H').
  - rewrite (proj1 R). done.
  - rewrite (last_rearranged _ _ _ R) by (rewrite length_swap; lia). rewrite swap_at by lia. unfold transpose.
    destruct (decide (n = 0%nat)) as [->|]; [done|]. by rewrite decide_True.
  - by rewrite El, Nat.sub_succ, Nat.sub_0_r.
  - exists l'. split; [done|]. split; [|done]. by apply Permutation_cons_inv in P.
Qed.

(** Swapping an element with the last one leaves a hole. *)
Lemma swap_hole l i n : is_heap l -> length l = S n -> (i < n)%nat -> hole 0 (swap l i n) n i.
Proof.
  intros Hh El Hi. assert (K : forall k, (k < n)%nat -> k <> i -> swap l i n !!! k = l !!! k).
  { intros k Hk Nk. rewrite swap_at by lia. unfold transpose. by rewrite !decide_False by lia. }
  split.
  - intros j Hj _ Nj Nj'. pose proof (par_lt j ltac:(lia)). unfold pair_ok. rewrite !K by lia. apply Hh; lia.
  - intros j Hj Ej Hi0 _. pose proof (par_lt j ltac:(lia)). pose proof (par_lt i Hi0). rewrite !K by lia.
    pose proof (Hh j ltac:(lia) ltac:(lia)) as P1. pose proof (Hh i ltac:(lia) ltac:(lia)) as P2. unfold pair_ok in *. rewrite Ej in P1. lia.
Qed.

Lemma Remove_ok l i x : is_heap l -> l !! i = Some x ->
  exists l', heap_Remove l i = Some (x, l') /\ x :: l' ≡ₚ l /\ is_heap l'.
Proof.
  intros Hh Hx. pose proof (lookup_lt_Some _ _ _ Hx) as Hi. unfold heap_Remove. rewrite (proj2 (Nat.leb_gt _ _)) by done.
  destruct (length l) as [|n] eqn:El; [lia|]. rewrite Nat.sub_succ, Nat.sub_0_r.
  assert (Ln : (length l - 1)%nat = n) by lia. destruct (Nat.eqb_spec n i) as [<-|Hne].
  { apply pop_last_ok; [done| |rewrite Ln; intros j Hj Sj; apply Hh; lia]. by rewrite last_lookup, El. }
  assert (Sp : swap l i n ≡ₚ l) by (apply swap_perm; lia). pose proof (swap_hole l i n Hh El ltac:(lia)) as Ho.
  pose proof (down_ok 0 (swap l i n) i n ltac:(lia) ltac:(lia) ltac:(rewrite length_swap; lia) Ho) as D.
  assert (G : forall l1, rearranged (swap l i n) l1 n -> heap_from 0 l1 n -> exists l', pop_last l1 = Some (x, l') /\ x :: l' ≡ₚ l /\ is_heap l').
  { intros l1 R H1. apply pop_last_ok; [by rewrite (proj1 R)| |by rewrite Ln].
    rewrite (last_rearranged _ _ _ R) by (rewrite length_swap; lia). rewrite swap_at by lia. unfold transpose.
    rewrite decide_False, decide_True by lia. f_equal. by apply list_lookup_total_correct. }
  destruct (down (swap l i n) i n) as [l1 moved]. destruct D as (R & E & P & Pm). destruct moved.
  - apply G; [done|]. intros j Hj _. destruct (decide (j = i)) as [->|]; [apply Pm; lia|apply P; lia].
  - rewrite E in * by done. destruct (up_ok (length (swap l i n)) (swap l i n) i n) as [R' H']; rewrite ?length_swap; try lia.
    + intros k Hk Nk. apply P; lia.
    + intros k Hk Ek Hi0. apply Ho; lia.
    + rewrite length_swap in *. by apply G.
Qed.
End Heap.
