(* ===== verification/TxList.v ===== *)
(** * Transaction lists of one account (src/blockchainCore/tx_list.go)

    The nonce-indexed map with its heap and cached order, and the list of
    pending or queued transactions built on it.  Transactions are compared
    through their fields; a missing entry of the map reads as a nil pointer,
    [None].  Go ranges over a map in no particular order, which is the class
    [MapRange]; [sort.Sort] is a sort. *)

From stdpp Require Import sorting.
From S2P Require Import Prelude RlpEncode Helper StateTrie State Types Heap.

Class MapRange := {
  range : gmap Z Transaction -> list (Z * Transaction);
  range_perm m : range m ≡ₚ map_to_list m
}.

#[global] Instance some_range : MapRange := {| range := map_to_list; range_perm m := Permutation_refl _ |}.

Section TxList.
Context `{MapRange}.

(** ** The sorted map *)

Record txSortedMap := { items : gmap Z Transaction; index : list Z; cache : option (list Transaction) }.

Definition newTxSortedMap : txSortedMap := {| items := ∅; index := []; cache := None |}.

Definition nonce_key (n : Z) : Z := n.

Definition sm_Get (m : txSortedMap) (nonce : Z) : option Transaction := items m !! nonce.

Definition sm_Put (m : txSortedMap) (tx : Transaction) : txSortedMap :=
  let nonce := AccountNonce tx in
  let ix := match items m !! nonce with None => heap_Push nonce_key (index m) nonce | Some _ => index m end in
  {| items := <[nonce := tx]> (items m); index := ix; cache := None |}.

(** The loop of [Forward]; its fuel is the length of the heap. *)
Fixpoint forward_loop (fuel : nat) (its : gmap Z Transaction) (ix : list Z) (threshold : Z)
  : list (option Transaction) * gmap Z Transaction * list Z :=
  match fuel, ix with
  | S fuel, x :: _ =>
      if x <? threshold then
        match heap_Pop nonce_key ix with
        | Some (nonce, ix) =>
            let '(removed, its', ix) := forward_loop fuel (delete nonce its) ix threshold in
            (its !! nonce :: removed, its', ix)
        | None => ([], its, ix)
        end
      else ([], its, ix)
  | _, _ => ([], its, ix)
  end.

Definition sm_Forward (m : txSortedMap) (threshold : Z) : total (list (option Transaction) * txSortedMap) :=
  let '(removed, its, ix) := forward_loop (length (index m)) (items m) (index m) threshold in
  match cache m with
  | None => Ok (removed, {| items := its; index := ix; cache := None |})
  | Some c =>
      if (length c <? length removed)%nat then Panic
      else Ok (removed, {| items := its; index := ix; cache := Some (drop (length removed) c) |})
  end.

Definition sm_Filter (m : txSortedMap) (f : Transaction -> bool) : list Transaction * txSortedMap :=
  let '(removed, its) :=
    foldl (fun '(removed, its) '(nonce, tx) => if f tx then (removed ++ [tx], delete nonce its) else (removed, its))
      ([], items m) (range (items m)) in
  if (0 <? length removed)%nat then
    (removed, {| items := its; index := heap_Init nonce_key (map fst (range its)); cache := None |})
  else (removed, {| items := its; index := index m; cache := cache m |}).

Fixpoint cap_loop (k size : nat) (its : gmap Z Transaction) (ix : list Z) : total (list (option Transaction) * gmap Z Transaction) :=
  match k with
  | O => Ok ([], its)
  | S k =>
      match ix !! (size - 1)%nat with
      | None => Panic
      | Some n => let* (drops, its') := cap_loop k (size - 1) (delete n its) ix in Ok (its !! n :: drops, its')
      end
  end.

(** A negative limit runs into an index out of range. *)
Definition sm_Cap (m : txSortedMap) (threshold : Z) : total (list (option Transaction) * txSortedMap) :=
  let size := base.size (items m) in
  if Z.of_nat size <=? threshold then Ok ([], m)
  else if threshold <? 0 then Panic
  else
    let k := Z.to_nat threshold in
    let ix := merge_sort Z.le (index m) in
    let* (drops, its) := cap_loop (size - k) size (items m) ix in
    let ix := heap_Init nonce_key (take k ix) in
    match cache m with
    | None => Ok (drops, {| items := its; index := ix; cache := None |})
    | Some c =>
        if (length c <? length drops)%nat then Panic
        else Ok (drops, {| items := its; index := ix; cache := Some (take (length c - length drops) c) |})
    end.

Definition sm_Remove (m : txSortedMap) (nonce : Z) : bool * txSortedMap :=
  match items m !! nonce with
  | None => (false, m)
  | Some _ =>
      let ix :=
        match list_find (fun n => n = nonce) (index m) with
        | Some (i, _) => match heap_Remove nonce_key (index m) i with Some (_, ix) => ix | None => index m end
        | None => index m
        end in
      (true, {| items := delete nonce (items m); index := ix; cache := None |})
  end.

Fixpoint ready_loop (fuel : nat) (its : gmap Z Transaction) (ix : list Z) (next : Z)
  : list (option Transaction) * gmap Z Transaction * list Z :=
  match fuel, ix with
  | S fuel, x :: _ =>
      if x =? next then
        match heap_Pop nonce_key ix with
        | Some (_, ix) =>
            let '(ready, its', ix) := ready_loop fuel (delete next its) ix (u64 (next + 1)) in
            (its !! next :: ready, its', ix)
        | None => ([], its, ix)
        end
      else ([], its, ix)
  | _, _ => ([], its, ix)
  end.

Definition sm_Ready (m : txSortedMap) (start : Z) : list (option Transaction) * txSortedMap :=
  match index m with
  | [] => ([], m)
  | x :: _ =>
      if start <? x then ([], m)
      else
        let '(ready, its, ix) := ready_loop (length (index m)) (items m) (index m) x in
        (ready, {| items := its; index := ix; cache := None |})
  end.

Definition sm_Len (m : txSortedMap) : nat := base.size (items m).

Definition nonce_le (a b : Transaction) : Prop := AccountNonce a <= AccountNonce b.
#[global] Instance nonce_le_dec : RelDecision nonce_le := fun a b => decide (AccountNonce a <= AccountNonce b).

Definition sm_Flatten (m : txSortedMap) : list Transaction * txSortedMap :=
  let c := match cache m with Some c => c | None => merge_sort nonce_le (map snd (range (items m))) end in
  (c, {| items := items m; index := index m; cache := Some c |}).

(** ** The list *)

Record txList := { strict : bool; txs : txSortedMap; costcap : Z }.

Definition newTxList (strict : bool) : txList := {| strict := strict; txs := newTxSortedMap; costcap := 0 |}.

Definition with_txs (l : txList) (m : txSortedMap) : txList := {| strict := strict l; txs := m; costcap := costcap l |}.

Definition list_Add (l : txList) (tx : Transaction) : bool * option Transaction * txList :=
  let old := sm_Get (txs l) (AccountNonce tx) in
  match old with
  | Some o =>
      if Price tx <=? Price o then (false, None, l)
      else (true, old, {| strict := strict l; txs := sm_Put (txs l) tx; costcap := Z.max (costcap l) (Cost tx) |})
  | None => (true, old, {| strict := strict l; txs := sm_Put (txs l) tx; costcap := Z.max (costcap l) (Cost tx) |})
  end.

Definition list_Forward (l : txList) (threshold : Z) : total (list (option Transaction) * txList) :=
  let* (removed, m) := sm_Forward (txs l) threshold in Ok (removed, with_txs l m).

Definition lowest_nonce (removed : list Transaction) : Z :=
  foldl (fun lowest tx => if AccountNonce tx <? lowest then AccountNonce tx else lowest) (2 ^ 64 - 1) removed.

Definition list_Filter (l : txList) (threshold : Z) : list Transaction * list Transaction * txList :=
  if costcap l <=? threshold then ([], [], l)
  else
    let '(removed, m) := sm_Filter (txs l) (fun tx => threshold <? Cost tx) in
    if strict l && (0 <? length removed)%nat then
      let lowest := lowest_nonce removed in
      let '(invalids, m) := sm_Filter m (fun tx => lowest <? AccountNonce tx) in
      (removed, invalids, {| strict := strict l; txs := m; costcap := threshold |})
    else (removed, [], {| strict := strict l; txs := m; costcap := threshold |}).

Definition list_Cap (l : txList) (threshold : Z) : total (list (option Transaction) * txList) :=
  let* (drops, m) := sm_Cap (txs l) threshold in Ok (drops, with_txs l m).

Definition list_Remove (l : txList) (tx : Transaction) : bool * list Transaction * txList :=
  let nonce := AccountNonce tx in
  let '(removed, m) := sm_Remove (txs l) nonce in
  if negb removed then (false, [], with_txs l m)
  else if strict l then
    let '(invalids, m) := sm_Filter m (fun tx => nonce <? AccountNonce tx) in (true, invalids, with_txs l m)
  else (true, [], with_txs l m).

Definition list_Ready (l : txList) (start : Z) : list (option Transaction) * txList :=
  let '(ready, m) := sm_Ready (txs l) start in (ready, with_txs l m).

Definition list_Len (l : txList) : nat := sm_Len (txs l).
Definition list_Empty (l : txList) : bool := (list_Len l =? 0)%nat.

Definition list_Flatten (l : txList) : list Transaction * txList :=
  let '(c, m) := sm_Flatten (txs l) in (c, with_txs l m).
End TxList.
