(* ===== verification/TxListSpec.v ===== *)
(** * Transaction lists: index and cache against the map

    The heap of nonces holds exactly the nonces of the map and the cached order
    is the sorted list of its transactions, through every operation, so each
    operation acts as its description on the plain map.  The cost cap bounds the
    cost of every transaction, and lists in strict mode stay without gaps. *)

From stdpp Require Import sorting.
From S2P Require Import Prelude RlpEncode Helper StateTrie State Types Heap TxList.

(** ** Maps by nonce *)

Abbreviation nmap := (gmap Z Transaction).

(** The entries that satisfy a test. *)
Definition keep (P : Z -> Transaction -> bool) (m : nmap) : nmap := filter (fun kv => P kv.1 kv.2 = true) m.

Lemma keep_lookup P m n :
  keep P m !! n = match m !! n with Some tx => if P n tx then Some tx else None | None => None end.
Proof.
  unfold keep. destruct (m !! n) as [tx|] eqn:E.
  - destruct (P n tx) eqn:EP.
    + by apply map_lookup_filter_Some.
    + apply map_lookup_filter_None. right. intros x Hx. rewrite Hx in E. injection E as ->. cbn. by rewrite EP.
  - apply map_lookup_filter_None. by left.
Qed.

Lemma keep_Some P m n tx : keep P m !! n = Some tx <-> m !! n = Some tx /\ P n tx = true.
Proof. apply map_lookup_filter_Some. Qed.

Definition nonces_ok (m : nmap) : Prop := forall n tx, m !! n = Some tx -> AccountNonce tx = n /\ 0 <= n < 2 ^ 64.

Lemma nonces_ok_keep P m : nonces_ok m -> nonces_ok (keep P m).
Proof. intros N n tx [E _]%keep_Some. by apply N. Qed.

Lemma nonces_ok_delete n m : nonces_ok m -> nonces_ok (delete n m).
Proof. intros N k tx [_ E]%lookup_delete_Some. by apply N. Qed.

(** ** Lists of the transactions of a map *)

Definition nonce_lt (a b : Transaction) : Prop := AccountNonce a < AccountNonce b.

(** The transactions of the map, in any order and by increasing nonce. *)
Definition members (l : list Transaction) (m : nmap) : Prop := forall tx, tx ∈ l <-> m !! AccountNonce tx = Some tx.
Definition lists (l : list Transaction) (m : nmap) : Prop := NoDup l /\ members l m.
Definition sorted_of (l : list Transaction) (m : nmap) : Prop := StronglySorted nonce_lt l /\ members l m.

Lemma sorted_nodup l : StronglySorted nonce_lt l -> NoDup l.
Proof.
  induction 1 as [|x l S IH F]; [constructor|]. constructor; [|done]. intros Hx.
  pose proof (proj1 (Forall_forall _ _) F x Hx) as L. unfold nonce_lt in L. lia.
Qed.

Lemma sorted_lists l m : sorted_of l m -> lists l m.
Proof. intros [S M]. split; [by apply sorted_nodup|done]. Qed.

Lemma members_inj l m : members l m -> forall a b, a ∈ l -> b ∈ l -> AccountNonce a = AccountNonce b -> a = b.
Proof. intros M a b Ha%M Hb%M E. rewrite E in Ha. congruence. Qed.

Lemma lists_length l m : nonces_ok m -> lists l m -> length l = size m.
Proof.
  intros N [D M]. rewrite <- size_dom.
  assert (E : dom m = list_to_set (map AccountNonce l)).
  { apply set_eq. intros n. rewrite elem_of_dom, elem_of_list_to_set, list_elem_of_fmap. split.
    - intros [tx Htx]. destruct (N n tx Htx) as [En _]. exists tx. split; [done|]. apply M. by rewrite En.
    - intros (tx & -> & Htx%M). eauto. }
  rewrite E, size_list_to_set; [by rewrite length_map|].
  apply NoDup_fmap_2_strong; [|done]. intros a b Ha Hb. by eapply members_inj.
Qed.

Lemma sorted_unique l1 l2 m : sorted_of l1 m -> sorted_of l2 m -> l1 = l2.
Proof.
  intros [S1 M1] [S2 M2]. assert (P : forall tx, tx ∈ l1 <-> tx ∈ l2) by (intros; rewrite (M1 tx), (M2 tx); done).
  clear M1 M2. revert l2 S2 P. induction S1 as [|x l1 S1 IH F1]; intros l2 S2 P.
  { destruct l2 as [|y l2]; [done|]. assert (Hy : y ∈ @nil Transaction) by (apply P; left). by apply not_elem_of_nil in Hy. }
  destruct S2 as [|y l2 S2 F2]; [assert (Hx : x ∈ @nil Transaction) by (apply P; left); by apply not_elem_of_nil in Hx|].
  rewrite Forall_forall in F1, F2. assert (x = y) as ->.
  { assert (Hx : x ∈ y :: l2) by (apply P; left). assert (Hy : y ∈ x :: l1) by (apply P; left).
    apply elem_of_cons in Hx as [->|Hx]; [done|]. apply elem_of_cons in Hy as [->|Hy]; [done|].
    pose proof (F1 y Hy). pose proof (F2 x Hx). unfold nonce_lt in *. lia. }
  f_equal. apply IH; [done|]. intros tx. split; intros Ht.
  - assert (Hy : tx ∈ y :: l2) by (apply P; by right). apply elem_of_cons in Hy as [->|Hy]; [|done].
    pose proof (F1 y Ht). unfold nonce_lt in *. lia.
  - assert (Hy : tx ∈ y :: l1) by (apply P; by right). apply elem_of_cons in Hy as [->|Hy]; [|done].
    pose proof (F2 y Ht). unfold nonce_lt in *. lia.
Qed.

(** Go through the map in some order and sort. *)
Lemma range_lists `{MapRange} m : nonces_ok m -> lists (map snd (range m)) m.
Proof.
  intros N. pose proof (range_perm m) as P. split.
  - rewrite P. apply NoDup_fmap_2_strong; [|apply NoDup_map_to_list].
    intros [n a] [k b] Ha Hb. apply elem_of_map_to_list in Ha, Hb. cbn. intros ->.
    destruct (N n b Ha) as [<- _], (N k b Hb) as [<- _]. done.
  - intros tx. rewrite P, list_elem_of_fmap. split.
    + intros ([n t] & -> & Ht%elem_of_map_to_list). cbn. by destruct (N n t Ht) as [-> _].
    + intros E. exists (AccountNonce tx, tx). split; [done|]. by apply elem_of_map_to_list.
Qed.

#[global] Instance nonce_le_total : Total nonce_le.
Proof. intros a b. unfold nonce_le. lia. Qed.

Lemma sort_sorted l m : lists l m -> sorted_of (merge_sort nonce_le l) m.
Proof.
  intros [D M]. pose proof (merge_sort_Permutation nonce_le l) as P.
  assert (M' : members (merge_sort nonce_le l) m) by (intros tx; rewrite P; apply M). split; [|done].
  assert (S : StronglySorted nonce_le (merge_sort nonce_le l)).
  { apply StronglySorted_merge_sort; [|apply _]. intros a b c. unfold nonce_le. lia. }
  assert (D' : NoDup (merge_sort nonce_le l)) by by rewrite P.
  assert (I : forall a b, a ∈ merge_sort nonce_le l -> b ∈ merge_sort nonce_le l -> AccountNonce a = AccountNonce b -> a = b)
    by by eapply members_inj.
  clear - S D' I. induction S as [|x l' S IH F]; [constructor|]. inversion D' as [|? ? Hx D]; subst.
  constructor; [apply IH; [done|]; intros a b Ha Hb; apply I; by right|].
  rewrite Forall_forall in *. intros y Hy. pose proof (F y Hy) as L. unfold nonce_le, nonce_lt in *.
  destruct (Z.eq_dec (AccountNonce x) (AccountNonce y)) as [E|]; [|lia]. exfalso. apply Hx.
  rewrite (I x y); [done|left|by right|done].
Qed.

Lemma sorted_exists m : nonces_ok m -> exists l, sorted_of l m.
Proof. intros N. eexists. by apply sort_sorted, (range_lists (H := some_range)). Qed.

Lemma sorted_empty : sorted_of [] ∅.
Proof. split; [constructor|]. intros tx. rewrite lookup_empty. split; [by intros ?%not_elem_of_nil|done]. Qed.

(** Splitting a map at a nonce splits its sorted list. *)
Definition below (t n : Z) (_ : Transaction) : bool := n <? t.
Definition from_ (t n : Z) (_ : Transaction) : bool := t <=? n.

Lemma sorted_app r c m t : nonces_ok m -> sorted_of r (keep (below t) m) -> sorted_of c (keep (from_ t) m) -> sorted_of (r ++ c) m.
Proof.
  intros N [S1 M1] [S2 M2]. split.
  - apply StronglySorted_app_2; [|done|done]. intros a b Ha%M1 Hb%M2. apply keep_Some in Ha as [_ Ha], Hb as [_ Hb].
    unfold below, from_ in *. unfold nonce_lt. lia.
  - intros tx. rewrite elem_of_app, (M1 tx), (M2 tx), !keep_Some. unfold below, from_.
    destruct (Z.ltb_spec (AccountNonce tx) t), (Z.leb_spec t (AccountNonce tx)); try lia; intuition congruence.
Qed.

Lemma sorted_split l m t r : nonces_ok m -> sorted_of l m -> sorted_of r (keep (below t) m) ->
  exists c, l = r ++ c /\ sorted_of c (keep (from_ t) m).
Proof.
  intros N Sl Sr. destruct (sorted_exists (keep (from_ t) m)) as [c Sc]; [by apply nonces_ok_keep|].
  exists c. split; [|done]. apply (sorted_unique _ _ m); [done|]. by apply (sorted_app r c m t).
Qed.

(** ** The heap of nonces *)

(** The heap holds the nonces of the map. *)
Record index_ok (m : nmap) (ix : list Z) : Prop := {
  io_heap : is_heap nonce_key ix;
  io_nodup : NoDup ix;
  io_dom n : n ∈ ix <-> is_Some (m !! n)
}.

Lemma index_ok_length m ix : index_ok m ix -> length ix = size m.
Proof.
  intros [_ D I]. rewrite <- size_dom. replace (dom m) with (list_to_set ix : gset Z); [by rewrite size_list_to_set|].
  apply set_eq. intros n. by rewrite elem_of_list_to_set, elem_of_dom, I.
Qed.

Lemma index_ok_perm m ix ix' : is_heap nonce_key ix' -> ix' ≡ₚ ix -> NoDup ix -> (forall n, n ∈ ix <-> is_Some (m !! n)) -> index_ok m ix'.
Proof. intros Hh P D I. split; [done|by rewrite P|]. intros n. rewrite P. apply I. Qed.

Lemma index_push m ix n tx : index_ok m ix -> m !! n = None -> index_ok (<[n := tx]> m) (heap_Push nonce_key ix n).
Proof.
  intros [Hh D I] E. destruct (Push_ok nonce_key ix n Hh) as [P H']. apply (index_ok_perm _ (n :: ix)); [done|done|..].
  - constructor; [|done]. rewrite I, E. by intros [].
  - intros k. rewrite elem_of_cons, I, lookup_insert_is_Some. destruct (decide (n = k)); intuition congruence.
Qed.

(** Popping takes the lowest nonce out of the map. *)
Lemma index_pop m x ix : index_ok m (x :: ix) ->
  exists ix' tx, heap_Pop nonce_key (x :: ix) = Some (x, ix') /\ index_ok (delete x m) ix' /\ length ix' = length ix /\
    m !! x = Some tx /\ forall n, is_Some (m !! n) -> x <= n.
Proof.
  intros [Hh D I]. destruct (Pop_ok nonce_key x ix Hh) as (ix' & E & P & H'). inversion D as [|? ? Hx D']; subst.
  destruct (proj1 (I x) ltac:(left)) as [tx Htx]. exists ix', tx. split; [done|]. split; [|split; [by rewrite P|split; [done|]]].
  - apply (index_ok_perm _ ix); [done..|]. intros n. rewrite lookup_delete_is_Some, <- I, elem_of_cons. intuition congruence.
  - intros n Hn. apply (heap_min_elem nonce_key x ix n Hh). by apply I.
Qed.

Lemma index_remove m ix n i : index_ok m ix -> ix !! i = Some n ->
  exists ix', heap_Remove nonce_key ix i = Some (n, ix') /\ index_ok (delete n m) ix'.
Proof.
  intros [Hh D I] E. destruct (Remove_ok nonce_key ix i n Hh E) as (ix' & Er & P & H'). exists ix'. split; [done|].
  assert (D' : NoDup (n :: ix')) by by rewrite P. inversion D' as [|? ? Hn D2]; subst. split; [done|done|].
  intros k. rewrite lookup_delete_is_Some, <- I, <- P, elem_of_cons. intuition congruence.
Qed.

Lemma index_empty m : index_ok m [] -> m = ∅.
Proof. intros [_ _ I]. apply map_empty. intros n. apply eq_None_not_Some. rewrite <- I. apply not_elem_of_nil. Qed.

(** ** Well-formed sorted maps *)

Record wf (m : txSortedMap) : Prop := {
  wf_nonces : nonces_ok (items m);
  wf_index : index_ok (items m) (index m);
  wf_cache c : cache m = Some c -> sorted_of c (items m)
}.

Lemma new_wf : wf newTxSortedMap.
Proof.
  split; [intros n tx; cbn; by rewrite lookup_empty|cbn|done]. split; [intros j Hj; cbn in Hj; lia|constructor|].
  intros n. rewrite lookup_empty. split; [by intros ?%not_elem_of_nil|by intros []].
Qed.

Lemma Put_wf m tx : wf m -> 0 <= AccountNonce tx < 2 ^ 64 -> wf (sm_Put m tx).
Proof.
  intros [N I _] Hn. split; [|cbn|done].
  - intros n t. cbn. intros [[<- <-]|[_ E]]%lookup_insert_Some; [done|by apply N].
  - destruct (items m !! AccountNonce tx) as [o|] eqn:E; [|by apply index_push]. destruct I as [Hh D I]. split; [done|done|].
    intros n. rewrite I, lookup_insert_is_Some. destruct (decide (AccountNonce tx = n)) as [<-|]; [rewrite E|]; intuition eauto.
Qed.

(** ** Forward *)

Lemma keep_ext P Q m : (forall n tx, m !! n = Some tx -> P n tx = Q n tx) -> keep P m = keep Q m.
Proof. intros E. apply map_eq. intros n. rewrite !keep_lookup. destruct (m !! n) as [tx|] eqn:Em; [by rewrite (E n tx Em)|done]. Qed.

Lemma keep_all P m : (forall n tx, m !! n = Some tx -> P n tx = true) -> keep P m = m.
Proof. intros E. apply map_eq. intros n. rewrite keep_lookup. destruct (m !! n) as [tx|] eqn:Em; [by rewrite (E n tx Em)|done]. Qed.

Lemma keep_none P m : (forall n tx, m !! n = Some tx -> P n tx = false) -> keep P m = ∅.
Proof.
  intros E. apply map_eq. intros n. rewrite keep_lookup, lookup_empty. destruct (m !! n) as [tx|] eqn:Em; [by rewrite (E n tx Em)|done].
Qed.

Lemma keep_delete P m n : keep P (delete n m) = delete n (keep P m).
Proof.
  apply map_eq. intros k. rewrite keep_lookup. destruct (decide (n = k)) as [<-|Hne].
  - by rewrite !lookup_delete_eq.
  - by rewrite !lookup_delete_ne, keep_lookup by done.
Qed.

Lemma keep_keep P Q m : keep P (keep Q m) = keep (fun n tx => Q n tx && P n tx) m.
Proof.
  apply map_eq. intros n. rewrite !keep_lookup. destruct (m !! n) as [tx|]; [|done]. by destruct (Q n tx), (P n tx).
Qed.

(** The lowest transaction goes first. *)
Lemma sorted_cons tx r m :
  nonces_ok m -> m !! AccountNonce tx = Some tx -> (forall n, is_Some (m !! n) -> AccountNonce tx <= n) ->
  sorted_of r (delete (AccountNonce tx) m) -> sorted_of (tx :: r) m.
Proof.
  intros N E L [S M]. split.
  - constructor; [done|]. apply Forall_forall. intros y Hy%M. apply lookup_delete_Some in Hy as [Hne Hy].
    pose proof (L _ (mk_is_Some _ _ Hy)). unfold nonce_lt. lia.
  - intros y. rewrite elem_of_cons, (M y), lookup_delete_Some. split.
    + intros [->|[_ Hy]]; done.
    + intros Hy. destruct (Z.eq_dec (AccountNonce tx) (AccountNonce y)) as [En|]; [left; congruence|by right].
Qed.

Lemma forward_loop_ok fuel m ix t :
  nonces_ok m -> index_ok m ix -> (length ix <= fuel)%nat ->
  exists r ix', forward_loop fuel m ix t = (map Some r, keep (from_ t) m, ix') /\
    sorted_of r (keep (below t) m) /\ index_ok (keep (from_ t) m) ix'.
Proof.
  revert m ix. induction fuel as [|fuel IH]; intros m [|x ix] N I L; cbn [length] in L; try lia; cbn [forward_loop].
  1-2: pose proof (index_empty m I) as ->; exists [], []; rewrite !keep_none by (intros n tx E; by rewrite lookup_empty in E);
       split; [done|]; split; [apply sorted_empty|done].
  destruct (index_pop m x ix I) as (ix1 & tx & -> & I1 & L1 & Ex & Hmin).
  destruct (N x tx Ex) as [En _]. destruct (Z.ltb_spec x t) as [Lt|Ge].
  - destruct (IH (delete x m) ix1) as (r & ix' & -> & S & I'); [by apply nonces_ok_delete|done|lia|].
    assert (Ek : keep (from_ t) (delete x m) = keep (from_ t) m).
    { rewrite keep_delete, delete_id; [done|]. rewrite keep_lookup, Ex. unfold from_. by rewrite (proj2 (Z.leb_gt _ _)). }
    rewrite Ek in *. exists (tx :: r), ix'. split; [by rewrite Ex|]. split; [|done].
    apply sorted_cons; [by apply nonces_ok_keep| | |].
    + apply keep_Some. rewrite En. split; [done|]. by apply Z.ltb_lt.
    + intros n [y [Hy _]%keep_Some]. rewrite En. by apply Hmin.
    + by rewrite En, <- keep_delete.
  - assert (Hb : forall n y, m !! n = Some y -> t <= n) by (intros n y Hy; pose proof (Hmin n (mk_is_Some _ _ Hy)); lia).
    exists [], (x :: ix). rewrite keep_all by (intros n y Hy; apply Z.leb_le; by eapply Hb).
    rewrite keep_none by (intros n y Hy; apply Z.ltb_ge; by eapply Hb). split; [done|]. split; [apply sorted_empty|done].
Qed.

Lemma Forward_ok m t : wf m ->
  exists r m', sm_Forward m t = Ok (map Some r, m') /\ sorted_of r (keep (below t) (items m)) /\
    items m' = keep (from_ t) (items m) /\ wf m'.
Proof.
  intros [N I C]. unfold sm_Forward.
  destruct (forward_loop_ok (length (index m)) (items m) (index m) t N I ltac:(lia)) as (r & ix' & -> & S & I').
  destruct (cache m) as [c|] eqn:Ec.
  - destruct (sorted_split c (items m) t r N (C c eq_refl) S) as (c' & -> & S').
    rewrite length_map, length_app, (proj2 (Nat.ltb_ge _ _)) by lia. rewrite drop_app_length. eexists r, _. split; [done|].
    split; [done|]. split; [done|]. split; [by apply nonces_ok_keep|done|]. by intros ? [= <-].
  - eexists r, _. split; [done|]. split; [done|]. split; [done|]. split; [by apply nonces_ok_keep|done|done].
Qed.

(** ** Filter *)

Section Filter.
Context `{MapRange}.

Lemma filter_loop_ok (f : Transaction -> bool) l removed (m : nmap) :
  NoDup l.*1 ->
  foldl (fun '(removed, its) '(nonce, tx) => if f tx then (removed ++ [tx], delete nonce its) else (removed, its)) (removed, m) l =
  (removed ++ map snd (filter (fun kv => f kv.2 = true) l), foldl (fun its kv => delete kv.1 its) m (filter (fun kv => f kv.2 = true) l)).
Proof.
  revert removed m. induction l as [|[n tx] l IH]; intros removed m D; [cbn; by rewrite app_nil_r|].
  cbn [foldl fmap list_fmap fst] in *. inversion D; subst. rewrite filter_cons. cbn [snd]. destruct (f tx); cbn [decide].
  - rewrite IH by done. rewrite decide_True by done. cbn. by rewrite <- app_assoc.
  - rewrite IH by done. by rewrite decide_False.
Qed.

Lemma foldl_delete_lookup (l : list (Z * Transaction)) (m : nmap) n :
  foldl (fun its kv => delete kv.1 its) m l !! n = if decide (n ∈ l.*1) then None else m !! n.
Proof.
  revert m. induction l as [|[k tx] l IH]; intros m; cbn [foldl fmap list_fmap fst]; [by rewrite decide_False by apply not_elem_of_nil|].
  rewrite IH. destruct (decide (n ∈ l.*1)) as [Hl|Hl]; [by rewrite decide_True by (by right)|].
  destruct (decide (k = n)) as [<-|Hne].
  - rewrite lookup_delete_eq, decide_True by (by left). done.
  - rewrite lookup_delete_ne, decide_False; [done| |done]. intros [->|?]%elem_of_cons; done.
Qed.

Lemma Filter_ok m f : wf m ->
  exists r m', sm_Filter m f = (r, m') /\ lists r (keep (fun _ tx => f tx) (items m)) /\
    items m' = keep (fun _ tx => negb (f tx)) (items m) /\ wf m'.
Proof.
  intros [N I C]. unfold sm_Filter. pose proof (range_perm (items m)) as P.
  assert (D : NoDup (range (items m)).*1) by (rewrite P; apply NoDup_fst_map_to_list).
  rewrite filter_loop_ok by done. cbn [app]. set (fl := filter (fun kv => f kv.2 = true) (range (items m))).
  assert (Hf : forall n tx, (n, tx) ∈ fl <-> items m !! n = Some tx /\ f tx = true).
  { intros n tx. unfold fl. rewrite list_elem_of_filter, P, elem_of_map_to_list. cbn. tauto. }
  assert (Ek : foldl (fun its kv => delete kv.1 its) (items m) fl = keep (fun _ tx => negb (f tx)) (items m)).
  { apply map_eq. intros n. rewrite foldl_delete_lookup, keep_lookup. destruct (items m !! n) as [tx|] eqn:E; [|by case_decide].
    case_decide as Hn.
    - apply list_elem_of_fmap in Hn as ([k t] & -> & [Ht F]%Hf). cbn in E. rewrite E in Ht. injection Ht as ->. by rewrite F.
    - destruct (f tx) eqn:F; [|done]. exfalso. apply Hn, list_elem_of_fmap. exists (n, tx). split; [done|]. by apply Hf. }
  rewrite Ek. assert (Lr : lists (map snd fl) (keep (fun _ tx => f tx) (items m))).
  { split.
    - apply NoDup_fmap_2_strong; [|apply NoDup_filter; rewrite P; apply NoDup_map_to_list].
      intros [n a] [k b] [Ha _]%Hf [Hb _]%Hf. cbn. intros ->. destruct (N n b Ha) as [<- _], (N k b Hb) as [<- _]. done.
    - intros tx. rewrite list_elem_of_fmap, keep_Some. split.
      + intros ([n t] & -> & [Ht F]%Hf). cbn. by destruct (N n t Ht) as [-> _].
      + intros E. exists (AccountNonce tx, tx). split; [done|]. by apply Hf. }
  set (m1 := keep (fun _ tx => negb (f tx)) (items m)) in *. assert (N1 : nonces_ok m1) by by apply nonces_ok_keep.
  destruct (Nat.ltb_spec 0 (length (map snd fl))) as [L|L]; eexists _, _; (split; [done|]); (split; [done|]); (split; [done|]).
  - split; [done| |done]. cbn. destruct (Init_ok nonce_key (map fst (range m1))) as [P' H'].
    pose proof (range_perm m1) as P1. apply (index_ok_perm _ (map fst (range m1))); [done|done|rewrite P1; apply NoDup_fst_map_to_list|].
    intros n. rewrite P1, list_elem_of_fmap. split.
    + intros ([k t] & -> & Ht%elem_of_map_to_list). cbn. eauto.
    + intros [t Ht]. exists (n, t). split; [done|]. by apply elem_of_map_to_list.
  - assert (Em : m1 = items m).
    { apply keep_all. intros n tx E. destruct (f tx) eqn:F; [|done]. exfalso. assert (Hn : (n, tx) ∈ fl) by by apply Hf.
      destruct fl as [|kv fl']; [by apply not_elem_of_nil in Hn|cbn in L; lia]. }
    rewrite Em. by split.
Qed.
End Filter.

(** ** Cap *)

Lemma sorted_snoc l tx m : nonces_ok m -> sorted_of (l ++ [tx]) m -> m !! AccountNonce tx = Some tx /\ sorted_of l (delete (AccountNonce tx) m).
Proof.
  intros N [S M]. assert (Ht : m !! AccountNonce tx = Some tx) by (apply M, elem_of_app; right; by left).
  split; [done|]. split; [by apply StronglySorted_app_1_l in S|].
  assert (D : NoDup (l ++ [tx])) by by apply sorted_nodup. apply NoDup_app in D as (_ & D & _).
  intros y. rewrite lookup_delete_Some, <- (M y), elem_of_app, list_elem_of_singleton. split.
  - intros Hy. split; [|by left]. intros E. assert (Em : m !! AccountNonce y = Some y) by (apply M, elem_of_app; by left).
    rewrite <- E, Ht in Em. injection Em as <-. apply (D tx Hy). by left.
  - intros [Hne [Hy| ->]]; done.
Qed.

Lemma cap_loop_ok l1 l2 rest m :
  nonces_ok m -> sorted_of (l1 ++ l2) m ->
  exists m1, cap_loop (length l2) (length (l1 ++ l2)) m (map AccountNonce (l1 ++ l2) ++ rest) = Ok (map Some (reverse l2), m1) /\
    sorted_of l1 m1 /\ nonces_ok m1.
Proof.
  revert rest m. induction l2 as [|tx l2 IH] using rev_ind; intros rest m N S.
  { exists m. rewrite app_nil_r in *. done. }
  rewrite app_assoc in S. destruct (sorted_snoc (l1 ++ l2) tx m N S) as [Et S'].
  destruct (IH (AccountNonce tx :: rest) (delete (AccountNonce tx) m)) as (m1 & E & S1 & N1); [by apply nonces_ok_delete|done|].
  exists m1. split; [|done].
  assert (Ei : map AccountNonce (l1 ++ l2 ++ [tx]) ++ rest = map AccountNonce (l1 ++ l2) ++ AccountNonce tx :: rest)
    by (rewrite app_assoc, (map_app _ (l1 ++ l2)), <- app_assoc; done).
  rewrite (length_app l2), app_assoc, (length_app (l1 ++ l2)). cbn [length]. rewrite !Nat.add_1_r. cbn [cap_loop].
  rewrite <- app_assoc, Ei, Nat.sub_succ, Nat.sub_0_r.
  rewrite list_lookup_middle by (by rewrite length_map). rewrite E. cbn. by rewrite Et, reverse_snoc.
Qed.

(** Sorting the heap gives the nonces of the sorted list. *)
Lemma sort_index m ix l : index_ok m ix -> nonces_ok m -> sorted_of l m -> merge_sort Z.le ix = map AccountNonce l.
Proof.
  intros [_ D I] N [S M]. assert (Dl : NoDup (map AccountNonce l)).
  { apply NoDup_fmap_2_strong; [|by apply sorted_nodup]. intros a b Ha Hb. by eapply members_inj. }
  apply (StronglySorted_unique Z.le).
  - apply StronglySorted_merge_sort; apply _.
  - clear -S. induction S as [|x l S IH F]; constructor; [done|]. apply Forall_map. eapply Forall_impl; [done|].
    intros y. unfold nonce_lt. cbn. lia.
  - rewrite merge_sort_Permutation. apply NoDup_Permutation; [done..|]. intros n. rewrite I, list_elem_of_fmap. split.
    + intros [tx Ht]. destruct (N n tx Ht) as [En _]. exists tx. split; [done|]. apply M. by rewrite En.
    + intros (tx & -> & Ht%M). eauto.
Qed.

Lemma index_of_sorted m l : nonces_ok m -> sorted_of l m -> index_ok m (heap_Init nonce_key (map AccountNonce l)).
Proof.
  intros N [S M]. destruct (Init_ok nonce_key (map AccountNonce l)) as [P Hh]. apply (index_ok_perm _ (map AccountNonce l)); [done|done| |].
  - apply NoDup_fmap_2_strong; [|by apply sorted_nodup]. intros a b Ha Hb. by eapply members_inj.
  - intros n. rewrite list_elem_of_fmap. split.
    + intros (tx & -> & Ht%M). eauto.
    + intros [tx Ht]. destruct (N n tx Ht) as [En _]. exists tx. split; [done|]. apply M. by rewrite En.
Qed.

Lemma Cap_ok m k : wf m -> 0 <= k ->
  exists kept drops m', sm_Cap m k = Ok (map Some drops, m') /\ wf m' /\ sorted_of (kept ++ reverse drops) (items m) /\
    sorted_of kept (items m') /\ (drops = [] \/ Z.of_nat (length kept) = k) /\ Z.of_nat (length kept) <= k.
Proof.
  intros W Hk. pose proof W as [N I C]. destruct (sorted_exists (items m) N) as [sl S].
  pose proof (lists_length sl _ N (sorted_lists _ _ S)) as Ls. unfold sm_Cap.
  destruct (Z.leb_spec (Z.of_nat (base.size (items m))) k) as [L|L].
  { exists sl, [], m. rewrite app_nil_r. split; [done|]. split; [done|]. split; [done|]. split; [done|]. split; [by left|]. rewrite Ls. done. }
  rewrite (proj2 (Z.ltb_ge _ _)) by done. rewrite (sort_index _ _ sl I N S).
  set (q := Z.to_nat k). set (l1 := take q sl). set (l2 := drop q sl).
  assert (Esl : sl = l1 ++ l2) by (symmetry; apply take_drop).
  assert (L1 : length l1 = q) by (unfold l1; rewrite length_take; unfold q in *; lia).
  assert (L2 : length l2 = (base.size (items m) - q)%nat) by (unfold l2; rewrite length_drop; lia).
  rewrite Esl in S. destruct (cap_loop_ok l1 l2 [] (items m) N S) as (m1 & E & S1 & N1).
  rewrite app_nil_r, L2, <- Esl, Ls in E. rewrite E. cbn [obind].
  assert (I1 : index_ok m1 (heap_Init nonce_key (take q (map AccountNonce sl)))).
  { rewrite firstn_map. by apply index_of_sorted. }
  exists l1, (reverse l2). rewrite reverse_involutive, L1. destruct (cache m) as [c|] eqn:Ec.
  - assert (c = l1 ++ l2) as -> by (apply (sorted_unique _ _ (items m)); [by apply C|done]).
    rewrite length_map, length_reverse, length_app, (proj2 (Nat.ltb_ge _ _)) by lia.
    rewrite Nat.add_sub, take_app_length. eexists. split; [done|]. split; [split; [done|done|by intros ? [= <-]]|].
    split; [done|]. split; [done|]. unfold q. lia.
  - eexists. split; [done|]. split; [split; [done|done|done]|]. split; [done|]. split; [done|]. unfold q. lia.
Qed.

(** ** Remove *)

Lemma Remove_sm_ok m n : wf m ->
  match items m !! n with
  | None => sm_Remove m n = (false, m)
  | Some _ => exists m', sm_Remove m n = (true, m') /\ items m' = delete n (items m) /\ wf m'
  end.
Proof.
  intros [N I C]. unfold sm_Remove. destruct (items m !! n) as [tx|] eqn:E; [|done].
  assert (Hn : n ∈ index m) by (apply (io_dom _ _ I); eauto).
  destruct (list_find_elem_of (fun k => k = n) (index m) n Hn eq_refl) as [[j x] Hf]. rewrite Hf.
  apply list_find_Some in Hf as (Hj & -> & _). destruct (index_remove _ _ _ _ I Hj) as (ix' & -> & I').
  eexists. split; [done|]. split; [done|]. split; [by apply nonces_ok_delete|done|done].
Qed.

(** ** Ready *)

Lemma ready_loop_ok fuel m ix next :
  nonces_ok m -> index_ok m ix -> (length ix <= fuel)%nat -> 0 <= next -> (forall n, is_Some (m !! n) -> next <= n) ->
  exists r k ix', ready_loop fuel m ix (u64 next) = (map Some r, keep (from_ (next + k)) m, ix') /\ 0 <= k /\
    sorted_of r (keep (below (next + k)) m) /\ (forall n, next <= n < next + k -> is_Some (m !! n)) /\ m !! (next + k) = None /\
    index_ok (keep (from_ (next + k)) m) ix'.
Proof.
  revert m ix next. induction fuel as [|fuel IH]; intros m [|x ix] next N I L H0 Hlow; cbn [length] in L; try lia; cbn [ready_loop].
  1-2: pose proof (index_empty m I) as ->; exists [], 0, []; rewrite !keep_none by (intros n tx E; by rewrite lookup_empty in E);
       split; [done|]; split; [done|]; split; [apply sorted_empty|]; split; [lia|]; split; [apply lookup_empty|done].
  destruct (index_pop m x ix I) as (ix1 & tx & -> & I1 & L1 & Ex & Hmin). destruct (N x tx Ex) as [En Rx].
  pose proof (Hlow x (mk_is_Some _ _ Ex)) as Hx. rewrite u64_small by lia. destruct (Z.eqb_spec x next) as [->|Hne].
  - destruct (IH (delete next m) ix1 (next + 1)) as (r & k & ix' & -> & Hk & S & Hr & Hn & I');
      [by apply nonces_ok_delete|done|lia|lia| |].
    { intros n Hn. apply lookup_delete_is_Some in Hn as [Hne Hn]. pose proof (Hlow n Hn). lia. }
    replace (next + 1 + k) with (next + (k + 1)) in * by lia.
    assert (Ek : keep (from_ (next + (k + 1))) (delete next m) = keep (from_ (next + (k + 1))) m).
    { rewrite keep_delete, delete_id; [done|]. rewrite keep_lookup, Ex. unfold from_. by rewrite (proj2 (Z.leb_gt _ _)) by lia. }
    rewrite Ek in *. exists (tx :: r), (k + 1), ix'. split; [by rewrite Ex|]. split; [lia|]. split; [|split; [|split; [|done]]].
    + apply sorted_cons; [by apply nonces_ok_keep| | |by rewrite En, <- keep_delete].
      * apply keep_Some. rewrite En. split; [done|]. apply Z.ltb_lt. lia.
      * intros n [y [Hy _]%keep_Some]. rewrite En. eauto.
    + intros n Hn'. destruct (Z.eq_dec n next) as [->|]; [eauto|]. specialize (Hr n ltac:(lia)). by apply lookup_delete_is_Some in Hr as [_ Hr].
    + by rewrite lookup_delete_ne in Hn by lia.
  - exists [], 0, (x :: ix). replace (next + 0) with next by lia. rewrite keep_all by (intros n y Hy; apply Z.leb_le; eauto).
    rewrite keep_none by (intros n y Hy; apply Z.ltb_ge; eauto). split; [done|]. split; [lia|]. split; [apply sorted_empty|]. split; [lia|].
    split; [|done]. destruct (m !! next) as [y|] eqn:Ey; [|done]. pose proof (Hmin next (mk_is_Some _ _ Ey)). lia.
Qed.

(** The lowest nonce of a map. *)
Definition lowest (m : nmap) (n : Z) : Prop := is_Some (m !! n) /\ forall k, is_Some (m !! k) -> n <= k.

(** Nothing, if the map has no nonce up to [start]; else the gapless run from the
    lowest nonce on. *)
Definition ready_spec (m : nmap) (start : Z) (r : list Transaction) (m' : nmap) : Prop :=
  (r = [] /\ m' = m /\ forall n, is_Some (m !! n) -> start < n) \/
  (exists n0 k, lowest m n0 /\ n0 <= start /\ 0 <= k /\ (forall n, n0 <= n < n0 + k -> is_Some (m !! n)) /\ m !! (n0 + k) = None /\
     sorted_of r (keep (below (n0 + k)) m) /\ m' = keep (from_ (n0 + k)) m).

Lemma Ready_ok m start : wf m ->
  exists r m', sm_Ready m start = (map Some r, m') /\ ready_spec (items m) start r (items m') /\ wf m'.
Proof.
  intros W. pose proof W as [N I C]. unfold sm_Ready. destruct (index m) as [|x ix] eqn:Ei.
  { exists [], m. split; [done|]. split; [|done]. left. split; [done|]. split; [done|]. intros n Hn.
    rewrite (index_empty _ I), lookup_empty in Hn. by destruct Hn. }
  destruct (index_pop _ _ _ I) as (_ & tx & _ & _ & _ & Ex & Hmin). destruct (Z.ltb_spec start x) as [L|L].
  { exists [], m. split; [done|]. split; [|done]. left. split; [done|]. split; [done|]. intros n Hn. pose proof (Hmin n Hn). lia. }
  destruct (N x tx Ex) as [_ Rx].
  destruct (ready_loop_ok (length (x :: ix)) (items m) (x :: ix) x N I ltac:(lia) ltac:(lia) Hmin) as (r & k & ix' & E & Hk & S & Hr & Hn & I').
  rewrite u64_small in E by lia. rewrite E. exists r. eexists. split; [done|]. split.
  - right. exists x, k. repeat split; eauto; try apply S; lia.
  - split; [by apply nonces_ok_keep|done|done].
Qed.

(** ** Flatten *)

Lemma Flatten_ok `{MapRange} m : wf m ->
  exists c m', sm_Flatten m = (c, m') /\ sorted_of c (items m) /\ items m' = items m /\ wf m'.
Proof.
  intros [N I C]. unfold sm_Flatten. set (c := match cache m with Some c => c | None => _ end).
  assert (S : sorted_of c (items m)).
  { unfold c. destruct (cache m) as [c'|] eqn:E; [by apply C|]. by apply sort_sorted, range_lists. }
  exists c. eexists. split; [done|]. split; [done|]. split; [done|]. split; [done|done|]. by intros ? [= <-].
Qed.

(** ** The list *)

Inductive lop :=
| LAdd (tx : Transaction)
| LForward (threshold : Z)
| LFilter (threshold : Z)
| LCap (threshold : Z)
| LRemove (tx : Transaction)
| LReady (start : Z)
| LFlatten.

Inductive lres :=
| RAdd (accepted : bool) (old : option Transaction)
| RTxs (l : list (option Transaction))
| RFilter (removed invalids : list Transaction)
| RRemove (found : bool) (invalids : list Transaction).

Definition lop_ok (o : lop) : Prop :=
  match o with LAdd tx => 0 <= AccountNonce tx < 2 ^ 64 | LCap k => 0 <= k | _ => True end.

Definition txs_of (l : txList) : nmap := items (txs l).

(** What each operation does to the map of transactions. *)
Definition lspec (strict : bool) (m : nmap) (o : lop) (r : lres) (m' : nmap) : Prop :=
  match o, r with
  | LAdd tx, RAdd accepted old =>
      if match m !! AccountNonce tx with Some o => Price tx <=? Price o | None => false end
      then accepted = false /\ old = None /\ m' = m
      else accepted = true /\ old = m !! AccountNonce tx /\ m' = <[AccountNonce tx := tx]> m
  | LForward t, RTxs l => exists r, l = map Some r /\ sorted_of r (keep (below t) m) /\ m' = keep (from_ t) m
  | LFilter t, RFilter removed invalids =>
      let dear (_ : Z) tx := t <? Cost tx in
      let after n (_ : Transaction) := strict && existsb (fun tx => AccountNonce tx <? n) removed in
      lists removed (keep dear m) /\
      lists invalids (keep (fun n tx => negb (dear n tx) && after n tx) m) /\
      m' = keep (fun n tx => negb (dear n tx) && negb (after n tx)) m
  | LCap k, RTxs l =>
      exists kept drops, l = map Some drops /\ sorted_of (kept ++ reverse drops) m /\ sorted_of kept m' /\
        (drops = [] \/ Z.of_nat (length kept) = k) /\ Z.of_nat (length kept) <= k
  | LRemove tx, RRemove found invalids =>
      match m !! AccountNonce tx with
      | None => found = false /\ invalids = [] /\ m' = m
      | Some _ =>
          let after n (_ : Transaction) := strict && (AccountNonce tx <? n) in
          found = true /\ lists invalids (keep after m) /\
          m' = delete (AccountNonce tx) (keep (fun n t => negb (after n t)) m)
      end
  | LReady start, RTxs l => exists r, l = map Some r /\ ready_spec m start r m'
  | LFlatten, RTxs l => exists r, l = map Some r /\ sorted_of r m /\ m' = m
  | _, _ => False
  end.

(** The map is well-formed and the cap bounds the cost of every transaction. *)
Definition list_wf (l : txList) : Prop :=
  wf (txs l) /\ forall n tx, txs_of l !! n = Some tx -> Cost tx <= costcap l.

Section Lists.
Context `{MapRange}.

Definition run_lop (l : txList) (o : lop) : total (lres * txList) :=
  match o with
  | LAdd tx => let '(accepted, old, l) := list_Add l tx in Ok (RAdd accepted old, l)
  | LForward t => let* (r, l) := list_Forward l t in Ok (RTxs r, l)
  | LFilter t => let '(removed, invalids, l) := list_Filter l t in Ok (RFilter removed invalids, l)
  | LCap k => let* (r, l) := list_Cap l k in Ok (RTxs r, l)
  | LRemove tx => let '(found, invalids, l) := list_Remove l tx in Ok (RRemove found invalids, l)
  | LReady s => let '(r, l) := list_Ready l s in Ok (RTxs r, l)
  | LFlatten => let '(r, l) := list_Flatten l in Ok (RTxs (map Some r), l)
  end.

(** An operation succeeds, keeps the list well-formed and meets its description. *)
Definition step_ok (l : txList) (o : lop) : Prop :=
  exists r l', run_lop l o = Ok (r, l') /\ list_wf l' /\ strict l' = strict l /\ lspec (strict l) (txs_of l) o r (txs_of l').

Lemma costs_sub (l : txList) (m' : nmap) :
  list_wf l -> (forall n tx, m' !! n = Some tx -> txs_of l !! n = Some tx) -> forall n tx, m' !! n = Some tx -> Cost tx <= costcap l.
Proof. intros [_ C] E n tx Ht. by eapply C, E. Qed.

Lemma Add_ok l tx : list_wf l -> lop_ok (LAdd tx) -> step_ok l (LAdd tx).
Proof.
  intros [W C] Hn. unfold step_ok. cbn [run_lop]. unfold list_Add, sm_Get. fold (txs_of l).
  assert (G : list_wf {| strict := strict l; txs := sm_Put (txs l) tx; costcap := Z.max (costcap l) (Cost tx) |}).
  { split; [by apply Put_wf|]. intros n t. cbn. intros [[<- <-]|[_ E]]%lookup_insert_Some; [lia|]. pose proof (C n t E). lia. }
  destruct (txs_of l !! AccountNonce tx) as [o|] eqn:E; [destruct (Price tx <=? Price o) eqn:Ep|];
    eexists _, _; (split; [done|]); (split; [done|]); (split; [done|]); cbn [lspec]; rewrite E, ?Ep; done.
Qed.

Lemma Forward_step l t : list_wf l -> step_ok l (LForward t).
Proof.
  intros Wl. pose proof Wl as [W C]. destruct (Forward_ok (txs l) t W) as (r & m' & E & S & Em & W'). unfold step_ok. cbn [run_lop]. unfold list_Forward.
  rewrite E. eexists _, _. split; [done|]. split; [split; [done|]|split; [done|]; cbn; eauto].
  apply (costs_sub l); [done|]. unfold txs_of. cbn. rewrite Em. intros n tx [Ht _]%keep_Some. done.
Qed.

Lemma lowest_after removed n : n < 2 ^ 64 -> (lowest_nonce removed <? n) = existsb (fun tx => AccountNonce tx <? n) removed.
Proof.
  intros Hn. unfold lowest_nonce.
  assert (E : forall acc, (foldl (fun lowest tx => if AccountNonce tx <? lowest then AccountNonce tx else lowest) acc removed <? n) =
    (acc <? n) || existsb (fun tx => AccountNonce tx <? n) removed).
  { induction removed as [|tx l IH]; intros acc; cbn; [by rewrite orb_false_r|]. rewrite IH.
    destruct (Z.ltb_spec (AccountNonce tx) acc), (Z.ltb_spec (AccountNonce tx) n), (Z.ltb_spec acc n); try lia; done. }
  rewrite E. by rewrite (proj2 (Z.ltb_ge (2 ^ 64 - 1) n)) by lia.
Qed.

Lemma lists_ext l m1 m2 : lists l m1 -> m1 = m2 -> lists l m2.
Proof. by intros L <-. Qed.

Lemma Filter_step l t : list_wf l -> step_ok l (LFilter t).
Proof.
  intros Wl. pose proof Wl as [W C]. pose proof (wf_nonces _ W) as N. unfold step_ok. cbn [run_lop]. unfold list_Filter.
  set (dear := fun (_ : Z) tx => t <? Cost tx).
  destruct (Z.leb_spec (costcap l) t) as [L|L].
  { assert (Hd : forall n tx, txs_of l !! n = Some tx -> dear n tx = false) by (intros n tx E; apply Z.ltb_ge; pose proof (C n tx E); lia).
    eexists _, _. split; [done|]. split; [done|]. split; [done|]. cbn. fold dear.
    assert (E0 : lists [] ∅) by (apply sorted_lists, sorted_empty). split; [|split].
    - by rewrite keep_none.
    - rewrite keep_none; [done|]. intros. cbn. by rewrite !andb_false_r.
    - rewrite keep_all; [done|]. intros n tx E. fold (dear n tx). rewrite (Hd n tx E). cbn. by rewrite andb_false_r. }
  destruct (Filter_ok (txs l) (fun tx => t <? Cost tx) W) as (removed & m1 & -> & Lr & E1 & W1).
  assert (R0 : forall n tx, keep (fun n tx => negb (dear n tx)) (txs_of l) !! n = Some tx -> Cost tx <= t).
  { intros n tx [_ Hd]%keep_Some. unfold dear in Hd. apply negb_true_iff, Z.ltb_ge in Hd. done. }
  destruct (strict l && (0 <? length removed)%nat) eqn:Es.
  - apply andb_true_iff in Es as [Es Hr]. destruct (Filter_ok m1 (fun tx => lowest_nonce removed <? AccountNonce tx) W1) as (invalids & m2 & -> & Li & E2 & W2).
    assert (En : forall n tx, txs_of l !! n = Some tx -> (lowest_nonce removed <? AccountNonce tx) = existsb (fun tx => AccountNonce tx <? n) removed).
    { intros n tx E. destruct (N n tx E) as [-> ?]. apply lowest_after. lia. }
    eexists _, _. split; [done|]. rewrite E1, keep_keep in Li, E2. split; [split; [done|]|split; [done|]].
    + cbn. unfold txs_of. cbn. rewrite E2, <- keep_keep. intros n tx [Ht _]%keep_Some. by eapply R0.
    + cbn. rewrite Es. fold dear. cbn [andb]. split; [done|]. split.
      * eapply lists_ext; [done|]. apply keep_ext. intros n tx E. by rewrite (En n tx E).
      * unfold txs_of. cbn. rewrite E2. apply keep_ext. intros n tx E. by rewrite (En n tx E).
  - eexists _, _. split; [done|]. split; [split; [done|]|split; [done|]].
    + unfold txs_of. cbn. rewrite E1. apply R0.
    + assert (Hf : forall n, strict l && existsb (fun tx => AccountNonce tx <? n) removed = false).
      { intros n. destruct (strict l); [|done]. cbn in *. by destruct removed. }
      cbn. fold dear. split; [done|]. split.
      * rewrite keep_none; [apply sorted_lists, sorted_empty|]. intros n tx _. by rewrite Hf, andb_false_r.
      * unfold txs_of. cbn. rewrite E1. apply keep_ext. intros n tx _. by rewrite Hf, andb_true_r.
Qed.

Lemma sorted_sub l m n tx : sorted_of l m -> nonces_ok m -> m !! n = Some tx -> tx ∈ l.
Proof. intros [_ M] N E. destruct (N n tx E) as [En _]. apply M. by rewrite En. Qed.

Lemma Cap_step l k : list_wf l -> lop_ok (LCap k) -> step_ok l (LCap k).
Proof.
  intros Wl Hk. pose proof Wl as [W C]. destruct (Cap_ok (txs l) k W Hk) as (kept & drops & m' & E & W' & S & S' & Hd).
  unfold step_ok. cbn [run_lop]. unfold list_Cap. rewrite E. eexists _, _. split; [done|].
  split; [split; [done|]|split; [done|]; cbn; exists kept, drops; by repeat split; try apply S; try apply S'; try apply Hd].
  apply (costs_sub l); [done|]. unfold txs_of. cbn. intros n tx Ht. pose proof (sorted_sub _ _ _ _ S' (wf_nonces _ W') Ht) as Hi.
  destruct (wf_nonces _ W' n tx Ht) as [<- _]. apply S, elem_of_app. by left.
Qed.

Lemma Remove_step l tx : list_wf l -> step_ok l (LRemove tx).
Proof.
  intros Wl. pose proof Wl as [W C]. pose proof (Remove_sm_ok (txs l) (AccountNonce tx) W) as R.
  unfold step_ok. cbn [run_lop lspec]. unfold list_Remove. fold (txs_of l) in *.
  destruct (txs_of l !! AccountNonce tx) as [o|] eqn:Eo; [destruct R as (m1 & -> & E1 & W1)|rewrite R]; cbn [negb].
  2: { eexists _, _. split; [done|]. split; [by split|]. by split. }
  assert (Sub : forall n t, items m1 !! n = Some t -> txs_of l !! n = Some t) by (rewrite E1; intros n t [_ Ht]%lookup_delete_Some; done).
  destruct (strict l) eqn:Es.
  - destruct (Filter_ok m1 (fun t => AccountNonce tx <? AccountNonce t) W1) as (invalids & m2 & -> & Li & E2 & W2).
    eexists _, _. split; [done|]. split; [split; [done|]|split; [done|]].
    + apply (costs_sub l); [done|]. unfold txs_of. cbn. rewrite E2. intros n t [Ht _]%keep_Some. by apply Sub.
    + split; [done|]. rewrite E1, keep_delete in Li, E2. pose proof (wf_nonces _ W) as N. split.
      * eapply lists_ext; [done|]. rewrite delete_id; [apply keep_ext; intros n t E; by destruct (N n t E) as [-> _]|].
        rewrite keep_lookup, Eo. destruct (N _ _ Eo) as [-> _]. by rewrite Z.ltb_irrefl.
      * unfold txs_of at 1. cbn. rewrite E2. f_equal. apply keep_ext. intros n t E. by destruct (N n t E) as [-> _].
  - eexists _, _. split; [done|]. split; [split; [done|]|split; [done|]].
    + apply (costs_sub l); [done|]. done.
    + split; [done|]. cbn [andb]. rewrite keep_none by done. split; [apply sorted_lists, sorted_empty|].
      unfold txs_of at 1. cbn. by rewrite E1, keep_all.
Qed.

Lemma Ready_step l s : list_wf l -> step_ok l (LReady s).
Proof.
  intros Wl. pose proof Wl as [W C]. destruct (Ready_ok (txs l) s W) as (r & m' & E & S & W').
  unfold step_ok. cbn [run_lop]. unfold list_Ready. rewrite E. eexists _, _. split; [done|].
  split; [split; [done|]|split; [done|]; cbn; eauto]. apply (costs_sub l); [done|]. unfold txs_of. cbn.
  destruct S as [(_ & -> & _)|(n0 & k & _ & _ & _ & _ & _ & _ & ->)]; [done|]. intros n t [Ht _]%keep_Some. done.
Qed.

Lemma Flatten_step l : list_wf l -> step_ok l LFlatten.
Proof.
  intros Wl. pose proof Wl as [W C]. destruct (Flatten_ok (txs l) W) as (c & m' & E & S & Em & W').
  unfold step_ok. cbn [run_lop]. unfold list_Flatten. rewrite E. eexists _, _. split; [done|].
  split; [split; [done|]|split; [done|]; cbn; exists c; unfold txs_of; cbn; by rewrite Em].
  apply (costs_sub l); [done|]. unfold txs_of. cbn. by rewrite Em.
Qed.

Lemma step_all l o : list_wf l -> lop_ok o -> step_ok l o.
Proof.
  destruct o; intros W O; [by apply Add_ok|by apply Forward_step|by apply Filter_step|by apply Cap_step|by apply Remove_step|
    by apply Ready_step|by apply Flatten_step].
Qed.

Lemma new_list_wf b : list_wf (newTxList b).
Proof. split; [apply new_wf|]. intros n tx. unfold txs_of. cbn. by rewrite lookup_empty. Qed.

(** ** Sequences of operations *)

Fixpoint run_lops (l : txList) (os : list lop) : total (list lres * txList) :=
  match os with
  | [] => Ok ([], l)
  | o :: os => let* (r, l) := run_lop l o in let* (rs, l) := run_lops l os in Ok (r :: rs, l)
  end.




(** ** Strict lists *)

Definition gapless (m : nmap) : Prop :=
  forall a b n, is_Some (m !! a) -> is_Some (m !! b) -> a <= n <= b -> is_Some (m !! n).

(** A transaction that replaces one or extends the run at an end. *)
Definition adjacent (m : nmap) (o : lop) : Prop :=
  match o with
  | LAdd tx => let n := AccountNonce tx in m = ∅ \/ is_Some (m !! n) \/ is_Some (m !! (n - 1)) \/ is_Some (m !! (n + 1))
  | _ => True
  end.

Lemma gapless_add m n tx : gapless m -> m = ∅ \/ is_Some (m !! n) \/ is_Some (m !! (n - 1)) \/ is_Some (m !! (n + 1)) ->
  gapless (<[n := tx]> m).
Proof.
  intros G Ha a b k. rewrite !lookup_insert_is_Some. intros A B L. destruct (Z.eq_dec n k) as [|Nk]; [by left|]. right. split; [done|].
  destruct Ha as [->|Ha]; [rewrite !lookup_empty in A, B; exfalso; destruct A as [->|[_ []]], B as [->|[_ []]]; try done; lia|].
  assert (Gk : forall x y, is_Some (m !! x) -> is_Some (m !! y) -> x <= k <= y -> is_Some (m !! k)) by (intros x y; apply G).
  destruct A as [->|[_ A]], B as [->|[_ B]]; [lia| | |exact (Gk a b A B L)].
  - destruct Ha as [Ha|[Ha|Ha]]; eapply (Gk _ b Ha B); lia.
  - destruct Ha as [Ha|[Ha|Ha]]; eapply (Gk a _ A Ha); lia.
Qed.

Lemma gapless_keep P m :
  gapless m -> (forall a b ta tb, m !! a = Some ta -> m !! b = Some tb -> a <= b -> P b tb = true -> P a ta = true) \/
    (forall a b ta tb, m !! a = Some ta -> m !! b = Some tb -> a <= b -> P a ta = true -> P b tb = true) -> gapless (keep P m).
Proof.
  intros G Hp a b n [ta [Ha Pa]%keep_Some] [tb [Hb Pb]%keep_Some] L.
  destruct (G a b n ltac:(eauto) ltac:(eauto) L) as [t Ht]. exists t. apply keep_Some. split; [done|].
  destruct Hp as [Hp|Hp]; [by apply (Hp n b t tb Ht Hb ltac:(lia))|by apply (Hp a n ta t Ha Ht ltac:(lia))].
Qed.

Lemma gapless_cap kept rest m m' : nonces_ok m -> nonces_ok m' -> sorted_of (kept ++ rest) m -> sorted_of kept m' -> gapless m -> gapless m'.
Proof.
  intros N N' [S M] S' G a b n [ta Ha] [tb Hb] L. pose proof (sorted_sub _ _ _ _ S' N' Ha) as Ka. pose proof (sorted_sub _ _ _ _ S' N' Hb) as Kb.
  destruct (N' a ta Ha) as [<- _], (N' b tb Hb) as [<- _].
  assert (Ma : m !! AccountNonce ta = Some ta) by (apply M, elem_of_app; by left).
  assert (Mb : m !! AccountNonce tb = Some tb) by (apply M, elem_of_app; by left).
  destruct (G _ _ n (mk_is_Some _ _ Ma) (mk_is_Some _ _ Mb) L) as [t Ht]. destruct (N n t Ht) as [<- _]. exists t. apply S'.
  apply M, elem_of_app in Ht as [|Hr]; [done|]. exfalso.
  pose proof (StronglySorted_app_1_elem_of nonce_lt kept rest tb t S Kb Hr) as X. unfold nonce_lt in X. lia.
Qed.

Lemma lspec_gapless m o r m' :
  nonces_ok m -> nonces_ok m' -> gapless m -> adjacent m o -> lspec true m o r m' -> gapless m'.
Proof.
  intros N N' G Ad. destruct o as [tx|t|t|k|tx|s|], r as [accepted old|l|removed invalids|found invalids]; try done; cbn [lspec adjacent] in *.
  - destruct (match m !! AccountNonce tx with Some _ => _ | None => _ end); intros (_ & _ & ->); [done|by apply gapless_add].
  - intros (r & _ & _ & ->). apply gapless_keep; [done|]. right. intros a b ta tb _ _ L. unfold from_. lia.
  - intros ((_ & Mr) & _ & ->). apply gapless_keep; [done|]. left. intros a b ta tb Ha Hb L.
    rewrite !andb_true_iff, !negb_true_iff. cbn [andb]. intros [Db Eb]. rewrite <- not_true_iff_false, existsb_exists in Eb.
    assert (Ea : forall x, x ∈ removed -> a <= AccountNonce x).
    { intros x Hx. destruct (Z.ltb_spec (AccountNonce x) a); [|done]. exfalso. apply Eb. exists x. split; [by apply list_elem_of_In|].
      apply Z.ltb_lt. lia. }
    split; [|rewrite <- not_true_iff_false, existsb_exists; intros (x & Hx%list_elem_of_In%Ea & Lx); lia].
    destruct (Z.ltb_spec t (Cost ta)) as [D|]; [|done]. exfalso.
    assert (Ht : ta ∈ removed) by (apply Mr, keep_Some; destruct (N a ta Ha) as [-> _]; split; [done|by apply Z.ltb_lt]).
    destruct (N a ta Ha) as [Na _]. destruct (Z.eq_dec a b) as [->|]; [rewrite Ha in Hb; injection Hb as ->; lia|].
    apply Eb. exists ta. split; [by apply list_elem_of_In|]. apply Z.ltb_lt. lia.
  - intros (kept & drops & _ & S & S' & _). exact (gapless_cap kept (reverse drops) m m' N N' S S' G).
  - destruct (m !! AccountNonce tx) as [t0|] eqn:E; [|by intros (_ & _ & ->)]. intros (_ & _ & ->). cbn [andb].
    assert (Ed : delete (AccountNonce tx) (keep (fun n _ => negb (AccountNonce tx <? n)) m) = keep (below (AccountNonce tx)) m).
    { apply map_eq. intros n. destruct (Z.eq_dec (AccountNonce tx) n) as [<-|Hne].
      - rewrite lookup_delete_eq, keep_lookup, E. unfold below. by rewrite Z.ltb_irrefl.
      - rewrite lookup_delete_ne, !keep_lookup by done. destruct (m !! n); [|done]. unfold below.
        destruct (Z.ltb_spec (AccountNonce tx) n), (Z.ltb_spec n (AccountNonce tx)); try lia; done. }
    rewrite Ed. apply gapless_keep; [done|]. left. intros a b ta tb _ _ L. unfold below. lia.
  - intros (r & _ & [(_ & -> & _)|(n0 & k & _ & _ & _ & _ & _ & _ & ->)]); [done|].
    apply gapless_keep; [done|]. right. intros a b ta tb _ _ L. unfold from_. lia.
  - by intros (r & _ & _ & ->).
Qed.

(** Every addition in a run is next to a transaction of the list. *)
Fixpoint adjacents (l : txList) (os : list lop) : Prop :=
  match os with
  | [] => True
  | o :: os => adjacent (txs_of l) o /\ match run_lop l o with Ok (_, l) => adjacents l os | _ => True end
  end.

Lemma strict_run l os rs l' :
  list_wf l -> strict l = true -> gapless (txs_of l) -> Forall lop_ok os -> adjacents l os -> run_lops l os = Ok (rs, l') -> gapless (txs_of l').
Proof.
  intros W Es G F. revert l rs W Es G. induction F as [|o os Ho F IH]; intros l rs W Es G; cbn [run_lops adjacents].
  { by intros _ [= _ <-]. }
  destruct (step_all l o W Ho) as (r & l1 & E & W1 & Es1 & S). rewrite E. cbn [obind]. intros [Ad Ads].
  destruct (run_lops l1 os) as [[rs1 l2]| |] eqn:E2; try done. cbn [obind]. intros [= _ <-].
  eapply (IH l1); [done|congruence| |done|done]. rewrite Es in S.
  eapply lspec_gapless; [apply (wf_nonces _ (proj1 W))|apply (wf_nonces _ (proj1 W1))|done..].
Qed.

(** A list in strict mode has no gaps.  As long as every transaction added
    replaces one of the list or continues it at an end, the nonces of the list
    stay an interval: whatever leaves the list takes everything after it along, or
    everything before. *)
Theorem strict_list_gapless os rs l :
  Forall lop_ok os -> adjacents (newTxList true) os -> run_lops (newTxList true) os = Ok (rs, l) -> gapless (txs_of l).
Proof.
  intros F A E. eapply (strict_run (newTxList true)); [apply new_list_wf|done| |done..].
  intros a b n [x Ha]. unfold txs_of in Ha. cbn in Ha. by rewrite lookup_empty in Ha.
Qed.
End Lists.

(** ** Witnesses *)

Definition tx_at (nonce price : Z) : Transaction := mkTx nonce price 21000 None 5 [] 27 1 1.



Definition strict_ops : list lop := [LAdd (tx_at 5 2); LAdd (tx_at 6 2); LAdd (tx_at 7 2); LRemove (tx_at 6 2)].
Definition strict_result : list lres * txList :=
  match run_lops (newTxList true) strict_ops with Ok r => r | _ => ([], newTxList true) end.

Lemma strict_list_gapless_witness : gapless (txs_of strict_result.2).
Proof.
  apply (strict_list_gapless strict_ops strict_result.1 strict_result.2).
  - repeat (constructor; [cbn; lia|]). constructor.
  - split; [by left|]. split; [right; right; left; by eexists|]. split; [right; right; left; by eexists|]. by split.
  - reflexivity.
Defined.
