(* ===== verification/Signing.v ===== *)
(** * Signatures and senders of transactions (src/blockchainCore/types/transaction_signing.go)

    The three signers with their hashes, public key recovery and the attachment
    of signatures, the sender with its cache, and the parts of
    [crypto/crypto.go] and [crypto/secp256k1/secp256.go] they call.

    Elliptic curve signing and recovery are C code of the library
    libsecp256k1, the class [Secp256k1] with the documented behaviour in
    [Secp256k1Laws].  Transactions are values; the cache of the sender is passed
    explicitly. *)

From S2P Require Import Prelude RlpEncode Helper Keccak Database StateTrie State Transition Types.

(** ** The curve *)

Definition N : Z := 0xfffffffffffffffffffffffffffffffebaaedce6af48a03bbfd25e8cd0364141.
Definition HalfN : Z := 0x7fffffffffffffffffffffffffffffff5d576e7357a4501ddfe92f46681b20a0.

Class Secp256k1 := {
  (** [secp256k1_ecdsa_sign_recoverable] and its serialization, with the random
      bytes for the nonce: the compact signature with the recovery id, or an
      invalid secret key *)
  ecdsa_sign : bytes -> bytes -> bytes -> option bytes;
  (** parsing and [secp256k1_ecdsa_recover]: the public key, uncompressed *)
  ecdsa_recover : bytes -> bytes -> option bytes;
  (** [secp256k1_ec_pubkey_create] *)
  ecdsa_pubkey : bytes -> bytes
}.

(** What the library documents: signatures are in lower-S form, with numbers
    below the order of the curve; recovery gives the public key of the secret
    key; a public key has 65 bytes and starts with 4. *)
Class Secp256k1Laws `{Secp256k1} := {
  sign_shape nonce msg key sig : length msg = 32%nat -> ecdsa_sign nonce msg key = Some sig ->
    bytes_ok sig /\ length sig = 65%nat /\ 1 <= SetBytes (take 32 sig) < N /\
    1 <= SetBytes (take 32 (drop 32 sig)) <= HalfN /\ sig !!! 64%nat < 4;
  sign_recover nonce msg key sig : length msg = 32%nat -> ecdsa_sign nonce msg key = Some sig ->
    ecdsa_recover msg sig = Some (ecdsa_pubkey key);
  pubkey_shape key : exists r, ecdsa_pubkey key = 4 :: r
}.

Inductive sig_error := ErrInvalidSig | ErrInvalidChainId | ErrRecover | ErrPublicKey | ErrSign.

(** ** Numbers *)

Definition BitLen (z : Z) : Z := if z =? 0 then 0 else Z.log2 (Z.abs z) + 1.
Definition Uint64 (z : Z) : Z := u64 (Z.abs z).

Definition isProtectedV (V : Z) : bool :=
  if BitLen V <=? 8 then let v := Uint64 V in negb (v =? 27) && negb (v =? 28) else true.

Definition deriveChainId (v : Z) : Z :=
  if BitLen v <=? 64 then
    let v := Uint64 v in if (v =? 27) || (v =? 28) then 0 else u64 (v - 35) / 2
  else (v - 35) / 2.

(** ** Signers *)

(** The product with the chain id is a pointer that [deriveSigner] leaves nil. *)
Inductive Signer :=
| FrontierSigner
| HomesteadSigner
| EIP155Signer (chainId : Z) (chainIdMul : option Z).

Definition NewSiotImpr1Signer (chainId : Z) : Signer := EIP155Signer chainId (Some (chainId * 2)).

Definition MakeSigner (config : ChainConfig) (blockNumber : Z) : Signer :=
  if IsSiotImpr1 config blockNumber then NewSiotImpr1Signer (ChainId config)
  else if IsHomestead config blockNumber then HomesteadSigner
  else FrontierSigner.

Definition deriveSigner (V : Z) : Signer :=
  if (0 <? BitLen V) && isProtectedV V then EIP155Signer (deriveChainId V) None else HomesteadSigner.

Definition signer_Equal (s s2 : Signer) : bool :=
  match s, s2 with
  | FrontierSigner, FrontierSigner | HomesteadSigner, HomesteadSigner => true
  | EIP155Signer c _, EIP155Signer c2 _ => c2 =? c
  | _, _ => false
  end.

Definition normaliseV (s : Signer) (v : Z) : outcome sig_error Z :=
  match s with
  | EIP155Signer chainId chainIdMul =>
      let stdV := (BitLen v <=? 8) && ((Uint64 v =? 27) || (Uint64 v =? 28)) in
      if (0 <? BitLen chainId) && negb stdV then
        match chainIdMul with Some mul => Ok (u8 (u64 (Uint64 (v - mul) - 35 + 27))) | None => Panic end
      else Ok (u8 (Uint64 v))
  | _ => Ok (u8 (Uint64 v))
  end.

Definition ValidateSignatureValues (v r s : Z) (homestead : bool) : bool :=
  if (r <? 1) || (s <? 1) then false
  else if homestead && (HalfN <? s) then false
  else if N <=? s then false
  else (r <? N) && ((v =? 27) || (v =? 28)).

Section Signing.
Context `{Hash256} `{Secp256k1}.

(** [secp256k1.RecoverPubkey] *)
Definition checkSignature (sig : bytes) : bool := (length sig =? 65)%nat && (sig !!! 64%nat <? 4).

Definition Ecrecover (hash sig : bytes) : option bytes :=
  if (length hash =? 32)%nat && checkSignature sig then ecdsa_recover hash sig else None.

(** [crypto.Sign] and [SignSiotchain]; the key is the number [D]. *)
Definition Sign (nonce data : bytes) (key : Z) : option bytes :=
  if (length data =? 32)%nat then ecdsa_sign nonce data (LeftPadBytes (Bytes key) 32) else None.

Definition SignSiotchain (nonce data : bytes) (key : Z) : option bytes :=
  match Sign nonce data key with
  | Some sig => Some (<[64%nat := u8 (sig !!! 64%nat + 27)]> sig)
  | None => None
  end.

Definition PubkeyToAddress (pub : bytes) : bytes := BytesToAddress (drop 12 (Keccak256 (drop 1 pub))).

(** ** Hashes to sign *)

Definition signed_fields (tx : Transaction) : list rval :=
  [VIface (TUint 64) (VInt (AccountNonce tx)); VIface TBigInt (VInt (Price tx)); VIface TBigInt (VInt (GasLimit tx));
   VIface (TPtr false (TByteArray 20)) (ptr_val (Recipient tx)); VIface TBigInt (VInt (Amount tx)); VIface TBytes (VBytes (Payload tx))].

Definition signer_Hash (s : Signer) (tx : Transaction) : bytes :=
  match s with
  | EIP155Signer chainId _ =>
      rlpHash (TSlice false TInterface)
        (VList (signed_fields tx ++ [VIface TBigInt (VInt chainId); VIface (TUint 64) (VInt 0); VIface (TUint 64) (VInt 0)]))
  | _ => rlpHash (TSlice false TInterface) (VList (signed_fields tx))
  end.

(** ** Public keys *)

(** The end of the three [PublicKey] methods.  The values of the signature are
    below the order of the curve, so they fit into 32 bytes. *)
Definition recover_key (v : Z) (tx : Transaction) (homestead : bool) (hash : bytes) : outcome sig_error bytes :=
  if negb (ValidateSignatureValues v (R tx) (S_ tx) homestead) then Err ErrInvalidSig
  else
    let r := Bytes (R tx) in
    let s := Bytes (S_ tx) in
    if (32 <? length r)%nat || (32 <? length s)%nat then Panic
    else
      let sig := (zeros (32 - length r) ++ r) ++ (zeros (32 - length s) ++ s) ++ [u8 (v - 27)] in
      match Ecrecover hash sig with
      | None => Err ErrRecover
      | Some pub => match pub with 4 :: _ => Ok pub | _ => Err ErrPublicKey end
      end.

Definition homestead_PublicKey (tx : Transaction) : outcome sig_error bytes :=
  if 8 <? BitLen (V tx) then Err ErrInvalidSig
  else recover_key (u8 (Uint64 (V tx))) tx true (signer_Hash HomesteadSigner tx).

Definition PublicKey (s : Signer) (tx : Transaction) : outcome sig_error bytes :=
  match s with
  | FrontierSigner =>
      if 8 <? BitLen (V tx) then Err ErrInvalidSig
      else recover_key (u8 (Uint64 (V tx))) tx false (signer_Hash FrontierSigner tx)
  | HomesteadSigner => homestead_PublicKey tx
  | EIP155Signer chainId _ =>
      if negb (isProtectedV (V tx)) then homestead_PublicKey tx
      else if negb (deriveChainId (V tx) =? chainId) then Err ErrInvalidChainId
      else let* v := normaliseV s (V tx) in recover_key v tx true (signer_Hash s tx)
  end.

(** ** Signing *)

Definition with_sig (tx : Transaction) (v r s : Z) : Transaction :=
  mkTx (AccountNonce tx) (Price tx) (GasLimit tx) (Recipient tx) (Amount tx) (Payload tx) v r s.

Definition WithSignature (s : Signer) (tx : Transaction) (sig : bytes) : outcome sig_error Transaction :=
  if negb (length sig =? 65)%nat then Panic
  else
    let r := SetBytes (take 32 sig) in
    let s_ := SetBytes (take 32 (drop 32 sig)) in
    let b := sig !!! 64%nat in
    match s with
    | EIP155Signer chainId chainIdMul =>
        if 0 <? BitLen chainId then
          match chainIdMul with Some mul => Ok (with_sig tx (u8 (b - 27 + 35) + mul) r s_) | None => Panic end
        else Ok (with_sig tx (SetBytes [b]) r s_)
    | _ => Ok (with_sig tx (SetBytes [b]) r s_)
    end.

Definition SignECDSA (nonce : bytes) (s : Signer) (tx : Transaction) (key : Z) : outcome sig_error Transaction :=
  match SignSiotchain nonce (signer_Hash s tx) key with
  | None => Err ErrSign
  | Some sig => WithSignature s tx sig
  end.

(** ** Senders *)

(** The cache of a transaction: the signer and the address it gave. *)
Definition sigCache : Type := option (Signer * bytes).

Definition Sender (signer : Signer) (tx : Transaction) (cache : sigCache) : outcome sig_error bytes * sigCache :=
  let derive :=
    match PublicKey signer tx with
    | Ok pub => let addr := take 20 (drop 12 (Keccak256 (drop 1 pub))) in (Ok addr, Some (signer, addr))
    | Err e => (Err e, cache)
    | Panic => (Panic, cache)
    end in
  match cache with
  | Some (s, from) => if signer_Equal s signer then (Ok from, cache) else derive
  | None => derive
  end.

Definition AsMessage (s : Signer) (tx : Transaction) (cache : sigCache) : outcome sig_error Message * sigCache :=
  let '(from, cache) := Sender s tx cache in
  (match from with
   | Ok from =>
       Ok {| From := from; To := Recipient tx; GasPrice := Price tx; Gas := GasLimit tx; Value := Amount tx;
             MsgNonce := AccountNonce tx; CheckNonce := true; Data := Payload tx |}
   | Err e => Err e
   | Panic => Panic
   end, cache).
End Signing.
