(* ===== verification/SigningSpec.v ===== *)
(** * Signatures and senders: round trip, replay protection, binding

    A transaction signed with a key has the address of the key as its sender,
    whatever the cache holds; a signature made for one chain is refused on every
    other; the hash that is signed binds the content and the chain. *)

From S2P Require Import Prelude RlpEncode RlpRaw RlpStream Helper Keccak Database StateTrie State Transition Types TypesSpec Signing.

(** ** Numbers *)

Lemma BitLen_small z k : 0 <= k -> 0 <= z < 2 ^ k -> BitLen z <= k.
Proof.
  intros Hk Hz. unfold BitLen. destruct (Z.eqb_spec z 0); [done|]. rewrite Z.abs_eq by lia.
  assert (Z.log2 z < k) by (apply Z.log2_lt_pow2; lia). lia.
Qed.

Lemma BitLen_large z k : 0 <= k -> 0 <= z -> BitLen z <= k -> z < 2 ^ k.
Proof.
  intros Hk Hz. unfold BitLen. destruct (Z.eqb_spec z 0); [intros _; subst; by apply Z.pow_pos_nonneg|]. rewrite Z.abs_eq by lia.
  intros L. apply Z.log2_lt_pow2; lia.
Qed.

Lemma BitLen_pos z : z <> 0 -> 0 < BitLen z.
Proof. intros Hz. unfold BitLen. rewrite (proj2 (Z.eqb_neq _ _)) by done. pose proof (Z.log2_nonneg (Z.abs z)). lia. Qed.

Lemma Uint64_small z : 0 <= z < 2 ^ 64 -> Uint64 z = z.
Proof. intros. unfold Uint64. rewrite Z.abs_eq by lia. by apply u64_small. Qed.

Lemma SetBytes_zeros n b : SetBytes (zeros n ++ b) = SetBytes b.
Proof.
  rewrite SetBytes_app. assert (E : SetBytes (zeros n) = 0); [|rewrite E; lia].
  induction n as [|n IH]; [done|]. cbn [zeros replicate]. rewrite SetBytes_cons. fold (zeros n). rewrite IH. lia.
Qed.

(** The padded bytes of a number read from 32 bytes. *)
Lemma pad_SetBytes b : bytes_ok b -> length b = 32%nat ->
  (length (Bytes (SetBytes b)) <= 32)%nat /\ zeros (32 - length (Bytes (SetBytes b))) ++ Bytes (SetBytes b) = b.
Proof.
  intros Hb Hl. pose proof (SetBytes_range b Hb) as Rg. rewrite Hl in Rg.
  assert (L : (length (Bytes (SetBytes b)) <= 32)%nat) by (by apply Bytes_length). split; [done|].
  apply SetBytes_inj; [|done| |].
  - apply Forall_app. split; [apply Forall_replicate; unfold byte_ok; lia|apply Bytes_ok].
  - rewrite length_app. unfold zeros. rewrite length_replicate. lia.
  - rewrite SetBytes_zeros. apply SetBytes_Bytes. lia.
Qed.

(** ** Signatures *)

Section Signing.
Context `{Hash256} `{Secp256k1Laws}.

(** The signers of [MakeSigner] on a chain with an id. *)
Definition signer_ok (s : Signer) : Prop :=
  match s with EIP155Signer c mul => 0 < c /\ mul = Some (c * 2) | _ => True end.

Lemma signer_Hash_length s tx : length (signer_Hash s tx) = 32%nat.
Proof. destruct s; cbn [signer_Hash]; unfold rlpHash; destruct (EncodeToBytes _ _); apply Keccak256_length. Qed.

(** The parts of a signature of the curve library. *)
Record signature (nonce msg : bytes) (key : Z) (r s recid : Z) : Prop := {
  sg_r : 1 <= r < N;
  sg_s : 1 <= s <= HalfN;
  sg_id : 0 <= recid < 4;
  sg_rlen : (length (Bytes r) <= 32)%nat;
  sg_slen : (length (Bytes s) <= 32)%nat;
  sg_recover : Ecrecover msg ((zeros (32 - length (Bytes r)) ++ Bytes r) ++ (zeros (32 - length (Bytes s)) ++ Bytes s) ++ [recid]) =
    Some (ecdsa_pubkey (LeftPadBytes (Bytes key) 32))
}.

Lemma sig_split sig : bytes_ok sig -> length sig = 65%nat ->
  sig = take 32 sig ++ take 32 (drop 32 sig) ++ [sig !!! 64%nat].
Proof.
  intros Hb Hl. rewrite <- (take_drop 32 sig) at 1. f_equal. rewrite <- (take_drop 32 (drop 32 sig)) at 1. f_equal.
  rewrite drop_drop. change (32 + 32)%nat with 64%nat.
  rewrite (drop_S sig (sig !!! 64%nat) 64) by (apply list_lookup_lookup_total_lt; lia). by rewrite drop_ge by lia.
Qed.

Lemma SignSiotchain_ok nonce msg key sig : length msg = 32%nat -> SignSiotchain nonce msg key = Some sig ->
  exists r s recid, signature nonce msg key r s recid /\ length sig = 65%nat /\
    SetBytes (take 32 sig) = r /\ SetBytes (take 32 (drop 32 sig)) = s /\ sig !!! 64%nat = recid + 27.
Proof.
  intros Hm. unfold SignSiotchain, Sign. rewrite Hm, Nat.eqb_refl. destruct (ecdsa_sign _ _ _) as [sg|] eqn:E; [|done]. intros [= <-].
  destruct (sign_shape _ _ _ _ Hm E) as (Hb & Hl & Hr & Hs & Hv). pose proof (sign_recover _ _ _ _ Hm E) as Rc.
  assert (Hv0 : 0 <= sg !!! 64%nat).
  { assert (Hx : sg !! 64%nat = Some (sg !!! 64%nat)) by (apply list_lookup_lookup_total_lt; lia).
    pose proof (proj1 (Forall_lookup _ _) Hb _ _ Hx) as X. unfold byte_ok in X. lia. }
  assert (Ht : bytes_ok (take 32 sg) /\ length (take 32 sg) = 32%nat) by (split; [by apply Forall_take|rewrite length_take; lia]).
  assert (Hd : bytes_ok (take 32 (drop 32 sg)) /\ length (take 32 (drop 32 sg)) = 32%nat)
    by (split; [by apply Forall_take, Forall_drop|rewrite length_take, length_drop; lia]).
  destruct (pad_SetBytes _ (proj1 Ht) (proj2 Ht)) as [L1 P1]. destruct (pad_SetBytes _ (proj1 Hd) (proj2 Hd)) as [L2 P2].
  exists (SetBytes (take 32 sg)), (SetBytes (take 32 (drop 32 sg))), (sg !!! 64%nat).
  split; [split; try done|split; [by rewrite length_insert|split; [|split]]].
  - rewrite P1, P2, <- sig_split by done. unfold Ecrecover, checkSignature. rewrite Hm, Hl, !Nat.eqb_refl, (proj2 (Z.ltb_lt _ _)) by done.
    cbn [andb]. done.
  - by rewrite take_insert_ge by lia.
  - by rewrite drop_insert_ge, take_insert_ge by lia.
  - rewrite list_lookup_total_insert_eq by lia. unfold u8. apply Z.mod_small. lia.
Qed.

(** Recovering with the values of a signature of which the recovery id is 0 or 1. *)
Lemma recover_key_ok nonce msg key r s recid tx homestead :
  signature nonce msg key r s recid -> recid < 2 -> R tx = r -> S_ tx = s ->
  recover_key (recid + 27) tx homestead msg = Ok (ecdsa_pubkey (LeftPadBytes (Bytes key) 32)).
Proof.
  intros [Hr Hs Hi Lr Ls Rc] H2 Er Es. unfold recover_key. rewrite Er, Es.
  assert (HN : HalfN < N) by done. unfold ValidateSignatureValues.
  rewrite (proj2 (Z.ltb_ge r 1)), (proj2 (Z.ltb_ge s 1)), (proj2 (Z.ltb_ge HalfN s)), (proj2 (Z.leb_gt N s)), (proj2 (Z.ltb_lt r N)) by lia.
  rewrite andb_false_r. assert (Ev : (recid + 27 =? 27) || (recid + 27 =? 28) = true) by lia. rewrite Ev. cbn [orb andb negb].
  rewrite (proj2 (Nat.ltb_ge 32 _)), (proj2 (Nat.ltb_ge 32 _)) by done. cbn [orb].
  replace (u8 (recid + 27 - 27)) with recid by (unfold u8; rewrite Z.mod_small; lia). rewrite Rc.
  destruct (pubkey_shape (LeftPadBytes (Bytes key) 32)) as [q ->]. done.
Qed.
(** ** The values of V *)

Definition chain_V (c recid : Z) : Z := recid + 35 + c * 2.

Lemma chain_V_protected c recid : 0 < c -> 0 <= recid < 2 -> isProtectedV (chain_V c recid) = true.
Proof.
  intros Hc Hr. unfold isProtectedV. destruct (Z.leb_spec (BitLen (chain_V c recid)) 8) as [L|]; [|done].
  apply BitLen_large in L; [|lia|unfold chain_V; lia]. rewrite Uint64_small by (unfold chain_V in *; lia).
  unfold chain_V. apply andb_true_iff. split; apply negb_true_iff, Z.eqb_neq; lia.
Qed.

Lemma chain_V_id c recid : 0 < c -> 0 <= recid < 2 -> deriveChainId (chain_V c recid) = c.
Proof.
  intros Hc Hr. unfold deriveChainId. assert (E : (chain_V c recid - 35) / 2 = c).
  { symmetry. apply (Z.div_unique_pos _ 2 c recid); [lia|unfold chain_V; lia]. }
  destruct (Z.leb_spec (BitLen (chain_V c recid)) 64) as [L|]; [|done].
  apply BitLen_large in L; [|lia|unfold chain_V; lia]. rewrite Uint64_small by (unfold chain_V in *; lia).
  rewrite (proj2 (Z.eqb_neq _ 27)), (proj2 (Z.eqb_neq _ 28)) by (unfold chain_V; lia). cbn [orb].
  rewrite u64_small by (unfold chain_V in *; lia). done.
Qed.

Lemma chain_V_normal c recid : 0 < c -> 0 <= recid < 2 -> normaliseV (NewSiotImpr1Signer c) (chain_V c recid) = Ok (recid + 27).
Proof.
  intros Hc Hr. unfold normaliseV, NewSiotImpr1Signer. pose proof (chain_V_protected c recid Hc Hr) as P. unfold isProtectedV in P.
  assert (Es : (BitLen (chain_V c recid) <=? 8) && ((Uint64 (chain_V c recid) =? 27) || (Uint64 (chain_V c recid) =? 28)) = false).
  { destruct (BitLen (chain_V c recid) <=? 8); [|done]. cbn. by destruct (_ =? 27), (_ =? 28). }
  rewrite Es, (proj2 (Z.ltb_lt 0 (BitLen c))) by (apply BitLen_pos; lia). cbn [andb negb].
  unfold chain_V. replace (recid + 35 + c * 2 - c * 2) with (recid + 35) by lia. rewrite Uint64_small by lia.
  replace (recid + 35 - 35 + 27) with (recid + 27) by lia. rewrite u64_small by lia. f_equal. unfold u8. apply Z.mod_small. lia.
Qed.

(** The V of a signature without a chain. *)
Lemma plain_V recid : 0 <= recid < 2 -> (8 <? BitLen (recid + 27)) = false /\ u8 (Uint64 (recid + 27)) = recid + 27.
Proof.
  intros Hr. split; [apply Z.ltb_ge, BitLen_small; lia|]. rewrite Uint64_small by lia. unfold u8. apply Z.mod_small. lia.
Qed.

(** ** Round trip *)

Definition key_address (key : Z) : bytes := PubkeyToAddress (ecdsa_pubkey (LeftPadBytes (Bytes key) 32)).

Lemma PubkeyToAddress_take pub : take 20 (drop 12 (Keccak256 (drop 1 pub))) = PubkeyToAddress pub.
Proof.
  unfold PubkeyToAddress. pose proof (Keccak256_length (drop 1 pub)) as L. rewrite BytesToAddress_id by (rewrite length_drop; lia).
  apply take_ge. rewrite length_drop. lia.
Qed.

Lemma Sender_fresh s tx pub : PublicKey s tx = Ok pub -> (Sender s tx None).1 = Ok (PubkeyToAddress pub).
Proof. intros E. unfold Sender. rewrite E. cbn. by rewrite PubkeyToAddress_take. Qed.

(** What a signed transaction looks like. *)
Lemma SignECDSA_ok nonce s tx key tx' : signer_ok s -> SignECDSA nonce s tx key = Ok tx' ->
  exists r s_ recid sig, signature nonce (signer_Hash s tx) key r s_ recid /\
    SignSiotchain nonce (signer_Hash s tx) key = Some sig /\ sig !!! 64%nat = recid + 27 /\
    (recid < 2 -> tx' = with_sig tx (match s with EIP155Signer c _ => chain_V c recid | _ => recid + 27 end) r s_).
Proof.
  intros Hs. unfold SignECDSA. destruct (SignSiotchain _ _ _) as [sig|] eqn:E; [|done].
  destruct (SignSiotchain_ok _ _ _ _ (signer_Hash_length s tx) E) as (r & s_ & recid & Sg & Hl & Er & Es & Ev).
  unfold WithSignature. rewrite Hl, Nat.eqb_refl. cbn [negb]. rewrite Er, Es, Ev. intros E'. exists r, s_, recid, sig. split; [done|]. split; [done|]. split; [done|].
  intros H2. pose proof (sg_id _ _ _ _ _ _ Sg) as Hi.
  assert (Eb : SetBytes [recid + 27] = recid + 27) by (unfold SetBytes; cbn; lia).
  destruct s as [| |c mul]; [rewrite Eb in E'; congruence..|]. destruct Hs as [Hc ->].
  rewrite (proj2 (Z.ltb_lt 0 (BitLen c))) in E' by (apply BitLen_pos; lia). injection E' as <-. f_equal. unfold chain_V, u8.
  rewrite Z.mod_small by lia. lia.
Qed.

Lemma sign_PublicKey nonce s tx key r s_ recid : signer_ok s -> signature nonce (signer_Hash s tx) key r s_ recid -> recid < 2 ->
  PublicKey s (with_sig tx (match s with EIP155Signer c _ => chain_V c recid | _ => recid + 27 end) r s_) =
  Ok (ecdsa_pubkey (LeftPadBytes (Bytes key) 32)).
Proof.
  intros Hs Sg H2. pose proof (sg_id _ _ _ _ _ _ Sg) as Hi. destruct (plain_V recid ltac:(lia)) as [P1 P2].
  destruct s as [| |c mul]; cbn [PublicKey].
  - cbn [V with_sig]. rewrite P1, P2. by apply (recover_key_ok nonce _ key r s_ recid).
  - unfold homestead_PublicKey. cbn [V with_sig]. rewrite P1, P2. by apply (recover_key_ok nonce _ key r s_ recid).
  - destruct Hs as [Hc ->]. cbn [V with_sig]. rewrite chain_V_protected, chain_V_id by lia. rewrite Z.eqb_refl. cbn [negb].
    change (EIP155Signer c (Some (c * 2))) with (NewSiotImpr1Signer c). rewrite chain_V_normal by lia. cbn [obind].
    by apply (recover_key_ok nonce _ key r s_ recid).
Qed.

(** ** The cache *)

(** The caches a transaction gets from calls of [Sender]. *)
Inductive cached (tx : Transaction) : sigCache -> Prop :=
| cached_none : cached tx None
| cached_call s c : signer_ok s -> cached tx c -> cached tx (Sender s tx c).2.

Lemma signer_Equal_eq s s' : signer_ok s -> signer_ok s' -> signer_Equal s s' = true -> s = s'.
Proof.
  destruct s as [| |c mul], s' as [| |c' mul']; cbn; try done. intros [_ ->] [_ ->] E%Z.eqb_eq. by subst.
Qed.

Lemma cached_sound tx c : cached tx c ->
  match c with Some (s, a) => signer_ok s /\ (Sender s tx None).1 = Ok a | None => True end.
Proof.
  induction 1 as [|s c Hs Hc IH]; [done|].
  assert (D : match (match PublicKey s tx with
      | Ok pub => let addr := take 20 (drop 12 (Keccak256 (drop 1 pub))) in (Ok addr, Some (s, addr))
      | Err e => (Err e, c) | Panic => (Panic, c) end).2 with
    | Some (s, a) => signer_ok s /\ (Sender s tx None).1 = Ok a | None => True end).
  { destruct (PublicKey s tx) as [pub|e|] eqn:E; cbn [snd]; [|done..]. split; [done|]. by rewrite (Sender_fresh s tx pub E), PubkeyToAddress_take. }
  unfold Sender. destruct c as [[s0 a0]|]; [|done]. by destruct (signer_Equal s0 s).
Qed.

Lemma cached_Sender s tx c : signer_ok s -> cached tx c -> (Sender s tx c).1 = (Sender s tx None).1.
Proof.
  intros Hs Hc. apply cached_sound in Hc. destruct c as [[s0 a0]|]; [|done]. destruct Hc as [Hs0 E0].
  unfold Sender at 1. destruct (signer_Equal s0 s) eqn:E.
  - apply signer_Equal_eq in E; [|done..]. subst. by rewrite E0.
  - unfold Sender. by destruct (PublicKey s tx).
Qed.

(** ** Other chains *)

Lemma other_chain c c' recid tx : 0 < c -> 0 <= recid < 2 -> c' <> c -> V tx = chain_V c recid ->
  (Sender (NewSiotImpr1Signer c') tx None).1 = Err ErrInvalidChainId.
Proof.
  intros Hc Hr Hne Ev. unfold Sender, NewSiotImpr1Signer. cbn [PublicKey]. rewrite Ev, chain_V_protected, chain_V_id by lia. cbn [negb].
  by rewrite (proj2 (Z.eqb_neq c c')).
Qed.

Lemma no_chain c recid tx s : 0 < c -> 0 <= recid < 2 -> V tx = chain_V c recid ->
  s = HomesteadSigner \/ s = FrontierSigner -> (Sender s tx None).1 = Err ErrInvalidSig.
Proof.
  intros Hc Hr Ev Hs. assert (E : PublicKey s tx = Err ErrInvalidSig); [|unfold Sender; by rewrite E].
  assert (G : forall h hash, recover_key (u8 (Uint64 (V tx))) tx h hash = Err ErrInvalidSig \/ 8 < BitLen (V tx)).
  { intros h hash. rewrite Ev. destruct (Z.le_gt_cases (BitLen (chain_V c recid)) 8) as [L|L]; [left|by right].
    apply BitLen_large in L; [|lia|unfold chain_V; lia].
    assert (Eu : u8 (Uint64 (chain_V c recid)) = chain_V c recid)
      by (rewrite Uint64_small by (unfold chain_V in *; lia); apply Z.mod_small; unfold chain_V in *; lia).
    rewrite Eu. unfold recover_key. assert (Ef : ValidateSignatureValues (chain_V c recid) (R tx) (S_ tx) h = false); [|by rewrite Ef].
    unfold ValidateSignatureValues. rewrite (proj2 (Z.eqb_neq _ 27)), (proj2 (Z.eqb_neq _ 28)) by (unfold chain_V; lia).
    rewrite andb_false_r. by repeat case_match. }
  destruct Hs as [->| ->]; cbn [PublicKey]; unfold homestead_PublicKey; destruct (Z.ltb_spec 8 (BitLen (V tx))); try done.
  - destruct (G true (signer_Hash HomesteadSigner tx)); [done|lia].
  - destruct (G false (signer_Hash FrontierSigner tx)); [done|lia].
Qed.

(** C26: signing and recovering are inverse, and signatures for one chain are
    refused on every other.  A transaction signed with a key by one of the signers
    of the chain configuration has the address of the key as its sender, whatever
    earlier calls left in the cache.  If it was signed for a chain, every signer
    of another chain, and the signers without a chain, return an error. *)
Theorem sign_sender nonce s tx key tx' cache :
  signer_ok s -> SignECDSA nonce s tx key = Ok tx' ->
  (forall sig, SignSiotchain nonce (signer_Hash s tx) key = Some sig -> sig !!! 64%nat < 29) -> cached tx' cache ->
  (Sender s tx' cache).1 = Ok (key_address key) /\
  match s with
  | EIP155Signer c _ =>
      (forall c', 0 < c' -> c' <> c -> (Sender (NewSiotImpr1Signer c') tx' cache).1 = Err ErrInvalidChainId) /\
      (Sender HomesteadSigner tx' cache).1 = Err ErrInvalidSig /\ (Sender FrontierSigner tx' cache).1 = Err ErrInvalidSig
  | _ => True
  end.
Proof.
  intros Hs E Hid Hc. destruct (SignECDSA_ok nonce s tx key tx' Hs E) as (r & s_ & recid & sig & Sg & Esig & Ev & Etx).
  pose proof (Hid sig Esig) as H2. pose proof (sg_id _ _ _ _ _ _ Sg) as Hi. rewrite Ev in H2. specialize (Etx ltac:(lia)).
  split.
  - rewrite cached_Sender by done. apply Sender_fresh. rewrite Etx. apply (sign_PublicKey nonce); [done|done|lia].
  - destruct s as [| |c mul]; [done..|]. destruct Hs as [Hpos _].
    assert (EV : V tx' = chain_V c recid) by by rewrite Etx. split; [|split].
    + intros c' Hc' Hne. rewrite cached_Sender by done. apply (other_chain c c' recid); [done|lia|done|done].
    + rewrite cached_Sender by done. apply (no_chain c recid); [done|lia|done|by left].
    + rewrite cached_Sender by done. apply (no_chain c recid); [done|lia|done|by right].
Qed.

(** ** What the signed hash binds *)

(** The strings that are encoded to be signed. *)
Definition chain_of (s : Signer) : option Z := match s with EIP155Signer c _ => Some c | _ => None end.

Definition raw_fields (s : Signer) (tx : Transaction) : list bytes :=
  [Bytes (AccountNonce tx); Bytes (Price tx); Bytes (GasLimit tx); default [] (Recipient tx); Bytes (Amount tx); Payload tx] ++
  match chain_of s with Some c => [Bytes c; []; []] | None => [] end.

Definition signed_val (s : Signer) (tx : Transaction) : rval := VList (map VBytes (raw_fields s tx)).
Definition signed_type : rtype := TSlice false TBytes.

Definition chain_ok (s : Signer) : Prop := match chain_of s with Some c => 0 <= c | None => True end.

Lemma signed_rt s tx : tx_ok tx -> chain_ok s -> rt (signed_val s tx) signed_type.
Proof.
  intros [] Hc. unfold signed_val, raw_fields, chain_ok in *. cbn [app map rt signed_type foldr].
  split; [done|]. do 3 (split; [apply Bytes_ok|]). split; [|split; [apply Bytes_ok|split; [done|]]].
  - destruct (Recipient tx) as [b|] eqn:E; [by apply ok_Recipient|constructor].
  - destruct (chain_of s); [|done]. cbn. split; [apply Bytes_ok|]. split; [constructor|]. split; [constructor|done].
Qed.

Lemma signer_Hash_raw s tx : tx_ok tx -> chain_ok s -> fits (signed_val s tx) signed_type ->
  signer_Hash s tx = Keccak256 (enc (signed_val s tx) signed_type).
Proof.
  intros T Hc F.
  assert (W : foldr (fun v P => wt v TInterface /\ P) True (signed_fields tx)).
  { destruct T. unfold signed_fields. cbn. split; [split; [tauto|done]|]. split; [done|]. split; [done|]. split; [|by repeat split].
    destruct (Recipient tx) as [b|]; [|done]. cbn. by destruct (ok_Recipient b eq_refl). }
  assert (Ep : enc (VIface (TPtr false (TByteArray 20)) (ptr_val (Recipient tx))) TInterface = enc (VBytes (default [] (Recipient tx))) TBytes)
    by by destruct (Recipient tx).
  destruct s as [| |c mul]; cbn [signer_Hash]; unfold rlpHash.
  1-2: rewrite EncodeToBytes_enc; [|by split|]; unfold signed_fields, fits, signed_val, signed_type, raw_fields in *;
       cbn [chain_of app map concat enc] in *; cbn [enc] in Ep; rewrite Ep; [done|exact F].
  assert (W' : wt (VList (signed_fields tx ++ [VIface TBigInt (VInt c); VIface (TUint 64) (VInt 0); VIface (TUint 64) (VInt 0)])) (TSlice false TInterface)).
  { split; [done|]. rewrite foldr_app. unfold chain_ok in Hc. cbn [chain_of] in Hc. cbn [foldr].
    assert (G : forall l P, foldr (fun v P => wt v TInterface /\ P) True l -> P -> foldr (fun v P => wt v TInterface /\ P) P l)
      by (induction l as [|v l IH]; cbn; [done|]; intros P [Hv Hl] HP; split; auto).
    apply G; [done|]. cbn. split; [done|]. split; [split; [tauto|done]|]. split; [split; [tauto|done]|done]. }
  rewrite EncodeToBytes_enc; [|exact W'|]; unfold signed_fields, fits, signed_val, signed_type, raw_fields in *;
    cbn [chain_of app map concat enc] in *; cbn [enc] in Ep; rewrite Ep; [done|exact F].
Qed.

Lemma Bytes_inj a b : 0 <= a -> 0 <= b -> Bytes a = Bytes b -> a = b.
Proof. intros Ha Hb E. rewrite <- (SetBytes_Bytes a), <- (SetBytes_Bytes b) by done. by rewrite E. Qed.

Lemma raw_fields_inj s1 s2 tx1 tx2 : tx_ok tx1 -> tx_ok tx2 -> chain_ok s1 -> chain_ok s2 -> raw_fields s1 tx1 = raw_fields s2 tx2 ->
  with_sig tx1 0 0 0 = with_sig tx2 0 0 0 /\ chain_of s1 = chain_of s2.
Proof.
  intros T1 T2 C1 C2. unfold raw_fields, chain_ok in *. cbn [app]. intros [= E1 E2 E3 E4 E5 E6 E7]. destruct T1, T2.
  apply Bytes_inj in E1, E2, E3, E5; try lia. split.
  - assert (Er : Recipient tx1 = Recipient tx2).
    { destruct (Recipient tx1) as [b1|] eqn:R1, (Recipient tx2) as [b2|] eqn:R2; cbn in E4; try congruence.
      - subst. by destruct (ok_Recipient [] eq_refl) as [_ ?].
      - subst. by destruct (ok_Recipient0 [] eq_refl) as [_ ?]. }
    unfold with_sig. congruence.
  - destruct (chain_of s1), (chain_of s2); try discriminate E7; [|done]. injection E7 as E7. by apply Bytes_inj in E7; [subst|..].
Qed.

(** The hash that is signed binds the content and the chain.  Two transactions
    with the same hash to sign, under any two signers, agree in everything but
    their signature, and are signed for the same chain or both for none; as long
    as the two encodings do not collide. *)
Theorem signer_hash_binding (U : bytes -> Prop) s1 s2 tx1 tx2 :
  collision_free U -> tx_ok tx1 -> tx_ok tx2 -> chain_ok s1 -> chain_ok s2 ->
  fits (signed_val s1 tx1) signed_type -> fits (signed_val s2 tx2) signed_type ->
  U (enc (signed_val s1 tx1) signed_type) -> U (enc (signed_val s2 tx2) signed_type) ->
  signer_Hash s1 tx1 = signer_Hash s2 tx2 ->
  with_sig tx1 0 0 0 = with_sig tx2 0 0 0 /\ chain_of s1 = chain_of s2.
Proof.
  intros Ucf T1 T2 C1 C2 F1 F2 U1 U2. rewrite !signer_Hash_raw by done. intros E%Ucf; [|done..].
  apply enc_inj in E; [|by apply signed_rt|by apply signed_rt|done|done].
  apply raw_fields_inj; try done.
  apply (f_equal (fun v => match v with VList l => map (fun v => match v with VBytes b => b | _ => [] end) l | _ => [] end)) in E.
  unfold signed_val in E. by rewrite !map_map, !map_id in E.
Qed.

(** A transaction whose signature names a chain. *)
Definition protected_for_chain (tx : Transaction) : Prop :=
  0 < V tx /\ isProtectedV (V tx) = true /\ deriveChainId (V tx) <> 0.

(** C39: [deriveSigner] forgets the product of the chain id.  The sender of a
    transaction that is protected for a chain and has no cached sender cannot be
    derived with its signer: the code dereferences a nil pointer. *)
Theorem deriveSigner_panics tx :
  protected_for_chain tx -> Sender (deriveSigner (V tx)) tx None = (Panic, None).
Proof.
  intros (Hv & P & Hc). unfold deriveSigner. rewrite (proj2 (Z.ltb_lt 0 (BitLen (V tx)))), P by (apply BitLen_pos; lia). cbn [andb].
  unfold Sender. cbn [PublicKey]. rewrite P, Z.eqb_refl. cbn [negb]. unfold normaliseV. unfold isProtectedV in P.
  assert (Es : (BitLen (V tx) <=? 8) && ((Uint64 (V tx) =? 27) || (Uint64 (V tx) =? 28)) = false).
  { destruct (BitLen (V tx) <=? 8); [|done]. cbn in *. by destruct (_ =? 27), (_ =? 28). }
  rewrite Es, (proj2 (Z.ltb_lt 0 (BitLen (deriveChainId (V tx))))) by (by apply BitLen_pos). done.
Qed.
End Signing.

(** ** Witnesses *)

#[local] Existing Instance keccak_hash.

(** A curve with one key, enough for the documented behaviour. *)
#[local] Instance one_key : Secp256k1 := {|
  ecdsa_sign _ _ _ := Some (zeros 31 ++ [1] ++ zeros 31 ++ [1] ++ [0]);
  ecdsa_recover _ _ := Some (4 :: zeros 64);
  ecdsa_pubkey _ := 4 :: zeros 64
|}.

#[local] Instance one_key_laws : Secp256k1Laws.
Proof.
  split.
  - intros nonce msg key sig _ [= <-]. split; [apply (bool_decide_unpack _); vm_compute; reflexivity|].
    split; [reflexivity|]. split; [split; by vm_compute|]. split; [split; by vm_compute|by vm_compute].
  - done.
  - intros key. by exists (zeros 64).
Qed.

Definition unsigned_tx : Transaction := mkTx 3 1 21000 (Some (zeros 20)) 5 [1; 2; 3] 0 0 0.
Definition signed_tx : Transaction := with_sig unsigned_tx 37 1 1.

Lemma signed_tx_ok : SignECDSA [] (NewSiotImpr1Signer 1) unsigned_tx 7 = Ok signed_tx.
Proof. vm_compute. reflexivity. Qed.

Lemma sign_sender_witness :
  (Sender (NewSiotImpr1Signer 1) signed_tx (Sender HomesteadSigner signed_tx None).2).1 = Ok (key_address 7).
Proof.
  refine (proj1 (sign_sender [] (NewSiotImpr1Signer 1) unsigned_tx 7 signed_tx _ _ signed_tx_ok _ _)).
  - by split.
  - intros sig. unfold SignSiotchain, Sign. rewrite signer_Hash_length. cbn. intros [= <-]. by vm_compute.
  - apply cached_call; [done|constructor].
Defined.

Lemma unsigned_tx_ok : tx_ok unsigned_tx.
Proof.
  assert (bytes_ok [1; 2; 3]) by (apply (bool_decide_unpack _); by vm_compute).
  split; cbn; try lia; [|done]. intros b [= <-]. apply zeros_word.
Qed.

Definition signed_enc (e : bytes) : Prop := e = enc (signed_val (NewSiotImpr1Signer 1) unsigned_tx) signed_type.

Lemma signer_hash_binding_witness :
  with_sig unsigned_tx 0 0 0 = with_sig unsigned_tx 0 0 0 /\ chain_of (NewSiotImpr1Signer 1) = chain_of (EIP155Signer 1 None).
Proof.
  apply (signer_hash_binding signed_enc (NewSiotImpr1Signer 1) (EIP155Signer 1 None) unsigned_tx unsigned_tx);
    [by intros ? ? -> ->|apply unsigned_tx_ok|apply unsigned_tx_ok|by cbn|by cbn|by vm_compute|by vm_compute|reflexivity|reflexivity|reflexivity].
Defined.

Lemma deriveSigner_panics_witness : Sender (deriveSigner (V signed_tx)) signed_tx None = (Panic, None).
Proof. apply (deriveSigner_panics signed_tx). split; [reflexivity|split; [reflexivity|discriminate]]. Defined.
