(* ===== verification/Validator.v ===== *)
(** * Validation of headers (src/blockchainCore/block_validator.go, dao.go)

    The rules a header has to follow with respect to its parent, the difficulty
    and gas limit of the next block, the extra data around the fork of
    [configure/dao.go], and the header that the miner prepares
    ([commitNewWork] and [SetExtra] of package miner).

    The proof of work is the parameter [Verify], and the clock and the target
    gas limit, which a flag of the program sets, are arguments.  Big integers
    are [Z]; the divisors are positive, for which [Div] rounds down. *)

From S2P Require Import Prelude RlpEncode Helper Database StateTrie State Transition Types.

(** ** Parameters (src/configure, src/helper/big.go) *)

Definition MaximumExtraDataSize : Z := 32.
Definition GasLimitBoundDivisor : Z := 1024.
Definition MinGasLimit : Z := 5000.
Definition GenesisGasLimit : Z := 4712388.
Definition DifficultyBoundDivisor : Z := 2048.
Definition MinimumDifficulty : Z := 131072.
Definition DurationLimit : Z := 13.
Definition ExpDiffPeriod : Z := 100000.
Definition MaxBig : Z := 0xffffffffffffffffffffffffffffffffffffffffffffffffffffffffffffffff.

Definition DAOForkBlockExtra : bytes := [0x64; 0x61; 0x6f; 0x2d; 0x68; 0x61; 0x72; 0x64; 0x2d; 0x66; 0x6f; 0x72; 0x6b].
Definition DAOForkExtraRange : Z := 10.

Definition BigMax (x y : Z) : Z := if x <? y then y else x.
Definition BigMin (x y : Z) : Z := if y <? x then y else x.

Inductive header_error :=
| ExtraTooLong
| BlockTSTooBigErr
| BlockFutureErr
| BlockEqualTSErr
| DifficultyErr
| GasLimitCheckErr
| BlockNumberErr
| BlockNonceErr
| DAOExtraErr
| ForkHashErr.

(** ** Difficulty *)

Definition CalcDifficulty (config : ChainConfig) (time parentTime : Z) (parentNumber parentDiff : Z) : Z := 0x2000.

(** The exponential part, in both of the following. *)
Definition bomb (parentNumber : Z) : option Z :=
  let periodCount := (parentNumber + 1) / ExpDiffPeriod in
  if 1 <? periodCount then Some (2 ^ (periodCount - 2)) else None.

Definition calcDifficultyHomestead (time parentTime parentNumber parentDiff : Z) : Z :=
  let x := 1 - (time - parentTime) / 10 in
  let x := if x <? -99 then -99 else x in
  let y := parentDiff / DifficultyBoundDivisor in
  let x := parentDiff + y * x in
  let x := if x <? MinimumDifficulty then MinimumDifficulty else x in
  match bomb parentNumber with Some y => x + y | None => x end.

Definition calcDifficultyFrontier (time parentTime parentNumber parentDiff : Z) : Z :=
  let adjust := parentDiff / DifficultyBoundDivisor in
  let diff := if time - parentTime <? DurationLimit then parentDiff + adjust else parentDiff - adjust in
  let diff := if diff <? MinimumDifficulty then MinimumDifficulty else diff in
  match bomb parentNumber with Some expDiff => BigMax (diff + expDiff) MinimumDifficulty | None => diff end.

(** ** Gas limit *)

Definition CalcGasLimit (TargetGasLimit : Z) (parent : Header) : Z :=
  let contrib := hGasUsed parent * 3 / 2 / GasLimitBoundDivisor in
  let decay := hGasLimit parent / GasLimitBoundDivisor - 1 in
  let gl := hGasLimit parent - decay + contrib in
  let gl := BigMax gl MinGasLimit in
  if gl <? TargetGasLimit then BigMin (hGasLimit parent + decay) TargetGasLimit else gl.

(** ** The fork of the DAO (dao.go) *)

Definition in_fork_range (forkBlock number : Z) : bool :=
  (forkBlock <=? number) && (number <? forkBlock + DAOForkExtraRange).

Definition ValidateDAOHeaderExtraData (config : ChainConfig) (header : Header) : header_error + unit :=
  match DAOForkBlock config with
  | None => inr tt
  | Some forkBlock =>
      if negb (in_fork_range forkBlock (hNumber header)) then inr tt
      else if DAOForkSupport config then
        if bool_decide (hExtra header <> DAOForkBlockExtra) then inl DAOExtraErr else inr tt
      else if bool_decide (hExtra header = DAOForkBlockExtra) then inl DAOExtraErr else inr tt
  end.

(** ** Headers *)

Section Validate.
Context `{Hash256} (Verify : Block -> bool).

Definition ValidateHeader (config : ChainConfig) (now : Z) (header parent : Header) (checkPow uncle : bool) : header_error + unit :=
  if MaximumExtraDataSize <? len (hExtra header) then inl ExtraTooLong
  else if uncle && (MaxBig <? hTime header) then inl BlockTSTooBigErr
  else if negb uncle && (now <? hTime header) then inl BlockFutureErr
  else if hTime header <=? hTime parent then inl BlockEqualTSErr
  else
    let expd := CalcDifficulty config (u64 (hTime header)) (u64 (hTime parent)) (hNumber parent) (hDifficulty parent) in
    if negb (expd =? hDifficulty header) then inl DifficultyErr
    else
      let a := Z.abs (hGasLimit parent - hGasLimit header) in
      let b := hGasLimit parent / GasLimitBoundDivisor in
      if negb (a <? b) || (hGasLimit header <? MinGasLimit) then inl GasLimitCheckErr
      else if negb (hNumber header - hNumber parent =? 1) then inl BlockNumberErr
      else if checkPow && negb (Verify (NewBlockWithHeader header)) then inl BlockNonceErr
      else
        match ValidateDAOHeaderExtraData config header with
        | inl e => inl e
        | inr _ =>
            match SiotImpr0Block config with
            | Some b =>
                if (b =? hNumber header) && bool_decide (SiotImpr0Hash config <> zeros 32)
                   && bool_decide (SiotImpr0Hash config <> Header_Hash header)
                then inl ForkHashErr else inr tt
            | None => inr tt
            end
        end.
End Validate.

(** ** The header to mine (miner/worker.go, miner/miner.go) *)

(** [int64] addition of one. *)
Definition next_int64 (z : Z) : Z := if z =? 2 ^ 63 - 1 then - 2 ^ 63 else z + 1.

(** [Int64] of a big integer: its low 64 bits, as a signed number. *)
Definition Int64 (z : Z) : Z := let u := u64 z in if u <? 2 ^ 63 then u else u - 2 ^ 64.

Definition new_time (now : Z) (parent : Header) : Z :=
  if now <=? hTime parent then next_int64 (Int64 (hTime parent)) else now.

Section Mine.
Context `{Hash256}.

(** The start of [commitNewWork], up to the call of [makeCurrent]; the fields
    that are not set are zero.  [now] is the clock at its start. *)
Definition new_header (config : ChainConfig) (TargetGasLimit now : Z) (coinbase extra : bytes) (parent : Block) : Header :=
  let p := header parent in
  let tstamp := new_time now p in
  let number := hNumber p + 1 in
  let extra :=
    match DAOForkBlock config with
    | Some daoBlock =>
        if in_fork_range daoBlock number then
          if DAOForkSupport config then DAOForkBlockExtra
          else if bool_decide (extra = DAOForkBlockExtra) then [] else extra
        else extra
    | None => extra
    end in
  {| hParentHash := block_Hash parent; hUncleHash := zeros 32; hCoinbase := coinbase; hRoot := zeros 32; hTxHash := zeros 32;
     hReceiptHash := zeros 32; hBloom := zeros 256;
     hDifficulty := CalcDifficulty config (u64 tstamp) (u64 (hTime p)) (hNumber p) (hDifficulty p);
     hNumber := number; hGasLimit := CalcGasLimit TargetGasLimit p; hGasUsed := 0; hTime := tstamp; hExtra := extra;
     hMixDigest := zeros 32; hNonce := zeros 8 |}.
End Mine.

(** [SetExtra]: the new extra data, unless it is too long. *)
Definition SetExtra (extra : bytes) : option bytes :=
  if u64 MaximumExtraDataSize <? u64 (len extra) then None else Some extra.
