(* ===== verification/ValidatorSpec.v ===== *)
(** * What header validation promises

    The miner can always extend a chain: the headers it prepares are accepted.
    Chains of accepted headers count up, in time and in number, and their gas
    limit moves slowly. *)

From S2P Require Import Prelude RlpEncode Helper Keccak Database StateTrie State Transition Types Validator.

(** ** Difficulty *)

Lemma bomb_pos n y : bomb n = Some y -> 0 < y.
Proof. unfold bomb. destruct (Z.ltb_spec 1 ((n + 1) / ExpDiffPeriod)); [|done]. intros [= <-]. apply Z.pow_pos_nonneg; lia. Qed.

Lemma Homestead_min t pt n d : MinimumDifficulty <= calcDifficultyHomestead t pt n d.
Proof.
  unfold calcDifficultyHomestead. set (x := d + _). destruct (bomb n) as [y|] eqn:B; [apply bomb_pos in B|];
    destruct (Z.ltb_spec x MinimumDifficulty); lia.
Qed.

Lemma Frontier_min t pt n d : MinimumDifficulty <= calcDifficultyFrontier t pt n d.
Proof.
  unfold calcDifficultyFrontier, BigMax. set (x := if t - pt <? _ then _ else _). destruct (bomb n) as [y|] eqn:B; [apply bomb_pos in B|];
    repeat case_match; lia.
Qed.

(** ** Gas limits *)

(** The check of [ValidateHeader]. *)
Definition gas_step (g g' : Z) : Prop := Z.abs (g - g') < g / GasLimitBoundDivisor /\ MinGasLimit <= g'.

Lemma CalcGasLimit_step t p :
  5120 <= hGasLimit p -> 0 <= hGasUsed p <= hGasLimit p -> gas_step (hGasLimit p) (CalcGasLimit t p).
Proof.
  intros G U. unfold gas_step, CalcGasLimit, BigMax, BigMin, GasLimitBoundDivisor, MinGasLimit.
  set (g := hGasLimit p) in *. set (u := hGasUsed p) in *.
  pose proof (Z.div_mod g 1024 ltac:(lia)) as E1. pose proof (Z.mod_pos_bound g 1024 ltac:(lia)).
  pose proof (Z.div_mod (u * 3) 2 ltac:(lia)) as E2. pose proof (Z.mod_pos_bound (u * 3) 2 ltac:(lia)).
  pose proof (Z.div_mod (u * 3 / 2) 1024 ltac:(lia)) as E3. pose proof (Z.mod_pos_bound (u * 3 / 2) 1024 ltac:(lia)).
  set (q := g / 1024) in *. set (m := u * 3 / 2) in *. set (c := m / 1024) in *. clearbody g u q c m.
  repeat case_match; lia.
Qed.

Lemma CalcGasLimit_least t p : 5120 <= t -> 5120 <= hGasLimit p -> 5120 <= CalcGasLimit t p.
Proof.
  intros T G. unfold CalcGasLimit, BigMax, BigMin, GasLimitBoundDivisor, MinGasLimit.
  set (g := hGasLimit p) in *. pose proof (Z.div_mod g 1024 ltac:(lia)). pose proof (Z.mod_pos_bound g 1024 ltac:(lia)).
  set (q := g / 1024) in *. clearbody g q. generalize (hGasUsed p * 3 / 2 / 1024). intros c. repeat case_match; lia.
Qed.

Section Spec.
Context `{Hash256} (Verify : Block -> bool) (config : ChainConfig).

(** The rules for a header, apart from the clock. *)
Record follows (pow : bool) (h p : Header) : Prop := {
  f_extra : len (hExtra h) <= MaximumExtraDataSize;
  f_time : hTime p < hTime h;
  f_difficulty : hDifficulty h = 0x2000;
  f_gas : gas_step (hGasLimit p) (hGasLimit h);
  f_number : hNumber h = hNumber p + 1;
  f_pow : pow = true -> Verify (NewBlockWithHeader h) = true;
  f_dao : ValidateDAOHeaderExtraData config h = inr tt;
  f_fork : SiotImpr0Block config = Some (hNumber h) -> SiotImpr0Hash config = zeros 32 \/ SiotImpr0Hash config = Header_Hash h
}.

Lemma ValidateHeader_follows now h p pow :
  ValidateHeader Verify config now h p pow false = inr tt <-> hTime h <= now /\ follows pow h p.
Proof.
  unfold ValidateHeader, CalcDifficulty. cbn [andb negb].
  destruct (Z.ltb_spec MaximumExtraDataSize (len (hExtra h))) as [|L1]; [split; [done|intros [_ []]; lia]|].
  destruct (Z.ltb_spec now (hTime h)) as [|L2]; [split; [done|intros [? _]; lia]|].
  destruct (Z.leb_spec (hTime h) (hTime p)) as [|L3]; [split; [done|intros [_ []]; lia]|].
  destruct (Z.eqb_spec 0x2000 (hDifficulty h)) as [L4|]; cbn [negb]; [|split; [done|intros [_ []]; congruence]].
  destruct (Z.ltb_spec (Z.abs (hGasLimit p - hGasLimit h)) (hGasLimit p / GasLimitBoundDivisor)) as [L5|]; cbn [negb orb];
    [|split; [done|intros [_ [_ _ _ [? _]]]; lia]].
  destruct (Z.ltb_spec (hGasLimit h) MinGasLimit) as [|L6]; [split; [done|intros [_ [_ _ _ [_ ?]]]; lia]|].
  destruct (Z.eqb_spec (hNumber h - hNumber p) 1) as [L7|]; cbn [negb]; [|split; [done|intros [_ []]; lia]].
  destruct (pow && negb (Verify (NewBlockWithHeader h))) eqn:L8.
  { split; [done|]. intros [_ []]. destruct pow; [|done]. rewrite f_pow0 in L8; done. }
  destruct (ValidateDAOHeaderExtraData config h) as [e|[]] eqn:L9; [split; [done|intros [_ []]; congruence]|].
  assert (P : pow = true -> Verify (NewBlockWithHeader h) = true) by (destruct pow, (Verify _); done).
  destruct (SiotImpr0Block config) as [b|] eqn:L10; [|split; [|done]; intros _; split; [lia|]; split; try done; lia || congruence].
  destruct (Z.eqb_spec b (hNumber h)) as [->|Ne]; cbn [andb].
  - destruct (bool_decide_reflect (SiotImpr0Hash config <> zeros 32)) as [Z0|Z0%dec_stable]; cbn [andb];
      [destruct (bool_decide_reflect (SiotImpr0Hash config <> Header_Hash h)) as [Z1|Z1%dec_stable]|].
    + split; [done|]. intros [_ []]. by destruct f_fork0.
    + split; [|done]. intros _. split; [lia|]. split; try done; [lia|]. by right.
    + split; [|done]. intros _. split; [lia|]. split; try done; [lia|]. by left.
  - split; [|done]. intros _. split; [lia|]. split; try done; [lia|]. congruence.
Qed.

(** ** Mining *)

(** What is left of the prepared header in the mined block: the state, the
    roots, the gas used, the nonce and the digest are filled in. *)
Record seals (h : Header) (b : Block) : Prop := {
  s_parent : hParentHash (header b) = hParentHash h;
  s_difficulty : hDifficulty (header b) = hDifficulty h;
  s_number : hNumber (header b) = hNumber h;
  s_gasLimit : hGasLimit (header b) = hGasLimit h;
  s_time : hTime (header b) = hTime h;
  s_extra : hExtra (header b) = hExtra h;
  s_gasUsed : 0 <= hGasUsed (header b) <= hGasLimit (header b);
  s_pow : Verify (NewBlockWithHeader (header b)) = true
}.

Record round := { r_now : Z; r_coinbase : bytes; r_extra : bytes; r_block : Block }.

(** One block after the other, each prepared on the previous one. *)
Fixpoint mines (target : Z) (parent : Block) (rs : list round) : Prop :=
  match rs with
  | [] => True
  | r :: rs =>
      is_Some (SetExtra (r_extra r)) /\ hTime (header parent) < 2 ^ 63 - 1 /\
      seals (new_header config target (r_now r) (r_coinbase r) (r_extra r) parent) (r_block r) /\
      mines target (r_block r) rs
  end.

(** Each block is related to the previous one. *)
Fixpoint linked (R : Header -> Header -> Prop) (parent : Block) (bs : list Block) : Prop :=
  match bs with [] => True | b :: bs => R (header b) (header parent) /\ linked R b bs end.

(** Every block is accepted on top of the previous one from its time on. *)
Definition accepted : Block -> list Block -> Prop :=
  linked (fun h p => forall now, hTime h <= now -> ValidateHeader Verify config now h p true false = inr tt).

(** Every block was accepted when it came, with or without a look at its work. *)
Definition was_accepted : Block -> list Block -> Prop :=
  linked (fun h p => exists now pow, ValidateHeader Verify config now h p pow false = inr tt).

Lemma new_time_later now p : 0 <= hTime p < 2 ^ 63 - 1 -> hTime p < new_time now p.
Proof.
  intros T. unfold new_time, next_int64, Int64, u64. rewrite Z.mod_small by lia.
  destruct (Z.leb_spec now (hTime p)); [|lia]. rewrite (proj2 (Z.ltb_lt _ _)) by lia. rewrite (proj2 (Z.eqb_neq _ _)); lia.
Qed.

Lemma SetExtra_len e : is_Some (SetExtra e) -> len e < 2 ^ 64 -> len e <= MaximumExtraDataSize.
Proof.
  unfold SetExtra, u64, MaximumExtraDataSize. intros S L. rewrite (Z.mod_small (len e)) in S by lia.
  destruct (Z.ltb_spec (32 mod 2 ^ 64) (len e)) as [|Le]; [by destruct S|]. exact Le.
Qed.

(** The extra data the miner sets is what the rules ask for. *)
Lemma new_header_dao target now coinbase extra p b :
  seals (new_header config target now coinbase extra p) b -> ValidateDAOHeaderExtraData config (header b) = inr tt.
Proof.
  intros S. unfold ValidateDAOHeaderExtraData. rewrite (s_number _ _ S), (s_extra _ _ S). cbn [new_header hNumber hExtra].
  destruct (DAOForkBlock config) as [f|]; [|done]. destruct (in_fork_range f _); cbn [negb]; [|done].
  destruct (DAOForkSupport config); [done|]. 
  destruct (decide (extra = DAOForkBlockExtra)) as [E|E]; [by rewrite (bool_decide_true (extra = _))|].
  by rewrite !(bool_decide_false (extra = _)).
Qed.

Lemma new_header_extra target now coinbase extra p :
  len extra <= MaximumExtraDataSize -> len (hExtra (new_header config target now coinbase extra p)) <= MaximumExtraDataSize.
Proof. intros L. cbn [new_header hExtra]. repeat case_match; try done; unfold MaximumExtraDataSize; cbn; lia. Qed.
End Spec.

(** C19: liveness of mining.  The miner can extend any chain whose head has a gas
    limit of at least 5120 with a gas use within it: whatever the clock, the
    coinbase and the accepted extra data, each prepared header, once its roots,
    gas use and proof of work are filled in, is accepted by the header rules on
    top of its parent as soon as its time has come, and so for every number of
    rounds, whenever the target gas limit is at least 5120, no fork hash is
    configured, each mined block uses no more gas than its limit and times stay
    below 2^63 - 1. *)
Theorem mining_never_stuck `{Hash256} (Verify : Block -> bool) (config : ChainConfig) (target : Z) (parent : Block) (rs : list round) :
  SiotImpr0Hash config = zeros 32 -> 5120 <= target ->
  5120 <= hGasLimit (header parent) -> 0 <= hGasUsed (header parent) <= hGasLimit (header parent) -> 0 <= hTime (header parent) ->
  Forall (fun r => len (r_extra r) < 2 ^ 64) rs ->
  mines Verify config target parent rs -> accepted Verify config parent (map r_block rs).
Proof.
  intros F T. revert parent. induction rs as [|r rs IH]; intros parent G U Tm Ex M; [done|].
  apply Forall_cons in Ex as [Ex Exs]. destruct M as (Se & Tp & S & M). unfold accepted. cbn [map linked].
  pose proof (new_time_later (r_now r) (header parent) (conj Tm Tp)) as Later.
  pose proof (s_gasLimit _ _ _ S) as Gl. cbn [new_header hGasLimit] in Gl.
  pose proof (s_time _ _ _ S) as Ti. cbn [new_header hTime] in Ti.
  split.
  - intros now Now. apply ValidateHeader_follows. split; [done|]. split.
    + rewrite (s_extra _ _ _ S). apply new_header_extra. by apply SetExtra_len.
    + by rewrite Ti.
    + by rewrite (s_difficulty _ _ _ S).
    + rewrite Gl. by apply CalcGasLimit_step.
    + by rewrite (s_number _ _ _ S).
    + intros _. apply (s_pow _ _ _ S).
    + by eapply new_header_dao.
    + by left.
  - apply IH; [rewrite Gl; by apply CalcGasLimit_least|apply (s_gasUsed _ _ _ S)|lia|done..].
Qed.

(** Slow growth: one step changes the gas limit by less than a part in 1024. *)
Lemma gas_step_ratio g g' : 0 <= g -> gas_step g g' -> 1023 * g <= 1024 * g' <= 1025 * g.
Proof.
  intros G [A _]. unfold GasLimitBoundDivisor in A. pose proof (Z.div_mod g 1024 ltac:(lia)). pose proof (Z.mod_pos_bound g 1024 ltac:(lia)). lia.
Qed.

(** The last element, or a default. *)
Lemma last_default {A} (x d : A) l : List.last (x :: l) d = List.last l x.
Proof. revert x d. induction l as [|y l IH]; intros x d; [done|]. change (List.last (x :: y :: l) d) with (List.last (y :: l) d). rewrite !IH. done. Qed.

(** Bounds on accepted chains.  Along any chain of headers that were each
    accepted on top of the previous one, numbers count up by one, times strictly
    increase, every difficulty is 0x2000 (so the total difficulty only counts
    blocks), gas limits stay at or above the minimum, and after n headers the
    gas limit is between 1023^n and 1025^n parts in 1024^n of the first one. *)
Theorem accepted_chain_bounds `{Hash256} (Verify : Block -> bool) (config : ChainConfig) (parent : Block) (bs : list Block) :
  0 <= hGasLimit (header parent) -> was_accepted Verify config parent bs ->
  let n := len bs in
  let b := List.last bs parent in
  hNumber (header b) = hNumber (header parent) + n /\ hTime (header parent) + n <= hTime (header b) /\
  Forall (fun b => hDifficulty (header b) = 0x2000 /\ MinGasLimit <= hGasLimit (header b)) bs /\
  1023 ^ n * hGasLimit (header parent) <= 1024 ^ n * hGasLimit (header b) <= 1025 ^ n * hGasLimit (header parent).
Proof.
  revert parent. induction bs as [|b bs IH]; intros p G A n l; subst n l; [cbn; repeat split; try lia; done|].
  destruct A as [(now & pow & V) A]. apply ValidateHeader_follows in V as [_ V].
  pose proof (gas_step_ratio _ _ G (f_gas _ _ _ _ _ V)) as Ra. destruct (f_gas _ _ _ _ _ V) as [_ Mi].
  specialize (IH b ltac:(unfold MinGasLimit in Mi; lia) A) as (N & T & F & L1 & L2).
  rewrite last_default.
  pose proof (f_number _ _ _ _ _ V). pose proof (f_time _ _ _ _ _ V).
  replace (len (b :: bs)) with (len bs + 1) by (cbn [length]; lia). rewrite !Z.pow_add_r by lia. rewrite !Z.pow_1_r.
  pose proof (Z.pow_pos_nonneg 1023 (len bs) ltac:(lia) ltac:(lia)). pose proof (Z.pow_pos_nonneg 1025 (len bs) ltac:(lia) ltac:(lia)).
  split; [lia|]. split; [lia|]. split; [|split; nia]. constructor; [|done]. split; [apply (f_difficulty _ _ _ _ _ V)|done].
Qed.

(** Next to the minimum the miner can prepare a gas limit that the rules reject. *)
Lemma CalcGasLimit_rejected :
  let p := mkHeader [] [] [] [] [] [] [] 0 0 5000 5000 0 [] [] [] in
  CalcGasLimit 5000 p = 5004 /\ ~ gas_step (hGasLimit p) (CalcGasLimit 5000 p).
Proof. split; [done|]. intros [A _]. by vm_compute in A. Qed.

(** ** Witnesses *)

#[local] Existing Instance keccak_hash.

Definition genesis_block : Block :=
  mkBlock (mkHeader (zeros 32) (zeros 32) (zeros 20) (zeros 32) (zeros 32) (zeros 32) (zeros 256) 0x2000 0 GenesisGasLimit 0 0 [] (zeros 32) (zeros 8))
    [] [] None.
Definition dao_config : ChainConfig :=
  {| ChainId := 1; HomesteadBlock := Some 0; DAOForkBlock := Some 2; DAOForkSupport := true; SiotImpr0Block := Some 0;
     SiotImpr0Hash := zeros 32; SiotImpr1Block := Some 0; SiotImpr2Block := Some 0 |}.
Definition mine1 (now : Z) (parent : Block) : round :=
  {| r_now := now; r_coinbase := replicate 20 1; r_extra := [1; 2; 3];
     r_block := NewBlockWithHeader (new_header dao_config GenesisGasLimit now (replicate 20 1) [1; 2; 3] parent) |}.
Definition round1 : round := mine1 1000 genesis_block.
Definition round2 : round := mine1 900 (r_block round1).

Lemma mine1_seals now parent :
  0 <= CalcGasLimit GenesisGasLimit (header parent) ->
  seals (fun _ => true) (new_header dao_config GenesisGasLimit now (replicate 20 1) [1; 2; 3] parent) (r_block (mine1 now parent)).
Proof. intros G. split; try reflexivity. by split. Qed.

Lemma mining_never_stuck_witness :
  accepted (fun _ => true) dao_config genesis_block [r_block round1; r_block round2] /\
  map (fun b => (hNumber (header b), hTime (header b), hExtra (header b))) [r_block round1; r_block round2] =
  [(1, 1000, [1; 2; 3]); (2, 1001, DAOForkBlockExtra)].
Proof.
  split; [|reflexivity].
  apply (mining_never_stuck (fun _ => true) dao_config GenesisGasLimit genesis_block [round1; round2]).
  - reflexivity.
  - by vm_compute.
  - by vm_compute.
  - by vm_compute.
  - by vm_compute.
  - repeat constructor.
  - split; [by eexists|]. split; [by vm_compute|]. split; [apply mine1_seals; by vm_compute|].
    split; [by eexists|]. split; [by vm_compute|]. split; [apply mine1_seals; by vm_compute|]. exact I.
Defined.

Lemma accepted_chain_bounds_witness :
  hNumber (header (r_block round2)) = 2 /\ 1023 ^ 2 * GenesisGasLimit <= 1024 ^ 2 * hGasLimit (header (r_block round2)).
Proof.
  destruct (accepted_chain_bounds (fun _ => true) dao_config genesis_block [r_block round1; r_block round2]) as (A & _ & _ & B & _).
  - by vm_compute.
  - split; [|split; [|exact I]]; exists 2000, false; by vm_compute.
  - exact (conj A B).
Defined.
