(* ===== verification/HeaderChain.v ===== *)
(** * The header chain (src/blockchainCore/headerchain.go)

    The chain of headers on top of the chain database: lookups through the
    caches, writing a header with the choice of the canonical chain, and
    rewinding.

    The caches are those of the library golang-lru, the class [LRU] with its
    documented behaviour in [LRULaws].  The coin that [WriteHeader] tosses on a
    tie is an argument.  Headers are not changed once they are shared, so
    pointers to them are values; a nil header is [None].  An operation returns
    its result with the new chain; [Err] ends the process ([glog.Fatalf]). *)

From S2P Require Import Prelude RlpEncode Helper Database StateTrie State Types ChainDb.

(** ** Caches *)

(** [New], [Get], which also moves the entry to the front, [Add], which may evict
    the oldest entry, [Remove] and [Purge]; [lru_peek] is [Peek]. *)
Class LRU (C : Type -> Type) := {
  lru_new {V} : Z -> C V;
  lru_get {V} : C V -> bytes -> option V * C V;
  lru_add {V} : C V -> bytes -> V -> C V;
  lru_remove {V} : C V -> bytes -> C V;
  lru_purge {V} : C V -> C V;
  lru_peek {V} : C V -> bytes -> option V
}.

Class LRULaws (C : Type -> Type) `{LRU C} := {
  lru_peek_new {V} n k : lru_peek (lru_new n : C V) k = None;
  lru_get_peek {V} (c : C V) k : fst (lru_get c k) = lru_peek c k;
  lru_peek_get {V} (c : C V) k k' : lru_peek (snd (lru_get c k)) k' = lru_peek c k';
  lru_peek_add {V} (c : C V) k v k' w :
    lru_peek (lru_add c k v) k' = Some w -> k' = k /\ w = v \/ k' <> k /\ lru_peek c k' = Some w;
  lru_peek_remove {V} (c : C V) k k' : lru_peek (lru_remove c k) k' = if decide (k' = k) then None else lru_peek c k';
  lru_peek_purge {V} (c : C V) k : lru_peek (lru_purge c) k = None
}.

Definition headerCacheLimit : Z := 512.
Definition tdCacheLimit : Z := 1024.
Definition numberCacheLimit : Z := 2048.

Inductive WriteStatus := NonStatTy | CanonStatTy | SplitStatTy | SideStatTy.

Section HeaderChain.
Context `{Hash256} `{Store D} `{LRU C}.

Record HeaderChain := mkHC {
  hdb : D;
  genesisHeader : option Header;
  currentHeader : option Header;
  currentHeaderHash : bytes;
  headerCache : C Header;
  tdCache : C Z;
  numberCache : C Z
}.

Definition set_hdb hc (d : D) := mkHC d (genesisHeader hc) (currentHeader hc) (currentHeaderHash hc) (headerCache hc) (tdCache hc) (numberCache hc).
Definition set_headerCache hc c := mkHC (hdb hc) (genesisHeader hc) (currentHeader hc) (currentHeaderHash hc) c (tdCache hc) (numberCache hc).
Definition set_tdCache hc c := mkHC (hdb hc) (genesisHeader hc) (currentHeader hc) (currentHeaderHash hc) (headerCache hc) c (numberCache hc).
Definition set_numberCache hc c := mkHC (hdb hc) (genesisHeader hc) (currentHeader hc) (currentHeaderHash hc) (headerCache hc) (tdCache hc) c.
Definition set_currentHeader hc h := mkHC (hdb hc) (genesisHeader hc) h (currentHeaderHash hc) (headerCache hc) (tdCache hc) (numberCache hc).
Definition set_currentHeaderHash hc h := mkHC (hdb hc) (genesisHeader hc) (currentHeader hc) h (headerCache hc) (tdCache hc) (numberCache hc).

Abbreviation R A := (outcome chain_error (A * HeaderChain)).

(** The result of a read of the database, which cannot fail. *)
Definition read {A} (m : total A) : outcome chain_error A := match m with Ok a => Ok a | Err e => match e with end | Panic => Panic end.

Definition hNum (h : Header) : Z := u64 (hNumber h).

(** Using a pointer that may be nil. *)
Definition the {A} (x : option A) : outcome chain_error A := match x with Some x => Ok x | None => Panic end.

(** ** Lookups *)

Definition hc_GetBlockNumber hc (hash : bytes) : R Z :=
  let '(cached, cache) := lru_get (numberCache hc) hash in
  let hc := set_numberCache hc cache in
  match cached with
  | Some number => Ok (number, hc)
  | None =>
      let* number := GetBlockNumber (hdb hc) hash in
      Ok (number, if number =? missingNumber then hc else set_numberCache hc (lru_add (numberCache hc) hash number))
  end.

Definition hc_GetTd hc (hash : bytes) (number : Z) : R (option Z) :=
  let '(cached, cache) := lru_get (tdCache hc) hash in
  let hc := set_tdCache hc cache in
  match cached with
  | Some td => Ok (Some td, hc)
  | None =>
      let* td := read (GetTd (hdb hc) hash number) in
      match td with
      | None => Ok (None, hc)
      | Some td => Ok (Some td, set_tdCache hc (lru_add (tdCache hc) hash td))
      end
  end.

Definition hc_GetTdByHash hc (hash : bytes) : R (option Z) :=
  let* (number, hc) := hc_GetBlockNumber hc hash in
  hc_GetTd hc hash number.

Definition hc_WriteTd hc (hash : bytes) (number td : Z) : outcome chain_error HeaderChain :=
  let* d := WriteTd (hdb hc) hash number td in
  let hc := set_hdb hc d in
  Ok (set_tdCache hc (lru_add (tdCache hc) hash td)).

Definition hc_GetHeader hc (hash : bytes) (number : Z) : R (option Header) :=
  let '(cached, cache) := lru_get (headerCache hc) hash in
  let hc := set_headerCache hc cache in
  match cached with
  | Some header => Ok (Some header, hc)
  | None =>
      let* header := read (GetHeader (hdb hc) hash number) in
      match header with
      | None => Ok (None, hc)
      | Some header => Ok (Some header, set_headerCache hc (lru_add (headerCache hc) hash header))
      end
  end.

Definition hc_GetHeaderByHash hc (hash : bytes) : R (option Header) :=
  let* (number, hc) := hc_GetBlockNumber hc hash in
  hc_GetHeader hc hash number.

Definition HasHeader hc (hash : bytes) : R bool :=
  let* (header, hc) := hc_GetHeaderByHash hc hash in
  Ok (match header with Some _ => true | None => false end, hc).

Definition hc_GetHeaderByNumber hc (number : Z) : R (option Header) :=
  let hash := GetCanonicalHash (hdb hc) number in
  if bool_decide (hash = zeros 32) then Ok (None, hc) else hc_GetHeader hc hash number.

(** The end of [WriteGenesisBlock] of genesis.go: writing the block [b] that was
    made from the description, and the batch of its state.  The configuration,
    which is stored as JSON, is left out. *)
Definition write_genesis (d : D) (stateBatch : list (bytes * bytes)) (b : Block) : outcome chain_error (D * Block) :=
  let* found := read (GetBlock d (block_Hash b) (NumberU64 b)) in
  match found with
  | Some b => let* d := WriteCanonicalHash d (block_Hash b) (NumberU64 b) in Ok (d, b)
  | None =>
      let '(d, ok) := db_write d stateBatch in
      if negb ok then Err WriteError
      else
        let* d := WriteTd d (block_Hash b) (NumberU64 b) (hDifficulty (header b)) in
        let* d := WriteBlock d b in
        let* d := WriteBlockReceipts d (block_Hash b) (NumberU64 b) [] in
        let* d := WriteCanonicalHash d (block_Hash b) (NumberU64 b) in
        let* d := WriteHeadBlockHash d (block_Hash b) in
        Ok (d, b)
  end.

(** [WriteDefaultGenesisBlock] is an argument; it returns the header it wrote. *)
Definition NewHeaderChain (writeGenesis : D -> outcome chain_error (D * Header)) (d : D) : outcome chain_error HeaderChain :=
  let hc := mkHC d None None (zeros 32) (lru_new headerCacheLimit) (lru_new tdCacheLimit) (lru_new numberCacheLimit) in
  let* (genesis, hc) := hc_GetHeaderByNumber hc 0 in
  let* (genesis, hc) :=
    (match genesis with
     | Some h => Ok (h, hc)
     | None => let* (d, h) := writeGenesis (hdb hc) in Ok (h, set_hdb hc d)
     end) in
  let hc := mkHC (hdb hc) (Some genesis) (Some genesis) (currentHeaderHash hc) (headerCache hc) (tdCache hc) (numberCache hc) in
  let head := GetHeadBlockHash (hdb hc) in
  let* hc :=
    (if bool_decide (head = zeros 32) then Ok hc
     else
       let* (chead, hc) := hc_GetHeaderByHash hc head in
       match chead with Some h => Ok (set_currentHeader hc (Some h)) | None => Ok hc end) in
  let* current := the (currentHeader hc) in
  Ok (set_currentHeaderHash hc (Header_Hash current)).

(** Hashes of the ancestors of a block. *)
Fixpoint hashes_loop (max : nat) hc (header : Header) : R (list bytes) :=
  match max with
  | O => Ok ([], hc)
  | S max =>
      let next := hParentHash header in
      let* (header, hc) := hc_GetHeader hc next (u64 (hNum header - 1)) in
      match header with
      | None => Ok ([], hc)
      | Some header =>
          if hNumber header =? 0 then Ok ([next], hc)
          else let* (rest, hc) := hashes_loop max hc header in Ok (next :: rest, hc)
      end
  end.

Definition GetBlockHashesFromHash hc (hash : bytes) (max : Z) : R (list bytes) :=
  let* (header, hc) := hc_GetHeaderByHash hc hash in
  match header with None => Ok ([], hc) | Some header => hashes_loop (Z.to_nat max) hc header end.

(** ** Changing the head *)

Definition SetCurrentHeader hc (head : Header) : outcome chain_error HeaderChain :=
  let* d := WriteHeadHeaderHash (hdb hc) (Header_Hash head) in
  Ok (set_currentHeaderHash (set_currentHeader (set_hdb hc d) (Some head)) (Header_Hash head)).

(** The first loop of [WriteHeader]: canonical numbers above the new head. *)
Fixpoint delete_above (fuel : nat) (d : D) (i : Z) : outcome chain_error D :=
  match fuel with
  | O => Panic
  | S fuel =>
      if bool_decide (GetCanonicalHash d i = zeros 32) then Ok d
      else delete_above fuel (DeleteCanonicalHash d i) (u64 (i + 1))
  end.

(** The second one: stale canonical numbers below it. *)
Fixpoint overwrite_stale (fuel : nat) hc (headHash : bytes) (headNumber : Z) (headHeader : option Header) : outcome chain_error HeaderChain :=
  match fuel with
  | O => Panic
  | S fuel =>
      if bool_decide (GetCanonicalHash (hdb hc) headNumber = headHash) then Ok hc
      else
        let* d := WriteCanonicalHash (hdb hc) headHash headNumber in
        let hc := set_hdb hc d in
        let* h := the headHeader in
        let headHash := hParentHash h in
        let headNumber := u64 (hNum h - 1) in
        let* (headHeader, hc) := hc_GetHeader hc headHash headNumber in
        overwrite_stale fuel hc headHash headNumber headHeader
  end.

(** The header becomes the head. *)
Definition make_head (fuel : nat) hc (header : Header) (hash : bytes) (number : Z) : outcome chain_error HeaderChain :=
  let* d := delete_above fuel (hdb hc) (u64 (number + 1)) in
  let hc := set_hdb hc d in
  let headHash := hParentHash header in
  let headNumber := u64 (hNum header - 1) in
  let* (headHeader, hc) := hc_GetHeader hc headHash headNumber in
  let* hc := overwrite_stale fuel hc headHash headNumber headHeader in
  let* d := WriteCanonicalHash (hdb hc) hash number in
  let* d := WriteHeadHeaderHash d hash in
  Ok (set_currentHeaderHash (set_currentHeader (set_hdb hc d) (Some header)) hash).

(** [None] as the status stands for the error that the parent is missing. *)
Definition hc_WriteHeader (fuel : nat) (coin : bool) hc (header : Header) : R (option WriteStatus) :=
  let hash := Header_Hash header in
  let number := hNum header in
  let* (ptd, hc) := hc_GetTd hc (hParentHash header) (u64 (number - 1)) in
  match ptd with
  | None => Ok (None, hc)
  | Some ptd =>
      let* current := the (currentHeader hc) in
      let* (localTd, hc) := hc_GetTd hc (currentHeaderHash hc) (hNum current) in
      let externTd := hDifficulty header + ptd in
      let* hc := hc_WriteTd hc hash number externTd in
      let* d := WriteHeader (hdb hc) header in
      let hc := set_hdb hc d in
      let* localTd := the localTd in
      let* (status, hc) :=
        (if (localTd <? externTd) || ((externTd =? localTd) && coin)
         then let* hc := make_head fuel hc header hash number in Ok (CanonStatTy, hc)
         else Ok (SideStatTy, hc)) in
      let hc := set_headerCache hc (lru_add (headerCache hc) hash header) in
      let hc := set_numberCache hc (lru_add (numberCache hc) hash number) in
      Ok (Some status, hc)
  end.

(** ** Rewinding *)

(** [delFn] is the callback, which changes the database. *)
Fixpoint unwind (fuel : nat) (delFn : D -> bytes -> Z -> D) hc (head : Z) : outcome chain_error HeaderChain :=
  match fuel with
  | O => Panic
  | S fuel =>
      match currentHeader hc with
      | Some h =>
          if head <? hNum h then
            let hash := Header_Hash h in
            let num := hNum h in
            let d := delFn (hdb hc) hash num in
            let d := DeleteHeader d hash num in
            let d := DeleteTd d hash num in
            let* (parent, hc) := hc_GetHeader (set_hdb hc d) (hParentHash h) (u64 (num - 1)) in
            unwind fuel delFn (set_currentHeader hc parent) head
          else Ok hc
      | None => Ok hc
      end
  end.

(** Canonical numbers from [i] down to [head]. *)
Fixpoint roll_back (fuel : nat) (d : D) (i head : Z) : outcome chain_error D :=
  match fuel with
  | O => Panic
  | S fuel => if head <? i then roll_back fuel (DeleteCanonicalHash d i) (i - 1) head else Ok d
  end.

Definition purge hc : HeaderChain :=
  mkHC (hdb hc) (genesisHeader hc) (currentHeader hc) (currentHeaderHash hc) (lru_purge (headerCache hc)) (lru_purge (tdCache hc))
    (lru_purge (numberCache hc)).

Definition SetHead (fuel : nat) (delFn : D -> bytes -> Z -> D) hc (head : Z) : outcome chain_error HeaderChain :=
  let height := match currentHeader hc with Some h => hNum h | None => 0 end in
  let* hc := unwind fuel delFn hc head in
  let* d := roll_back fuel (hdb hc) height head in
  let hc := purge (set_hdb hc d) in
  let hc := match currentHeader hc with None => set_currentHeader hc (genesisHeader hc) | Some _ => hc end in
  let* current := the (currentHeader hc) in
  let hc := set_currentHeaderHash hc (Header_Hash current) in
  let* d := WriteHeadHeaderHash (hdb hc) (currentHeaderHash hc) in
  Ok (set_hdb hc d).

Definition SetGenesis hc (head : Header) : HeaderChain :=
  mkHC (hdb hc) (Some head) (currentHeader hc) (currentHeaderHash hc) (headerCache hc) (tdCache hc) (numberCache hc).
End HeaderChain.
Arguments HeaderChain : clear implicits.

(** ** A cache *)

(** Entries from the most to the least recently used. *)
Record ListLRU (V : Type) := mkLRU { lru_size : nat; lru_items : list (bytes * V) }.
Arguments mkLRU {V}.
Arguments lru_size {V}.
Arguments lru_items {V}.

Section ListLRU.
Context {V : Type}.

Fixpoint lookup_item (k : bytes) (l : list (bytes * V)) : option V :=
  match l with [] => None | (k', v) :: l => if bool_decide (k = k') then Some v else lookup_item k l end.

Definition drop_item (k : bytes) (l : list (bytes * V)) : list (bytes * V) := filter (fun e => e.1 <> k) l.

Definition list_get (c : ListLRU V) (k : bytes) : option V * ListLRU V :=
  match lookup_item k (lru_items c) with
  | Some v => (Some v, mkLRU (lru_size c) ((k, v) :: drop_item k (lru_items c)))
  | None => (None, c)
  end.

Definition list_add (c : ListLRU V) (k : bytes) (v : V) : ListLRU V :=
  mkLRU (lru_size c) (take (lru_size c) ((k, v) :: drop_item k (lru_items c))).

Lemma lookup_drop_item k k' l : lookup_item k' (drop_item k l) = if decide (k' = k) then None else lookup_item k' l.
Proof.
  induction l as [|[k1 v] l IH]; [by case_decide|]. unfold drop_item. destruct (decide (k1 <> k)) as [Hn|Hn].
  - rewrite filter_cons_True by done. cbn [lookup_item]. case_bool_decide as E; [subst; by rewrite decide_False|]. apply IH.
  - rewrite filter_cons_False by done. apply dec_stable in Hn as ->. fold (drop_item k l). rewrite IH. cbn [lookup_item].
    case_decide as E; [done|]. by rewrite bool_decide_false.
Qed.

Lemma lookup_take_item k n l v : lookup_item k (take n l) = Some v -> lookup_item k l = Some v.
Proof.
  revert n. induction l as [|[k1 w] l IH]; intros n; [by rewrite take_nil|]. destruct n; [done|]. cbn. case_bool_decide; [done|]. apply IH.
Qed.
End ListLRU.

#[global] Instance ListLRU_lru : LRU ListLRU := {
  lru_new V n := mkLRU (Z.to_nat n) [];
  lru_get V := list_get;
  lru_add V := list_add;
  lru_remove V c k := mkLRU (lru_size c) (drop_item k (lru_items c));
  lru_purge V c := mkLRU (lru_size c) [];
  lru_peek V c k := lookup_item k (lru_items c)
}.

#[global] Instance ListLRU_laws : LRULaws ListLRU.
Proof.
  split; intros V.
  - done.
  - intros c k. cbn. unfold list_get. by destruct (lookup_item k (lru_items c)).
  - intros c k k'. cbn. unfold list_get. destruct (lookup_item k (lru_items c)) as [v|] eqn:E; [|done]. cbn.
    case_bool_decide as Ek; [by subst|]. by rewrite lookup_drop_item, decide_False.
  - intros c k v k' w. cbn. unfold list_add. cbn. intros E%lookup_take_item. cbn in E. case_bool_decide as Ek; [left; split; congruence|].
    right. split; [done|]. by rewrite lookup_drop_item, decide_False in E.
  - intros c k k'. cbn. apply lookup_drop_item.
  - done.
Qed.
