(* ===== verification/HeaderChainSpec.v ===== *)
(** * What the header chain promises

    The canonical numbers of the database follow the parents of the head, the
    total difficulties are the sums along them, and the caches agree with the
    database.  Writing a header and rewinding preserve this. *)

From stdpp Require Import functions.
From S2P Require Import Prelude RlpEncode RlpRaw RlpStream Helper Keccak Database TrieNode Trie TrieHash StateTrie State Types TypesSpec ChainDb ChainDbSpec HeaderChain.

#[global] Instance Header_eq_dec : EqDecision Header.
Proof. solve_decision. Defined.

Section Spec.
Context `{Hash256} `{StoreLaws D} `{LRULaws C}.
Context (B X : bytes -> Prop) (BX : forall b x, B b -> X x -> blockHashPrefix ++ b <> x ++ txMetaSuffix).

(** The headers that may be written: they can be stored, and have distinct
    hashes, none of them zero. *)
Record headers_ok (U : Header -> Prop) : Prop := {
  u_header x : U x -> header_ok x;
  u_fits x : U x -> fits (header_val x) header_type;
  u_low x : U x -> low x;
  u_key x : U x -> B (Header_Hash x);
  u_nonzero x : U x -> Header_Hash x <> zeros 32;
  u_difficulty x : U x -> hDifficulty x < 2 ^ 256;
  u_inj x y : U x -> U y -> Header_Hash x = Header_Hash y -> x = y
}.
Context (U : Header -> Prop) (Uok : headers_ok U).

Implicit Types (hc : HeaderChain D C) (a : achain) (x y g p cur : Header).

(** ** Results *)

(** The operation returns and [P] holds, or a write to the store failed. *)
Definition gives {A} (m : outcome chain_error A) (P : A -> Prop) : Prop :=
  match m with Ok r => P r | Err e => e <> EncodeFailed /\ ~ reliable (D := D) | Panic => False end.

Lemma gives_bind {A A'} (m : outcome chain_error A) (k : A -> outcome chain_error A') P Q :
  gives m P -> (forall r, P r -> gives (k r) Q) -> gives (let* r := m in k r) Q.
Proof. destruct m; cbn; auto. Qed.

Lemma gives_impl {A} (m : outcome chain_error A) (P Q : A -> Prop) : gives m P -> (forall r, P r -> Q r) -> gives m Q.
Proof. destruct m; cbn; auto. Qed.

(** ** Headers in the store *)

Definition stored a x : Prop := aHeader a (Header_Hash x) (num x) = Some x.

(** Every header is stored under its hash and number. *)
Definition indexed a : Prop := forall h n x, aHeader a h n = Some x -> U x /\ h = Header_Hash x /\ n = num x.

Record db_ok hc a : Prop := {
  ok_rep : rep B X (db_get (hdb hc)) a;
  ok_stored : indexed a;
  ok_cached h x : lru_peek (headerCache hc) h = Some x -> U x /\ h = Header_Hash x
}.

(** The caches hold what is in the database. *)
Record fresh hc a : Prop := {
  fr_header h x : lru_peek (headerCache hc) h = Some x -> stored a x;
  fr_td h t : lru_peek (tdCache hc) h = Some t -> exists x, stored a x /\ h = Header_Hash x /\ aTd a h (num x) = Some t;
  fr_number h n : lru_peek (numberCache hc) h = Some n -> exists x, stored a x /\ h = Header_Hash x /\ n = num x;
  fr_numbers h n : a (KNumber h) = Some (CNum n) <-> exists x, stored a x /\ h = Header_Hash x /\ n = num x;
  fr_tds h n t : aTd a h n = Some t -> exists x, stored a x /\ h = Header_Hash x /\ n = num x
}.

(** Only the caches differ. *)
Definition quiet hc hc' : Prop :=
  hdb hc' = hdb hc /\ genesisHeader hc' = genesisHeader hc /\ currentHeader hc' = currentHeader hc /\
  currentHeaderHash hc' = currentHeaderHash hc.

#[global] Instance quiet_refl : Reflexive quiet.
Proof. done. Qed.
#[global] Instance quiet_trans : Transitive quiet.
Proof. intros h1 h2 h3 (? & ? & ? & ?) (? & ? & ? & ?). repeat split; congruence. Qed.

Lemma hash_length x : length (Header_Hash x) = 32%nat.
Proof. unfold Header_Hash, rlpHash. destruct (EncodeToBytes _ _); apply Keccak256_length. Qed.

Lemma U_num x : U x -> num_ok (num x).
Proof. intros Ux. apply low_ok. pose proof (num_range x). pose proof (u_low U Uok x Ux) as L. unfold low in L. lia. Qed.

Lemma stored_U a x : indexed a -> stored a x -> U x.
Proof. intros Ix S. apply (Ix _ _ _ S). Qed.

Lemma stored_inj a x y : indexed a -> stored a x -> stored a y -> Header_Hash x = Header_Hash y -> x = y.
Proof. intros Ix Sx Sy. apply (u_inj U Uok); by apply (stored_U a). Qed.

Lemma db_reads hc a : db_ok hc a -> reads B X (hdb hc) a.
Proof. intros Ok. exact (rep_reads B X _ _ (ok_rep hc a Ok)). Qed.

(** ** Lookups *)

Lemma peek_added {V} (c : C V) k k' v w (P : bytes -> V -> Prop) :
  (forall k' w, lru_peek c k' = Some w -> P k' w) -> P k v -> lru_peek (lru_add c k v) k' = Some w -> P k' w.
Proof. intros Hc Hv E. apply lru_peek_add in E as [[-> ->]|[_ E]]; auto. Qed.

(** A cache that only lost or gained an entry that is right. *)
Lemma header_cache_ok hc a c :
  db_ok hc a -> (forall h x, lru_peek c h = Some x -> U x /\ h = Header_Hash x) -> db_ok (set_headerCache hc c) a.
Proof. intros [R S _] Hc. by split. Qed.

Lemma GetHeader_hit hc a x :
  db_ok hc a -> stored a x ->
  exists hc', hc_GetHeader hc (Header_Hash x) (num x) = Ok (Some x, hc') /\ quiet hc hc' /\ db_ok hc' a /\ (fresh hc a -> fresh hc' a).
Proof.
  intros Ok S. pose proof (stored_U a x (ok_stored hc a Ok) S) as Ux. unfold hc_GetHeader.
  pose proof (eq_sym (lru_get_peek (headerCache hc) (Header_Hash x))) as G. pose proof (lru_peek_get (headerCache hc) (Header_Hash x)) as P.
  destruct (lru_get (headerCache hc) (Header_Hash x)) as [o c]. cbn [fst snd] in G, P.
  assert (Hc : forall h y, lru_peek c h = Some y -> U y /\ h = Header_Hash y) by (intros h y; rewrite P; apply (ok_cached hc a Ok)).
  destruct o as [y|].
  - exists (set_headerCache hc c). destruct (ok_cached hc a Ok _ _ G) as [Uy E]. apply (u_inj U Uok) in E; [subst y|done..].
    split; [done|]. split; [done|]. split; [by apply header_cache_ok|]. intros [F1 F2 F3 F4 F5]. split; try done. intros h y. cbn. rewrite P. apply F1.
  - cbn [set_headerCache hdb]. rewrite (reads_header _ _ _ _ (db_reads hc a Ok)) by (apply hash_length || by apply U_num).
    rewrite S. cbn [read obind]. eexists. split; [done|]. split; [done|]. split.
    + apply header_cache_ok; [by apply header_cache_ok|]. intros h y. by apply (peek_added _ _ _ _ _ (fun h y => U y /\ h = Header_Hash y)).
    + intros [F1 F2 F3 F4 F5]. split; try done. intros h y. apply (peek_added _ _ _ _ _ (fun _ y => stored a y)); [|done].
      intros h' y'. cbn. rewrite P. apply F1.
Qed.

Lemma GetTd_hit hc a x t :
  db_ok hc a -> fresh hc a -> stored a x -> aTd a (Header_Hash x) (num x) = Some t ->
  exists hc', hc_GetTd hc (Header_Hash x) (num x) = Ok (Some t, hc') /\ quiet hc hc' /\ db_ok hc' a /\ fresh hc' a.
Proof.
  intros Ok F S T. pose proof (stored_U a x (ok_stored hc a Ok) S) as Ux. unfold hc_GetTd.
  pose proof (eq_sym (lru_get_peek (tdCache hc) (Header_Hash x))) as G. pose proof (lru_peek_get (tdCache hc) (Header_Hash x)) as P.
  destruct (lru_get (tdCache hc) (Header_Hash x)) as [o c]. cbn [fst snd] in G, P.
  destruct Ok as [R St Ca], F as [F1 F2 F3 F4 F5].
  assert (Hc : forall h t, lru_peek c h = Some t -> exists x, stored a x /\ h = Header_Hash x /\ aTd a h (num x) = Some t)
    by (intros h t'; rewrite P; apply F2).
  destruct o as [t'|].
  - exists (set_tdCache hc c). destruct (F2 _ _ G) as (y & Sy & E & Ty).
    apply (u_inj U Uok) in E; [subst y|done|apply (St _ _ _ Sy)]. rewrite T in Ty. injection Ty as <-. by repeat (split; [done|]).
  - cbn [set_tdCache hdb]. rewrite (reads_td _ _ _ _ (rep_reads B X _ _ R)) by (apply hash_length || by apply U_num).
    rewrite T. cbn [read obind]. eexists. split; [done|]. split; [done|]. split; [done|]. split; try done.
    intros h t'. apply (peek_added _ _ _ _ _ (fun h t => exists x, stored a x /\ h = Header_Hash x /\ aTd a h (num x) = Some t)); [done|]. exists x. done.
Qed.

(** ** Changes of the store *)

Lemma aHeader_insert a k v h n :
  aHeader (<[k := v]> a) h n =
  if decide (k = KHeader h n) then match v with Some (CHeader x) => Some x | _ => None end else aHeader a h n.
Proof. unfold aHeader. case_decide as E; [subst; by rewrite fn_lookup_insert|by rewrite fn_lookup_insert_ne]. Qed.

Lemma aTd_insert a k v h n :
  aTd (<[k := v]> a) h n = if decide (k = KTd h n) then match v with Some (CTd x) => Some x | _ => None end else aTd a h n.
Proof. unfold aTd. case_decide as E; [subst; by rewrite fn_lookup_insert|by rewrite fn_lookup_insert_ne]. Qed.

Lemma aHash_insert a k v k' :
  aHash (<[k := v]> a) k' = if decide (k = k') then match v with Some (CHash x) => x | _ => zeros 32 end else aHash a k'.
Proof. unfold aHash. case_decide as E; [subst; by rewrite fn_lookup_insert|by rewrite fn_lookup_insert_ne]. Qed.

(** The keys of headers, with their numbers and total difficulties. *)
Definition header_key (k : ckey) : Prop := match k with KNumber _ | KHeader _ _ | KTd _ _ => True | _ => False end.

Definition same_headers a a' : Prop := forall k, header_key k -> a' k = a k.

#[global] Instance same_headers_equiv : Equivalence same_headers.
Proof.
  split; [by intros a k|by intros a a' E k K; rewrite E|]. intros a1 a2 a3 E1 E2 k K. by rewrite E2, E1.
Qed.

Lemma same_aHeader a a' h n : same_headers a a' -> aHeader a' h n = aHeader a h n.
Proof. intros E. unfold aHeader. by rewrite (E (KHeader h n) I). Qed.

Lemma same_aTd a a' h n : same_headers a a' -> aTd a' h n = aTd a h n.
Proof. intros E. unfold aTd. by rewrite (E (KTd h n) I). Qed.

Lemma same_parent a a' x : same_headers a a' -> parent a' x = parent a x.
Proof. apply same_aHeader. Qed.

Lemma same_ancestor a a' x y : same_headers a a' -> ancestor a x y -> ancestor a' x y.
Proof. intros E. induction 1 as [|x z y P _ IH]; [constructor|]. econstructor; [|done]. by rewrite (same_parent _ _ _ E). Qed.

Lemma same_stored a a' x : same_headers a a' -> stored a x -> stored a' x.
Proof. intros E S. unfold stored. by rewrite (same_aHeader _ _ _ _ E). Qed.

Lemma same_insert a k v : ~ header_key k -> same_headers a (<[k := v]> a).
Proof. intros N k' K. rewrite fn_lookup_insert_ne; [done|]. by intros ->. Qed.

Lemma db_ok_same hc a a' d : db_ok hc a -> same_headers a a' -> rep B X (db_get d) a' -> db_ok (set_hdb hc d) a'.
Proof. intros [R S Ca] E R'. split; [done|..|done]. intros h n x. rewrite (same_aHeader a a') by done. apply S. Qed.

Lemma fresh_same hc a a' d : fresh hc a -> same_headers a a' -> fresh (set_hdb hc d) a'.
Proof.
  intros [F1 F2 F3 F4 F5] E. split; cbn [set_hdb headerCache tdCache numberCache].
  - intros h x Hx. apply (same_stored a); eauto.
  - intros h t Ht. destruct (F2 h t Ht) as (x & S & -> & T). exists x. rewrite (same_aTd a a') by done. eauto using same_stored.
  - intros h n Hn. destruct (F3 h n Hn) as (x & S & -> & ->). eauto using same_stored.
  - intros h n. rewrite (E (KNumber h) I), F4. split; intros (x & S & -> & ->); exists x; (split; [|done]).
    + by apply (same_stored a).
    + by apply (same_stored a').
  - intros h n t. rewrite (same_aTd a a') by done. intros Ht. destruct (F5 h n t Ht) as (x & S & -> & ->). eauto using same_stored.
Qed.

Lemma le_ok n : 0 <= n <= 2 ^ 62 -> num_ok n.
Proof. intros Hn. assert (n / 2 ^ 56 <= 64) by (apply Z.div_le_upper_bound; lia). split; [lia|]. lia. Qed.

Lemma hash_entry_ok k x :
  key_ok B X k -> match k with KCanonical _ | KHeadHeader | KHeadBlock | KHeadFast => True | _ => False end ->
  entry_ok B X (k, Some (CHash (Header_Hash x))).
Proof.
  intros K M. split; [done|]. intros v [= <-]. split; [|by destruct k; try apply hash_length]. unfold fits. cbn.
  pose proof (hash_length x). pose proof (enc_string_len_short (Header_Hash x)). lia.
Qed.

Lemma header_entry_ok x : U x -> Forall (entry_ok B X) (header_entries x).
Proof.
  intros Ux. pose proof (hash_length x) as L. pose proof (U_num x Ux) as N. pose proof (num_range x).
  constructor; [|constructor; [|constructor]].
  - split; [split; [done|by apply (u_key U Uok)]|]. intros v [= <-]. split; [|done]. unfold fits. cbn [cval_val cval_type enc].
    assert (Le : length (encodeBlockNumber (u64 (hNumber x))) = 8%nat) by apply be_fixed_length.
    pose proof (enc_string_len_short (encodeBlockNumber (u64 (hNumber x)))). lia.
  - split; [by split|]. intros v [= <-]. split; [by apply (u_fits U Uok)|by apply (u_header U Uok)].
Qed.

(** ** The loops of [WriteHeader] *)

Lemma delete_above_ok fuel (d : D) a i m :
  rep B X (db_get d) a -> 0 <= i -> i <= m + 1 -> m < 2 ^ 62 -> m + 1 - i < Z.of_nat fuel ->
  (forall n, i <= n <= m -> aHash a (KCanonical n) <> zeros 32) -> aHash a (KCanonical (m + 1)) = zeros 32 ->
  exists d' a', delete_above fuel d i = Ok d' /\ rep B X (db_get d') a' /\
    forall k, a' k = match k with KCanonical n => if (i <=? n) && (n <=? m) then None else a k | _ => a k end.
Proof.
  revert d a i. induction fuel as [|fuel IH]; intros d a i R L0 L1 L2 Fu Nz Z0; [lia|]. cbn [delete_above].
  rewrite (reads_canonical _ _ _ _ (rep_reads B X d a R)) by (apply le_ok; lia).
  destruct (Z.eq_dec i (m + 1)) as [->|Ne].
  - rewrite bool_decide_true by done. exists d, a. split; [done|]. split; [done|]. intros [] ; try done.
    destruct (Z.leb_spec (m + 1) n), (Z.leb_spec n m); done || lia.
  - rewrite bool_decide_false by (apply Nz; lia). rewrite u64_small by lia.
    destruct (IH (DeleteCanonicalHash d i) (<[KCanonical i := None]> a) (i + 1)) as (d' & a' & E & R' & Ha); try lia.
    + apply (delete_rep B X BX d a (KCanonical i)); [done|]. apply le_ok; lia.
    + intros n Hn. rewrite aHash_insert, decide_False by (intros [=]; lia). apply Nz; lia.
    + rewrite aHash_insert, decide_False by (intros [=]; lia). done.
    + exists d', a'. split; [done|]. split; [done|]. intros k. rewrite Ha.
      destruct (decide (k = KCanonical i)) as [->|Nk].
      * rewrite fn_lookup_insert. destruct (Z.leb_spec (i + 1) i); [lia|]. destruct (Z.leb_spec i i), (Z.leb_spec i m); done || lia.
      * rewrite fn_lookup_insert_ne by congruence. destruct k; try done. assert (n <> i) by congruence.
        destruct (Z.leb_spec (i + 1) n), (Z.leb_spec i n), (Z.leb_spec n m); done || lia.
Qed.

(** ** Branches *)

Lemma ok_numbered a : indexed a -> numbered a.
Proof.
  intros Ix h n x E. destruct (Ix h n x E) as (Ux & -> & ->). split; [by apply (u_header U Uok)|]. split; [done|].
  split; [by apply U_num|]. pose proof (u_low U Uok x Ux) as L. unfold low in L. unfold missingNumber. lia.
Qed.

Lemma ok_parent a x y : indexed a -> parent a x = Some y -> stored a y /\ hParentHash x = Header_Hash y /\ num x = num y + 1.
Proof.
  intros Ix E. pose proof (parent_num a (ok_numbered a Ix) x y E) as N. unfold parent in E.
  destruct (Ix _ _ _ E) as (_ & Eh & En). rewrite Eh, En in E. done.
Qed.

(** The branch of a header reaches down to [g], and its total difficulty. *)
Inductive weighs a g : Header -> Z -> Prop :=
| weighs_genesis : stored a g -> num g = 0 -> weighs a g g (hDifficulty g)
| weighs_step x y t : stored a x -> parent a x = Some y -> weighs a g y t -> weighs a g x (hDifficulty x + t).

Lemma weighs_stored a g x t : weighs a g x t -> stored a x.
Proof. by destruct 1. Qed.

Lemma weighs_root a g x t : weighs a g x t -> stored a g /\ num g = 0 /\ ancestor a x g.
Proof. induction 1 as [|x y t S P W IH]; [split; [done|]; split; [done|constructor]|]. destruct IH as (? & ? & ?). split; [done|]. split; [done|]. by econstructor. Qed.

Lemma weighs_fun a g x t t' : indexed a -> weighs a g x t -> weighs a g x t' -> t = t'.
Proof.
  intros Ok W. revert t'. induction W as [S N|x y t S P W IH]; intros t' W'; inversion W' as [S' N' |x' y' u S' P' W2]; subst; try done.
  - destruct (ok_parent a _ _ Ok P') as (_ & _ & ?). pose proof (num_range y'). lia.
  - destruct (ok_parent a _ _ Ok P) as (_ & _ & ?). pose proof (num_range y). lia.
  - rewrite P in P'. injection P' as <-. f_equal. by apply IH.
Qed.

Lemma weighs_ancestor a g x t y : numbered a -> weighs a g x t -> ancestor a x y -> exists u, weighs a g y u.
Proof.
  intros Nm W A. revert t W. induction A as [x|x z y P A IH]; intros t W; [eauto|].
  inversion W as [S N|x' z' u S P' W2]; subst.
  - apply (parent_num a Nm) in P. pose proof (num_range z). lia.
  - rewrite P in P'. injection P' as <-. by eapply IH.
Qed.

(** There is an ancestor at every height. *)
Lemma ancestor_at a g x t n : numbered a -> weighs a g x t -> 0 <= n <= num x -> exists y, ancestor a x y /\ num y = n.
Proof.
  intros Nm W. induction W as [S N|x z t S P W IH]; intros L; [exists g; split; [constructor|lia]|].
  apply (parent_num a Nm) in P as E. destruct (Z.eq_dec n (num x)) as [->|]; [exists x; split; [constructor|done]|].
  destruct IH as (y & A & Ny); [lia|]. exists y. split; [by econstructor|done].
Qed.

Lemma ancestor_stored a x y : indexed a -> stored a x -> ancestor a x y -> stored a y.
Proof. intros Ok S A. induction A as [|x z y P A IH]; [done|]. apply IH. apply (ok_parent a x z Ok P). Qed.

Lemma same_weighs a a' g x t : same_headers a a' -> weighs a g x t -> weighs a' g x t.
Proof.
  intros E. induction 1 as [|x y t S P W IH]; [constructor; [by apply (same_stored a)|done]|].
  econstructor; [by apply (same_stored a)|by rewrite (same_parent _ _ _ E)|done].
Qed.

(** The canonical hashes are those of the branch of [cur], up to height [m]. *)
Definition canon_upto a cur (m : Z) : Prop :=
  (forall y, ancestor a cur y -> num y <= m -> aHash a (KCanonical (num y)) = Header_Hash y) /\
  (forall n, num cur < n <= m -> aHash a (KCanonical n) = zeros 32).

Lemma overwrite_stale_ok fuel hc a g cur tc y ty :
  db_ok hc a -> fresh hc a -> weighs a g cur tc -> weighs a g y ty -> canon_upto a cur (num y) -> num y < Z.of_nat fuel ->
  gives (overwrite_stale fuel hc (Header_Hash y) (num y) (Some y)) (fun hc' =>
    exists a', db_ok hc' a' /\ fresh hc' a' /\ same_headers a a' /\
      genesisHeader hc' = genesisHeader hc /\ currentHeader hc' = currentHeader hc /\
      (forall n, num y < n -> aHash a' (KCanonical n) = aHash a (KCanonical n)) /\
      (forall z, ancestor a y z -> aHash a' (KCanonical (num z)) = Header_Hash z)).
Proof.
  revert hc a y ty. induction fuel as [|fuel IH]; intros hc a y ty Ok F Wc Wy Cn Fu; [pose proof (num_range y); lia|].
  pose proof (ok_stored hc a Ok) as Ix. pose proof (ok_numbered a Ix) as Nm. pose proof (weighs_stored _ _ _ _ Wy) as Sy.
  pose proof (stored_U a y Ix Sy) as Uy. pose proof (num_range y) as Ry.
  cbn [overwrite_stale]. rewrite (reads_canonical _ _ _ _ (db_reads hc a Ok)) by by apply U_num.
  case_bool_decide as E.
  - exists a. repeat (split; [done|]). intros z A. pose proof (ancestor_num a Nm _ _ A).
    destruct (Z.le_gt_cases (num y) (num cur)) as [Le|Gt].
    + destruct (ancestor_at a g cur tc (num y) Nm Wc) as (c & Ac & Nc); [lia|].
      pose proof (proj1 Cn c Ac ltac:(lia)) as Ec. rewrite Nc, E in Ec.
      apply (stored_inj a y c Ix Sy) in Ec; [subst c|by apply (ancestor_stored a cur); [|by eapply weighs_stored|]].
      apply (proj1 Cn); [by eapply ancestor_trans|lia].
    + pose proof (proj2 Cn (num y) ltac:(lia)) as Ez. rewrite E in Ez. by apply (u_nonzero U Uok y Uy) in Ez.
  - inversion Wy as [S N|? p tp S P Wp]; subst.
    { destruct (weighs_root _ _ _ _ Wc) as (_ & _ & Ag). pose proof (proj1 Cn y Ag ltac:(lia)). congruence. }
    destruct (ok_parent a y p Ix P) as (Sp & Ep & Np). pose proof (num_range p).
    eapply (gives_bind _ _ _ _ (put_refines B X BX (hdb hc) a (KCanonical (num y)) _ (ok_rep hc a Ok) (hash_entry_ok (KCanonical (num y)) y (U_num y Uy) I))).
    intros d R. set (a1 := <[KCanonical (num y) := Some (CHash (Header_Hash y))]> a) in *.
    assert (Sa : same_headers a a1) by (apply same_insert; intros []).
    pose proof (db_ok_same hc a a1 d Ok Sa R) as Ok1. pose proof (fresh_same hc a a1 d F Sa) as F1.
    cbn [the obind]. unfold hNum. fold (num y). rewrite Ep. replace (u64 (num y - 1)) with (num p) by (rewrite u64_small by lia; lia).
    destruct (GetHeader_hit (set_hdb hc d) a1 p Ok1 (same_stored a a1 p Sa Sp)) as (hc2 & -> & (Q1 & Q2 & Q3 & _) & Ok2 & F2).
    cbn [obind].
    eapply gives_impl; [eapply (IH hc2 a1 p tp); [done|by apply F2|by apply (same_weighs a)|by apply (same_weighs a)| |lia]|].
    { split.
      - intros z A Nz. unfold a1. rewrite aHash_insert, decide_False by (intros [=]; lia).
        apply (proj1 Cn); [by apply (same_ancestor a1 a); [symmetry|]|lia].
      - intros n Hn. unfold a1. rewrite aHash_insert, decide_False by (intros [=]; lia). apply (proj2 Cn). lia. }
    intros hc' (a' & Ok' & F' & Sa' & Eg & Ecur & Hi & Lo). exists a'. repeat (split; [done|]). split; [by etrans|].
    split; [by rewrite Eg, Q2|]. split; [by rewrite Ecur, Q3|]. split.
    + intros n Hn. rewrite Hi by lia. unfold a1. by rewrite aHash_insert, decide_False by (intros [=]; lia).
    + intros z A. inversion A as [|? q ? Pq Aq]; subst.
      * rewrite Hi by lia. unfold a1. by rewrite aHash_insert, decide_True.
      * rewrite P in Pq. injection Pq as <-. apply Lo. by apply (same_ancestor a).
Qed.

(** ** Storing a header *)

Definition put a x (t : Z) : achain :=
  foldl apply_entry (<[KTd (Header_Hash x) (num x) := Some (CTd t)]> a) (header_entries x).

Lemma put_key a x t k :
  put a x t k =
  if decide (k = KHeader (Header_Hash x) (num x)) then Some (CHeader x)
  else if decide (k = KNumber (Header_Hash x)) then Some (CNum (num x))
  else if decide (k = KTd (Header_Hash x) (num x)) then Some (CTd t) else a k.
Proof.
  unfold put. cbn [header_entries foldl]. unfold apply_entry. cbn [fst snd]. fold (num x).
  repeat case_decide; subst; rewrite ?fn_lookup_insert; try done; repeat (rewrite fn_lookup_insert_ne by congruence);
    rewrite ?fn_lookup_insert; done.
Qed.

Lemma put_aHeader a x t h n : aHeader (put a x t) h n = if decide (h = Header_Hash x /\ n = num x) then Some x else aHeader a h n.
Proof.
  unfold aHeader. rewrite put_key. destruct (decide (h = Header_Hash x /\ n = num x)) as [[-> ->]|Ne].
  - by rewrite decide_True.
  - rewrite !decide_False by (intros [=]; auto). done.
Qed.

Lemma put_aTd a x t h n : aTd (put a x t) h n = if decide (h = Header_Hash x /\ n = num x) then Some t else aTd a h n.
Proof.
  unfold aTd. rewrite put_key. destruct (decide (h = Header_Hash x /\ n = num x)) as [[-> ->]|Ne].
  - rewrite !(decide_False (P := KTd _ _ = _)) by discriminate. by rewrite decide_True.
  - rewrite !decide_False by (intros [=]; auto). done.
Qed.

Lemma put_aHash a x t k : ~ header_key k -> aHash (put a x t) k = aHash a k.
Proof. intros N. unfold aHash. rewrite put_key, !decide_False; [done|by intros ->..]. Qed.

Lemma put_indexed a x t : U x -> indexed a -> indexed (put a x t).
Proof. intros Ux Ix h n y. rewrite put_aHeader. case_decide as E; [destruct E as [-> ->]; by intros [= <-]|apply Ix]. Qed.

Lemma put_stored a x t y : U x -> indexed a -> stored (put a x t) y <-> y = x \/ stored a y.
Proof.
  intros Ux Ix. unfold stored. rewrite put_aHeader. case_decide as E.
  - destruct E as [E _]. split; [intros [= ->]; by left|]. intros [->|S]; [done|]. f_equal. symmetry.
    apply (u_inj U Uok); [by apply (stored_U a)|done..].
  - split; [by right|]. intros [->|S]; [by destruct E|done].
Qed.

Lemma put_parent a x t y p : U x -> indexed a -> parent a y = Some p -> parent (put a x t) y = Some p.
Proof.
  intros Ux Ix P. unfold parent. rewrite put_aHeader. case_decide as E; [|done]. destruct E as [E _].
  destruct (ok_parent a y p Ix P) as (Sp & Ep & _). f_equal. apply (u_inj U Uok); [done|by apply (stored_U a)|congruence].
Qed.

Lemma put_weighs a x t g y u : U x -> indexed a -> weighs a g y u -> weighs (put a x t) g y u.
Proof.
  intros Ux Ix. induction 1 as [|y z u S P W IH]; [constructor; [apply put_stored; auto|done]|].
  econstructor; [apply put_stored; auto|by apply put_parent|done].
Qed.

Lemma put_ancestor a x t y z : U x -> indexed a -> ancestor a y z -> ancestor (put a x t) y z.
Proof. intros Ux Ix. induction 1; [constructor|]. econstructor; [by apply put_parent|done]. Qed.

(** Below the stored headers of a branch nothing is added. *)
Lemma put_ancestor_inv a x t g y u z :
  U x -> indexed a -> weighs a g y u -> ancestor (put a x t) y z -> ancestor a y z.
Proof.
  intros Ux Ix W A. revert u W. induction A as [|y p z P A IH]; intros u W; [constructor|].
  inversion W as [S N|? q v S Pq Wq]; subst.
  - destruct (ok_parent _ _ p (put_indexed a x t Ux Ix) P) as (_ & _ & ?). pose proof (num_range p). lia.
  - rewrite (put_parent a x t y q Ux Ix Pq) in P. injection P as <-. econstructor; [done|by eapply IH].
Qed.

Lemma put_child a x t g p u :
  U x -> indexed a -> weighs a g p u -> hParentHash x = Header_Hash p -> num x = num p + 1 ->
  parent (put a x t) x = Some p /\ weighs (put a x t) g x (hDifficulty x + u).
Proof.
  intros Ux Ix W Ep Np. pose proof (weighs_stored _ _ _ _ W) as Sp. pose proof (num_range p). pose proof (num_range x).
  assert (P : parent (put a x t) x = Some p).
  { unfold parent. rewrite Ep. replace (u64 (num x - 1)) with (num p) by (rewrite u64_small by lia; lia).
    apply put_stored; auto. }
  split; [done|]. econstructor; [apply put_stored; auto|done|by apply put_weighs].
Qed.

Lemma weighs_range a g x t : indexed a -> weighs a g x t -> 0 <= t < (num x + 1) * 2 ^ 256.
Proof.
  intros Ix. induction 1 as [S N|x y t S P W IH].
  - pose proof (stored_U a g Ix S) as Ug. pose proof (u_difficulty U Uok g Ug). pose proof (ok_Difficulty _ (u_header U Uok g Ug)). lia.
  - pose proof (stored_U a x Ix S) as Ux. pose proof (u_difficulty U Uok x Ux). pose proof (ok_Difficulty _ (u_header U Uok x Ux)).
    destruct (ok_parent a x y Ix P) as (_ & _ & ?). lia.
Qed.

Lemma td_fits t : 0 <= t < 2 ^ 62 * 2 ^ 256 -> fits (VInt t) TBigInt.
Proof.
  intros L. unfold fits. cbn. pose proof (Bytes_length t 40) as Le. change (256 ^ Z.of_nat 40) with (2 ^ 320) in Le.
  pose proof (enc_string_len_short (Bytes t)). assert (length (Bytes t) <= 40)%nat by (apply Le; lia). lia.
Qed.

(** ** The new head *)

Definition canon a cur : Prop := forall m, canon_upto a cur m.

Definition head_is hc a cur : Prop :=
  currentHeader hc = Some cur /\ currentHeaderHash hc = Header_Hash cur /\ aHash a KHeadHeader = Header_Hash cur.

(** Canonical hashes above [num x] are gone, the others are as before. *)
Lemma cut_ok fuel hc a g cur tc x :
  db_ok hc a -> weighs a g cur tc -> canon a cur -> U x -> num cur + num x < Z.of_nat fuel ->
  exists d a', delete_above fuel (hdb hc) (num x + 1) = Ok d /\ rep B X (db_get d) a' /\ same_headers a a' /\
    (forall n, n <= num x -> aHash a' (KCanonical n) = aHash a (KCanonical n)) /\ (forall n, num x < n -> aHash a' (KCanonical n) = zeros 32).
Proof.
  intros Ok W Cn Ux Fu. pose proof (ok_stored hc a Ok) as Ix. pose proof (ok_numbered a Ix) as Nm.
  pose proof (stored_U a cur Ix (weighs_stored _ _ _ _ W)) as Uc. pose proof (num_range x). pose proof (num_range cur).
  pose proof (u_low U Uok x Ux) as Lx. pose proof (u_low U Uok cur Uc) as Lc. unfold low in Lx, Lc.
  assert (Z0 : forall n, num cur < n -> aHash a (KCanonical n) = zeros 32) by (intros n Hn; by apply (Cn n)).
  destruct (delete_above_ok fuel (hdb hc) a (num x + 1) (Z.max (num cur) (num x))) as (d & a' & E & R & Ha);
    [apply (ok_rep hc a Ok)|lia..| |apply Z0; lia|].
  { intros n Hn. destruct (ancestor_at a g cur tc n Nm W) as (y & A & <-); [lia|].
    rewrite (proj1 (Cn (num y)) y A) by lia. apply (u_nonzero U Uok), (stored_U a); [done|].
    by apply (ancestor_stored a cur); [|by eapply weighs_stored|]. }
  exists d, a'. split; [done|]. split; [done|]. split; [intros [] Hk; rewrite Ha; done|]. unfold aHash. split.
  - intros n Hn. rewrite Ha. destruct (Z.leb_spec (num x + 1) n); [lia|done].
  - intros n Hn. rewrite Ha. destruct (Z.leb_spec (num x + 1) n); [|lia]. destruct (Z.leb_spec n (Z.max (num cur) (num x))); [done|].
    apply Z0. lia.
Qed.

(** Only the database and the caches matter to the following. *)
Lemma db_ok_ext hc hc' a : hdb hc' = hdb hc -> headerCache hc' = headerCache hc -> db_ok hc a -> db_ok hc' a.
Proof. intros E1 E2 [R Ix Ca]. split; by rewrite ?E1, ?E2. Qed.

Lemma fresh_ext hc hc' a :
  headerCache hc' = headerCache hc -> tdCache hc' = tdCache hc -> numberCache hc' = numberCache hc -> fresh hc a -> fresh hc' a.
Proof. intros E1 E2 E3 [F1 F2 F3 F4 F5]. split; by rewrite ?E1, ?E2, ?E3. Qed.

Lemma put_head_ok hc a x :
  db_ok hc a -> fresh hc a -> U x ->
  gives
    (let* d := WriteCanonicalHash (hdb hc) (Header_Hash x) (num x) in
     let* d := WriteHeadHeaderHash d (Header_Hash x) in
     Ok (set_currentHeaderHash (set_currentHeader (set_hdb hc d) (Some x)) (Header_Hash x)))
    (fun hc' => exists a', db_ok hc' a' /\ fresh hc' a' /\ same_headers a a' /\ genesisHeader hc' = genesisHeader hc /\ head_is hc' a' x /\
      forall n, aHash a' (KCanonical n) = if decide (n = num x) then Header_Hash x else aHash a (KCanonical n)).
Proof.
  intros Ok F Ux.
  eapply gives_bind; [exact (put_refines B X BX (hdb hc) a (KCanonical (num x)) _ (ok_rep hc a Ok) (hash_entry_ok (KCanonical _) x (U_num x Ux) I))|].
  intros d1 R1.
  eapply gives_bind; [exact (put_refines B X BX d1 _ KHeadHeader _ R1 (hash_entry_ok KHeadHeader x I I))|].
  intros d2 R2. set (a1 := <[KCanonical (num x) := _]> a) in *. set (a2 := <[KHeadHeader := _]> a1) in *.
  assert (S2 : same_headers a a2) by (unfold a2, a1; etrans; [|apply same_insert; intros []]; apply same_insert; intros []).
  exists a2. split; [apply (db_ok_ext (set_hdb hc d2)); [done..|]; by apply (db_ok_same hc a)|].
  split; [apply (fresh_ext (set_hdb hc d2)); [done..|]; by apply (fresh_same hc a)|]. split; [done|]. split; [done|].
  split; [split; [done|]; split; [done|]; unfold a2; by rewrite aHash_insert, decide_True|].
  intros n. unfold a2, a1. rewrite aHash_insert, decide_False by done. rewrite aHash_insert.
  destruct (decide (n = num x)) as [->|]; [by rewrite decide_True|by rewrite decide_False by congruence].
Qed.

Lemma make_head_ok fuel hc a g cur tc x p tp :
  db_ok hc a -> fresh hc a -> weighs a g cur tc -> canon a cur -> stored a x -> parent a x = Some p -> weighs a g p tp ->
  num cur + num x < Z.of_nat fuel ->
  gives (make_head fuel hc x (Header_Hash x) (num x)) (fun hc' =>
    exists a', db_ok hc' a' /\ fresh hc' a' /\ same_headers a a' /\ genesisHeader hc' = genesisHeader hc /\
      head_is hc' a' x /\ canon a' x).
Proof.
  intros Ok F Wc Cn Sx P Wp Fu. pose proof (ok_stored hc a Ok) as Ix. pose proof (stored_U a x Ix Sx) as Ux.
  pose proof (num_range x). pose proof (num_range cur). pose proof (u_low U Uok x Ux) as Lx. unfold low in Lx.
  destruct (ok_parent a x p Ix P) as (Sp & Ep & Np). pose proof (num_range p).
  unfold make_head. rewrite u64_small by lia.
  destruct (cut_ok fuel hc a g cur tc x Ok Wc Cn Ux Fu) as (d & a1 & -> & R1 & S1 & Lo1 & Hi1). cbn [obind].
  pose proof (db_ok_same hc a a1 d Ok S1 R1) as Ok1. pose proof (fresh_same hc a a1 d F S1) as F1.
  unfold hNum. fold (num x). rewrite Ep. replace (u64 (num x - 1)) with (num p) by (rewrite u64_small by lia; lia).
  destruct (GetHeader_hit (set_hdb hc d) a1 p Ok1 (same_stored a a1 p S1 Sp)) as (hc2 & -> & (Q1 & Q2 & Q3 & _) & Ok2 & F2).
  specialize (F2 F1). cbn [obind].
  assert (Cp : canon_upto a1 cur (num p)).
  { split.
    - intros y A Hy. rewrite Lo1 by lia. apply (Cn (num p)); [|done]. by apply (same_ancestor a1); [symmetry|].
    - intros n Hn. rewrite Lo1 by lia. by apply (Cn (num p)). }
  eapply gives_bind; [apply (overwrite_stale_ok fuel hc2 a1 g cur tc p tp); try done; [by apply (same_weighs a)..|lia]|].
  intros hc3 (a3 & Ok3 & F3 & S3 & Eg & _ & Hi3 & Lo3).
  eapply gives_impl; [by apply (put_head_ok hc3 a3)|]. intros hc5 (a5 & Ok5 & F5 & S5 & Eg5 & Hd & K).
  assert (Sx5 : same_headers a a5) by (etrans; [|done]; by etrans).
  exists a5. repeat (split; [done|]). split; [by rewrite Eg5, Eg, Q2|]. split; [done|].
  intros m. split.
  - intros y A _. rewrite K. apply (same_ancestor a5 a) in A; [|by symmetry]. inversion A as [|? q ? Pq Aq]; subst; [by rewrite decide_True|].
    rewrite P in Pq. injection Pq as <-. pose proof (ancestor_num a (ok_numbered a Ix) _ _ Aq).
    rewrite decide_False by lia. apply Lo3. by apply (same_ancestor a).
  - intros n Hn. rewrite K, decide_False by lia. rewrite Hi3 by lia. apply Hi1. lia.
Qed.

(** ** Writing a header *)

Lemma put_header_fresh hc a x t d :
  U x -> indexed a -> fresh hc a -> fresh (set_tdCache (set_hdb hc d) (lru_add (tdCache hc) (Header_Hash x) t)) (put a x t).
Proof.
  intros Ux Ix [F1 F2 F3 F4 F5].
  assert (Ps : forall y, stored a y -> stored (put a x t) y) by (intros y Sy; apply put_stored; auto).
  assert (Px : stored (put a x t) x) by (apply put_stored; auto).
  split; cbn [set_tdCache set_hdb headerCache tdCache numberCache].
  - eauto.
  - intros h u E. apply lru_peek_add in E as [[-> ->]|[Ne E]].
    + exists x. rewrite put_aTd, decide_True by done. done.
    + destruct (F2 h u E) as (y & Sy & -> & Ty). exists y. rewrite put_aTd, decide_False by (intros []; congruence). auto.
  - intros h n E. destruct (F3 h n E) as (y & Sy & -> & ->). eauto.
  - intros h n. rewrite put_key, decide_False by discriminate. destruct (decide (KNumber h = KNumber (Header_Hash x))) as [[= ->]|Ne].
    + split; [intros [= <-]; eauto|]. intros (y & Sy & Eh & ->). apply put_stored in Sy as [->|Sy]; [done| |done..].
      apply (u_inj U Uok) in Eh; [by subst|done|by apply (stored_U a)].
    + rewrite decide_False by discriminate. rewrite F4. split; intros (y & Sy & Eh & ->); exists y; (split; [|done]); [by auto|].
      apply put_stored in Sy as [->|Sy]; [congruence|done..].
  - intros h n u. rewrite put_aTd. case_decide as E; [destruct E as [-> ->]; eauto|]. intros T.
    destruct (F5 h n u T) as (y & Sy & -> & ->). eauto.
Qed.

Lemma store_header_ok hc a x t :
  db_ok hc a -> fresh hc a -> U x -> 0 <= t < 2 ^ 62 * 2 ^ 256 ->
  gives (let* s := hc_WriteTd hc (Header_Hash x) (num x) t in let* d := WriteHeader (hdb s) x in Ok (set_hdb s d)) (fun hc' =>
    db_ok hc' (put a x t) /\ fresh hc' (put a x t) /\ genesisHeader hc' = genesisHeader hc /\ currentHeader hc' = currentHeader hc /\
    currentHeaderHash hc' = currentHeaderHash hc).
Proof.
  intros Ok F Ux Ht. pose proof (ok_stored hc a Ok) as Ix. pose proof (hash_length x) as L. pose proof (U_num x Ux) as N.
  pose proof (num_range x).
  assert (E1 : entry_ok B X (KTd (Header_Hash x) (num x), Some (CTd t))).
  { split; [done|]. intros v [= <-]. split; [by apply td_fits|cbn; lia]. }
  pose proof (header_entry_ok x Ux) as Eh.
  unfold hc_WriteTd. pose proof (WriteTd_refines B X BX (hdb hc) a _ _ _ (ok_rep hc a Ok) E1) as R1.
  destruct (WriteTd (hdb hc) (Header_Hash x) (num x) t) as [d1| |]; cbn [obind]; [|done..]. cbn [refines] in R1.
  pose proof (WriteHeader_refines B X BX d1 _ x R1 Eh) as R2. cbn [set_tdCache set_hdb hdb].
  destruct (WriteHeader d1 x) as [d2| |]; cbn [obind]; [|done..]. cbn [refines] in R2.
  split; [split; [exact R2|by apply put_indexed|apply (ok_cached hc a Ok)]|]. split; [|done].
  apply (fresh_ext (set_tdCache (set_hdb hc d2) (lru_add (tdCache hc) (Header_Hash x) t))); [done..|]. by apply put_header_fresh.
Qed.

(** A chain with head [cur] on the genesis [g].  [ah] holds all headers that were
    ever written; those that are left in the store [a] have their total
    difficulty in it, and the head can be followed down to [g]. *)
Record chain_ok g hc a cur ah : Prop := {
  co_db : db_ok hc a;
  co_fresh : fresh hc a;
  co_genesis : genesisHeader hc = Some g;
  co_indexed : indexed ah;
  co_history x : stored ah x -> exists t, weighs ah g x t;
  co_sub x : stored a x -> stored ah x;
  co_td x t : stored a x -> weighs ah g x t -> aTd a (Header_Hash x) (num x) = Some t;
  co_head : head_is hc a cur;
  co_root : exists t, weighs a g cur t;
  co_canon : canon a cur
}.

Lemma weighs_sub a ah g x t :
  indexed a -> indexed ah -> (forall x, stored a x -> stored ah x) -> weighs a g x t -> weighs ah g x t.
Proof.
  intros Ix Ih Sub. induction 1 as [S N|x y t S P W IH]; [constructor; auto|]. econstructor; [by auto| |done].
  destruct (ok_parent a x y Ix P) as (Sy & Ep & Np). pose proof (num_range y). pose proof (num_range x).
  unfold parent. rewrite Ep. replace (u64 (num x - 1)) with (num y) by (rewrite u64_small by lia; lia). by apply Sub.
Qed.

(** No header in the store has a larger total difficulty than the head. *)
Definition heaviest a ah g cur : Prop :=
  forall y t tc, stored a y -> weighs ah g y t -> weighs ah g cur tc -> t <= tc.

Lemma cached_ok hc a x :
  db_ok hc a -> fresh hc a -> stored a x ->
  let hc' := set_numberCache (set_headerCache hc (lru_add (headerCache hc) (Header_Hash x) x)) (lru_add (numberCache hc) (Header_Hash x) (num x)) in
  db_ok hc' a /\ fresh hc' a.
Proof.
  intros Ok F S hc'. pose proof (stored_U a x (ok_stored hc a Ok) S) as Ux. destruct Ok as [R Ix Ca], F as [F1 F2 F3 F4 F5]. split; split; try done.
  - intros h y. by apply (peek_added _ _ _ _ _ (fun h y => U y /\ h = Header_Hash y)).
  - intros h y. by apply (peek_added _ _ _ _ _ (fun _ y => stored a y)).
  - intros h n. apply (peek_added _ _ _ _ _ (fun h n => exists y, stored a y /\ h = Header_Hash y /\ n = num y)); [done|]. by exists x.
Qed.

Section Write.
Context (g : Header) (hc : HeaderChain D C) (a : achain) (cur : Header) (ah : achain) (Ok : chain_ok g hc a cur ah).
Context (x p : Header) (tp tc : Z) (Ux : U x) (Wp : weighs a g p tp) (Wc : weighs a g cur tc).
Context (Ep : hParentHash x = Header_Hash p) (Np : num x = num p + 1).

Let t : Z := hDifficulty x + tp.

Lemma write_td : 0 <= t < 2 ^ 62 * 2 ^ 256.
Proof.
  pose proof (weighs_range a g p tp (ok_stored hc a (co_db _ _ _ _ _ Ok)) Wp). pose proof (u_difficulty U Uok x Ux).
  pose proof (ok_Difficulty _ (u_header U Uok x Ux)). pose proof (u_low U Uok x Ux) as L. unfold low in L. pose proof (num_range p). unfold t. nia.
Qed.

(** What is left to show for the new chain once the head is known. *)
Lemma write_chain hc' a' cur' :
  db_ok hc' a' -> fresh hc' a' -> same_headers (put a x t) a' -> genesisHeader hc' = genesisHeader hc -> head_is hc' a' cur' ->
  canon a' cur' -> cur' = x \/ cur' = cur -> chain_ok g hc' a' cur' (put ah x t).
Proof.
  intros Ok' F' S Eg Hd Cn Cu. pose proof (ok_stored hc a (co_db _ _ _ _ _ Ok)) as Ix. pose proof (co_indexed _ _ _ _ _ Ok) as Ih.
  pose proof (weighs_sub a ah g p tp Ix Ih (co_sub _ _ _ _ _ Ok) Wp) as Wh.
  destruct (put_child ah x t g p tp Ux Ih Wh Ep Np) as [_ Wx].
  assert (Sb : forall y, stored a' y -> y = x \/ stored a y).
  { intros y Sy. apply (put_stored a x t); [done..|]. by apply (same_stored a'); [symmetry|]. }
  split; try done.
  - rewrite Eg. apply (co_genesis _ _ _ _ _ Ok).
  - by apply put_indexed.
  - intros y Sy. apply put_stored in Sy as [->|Sy]; [by eexists| |done..].
    destruct (co_history _ _ _ _ _ Ok y Sy) as [u W]. exists u. by apply put_weighs.
  - intros y [->|Sy]%Sb; apply put_stored; auto. right. by apply (co_sub _ _ _ _ _ Ok).
  - intros y u Sy W. rewrite (same_aTd _ _ _ _ S), put_aTd. destruct (decide (y = x)) as [->|Ne].
    + rewrite decide_True by done. f_equal. by apply (weighs_fun (put ah x t) g x); [apply put_indexed|..].
    + destruct (Sb y Sy) as [?|Sy']; [done|].
      rewrite decide_False by (intros [E _]; apply (u_inj U Uok) in E; [done|by apply (stored_U a)|done]).
      destruct (co_history _ _ _ _ _ Ok y (co_sub _ _ _ _ _ Ok y Sy')) as [u' W'].
      assert (u = u') as -> by (apply (weighs_fun (put ah x t) g y); [by apply put_indexed|done|by apply put_weighs]).
      by apply (co_td _ _ _ _ _ Ok).
  - destruct Cu as [->| ->].
    + destruct (put_child a x t g p tp Ux Ix Wp Ep Np) as [_ W]. eexists. by apply (same_weighs _ _ _ _ _ S).
    + exists tc. apply (same_weighs _ _ _ _ _ S). by apply put_weighs.
Qed.

Lemma write_header_ok fuel (coin : bool) :
  num cur + num x < Z.of_nat fuel ->
  gives (hc_WriteHeader fuel coin hc x) (fun r =>
    let wins := (tc <? t) || ((t =? tc) && coin) in
    fst r = Some (if wins then CanonStatTy else SideStatTy) /\
    exists a', chain_ok g (snd r) a' (if wins then x else cur) (put ah x t) /\ same_headers (put a x t) a').
Proof.
  intros Fu. pose proof (co_db _ _ _ _ _ Ok) as Ob. pose proof (ok_stored hc a Ob) as Ix. pose proof (co_indexed _ _ _ _ _ Ok) as Ih.
  pose proof (num_range p). pose proof (num_range x). pose proof (weighs_stored _ _ _ _ Wp) as Sp. pose proof (weighs_stored _ _ _ _ Wc) as Sc.
  pose proof (weighs_sub a ah g p tp Ix Ih (co_sub _ _ _ _ _ Ok) Wp) as Wph. pose proof (weighs_sub a ah g cur tc Ix Ih (co_sub _ _ _ _ _ Ok) Wc) as Wch.
  unfold hc_WriteHeader, hNum. fold (num x). rewrite Ep. replace (u64 (num x - 1)) with (num p) by (rewrite u64_small by lia; lia).
  destruct (GetTd_hit hc a p tp Ob (co_fresh _ _ _ _ _ Ok) Sp (co_td _ _ _ _ _ Ok p tp Sp Wph)) as (hc1 & -> & (Q1 & Q2 & Q3 & Q4) & Ok1 & F1).
  cbn [obind]. destruct (co_head _ _ _ _ _ Ok) as (Hc & Hh & Hk). rewrite Q3, Hc, Q4, Hh. cbn [the obind]. fold (num cur).
  destruct (GetTd_hit hc1 a cur tc Ok1 F1 Sc (co_td _ _ _ _ _ Ok cur tc Sc Wch)) as (hc2 & -> & (R1 & R2 & R3 & R4) & Ok2 & F2).
  cbn [obind]. fold t. pose proof (store_header_ok hc2 a x t Ok2 F2 Ux write_td) as St.
  destruct (hc_WriteTd hc2 (Header_Hash x) (num x) t) as [s| |]; cbn [obind] in *; [|done..].
  destruct (WriteHeader (hdb s) x) as [d| |]; cbn [obind] in *; [|done..].
  set (hc3 := set_hdb s d) in *. clearbody hc3. destruct St as (Ok3 & F3 & Eg3 & Ec3 & Eh3). cbn [the obind].
  destruct (put_child a x t g p tp Ux Ix Wp Ep Np) as [Px Wx].
  assert (Cp : canon (put a x t) cur).
  { intros m. split; [intros y A Hy|intros n Hn]; rewrite put_aHash by (intros []); [|by apply (co_canon _ _ _ _ _ Ok m)].
    apply (co_canon _ _ _ _ _ Ok m); [by eapply put_ancestor_inv|done]. }
  destruct ((tc <? t) || ((t =? tc) && coin)).
  - eapply gives_bind with (P := fun r => fst r = CanonStatTy /\ exists a', db_ok (snd r) a' /\ fresh (snd r) a' /\ same_headers (put a x t) a' /\
      genesisHeader (snd r) = genesisHeader hc3 /\ head_is (snd r) a' x /\ canon a' x).
    + eapply gives_bind; [apply (make_head_ok fuel hc3 (put a x t) g cur tc x p tp); try done; try by apply put_weighs|]; [by eapply weighs_stored|].
      intros hc4 Hn. by split.
    + intros [st hc4]. cbn [fst snd]. intros (-> & a' & Ok4 & F4 & S4 & Eg4 & Hd4 & Cn4). split; [done|]. exists a'. split; [|done].
      destruct (cached_ok hc4 a' x Ok4 F4) as [Ok5 F5]; [apply (same_stored _ _ _ S4); by eapply weighs_stored|].
      apply write_chain; try done; [|by left]. cbn. by rewrite Eg4, Eg3, R2, Q2.
  - cbn [obind]. split; [done|]. exists (put a x t). split; [|done].
    destruct (cached_ok hc3 (put a x t) x Ok3 F3) as [Ok5 F5]; [by eapply weighs_stored|].
    apply write_chain; try done; [cbn; by rewrite Eg3, R2, Q2| |by right]. split; [cbn; by rewrite Ec3, R3, Q3|].
    split; [cbn; by rewrite Eh3, R4, Q4|]. by rewrite put_aHash by (intros []).
Qed.

(** The head stays the heaviest one. *)
Lemma write_heaviest a' (coin : bool) :
  let wins := (tc <? t) || ((t =? tc) && coin) in
  same_headers (put a x t) a' -> heaviest a ah g cur -> heaviest a' (put ah x t) g (if wins then x else cur).
Proof.
  intros wins S Hv y u tc' Sy Wy Wcu. pose proof (ok_stored hc a (co_db _ _ _ _ _ Ok)) as Ix. pose proof (co_indexed _ _ _ _ _ Ok) as Ih.
  pose proof (weighs_sub a ah g p tp Ix Ih (co_sub _ _ _ _ _ Ok) Wp) as Wph. pose proof (weighs_sub a ah g cur tc Ix Ih (co_sub _ _ _ _ _ Ok) Wc) as Wch.
  destruct (put_child ah x t g p tp Ux Ih Wph Ep Np) as [_ Wx]. fold t in Wx. pose proof (put_indexed ah x t Ux Ih) as Ip.
  assert (Ec : tc' = if wins then t else tc).
  { destruct wins; apply (weighs_fun _ _ _ _ _ Ip Wcu); [done|by apply put_weighs]. }
  assert (Le : tc <= (if wins then t else tc) /\ t <= (if wins then t else tc)).
  { unfold wins. destruct (Z.ltb_spec tc t), (Z.eqb_spec t tc), coin; cbn; lia. }
  rewrite Ec. apply (same_stored a' (put a x t)) in Sy; [|by symmetry]. apply put_stored in Sy as [->|Sy]; [| |done..].
  - rewrite (weighs_fun _ _ _ _ _ Ip Wy Wx). lia.
  - destruct (co_history _ _ _ _ _ Ok y (co_sub _ _ _ _ _ Ok y Sy)) as [u' W'].
    rewrite (weighs_fun _ _ _ u u' Ip Wy) by by apply put_weighs. pose proof (Hv y u' tc Sy W' Wch). lia.
Qed.
End Write.

(** ** Rewinding *)

Definition header_keys (w : Header) : list ckey := [KNumber (Header_Hash w); KHeader (Header_Hash w) (num w); KTd (Header_Hash w) (num w)].
Definition body_key (k : ckey) : bool := match k with KBody _ _ => true | _ => false end.

(** The entries of the headers [ws] are gone; bodies do not matter. *)
Definition wiped (ws : list Header) a a' : Prop :=
  forall k, body_key k = false -> a' k = if decide (k ∈ ws ≫= header_keys) then None else a k.

Lemma elem_header_keys k ws : k ∈ ws ≫= header_keys <-> exists w, w ∈ ws /\ (k = KNumber (Header_Hash w) \/ k = KHeader (Header_Hash w) (num w) \/ k = KTd (Header_Hash w) (num w)).
Proof.
  rewrite list_elem_of_bind. unfold header_keys. split.
  - intros (w & K & Ew). exists w. rewrite !elem_of_cons, elem_of_nil in K. intuition.
  - intros (w & Ew & K). exists w. rewrite !elem_of_cons. intuition.
Qed.

Lemma wiped_step w ws a a1 a' : wiped [w] a a1 -> wiped ws a1 a' -> wiped (w :: ws) a a'.
Proof.
  intros W1 W2 k K. rewrite W2, W1 by done. change ((w :: ws) ≫= header_keys) with (header_keys w ++ (ws ≫= header_keys)).
  change ([w] ≫= header_keys) with (header_keys w ++ []). rewrite app_nil_r.
  destruct (decide (k ∈ header_keys w)), (decide (k ∈ ws ≫= header_keys)), (decide (k ∈ header_keys w ++ (ws ≫= header_keys))) as [E|E];
    try done; exfalso; rewrite elem_of_app in E; intuition.
Qed.

Section Wiped.
Context (ws : list Header) (a a' : achain) (Wi : wiped ws a a') (Ix : indexed a) (Sw : forall w, w ∈ ws -> stored a w).

Lemma wiped_aHeader h n x : aHeader a' h n = Some x <-> aHeader a h n = Some x /\ x ∉ ws.
Proof.
  unfold aHeader. rewrite Wi by done. case_decide as E; [apply elem_header_keys in E as (w & Ew & [[=]|[[= -> ->]|[=]]])|].
  - split; [done|]. intros [Ex Nx]. pose proof (Sw w Ew) as S. unfold stored, aHeader in S. rewrite S in Ex. by injection Ex as <-.
  - split; [|by intros []]. intros Ex. split; [done|]. intros Hx. apply E, elem_header_keys. exists x. split; [done|].
    destruct (Ix h n x Ex) as (_ & -> & ->). auto.
Qed.

Lemma wiped_stored x : stored a' x <-> stored a x /\ x ∉ ws.
Proof. apply wiped_aHeader. Qed.

Lemma wiped_indexed : indexed a'.
Proof. intros h n x E. apply wiped_aHeader in E as [E _]. by apply Ix. Qed.

Lemma wiped_aTd h n t : aTd a' h n = Some t <-> aTd a h n = Some t /\ forall w, w ∈ ws -> h = Header_Hash w -> n <> num w.
Proof.
  unfold aTd. rewrite Wi by done. case_decide as E; [apply elem_header_keys in E as (w & Ew & [[=]|[[=]|[= -> ->]]])|].
  - split; [done|]. intros [_ N]. by destruct (N w Ew eq_refl).
  - split; [|by intros []]. intros Et. split; [done|]. intros w Ew -> ->. apply E, elem_header_keys. eauto.
Qed.

Lemma wiped_td x t : stored a' x -> aTd a (Header_Hash x) (num x) = Some t -> aTd a' (Header_Hash x) (num x) = Some t.
Proof.
  intros [Sx Nx]%wiped_stored T. apply wiped_aTd. split; [done|]. intros w Ew Eh _. apply Nx.
  by rewrite (stored_inj a x w Ix Sx (Sw w Ew) Eh).
Qed.

Lemma wiped_parent x p : parent a x = Some p -> p ∉ ws -> parent a' x = Some p.
Proof. intros P Np. by apply wiped_aHeader. Qed.

Lemma wiped_parent_inv x p : parent a' x = Some p -> parent a x = Some p.
Proof. intros P. by apply wiped_aHeader in P as [P _]. Qed.

Lemma wiped_ancestor_inv x y : ancestor a' x y -> ancestor a x y.
Proof. induction 1; [constructor|]. econstructor; [by apply wiped_parent_inv|done]. Qed.

Lemma wiped_ancestor x y : ancestor a x y -> (forall w, w ∈ ws -> num x < num w) -> ancestor a' x y.
Proof.
  induction 1 as [|x p y P A IH]; intros L; [constructor|]. destruct (ok_parent a x p Ix P) as (_ & _ & N).
  econstructor; [apply (wiped_parent x p P)|apply IH]; [intros Hp; specialize (L p Hp); lia|intros w Hw; specialize (L w Hw); lia].
Qed.

Lemma wiped_weighs g x t : weighs a g x t -> (forall w, w ∈ ws -> num x < num w) -> weighs a' g x t.
Proof.
  induction 1 as [S N|x p t S P W IH]; intros L.
  - constructor; [|done]. apply wiped_stored. split; [done|]. intros Hg. specialize (L g Hg). lia.
  - destruct (ok_parent a x p Ix P) as (_ & _ & N).
    econstructor; [apply wiped_stored; split; [done|]; intros Hx; specialize (L x Hx); lia|apply (wiped_parent x p P)|apply IH];
      [intros Hp; specialize (L p Hp); lia|intros w Hw; specialize (L w Hw); lia].
Qed.
End Wiped.

(** A callback that changes nothing but bodies. *)
Definition bodies_only (delFn : D -> bytes -> Z -> D) : Prop :=
  forall d a h n, rep B X (db_get d) a -> length h = 32%nat -> num_ok n ->
    exists a', rep B X (db_get (delFn d h n)) a' /\ forall k, body_key k = false -> a' k = a k.

Lemma DeleteBody_only : bodies_only DeleteBody.
Proof.
  intros d a h n R L N. exists (<[KBody h n := None]> a). split; [by apply (delete_rep B X BX d a (KBody h n))|].
  intros k K. rewrite fn_lookup_insert_ne; [done|]. by intros <-.
Qed.

Lemma wipe_ok delFn (d : D) a x :
  bodies_only delFn -> rep B X (db_get d) a -> U x ->
  exists a', rep B X (db_get (DeleteTd (DeleteHeader (delFn d (Header_Hash x) (num x)) (Header_Hash x) (num x)) (Header_Hash x) (num x))) a' /\
    wiped [x] a a'.
Proof.
  intros Bo R Ux. pose proof (hash_length x) as L. pose proof (U_num x Ux) as N. pose proof (u_key U Uok x Ux) as K.
  destruct (Bo d a _ _ R L N) as (a1 & R1 & E1).
  pose proof (delete_rep B X BX _ _ (KNumber (Header_Hash x)) R1 (conj L K)) as R2.
  pose proof (delete_rep B X BX _ _ (KHeader (Header_Hash x) (num x)) R2 (conj L N)) as R3.
  pose proof (delete_rep B X BX _ _ (KTd (Header_Hash x) (num x)) R3 (conj L N)) as R4.
  eexists. split; [exact R4|]. intros k Bk. cbn [mbind list_bind app]. rewrite <- (E1 k Bk). rewrite app_nil_r.
  destruct (decide (k ∈ header_keys x)) as [E|E]; unfold header_keys in E; rewrite !elem_of_cons, elem_of_nil in E.
  - destruct E as [->|[->|[->|[]]]]; repeat (rewrite ?fn_lookup_insert; try done; rewrite fn_lookup_insert_ne by done).
  - rewrite !fn_lookup_insert_ne; [done|intuition congruence..].
Qed.

Lemma unwind_ok fuel delFn hc a g y ty (head : Z) :
  bodies_only delFn -> db_ok hc a -> weighs a g y ty -> currentHeader hc = Some y -> 0 <= head -> num y < Z.of_nat fuel ->
  exists hc' a' z ws, unwind fuel delFn hc head = Ok hc' /\ db_ok hc' a' /\ genesisHeader hc' = genesisHeader hc /\
    currentHeader hc' = Some z /\ ancestor a y z /\ num z = Z.min head (num y) /\ wiped ws a a' /\
    (forall w, w ∈ ws <-> ancestor a y w /\ head < num w).
Proof.
  intros Bo. revert hc a y ty. induction fuel as [|fuel IH]; intros hc a y ty Ok Wy Hy Lh Fu; [pose proof (num_range y); lia|].
  pose proof (ok_stored hc a Ok) as Ix. pose proof (ok_numbered a Ix) as Nm. pose proof (weighs_stored _ _ _ _ Wy) as Sy.
  cbn [unwind]. rewrite Hy. unfold hNum. fold (num y). destruct (Z.ltb_spec head (num y)) as [Lt|Ge].
  2: { exists hc, a, y, []. split; [done|]. split; [done|]. split; [done|]. split; [done|]. split; [constructor|]. split; [lia|].
       split; [by intros k K|]. intros w. rewrite elem_of_nil. split; [done|]. intros [A L]. apply (ancestor_num a Nm) in A. lia. }
  inversion Wy as [S N|? p tp S P Wp]; subst; [lia|]. destruct (ok_parent a y p Ix P) as (Sp & Ep & Np).
  pose proof (num_range p). pose proof (num_range y).
  destruct (wipe_ok delFn (hdb hc) a y Bo (ok_rep hc a Ok) (stored_U a y Ix Sy)) as (a1 & R1 & W1).
  assert (Sw : forall w, w ∈ [y] -> stored a w) by (intros w ->%list_elem_of_singleton; done).
  assert (Lw : forall w, w ∈ [y] -> num p < num w) by (intros w ->%list_elem_of_singleton; lia).
  set (d1 := DeleteTd _ _ _) in *. clearbody d1.
  assert (Ok1 : db_ok (set_hdb hc d1) a1) by (split; [done|by apply (wiped_indexed [y] a)|apply (ok_cached hc a Ok)]).
  rewrite Ep. replace (u64 (num y - 1)) with (num p) by (rewrite u64_small by lia; lia).
  assert (Sp1 : stored a1 p) by (apply (wiped_stored [y] a a1 W1 Ix Sw); split; [done|]; intros Hp; specialize (Lw p Hp); lia).
  destruct (GetHeader_hit (set_hdb hc d1) a1 p Ok1 Sp1) as (hc2 & -> & (_ & Q2 & _ & _) & Ok2 & _). cbn [obind].
  destruct (IH (set_currentHeader hc2 (Some p)) a1 p tp) as (hc' & a' & z & ws & E & Ok' & Eg & Ez & Az & Nz & Wi & Ws);
    [by apply (db_ok_ext hc2)|by apply (wiped_weighs [y] a)|done|done|lia|].
  exists hc', a', z, (y :: ws). split; [done|]. split; [done|]. split; [by rewrite Eg; cbn; rewrite Q2|]. split; [done|].
  split; [econstructor; [done|by apply (wiped_ancestor_inv [y] a a1)]|]. split; [lia|]. split; [by apply (wiped_step y ws a a1)|].
  intros w. rewrite elem_of_cons, Ws. split.
  - intros [->|[A L]]; [split; [constructor|done]|]. split; [econstructor; [done|by apply (wiped_ancestor_inv [y] a a1)]|done].
  - intros [A L]. inversion A as [|? q ? Pq Aq]; subst; [by left|]. right. rewrite P in Pq. injection Pq as <-.
    split; [by apply (wiped_ancestor [y] a)|done].
Qed.

Lemma roll_back_ok fuel (d : D) a i (head : Z) :
  rep B X (db_get d) a -> 0 <= head -> 0 <= i < 2 ^ 62 -> i < Z.of_nat fuel ->
  exists d' a', roll_back fuel d i head = Ok d' /\ rep B X (db_get d') a' /\
    forall k, a' k = match k with KCanonical n => if (head <? n) && (n <=? i) then None else a k | _ => a k end.
Proof.
  revert d a i. induction fuel as [|fuel IH]; intros d a i R L0 L1 Fu; [lia|]. cbn [roll_back].
  destruct (Z.ltb_spec head i) as [Lt|Ge].
  - destruct (IH (DeleteCanonicalHash d i) (<[KCanonical i := None]> a) (i - 1)) as (d' & a' & E & R' & Ha); [|lia..|].
    { apply (delete_rep B X BX d a (KCanonical i)); [done|]. apply le_ok; lia. }
    exists d', a'. split; [done|]. split; [done|]. intros k. rewrite Ha. destruct (decide (k = KCanonical i)) as [->|Nk].
    + rewrite fn_lookup_insert. destruct (Z.ltb_spec head i), (Z.leb_spec i i), (Z.leb_spec i (i - 1)); done || lia.
    + rewrite fn_lookup_insert_ne by congruence. destruct k; try done. assert (n <> i) by congruence.
      destruct (Z.ltb_spec head n), (Z.leb_spec n i), (Z.leb_spec n (i - 1)); done || lia.
  - exists d, a. split; [done|]. split; [done|]. intros []; try done. destruct (Z.ltb_spec head n), (Z.leb_spec n i); done || lia.
Qed.

(** After a purge the caches agree with any store whose tables do. *)
Lemma purge_fresh hc hc' ws a a' :
  wiped ws a a' -> indexed a -> (forall w, w ∈ ws -> stored a w) -> fresh hc a -> fresh (purge hc') a'.
Proof.
  intros Wi Ix Sw [_ _ _ F4 F5]. pose proof (wiped_stored ws a a' Wi Ix Sw) as Ws. split; cbn [purge headerCache tdCache numberCache].
  - intros h x. by rewrite lru_peek_purge.
  - intros h t. by rewrite lru_peek_purge.
  - intros h n. by rewrite lru_peek_purge.
  - intros h n. rewrite Wi by done. case_decide as E.
    + apply elem_header_keys in E as (w & Ew & [[= ->]|[[=]|[=]]]). split; [done|]. intros (x & [Sx Nx]%Ws & Eh & _).
      destruct Nx. by rewrite <- (stored_inj a w x Ix (Sw w Ew) Sx Eh).
    + rewrite F4. split; intros (x & Sx & -> & ->); exists x; (split; [|done]).
      * apply Ws. split; [done|]. intros Hx. apply E, elem_header_keys. eauto.
      * by apply Ws in Sx as [Sx _].
  - intros h n t [T N]%(wiped_aTd ws a a' Wi). destruct (F5 h n t T) as (x & Sx & -> & ->). exists x. split; [|done].
    apply Ws. split; [done|]. intros Hx. by destruct (N x Hx eq_refl).
Qed.

Lemma set_head_ok fuel delFn g hc a cur ah (head : Z) :
  bodies_only delFn -> chain_ok g hc a cur ah -> 0 <= head -> num cur < Z.of_nat fuel ->
  gives (SetHead fuel delFn hc head) (fun hc' =>
    exists a' z, chain_ok g hc' a' z ah /\ ancestor a cur z /\ num z = Z.min head (num cur) /\
      forall x, stored a' x <-> stored a x /\ ~ (ancestor a cur x /\ head < num x)).
Proof.
  intros Bo Ok Lh Fu. pose proof (co_db _ _ _ _ _ Ok) as Ob. pose proof (ok_stored hc a Ob) as Ix. pose proof (ok_numbered a Ix) as Nm.
  destruct (co_root _ _ _ _ _ Ok) as [tc Wc]. destruct (co_head _ _ _ _ _ Ok) as (Hc & Hh & Hk).
  pose proof (num_range cur). pose proof (u_low U Uok cur (stored_U a cur Ix (weighs_stored _ _ _ _ Wc))) as Lc. unfold low in Lc.
  unfold SetHead. rewrite Hc. unfold hNum. fold (num cur).
  destruct (unwind_ok fuel delFn hc a g cur tc head Bo Ob Wc Hc Lh Fu) as (hc1 & a1 & z & ws & -> & Ok1 & Eg1 & Ez & Az & Nz & Wi & Ws).
  cbn [obind]. destruct (roll_back_ok fuel (hdb hc1) a1 (num cur) head (ok_rep hc1 a1 Ok1) Lh) as (d2 & a2 & -> & R2 & Ha); [lia..|].
  cbn [obind purge set_hdb currentHeader]. rewrite Ez. cbn [purge set_hdb currentHeader]. rewrite Ez.
  cbn [the obind currentHeader hdb set_currentHeaderHash currentHeaderHash].
  assert (Sw : forall w, w ∈ ws -> stored a w).
  { intros w [A _]%Ws. by apply (ancestor_stored a cur); [|by eapply weighs_stored|]. }
  assert (Lw : forall w, w ∈ ws -> num z < num w) by (intros w [A L]%Ws; lia).
  assert (Dd : forall k, header_key k -> a2 k = a1 k) by (intros [] K; try done; apply Ha).
  eapply gives_bind; [exact (put_refines B X BX d2 a2 KHeadHeader _ R2 (hash_entry_ok KHeadHeader z I I))|].
  intros d3 R3. set (a3 := <[KHeadHeader := _]> a2) in *.
  assert (S3 : same_headers a1 a3) by (etrans; [exact Dd|]; apply same_insert; intros []).
  pose proof (wiped_indexed ws a a1 Wi Ix Sw) as Ix1. pose proof (purge_fresh hc hc1 ws a a1 Wi Ix Sw (co_fresh _ _ _ _ _ Ok)) as F1.
  destruct (weighs_ancestor a g cur tc z Nm Wc Az) as [tz Wz].
  exists a3, z. split; [|split; [done|split; [lia|]]].
  - assert (Sb : forall x, stored a3 x -> stored a1 x) by (intros x; apply same_stored; by symmetry).
    assert (Sa : forall x, stored a3 x -> stored a x) by (intros x [Sx _]%Sb%(wiped_stored ws a a1 Wi Ix Sw); done).
    split; try apply Ok.
    + split; [exact R3| |cbn; intros h x; by rewrite lru_peek_purge]. intros h n x. rewrite (same_aHeader _ _ _ _ S3). apply Ix1.
    + apply (fresh_ext (set_hdb (purge hc1) d3)); [done..|]. by apply (fresh_same (purge hc1) a1).
    + cbn. rewrite Eg1. apply Ok.
    + intros x Sx. apply (co_sub _ _ _ _ _ Ok). by apply Sa.
    + intros x t Sx W. rewrite (same_aTd _ _ _ _ S3). apply (wiped_td ws a a1 Wi Ix Sw); [by apply Sb|]. by apply (co_td _ _ _ _ _ Ok); [apply Sa|].
    + split; [done|]. split; [done|]. unfold a3. by rewrite aHash_insert, decide_True.
    + exists tz. apply (same_weighs _ _ _ _ _ S3). by apply (wiped_weighs ws a).
    + intros m. assert (K : forall n, aHash a3 (KCanonical n) = if (head <? n) && (n <=? num cur) then zeros 32 else aHash a (KCanonical n)).
      { intros n. unfold a3. rewrite aHash_insert, decide_False by done. unfold aHash. rewrite Ha. destruct (_ && _); [done|].
        rewrite Wi by done. rewrite decide_False; [done|]. intros E. apply elem_header_keys in E as (w & _ & [[=]|[[=]|[=]]]). }
      split.
      * intros y A _. apply (same_ancestor a3 a1) in A; [|by symmetry]. apply (wiped_ancestor_inv ws a a1 Wi Ix Sw) in A.
        pose proof (ancestor_num a Nm _ _ A). rewrite K. destruct (Z.ltb_spec head (num y)); [lia|]. cbn [andb].
        apply (co_canon _ _ _ _ _ Ok (num y)); [by eapply ancestor_trans|lia].
      * intros n Hn. rewrite K. destruct (Z.ltb_spec head n), (Z.leb_spec n (num cur)); cbn [andb]; try done;
          apply (co_canon _ _ _ _ _ Ok n); lia.
  - intros x. assert (E : stored a3 x <-> stored a1 x) by (split; apply same_stored; [by symmetry|done]).
    rewrite E, (wiped_stored ws a a1 Wi Ix Sw), Ws. done.
Qed.

(** ** Reading through the caches *)

Lemma GetHeader_miss hc a h n :
  db_ok hc a -> fresh hc a -> length h = 32%nat -> num_ok n -> (forall x, stored a x -> h <> Header_Hash x) ->
  exists hc', hc_GetHeader hc h n = Ok (None, hc') /\ quiet hc hc' /\ db_ok hc' a /\ fresh hc' a.
Proof.
  intros Ok F L N No. unfold hc_GetHeader.
  pose proof (eq_sym (lru_get_peek (headerCache hc) h)) as G. pose proof (lru_peek_get (headerCache hc) h) as P.
  destruct (lru_get (headerCache hc) h) as [o c]. cbn [fst snd] in G, P. destruct o as [x|].
  { destruct (ok_cached hc a Ok h x G) as [_ ->]. by destruct (No x (fr_header hc a F _ _ G)). }
  cbn [set_headerCache hdb]. rewrite (reads_header _ _ _ _ (db_reads hc a Ok)) by done.
  destruct (aHeader a h n) as [x|] eqn:E.
  { destruct (ok_stored hc a Ok h n x E) as (_ & -> & ->). by destruct (No x E). }
  cbn [read obind]. eexists. split; [done|]. split; [done|].
  split; [apply header_cache_ok; [done|]; intros h' x; rewrite P; apply (ok_cached hc a Ok)|].
  destruct F as [F1 F2 F3 F4 F5]. split; try done. intros h' x. cbn. rewrite P. apply F1.
Qed.

Lemma GetBlockNumber_ok hc a h :
  db_ok hc a -> fresh hc a -> length h = 32%nat -> B h ->
  exists n hc', hc_GetBlockNumber hc h = Ok (n, hc') /\ quiet hc hc' /\ db_ok hc' a /\ fresh hc' a /\
    ((exists x, stored a x /\ h = Header_Hash x /\ n = num x) \/ n = missingNumber /\ forall x, stored a x -> h <> Header_Hash x).
Proof.
  intros Ok F L Bh. unfold hc_GetBlockNumber.
  pose proof (eq_sym (lru_get_peek (numberCache hc) h)) as G. pose proof (lru_peek_get (numberCache hc) h) as P.
  destruct (lru_get (numberCache hc) h) as [o c]. cbn [fst snd] in G, P.
  assert (Fc : fresh (set_numberCache hc c) a).
  { destruct F as [F1 F2 F3 F4 F5]. split; try done. intros h' n'. cbn. rewrite P. apply F3. }
  assert (Oc : db_ok (set_numberCache hc c) a) by by apply (db_ok_ext hc).
  destruct o as [n|].
  { exists n, (set_numberCache hc c). repeat (split; [done|]). left. apply (fr_number hc a F h n G). }
  cbn [set_numberCache hdb]. rewrite (reads_number _ _ _ _ (db_reads hc a Ok)) by done. cbn [obind]. unfold aNumber.
  destruct (a (KNumber h)) as [v|] eqn:E.
  - pose proof (rep_ok _ _ _ _ (ok_rep hc a Ok) _ _ E) as [_ V]. destruct v; try done.
    pose proof (proj1 (fr_numbers hc a F h n) E) as (x & Sx & -> & ->). destruct (Z.eqb_spec (num x) missingNumber) as [Em|].
    { pose proof (u_low U Uok x (stored_U a x (ok_stored hc a Ok) Sx)) as Lx. unfold low in Lx. rewrite Em in Lx. by vm_compute in Lx. }
    eexists _, _. split; [done|]. split; [done|]. split; [by apply (db_ok_ext (set_numberCache hc c))|]. split; [|left; eauto].
    destruct Fc as [F1 F2 F3 F4 F5]. split; try done. intros h' n'.
    apply (peek_added _ _ _ _ _ (fun h n => exists y, stored a y /\ h = Header_Hash y /\ n = num y)); [done|]. eauto.
  - eexists _, _. split; [done|]. rewrite Z.eqb_refl. split; [done|]. split; [done|]. split; [done|]. right. split; [done|].
    intros x Sx ->. pose proof (proj2 (fr_numbers hc a F (Header_Hash x) (num x))) as K. rewrite E in K. discriminate K. eauto.
Qed.

Lemma GetHeaderByHash_ok hc a h :
  db_ok hc a -> fresh hc a -> length h = 32%nat -> B h ->
  exists o hc', hc_GetHeaderByHash hc h = Ok (o, hc') /\ quiet hc hc' /\ db_ok hc' a /\ fresh hc' a /\
    forall x, o = Some x <-> stored a x /\ h = Header_Hash x.
Proof.
  intros Ok F L Bh. unfold hc_GetHeaderByHash.
  destruct (GetBlockNumber_ok hc a h Ok F L Bh) as (n & hc1 & -> & Q1 & Ok1 & F1 & [(x & Sx & -> & ->)|[-> No]]); cbn [obind].
  - destruct (GetHeader_hit hc1 a x Ok1 Sx) as (hc2 & -> & Q2 & Ok2 & F2). exists (Some x), hc2. split; [done|]. split; [by etrans|].
    split; [done|]. split; [by apply F2|]. intros y. split; [by intros [= <-]|]. intros [Sy Eh]. f_equal. by apply (stored_inj a x y (ok_stored hc a Ok)).
  - destruct (GetHeader_miss hc1 a h missingNumber Ok1 F1 L) as (hc2 & -> & Q2 & Ok2 & F2); [split; [by vm_compute|by split]|done|].
    exists None, hc2. split; [done|]. split; [by etrans|]. split; [done|]. split; [done|]. intros x. split; [done|]. intros [Sx Eh]. by destruct (No x Sx).
Qed.

Lemma GetHeaderByNumber_ok g hc a cur ah n :
  chain_ok g hc a cur ah -> 0 <= n < 2 ^ 62 ->
  exists o hc', hc_GetHeaderByNumber hc n = Ok (o, hc') /\ quiet hc hc' /\ db_ok hc' a /\ fresh hc' a /\
    forall x, o = Some x <-> ancestor a cur x /\ num x = n.
Proof.
  intros Ok Hn. pose proof (co_db _ _ _ _ _ Ok) as Ob. pose proof (ok_stored hc a Ob) as Ix. pose proof (ok_numbered a Ix) as Nm.
  destruct (co_root _ _ _ _ _ Ok) as [tc Wc]. unfold hc_GetHeaderByNumber.
  rewrite (reads_canonical _ _ _ _ (db_reads hc a Ob)) by by apply low_ok.
  destruct (Z.le_gt_cases n (num cur)) as [Le|Gt].
  - destruct (ancestor_at a g cur tc n Nm Wc) as (y & A & <-); [lia|].
    assert (Sy : stored a y) by (by apply (ancestor_stored a cur); [|by eapply weighs_stored|]).
    rewrite (proj1 (co_canon _ _ _ _ _ Ok (num y)) y A) by lia.
    rewrite bool_decide_false by (by apply (u_nonzero U Uok), (stored_U a)).
    destruct (GetHeader_hit hc a y Ob Sy) as (hc2 & -> & Q & Ok2 & F2). exists (Some y), hc2. split; [done|]. split; [done|].
    split; [done|]. split; [by apply F2, (co_fresh _ _ _ _ _ Ok)|]. intros x. split; [by intros [= <-]|]. intros [Ax Nx]. f_equal.
    apply (ancestor_same a Nm); [apply (ancestor_chain a Nm cur); [done..|lia]|lia].
  - rewrite (proj2 (co_canon _ _ _ _ _ Ok n)) by lia. rewrite bool_decide_true by done. exists None, hc. split; [done|]. split; [done|].
    split; [done|]. split; [apply (co_fresh _ _ _ _ _ Ok)|]. intros x. split; [done|]. intros [Ax Nx]. apply (ancestor_num a Nm) in Ax. lia.
Qed.

Lemma unknown_parent fuel coin hc a x :
  db_ok hc a -> fresh hc a -> header_ok x -> low x -> (forall y, stored a y -> hParentHash x <> Header_Hash y) ->
  exists hc', hc_WriteHeader fuel coin hc x = Ok (None, hc') /\ quiet hc hc' /\ db_ok hc' a /\ fresh hc' a.
Proof.
  intros Ok F Hx Lx No. destruct (low_looked_up x Hx Lx) as [L N]. unfold hc_WriteHeader, hNum. fold (num x). unfold hc_GetTd.
  pose proof (eq_sym (lru_get_peek (tdCache hc) (hParentHash x))) as G. pose proof (lru_peek_get (tdCache hc) (hParentHash x)) as P.
  destruct (lru_get (tdCache hc) (hParentHash x)) as [o c]. cbn [fst snd] in G, P. destruct o as [t|].
  { destruct (fr_td hc a F _ t G) as (y & Sy & Eh & _). by destruct (No y Sy). }
  cbn [set_tdCache hdb]. rewrite (reads_td _ _ _ _ (db_reads hc a Ok)) by done.
  destruct (aTd a (hParentHash x) (u64 (num x - 1))) as [t|] eqn:E.
  { destruct (fr_tds hc a F _ _ t E) as (y & Sy & Eh & _). by destruct (No y Sy). }
  cbn [read obind]. eexists. split; [done|]. split; [done|]. split; [by apply (db_ok_ext hc)|].
  destruct F as [F1 F2 F3 F4 F5]. split; try done. intros h t. cbn. rewrite P. apply F2.
Qed.
(** ** The genesis block *)

(** A batch of keys that hold no chain data, such as those of a state. *)
Definition foreign (ws : list (bytes * bytes)) : Prop := 
  Forall (fun e => ~ legacy e.1 /\ ~ mip e.1 /\ forall k, key_ok B X k -> key_bytes k <> e.1) ws.

Lemma foreign_rep (d d' : D) a ws : rep B X (db_get d) a -> foreign ws -> db_write d ws = (d', true) -> rep B X (db_get d') a.
Proof.
  intros [G O L Fi] F W.
  assert (K : forall ws k r, foreign ws -> (legacy k \/ mip k \/ exists c, key_ok B X c /\ k = key_bytes c) ->
    foldl (fun r kv => if decide (k = kv.1) then Some kv.2 else r) r ws = r).
  { clear. intros ws k r Fw Hk. revert r. induction Fw as [|e ws (Nl & Nm & Nk) _ IH]; intros r; [done|]. cbn.
    rewrite decide_False; [apply IH|]. intros ->. destruct Hk as [Le|[Mi|(c & Kc & E)]]; [done..|]. by destruct (Nk c Kc). }
  split; [|done|..].
  - intros k Hk. rewrite (db_get_write _ _ _ _ W), K; [by apply G|done|right; right; eauto].
  - intros k Hk. rewrite (db_get_write _ _ _ _ W), K; [by apply L|done|by left].
  - intros k b Hk. rewrite (db_get_write _ _ _ _ W), K; [by apply Fi|done|by right; left].
Qed.

Definition genesis_ops (b : Block) : list cop :=
  [OTd (block_Hash b) (NumberU64 b) (hDifficulty (header b)); OBlock b; OReceipts (block_Hash b) (NumberU64 b) [];
   OCanonical (block_Hash b) (NumberU64 b); OHeadBlock (block_Hash b)].

Definition genesis_store (b : Block) : achain := spec_ops aempty (genesis_ops b).

Lemma genesis_key (b : Block) k :
  genesis_store b k =
  match k with
  | KHeadBlock => Some (CHash (block_Hash b))
  | KCanonical n => if decide (n = NumberU64 b) then Some (CHash (block_Hash b)) else None
  | KBody h n => if decide (h = block_Hash b /\ n = NumberU64 b) then Some (CBody (block_Body b)) else None
  | KReceipts h n => if decide (h = block_Hash b /\ n = NumberU64 b) then Some (CReceipts []) else None
  | _ => put aempty (header b) (hDifficulty (header b)) k
  end.
Proof.
  rewrite put_key. unfold genesis_store, spec_ops, genesis_ops, spec_op. cbn [op_entries header_entries foldl app]. unfold apply_entry. cbn [fst snd].
  change (u64 (hNumber (header b))) with (num (header b)). change (Header_Hash (header b)) with (block_Hash b).
  change (NumberU64 b) with (num (header b)). generalize (num (header b)) (block_Hash b). intros m hb.
  destruct k; repeat case_decide; destruct_and?; simplify_eq;
    repeat (first [rewrite fn_lookup_insert | rewrite fn_lookup_insert_ne by (intros [=]; subst; intuition)]); done.
Qed.

Lemma genesis_same (b : Block) : same_headers (put aempty (header b) (hDifficulty (header b))) (genesis_store b).
Proof. intros k K. rewrite genesis_key. by destruct k. Qed.

Lemma empty_caches hc a :
  (forall h, lru_peek (headerCache hc) h = None) -> (forall h, lru_peek (tdCache hc) h = None) -> (forall h, lru_peek (numberCache hc) h = None) ->
  indexed a -> rep B X (db_get (hdb hc)) a -> (exists hc', fresh hc' a) -> db_ok hc a /\ fresh hc a.
Proof.
  intros E1 E2 E3 Ix R [hc' [_ _ _ F4 F5]]. split; split; try done.
  - intros h x. by rewrite E1.
  - intros h x. by rewrite E1.
  - intros h t. by rewrite E2.
  - intros h n. by rewrite E3.
Qed.

(** The chain of a store that holds the genesis block only. *)
Lemma genesis_chain hc (b : Block) :
  U (header b) -> NumberU64 b = 0 -> db_ok hc (genesis_store b) -> fresh hc (genesis_store b) -> genesisHeader hc = Some (header b) ->
  gives (SetCurrentHeader hc (header b)) (fun hc' => exists a ah, chain_ok (header b) hc' a (header b) ah /\ heaviest a ah (header b) (header b)).
Proof.
  intros Ug N0 Ok F Eg. set (g := header b) in *. set (ah := put aempty g (hDifficulty g)).
  assert (Ie : indexed aempty) by done. pose proof (put_indexed aempty g (hDifficulty g) Ug Ie) as Ih.
  assert (Sg : forall x, stored ah x <-> x = g) by (intros x; unfold ah; rewrite put_stored by done; split; [intros [?|[=]]; done|by left]).
  unfold SetCurrentHeader.
  eapply gives_bind; [exact (put_refines B X BX (hdb hc) _ KHeadHeader _ (ok_rep hc _ Ok) (hash_entry_ok KHeadHeader g I I))|].
  intros d R. set (a := <[KHeadHeader := _]> (genesis_store b)) in *.
  assert (S : same_headers ah a) by (etrans; [apply genesis_same|]; apply same_insert; intros []).
  assert (S0 : same_headers (genesis_store b) a) by (apply same_insert; intros []).
  assert (Sa : forall x, stored a x -> x = g) by (intros x Sx; apply Sg; by apply (same_stored a); [symmetry|]).
  assert (Wg : weighs ah g g (hDifficulty g)) by (constructor; [by apply Sg|done]).
  assert (Tg : forall x t, stored ah x -> weighs ah g x t -> t = hDifficulty g).
  { intros x t ->%Sg W. by apply (weighs_fun ah g g _ _ Ih). }
  assert (Kc : forall n, aHash a (KCanonical n) = if decide (n = num g) then Header_Hash g else zeros 32).
  { intros n. unfold a. rewrite aHash_insert, decide_False by done. unfold aHash. rewrite genesis_key. change (NumberU64 b) with (num g). by case_decide. }
  exists a, ah. split.
  - split; try done.
    + apply (db_ok_ext (set_hdb hc d)); [done..|]. by apply (db_ok_same hc (genesis_store b)).
    + apply (fresh_ext (set_hdb hc d)); [done..|]. by apply (fresh_same hc (genesis_store b)).
    + intros x ->%Sg. eauto.
    + intros x t Sx%Sa W. subst x. rewrite (Tg g t) by (by apply Sg || done). rewrite (same_aTd _ _ _ _ S). unfold ah. by rewrite put_aTd, decide_True.
    + exists (hDifficulty g). by apply (same_weighs _ _ _ _ _ S).
    + intros m. split.
      * intros y A _. rewrite Kc. inversion A as [|? q ? P _]; subst; [by rewrite decide_True|].
        assert (Ia : indexed a) by (intros h n x; rewrite (same_aHeader _ _ _ _ S); apply Ih).
        destruct (ok_parent a g q Ia P) as (_ & _ & Nq). pose proof (num_range q). change (NumberU64 b) with (num g) in N0. lia.
      * intros n Hn. rewrite Kc, decide_False by lia. done.
  - intros y t tc Sy Wy Wc. rewrite (Tg y t), (Tg g tc); [lia|by apply Sg|done|by rewrite (Sa y Sy); apply Sg|done].
Qed.

Definition block_fits (b : Block) : Prop := body_ok (block_Body b) /\ fits (body_val (block_Body b)) body_type.

Lemma genesis_ops_ok (b : Block) : U (header b) -> block_fits b -> Forall (op_ok B X) (genesis_ops b).
Proof.
  intros Ug [Bo Bf]. pose proof (hash_length (header b)) as L. pose proof (U_num _ Ug) as N.
  pose proof (ok_Difficulty _ (u_header U Uok _ Ug)) as Dp. pose proof (u_difficulty U Uok _ Ug) as Dl.
  assert (Ft : fits (VInt (hDifficulty (header b))) TBigInt) by (apply td_fits; lia).
  assert (Fh : fits (VBytes (Header_Hash (header b))) TBytes).
  { unfold fits. cbn. pose proof (enc_string_len_short (Header_Hash (header b))). lia. }
  assert (E : forall k v, key_ok B X k -> cval_ok k v -> entry_ok B X (k, Some v)) by (intros k v K V; split; [done|by intros v' [= <-]]).
  unfold genesis_ops, op_ok, block_Hash. change (NumberU64 b) with (num (header b)).
  pose proof (header_entry_ok _ Ug) as Hd.
  apply Forall_cons_2; [|apply Forall_cons_2; [|apply Forall_cons_2; [|apply Forall_cons_2; [|apply Forall_cons_2; [|apply Forall_nil_2]]]]];
    cbn [op_entries]; apply Forall_cons_2; try done; try apply Forall_nil_2; apply E; try done; by split.
Qed.

Lemma write_genesis_ok (d : D) ws (b : Block) :
  rep B X (db_get d) aempty -> foreign ws -> U (header b) -> block_fits b ->
  gives (write_genesis d ws b) (fun r => snd r = b /\ rep B X (db_get (fst r)) (genesis_store b)).
Proof.
  intros R Fo Ug Bf. unfold write_genesis. change (NumberU64 b) with (num (header b)).
  rewrite (reads_block _ _ _ _ (rep_reads B X d aempty R)) by (apply hash_length || by apply U_num). cbn [read obind aBlock aHeader aempty].
  destruct (db_write d ws) as [d1 []] eqn:W; cbn [negb].
  2: { split; [done|]. intros [_ Hw]. specialize (Hw d ws). by rewrite W in Hw. }
  pose proof (ops_refine B X BX d1 aempty (genesis_ops b) (foreign_rep d d1 aempty ws R Fo W) (genesis_ops_ok b Ug Bf)) as O.
  unfold genesis_ops in O. cbn [run_ops run_op] in O. change (NumberU64 b) with (num (header b)) in O.
  repeat (match goal with |- gives (obind ?m _) _ => destruct m as [?d| |]; cbn [obind] in *; [|done..] end). done.
Qed.

(** Opening a store that holds the genesis block only. *)
Lemma open_ok (d : D) (b : Block) (writeGenesis : D -> outcome chain_error (D * Header)) :
  rep B X (db_get d) (genesis_store b) -> U (header b) -> NumberU64 b = 0 ->
  exists hc, NewHeaderChain writeGenesis d = Ok hc /\ hdb hc = d /\ db_ok hc (genesis_store b) /\ fresh hc (genesis_store b) /\
    genesisHeader hc = Some (header b).
Proof.
  intros R1 Ug N0. set (g := header b) in *. change (NumberU64 b) with (num g) in N0.
  assert (Ie : indexed aempty) by done. pose proof (put_indexed aempty g (hDifficulty g) Ug Ie) as Ih.
  pose proof (genesis_same b) as S. fold g in S.
  assert (Ix : indexed (genesis_store b)) by (intros h n x; rewrite (same_aHeader _ _ _ _ S); apply Ih).
  assert (Sg : stored (genesis_store b) g) by (apply (same_stored _ _ _ S), put_stored; auto).
  unfold NewHeaderChain. set (hc0 := mkHC d None None (zeros 32) _ _ _).
  assert (Fe : fresh hc0 aempty).
  { split; intros h; cbn; try (intros y; by rewrite lru_peek_new). - intros n. split; [done|]. by intros (x & Sx & _). - done. }
  destruct (empty_caches hc0 (genesis_store b)) as [Ok0 F0]; [intros h; apply lru_peek_new..|done|done| |].
  { eexists. apply (fresh_same _ _ _ d (put_header_fresh hc0 aempty g (hDifficulty g) d Ug Ie Fe) S). }
  unfold hc_GetHeaderByNumber. cbn [hdb hc0].
  rewrite (reads_canonical _ _ _ _ (rep_reads B X d _ R1)) by (by apply le_ok).
  replace (aHash (genesis_store b) (KCanonical 0)) with (Header_Hash g).
  2: { unfold aHash. rewrite genesis_key. change (NumberU64 b) with (num g). by rewrite decide_True. }
  rewrite bool_decide_false by by apply (u_nonzero U Uok).
  destruct (GetHeader_hit hc0 _ g Ok0 Sg) as (hc1 & E1 & (Q1 & _) & Ok1 & F1). rewrite N0 in E1. rewrite E1. cbn [obind].
  specialize (F1 F0). set (hc2 := mkHC (hdb hc1) (Some g) (Some g) _ _ _ _).
  assert (Ok2 : db_ok hc2 (genesis_store b)) by by apply (db_ok_ext hc1). assert (F2 : fresh hc2 (genesis_store b)) by by apply (fresh_ext hc1).
  destruct (reads_heads _ _ _ _ (db_reads hc2 _ Ok2)) as (_ & Hb & _). cbn [hc2 hdb] in Hb. rewrite Hb.
  replace (aHash (genesis_store b) KHeadBlock) with (Header_Hash g) by (unfold aHash; by rewrite genesis_key).
  rewrite bool_decide_false by by apply (u_nonzero U Uok).
  destruct (GetHeaderByHash_ok hc2 _ (Header_Hash g) Ok2 F2 (hash_length g) (u_key U Uok g Ug)) as (o & hc3 & -> & (D3 & G3 & _) & Ok3 & F3 & Ho).
  rewrite (proj2 (Ho g)) by done. cbn [obind the set_currentHeader currentHeader]. eexists. split; [done|].
  split; [cbn; by rewrite D3; cbn; rewrite Q1|]. split; [by apply (db_ok_ext hc3)|]. split; [by apply (fresh_ext hc3)|]. cbn. by rewrite G3.
Qed.

(** Starting a chain on an empty database. *)
Lemma start_ok (d : D) ws (b : Block) (writeGenesis : D -> outcome chain_error (D * Header)) :
  rep B X (db_get d) aempty -> foreign ws -> U (header b) -> NumberU64 b = 0 -> block_fits b ->
  gives (let* (d, _) := write_genesis d ws b in
         let* s := NewHeaderChain writeGenesis d in
         SetCurrentHeader s (header b))
    (fun hc => exists a ah, chain_ok (header b) hc a (header b) ah /\ heaviest a ah (header b) (header b)).
Proof.
  intros R Fo Ug N0 Bf. eapply gives_bind; [by apply write_genesis_ok|]. intros [d1 b1] [Eb R1]. cbn [fst snd] in *. subst b1.
  destruct (open_ok d1 b writeGenesis R1 Ug N0) as (hc & -> & _ & Ok & F & Eg). cbn [obind]. by apply genesis_chain.
Qed.

Lemma chain_quiet g hc hc' a cur ah : quiet hc hc' -> db_ok hc' a -> fresh hc' a -> chain_ok g hc a cur ah -> chain_ok g hc' a cur ah.
Proof.
  intros (Q1 & Q2 & Q3 & Q4) Ok F Co. split; try apply Co; try done; [rewrite Q2; apply Co|].
  destruct (co_head _ _ _ _ _ Co) as (Hc & Hh & Hk). split; [by rewrite Q3|]. split; [by rewrite Q4|done].
Qed.
(** ** Orphans *)

Lemma reliable_gives {A} (m : outcome chain_error A) P : reliable (D := D) -> gives m P -> exists r, m = Ok r /\ P r.
Proof. intros Re. destruct m as [r|e|]; cbn; [eauto|by intros []|done]. Qed.

Lemma reliable_put (d : D) a k x :
  reliable (D := D) -> rep B X (db_get d) a -> entry_ok B X (k, Some (CHash (Header_Hash x))) ->
  exists d', put_fatal d (key_bytes k) (Header_Hash x) = Ok d' /\ rep B X (db_get d') (<[k := Some (CHash (Header_Hash x))]> a).
Proof. intros Re R E. apply (reliable_gives _ (fun d' => rep B X (db_get d') _) Re). exact (put_refines B X BX d a k _ R E). Qed.

Lemma ancestor_sub a ah x y :
  indexed a -> (forall x, stored a x -> stored ah x) -> ancestor a x y -> ancestor ah x y.
Proof.
  intros Ix Sub. induction 1 as [|x p y P A IH]; [constructor|]. econstructor; [|done].
  destruct (ok_parent a x p Ix P) as (Sp & Ep & Np). pose proof (num_range p). pose proof (num_range x).
  unfold parent. rewrite Ep. replace (u64 (num x - 1)) with (num p) by (rewrite u64_small by lia; lia). by apply Sub.
Qed.

(** A branch gets heavier upwards. *)
Lemma weighs_mono a g x y t u : indexed a -> weighs a g x t -> ancestor a x y -> weighs a g y u -> u <= t.
Proof.
  intros Ix W A. revert t W. induction A as [x|x p y P A IH]; intros t W Wy; [by rewrite (weighs_fun a g x u t Ix Wy W)|].
  inversion W as [S N|? q v S Pq Wq]; subst.
  - destruct (ok_parent a _ _ Ix P) as (_ & _ & Np). pose proof (num_range p). lia.
  - rewrite P in Pq. injection Pq as <-. specialize (IH v Wq Wy). pose proof (ok_Difficulty _ (u_header U Uok x (stored_U a x Ix S))). lia.
Qed.

Lemma overwrite_orphan fuel hc a y p :
  reliable (D := D) -> db_ok hc a -> fresh hc a -> stored a y -> U p -> hParentHash y = Header_Hash p -> num y = num p + 1 ->
  ~ stored a p -> aHash a (KCanonical (num y)) = zeros 32 -> aHash a (KCanonical (num p)) = zeros 32 ->
  overwrite_stale fuel hc (Header_Hash y) (num y) (Some y) = Panic.
Proof.
  intros Re Ok F Sy Up Ep Np Nsp Cy Cp. pose proof (ok_stored hc a Ok) as Ix. pose proof (stored_U a y Ix Sy) as Uy.
  pose proof (num_range p). pose proof (num_range y). destruct fuel as [|fuel]; [done|]. cbn [overwrite_stale].
  rewrite (reads_canonical _ _ _ _ (db_reads hc a Ok)), Cy by by apply U_num.
  rewrite bool_decide_false by (intros E; by apply (u_nonzero U Uok y Uy)).
  destruct (reliable_put (hdb hc) a (KCanonical (num y)) y Re (ok_rep hc a Ok)) as (d & E & R); [by apply hash_entry_ok; [apply U_num|]|].
  unfold WriteCanonicalHash at 1. cbn [key_bytes] in E. rewrite E. cbn [obind the]. set (a1 := <[KCanonical (num y) := _]> a) in *.
  assert (S1 : same_headers a a1) by (apply same_insert; intros []).
  pose proof (db_ok_same hc a a1 d Ok S1 R) as Ok1. pose proof (fresh_same hc a a1 d F S1) as F1.
  unfold hNum. fold (num y). rewrite Ep. replace (u64 (num y - 1)) with (num p) by (rewrite u64_small by lia; lia).
  destruct (GetHeader_miss (set_hdb hc d) a1 (Header_Hash p) (num p) Ok1 F1 (hash_length p) (U_num p Up)) as (hc2 & -> & _ & Ok2 & _).
  { intros w Sw Eh. apply (same_stored a1 a) in Sw; [|by symmetry]. apply Nsp.
    by rewrite (u_inj U Uok p w Up (stored_U a w Ix Sw) Eh). }
  cbn [obind]. destruct fuel as [|fuel]; [done|]. cbn [overwrite_stale].
  rewrite (reads_canonical _ _ _ _ (db_reads hc2 a1 Ok2)) by by apply U_num.
  replace (aHash a1 (KCanonical (num p))) with (zeros 32) by (unfold a1; rewrite aHash_insert, decide_False by (intros [=]; lia); done).
  rewrite bool_decide_false by (intros E0; by apply (u_nonzero U Uok p Up)).
  destruct (reliable_put (hdb hc2) a1 (KCanonical (num p)) p Re (ok_rep hc2 a1 Ok2)) as (d2 & E2 & _); [by apply hash_entry_ok; [apply U_num|]|].
  unfold WriteCanonicalHash. cbn [key_bytes] in E2. rewrite E2. done.
Qed.

Lemma make_head_orphan fuel hc a g z tz x y p :
  reliable (D := D) -> db_ok hc a -> fresh hc a -> weighs a g z tz -> canon a z -> U x -> stored a y -> U p ->
  hParentHash x = Header_Hash y -> num x = num y + 1 -> hParentHash y = Header_Hash p -> num y = num p + 1 -> ~ stored a p -> num z < num p ->
  num z + num x < Z.of_nat fuel -> make_head fuel hc x (Header_Hash x) (num x) = Panic.
Proof.
  intros Re Ok F Wz Cn Ux Sy Up Ex Nx Ep Np Nsp Lz Fu.
  pose proof (num_range x). pose proof (num_range y). pose proof (u_low U Uok x Ux) as Lx. unfold low in Lx.
  unfold make_head. rewrite u64_small by lia.
  destruct (cut_ok fuel hc a g z tz x Ok Wz Cn Ux Fu) as (d & a1 & -> & R1 & S1 & Lo1 & _). cbn [obind].
  pose proof (db_ok_same hc a a1 d Ok S1 R1) as Ok1. pose proof (fresh_same hc a a1 d F S1) as F1.
  unfold hNum. fold (num x). rewrite Ex. replace (u64 (num x - 1)) with (num y) by (rewrite u64_small by lia; lia).
  destruct (GetHeader_hit (set_hdb hc d) a1 y Ok1 (same_stored a a1 y S1 Sy)) as (hc2 & -> & _ & Ok2 & F2). cbn [obind].
  rewrite (overwrite_orphan fuel hc2 a1 y p); try done; [by apply F2|by apply (same_stored a)|..].
  - intros Sp. apply Nsp. by apply (same_stored a1); [symmetry|].
  - rewrite Lo1 by lia. apply (Cn (num y)). lia.
  - rewrite Lo1 by lia. apply (Cn (num p)). lia.
Qed.

Lemma set_head_orphan fuel coin g hc a cur ah x y p (head : Z) :
  reliable (D := D) -> chain_ok g hc a cur ah -> 0 <= head -> stored a y -> ~ ancestor a cur y -> parent a y = Some p -> ancestor a cur p ->
  head < num p -> U x -> hParentHash x = Header_Hash y -> num x = num y + 1 -> 0 < hDifficulty x -> num cur + num x < Z.of_nat fuel ->
  exists hc', SetHead fuel DeleteBody hc head = Ok hc' /\ hc_WriteHeader fuel coin hc' x = Panic.
Proof.
  intros Re Ok Lh Sy Ny Py Ap Lp Ux Ex Nx Dx Fu. pose proof (ok_stored hc a (co_db _ _ _ _ _ Ok)) as Ix. pose proof (ok_numbered a Ix) as Nm.
  destruct (ok_parent a y p Ix Py) as (Sp & Ep & Np). pose proof (num_range x). pose proof (num_range y). pose proof (num_range p).
  pose proof (ancestor_num a Nm _ _ Ap) as Lc.
  destruct (reliable_gives _ _ Re (set_head_ok fuel DeleteBody g hc a cur ah head DeleteBody_only Ok Lh ltac:(lia))) as (hc' & E & a' & z & Ok' & Az & Nz & St).
  exists hc'. split; [done|].
  assert (Sy' : stored a' y) by (apply St; split; [done|]; by intros []).
  assert (Np' : ~ stored a' p) by (intros [_ N]%St; by apply N).
  destruct (co_history _ _ _ _ _ Ok y (co_sub _ _ _ _ _ Ok y Sy)) as [ty Wy]. destruct (co_root _ _ _ _ _ Ok') as [tz Wz].
  pose proof (ok_stored hc' a' (co_db _ _ _ _ _ Ok')) as Ix'. pose proof (co_indexed _ _ _ _ _ Ok) as Ih.
  pose proof (weighs_sub a' ah g z tz Ix' Ih (co_sub _ _ _ _ _ Ok') Wz) as Wzh. pose proof (weighs_stored _ _ _ _ Wz) as Sz.
  assert (Ly : tz <= ty).
  { apply (weighs_mono ah g y z ty tz Ih Wy); [|done]. apply (ancestor_sub a ah y z Ix (co_sub _ _ _ _ _ Ok)).
    econstructor; [done|]. apply (ancestor_chain a Nm cur); [done..|lia]. }
  unfold hc_WriteHeader, hNum. fold (num x). rewrite Ex. replace (u64 (num x - 1)) with (num y) by (rewrite u64_small by lia; lia).
  destruct (GetTd_hit hc' a' y ty (co_db _ _ _ _ _ Ok') (co_fresh _ _ _ _ _ Ok') Sy' (co_td _ _ _ _ _ Ok' y ty Sy' Wy)) as (hc1 & -> & (Q1 & Q2 & Q3 & Q4) & Ok1 & F1).
  cbn [obind]. destruct (co_head _ _ _ _ _ Ok') as (Hc & Hh & _). rewrite Q3, Hc, Q4, Hh. cbn [the obind]. fold (num z).
  destruct (GetTd_hit hc1 a' z tz Ok1 F1 Sz (co_td _ _ _ _ _ Ok' z tz Sz Wzh)) as (hc2 & -> & _ & Ok2 & F2). cbn [obind].
  assert (Lt : 0 <= hDifficulty x + ty < 2 ^ 62 * 2 ^ 256).
  { pose proof (weighs_range ah g y ty Ih Wy). pose proof (u_difficulty U Uok x Ux). pose proof (u_low U Uok x Ux) as L. unfold low in L. nia. }
  destruct (reliable_gives _ _ Re (store_header_ok hc2 a' x _ Ok2 F2 Ux Lt)) as (hc3 & E3 & Ok3 & F3 & _).
  destruct (hc_WriteTd hc2 (Header_Hash x) (num x) (hDifficulty x + ty)) as [s| |]; cbn [obind] in *; [|done..].
  destruct (WriteHeader (hdb s) x) as [d| |]; cbn [obind] in *; [|done..]. injection E3 as ->. cbn [the obind].
  rewrite (proj2 (Z.ltb_lt tz (hDifficulty x + ty))) by lia. cbn [orb].
  rewrite (make_head_orphan fuel hc3 (put a' x (hDifficulty x + ty)) g z tz x y p); try done; try lia.
  - by apply put_weighs.
  - intros m. split; [intros w A Hw|intros n Hn]; rewrite put_aHash by (intros []); [|by apply (co_canon _ _ _ _ _ Ok' m)].
    apply (co_canon _ _ _ _ _ Ok' m); [by eapply put_ancestor_inv|done].
  - apply put_stored; auto.
  - by apply (stored_U a).
  - intros [->|Sp']%put_stored; [lia|done..].
Qed.
End Spec.

(** C17: writing a header keeps the canonical chain.  Take a chain whose canonical
    numbers are those of the branch of its head, whose stored total difficulties
    are the sums along the branches, whose caches agree with the database, and
    whose head is the heaviest stored header.  Write a header on top of a stored
    one whose branch reaches the genesis.  With enough steps for the two loops the
    write returns, unless the store fails; the header is stored, it becomes the
    head exactly when its total difficulty is larger than that of the head, or
    equal and the coin says so, and all of this holds again, with the canonical
    numbers redirected to the branch of the new head.  Distinct headers are taken
    to have distinct, non-zero hashes. *)
Theorem WriteHeader_canonical `{Hash256} `{StoreLaws D} `{LRULaws C} (B X : bytes -> Prop) (U : Header -> Prop)
    (g : Header) (hc : HeaderChain D C) (a : achain) (cur : Header) (ah : achain) (x p : Header) (tp tc : Z) (fuel : nat) (coin : bool) :
  (forall b x, B b -> X x -> blockHashPrefix ++ b <> x ++ txMetaSuffix) -> headers_ok B U ->
  chain_ok B X U g hc a cur ah -> heaviest a ah g cur -> U x -> weighs a g p tp -> weighs a g cur tc ->
  hParentHash x = Header_Hash p -> num x = num p + 1 -> num cur + num x < Z.of_nat fuel ->
  gives (D := D) (hc_WriteHeader fuel coin hc x) (fun r =>
    let t := hDifficulty x + tp in
    let wins := (tc <? t) || ((t =? tc) && coin) in
    let head := if wins then x else cur in
    fst r = Some (if wins then CanonStatTy else SideStatTy) /\
    exists a' ah', chain_ok B X U g (snd r) a' head ah' /\ heaviest a' ah' g head /\ forall y, stored a' y <-> y = x \/ stored a y).
Proof.
  intros BX Uok Ok Hv Ux Wp Wc Ep Np Fu.
  eapply gives_impl; [by eapply (write_header_ok B X BX U Uok g hc a cur ah Ok x p tp tc)|].
  intros r [St (a' & Ok' & S)]. split; [done|]. eexists a', _. split; [done|].
  split; [by eapply (write_heaviest B X U Uok g hc a cur ah Ok x p tp tc)|].
  intros y. rewrite <- (put_stored B U Uok a x (hDifficulty x + tp) y Ux (ok_stored _ _ _ _ _ (co_db _ _ _ _ _ _ _ _ Ok))).
  split; apply same_stored; [by symmetry|done].
Qed.

(** C18: rewinding.  [SetHead] makes the ancestor of the head at the given height the
    new head (the head stays when the height is larger), and removes exactly the
    headers of the branch above it from the store; the canonical numbers are again
    those of the branch of the new head, the total difficulties and the caches
    agree with the store.  It returns, unless the store fails. *)
Theorem SetHead_rewinds `{Hash256} `{StoreLaws D} `{LRULaws C} (B X : bytes -> Prop) (U : Header -> Prop)
    (g : Header) (hc : HeaderChain D C) (a : achain) (cur : Header) (ah : achain) (head : Z) (fuel : nat) :
  (forall b x, B b -> X x -> blockHashPrefix ++ b <> x ++ txMetaSuffix) -> headers_ok B U ->
  chain_ok B X U g hc a cur ah -> 0 <= head -> num cur < Z.of_nat fuel ->
  gives (D := D) (SetHead fuel DeleteBody hc head) (fun hc' =>
    exists a' z, chain_ok B X U g hc' a' z ah /\ ancestor a cur z /\ num z = Z.min head (num cur) /\
      forall x, stored a' x <-> stored a x /\ ~ (ancestor a cur x /\ head < num x)).
Proof. intros BX Uok Ok Lh Fu. by apply (set_head_ok B X BX U Uok); [apply DeleteBody_only|..]. Qed.

(** The caches are transparent.  In such a chain a lookup by number returns the
    ancestor of the head at that height and nothing above the head; a lookup by
    hash returns the header with that hash exactly if it is stored, whatever the
    caches hold or evict; and no lookup changes the chain. *)
Theorem lookups_agree `{Hash256} `{StoreLaws D} `{LRULaws C} (B X : bytes -> Prop) (U : Header -> Prop)
    (g : Header) (hc : HeaderChain D C) (a : achain) (cur : Header) (ah : achain) (n : Z) (h : bytes) :
  headers_ok B U -> chain_ok B X U g hc a cur ah -> 0 <= n < 2 ^ 62 -> length h = 32%nat -> B h ->
  (exists o hc', hc_GetHeaderByNumber hc n = Ok (o, hc') /\ quiet hc hc' /\ chain_ok B X U g hc' a cur ah /\
    forall x, o = Some x <-> ancestor a cur x /\ num x = n) /\
  (exists o hc', hc_GetHeaderByHash hc h = Ok (o, hc') /\ quiet hc hc' /\ chain_ok B X U g hc' a cur ah /\
    forall x, o = Some x <-> stored a x /\ h = Header_Hash x).
Proof.
  intros Uok Ok Hn L Bh. split.
  - destruct (GetHeaderByNumber_ok B X U Uok g hc a cur ah n Ok Hn) as (o & hc' & E & Q & Ok' & F' & Ho).
    exists o, hc'. split; [done|]. split; [done|]. split; [|done]. by apply (chain_quiet B X U g hc).
  - destruct (GetHeaderByHash_ok B X U Uok hc a h (co_db _ _ _ _ _ _ _ _ Ok) (co_fresh _ _ _ _ _ _ _ _ Ok) L Bh) as (o & hc' & E & Q & Ok' & F' & Ho).
    exists o, hc'. split; [done|]. split; [done|]. split; [|done]. by apply (chain_quiet B X U g hc).
Qed.

(** Starting a chain.  Writing the genesis block to an empty database, next to
    the entries of its state, then creating the header chain and setting its head
    gives a chain with the genesis as its head for which the above holds. *)
Theorem genesis_starts_chain `{Hash256} `{StoreLaws D} `{LRULaws C} (B X : bytes -> Prop) (U : Header -> Prop)
    (d : D) (ws : list (bytes * bytes)) (b : Block) (writeGenesis : D -> outcome chain_error (D * Header)) :
  (forall b x, B b -> X x -> blockHashPrefix ++ b <> x ++ txMetaSuffix) -> headers_ok B U ->
  (forall k, db_get d k = None) -> foreign B X ws -> U (header b) -> NumberU64 b = 0 -> block_fits b ->
  gives (D := D)
    (let* (d, _) := write_genesis d ws b in
     let* s := NewHeaderChain (C := C) writeGenesis d in
     SetCurrentHeader s (header b))
    (fun hc => exists a ah, chain_ok B X U (header b) hc a (header b) ah /\ heaviest a ah (header b) (header b)).
Proof. intros BX Uok E Fo Ug N0 Bf. by apply (start_ok B X BX U Uok); [apply rep_empty|..]. Qed.

(** C38: rewinding leaves orphans, and the chain panics on them.  Let [y] be a stored
    header that is not on the branch of the head but whose parent [p] is, above
    height [head].  [SetHead head] removes [p] and leaves [y] with its total
    difficulty; a header [x] of positive difficulty written on top of [y] is then
    taken for the new head, and the walk down its branch uses the missing header
    of [p] through a nil pointer, on a store whose writes succeed and whatever the
    coin. *)
Theorem SetHead_orphan_panics `{Hash256} `{StoreLaws D} `{LRULaws C} (B X : bytes -> Prop) (U : Header -> Prop)
    (g : Header) (hc : HeaderChain D C) (a : achain) (cur : Header) (ah : achain) (x y p : Header) (head : Z) (fuel : nat) (coin : bool) :
  (forall b x, B b -> X x -> blockHashPrefix ++ b <> x ++ txMetaSuffix) -> headers_ok B U -> reliable (D := D) ->
  chain_ok B X U g hc a cur ah -> 0 <= head -> stored a y -> ~ ancestor a cur y -> parent a y = Some p -> ancestor a cur p -> head < num p ->
  U x -> hParentHash x = Header_Hash y -> num x = num y + 1 -> 0 < hDifficulty x -> num cur + num x < Z.of_nat fuel ->
  exists hc', SetHead fuel DeleteBody hc head = Ok hc' /\ hc_WriteHeader fuel coin hc' x = Panic.
Proof. intros BX Uok Re Ok Lh Sy Ny Py Ap Lp Ux Ex Nx Dx Fu. by apply (set_head_orphan B X BX U Uok fuel coin g hc a cur ah x y p). Qed.

(** ** Witnesses *)

#[local] Existing Instance keccak_hash.

(** Two blocks on a child of the genesis, and one on top of the second of them. *)
Definition on (parent : bytes) (number time : Z) : Header :=
  mkHeader parent (zeros 32) (zeros 20) (zeros 32) (zeros 32) (zeros 32) (zeros 256) 131072 number 5000 0 time []
    (zeros 32) (zeros 8).
Definition left2 : Header := on (Header_Hash (child 10)) 2 20.
Definition right2 : Header := on (Header_Hash (child 10)) 2 21.
Definition right3 : Header := on (Header_Hash right2) 3 30.
Definition tree : list Header := [genesis_header; child 10; left2; right2; right3].
Definition family (x : Header) : Prop := x ∈ tree.

Lemma tree_hashes_shared :
  (let h0 := Header_Hash genesis_header in
   let h1 := Header_Hash (child_of h0 10) in
   let h2 := Header_Hash (on h1 2 21) in
   apart [h0; h1; Header_Hash (on h1 2 20); h2; Header_Hash (on h2 3 30)]) = true.
Proof. vm_compute. reflexivity. Qed.

Lemma tree_hashes : apart (map Header_Hash tree) = true.
Proof. exact tree_hashes_shared. Qed.

Lemma on_ok p n t : word 32 p -> 0 <= n -> 0 <= t -> header_ok (on p n t).
Proof. intros Hp Hn Ht. split; cbn [on hParentHash hUncleHash hCoinbase hRoot hTxHash hReceiptHash hBloom hDifficulty hNumber hGasLimit hGasUsed hTime hExtra hMixDigest hNonce]; try lia; try apply zeros_word; [done|constructor]. Qed.

Lemma family_ind (P : Header -> Prop) :
  P genesis_header -> P (child 10) -> P left2 -> P right2 -> P right3 -> forall x, family x -> P x.
Proof.
  intros P0 P1 P2 P3 P4 x F. unfold family, tree in F. rewrite !elem_of_cons, elem_of_nil in F.
  destruct F as [->|[->|[->|[->|[->|[]]]]]]; [exact P0|exact P1|exact P2|exact P3|exact P4].
Qed.

Lemma family_ok : headers_ok blocks0 family.
Proof.
  split.
  - apply family_ind; [apply genesis_header_ok|by apply child_ok|by apply on_ok; [apply Header_Hash_word|..]..].
  - apply family_ind; by vm_compute.
  - apply family_ind; by vm_compute.
  - exact (fun _ _ => I).
  - intros x. exact (apart_nonzero tree x tree_hashes).
  - apply family_ind; by vm_compute.
  - intros x y. exact (apart_inj tree x y tree_hashes).
Qed.

Definition genesis_blk : Block := mkBlock genesis_header [] [] None.

Definition started : outcome chain_error (HeaderChain OpenMem ListLRU) :=
  let* (d, _) := write_genesis (open_mem ∅) [] genesis_blk in
  let* s := NewHeaderChain (fun _ => Panic) d in
  SetCurrentHeader s genesis_header.

Lemma genesis_blk_fits : block_fits genesis_blk.
Proof. split; [split; constructor|]. by vm_compute. Qed.

Lemma genesis_starts_chain_witness :
  gives (D := OpenMem)
    (let* (d, _) := write_genesis (open_mem ∅) [] genesis_blk in
     let* s := NewHeaderChain (C := ListLRU) (fun _ => Panic) d in
     SetCurrentHeader s (header genesis_blk))
    (fun hc => exists a ah, chain_ok blocks0 txs0 family (header genesis_blk) hc a (header genesis_blk) ah /\
      heaviest a ah (header genesis_blk) (header genesis_blk)).
Proof.
  refine (genesis_starts_chain blocks0 txs0 family (open_mem ∅) [] genesis_blk (fun _ => Panic) hashes0_apart family_ok _ _ _ _ genesis_blk_fits).
  - intros k. apply lookup_empty.
  - constructor.
  - apply list_elem_of_here.
  - reflexivity.
Defined.

Lemma started_chain :
  exists hc a ah, started = Ok hc /\ chain_ok blocks0 txs0 family genesis_header hc a genesis_header ah /\
    heaviest a ah genesis_header genesis_header.
Proof.
  assert (S : gives (D := OpenMem) started (fun hc => exists a ah,
    chain_ok blocks0 txs0 family (header genesis_blk) hc a (header genesis_blk) ah /\ heaviest a ah (header genesis_blk) (header genesis_blk))).
  { refine (start_ok blocks0 txs0 hashes0_apart family family_ok (open_mem ∅) [] genesis_blk (fun _ => Panic) _ _ _ _ genesis_blk_fits).
    - apply rep_empty. intros k. apply lookup_empty.
    - constructor.
    - apply list_elem_of_here.
    - reflexivity. }
  revert S. generalize started. intros [hc|e|]; cbn [gives].
  - intros (a & ah & Ok & Hv). exists hc, a, ah. exact (conj eq_refl (conj Ok Hv)).
  - intros [_ N]. destruct (N OpenMem_reliable).
  - intros [].
Qed.

(** A child of the genesis takes over its chain. *)
Lemma WriteHeader_canonical_witness :
  exists hc a, started = Ok hc /\
    gives (D := OpenMem) (hc_WriteHeader 3 false hc (child 10)) (fun r =>
      fst r = Some CanonStatTy /\
      exists a' ah', chain_ok blocks0 txs0 family genesis_header (snd r) a' (child 10) ah' /\ heaviest a' ah' genesis_header (child 10) /\
        forall y, stored a' y <-> y = child 10 \/ stored a y).
Proof.
  destruct started_chain as (hc & a & ah & E & Ok & Hv). exists hc, a. split; [exact E|].
  assert (W : weighs a genesis_header genesis_header (hDifficulty genesis_header)).
  { destruct (co_root _ _ _ _ _ _ _ _ Ok) as [t W]. constructor; [exact (weighs_stored _ _ _ _ W)|reflexivity]. }
  refine (WriteHeader_canonical blocks0 txs0 family genesis_header hc a genesis_header ah (child 10) genesis_header
    (hDifficulty genesis_header) (hDifficulty genesis_header) 3 false hashes0_apart family_ok Ok Hv _ W W _ _ _).
  - apply list_elem_of_further, list_elem_of_here.
  - reflexivity.
  - reflexivity.
  - reflexivity.
Defined.

(** Writing the next header of the tree. *)
Lemma grow (hc : HeaderChain OpenMem ListLRU) a cur ah x p tp tc coin :
  chain_ok blocks0 txs0 family genesis_header hc a cur ah -> family x -> weighs a genesis_header p tp -> weighs a genesis_header cur tc ->
  hParentHash x = Header_Hash p -> num x = num p + 1 -> num cur + num x < 10 ->
  let t := hDifficulty x + tp in
  let wins := (tc <? t) || ((t =? tc) && coin) in
  exists hc' a' ah', hc_WriteHeader 10 coin hc x = Ok (Some (if wins then CanonStatTy else SideStatTy), hc') /\
    chain_ok blocks0 txs0 family genesis_header hc' a' (if wins then x else cur) ah' /\
    parent a' x = Some p /\ weighs a' genesis_header x t /\
    (forall y u, weighs a genesis_header y u -> weighs a' genesis_header y u) /\ (forall y q, parent a y = Some q -> parent a' y = Some q).
Proof.
  intros Ok Fx Wp Wc Ep Np Fu t wins. pose proof (ok_stored _ _ _ _ _ (co_db _ _ _ _ _ _ _ _ Ok)) as Ix.
  destruct (reliable_gives _ _ OpenMem_reliable (write_header_ok blocks0 txs0 hashes0_apart family family_ok genesis_header hc a cur ah Ok x p tp tc
    Fx Wp Wc Ep Np 10 coin Fu)) as ([st hc'] & E & Es & a' & Ok' & S). cbn [fst snd] in Es, Ok'. subst st.
  destruct (put_child blocks0 family family_ok a x t genesis_header p tp Fx Ix Wp Ep Np) as [Px Wx].
  exists hc', a'. eexists. split; [exact E|]. split; [exact Ok'|]. split; [by rewrite (same_parent _ _ _ S)|]. split; [by apply (same_weighs _ _ _ _ _ S)|].
  split; [intros y u W; apply (same_weighs _ _ _ _ _ S); by apply (put_weighs blocks0 family family_ok)|].
  intros y q P. rewrite (same_parent _ _ _ S). by apply (put_parent blocks0 family family_ok).
Qed.

Definition grown : outcome chain_error (option WriteStatus * HeaderChain OpenMem ListLRU) :=
  obind started (fun hc => hc_WriteHeader 10 false hc (child 10)).

Lemma grown_chain :
  exists hc a ah, grown = Ok (Some CanonStatTy, hc) /\ chain_ok blocks0 txs0 family genesis_header hc a (child 10) ah /\
    weighs a genesis_header (child 10) (131072 + 131072).
Proof.
  unfold grown. destruct started_chain as (hc & a & ah & -> & Ok & Hv). cbn [obind].
  assert (W : weighs a genesis_header genesis_header 131072).
  { destruct (co_root _ _ _ _ _ _ _ _ Ok) as [t W]. exact (weighs_genesis _ _ (weighs_stored _ _ _ _ W) eq_refl). }
  destruct (grow hc a genesis_header ah (child 10) genesis_header 131072 131072 false) as (hc' & a' & ah' & E & Ok' & _ & W' & _);
    [exact Ok|apply list_elem_of_further, list_elem_of_here|exact W|exact W|reflexivity..|].
  exists hc', a', ah'. exact (conj E (conj Ok' W')).
Qed.

(** Two blocks on the child; the second one loses the toss. *)
Definition forked_hc : outcome chain_error (option WriteStatus * HeaderChain OpenMem ListLRU) :=
  let* (_, hc) := grown in let* (_, hc) := hc_WriteHeader 10 false hc left2 in hc_WriteHeader 10 false hc right2.

Lemma forked_chain :
  exists hc a ah, forked_hc = Ok (Some SideStatTy, hc) /\ chain_ok blocks0 txs0 family genesis_header hc a left2 ah /\
    parent a left2 = Some (child 10) /\ parent a right2 = Some (child 10) /\ stored a right2.
Proof.
  unfold forked_hc. destruct grown_chain as (hc & a & ah & -> & Ok & W). cbn [obind].
  destruct (grow hc a (child 10) ah left2 (child 10) (131072 + 131072) (131072 + 131072) false) as (hc1 & a1 & ah1 & -> & Ok1 & P1 & W1 & Ws & Ps);
    [exact Ok|do 2 apply list_elem_of_further; apply list_elem_of_here|exact W|exact W|reflexivity..|].
  cbn [obind]. destruct (grow hc1 a1 left2 ah1 right2 (child 10) (131072 + 131072) (131072 + (131072 + 131072)) false)
    as (hc2 & a2 & ah2 & E2 & Ok2 & P2 & W2 & _ & Ps2);
    [exact Ok1|do 3 apply list_elem_of_further; apply list_elem_of_here|exact (Ws _ _ W)|exact W1|reflexivity..|].
  exists hc2, a2, ah2. exact (conj E2 (conj Ok2 (conj (Ps2 _ _ P1) (conj P2 (weighs_stored _ _ _ _ W2))))).
Qed.

Lemma SetHead_orphan_panics_witness :
  exists hc hc', forked_hc = Ok (Some SideStatTy, hc) /\ SetHead 10 DeleteBody hc 0 = Ok hc' /\ hc_WriteHeader 10 true hc' right3 = Panic.
Proof.
  destruct forked_chain as (hc & a & ah & E & Ok & P1 & P2 & S2).
  pose proof (ok_numbered blocks0 family family_ok a (ok_stored _ _ _ _ _ (co_db _ _ _ _ _ _ _ _ Ok))) as Nm.
  destruct (SetHead_orphan_panics blocks0 txs0 family genesis_header hc a left2 ah right3 right2 (child 10) 0 10 true) as (hc' & E1 & E2).
  - exact hashes0_apart.
  - exact family_ok.
  - exact OpenMem_reliable.
  - exact Ok.
  - discriminate.
  - exact S2.
  - intros A. apply (ancestor_same a Nm) in A; [|discriminate]. apply (f_equal hTime) in A. discriminate A.
  - exact P2.
  - econstructor; [exact P1|constructor].
  - reflexivity.
  - do 4 apply list_elem_of_further. apply list_elem_of_here.
  - reflexivity.
  - reflexivity.
  - reflexivity.
  - reflexivity.
  - exists hc, hc'. exact (conj E (conj E1 E2)).
Defined.

(** The child is removed again. *)
Lemma SetHead_rewinds_witness :
  exists hc a ah, grown = Ok (Some CanonStatTy, hc) /\
    gives (D := OpenMem) (SetHead 3 DeleteBody hc 0) (fun hc' =>
      exists a' z, chain_ok blocks0 txs0 family genesis_header hc' a' z ah /\ ancestor a (child 10) z /\
        num z = Z.min 0 (num (child 10)) /\ forall x, stored a' x <-> stored a x /\ ~ (ancestor a (child 10) x /\ 0 < num x)).
Proof.
  destruct grown_chain as (hc & a & ah & E & Ok & _). exists hc, a, ah. split; [exact E|].
  refine (SetHead_rewinds blocks0 txs0 family genesis_header hc a (child 10) ah 0 3 hashes0_apart family_ok Ok _ _); [discriminate|reflexivity].
Defined.

Lemma lookups_agree_witness :
  exists hc a, grown = Ok (Some CanonStatTy, hc) /\
    exists o hc', hc_GetHeaderByNumber hc 1 = Ok (o, hc') /\ forall x, o = Some x <-> ancestor a (child 10) x /\ num x = 1.
Proof.
  destruct grown_chain as (hc & a & ah & E & Ok & _). exists hc, a. split; [exact E|].
  destruct (lookups_agree blocks0 txs0 family genesis_header hc a (child 10) ah 1 (zeros 32) family_ok Ok) as [(o & hc' & Eo & _ & _ & Ho) _];
    [split; [discriminate|reflexivity]|reflexivity|exact I|].
  exists o, hc'. exact (conj Eo Ho).
Defined.
