(* ===== verification/ProcessorSpec.v ===== *)
(** * Processing blocks: what they do to the accounts

    [Process] of [Processor] is related to a description on abstract accounts:
    a relation with one rule per outcome of a transaction.  By induction on its
    rules, a block makes exactly the rewards it pays, its receipts add up to the
    gas it uses, and the state root of each receipt is the root of the accounts
    after its transaction. *)

From S2P Require Import Prelude RlpEncode RlpRaw RlpStream Helper Database Keccak TrieNode Trie TrieHash StateTrie SecureTrie State StateSpec StateRefine StateFlush StateRoot Transition TransitionSpec Types TypesSpec Signing SigningSpec Processor.

Section ProcessorSpec.
Context `{Hash256} `{StateTrieRoots T D} `{Database D} (StartingNonce : Z) (del : bool).
Implicit Types (w : World T D) (s : StateDB) (sp : spec) (h : Header).

Abbreviation M A := (SM (T := T) (D := D) A).
Abbreviation credit := (credit StartingNonce).
Abbreviation change := (change StartingNonce).

(** ** Rewards *)

Definition pay_uncles_spec h (us : list Header) sp : spec :=
  foldl (fun sp u => credit sp (hCoinbase u) (uncle_reward h u)) sp us.

Definition rewards_spec h (us : list Header) sp : spec :=
  credit (pay_uncles_spec h us sp) (hCoinbase h) (BlockReward + len us * (BlockReward / 32)).

Lemma pay_uncles_run h us w s sp z :
  sound del w s sp -> Forall (fun u => st_key (hCoinbase u)) us ->
  exists w' s', pay_uncles StartingNonce h us z w s = Ok (z + len us * (BlockReward / 32), w', s') /\ sound del w' s' (pay_uncles_spec h us sp).
Proof.
  revert w s sp z. induction us as [|u us IH]; intros w s sp z So Fk; cbn [pay_uncles pay_uncles_spec foldl].
  - exists w, s. split; [|done]. unfold retS. by rewrite Z.mul_0_l, Z.add_0_r.
  - apply Forall_cons in Fk as [Ku Fk].
    destruct (AddBalance_run StartingNonce del w s sp (hCoinbase u) (uncle_reward h u) So Ku) as (w1 & s1 & E1 & So1).
    rewrite (run_bind _ _ _ _ _ _ _ E1). destruct (IH w1 s1 _ (z + BlockReward / 32) So1 Fk) as (w2 & s2 & E2 & So2).
    exists w2, s2. rewrite E2. split; [|done]. do 3 f_equal. rewrite length_cons. lia.
Qed.

Lemma AccumulateRewards_run h us w s sp :
  sound del w s sp -> st_key (hCoinbase h) -> Forall (fun u => st_key (hCoinbase u)) us ->
  exists w' s', AccumulateRewards StartingNonce h us w s = Ok (tt, w', s') /\ sound del w' s' (rewards_spec h us sp).
Proof.
  intros So Kh Fk. destruct (pay_uncles_run h us w s sp BlockReward So Fk) as (w1 & s1 & E1 & So1).
  unfold AccumulateRewards. rewrite (run_bind _ _ _ _ _ _ _ E1). by apply AddBalance_run.
Qed.

(** What is paid for a block. *)
Definition block_rewards h (us : list Header) : Z :=
  BlockReward + len us * (BlockReward / 32) + foldr (fun u z => uncle_reward h u + z) 0 us.

Lemma total_credit sp a z l : NoDup l -> a ∈ l -> total (credit sp a z) l = total sp l + z.
Proof.
  intros ND Ha. rewrite (total_shift sp _ (fun b => if decide (b = a) then z else 0)); [|intros b; apply bal_credit].
  by rewrite sum_single, decide_True.
Qed.

Lemma rewards_total h us sp l :
  NoDup l -> hCoinbase h ∈ l -> Forall (fun u => hCoinbase u ∈ l) us ->
  total (rewards_spec h us sp) l = total sp l + block_rewards h us.
Proof.
  intros ND Hh Fu. unfold rewards_spec. rewrite total_credit by done.
  assert (E : total (pay_uncles_spec h us sp) l = total sp l + foldr (fun u z => uncle_reward h u + z) 0 us).
  { clear Hh. revert sp. induction Fu as [|u us Hu _ IH]; intros sp; cbn; [lia|].
    change (total (pay_uncles_spec h us (credit sp (hCoinbase u) (uncle_reward h u))) l =
      total sp l + (uncle_reward h u + foldr (fun u z => uncle_reward h u + z) 0 us)).
    rewrite IH, total_credit by done. lia. }
  rewrite E. unfold block_rewards. lia.
Qed.

(** ** The DAO fork *)

Definition zero_balance sp (a : bytes) : spec := change sp a (fun x => with_balance x 0).

Definition drain_spec sp (a : bytes) : spec :=
  if present sp a then zero_balance (credit sp DAORefundExternalLogic (bal sp a)) a else sp.

Definition ensure sp (a : bytes) : spec := change sp a (fun x => x).

Definition dao_spec sp : spec := foldl drain_spec (ensure sp DAORefundExternalLogic) DAODrainList.

Lemma respects_with_balance z : respects (fun x => with_balance x z) acct_eq.
Proof. intros x y []. by split. Qed.

Lemma obj_SetBalance_run w s sp a p z :
  sound del w s sp -> stateObjects s !! a = Some p -> present sp a = true ->
  exists w' s', obj_SetBalance p z w s = Ok (tt, w', s') /\ sound del w' s' (change sp a (fun x => with_balance x z)) /\
    stateObjects s' = stateObjects s.
Proof.
  intros So Ep Ha. apply (ptr_change StartingNonce del w s sp a p); [done|done|done|apply respects_with_balance| |intros o; apply flush_SetBalance, So].
  intros o Lv. destruct (obj_SetBalance_ok w s a p o z (inv_wf _ _ _ (proj1 So)) Lv) as (w' & s' & o' & E & St & _ & Es).
  by exists w', s'.
Qed.

Lemma GetOrNew_run w s sp a :
  sound del w s sp -> st_key a ->
  exists p w' s', GetOrNewStateObject StartingNonce a w s = Ok (p, w', s') /\ sound del w' s' (ensure sp a) /\ stateObjects s' !! a = Some p.
Proof.
  intros [I F] Ka. destruct (GetOrNewStateObject_ok StartingNonce w s a (inv_wf _ _ _ I) Ka) as (p & w' & s' & o & E & St & Lv & _ & _).
  destruct (flush_GetOrNew StartingNonce del w s a F Ka) as (p1 & w1 & s1 & o1 & E1 & F1 & _). rewrite E in E1. injection E1 as <- <- <-.
  exists p, w', s'. split; [done|]. split; [split; [|done]|apply Lv].
  eapply inv_step; [done|exact St| |apply I]. apply upd_proper; [apply I|done|]. constructor. by apply (acct_of_eq StartingNonce w s).
Qed.

Lemma drain_run w s sp p a :
  sound del w s sp -> st_key a -> present sp DAORefundExternalLogic = true -> stateObjects s !! DAORefundExternalLogic = Some p ->
  exists w' s', drain p a w s = Ok (tt, w', s') /\ sound del w' s' (drain_spec sp a) /\
    present (drain_spec sp a) DAORefundExternalLogic = true /\ stateObjects s' !! DAORefundExternalLogic = Some p.
Proof.
  intros So Ka Pr Ep. destruct (GetStateObject_run del w s sp a So Ka) as (r & w1 & s1 & E1 & So1 & K & Hr).
  unfold drain, drain_spec. rewrite (run_bind _ _ _ _ _ _ _ E1). apply (K (fun _ => True)) in Ep; [|done].
  destruct (present sp a) eqn:Pa; [|subst r; by exists w1, s1]. destruct Hr as (q & -> & Eq).
  destruct (ptr_live del w1 s1 sp a q So1 Eq Pa) as (o & x & Lv & _ & Ex & Eo). rewrite (get_obj_run _ _ _ o) by apply Lv.
  assert (Eb : Balance (State.data o) = bal sp a) by (unfold bal, ask; rewrite Ex; apply (eq_balance _ _ Eo)). rewrite Eb.
  destruct (obj_AddBalance_run StartingNonce del w1 s1 sp DAORefundExternalLogic p (bal sp a) So1 Ep Pr) as (w2 & s2 & E2 & So2 & Es2).
  rewrite (run_bind _ _ _ _ _ _ _ E2).
  destruct (obj_SetBalance_run w2 s2 _ a q 0 So2) as (w3 & s3 & E3 & So3 & Es3); [by rewrite Es2|by rewrite present_credit, Pa, orb_true_r|].
  exists w3, s3. split; [done|]. split; [done|]. split; [|by rewrite Es3, Es2].
  unfold zero_balance. by rewrite present_change, present_credit, Pr, !orb_true_r.
Qed.

Lemma ApplyDAOHardFork_run w s sp :
  sound del w s sp -> st_key DAORefundExternalLogic -> Forall st_key DAODrainList ->
  exists w' s', ApplyDAOHardFork StartingNonce w s = Ok (tt, w', s') /\ sound del w' s' (dao_spec sp).
Proof.
  intros So Kr Fk. destruct (GetOrNew_run w s sp DAORefundExternalLogic So Kr) as (p & w1 & s1 & E1 & So1 & Ep).
  unfold ApplyDAOHardFork, dao_spec. rewrite (run_bind _ _ _ _ _ _ _ E1).
  assert (Pr : present (ensure sp DAORefundExternalLogic) DAORefundExternalLogic = true)
    by (unfold ensure; by rewrite present_change, bool_decide_true).
  clear E1 So. generalize dependent (ensure sp DAORefundExternalLogic). intros sp1 So1 Pr. revert w1 s1 sp1 So1 Ep Pr.
  induction Fk as [|a l Ka _ IH]; intros w1 s1 sp1 So1 Ep Pr; cbn [forS foldl]; [by exists w1, s1|].
  destruct (drain_run w1 s1 sp1 p a So1 Ka Pr Ep) as (w2 & s2 & E2 & So2 & P2 & Ep2). rewrite (run_bind _ _ _ _ _ _ _ E2). by apply IH.
Qed.

(** ** Accounts that can be written to the tries *)

Definition tidy_acct (x : acct) : Prop := 0 <= a_nonce x < 2 ^ 64 /\ word 32 (a_codeHash x) /\ a_suicided x = false.

Definition tidy sp : Prop := forall a x, accts (cur sp) a = Some x -> tidy_acct x.

(** Balances of the accounts [l], which are all the money there is. *)
Record healthy (l : list bytes) (N : Z) sp : Prop := {
  hl_nodup : NoDup l;
  hl_bal b : 0 <= bal sp b;
  hl_rest b : b ∉ l -> bal sp b = 0;
  hl_total : total sp l <= N;
  hl_tidy : tidy sp
}.

Lemma total_bal sp l b : (forall b, 0 <= bal sp b) -> b ∈ l -> bal sp b <= total sp l.
Proof.
  intros B. assert (P : forall l, 0 <= total sp l) by (clear -B; intros l; induction l as [|a l IH]; cbn; [lia|]; specialize (B a); unfold total in IH; lia).
  induction l as [|a l IH]; [by intros ?%not_elem_of_nil|]. cbn. intros [->|Hb]%elem_of_cons.
  - specialize (P l). unfold total in P. lia.
  - specialize (IH Hb). specialize (B a). unfold total in IH. lia.
Qed.

Lemma healthy_fits l N sp : healthy l N sp -> N < 2 ^ 256 -> forall a x, accts (cur sp) a = Some x -> acct_fits x.
Proof.
  intros [_ B R Tt Ty] HN a x Ex. destruct (Ty a x Ex) as (Hn & Hc & _). split; [done|]. split; [|done].
  assert (Eb : bal sp a = a_balance x) by (unfold bal, ask; by rewrite Ex). rewrite <- Eb. split; [done|].
  destruct (decide (a ∈ l)) as [Ha|Ha]; [pose proof (total_bal sp l a B Ha); lia|rewrite (R a Ha); lia].
Qed.

(** What the operations of the specification do to the accounts. *)
Context (Nonce0 : 0 <= StartingNonce < 2 ^ 64).

Lemma tidy_fresh z : tidy_acct (fresh_acct StartingNonce z).
Proof. split; [done|]. split; [|done]. split; [apply Keccak256_ok|apply Keccak256_length]. Qed.

Lemma tidy_upd sp a x : tidy sp -> tidy_acct x -> tidy (set_cur sp (upd (cur sp) a (Some x))).
Proof. intros Ty Hx b y. cbn. case_decide; [by intros [= <-]|apply Ty]. Qed.

Lemma tidy_of sp a : tidy sp -> tidy_acct (acct_of StartingNonce (cur sp) a).
Proof. intros Ty. unfold acct_of. destruct (accts (cur sp) a) as [x|] eqn:E; cbn; [by apply (Ty a)|apply tidy_fresh]. Qed.

Lemma tidy_change sp a f : tidy sp -> (forall x, tidy_acct x -> tidy_acct (f x)) -> tidy (change sp a f).
Proof. intros Ty Hf. apply tidy_upd; [done|]. by apply Hf, tidy_of. Qed.

Lemma tidy_credit sp a z : tidy sp -> tidy (credit sp a z).
Proof. intros Ty. by apply tidy_change. Qed.

Lemma tidy_renonce sp a n : tidy sp -> 0 <= n < 2 ^ 64 -> tidy (renonce StartingNonce sp a n).
Proof. intros Ty Hn. apply tidy_change; [done|]. by intros x (_ & Hc & Hs). Qed.

Lemma tidy_recode sp a : tidy sp -> tidy (recode StartingNonce sp a).
Proof. intros Ty. apply tidy_change; [done|]. intros x (Hn & _ & Hs). split; [done|]. split; [|done]. split; [apply Keccak256_ok|apply Keccak256_length]. Qed.

Lemma tidy_create sp a : tidy sp -> tidy (create StartingNonce sp a).
Proof. intros Ty. apply tidy_upd; [done|apply tidy_fresh]. Qed.

Lemma tidy_touch sp a : tidy sp -> tidy (touch StartingNonce sp a).
Proof. intros Ty. unfold touch. destruct (present sp a); [done|by apply tidy_create]. Qed.

Lemma tidy_snap sp : tidy sp -> tidy (snap sp).
Proof. by intros Ty. Qed.

Create HintDb tidy.
#[local] Hint Resolve tidy_credit tidy_renonce tidy_recode tidy_create tidy_touch tidy_snap u64_range : tidy.

Lemma tidy_execute env msg gas sp : tidy sp -> tidy (execute_spec StartingNonce env msg gas sp).2.
Proof.
  intros Ty. assert (X : 0 <= 1 < 2 ^ 64) by lia. unfold execute_spec, call_spec, create_spec. destruct (To msg) as [a|]; destruct (check_spec _ _ _ _); cbn; auto 10 with tidy.
  - destruct (_ && _); cbn; auto 10 with tidy.
  - destruct (IsSiotImpr2 _ _); auto 10 with tidy.
Qed.

Lemma tidy_transition env msg gp sp : tidy sp -> tidy (transition_spec StartingNonce env msg gp sp).2.
Proof.
  intros Ty. unfold transition_spec, precheck_spec. destruct (_ && _); [cbn; auto with tidy|]. destruct (_ <? _); [cbn; auto with tidy|].
  destruct (_ <? _); [cbn; auto with tidy|]. destruct (_ <? _); [cbn; auto with tidy|].
  match goal with |- context [execute_spec StartingNonce env msg ?g ?x] => pose proof (tidy_execute env msg g x) as E; destruct (execute_spec StartingNonce env msg g x) as [[gas err] sp'] end.
  cbn in E. assert (Ty' : tidy sp') by auto with tidy. destruct err as [[]|]; cbn; unfold settle_spec; auto with tidy.
Qed.

(** Settling removes no money. *)
Lemma bal_root touched sp b : tidy sp -> bal (spec_root del touched sp) b = bal sp b.
Proof.
  intros Ty. unfold bal, ask. cbn. case_decide; [|done]. destruct (accts (cur sp) b) as [x|] eqn:E; [|done]. cbn.
  destruct (Ty b x E) as (_ & _ & Hs). rewrite Hs. cbn. destruct (del && acct_empty x) eqn:Em; [|done].
  apply andb_true_iff in Em as [_ Em]. unfold acct_empty in Em. lia.
Qed.

Lemma tidy_root touched sp : tidy sp -> tidy (spec_root del touched sp).
Proof.
  intros Ty a x. cbn. case_decide; [|apply Ty]. destruct (accts (cur sp) a) as [y|] eqn:E; [|done]. cbn.
  destruct (_ || _); [done|]. intros [= <-]. by apply (Ty a).
Qed.

Lemma healthy_same l N sp sp' : (forall b, bal sp' b = bal sp b) -> tidy sp' -> healthy l N sp -> healthy l N sp'.
Proof.
  intros B Ty [H1' H2' H3' H4' _]. split; [done| | | |done].
  - intros b. rewrite B. done.
  - intros b Hb. rewrite B. auto.
  - by rewrite (total_same sp sp').
Qed.

Lemma healthy_root l N touched sp : healthy l N sp -> healthy l N (spec_root del touched sp).
Proof. intros Hh. apply (healthy_same l N sp); [intros b; apply bal_root, Hh|apply tidy_root, Hh|done]. Qed.

(** ** Messages *)

(** The account a message goes to, when its nonce is right. *)
Definition goes_to (msg : Message) : bytes := match To msg with Some a => a | None => new_address (From msg) (MsgNonce msg) end.

(** A message among accounts in use; a creation does not collide with its
    sender. *)
Record sendable (l : list bytes) (env : VMEnv) (msg : Message) : Prop := {
  sd_from : st_key (From msg) /\ From msg ∈ l;
  sd_target : st_key (goes_to msg) /\ goes_to msg ∈ l;
  sd_coinbase : st_key (Coinbase env) /\ Coinbase env ∈ l;
  sd_create : To msg = None ->
    bytes_ok (From msg) /\ length (From msg) = 20%nat /\ 0 <= MsgNonce msg < 2 ^ 64 /\ From msg <> goes_to msg;
  sd_check : CheckNonce msg = true;
  sd_gas : 0 <= Gas msg;
  sd_price : 0 <= GasPrice msg;
  sd_value : 0 <= Value msg;
  sd_depth : depth env <= CallCreateDepth
}.

Abbreviation nonce_of := (nonce_of StartingNonce).
Abbreviation transition_spec := (transition_spec StartingNonce).
Abbreviation transition_effect := (transition_effect StartingNonce).

Lemma wrong_nonce env msg gp sp :
  CheckNonce msg = true -> nonce_of sp (From msg) <> MsgNonce msg ->
  transition_spec env msg gp sp =
    (gp, inl (NonceErr (MsgNonce msg) (nonce_of sp (From msg))), touch StartingNonce sp (From msg)).
Proof.
  intros Ck Ne. unfold TransitionSpec.transition_spec, precheck_spec. rewrite nonce_touch, Ck. by rewrite (proj2 (Z.eqb_neq _ _) Ne).
Qed.

Lemma right_target msg sp : nonce_of sp (From msg) = MsgNonce msg -> target StartingNonce msg sp = goes_to msg.
Proof. intros E. unfold target, goes_to. by rewrite E. Qed.

Lemma right_nonce l env msg sp : sendable l env msg -> nonce_of sp (From msg) = MsgNonce msg -> addressed StartingNonce env msg sp.
Proof.
  intros [S1 S2 S3 S4 _ _ _ _ _] E. split; [apply S1|rewrite (right_target _ _ E); apply S2|apply S3|].
  intros Et. rewrite E. unfold goes_to in S4. rewrite Et in S4. by apply S4.
Qed.

Lemma send_run l env w s sp msg gp :
  sound del w s sp -> sendable l env msg -> a_refund (cur sp) = 0 ->
  let '(gp', r, sp') := transition_spec env msg gp sp in
  exists w' s', TransitionDb StartingNonce env msg gp w s = Ok ((gp', r), w', s') /\ sound del w' s' sp'.
Proof.
  intros So Sd Rf. destruct (decide (nonce_of sp (From msg) = MsgNonce msg)) as [E|Ne].
  - apply transition_run; [done|by eapply right_nonce|done].
  - rewrite (wrong_nonce env msg gp sp (sd_check _ _ _ Sd) Ne).
    pose proof (preCheck_run StartingNonce del w s sp msg gp So (proj1 (sd_from _ _ _ Sd))) as R. unfold precheck_spec in R.
    rewrite nonce_touch, (sd_check _ _ _ Sd), (proj2 (Z.eqb_neq _ _) Ne) in R. cbn [andb negb] in R.
    destruct R as (w' & s' & E & So'). exists w', s'. split; [|done]. unfold TransitionDb. by rewrite (run_bind _ _ _ _ _ _ _ E).
Qed.

Lemma send_effect l env msg gp sp gp' r sp' :
  sendable l env msg -> transition_spec env msg gp sp = (gp', r, sp') ->
  transition_effect env msg gp sp gp' r sp' /\
  (target StartingNonce msg sp = goes_to msg \/ (gp' = gp /\ (exists x y, r = inl (NonceErr x y)) /\ forall b, bal sp' b = bal sp b)).
Proof.
  intros Sd E. destruct (decide (nonce_of sp (From msg) = MsgNonce msg)) as [En|Ne].
  - split; [|left; by apply right_target]. pose proof (transition_spec_ok StartingNonce env msg gp sp (sd_depth _ _ _ Sd)) as Ef.
    rewrite E in Ef. apply Ef. rewrite (right_target _ _ En). intros Et. by apply (sd_create _ _ _ Sd).
  - rewrite (wrong_nonce env msg gp sp (sd_check _ _ _ Sd) Ne) in E. injection E as <- <- <-.
    assert (B : forall b, bal (touch StartingNonce sp (From msg)) b = bal sp b) by (intros b; apply bal_touch).
    split; [done|]. right. eauto.
Qed.

Lemma send_healthy l N env msg gp sp gp' r sp' :
  sendable l env msg -> transition_spec env msg gp sp = (gp', r, sp') -> healthy l N sp ->
  healthy l N sp' /\ (forall x, r = inr x -> total sp' l = total sp l).
Proof.
  intros Sd E Hh. destruct (send_effect l env msg gp sp gp' r sp' Sd E) as [Ef [Tg|(_ & (x & y & ->) & B)]].
  2: { split; [|done]. apply (healthy_same l N sp); [done| |done]. pose proof (tidy_transition env msg gp sp (hl_tidy _ _ _ Hh)) as Ty. by rewrite E in Ty. }
  pose proof Hh as [ND B R Tt Ty]. pose proof Sd as [[_ L1] [_ L2] [_ L3] _ _ Hg Hp Hv _].
  assert (Tot := transition_total StartingNonce env msg gp sp gp' r sp' l Ef ND L1). rewrite Tg in Tot. specialize (Tot L2 L3).
  split; [split; [done| | | |]|].
  - by eapply effect_balances.
  - intros b Hb. specialize (R b Hb). assert (N1 : b <> From msg) by (by intros ->). assert (N2 : b <> goes_to msg) by (by intros ->).
    assert (N3 : b <> Coinbase env) by (by intros ->).
    destruct r as [[]|[req used]]; cbn in Ef; try done; try (by rewrite (proj2 Ef)).
    1-2: destruct Ef as (_ & _ & _ & ->); by rewrite decide_False, Z.sub_0_r.
    destruct Ef as (_ & _ & _ & _ & _ & _ & _ & ->). rewrite Tg. unfold moves. rewrite !decide_False by done. lia.
  - rewrite Tot. assert (0 <= Gas msg * GasPrice msg) by nia. destruct r as [[]|]; lia.
  - pose proof (tidy_transition env msg gp sp Ty) as Ty'. by rewrite E in Ty'.
  - intros x ->. rewrite Tot. lia.
Qed.
End ProcessorSpec.

(** ** Blocks *)

Section Blocks.
Context `{Hash256} `{Secp256k1} `{StateTrieRoots T D} `{Database D} (StartingNonce : Z) (Nonce0 : 0 <= StartingNonce < 2 ^ 64).
Context (order : forall A, list A -> list A) (Order : forall A (l : list A), order A l ≡ₚ l) (config : ChainConfig).
Implicit Types (w : World T D) (s : StateDB) (sp : spec) (h : Header) (b : Block).

Abbreviation transition_spec := (transition_spec StartingNonce).
Abbreviation removes h := (IsSiotImpr2 config (hNumber h)).
Abbreviation result := (process_error + list Receipt * list Log * Z)%type.

Definition tx_message h (tx : Transaction) (c : sigCache) : outcome sig_error Message := (AsMessage (MakeSigner config (hNumber h)) tx c).1.

(** The signers of the chain never panic. *)
Lemma recover_total v tx hs hash : recover_key v tx hs hash <> Panic.
Proof.
  unfold recover_key. destruct (ValidateSignatureValues v (R tx) (S_ tx) hs) eqn:Ev; [|done]. cbn [negb].
  unfold ValidateSignatureValues in Ev. destruct (_ || _) eqn:E1; [done|]. apply orb_false_iff in E1 as [R1 S1].
  destruct (_ && _); [done|]. destruct (N <=? S_ tx) eqn:S2; [done|]. apply andb_true_iff in Ev as [R2 _].
  assert (HN : N < 2 ^ 256) by (by vm_compute).
  pose proof (Bytes_length (R tx) 32 ltac:(cbn; lia)) as L1. pose proof (Bytes_length (S_ tx) 32 ltac:(cbn; lia)) as L2.
  rewrite (proj2 (Nat.ltb_ge _ _)), (proj2 (Nat.ltb_ge _ _)) by lia. cbn. destruct (Ecrecover _ _) as [[|x pub]|]; [done| |done].
  by repeat case_match.
Qed.

Lemma message_total h tx c : tx_message h tx c <> Panic.
Proof.
  assert (P : PublicKey (MakeSigner config (hNumber h)) tx <> Panic).
  { unfold MakeSigner, NewSiotImpr1Signer. destruct (IsSiotImpr1 _ _); [|destruct (IsHomestead _ _)]; cbn [PublicKey]; unfold homestead_PublicKey.
    - destruct (negb _); [destruct (_ <? _); [done|apply recover_total]|]. destruct (negb _); [done|]. unfold normaliseV.
      destruct (_ && _); cbn [obind]; apply recover_total.
    - destruct (_ <? _); [done|apply recover_total].
    - destruct (_ <? _); [done|apply recover_total]. }
  unfold tx_message, AsMessage, Sender. destruct c as [[sg a]|]; [destruct (signer_Equal _ _); [done|]|]; destruct (PublicKey _ _); done.
Qed.

Definition record_spec sp (th bh : bytes) (i : Z) : spec := mkSpec (cur sp) (saved sp) (nextId sp) th bh i (r_logSize sp).

Definition receipt_of (tx : Transaction) (msg : Message) (root : bytes) (used gas : Z) (logs : list Log) : Receipt :=
  let address := if MessageCreatesExternalLogic msg then new_address (From msg) (AccountNonce tx) else zeros 20 in
  let bloom := default [] (CreateBloom [mkReceipt root used (zeros 256) logs (tx_Hash tx) address gas]) in
  mkReceipt root used bloom logs (tx_Hash tx) address gas.

Definition add_receipt (r : Receipt) (res : result) : result :=
  match res with inl e => inl e | inr (rs, logs, used) => inr (r :: rs, Logs r ++ logs, used) end.

(** The transactions of a block on abstract accounts, from the [i]-th on, with
    the gas left in the pool and the gas used so far: they end at the first that
    has no sender or is refused; one that is applied has a receipt with the root
    of the accounts that it leaves, where touched accounts are settled. *)
Inductive txs_run b : Z -> list (Transaction * sigCache) -> Z -> Z -> spec -> result -> spec -> Prop :=
| run_done i gp used sp : txs_run b i [] gp used sp (inr ([], [], used)) sp
| run_sender i tx c txs gp used sp e :
    tx_message (header b) tx c = Err e ->
    txs_run b i ((tx, c) :: txs) gp used sp (inl (SenderErr e)) (record_spec sp (tx_Hash tx) (block_Hash b) i)
| run_refused i tx c txs gp used sp msg gp' e sp1 :
    tx_message (header b) tx c = Ok msg ->
    transition_spec (NewEnv config (header b)) msg gp (record_spec sp (tx_Hash tx) (block_Hash b) i) = (gp', inl e, sp1) ->
    txs_run b i ((tx, c) :: txs) gp used sp (inl (MessageErr e)) sp1
| run_applied i tx c txs gp used sp msg gp' req gas sp1 touched root res sp2 :
    tx_message (header b) tx c = Ok msg ->
    transition_spec (NewEnv config (header b)) msg gp (record_spec sp (tx_Hash tx) (block_Hash b) i) = (gp', inr (req, gas), sp1) ->
    state_root (accts (cur (spec_root (removes (header b)) touched sp1))) root ->
    txs_run b (i + 1) txs gp' (used + gas) (spec_root (removes (header b)) touched sp1) res sp2 ->
    txs_run b i ((tx, c) :: txs) gp used sp
      (add_receipt (receipt_of tx msg root (used + gas) gas (default [] (a_logs (cur sp1) !! tx_Hash tx))) res) sp2.

Lemma StartRecord_run del w s sp th bh i :
  sound del w s sp -> exists s', StartRecord th bh i w s = Ok (tt, w, s') /\ sound del w s' (record_spec sp th bh i).
Proof.
  intros [I F]. eexists. split; [reflexivity|].
  destruct (call_ok StartingNonce w s sp (CStartRecord th bh i) I Logic.I) as (w' & s' & E & I'). injection E as <- <-.
  split; [exact I'|]. by apply (flushable_state del w s).
Qed.

Lemma bloom_total rs : exists x, CreateBloom rs = Some x.
Proof. destruct (receipts_bloom_ok rs 0) as (S1 & _); [done|]. destruct (BytesToBloom_ok _ S1) as (x & E & _). by exists x. Qed.

(** Accounts and messages of the transactions of a block. *)
Definition tx_sendable (l : list bytes) h (t : Transaction * sigCache) : Prop :=
  forall msg, tx_message h t.1 t.2 = Ok msg -> sendable l (NewEnv config h) msg /\ AccountNonce t.1 = MsgNonce msg.

Lemma healthy_record l N0 sp th bh i : healthy l N0 sp -> healthy l N0 (record_spec sp th bh i).
Proof. intros [? ? ? ? ?]. by split. Qed.

(** One transaction. *)
Lemma ApplyTransaction_run l N0 h tx c w s sp gp used :
  sound (removes h) w s sp -> healthy l N0 sp -> N0 < 2 ^ 256 -> a_refund (cur sp) = 0 -> tx_sendable l h (tx, c) ->
  match tx_message h tx c with
  | Ok msg =>
      match transition_spec (NewEnv config h) msg gp sp with
      | (gp', inl e, sp1) =>
          exists c' w' s', ApplyTransaction StartingNonce order config gp h tx c used w s = Ok ((gp', used, c', inl (MessageErr e)), w', s') /\
            sound (removes h) w' s' sp1
      | (gp', inr (_, gas), sp1) =>
          exists c' touched root w' s',
            ApplyTransaction StartingNonce order config gp h tx c used w s =
              Ok ((gp', used + gas, c', inr (receipt_of tx msg root (used + gas) gas (default [] (a_logs (cur sp1) !! tx_Hash tx)))), w', s') /\
            sound (removes h) w' s' (spec_root (removes h) touched sp1) /\
            state_root (accts (cur (spec_root (removes h) touched sp1))) root
      end
  | Err e =>
      exists c', ApplyTransaction StartingNonce order config gp h tx c used w s = Ok ((gp, used, c', inl (SenderErr e)), w, s)
  | Panic => False
  end.
Proof.
  intros So Hh HN Rf To. pose proof (message_total h tx c) as Mt. specialize (To). unfold tx_sendable in To. cbn [fst snd] in To.
  unfold tx_message in *. unfold ApplyTransaction. destruct (AsMessage _ tx c) as [m c'] eqn:Em. cbn [fst] in *.
  destruct m as [msg|e|]; [|by exists c'|done]. destruct (To msg eq_refl) as [Sd En].
  pose proof (send_run StartingNonce (removes h) l (NewEnv config h) w s sp msg gp So Sd Rf) as Rn.
  destruct (transition_spec (NewEnv config h) msg gp sp) as [[gp' r] sp1] eqn:Et. destruct Rn as (w1 & s1 & E1 & So1).
  unfold ApplyMessage.
  assert (Ea : forall X (k : Z * (tx_error + Z) -> SM X),
    bindS (bindS (TransitionDb StartingNonce (NewEnv config h) msg gp) (fun '(gp, r) => retS (gp, match r with inl e => inl e | inr (_, used) => inr used end))) k w s =
    k (gp', match r with inl e => inl e | inr (_, used) => inr used end) w1 s1).
  { intros X k. unfold bindS. by rewrite E1. }
  rewrite Ea. destruct r as [e|[req gas]]; [by exists c', w1, s1|].
  destruct (send_healthy StartingNonce Nonce0 l N0 _ msg gp sp gp' _ sp1 Sd Et Hh) as [Hh1 _].
  destruct So1 as [I1 F1]. destruct (root_spec (removes h) order Order w1 s1 sp1 I1 F1 (healthy_fits l N0 sp1 Hh1 HN)) as (root & w2 & E2 & I2 & F2 & R2 & _).
  exists c', (stateObjectsDirty s1), root, w2, (cleared s1). split; [|split; [by split|done]].
  rewrite (run_bind _ _ _ _ _ _ _ E2).
  assert (Ead : (if MessageCreatesExternalLogic msg then CreateAddress (From msg) (AccountNonce tx) else retS (zeros 20)) w2 (cleared s1) =
    Ok (if MessageCreatesExternalLogic msg then new_address (From msg) (AccountNonce tx) else zeros 20, w2, cleared s1)).
  { unfold MessageCreatesExternalLogic. destruct (Transition.To msg) eqn:Eto; [done|]. destruct (sd_create _ _ _ Sd Eto) as (C1 & C2 & C3 & _).
    rewrite En. by apply CreateAddress_run. }
  cbn [ExternalLogicAddress NewReceipt]. rewrite (run_bind _ _ _ _ _ _ _ Ead).
  assert (El : GetLogs (tx_Hash tx) w2 (cleared s1) = Ok (default [] (a_logs (cur sp1) !! tx_Hash tx), w2, cleared s1)).
  { unfold GetLogs, bindS, getS, retS. do 3 f_equal. apply (f_equal (fun m => default [] (m !! tx_Hash tx))), (eq_logs _ _ (inv_cur _ _ _ I1)). }
  rewrite (run_bind _ _ _ _ _ _ _ El).
  change (rBloom (NewReceipt root (used + gas))) with (zeros 256). unfold receipt_of. destruct (bloom_total [mkReceipt root (used + gas) (zeros 256) (default [] (a_logs (cur sp1) !! tx_Hash tx)) (tx_Hash tx)
    (if MessageCreatesExternalLogic msg then new_address (From msg) (AccountNonce tx) else zeros 20) gas]) as [x Ex]. rewrite Ex. done.
Qed.

(** The transactions of a block. *)
Lemma process_txs_run l N0 b txs i gp used w s sp :
  sound (removes (header b)) w s sp -> healthy l N0 sp -> N0 < 2 ^ 256 -> a_refund (cur sp) = 0 -> Forall (tx_sendable l (header b)) txs ->
  exists caches res w' s' sp', process_txs StartingNonce order config b i txs gp used w s = Ok ((caches, res), w', s') /\
    sound (removes (header b)) w' s' sp' /\ txs_run b i txs gp used sp res sp'.
Proof.
  intros So Hh HN Rf Ft. revert i gp used w s sp So Hh Rf. induction Ft as [|[tx c] txs To _ IH]; intros i gp used w s sp So Hh Rf; cbn [process_txs].
  { exists [], (inr ([], [], used)), w, s, sp. split; [done|]. split; [done|constructor]. }
  destruct (StartRecord_run _ w s sp (tx_Hash tx) (block_Hash b) i So) as (s1 & E1 & So1). rewrite (run_bind _ _ _ _ _ _ _ E1).
  pose proof (healthy_record l N0 sp (tx_Hash tx) (block_Hash b) i Hh) as Hh1. set (sp1 := record_spec _ _ _ _) in *.
  pose proof (ApplyTransaction_run l N0 (header b) tx c w s1 sp1 gp used So1 Hh1 HN Rf To) as A.
  destruct (tx_message (header b) tx c) as [msg|e|] eqn:Em; [|destruct A as (c' & A)|done].
  2: { rewrite (run_bind _ _ _ _ _ _ _ A). exists (c' :: map snd txs), (inl (SenderErr e)), w, s1, sp1. split; [done|]. split; [done|]. by constructor. }
  destruct (transition_spec (NewEnv config (header b)) msg gp sp1) as [[gp' [e|[req gas]]] sp2] eqn:Et.
  { destruct A as (c' & w2 & s2 & A & So2). rewrite (run_bind _ _ _ _ _ _ _ A). exists (c' :: map snd txs), (inl (MessageErr e)), w2, s2, sp2.
    split; [done|]. split; [done|]. by eapply run_refused. }
  destruct A as (c' & touched & root & w2 & s2 & A & So2 & R2). rewrite (run_bind _ _ _ _ _ _ _ A).
  destruct (send_healthy StartingNonce Nonce0 l N0 _ msg gp sp1 gp' _ sp2 (proj1 (To msg Em)) Et Hh1) as [Hh2 _].
  destruct (IH (i + 1) gp' (used + gas) w2 s2 _ So2 (healthy_root _ l N0 touched sp2 Hh2) eq_refl) as (caches & res & w3 & s3 & sp3 & E3 & So3 & R3).
  rewrite (run_bind _ _ _ _ _ _ _ E3). exists (c' :: caches). eexists _, w3, s3, sp3. split; [reflexivity|]. split; [done|].
  match goal with |- txs_run _ _ _ _ _ _ (match ?res with _ => _ end) _ => change (match res with inl e => inl e | inr (rs, logs, u) => _ end) with (add_receipt (receipt_of tx msg root (used + gas) gas (default [] (a_logs (cur sp2) !! tx_Hash tx))) res) end.
  by eapply run_applied.
Qed.

(** ** What the transactions of a block come to *)

Lemma txs_run_total l N0 b i txs gp used sp res sp' :
  txs_run b i txs gp used sp res sp' -> Forall (tx_sendable l (header b)) txs -> healthy l N0 sp ->
  healthy l N0 sp' /\ (forall x, res = inr x -> total sp' l = total sp l).
Proof.
  induction 1 as [i gp used sp|i tx c txs gp used sp e Em|i tx c txs gp used sp msg gp' e sp1 Em Et|i tx c txs gp used sp msg gp' req gas sp1 touched root res sp2 Em Et Rt _ IH];
    intros Ft Hh; [done|by split; [apply healthy_record|]|..];
    apply Forall_cons in Ft as [To Ft]; destruct (To msg Em) as [Sd _];
    destruct (send_healthy StartingNonce Nonce0 l N0 _ msg gp _ gp' _ sp1 Sd Et (healthy_record l N0 sp _ _ _ Hh)) as [Hh1 T1]; [done|].
  destruct (IH Ft (healthy_root _ l N0 touched sp1 Hh1)) as [Hh2 T2]. split; [done|]. intros x Ex.
  destruct res as [e|y]; [done|]. rewrite (T2 y eq_refl), (total_same sp1) by (intros a; apply bal_root, Hh1).
  by rewrite (T1 _ eq_refl).
Qed.

(** Receipts in a row, from some gas used to some gas used. *)
Fixpoint adds_up (used : Z) (rs : list Receipt) (used' : Z) : Prop :=
  match rs with
  | [] => used = used'
  | r :: rs => TxGas <= rGasUsed r /\ CumulativeGasUsed r = used + rGasUsed r /\ adds_up (CumulativeGasUsed r) rs used'
  end.

Lemma txs_run_gas l b i txs gp used sp rs logs used' sp' :
  txs_run b i txs gp used sp (inr (rs, logs, used')) sp' -> Forall (tx_sendable l (header b)) txs -> 0 <= gp ->
  adds_up used rs used' /\ used <= used' <= used + gp /\ map rTxHash rs = map (fun t => tx_Hash t.1) txs /\ logs = concat (map Logs rs).
Proof.
  intros R. remember (inr (rs, logs, used')) as res eqn:Er. revert rs logs used' Er.
  induction R as [i gp used sp|i tx c txs gp used sp e Em|i tx c txs gp used sp msg gp' e sp1 Em Et|i tx c txs gp used sp msg gp' req gas sp1 touched root res sp2 Em Et Rt _ IH];
    intros rs logs used' Er Ft Hg; [injection Er as <- <- <-; cbn; repeat split; lia|done|done|].
  destruct res as [e|[[rs1 logs1] used1]]; [done|]. cbn in Er. injection Er as <- <- <-.
  apply Forall_cons in Ft as [To Ft]. destruct (To msg Em) as [Sd _].
  destruct (send_effect StartingNonce l _ msg gp _ gp' _ sp1 Sd Et) as [Ef _]. destruct Ef as (_ & -> & Hu & -> & _).
  pose proof (required_pos (NewEnv config (header b)) msg). unfold TxGas in *.
  destruct (IH rs1 logs1 used1 eq_refl Ft) as (A & U & Th & Lg); [lia|]. cbn [adds_up map concat receipt_of rGasUsed CumulativeGasUsed rTxHash Logs].
  split; [done|]. split; [lia|]. by rewrite Th, Lg.
Qed.

(** ** The DAO fork moves money *)

Lemma refund_not_drained : DAORefundExternalLogic ∉ DAODrainList.
Proof. apply (bool_decide_unpack _). by vm_compute. Qed.

Lemma bal_zero sp a x : bal (zero_balance StartingNonce sp a) x = if decide (x = a) then 0 else bal sp x.
Proof. unfold zero_balance, bal at 1. rewrite ask_change. by case_decide. Qed.

Lemma bal_ensure sp a x : bal (ensure StartingNonce sp a) x = bal sp x.
Proof. unfold ensure, bal at 1. rewrite ask_change. case_decide; [subst; apply acct_of_bal|done]. Qed.

Lemma bal_drain sp a x :
  a <> DAORefundExternalLogic -> present sp a = true ->
  bal (drain_spec StartingNonce sp a) x = bal sp x + moves a DAORefundExternalLogic (bal sp a) x.
Proof.
  intros Ne Pa. unfold drain_spec. rewrite Pa, bal_zero, bal_credit. unfold moves. repeat case_decide; subst; try congruence; lia.
Qed.

Lemma drain_healthy l N0 sp a :
  a <> DAORefundExternalLogic -> a ∈ l -> DAORefundExternalLogic ∈ l -> healthy l N0 sp ->
  healthy l N0 (drain_spec StartingNonce sp a) /\ total (drain_spec StartingNonce sp a) l = total sp l.
Proof.
  intros Ne Ha Hr Hh. destruct (present sp a) eqn:Pa; [|unfold drain_spec; by rewrite Pa]. pose proof Hh as [ND B R Tt Ty].
  assert (E : total (drain_spec StartingNonce sp a) l = total sp l).
  { rewrite (total_shift sp _ (moves a DAORefundExternalLogic (bal sp a))) by (intros x; by apply bal_drain). rewrite sum_moves by done. lia. }
  split; [|done]. split; [done| | |by rewrite E|].
  - intros x. rewrite bal_drain by done. unfold moves. pose proof (B x). pose proof (B a). repeat case_decide; subst; lia.
  - intros x Hx. rewrite bal_drain by done. rewrite (R x Hx). unfold moves. rewrite !decide_False by (intros ->; done). done.
  - unfold drain_spec. rewrite Pa. apply tidy_change; [done| |by intros y]. by apply tidy_credit.
Qed.

Lemma dao_healthy l N0 sp :
  (forall a, a ∈ DAORefundExternalLogic :: DAODrainList -> a ∈ l) -> healthy l N0 sp ->
  healthy l N0 (dao_spec StartingNonce sp) /\ total (dao_spec StartingNonce sp) l = total sp l.
Proof.
  intros Sub Hh. unfold dao_spec. assert (Hr : DAORefundExternalLogic ∈ l) by (apply Sub; by left).
  assert (Hh1 : healthy l N0 (ensure StartingNonce sp DAORefundExternalLogic)).
  { apply (healthy_same l N0 sp); [intros x; apply bal_ensure| |done]. apply tidy_change; [done|apply Hh|done]. }
  rewrite <- (total_same sp (ensure StartingNonce sp DAORefundExternalLogic)) by (intros x; apply bal_ensure).
  pose proof refund_not_drained as Nd. assert (Sub' : forall a, a ∈ DAODrainList -> a ∈ l) by (intros a Ha; apply Sub; by right).
  clear Sub Hh. revert Hh1. generalize (ensure StartingNonce sp DAORefundExternalLogic). revert Nd Sub'.
  induction DAODrainList as [|a d IH]; intros Nd Sub' sp1 Hh1; [done|]. cbn [foldl]. apply not_elem_of_cons in Nd as [Ne Nd].
  destruct (drain_healthy l N0 sp1 a) as [Hh2 E2]; [congruence|apply Sub'; by left|done|done|].
  destruct (IH Nd (fun x Hx => Sub' x (list_elem_of_further _ _ _ Hx)) _ Hh2) as [Hh3 E3]. by rewrite E3, E2.
Qed.

(** ** Whole blocks *)

Definition dao_fork b : bool :=
  DAOForkSupport config && match DAOForkBlock config with Some n => n =? hNumber (header b) | None => false end.

(** The accounts of a block are among [l], which are in use. *)
Record block_ok (l : list bytes) b (caches : list sigCache) : Prop := {
  bo_txs : Forall (tx_sendable l (header b)) (combine (transactions b) caches);
  bo_caches : length caches = length (transactions b);
  bo_coinbase : st_key (hCoinbase (header b)) /\ hCoinbase (header b) ∈ l;
  bo_uncles : Forall (fun u => st_key (hCoinbase u) /\ hCoinbase u ∈ l) (uncles b);
  bo_dao : dao_fork b = true -> forall a, a ∈ DAORefundExternalLogic :: DAODrainList -> st_key a /\ a ∈ l;
  bo_gas : 0 <= hGasLimit (header b)
}.

(** What processing does to the accounts. *)
Definition process_effect b (caches : list sigCache) sp (res : result) sp' : Prop :=
  exists sp1, txs_run b 0 (combine (transactions b) caches) (hGasLimit (header b)) 0 (if dao_fork b then dao_spec StartingNonce sp else sp) res sp1 /\
    sp' = match res with inl _ => sp1 | inr _ => rewards_spec StartingNonce (header b) (uncles b) sp1 end.

Lemma dao_fork_run l N0 b caches w s sp :
  sound (removes (header b)) w s sp -> healthy l N0 sp -> block_ok l b caches ->
  exists w' s', (if dao_fork b then ApplyDAOHardFork StartingNonce else retS tt) w s = Ok (tt, w', s') /\
    sound (removes (header b)) w' s' (if dao_fork b then dao_spec StartingNonce sp else sp) /\
    healthy l N0 (if dao_fork b then dao_spec StartingNonce sp else sp) /\
    total (if dao_fork b then dao_spec StartingNonce sp else sp) l = total sp l.
Proof.
  intros So Hh Bo. destruct (dao_fork b) eqn:Ed; [|by exists w, s]. pose proof (bo_dao _ _ _ Bo Ed) as Hd.
  destruct (ApplyDAOHardFork_run StartingNonce (removes (header b)) w s sp So) as (w' & s' & E & So').
  - apply Hd. by left.
  - apply Forall_forall. intros a Ha. apply Hd. by right.
  - exists w', s'. split; [done|]. split; [done|]. apply dao_healthy; [|done]. intros a Ha. by apply Hd.
Qed.

Lemma dao_refund sp : a_refund (cur (dao_spec StartingNonce sp)) = a_refund (cur sp).
Proof.
  unfold dao_spec. change (a_refund (cur sp)) with (a_refund (cur (ensure StartingNonce sp DAORefundExternalLogic))).
  generalize (ensure StartingNonce sp DAORefundExternalLogic). induction DAODrainList as [|a d IH]; intros sp1; [done|]. cbn [foldl].
  rewrite IH. unfold drain_spec. by destruct (present sp1 a).
Qed.

Lemma Process_run l N0 b caches w s sp :
  sound (removes (header b)) w s sp -> healthy l N0 sp -> N0 < 2 ^ 256 -> a_refund (cur sp) = 0 -> block_ok l b caches ->
  exists caches' res w' s' sp', Process StartingNonce order config b caches w s = Ok ((caches', res), w', s') /\
    sound (removes (header b)) w' s' sp' /\ process_effect b caches sp res sp'.
Proof.
  intros So Hh HN Rf Bo. destruct (dao_fork_run l N0 b caches w s sp So Hh Bo) as (w1 & s1 & E1 & So1 & Hh1 & _).
  unfold Process. fold (dao_fork b). rewrite (run_bind _ _ _ _ _ _ _ E1).
  destruct (process_txs_run l N0 b (combine (transactions b) caches) 0 (AddGas 0 (hGasLimit (header b))) 0 w1 s1 _ So1 Hh1 HN) as (cs & res & w2 & s2 & sp2 & E2 & So2 & R2).
  - destruct (dao_fork b); [by rewrite dao_refund|done].
  - apply Bo.
  - rewrite (run_bind _ _ _ _ _ _ _ E2). destruct res as [e|res].
    + exists cs, (inl e), w2, s2, sp2. split; [done|]. split; [done|]. by exists sp2.
    + destruct (AccumulateRewards_run StartingNonce (removes (header b)) (header b) (uncles b) w2 s2 sp2 So2) as (w3 & s3 & E3 & So3).
      * apply Bo.
      * eapply Forall_impl; [apply Bo|]. by intros u [? _].
      * exists cs, (inr res), w3, s3, (rewards_spec StartingNonce (header b) (uncles b) sp2). rewrite (run_bind _ _ _ _ _ _ _ E3).
        split; [done|]. split; [done|]. by exists sp2.
Qed.

Lemma effect_total l N0 b caches w s sp res sp' :
  process_effect b caches sp res sp' -> sound (removes (header b)) w s sp -> healthy l N0 sp -> block_ok l b caches ->
  match res with
  | inr _ => total sp' l = total sp l + block_rewards (header b) (uncles b)
  | inl _ => total sp' l <= N0
  end.
Proof.
  intros (sp1 & R & ->) So Hh Bo. destruct (dao_fork_run l N0 b caches w s sp So Hh Bo) as (_ & _ & _ & _ & Hh1 & T1).
  destruct (txs_run_total l N0 b _ _ _ _ _ res sp1 R (bo_txs _ _ _ Bo) Hh1) as [Hh2 T2]. destruct res as [e|x]; [apply Hh2|].
  rewrite rewards_total; [by rewrite (T2 x eq_refl), T1|apply Hh|apply Bo|]. eapply Forall_impl; [apply Bo|]. by intros u [_ ?].
Qed.

Lemma combine_fst {A B} (l : list A) (l' : list B) : length l' = length l -> map fst (combine l l') = l.
Proof. revert l'. induction l as [|a l IH]; intros [|x l'] E; try done. cbn. f_equal. apply IH. by injection E. Qed.

(** C11: processing a block never panics and does to the accounts what the
    description says: the balances of the DAO accounts move in the fork block,
    the transactions are applied in order until one is refused, each with a
    receipt whose root is the state root of the accounts it leaves, and the
    rewards are paid only when all of them were applied. *)
Theorem Process_refines l N0 b caches w s sp :
  sound (removes (header b)) w s sp -> healthy l N0 sp -> N0 < 2 ^ 256 -> a_refund (cur sp) = 0 -> block_ok l b caches ->
  exists caches' res w' s' sp', Process StartingNonce order config b caches w s = Ok ((caches', res), w', s') /\
    sound (removes (header b)) w' s' sp' /\ process_effect b caches sp res sp'.
Proof. apply Process_run. Qed.

(** C12: a block that is processed makes exactly its rewards: the sum of all
    balances grows by the block reward, a 32nd of it per uncle and what the uncles
    are paid.  Fees, transfers, creations and the DAO fork only move money, and a
    block that is refused has made none. *)
Theorem Process_supply l N0 b caches w s sp caches' res w' s' :
  sound (removes (header b)) w s sp -> healthy l N0 sp -> N0 < 2 ^ 256 -> a_refund (cur sp) = 0 -> block_ok l b caches ->
  Process StartingNonce order config b caches w s = Ok ((caches', res), w', s') ->
  exists sp', sound (removes (header b)) w' s' sp' /\
    match res with
    | inr _ => total sp' l = total sp l + block_rewards (header b) (uncles b)
    | inl _ => total sp' l <= N0
    end.
Proof.
  intros So Hh HN Rf Bo E. destruct (Process_run l N0 b caches w s sp So Hh HN Rf Bo) as (c1 & r1 & w1 & s1 & sp' & E1 & So1 & Ef).
  rewrite E in E1. injection E1 as <- <- <- <-. exists sp'. split; [done|]. by eapply effect_total.
Qed.

(** C13: the gas of a processed block adds up: there is one receipt per
    transaction, in order, each for at least the 21000 gas of a transaction; the
    cumulative gas of a receipt is that of the one before plus its own, the last
    one is the gas used by the block, and that is at most its gas limit. *)
Theorem Process_gas l N0 b caches w s sp caches' receipts logs usedGas w' s' :
  sound (removes (header b)) w s sp -> healthy l N0 sp -> N0 < 2 ^ 256 -> a_refund (cur sp) = 0 -> block_ok l b caches ->
  Process StartingNonce order config b caches w s = Ok ((caches', inr (receipts, logs, usedGas)), w', s') ->
  adds_up 0 receipts usedGas /\ usedGas <= hGasLimit (header b) /\ map rTxHash receipts = map tx_Hash (transactions b) /\
    logs = concat (map Logs receipts).
Proof.
  intros So Hh HN Rf Bo E. destruct (Process_run l N0 b caches w s sp So Hh HN Rf Bo) as (c1 & r1 & w1 & s1 & sp' & E1 & So1 & sp1 & R & _).
  rewrite E in E1. injection E1 as <- <- <- <-.
  destruct (txs_run_gas l b _ _ _ _ _ receipts logs usedGas sp1 R (bo_txs _ _ _ Bo) (bo_gas _ _ _ Bo)) as (A & U & Th & Lg).
  split; [done|]. split; [lia|]. split; [|done]. rewrite Th.
  etrans; [symmetry; apply (map_map fst tx_Hash)|by rewrite (combine_fst _ _ (bo_caches _ _ _ Bo))].
Qed.

(** ** The check of the result *)

Definition with_root b (root : bytes) : Block :=
  let h := header b in
  mkBlock (mkHeader (hParentHash h) (hUncleHash h) (hCoinbase h) root (hTxHash h) (hReceiptHash h) (hBloom h) (hDifficulty h) (hNumber h)
    (hGasLimit h) (hGasUsed h) (hTime h) (hExtra h) (hMixDigest h) (hNonce h)) (uncles b) (transactions b) (td b).

(** C35: the state root of a header is not checked: a block whose gas, bloom filter
    and receipt root are right is accepted whatever root its header claims,
    although the root of the accounts is computed. *)
Theorem ValidateState_accepts_any_root l N0 b w s sp receipts bloom root :
  sound (removes (header b)) w s sp -> healthy l N0 sp -> N0 < 2 ^ 256 ->
  CreateBloom receipts = Some bloom -> bloom = hBloom (header b) -> receipts_root (wdb w) receipts = Ok (hReceiptHash (header b)) ->
  exists w' s' computed, ValidateState order config (with_root b root) receipts (hGasUsed (header b)) w s = Ok (None, w', s') /\
    IntermediateRoot order (removes (header b)) w s = Ok (computed, w', s') /\
    state_root (accts (cur (spec_root (removes (header b)) (stateObjectsDirty s) sp))) computed.
Proof.
  intros [I F] Hh HN Eb Hb Er. destruct (root_spec (removes (header b)) order Order w s sp I F (healthy_fits l N0 sp Hh HN)) as (computed & w' & E & _ & _ & Rt & _).
  exists w', (cleared s), computed. split; [|done]. unfold ValidateState. cbn [with_root header hGasUsed hBloom hReceiptHash hNumber hRoot].
  rewrite Z.eqb_refl, Eb. cbn [negb]. rewrite (bool_decide_true _ Hb). cbn [negb]. unfold bindS at 1, getDb. rewrite Er, bool_decide_true by done.
  cbn [negb]. rewrite (run_bind _ _ _ _ _ _ _ E). by destruct (negb _).
Qed.
End Blocks.

(** ** Witnesses *)

#[local] Existing Instance keccak_hash.

(** The sender is in the cache; the curve is not used. *)
#[local] Instance no_curve : Secp256k1 := {| ecdsa_sign _ _ _ := None; ecdsa_recover _ _ := None; ecdsa_pubkey _ := [] |}.

Definition sample_header : Header :=
  mkHeader (zeros 32) (zeros 32) addr3 (zeros 32) (zeros 32) (zeros 32) (zeros 256) 8192 1 100000 21072 10 [] (zeros 32) (zeros 8).
Definition sample_uncle : Header :=
  mkHeader (zeros 32) (zeros 32) addr2 (zeros 32) (zeros 32) (zeros 32) (zeros 256) 8192 0 100000 0 5 [] (zeros 32) (zeros 8).
Definition sample_tx : Transaction := mkTx 0 2 30000 (Some addr2) 5 [0; 1] 0 0 0.
Definition sample_block : Block := mkBlock sample_header [sample_uncle] [sample_tx] None.
Definition sample_caches : list sigCache := [Some (MakeSigner config0 1, addr1)].
Definition sample_accounts : list bytes := [addr1; addr2; addr3].

Lemma sample_message : tx_message config0 sample_header sample_tx (Some (MakeSigner config0 1, addr1)) = Ok pay.
Proof. reflexivity. Qed.

Lemma key_addr3 : st_key (T := SecureTrie) (D := MemDatabase) addr3.
Proof. apply list_elem_of_further, list_elem_of_further, list_elem_of_here. Qed.

Lemma sample_block_ok : block_ok (T := SecureTrie) (D := MemDatabase) config0 sample_accounts sample_block sample_caches.
Proof.
  assert (L1 : addr1 ∈ sample_accounts) by apply list_elem_of_here.
  assert (L2 : addr2 ∈ sample_accounts) by apply list_elem_of_further, list_elem_of_here.
  assert (L3 : addr3 ∈ sample_accounts) by apply list_elem_of_further, list_elem_of_further, list_elem_of_here.
  pose proof key_addr1. pose proof key_addr2. pose proof key_addr3. split; [|done|done| |done|by vm_compute].
  - apply Forall_cons. split; [|by apply Forall_nil]. intros msg E. change (tx_message config0 sample_header sample_tx (Some (MakeSigner config0 1, addr1)) = Ok msg) in E.
    rewrite sample_message in E. injection E as <-.
    split; [|done]. by split.
  - apply Forall_cons. split; [done|by apply Forall_nil].
Qed.

Lemma funded_healthy : healthy sample_accounts 1000000 funded.
Proof.
  split.
  - apply (bool_decide_unpack _). by vm_compute.
  - intros b. rewrite funded_bal. by case_decide.
  - intros b Hb. rewrite funded_bal, decide_False; [done|]. intros ->. apply Hb, list_elem_of_here.
  - unfold total, sample_accounts. cbn [foldr]. rewrite !funded_bal. by vm_compute.
  - apply (tidy_change 0 ltac:(lia)); [|by intros x]. intros a x. change (accts (abs world1 (new_state 0)) a = Some x -> tidy_acct x). cbn [accts abs]. by rewrite view0.
Qed.

(** The transaction is applied. *)
Lemma sample_applied res sp' :
  process_effect (T := SecureTrie) (D := MemDatabase) 0 config0 sample_block sample_caches funded res sp' ->
  exists receipts logs, res = inr (receipts, logs, 21072).
Proof.
  assert (S : forall th bh, (transition_spec 0 (NewEnv config0 sample_header) pay 100000 (record_spec funded th bh 0)).1 = (78928, inr (21072, 21072)))
    by (intros th bh; vm_compute; reflexivity).
  intros (sp1 & R & _). change (if dao_fork config0 sample_block then _ else funded) with funded in R.
  inversion R as [|? ? ? ? ? ? ? e Em|? ? ? ? ? ? ? msg ? e ? Em Et|? ? ? ? ? ? ? msg gp' req gas sp2 touched root res1 ? Em Et Rt R1]; subst;
    change (header sample_block) with sample_header in Em; rewrite sample_message in Em; [done|..]; injection Em as <-;
    match type of Et with TransitionSpec.transition_spec 0 ?e ?m ?g (record_spec _ ?th ?bh _) = _ => pose proof (eq_trans (eq_sym (S th bh)) (f_equal fst Et)) as X end; [done|].
  injection X as <- <- <-. inversion R1; subst. cbn. eauto.
Qed.

Lemma Process_refines_witness :
  exists w s caches' receipts logs w' s' sp',
    Process (T := SecureTrie) (D := MemDatabase) 0 in_order config0 sample_block sample_caches w s = Ok ((caches', inr (receipts, logs, 21072)), w', s') /\
    sound true w' s' sp'.
Proof.
  destruct (funded_sound true) as (w & s & So).
  destruct (Process_refines (T := SecureTrie) (D := MemDatabase) 0 ltac:(lia) in_order ltac:(done) config0 sample_accounts 1000000 sample_block sample_caches w s funded So
    funded_healthy ltac:(lia) eq_refl sample_block_ok) as (c & res & w' & s' & sp' & E & So' & Ef).
  destruct (sample_applied res sp' Ef) as (receipts & logs & ->). exists w, s, c, receipts, logs, w', s', sp'. split; [exact E|exact So'].
Defined.

Lemma sample_run :
  exists w s caches' receipts logs w' s', sound (T := SecureTrie) (D := MemDatabase) true w s funded /\
    Process (T := SecureTrie) (D := MemDatabase) 0 in_order config0 sample_block sample_caches w s = Ok ((caches', inr (receipts, logs, 21072)), w', s').
Proof.
  destruct (funded_sound true) as (w & s & So).
  destruct (Process_run (T := SecureTrie) (D := MemDatabase) 0 ltac:(lia) in_order ltac:(done) config0 sample_accounts 1000000 sample_block sample_caches w s funded So
    funded_healthy ltac:(lia) eq_refl sample_block_ok) as (c & res & w' & s' & sp' & E & So' & Ef).
  destruct (sample_applied res sp' Ef) as (receipts & logs & ->). exists w, s, c, receipts, logs, w', s'. split; [exact So|exact E].
Qed.

Lemma Process_supply_witness :
  exists w' s' sp', sound (T := SecureTrie) (D := MemDatabase) true w' s' sp' /\
    total sp' sample_accounts = total funded sample_accounts + (BlockReward + BlockReward / 32 + 7 * BlockReward / 8).
Proof.
  destruct sample_run as (w & s & c & receipts & logs & w' & s' & So & E).
  destruct (Process_supply (T := SecureTrie) (D := MemDatabase) 0 ltac:(lia) in_order ltac:(done) config0 sample_accounts 1000000 sample_block sample_caches w s funded c _ w' s' So
    funded_healthy ltac:(lia) eq_refl sample_block_ok E) as (sp' & So' & Tt).
  exists w', s', sp'. split; [exact So'|]. rewrite Tt. f_equal.
Defined.

Lemma Process_gas_witness :
  exists w s caches' receipts logs w' s',
    Process (T := SecureTrie) (D := MemDatabase) 0 in_order config0 sample_block sample_caches w s = Ok ((caches', inr (receipts, logs, 21072)), w', s') /\
    adds_up 0 receipts 21072 /\ map rTxHash receipts = [tx_Hash sample_tx].
Proof.
  destruct sample_run as (w & s & c & receipts & logs & w' & s' & So & E).
  destruct (Process_gas (T := SecureTrie) (D := MemDatabase) 0 ltac:(lia) in_order ltac:(done) config0 sample_accounts 1000000 sample_block sample_caches w s funded c
    receipts logs 21072 w' s' So funded_healthy ltac:(lia) eq_refl sample_block_ok E) as (A & _ & Th & _).
  exists w, s, c, receipts, logs, w', s'. split; [exact E|]. split; [exact A|exact Th].
Defined.

(** The root hash of no receipts. *)
Definition no_receipts : bytes := Eval vm_compute in match receipts_root NewMemDatabase [] with Ok r => r | _ => [] end.
Definition wrong_block : Block :=
  mkBlock (mkHeader (zeros 32) (zeros 32) addr3 (zeros 32) (zeros 32) no_receipts (zeros 256) 8192 1 100000 0 10 [] (zeros 32) (zeros 8)) [] [] None.

Lemma ValidateState_accepts_any_root_witness :
  exists w s w' s', ValidateState (T := SecureTrie) (D := MemDatabase) in_order config0 (with_root wrong_block (replicate 32 7)) [] 0 w s = Ok (None, w', s').
Proof.
  destruct (funded_sound true) as (w & s & So).
  destruct (ValidateState_accepts_any_root (T := SecureTrie) (D := MemDatabase) in_order ltac:(done) config0 sample_accounts 1000000 wrong_block w s funded []
    (zeros 256) (replicate 32 7) So funded_healthy ltac:(lia)) as (w' & s' & h & E & _); [by vm_compute|done|by vm_compute|].
  exists w, s, w', s'. exact E.
Defined.
