(* ===== verification/BlockChain.v ===== *)
(** * The block chain (src/blockchainCore/blockchain.go)

    Blocks on top of the header chain: lookups through the caches, writing a
    block with the choice of the canonical chain, the reorganisation, rewinding
    and the receipts of a fast sync.

    The database is that of the header chain, [hdb].  The state cache is a state
    database on a heap of its own, whose database is set to [hdb] when it is
    used.  The coin that [WriteBlock] tosses on a tie is an argument.  Locks and
    the events that are posted to other goroutines are left out.  [Err] ends the
    process ([glog.Fatalf]); an error that is returned is part of the result. *)

From S2P Require Import Prelude RlpEncode Helper Database TrieNode Trie TrieHash StateTrie State Transition Types Signing ChainDb HeaderChain.

Definition bodyCacheLimit : Z := 256.
Definition blockCacheLimit : Z := 256.
Definition maxFutureBlocks : Z := 256.

Inductive block_error := ParentError | InvalidOldChain | InvalidNewChain | StoreError (e : chain_error).

(** A store error that is returned, unless it ended the process. *)
Definition returned {A} (m : outcome chain_error A) : outcome chain_error (chain_error + A) :=
  match m with Ok x => Ok (inr x) | Err Fatal => Err Fatal | Err e => Ok (inl e) | Panic => Panic end.

Section BlockChain.
Context `{Hash256} `{Secp256k1} `{Store D} `{LRU C} `{StateTrie T D} (MaxTrieCacheGen : Z).

Record BlockChain := mkBC {
  hc : HeaderChain D C;
  genesisBlock : option Block;
  currentBlock : option Block;
  currentFastBlock : option Block;
  world : World T D;
  stateCache : StateDB;
  bodyCache : C Body;
  bodyRLPCache : C bytes;
  blockCache : C Block;
  futureBlocks : C Block
}.

Definition set_hc bc x := mkBC x (genesisBlock bc) (currentBlock bc) (currentFastBlock bc) (world bc) (stateCache bc) (bodyCache bc) (bodyRLPCache bc) (blockCache bc) (futureBlocks bc).
Definition set_genesisBlock bc x := mkBC (hc bc) x (currentBlock bc) (currentFastBlock bc) (world bc) (stateCache bc) (bodyCache bc) (bodyRLPCache bc) (blockCache bc) (futureBlocks bc).
Definition set_currentBlock bc x := mkBC (hc bc) (genesisBlock bc) x (currentFastBlock bc) (world bc) (stateCache bc) (bodyCache bc) (bodyRLPCache bc) (blockCache bc) (futureBlocks bc).
Definition set_currentFastBlock bc x := mkBC (hc bc) (genesisBlock bc) (currentBlock bc) x (world bc) (stateCache bc) (bodyCache bc) (bodyRLPCache bc) (blockCache bc) (futureBlocks bc).
Definition set_state bc w s := mkBC (hc bc) (genesisBlock bc) (currentBlock bc) (currentFastBlock bc) w s (bodyCache bc) (bodyRLPCache bc) (blockCache bc) (futureBlocks bc).
Definition set_bodyCache bc x := mkBC (hc bc) (genesisBlock bc) (currentBlock bc) (currentFastBlock bc) (world bc) (stateCache bc) x (bodyRLPCache bc) (blockCache bc) (futureBlocks bc).
Definition set_bodyRLPCache bc x := mkBC (hc bc) (genesisBlock bc) (currentBlock bc) (currentFastBlock bc) (world bc) (stateCache bc) (bodyCache bc) x (blockCache bc) (futureBlocks bc).
Definition set_blockCache bc x := mkBC (hc bc) (genesisBlock bc) (currentBlock bc) (currentFastBlock bc) (world bc) (stateCache bc) (bodyCache bc) (bodyRLPCache bc) x (futureBlocks bc).
Definition set_futureBlocks bc x := mkBC (hc bc) (genesisBlock bc) (currentBlock bc) (currentFastBlock bc) (world bc) (stateCache bc) (bodyCache bc) (bodyRLPCache bc) (blockCache bc) x.

Definition chainDb bc : D := hdb (hc bc).
Definition set_chainDb bc (d : D) : BlockChain := set_hc bc (set_hdb (hc bc) d).

Abbreviation R A := (outcome chain_error (A * BlockChain)).

(** A method of the header chain. *)
Definition on_hc {A} bc (m : outcome chain_error (A * HeaderChain D C)) : R A :=
  let* (x, h) := m in Ok (x, set_hc bc h).

(** ** Lookups *)

Definition bc_GetTd bc (hash : bytes) (number : Z) : R (option Z) := on_hc bc (hc_GetTd (hc bc) hash number).
Definition bc_GetHeader bc (hash : bytes) (number : Z) : R (option Header) := on_hc bc (hc_GetHeader (hc bc) hash number).
Definition bc_GetHeaderByHash bc (hash : bytes) : R (option Header) := on_hc bc (hc_GetHeaderByHash (hc bc) hash).
Definition bc_HasHeader bc (hash : bytes) : R bool := on_hc bc (HasHeader (hc bc) hash).

Definition bc_GetBody bc (hash : bytes) : R (option Body) :=
  let '(cached, cache) := lru_get (bodyCache bc) hash in
  let bc := set_bodyCache bc cache in
  match cached with
  | Some body => Ok (Some body, bc)
  | None =>
      let* (number, bc) := on_hc bc (hc_GetBlockNumber (hc bc) hash) in
      let* body := read (GetBody (chainDb bc) hash number) in
      match body with
      | None => Ok (None, bc)
      | Some body => Ok (Some body, set_bodyCache bc (lru_add (bodyCache bc) hash body))
      end
  end.

Definition bc_GetBodyRLP bc (hash : bytes) : R (option bytes) :=
  let '(cached, cache) := lru_get (bodyRLPCache bc) hash in
  let bc := set_bodyRLPCache bc cache in
  match cached with
  | Some body => Ok (Some body, bc)
  | None =>
      let* (number, bc) := on_hc bc (hc_GetBlockNumber (hc bc) hash) in
      let body := GetBodyRLP (chainDb bc) hash number in
      if len body =? 0 then Ok (None, bc)
      else Ok (Some body, set_bodyRLPCache bc (lru_add (bodyRLPCache bc) hash body))
  end.

Definition bc_GetBlock bc (hash : bytes) (number : Z) : R (option Block) :=
  let '(cached, cache) := lru_get (blockCache bc) hash in
  let bc := set_blockCache bc cache in
  match cached with
  | Some block => Ok (Some block, bc)
  | None =>
      let* block := read (GetBlock (chainDb bc) hash number) in
      match block with
      | None => Ok (None, bc)
      | Some block => Ok (Some block, set_blockCache bc (lru_add (blockCache bc) (block_Hash block) block))
      end
  end.

Definition bc_GetBlockByHash bc (hash : bytes) : R (option Block) :=
  let* (number, bc) := on_hc bc (hc_GetBlockNumber (hc bc) hash) in
  bc_GetBlock bc hash number.

Definition bc_GetBlockByNumber bc (number : Z) : R (option Block) :=
  let hash := GetCanonicalHash (chainDb bc) number in
  if bool_decide (hash = zeros 32) then Ok (None, bc) else bc_GetBlock bc hash number.

Definition HasBlock bc (hash : bytes) : R bool :=
  let* (block, bc) := bc_GetBlockByHash bc hash in
  Ok (match block with Some _ => true | None => false end, bc).

(** Whether the package function [New] of the state can open a root. *)
Definition has_state (d : D) (root : bytes) : outcome chain_error bool :=
  match st_new d root MaxTrieCacheGen with Ok _ => Ok true | Err _ => Ok false | Panic => Panic end.

Definition HasBlockAndState bc (hash : bytes) : R bool :=
  let* (block, bc) := bc_GetBlockByHash bc hash in
  match block with
  | None => Ok (false, bc)
  | Some block => let* b := has_state (chainDb bc) (hRoot (header block)) in Ok (b, bc)
  end.

Fixpoint blocks_loop (n : nat) bc (hash : bytes) (number : Z) : R (list Block) :=
  match n with
  | O => Ok ([], bc)
  | S n =>
      let* (block, bc) := bc_GetBlock bc hash number in
      match block with
      | None => Ok ([], bc)
      | Some block =>
          let* (blocks, bc) := blocks_loop n bc (hParentHash (header block)) (u64 (number - 1)) in
          Ok (block :: blocks, bc)
      end
  end.

Definition GetBlocksFromHash bc (hash : bytes) (n : Z) : R (list Block) :=
  let* (number, bc) := on_hc bc (hc_GetBlockNumber (hc bc) hash) in
  blocks_loop (Z.to_nat n) bc hash number.

Fixpoint uncles_loop (length : nat) bc (block : option Block) : R (list Header) :=
  match length, block with
  | S length, Some block =>
      let* (parent, bc) := bc_GetBlock bc (hParentHash (header block)) (u64 (NumberU64 block - 1)) in
      let* (rest, bc) := uncles_loop length bc parent in
      Ok (uncles block ++ rest, bc)
  | _, _ => Ok ([], bc)
  end.

Definition GetUnclesInChain bc (block : option Block) (length : Z) : R (list Header) := uncles_loop (Z.to_nat length) bc block.

(** The parent of a block. *)
Definition parent_block bc (block : Block) : R (option Block) :=
  bc_GetBlock bc (hParentHash (header block)) (u64 (NumberU64 block - 1)).

(** ** The new head *)

Definition bc_insert bc (block : Block) : outcome chain_error BlockChain :=
  let hash := block_Hash block in
  let updateHeads := negb (bool_decide (GetCanonicalHash (chainDb bc) (NumberU64 block) = hash)) in
  let* d := WriteCanonicalHash (chainDb bc) hash (NumberU64 block) in
  let* d := WriteHeadBlockHash d hash in
  let bc := set_currentBlock (set_chainDb bc d) (Some block) in
  if updateHeads then
    let* h := SetCurrentHeader (hc bc) (header block) in
    let bc := set_hc bc h in
    let* d := WriteHeadFastBlockHash (chainDb bc) hash in
    Ok (set_currentFastBlock (set_chainDb bc d) (Some block))
  else Ok bc.

(** ** Reorganisation *)

(** What [reorg] collects of the branch that is left: its blocks, their
    transactions and the logs of their receipts. *)
Record Dropped := mkDropped { oldChain : list Block; deletedTxs : list Transaction; deletedLogs : list Log }.

Definition collectLogs bc (h : bytes) : R (list Log) :=
  let* (number, bc) := on_hc bc (hc_GetBlockNumber (hc bc) h) in
  let* receipts := read (GetBlockReceipts (chainDb bc) h number) in
  Ok (concat (map Logs (default [] receipts)), bc).

Definition drop_block bc (r : Dropped) (block : Block) : R Dropped :=
  let* (logs, bc) := collectLogs bc (block_Hash block) in
  Ok (mkDropped (oldChain r ++ [block]) (deletedTxs r ++ transactions block) (deletedLogs r ++ logs), bc).

(** The branch that is left, down to the height [number]. *)
Fixpoint reduce_old (fuel : nat) bc (r : Dropped) (oldBlock : option Block) (number : Z) : R (Dropped * option Block) :=
  match fuel with
  | O => Panic
  | S fuel =>
      match oldBlock with
      | None => Ok ((r, None), bc)
      | Some block =>
          if NumberU64 block =? number then Ok ((r, Some block), bc)
          else
            let* (r, bc) := drop_block bc r block in
            let* (next, bc) := parent_block bc block in
            reduce_old fuel bc r next number
      end
  end.

(** The new branch, down to the height [number]. *)
Fixpoint reduce_new (fuel : nat) bc (newChain : list Block) (newBlock : option Block) (number : Z) : R (list Block * option Block) :=
  match fuel with
  | O => Panic
  | S fuel =>
      match newBlock with
      | None => Ok ((newChain, None), bc)
      | Some block =>
          if NumberU64 block =? number then Ok ((newChain, Some block), bc)
          else
            let* (next, bc) := parent_block bc block in
            reduce_new fuel bc (newChain ++ [block]) next number
      end
  end.

(** Both branches, down to the common block. *)
Fixpoint split_loop (fuel : nat) bc (r : Dropped) (newChain : list Block) (oldBlock newBlock : Block) :
    R (block_error + Dropped * list Block) :=
  match fuel with
  | O => Panic
  | S fuel =>
      if bool_decide (block_Hash oldBlock = block_Hash newBlock) then Ok (inr (r, newChain), bc)
      else
        let* (r, bc) := drop_block bc r oldBlock in
        let newChain := newChain ++ [newBlock] in
        let* (oldNext, bc) := parent_block bc oldBlock in
        let* (newNext, bc) := parent_block bc newBlock in
        match oldNext, newNext with
        | None, _ => Ok (inl InvalidOldChain, bc)
        | _, None => Ok (inl InvalidNewChain, bc)
        | Some oldBlock, Some newBlock => split_loop fuel bc r newChain oldBlock newBlock
        end
  end.

(** The transactions and receipts of a block of the new branch. *)
Definition index_block (d : D) (block : Block) : outcome chain_error (chain_error + D) :=
  let* t := returned (WriteTransactions d block) in
  match t with
  | inl e => Ok (inl e)
  | inr d =>
      let* receipts := read (GetBlockReceipts d (block_Hash block) (NumberU64 block)) in
      let receipts := default [] receipts in
      let* t := returned (WriteReceipts d receipts) in
      match t with
      | inl e => Ok (inl e)
      | inr d => returned (WriteMipmapBloom d (NumberU64 block) receipts)
      end
  end.

(** The loop over the new branch, from the new block down. *)
Fixpoint insert_chain bc (newChain : list Block) : R (block_error + list Transaction) :=
  match newChain with
  | [] => Ok (inr [], bc)
  | block :: newChain =>
      let* bc := bc_insert bc block in
      let* t := index_block (chainDb bc) block in
      match t with
      | inl e => Ok (inl (StoreError e), bc)
      | inr d =>
          let* (rest, bc) := insert_chain (set_chainDb bc d) newChain in
          Ok (match rest with inl e => inl e | inr txs => inr (transactions block ++ txs) end, bc)
      end
  end.

Definition delete_txs (d : D) (diff : list Transaction) : D :=
  foldl (fun d tx => DeleteTransaction (DeleteReceipt d (tx_Hash tx)) (tx_Hash tx)) d diff.

(** The end of [reorg], once the branches are known. *)
Definition switch bc (r : Dropped) (newChain : list Block) : R (block_error + Dropped) :=
  let* (added, bc) := insert_chain bc newChain in
  match added with
  | inl e => Ok (inl e, bc)
  | inr addedTxs => Ok (inr r, set_chainDb bc (delete_txs (chainDb bc) (TxDifference (deletedTxs r) addedTxs)))
  end.

Definition reorg (fuel : nat) bc (oldBlock newBlock : Block) : R (block_error + Dropped) :=
  let r := mkDropped [] [] [] in
  let* (r, oldBlock, newChain, newBlock, bc) :=
    (if NumberU64 newBlock <? NumberU64 oldBlock then
       let* (r, oldBlock, bc) := reduce_old fuel bc r (Some oldBlock) (NumberU64 newBlock) in
       Ok (r, oldBlock, [], Some newBlock, bc)
     else
       let* (newChain, newBlock, bc) := reduce_new fuel bc [] (Some newBlock) (NumberU64 oldBlock) in
       Ok (r, Some oldBlock, newChain, newBlock, bc)) in
  match oldBlock, newBlock with
  | None, _ => Ok (inl InvalidOldChain, bc)
  | _, None => Ok (inl InvalidNewChain, bc)
  | Some oldBlock, Some newBlock =>
      let* (t, bc) := split_loop fuel bc r newChain oldBlock newBlock in
      match t with
      | inl e => Ok (inl e, bc)
      | inr (r, newChain) => switch bc r newChain
      end
  end.

(** ** Writing a block *)

(** The block becomes the head. *)
Definition make_current (fuel : nat) bc (current block : Block) : R (block_error + WriteStatus) :=
  let* (t, bc) :=
    (if bool_decide (hParentHash (header block) = block_Hash current) then Ok (inr (mkDropped [] [] []), bc)
     else reorg fuel bc current block) in
  match t with
  | inl e => Ok (inl e, bc)
  | inr _ => let* bc := bc_insert bc block in Ok (inr CanonStatTy, bc)
  end.

Definition bc_WriteBlock (fuel : nat) (coin : bool) bc (block : Block) : R (block_error + WriteStatus) :=
  let* (ptd, bc) := bc_GetTd bc (hParentHash (header block)) (u64 (NumberU64 block - 1)) in
  match ptd with
  | None => Ok (inl ParentError, bc)
  | Some ptd =>
      let* current := the (currentBlock bc) in
      let* (localTd, bc) := bc_GetTd bc (block_Hash current) (NumberU64 current) in
      let externTd := hDifficulty (header block) + ptd in
      let* h := hc_WriteTd (hc bc) (block_Hash block) (NumberU64 block) externTd in
      let bc := set_hc bc h in
      let* d := WriteBlock (chainDb bc) block in
      let bc := set_chainDb bc d in
      let* localTd := the localTd in
      let* (status, bc) :=
        (if (localTd <? externTd) || ((externTd =? localTd) && coin) then make_current fuel bc current block
         else Ok (inr SideStatTy, bc)) in
      match status with
      | inl e => Ok (inl e, bc)
      | inr status => Ok (inr status, set_futureBlocks bc (lru_remove (futureBlocks bc) (block_Hash block)))
      end
  end.

(** ** Receipts of a fast sync *)

Abbreviation M A := (SM (T := T) (D := D) A).

(** The message of a transaction; a sender that cannot be recovered is zero. *)
Definition message_of (signer : Signer) (tx : Transaction) (cache : sigCache) : M (Message * sigCache) :=
  let '(m, cache) := AsMessage signer tx cache in
  match m with
  | Ok msg => retS (msg, cache)
  | Err _ =>
      retS ({| From := zeros 20; To := Recipient tx; GasPrice := Price tx; Gas := GasLimit tx; Value := Amount tx;
               MsgNonce := AccountNonce tx; CheckNonce := true; Data := Payload tx |}, cache)
  | Panic => panicS
  end.

Fixpoint set_log_fields (block : Block) (txHash : bytes) (j logIndex : Z) (ls : list Log) : list Log :=
  match ls with
  | [] => []
  | l :: ls =>
      mkLog (logAddress l) (logTopics l) (logData l) (NumberU64 block) txHash j (block_Hash block) logIndex
        :: set_log_fields block txHash j (u64 (logIndex + 1)) ls
  end.

(** The loop over the receipts, from the [j]-th on; [prev] is the cumulative gas
    of the receipt before. *)
Fixpoint set_receipts (signer : Signer) (block : Block) (j logIndex : Z) (prev : option Z)
    (txs : list (Transaction * sigCache)) (receipts : list Receipt) : M (list sigCache * list Receipt) :=
  match receipts, txs with
  | [], _ => retS (map snd txs, [])
  | _ :: _, [] => panicS
  | r :: receipts, (tx, cache) :: txs =>
      let! (msg, cache) := message_of signer tx cache in
      let! address := (if MessageCreatesExternalLogic msg then CreateAddress (From msg) (MsgNonce msg)
                       else retS (ExternalLogicAddress r)) in
      let gasUsed := match prev with None => CumulativeGasUsed r | Some p => CumulativeGasUsed r - p end in
      let logs := set_log_fields block (tx_Hash tx) j logIndex (Logs r) in
      let r := mkReceipt (PostState r) (CumulativeGasUsed r) (rBloom r) logs (tx_Hash tx) address gasUsed in
      let! (caches, receipts) :=
        set_receipts signer block (u64 (j + 1)) (u64 (logIndex + len logs)) (Some (CumulativeGasUsed r)) txs receipts in
      retS (cache :: caches, r :: receipts)
  end.

Definition SetReceiptsData (config : ChainConfig) (block : Block) (caches : list sigCache) (receipts : list Receipt) :
    M (list sigCache * list Receipt) :=
  set_receipts (MakeSigner config (hNumber (header block))) block 0 0 None (combine (transactions block) caches) receipts.

(** ** Heads *)

(** The steps of [Rollback]. *)
Definition roll_header bc (hash : bytes) : outcome chain_error BlockChain :=
  let* current := the (currentHeader (hc bc)) in
  if bool_decide (Header_Hash current = hash) then
    let* (parent, bc) := bc_GetHeader bc (hParentHash current) (u64 (hNum current - 1)) in
    let* parent := the parent in
    let* h := SetCurrentHeader (hc bc) parent in
    Ok (set_hc bc h)
  else Ok bc.

Definition roll_fast bc (hash : bytes) : outcome chain_error BlockChain :=
  let* current := the (currentFastBlock bc) in
  if bool_decide (block_Hash current = hash) then
    let* (parent, bc) := parent_block bc current in
    let bc := set_currentFastBlock bc parent in
    let* parent := the parent in
    let* d := WriteHeadFastBlockHash (chainDb bc) (block_Hash parent) in
    Ok (set_chainDb bc d)
  else Ok bc.

Definition roll_block bc (hash : bytes) : outcome chain_error BlockChain :=
  let* current := the (currentBlock bc) in
  if bool_decide (block_Hash current = hash) then
    let* (parent, bc) := parent_block bc current in
    let bc := set_currentBlock bc parent in
    let* parent := the parent in
    let* d := WriteHeadBlockHash (chainDb bc) (block_Hash parent) in
    Ok (set_chainDb bc d)
  else Ok bc.

Fixpoint rollback_loop bc (hashes : list bytes) : outcome chain_error BlockChain :=
  match hashes with
  | [] => Ok bc
  | hash :: hashes =>
      let* bc := roll_header bc hash in
      let* bc := roll_fast bc hash in
      let* bc := roll_block bc hash in
      rollback_loop bc hashes
  end.

(** From the last hash to the first. *)
Definition Rollback bc (chain : list bytes) : outcome chain_error BlockChain := rollback_loop bc (rev chain).

(** [false] is an error: there is no such block, or its state is missing. *)
Definition FastSyncCommitHead bc (hash : bytes) : R bool :=
  let* (block, bc) := bc_GetBlockByHash bc hash in
  match block with
  | None => Ok (false, bc)
  | Some block =>
      match st_new (chainDb bc) (hRoot (header block)) 0 with
      | Ok _ => Ok (true, set_currentBlock bc (Some block))
      | Err _ => Ok (false, bc)
      | Panic => Panic
      end
  end.

(** The heap of the state, on the current database. *)
Definition state_world bc : World T D := let w := world bc in mkWorld (chainDb bc) (objs w) (tries w) (next w).

(** The end of [loadLastState]: the state of the current block. *)
Definition load_state bc : R bool :=
  let* current := the (currentBlock bc) in
  match State_New MaxTrieCacheGen (state_world bc) (hRoot (header current)) with
  | Ok (w, s) =>
      match GetStateObject (zeros 20) w s with
      | Ok (_, w, s) => Ok (true, set_state bc w s)
      | Err e => match e with end
      | Panic => Panic
      end
  | Err _ => Ok (false, bc)
  | Panic => Panic
  end.

(** [reset] is [Reset]; [false] is the error of a missing state. *)
Definition loadLastState (reset : BlockChain -> outcome chain_error BlockChain) bc : R bool :=
  let head := GetHeadBlockHash (chainDb bc) in
  let* bc :=
    (if bool_decide (head = zeros 32) then reset bc
     else
       let* (block, bc) := bc_GetBlockByHash bc head in
       match block with Some block => Ok (set_currentBlock bc (Some block)) | None => reset bc end) in
  let* current := the (currentBlock bc) in
  let head := GetHeadHeaderHash (chainDb bc) in
  let* (found, bc) := (if bool_decide (head = zeros 32) then Ok (None, bc) else bc_GetHeaderByHash bc head) in
  let* h := SetCurrentHeader (hc bc) (default (header current) found) in
  let bc := set_currentFastBlock (set_hc bc h) (Some current) in
  let head := GetHeadFastBlockHash (chainDb bc) in
  let* (found, bc) := (if bool_decide (head = zeros 32) then Ok (None, bc) else bc_GetBlockByHash bc head) in
  let bc := match found with Some block => set_currentFastBlock bc (Some block) | None => bc end in
  load_state bc.

(** The current block moves down with the header, or to the genesis block. *)
Definition lower (h : Header) bc (block : option Block) : R (option Block) :=
  match block with
  | Some b => if hNum h <? NumberU64 b then bc_GetBlock bc (Header_Hash h) (hNum h) else Ok (block, bc)
  | None => Ok (None, bc)
  end.

Definition or_else {A} (x y : option A) : option A := match x with Some _ => x | None => y end.

(** A [Reset] from within would wait for the lock that is held: it does not
    return. *)
Definition bc_SetHead (fuel : nat) bc (head : Z) : outcome chain_error BlockChain :=
  let* h := SetHead fuel DeleteBody (hc bc) head in
  let bc := set_hc bc h in
  let bc := set_bodyCache bc (lru_purge (bodyCache bc)) in
  let bc := set_bodyRLPCache bc (lru_purge (bodyRLPCache bc)) in
  let bc := set_blockCache bc (lru_purge (blockCache bc)) in
  let bc := set_futureBlocks bc (lru_purge (futureBlocks bc)) in
  let* current := the (currentHeader (hc bc)) in
  let* (b, bc) := lower current bc (currentBlock bc) in
  let bc := set_currentBlock bc b in
  let* (b, bc) := lower current bc (currentFastBlock bc) in
  let bc := set_currentFastBlock bc b in
  let bc := set_currentBlock bc (or_else (currentBlock bc) (genesisBlock bc)) in
  let bc := set_currentFastBlock bc (or_else (currentFastBlock bc) (genesisBlock bc)) in
  let* block := the (currentBlock bc) in
  let* fast := the (currentFastBlock bc) in
  let* d := WriteHeadBlockHash (chainDb bc) (block_Hash block) in
  let* d := WriteHeadFastBlockHash d (block_Hash fast) in
  let* (_, bc) := loadLastState (fun _ => Panic) (set_chainDb bc d) in
  Ok bc.

Definition ResetWithGenesisBlock (fuel : nat) bc (genesis : Block) : outcome chain_error BlockChain :=
  let* bc := bc_SetHead fuel bc 0 in
  let* h := hc_WriteTd (hc bc) (block_Hash genesis) (NumberU64 genesis) (hDifficulty (header genesis)) in
  let bc := set_hc bc h in
  let* d := WriteBlock (chainDb bc) genesis in
  let bc := set_genesisBlock (set_chainDb bc d) (Some genesis) in
  let* bc := bc_insert bc genesis in
  let bc := set_currentBlock bc (Some genesis) in
  let bc := set_hc bc (SetGenesis (hc bc) (header genesis)) in
  let* h := SetCurrentHeader (hc bc) (header genesis) in
  Ok (set_currentFastBlock (set_hc bc h) (Some genesis)).

Definition bc_Reset (fuel : nat) bc : outcome chain_error BlockChain :=
  let* genesis := the (genesisBlock bc) in ResetWithGenesisBlock fuel bc genesis.

(** ** Opening the chain (blocks.go) *)

Definition BadHashes : list bytes :=
  [be_fixed 32 0x05bef30ef572270f654746da22639a7a0c97dd97a7050b9e252391996aaeb689].

Fixpoint check_bad (fuel : nat) bc (hashes : list bytes) : outcome chain_error BlockChain :=
  match hashes with
  | [] => Ok bc
  | hash :: hashes =>
      let* (found, bc) := bc_GetHeaderByHash bc hash in
      let* bc := (match found with Some h => bc_SetHead fuel bc (u64 (hNum h - 1)) | None => Ok bc end) in
      check_bad fuel bc hashes
  end.

(** [None] is an error: no genesis block, or no state.  The fields that are not
    set are nil; the heap is empty. *)
Definition NewBlockChain (fuel : nat) (writeGenesis : D -> outcome chain_error (D * Header)) (d : D) : outcome chain_error (option BlockChain) :=
  let* h := NewHeaderChain writeGenesis d in
  let bc := mkBC h None None None (mkWorld d ∅ ∅ 0) (new_state 0) (lru_new bodyCacheLimit) (lru_new bodyCacheLimit) (lru_new blockCacheLimit)
              (lru_new maxFutureBlocks) in
  let* (genesis, bc) := bc_GetBlockByNumber bc 0 in
  match genesis with
  | None => Ok None
  | Some genesis =>
      let* (ok, bc) := loadLastState (bc_Reset fuel) (set_genesisBlock bc (Some genesis)) in
      if ok then let* bc := check_bad fuel bc BadHashes in Ok (Some bc) else Ok None
  end.
End BlockChain.
