(* ===== verification/BlockChainSpec.v ===== *)
(** * What the block chain promises

    Every stored header has its block, the canonical numbers up to the current
    block are those of its branch, and the caches agree with the database.
    Writing a block preserves this, with or without a reorganisation, and keeps
    the index of the transactions in step. *)

From stdpp Require Import functions.
From S2P Require Import Prelude RlpEncode RlpRaw RlpStream Helper Keccak Database TrieNode Trie TrieHash SecureTrie StateTrie State Transition Types TypesSpec Signing ChainDb ChainDbSpec HeaderChain HeaderChainSpec BlockChain.

Section Spec.
Context `{Hash256} `{StoreLaws D} `{LRULaws C} `{StateTrie T D}.
Context (B X : bytes -> Prop) (BX : forall b x, B b -> X x -> blockHashPrefix ++ b <> x ++ txMetaSuffix).
Context (U : Header -> Prop) (Uok : headers_ok B U).

(** The blocks that may be written: a header has one body, which can be stored,
    and its number is small enough for the keys of the log filters. *)
Record blocks_ok (V : Header -> Body -> Prop) : Prop := {
  v_header x b : V x b -> U x;
  v_body x b : V x b -> body_ok b;
  v_fits x b : V x b -> fits (body_val b) body_type;
  v_txs x b t : V x b -> t ∈ b_Transactions b -> fits (tx_val t) tx_type /\ X (tx_Hash t);
  v_small x b : V x b -> num x < 2 ^ 48;
  v_one x b b' : V x b -> V x b' -> b = b'
}.
Context (V : Header -> Body -> Prop) (Vok : blocks_ok V).

Implicit Types (bc : BlockChain (D := D) (C := C) (T := T)) (a : achain) (x y g p cur : Header) (b c : Block).

Definition valid b : Prop := V (header b) (block_Body b).

Lemma valid_U b : valid b -> U (header b).
Proof. apply (v_header V Vok). Qed.

(** Blocks with the same hash have the same contents. *)
Lemma valid_inj b c : valid b -> valid c -> block_Hash b = block_Hash c -> header b = header c /\ block_Body b = block_Body c.
Proof.
  intros Vb Vc E. assert (Eh : header b = header c) by (apply (u_inj B U Uok); auto using valid_U). split; [done|].
  unfold valid in *. rewrite Eh in Vb. by apply (v_one V Vok (header c)).
Qed.

(** ** Blocks in the store *)

Record bdb_ok bc a : Prop := {
  b_db : db_ok B X U (hc bc) a;
  b_fresh : fresh (hc bc) a;
  b_full x : stored a x -> exists body, V x body /\ aBody a (Header_Hash x) (num x) = Some body;
  b_cached h b : lru_peek (blockCache bc) h = Some b -> valid b /\ h = block_Hash b /\ stored a (header b)
}.

(** Only caches differ. *)
Definition bquiet bc bc' : Prop :=
  quiet (hc bc) (hc bc') /\ genesisBlock bc' = genesisBlock bc /\ currentBlock bc' = currentBlock bc /\
  currentFastBlock bc' = currentFastBlock bc.

#[global] Instance bquiet_refl : Reflexive bquiet.
Proof. done. Qed.
#[global] Instance bquiet_trans : Transitive bquiet.
Proof. intros b1 b2 b3 (Q1 & ? & ? & ?) (Q2 & ? & ? & ?). split; [by etrans|]. repeat split; congruence. Qed.

Lemma bdb_indexed bc a : bdb_ok bc a -> indexed U a.
Proof. intros Ok. apply (ok_stored _ _ _ _ _ (b_db bc a Ok)). Qed.

Lemma bdb_numbered bc a : bdb_ok bc a -> numbered a.
Proof. intros Ok. by apply (ok_numbered B U Uok), (bdb_indexed bc). Qed.

Lemma bdb_reads bc a : bdb_ok bc a -> reads B X (chainDb bc) a.
Proof. intros Ok. apply (db_reads B X U (hc bc)), Ok. Qed.

(** Looking up a header chain changes its caches. *)
Lemma bdb_hc bc a h : bdb_ok bc a -> db_ok B X U h a -> fresh h a -> bdb_ok (set_hc bc h) a.
Proof. intros [_ _ Fu Ca] Ok F. by split. Qed.

Lemma blockCache_ok bc a ch :
  bdb_ok bc a -> (forall h b, lru_peek ch h = Some b -> valid b /\ h = block_Hash b /\ stored a (header b)) -> bdb_ok (set_blockCache bc ch) a.
Proof. intros [Ok F Fu _] Hc. by split. Qed.

Lemma GetBlock_hit bc a x :
  bdb_ok bc a -> stored a x ->
  exists b bc', bc_GetBlock bc (Header_Hash x) (num x) = Ok (Some b, bc') /\ header b = x /\ valid b /\ bquiet bc bc' /\ bdb_ok bc' a.
Proof.
  intros Ok S. pose proof (bdb_indexed bc a Ok) as Ix. pose proof (stored_U U a x Ix S) as Ux. unfold bc_GetBlock.
  pose proof (eq_sym (lru_get_peek (blockCache bc) (Header_Hash x))) as G. pose proof (lru_peek_get (blockCache bc) (Header_Hash x)) as P.
  destruct (lru_get (blockCache bc) (Header_Hash x)) as [o ch]. cbn [fst snd] in G, P.
  assert (Hc : forall h b, lru_peek ch h = Some b -> valid b /\ h = block_Hash b /\ stored a (header b)) by (intros h b; rewrite P; apply (b_cached bc a Ok)).
  destruct o as [b|].
  - destruct (b_cached bc a Ok _ _ G) as (Vb & Eb & _). exists b, (set_blockCache bc ch). split; [done|].
    split; [symmetry; apply (u_inj B U Uok); auto using valid_U|]. split; [done|]. split; [done|]. by apply blockCache_ok.
  - change (chainDb (set_blockCache bc ch)) with (chainDb bc).
    rewrite (reads_block _ _ _ _ (bdb_reads bc a Ok)) by (apply hash_length || by apply (U_num B U Uok)).
    destruct (b_full bc a Ok x S) as (body & Vx & Eb). unfold aBlock. rewrite S, Eb. cbn [read obind].
    set (b := mkBlock x (b_Uncles body) (b_Transactions body) None). exists b. eexists. split; [done|]. split; [done|].
    assert (Vb : valid b) by (unfold valid, block_Body; cbn; by destruct body). split; [done|]. split; [done|].
    apply blockCache_ok; [by apply blockCache_ok|]. intros h b'.
    apply (peek_added _ _ _ _ _ (fun h b => valid b /\ h = block_Hash b /\ stored a (header b))); done.
Qed.

Lemma parent_block_hit bc a b y :
  bdb_ok bc a -> parent a (header b) = Some y ->
  exists c bc', parent_block bc b = Ok (Some c, bc') /\ header c = y /\ valid c /\ bquiet bc bc' /\ bdb_ok bc' a.
Proof.
  intros Ok P. destruct (ok_parent B U Uok a _ y (bdb_indexed bc a Ok) P) as (Sy & Ep & Np).
  unfold parent_block. change (NumberU64 b) with (num (header b)). rewrite Ep, Np. pose proof (num_range y). pose proof (num_range (header b)).
  replace (u64 (num y + 1 - 1)) with (num y) by (rewrite u64_small by lia; lia). by apply GetBlock_hit.
Qed.

Lemma on_hc_ok {A} bc a (m : outcome chain_error (A * HeaderChain D C)) r h :
  bdb_ok bc a -> m = Ok (r, h) -> quiet (hc bc) h -> db_ok B X U h a -> fresh h a ->
  on_hc bc m = Ok (r, set_hc bc h) /\ bquiet bc (set_hc bc h) /\ bdb_ok (set_hc bc h) a.
Proof. intros Ok -> Q Oh F. split; [done|]. split; [done|]. by apply (bdb_hc bc). Qed.

Lemma collectLogs_ok bc a x :
  bdb_ok bc a -> stored a x ->
  exists ls bc', collectLogs bc (Header_Hash x) = Ok (ls, bc') /\ bquiet bc bc' /\ bdb_ok bc' a.
Proof.
  intros Ok S. pose proof (bdb_indexed bc a Ok) as Ix. pose proof (stored_U U a x Ix S) as Ux. unfold collectLogs.
  destruct (GetBlockNumber_ok B X U Uok (hc bc) a (Header_Hash x) (b_db _ _ Ok) (b_fresh _ _ Ok) (hash_length x) (u_key B U Uok x Ux))
    as (n & h & E & Q & Oh & F & [(y & Sy & Ey & ->)|[_ No]]); [|by destruct (No x S)].
  destruct (on_hc_ok bc a _ _ _ Ok E Q Oh F) as (-> & Q' & Ok'). cbn [obind]. rewrite Ey.
  rewrite (reads_receipts _ _ _ _ (bdb_reads _ a Ok')) by (apply hash_length || by apply (U_num B U Uok), (stored_U U a)).
  cbn [read obind]. eauto.
Qed.

(** ** Branches of blocks *)

(** The blocks from [x] down to [z], without [z]. *)
Inductive branch a : Header -> list Block -> Header -> Prop :=
| branch_nil x : branch a x [] x
| branch_cons b y l z : valid b -> stored a (header b) -> parent a (header b) = Some y -> branch a y l z -> branch a (header b) (b :: l) z.

Lemma branch_app a x l y m z : branch a x l y -> branch a y m z -> branch a x (l ++ m) z.
Proof. induction 1; [done|]. intros. econstructor; eauto. Qed.

Lemma branch_snoc a x l b y : branch a x l (header b) -> valid b -> stored a (header b) -> parent a (header b) = Some y -> branch a x (l ++ [b]) y.
Proof. intros Br Vb S P. apply (branch_app a x l (header b)); [done|]. econstructor; [done..|constructor]. Qed.

Lemma branch_ancestor a x l z : branch a x l z -> ancestor a x z.
Proof. induction 1; [constructor|]. by econstructor. Qed.

Lemma branch_num a x l z : numbered a -> branch a x l z -> num x = num z + Z.of_nat (length l).
Proof. intros Nm. induction 1 as [|b y l z Vb S P Br IH]; [cbn; lia|]. apply (parent_num a Nm) in P. cbn [length]. lia. Qed.

(** The ancestors of [x] are those of [z] and the headers of the blocks. *)
Lemma branch_cases a x l z y : branch a x l z -> ancestor a x y -> ancestor a z y \/ exists b, b ∈ l /\ header b = y.
Proof.
  induction 1 as [|b w l z Vb S P Br IH]; intros A; [by left|]. inversion A as [|? w' ? P' A']; subst.
  - right. exists b. split; [left|done].
  - rewrite P in P'. injection P' as <-. destruct (IH A') as [?|(c & Hc & E)]; [by left|]. right. exists c. split; [by right|done].
Qed.

Lemma branch_elem a x l z b : branch a x l z -> b ∈ l -> valid b /\ stored a (header b) /\ ancestor a x (header b).
Proof.
  induction 1 as [|c w l z Vc S P Br IH]; intros Hb; [by apply not_elem_of_nil in Hb|]. apply elem_of_cons in Hb as [->|Hb].
  - split; [done|]. split; [done|constructor].
  - destruct (IH Hb) as (? & ? & ?). split; [done|]. split; [done|]. by econstructor.
Qed.

Lemma reduce_new_ok fuel bc a g b t acc n :
  bdb_ok bc a -> valid b -> weighs a g (header b) t -> 0 <= n <= num (header b) -> num (header b) < Z.of_nat fuel + n ->
  exists l c bc', reduce_new fuel bc acc (Some b) n = Ok ((acc ++ l, Some c), bc') /\ branch a (header b) l (header c) /\ valid c /\
    num (header c) = n /\ bquiet bc bc' /\ bdb_ok bc' a.
Proof.
  revert bc b t acc. induction fuel as [|fuel IH]; intros bc b t acc Ok Vb W Hn Fu; [lia|]. cbn [reduce_new].
  change (NumberU64 b) with (num (header b)). destruct (Z.eqb_spec (num (header b)) n) as [E|Ne].
  - exists [], b, bc. rewrite app_nil_r. split; [done|]. split; [constructor|]. done.
  - inversion W as [S N|? y u S P Wy Ex]; [lia|]. subst. destruct (parent_block_hit bc a b y Ok P) as (c & bc1 & -> & Ec & Vc & Q1 & Ok1). cbn [obind].
    pose proof (parent_num a (bdb_numbered bc a Ok) _ _ P) as Ny. subst y.
    destruct (IH bc1 c u (acc ++ [b])) as (l & c' & bc' & -> & Br & Vc' & Nc & Q & Ok'); [done|done|done|lia..|].
    exists (b :: l), c', bc'. rewrite <- app_assoc. split; [done|]. split; [by econstructor|]. split; [done|]. split; [done|]. split; [by etrans|done].
Qed.

Lemma drop_block_ok bc a r b :
  bdb_ok bc a -> stored a (header b) ->
  exists r' bc', drop_block bc r b = Ok (r', bc') /\ oldChain r' = oldChain r ++ [b] /\ deletedTxs r' = deletedTxs r ++ transactions b /\
    bquiet bc bc' /\ bdb_ok bc' a.
Proof.
  intros Ok S. unfold drop_block. destruct (collectLogs_ok bc a (header b) Ok S) as (ls & bc' & E & Q & Ok').
  change (block_Hash b) with (Header_Hash (header b)). rewrite E. cbn [obind]. eexists _, _. split; [done|]. done.
Qed.

(** What was collected of the old branch. *)
Definition dropped (r r' : Dropped) (l : list Block) : Prop :=
  oldChain r' = oldChain r ++ l /\ deletedTxs r' = deletedTxs r ++ concat (map transactions l).

Lemma dropped_cons r r1 r2 b l :
  oldChain r1 = oldChain r ++ [b] -> deletedTxs r1 = deletedTxs r ++ transactions b -> dropped r1 r2 l -> dropped r r2 (b :: l).
Proof. intros E1 E2 [F1 F2]. split; [by rewrite F1, E1, <- app_assoc|]. cbn. by rewrite F2, E2, <- app_assoc. Qed.

Lemma reduce_old_ok fuel bc a g b t r n :
  bdb_ok bc a -> valid b -> weighs a g (header b) t -> 0 <= n <= num (header b) -> num (header b) < Z.of_nat fuel + n ->
  exists l c r' bc', reduce_old fuel bc r (Some b) n = Ok ((r', Some c), bc') /\ branch a (header b) l (header c) /\ valid c /\
    num (header c) = n /\ dropped r r' l /\ bquiet bc bc' /\ bdb_ok bc' a.
Proof.
  revert bc b t r. induction fuel as [|fuel IH]; intros bc b t r Ok Vb W Hn Fu; [lia|]. cbn [reduce_old].
  change (NumberU64 b) with (num (header b)). destruct (Z.eqb_spec (num (header b)) n) as [E|Ne].
  - exists [], b, r, bc. split; [done|]. split; [constructor|]. split; [done|]. split; [done|].
    split; [split; [by rewrite app_nil_r|cbn; by rewrite app_nil_r]|done].
  - inversion W as [S N|? y u S P Wy Ex]; [lia|]. subst.
    destruct (drop_block_ok bc a r b Ok S) as (r1 & bc1 & -> & D1 & D2 & Q1 & Ok1). cbn [obind].
    destruct (parent_block_hit bc1 a b y Ok1 P) as (c & bc2 & -> & Ec & Vc & Q2 & Ok2). cbn [obind].
    pose proof (parent_num a (bdb_numbered bc a Ok) _ _ P) as Ny. subst y.
    destruct (IH bc2 c u r1) as (l & c' & r' & bc' & -> & Br & Vc' & Nc & Dr & Q & Ok'); [done|done|done|lia..|].
    exists (b :: l), c', r', bc'. split; [done|]. split; [by econstructor|]. split; [done|]. split; [done|].
    split; [by eapply dropped_cons|]. split; [etrans; [done|]; by etrans|done].
Qed.

Lemma split_loop_ok fuel bc a g b c tb tc r acc :
  bdb_ok bc a -> valid b -> valid c -> weighs a g (header b) tb -> weighs a g (header c) tc -> num (header b) = num (header c) ->
  num (header b) < Z.of_nat fuel ->
  exists l m z r' bc', split_loop fuel bc r acc b c = Ok (inr (r', acc ++ m), bc') /\ branch a (header b) l z /\ branch a (header c) m z /\
    (forall c', c' ∈ m -> exists b', b' ∈ l /\ num (header b') = num (header c') /\ header b' <> header c') /\
    dropped r r' l /\ bquiet bc bc' /\ bdb_ok bc' a.
Proof.
  revert bc b c tb tc r acc. induction fuel as [|fuel IH]; intros bc b c tb tc r acc Ok Vb Vc Wb Wc En Fu; [pose proof (num_range (header b)); lia|].
  cbn [split_loop]. case_bool_decide as E.
  - destruct (valid_inj b c Vb Vc E) as [Eh _]. exists [], [], (header b), r, bc. rewrite app_nil_r. split; [done|]. split; [constructor|].
    split; [rewrite Eh; constructor|]. split; [intros y Hy; by apply not_elem_of_nil in Hy|].
    split; [split; cbn; by rewrite app_nil_r|done].
  - pose proof (bdb_numbered bc a Ok) as Nm.
    assert (Ne : header b <> header c) by (intros Eh; apply E; unfold block_Hash; by rewrite Eh).
    inversion Wb as [Sb N0|? y u Sb P Wy Ex]; subst; inversion Wc as [Sc N1|? y' u' Sc P' Wy' Ex']; subst.
    + congruence.
    + apply (parent_num a Nm) in P'. pose proof (num_range y'). lia.
    + apply (parent_num a Nm) in P. pose proof (num_range y). lia.
    + destruct (drop_block_ok bc a r b Ok Sb) as (r1 & bc1 & -> & D1 & D2 & Q1 & Ok1). cbn [obind].
      destruct (parent_block_hit bc1 a b y Ok1 P) as (b1 & bc2 & -> & Eb & Vb1 & Q2 & Ok2). cbn [obind].
      destruct (parent_block_hit bc2 a c y' Ok2 P') as (c1 & bc3 & -> & Ec & Vc1 & Q3 & Ok3). cbn [obind]. subst y y'.
      pose proof (parent_num a Nm _ _ P). pose proof (parent_num a Nm _ _ P').
      destruct (IH bc3 b1 c1 u u' r1 (acc ++ [c])) as (l & m & z & r' & bc' & -> & Br1 & Br2 & Ap & Dr & Q & Ok'); [done..|lia|lia|].
      exists (b :: l), (c :: m), z, r', bc'. rewrite <- app_assoc. split; [done|]. split; [by econstructor|]. split; [by econstructor|].
      split; [|split; [by eapply dropped_cons|split; [do 3 (etrans; [done|]); done|done]]].
      intros w Hw. apply elem_of_cons in Hw as [->|Hw]; [exists b; split; [left|done]|].
      destruct (Ap w Hw) as (v & Hv & ?). exists v. split; [by right|done].
Qed.

(** ** Parts of the store *)

Definition block_key (k : ckey) : Prop :=
  match k with KNumber _ | KHeader _ _ | KTd _ _ | KBody _ _ | KReceipts _ _ => True | _ => False end.
Definition pointer_key (k : ckey) : Prop := match k with KHeadHeader | KHeadBlock | KHeadFast | KCanonical _ => True | _ => False end.
Definition index_key (k : ckey) : Prop := match k with KTx _ | KMeta _ | KReceipt _ => True | _ => False end.

Definition same_on (P : ckey -> Prop) a a' : Prop := forall k, P k -> a' k = a k.

#[global] Instance same_on_equiv P : Equivalence (same_on P).
Proof.
  split; [by intros a k|by intros a a' E k K; rewrite E|]. intros a1 a2 a3 E1 E2 k K. by rewrite E2, E1.
Qed.

Lemma same_on_insert (P : ckey -> Prop) a k v : ~ P k -> same_on P a (<[k := v]> a).
Proof. intros N k' K. rewrite fn_lookup_insert_ne; [done|]. by intros ->. Qed.

Lemma same_on_headers a a' : same_on block_key a a' -> same_headers a a'.
Proof. intros S k K. apply S. by destruct k. Qed.

Lemma same_on_hash a a' k : same_on pointer_key a a' -> pointer_key k -> aHash a' k = aHash a k.
Proof. intros S K. unfold aHash. by rewrite S. Qed.

Lemma same_on_body a a' h n : same_on block_key a a' -> aBody a' h n = aBody a h n.
Proof. intros S. unfold aBody. by rewrite (S (KBody h n) I). Qed.

Lemma bdb_same bc a a' d : bdb_ok bc a -> same_on block_key a a' -> rep B X (db_get d) a' -> bdb_ok (set_chainDb bc d) a'.
Proof.
  intros [Ok F Fu Ca] S R. pose proof (same_on_headers a a' S) as Sh. split; try done.
  - by apply (db_ok_same B X U (hc bc) a).
  - by apply (fresh_same (hc bc) a).
  - intros x Sx. apply (same_stored a' a) in Sx; [|by symmetry]. destruct (Fu x Sx) as (body & Vx & E). exists body. split; [done|].
    by rewrite (same_on_body a a').
  - intros h b E. destruct (Ca h b E) as (Vb & Eb & Sb). do 2 (split; [done|]). by apply (same_stored a).
Qed.

Lemma bdb_current bc a o : bdb_ok bc a -> bdb_ok (set_currentBlock bc o) a.
Proof. intros [Ok F Fu Ca]. by split. Qed.

Lemma bdb_fast bc a o : bdb_ok bc a -> bdb_ok (set_currentFastBlock bc o) a.
Proof. intros [Ok F Fu Ca]. by split. Qed.

Lemma bdb_head bc a o h : bdb_ok bc a -> bdb_ok (set_hc bc (set_currentHeaderHash (set_currentHeader (hc bc) o) h)) a.
Proof. intros [Ok F Fu Ca]. split; try done; [by apply (db_ok_ext B X U (hc bc))|by apply (fresh_ext (hc bc))]. Qed.

(** Writing a pointer. *)
Lemma put_pointer bc a k b :
  bdb_ok bc a -> key_ok B X k -> match k with KCanonical _ | KHeadHeader | KHeadBlock | KHeadFast => True | _ => False end ->
  gives (put_fatal (chainDb bc) (key_bytes k) (block_Hash b)) (fun d => bdb_ok (set_chainDb bc d) (<[k := Some (CHash (block_Hash b))]> a)).
Proof.
  intros Ok K M.
  eapply gives_impl; [exact (put_refines B X BX (chainDb bc) a k _ (ok_rep _ _ _ _ _ (b_db _ _ Ok)) (hash_entry_ok B X k (header b) K M))|].
  intros d R. apply (bdb_same bc a); [done| |done]. apply same_on_insert. intros Kb. by destruct k.
Qed.

(** ** The new head *)

(** The head of the headers and of the fast sync. *)
Definition heads_at bc a b : Prop :=
  currentHeader (hc bc) = Some (header b) /\ currentHeaderHash (hc bc) = block_Hash b /\ aHash a KHeadHeader = block_Hash b /\
  currentFastBlock bc = Some b /\ aHash a KHeadFast = block_Hash b.

Definition heads_same bc a bc' a' : Prop :=
  currentHeader (hc bc') = currentHeader (hc bc) /\ currentHeaderHash (hc bc') = currentHeaderHash (hc bc) /\
  aHash a' KHeadHeader = aHash a KHeadHeader /\ currentFastBlock bc' = currentFastBlock bc /\ aHash a' KHeadFast = aHash a KHeadFast.

(** [b] is the current block and has its number. *)
Definition inserted bc a b bc' a' : Prop :=
  same_on block_key a a' /\ genesisHeader (hc bc') = genesisHeader (hc bc) /\ genesisBlock bc' = genesisBlock bc /\
  currentBlock bc' = Some b /\ aHash a' KHeadBlock = block_Hash b /\
  forall n, aHash a' (KCanonical n) = if decide (n = num (header b)) then block_Hash b else aHash a (KCanonical n).

Lemma bc_insert_ok bc a b :
  bdb_ok bc a -> valid b ->
  gives (bc_insert bc b) (fun bc' => exists a', bdb_ok bc' a' /\ inserted bc a b bc' a' /\ same_on index_key a a' /\
    if decide (aHash a (KCanonical (num (header b))) = block_Hash b) then heads_same bc a bc' a' else heads_at bc' a' b).
Proof.
  intros Ok Vb. pose proof (valid_U b Vb) as Ub. pose proof (U_num B U Uok _ Ub) as N. unfold bc_insert. change (NumberU64 b) with (num (header b)).
  rewrite (reads_canonical _ _ _ _ (bdb_reads bc a Ok)) by done.
  eapply gives_bind; [exact (put_pointer bc a (KCanonical (num (header b))) b Ok N I)|]. intros d1 Ok1.
  eapply gives_bind; [exact (put_pointer _ _ KHeadBlock b Ok1 I I)|]. intros d2 Ok2. cbn [chainDb set_chainDb set_hc hc set_hdb hdb] in *.
  set (a1 := <[KCanonical (num (header b)) := _]> a) in *. set (a2 := <[KHeadBlock := _]> a1) in *.
  apply (bdb_current _ _ (Some b)) in Ok2. rewrite bool_decide_decide.
  assert (K2 : forall n, aHash a2 (KCanonical n) = if decide (n = num (header b)) then block_Hash b else aHash a (KCanonical n)).
  { intros n. unfold a2, a1. rewrite aHash_insert, decide_False by done. rewrite aHash_insert.
    destruct (decide (n = num (header b))) as [->|]; [by rewrite decide_True|by rewrite decide_False by congruence]. }
  assert (Sb : same_on block_key a a2) by (transitivity a1; apply same_on_insert; intros []).
  assert (Si : same_on index_key a a2) by (transitivity a1; apply same_on_insert; intros []).
  destruct (decide (aHash a (KCanonical (num (header b))) = block_Hash b)) as [E|Ne]; cbn [negb].
  - exists a2. split; [done|]. split; [|split; [done|]].
    + split; [done|]. do 3 (split; [done|]). split; [unfold a2; by rewrite aHash_insert, decide_True|done].
    + unfold a2, a1. do 2 (split; [done|]). split; [by rewrite !aHash_insert, !decide_False by done|].
      split; [done|]. by rewrite !aHash_insert, !decide_False by done.
  - eapply gives_bind with (P := fun h => exists d, h = set_currentHeaderHash (set_currentHeader (set_hdb (hc bc) d) (Some (header b))) (block_Hash b) /\
      bdb_ok (set_chainDb (set_currentBlock bc (Some b)) d) (<[KHeadHeader := Some (CHash (block_Hash b))]> a2)).
    { eapply gives_bind; [exact (put_pointer _ _ KHeadHeader b Ok2 I I)|]. intros d3 Ok3. by exists d3. }
    intros h3 (d3 & -> & Ok3). set (a3 := <[KHeadHeader := _]> a2) in *.
    apply (bdb_head _ _ (Some (header b)) (block_Hash b)) in Ok3.
    eapply gives_bind; [exact (put_pointer _ _ KHeadFast b Ok3 I I)|]. intros d4 Ok4. set (a4 := <[KHeadFast := _]> a3) in *.
    assert (S4 : forall P : ckey -> Prop, ~ P KHeadHeader -> ~ P KHeadFast -> same_on P a2 a4)
      by (intros P N1 N2; transitivity a3; by apply same_on_insert).
    exists a4. split; [exact (bdb_fast _ _ (Some b) Ok4)|]. split; [|split].
    + split; [transitivity a2; [done|]; apply S4; intros []|]. do 3 (split; [done|]).
      split; [unfold a4, a3, a2; by rewrite !aHash_insert, !decide_False, decide_True by done|].
      intros n. unfold a4, a3. by rewrite !aHash_insert, !decide_False by done.
    + transitivity a2; [done|]. apply S4; intros [].
    + unfold a4, a3. do 2 (split; [done|]). split; [by rewrite !aHash_insert, decide_False, decide_True by done|].
      split; [done|]. by rewrite aHash_insert, decide_True.
Qed.

(** ** The index of transactions *)

(** [h] is the hash of a transaction of [b], and its lookup says where it is. *)
Definition located a b (h : bytes) : Prop :=
  exists i t, transactions b !! i = Some t /\ tx_Hash t = h /\
    a (KTx h) = Some (CTx t) /\ a (KMeta h) = Some (CMeta (block_Hash b) (NumberU64 b) (u64 (Z.of_nat i))).

Lemma positions_other b i ts a k :
  (forall h, h ∈ map tx_Hash ts -> k <> KTx h /\ k <> KMeta h) -> foldl apply_entry a (position_entries b i ts) k = a k.
Proof.
  revert i a. induction ts as [|t ts IH]; intros i a Hk; [done|]. cbn [position_entries foldl].
  destruct (Hk (tx_Hash t)) as [N1 N2]; [left|].
  rewrite IH by (intros h Hh; apply Hk; by right). unfold apply_entry. cbn [fst snd]. by rewrite !fn_lookup_insert_ne by congruence.
Qed.

Lemma positions_located b i ts a h :
  0 <= i -> h ∈ map tx_Hash ts ->
  exists j t, ts !! j = Some t /\ tx_Hash t = h /\ foldl apply_entry a (position_entries b i ts) (KTx h) = Some (CTx t) /\
    foldl apply_entry a (position_entries b i ts) (KMeta h) = Some (CMeta (block_Hash b) (NumberU64 b) (u64 (i + Z.of_nat j))).
Proof.
  revert i a. induction ts as [|t ts IH]; intros i a Hi Hh; [by apply not_elem_of_nil in Hh|]. cbn [position_entries foldl].
  destruct (decide (h ∈ map tx_Hash ts)) as [Hin|Hout].
  - match goal with |- context [foldl apply_entry ?a1 (position_entries b (i + 1) ts)] => destruct (IH (i + 1) a1) as (j & t' & E1 & E2 & E3 & E4) end; [lia|done|].
    exists (S j), t'. split; [done|]. split; [done|]. split; [done|]. rewrite E4. do 3 f_equal. lia.
  - apply elem_of_cons in Hh as [->|Hh]; [|done]. exists 0%nat, t. split; [done|]. split; [done|].
    assert (No : forall h', h' ∈ map tx_Hash ts -> h' <> tx_Hash t) by (intros h' Hh' ->; done).
    rewrite !positions_other by (intros h' Hh'; pose proof (No h' Hh'); split; congruence). unfold apply_entry. cbn [fst snd]. split.
    + rewrite fn_lookup_insert_ne by done. by rewrite fn_lookup_insert.
    + rewrite fn_lookup_insert. by rewrite Z.add_0_r.
Qed.

Lemma meta_fits bh n i : length bh = 32%nat -> 0 <= n < 2 ^ 64 -> 0 <= i < 2 ^ 64 -> fits (meta_val bh n i) meta_type.
Proof.
  intros L Hn Hi. unfold fits, meta_val, meta_type. cbn [enc zip_with concat]. rewrite app_nil_r.
  pose proof (Bytes_length_64 n Hn). pose proof (Bytes_length_64 i Hi). pose proof (enc_string_len_short bh).
  pose proof (enc_string_len_short (Bytes n)). pose proof (enc_string_len_short (Bytes i)).
  match goal with |- len (enc_list ?p) < _ => pose proof (enc_list_len p) as Le; rewrite !length_app in Le end. lia.
Qed.

Lemma positions_ok b : valid b -> Forall (entry_ok B X) (op_entries (OTransactions b)).
Proof.
  intros Vb. cbn [op_entries]. pose proof (v_body V Vok _ _ Vb) as [Ht _]. pose proof (fun t => v_txs V Vok _ _ t Vb) as Hb.
  cbn [block_Body b_Transactions] in Ht, Hb. generalize 0. induction (transactions b) as [|t ts IH]; intros i; [constructor|].
  cbn [position_entries]. apply Forall_cons in Ht as [Ot Ht]. destruct (Hb t) as [Ft Xt]; [left|].
  assert (Lt : length (tx_Hash t) = 32%nat) by apply rlpHash_word. assert (Wb : word 32 (block_Hash b)) by apply rlpHash_word.
  pose proof (num_range (header b)) as Nb. pose proof (u64_range i) as Ri.
  constructor; [split; [done|]; by intros v [= <-]|]. constructor; [|apply IH; [done|]; intros t' Ht'; apply Hb; by right].
  split; [done|]. intros v [= <-]. split; [by apply meta_fits; [apply Wb|..]|done].
Qed.

(** Receipts that are stored together can be stored one by one. *)
Lemma receipts_ok rs :
  Forall receipt_ok rs -> fits (ptrs receipt_storage_struct rs) receipts_type ->
  Forall (entry_ok B X) (map (fun r => (KReceipt (rTxHash r), Some (CReceipt r))) rs).
Proof.
  intros Fr Fi. unfold fits, receipts_type, ptrs in Fi. cbn [enc] in Fi. apply enc_list_length_lt in Fi.
  induction rs as [|r rs IH]; [constructor|]. apply Forall_cons in Fr as [Or Fr]. cbn [map concat] in Fi. rewrite length_app in Fi.
  cbn [map]. constructor; [|apply IH; [done|lia]]. split; [apply (ok_rTxHash r Or)|]. intros v [= <-]. split; [|done].
  unfold fits. cbn [cval_val cval_type]. cbn [enc] in Fi. lia.
Qed.

Lemma receipts_other rs a k :
  (forall h, k <> KReceipt h) -> foldl apply_entry a (map (fun r => (KReceipt (rTxHash r), Some (CReceipt r))) rs) k = a k.
Proof.
  intros Hk. revert a. induction rs as [|r rs IH]; intros a; [done|]. cbn [map foldl]. rewrite IH. unfold apply_entry. cbn [fst snd].
  by rewrite fn_lookup_insert_ne by (intros E; by destruct (Hk (rTxHash r))).
Qed.

Lemma returned_gives (m : outcome chain_error D) a (P : D -> Prop) :
  refines B X m a -> (forall d, rep B X (db_get d) a -> P d) ->
  gives (returned m) (fun t => match t with inl _ => ~ reliable (D := D) | inr d => P d end).
Proof. intros R HP. destruct m as [d|e|]; [by apply HP| |done]. destruct e; cbn in *; [exact R|apply R..]. Qed.

(** What the index gains by a block. *)
Definition indexes a b a' : Prop :=
  same_on block_key a a' /\ same_on pointer_key a a' /\
  (forall h, h ∈ map tx_Hash (transactions b) -> located a' b h) /\
  (forall h, h ∉ map tx_Hash (transactions b) -> a' (KTx h) = a (KTx h) /\ a' (KMeta h) = a (KMeta h)).

Lemma index_ok bc a b rs :
  bdb_ok bc a -> valid b -> aReceipts a (block_Hash b) (num (header b)) = rs ->
  gives (index_block (chainDb bc) b) (fun t =>
    match t with inl _ => ~ reliable (D := D) | inr d => exists a', bdb_ok (set_chainDb bc d) a' /\ indexes a b a' end).
Proof.
  intros Ok Vb Er. pose proof (U_num B U Uok _ (valid_U b Vb)) as N. unfold index_block.
  set (a1 := foldl apply_entry a (op_entries (OTransactions b))). set (rl := default [] rs).
  set (a2 := foldl apply_entry a1 (map (fun r => (KReceipt (rTxHash r), Some (CReceipt r))) rl)).
  assert (S1 : forall P : ckey -> Prop, (forall h, ~ P (KTx h) /\ ~ P (KMeta h)) -> same_on P a a1).
  { intros P HP k K. apply positions_other. intros h _. destruct (HP h). split; by intros ->. }
  assert (S2 : forall P : ckey -> Prop, (forall h, ~ P (KReceipt h)) -> same_on P a1 a2).
  { intros P HP k K. apply receipts_other. intros h ->. by destruct (HP h). }
  assert (Ix : indexes a b a2).
  { split; [transitivity a1; [apply S1; intros h; split; intros []|apply S2; intros h []]|].
    split; [transitivity a1; [apply S1; intros h; split; intros []|apply S2; intros h []]|]. split.
    - intros h Hh. destruct (positions_located b 0 (transactions b) a h) as (i & t & E1 & E2 & E3 & E4); [lia|done|]. exists i, t.
      unfold a2. rewrite !receipts_other by done. done.
    - intros h Hh. unfold a2. rewrite !receipts_other by done. split; apply positions_other; intros h' Hh'; split; congruence. }
  eapply gives_bind; [eapply returned_gives; [exact (op_refines B X BX _ a (OTransactions b) (ok_rep _ _ _ _ _ (b_db _ _ Ok)) (positions_ok b Vb))|intros d R; exact R]|].
  intros [e|d1] R1; [done|]. rewrite (reads_receipts _ _ _ _ (rep_reads B X d1 _ R1)) by (apply hash_length || done).
  assert (Ea : aReceipts (spec_op a (OTransactions b)) (block_Hash b) (NumberU64 b) = rs).
  { rewrite <- Er. unfold aReceipts. change (spec_op a (OTransactions b)) with a1.
    by rewrite (S1 block_key) by (done || (intros h; split; intros [])). }
  rewrite Ea. cbn [read obind]. fold rl.
  assert (Ro : Forall (entry_ok B X) (op_entries (OReceiptBatch rl))).
  { cbn [op_entries]. unfold rl. destruct rs as [l|]; [|constructor]. unfold aReceipts in Er.
    destruct (a (KReceipts _ _)) as [[]|] eqn:Ek; try done. injection Er as ->.
    destruct (rep_ok _ _ _ _ (ok_rep _ _ _ _ _ (b_db _ _ Ok)) _ _ Ek) as [Fi Fr]. by apply receipts_ok. }
  eapply gives_bind; [eapply returned_gives; [exact (op_refines B X BX d1 _ (OReceiptBatch rl) R1 Ro)|intros d R; exact R]|].
  intros [e|d2] R2; [done|]. pose proof (num_range (header b)). pose proof (v_small V Vok _ _ Vb).
  eapply returned_gives; [apply (WriteMipmapBloom_refines B X d2 _ (NumberU64 b) rl R2); change (NumberU64 b) with (num (header b)); lia|].
  intros d3 R3. exists a2. split; [|done]. apply (bdb_same bc a); [done|apply Ix|exact R3].
Qed.

Lemma heads_same_trans bc1 a1 bc2 a2 bc3 a3 : heads_same bc1 a1 bc2 a2 -> heads_same bc2 a2 bc3 a3 -> heads_same bc1 a1 bc3 a3.
Proof. intros (? & ? & ? & ? & ?) (? & ? & ? & ? & ?). split; [congruence|]. do 3 (split; [congruence|]). congruence. Qed.

Lemma heads_at_same bc a b bc' a' : heads_at bc a b -> heads_same bc a bc' a' -> heads_at bc' a' b.
Proof. intros (? & ? & ? & ? & ?) (? & ? & ? & ? & ?). split; [congruence|]. do 3 (split; [congruence|]). congruence. Qed.

Lemma heads_same_db bc a a' d : same_on pointer_key a a' -> heads_same bc a (set_chainDb bc d) a'.
Proof. intros S. do 2 (split; [done|]). split; [by apply same_on_hash|]. split; [done|]. by apply same_on_hash. Qed.

(** ** Switching to the new branch *)

Definition numbers (l : list Block) : list Z := map (fun b => num (header b)) l.

(** The canonical numbers of the blocks of [l] are theirs. *)
Definition renumbered a l a' : Prop :=
  (forall b, b ∈ l -> aHash a' (KCanonical (num (header b))) = block_Hash b) /\
  (forall n, n ∉ numbers l -> aHash a' (KCanonical n) = aHash a (KCanonical n)).

Lemma renumbered_cons a1 a2 a3 b l :
  (forall n, aHash a2 (KCanonical n) = if decide (n = num (header b)) then block_Hash b else aHash a1 (KCanonical n)) ->
  num (header b) ∉ numbers l -> renumbered a2 l a3 -> renumbered a1 (b :: l) a3.
Proof.
  intros K N [R1 R2]. split.
  - intros c Hc. apply elem_of_cons in Hc as [->|Hc]; [|by apply R1]. by rewrite R2, K, decide_True.
  - intros n Hn. cbn in Hn. apply not_elem_of_cons in Hn as [Nb Hn]. by rewrite R2, K, decide_False.
Qed.

Definition hashes (l : list Block) : list bytes := map tx_Hash (concat (map transactions l)).

(** The index gains the transactions of the blocks of [l]. *)
Definition reindexed a l a' : Prop :=
  (forall h, h ∈ hashes l -> exists b, b ∈ l /\ located a' b h) /\
  (forall h, h ∉ hashes l -> a' (KTx h) = a (KTx h) /\ a' (KMeta h) = a (KMeta h)).

Lemma located_same a a' b h : located a b h -> a' (KTx h) = a (KTx h) -> a' (KMeta h) = a (KMeta h) -> located a' b h.
Proof. intros (i & t & E1 & E2 & E3 & E4) S1 S2. exists i, t. by rewrite S1, S2. Qed.

Lemma reindexed_cons a1 a2 a3 b l : indexes a1 b a2 -> reindexed a2 l a3 -> reindexed a1 (b :: l) a3.
Proof.
  intros (_ & _ & L & O) [R1 R2]. unfold reindexed, hashes in *. cbn [map concat]. rewrite map_app. split.
  - intros h Hh. destruct (decide (h ∈ map tx_Hash (concat (map transactions l)))) as [Hin|Hout].
    + destruct (R1 h Hin) as (c & Hc & Lc). exists c. split; [by right|done].
    + apply elem_of_app in Hh as [Hh|Hh]; [|done]. exists b. split; [left|]. destruct (R2 h Hout). by apply (located_same a2); [apply L|..].
  - intros h Hh. rewrite not_elem_of_app in Hh. destruct Hh as [Hb Hl]. destruct (R2 h Hl) as [-> ->]. by apply O.
Qed.

Lemma insert_chain_ok bc a l :
  bdb_ok bc a -> (forall b, b ∈ l -> valid b) -> NoDup (numbers l) ->
  gives (insert_chain bc l) (fun r =>
    match r.1 with
    | inl _ => ~ reliable (D := D)
    | inr txs => txs = concat (map transactions l) /\ exists a', bdb_ok r.2 a' /\ same_on block_key a a' /\
        genesisHeader (hc r.2) = genesisHeader (hc bc) /\ genesisBlock r.2 = genesisBlock bc /\ renumbered a l a' /\ reindexed a l a' /\
        match last l with
        | Some z => aHash a (KCanonical (num (header z))) <> block_Hash z -> heads_at r.2 a' z
        | None => heads_same bc a r.2 a'
        end
    end).
Proof.
  revert bc a. induction l as [|b l IH]; intros bc a Ok Va Nd.
  - cbn. split; [done|]. exists a. split; [done|]. do 3 (split; [done|]). split; [split; [intros b Hb; by apply not_elem_of_nil in Hb|done]|].
    split; [split; [intros h Hh; by apply not_elem_of_nil in Hh|done]|]. done.
  - change (numbers (b :: l)) with (num (header b) :: numbers l) in Nd. apply NoDup_cons in Nd as [Nb Nd]. cbn [insert_chain].
    eapply gives_bind; [apply (bc_insert_ok bc a b Ok), Va; left|]. intros bc1 (a1 & Ok1 & (S1 & G1 & G1' & _ & _ & K1) & I1 & Hd1).
    eapply gives_bind; [eapply (index_ok bc1 a1 b); [done|apply Va; left|done]|]. intros [e|d] Hx; [done|]. destruct Hx as (a2 & Ok2 & Ix).
    pose proof Ix as (S2 & P2 & _). eapply gives_bind; [apply (IH _ a2 Ok2); [intros c Hc; apply Va; by right|done]|].
    intros [r bc3]. cbn [fst snd]. destruct r as [e|txs]; [done|]. intros (-> & a3 & Ok3 & S3 & G3 & G3' & Rn & Ri & Hd3). split; [done|].
    assert (K2 : forall n, aHash a2 (KCanonical n) = if decide (n = num (header b)) then block_Hash b else aHash a (KCanonical n)).
    { intros n. by rewrite <- K1, (same_on_hash a1 a2). }
    exists a3. split; [done|]. split; [etrans; [done|]; by etrans|]. split; [exact (eq_trans G3 G1)|]. split; [exact (eq_trans G3' G1')|].
    split; [by eapply renumbered_cons|]. split.
    { destruct (reindexed_cons a1 a2 a3 b l Ix Ri) as [R1 R2]. split; [done|]. intros h Hh. rewrite <- (I1 (KTx h) I), <- (I1 (KMeta h) I). by apply R2. }
    rewrite last_cons. destruct (last l) as [z|] eqn:El.
    + intros Nz. apply Hd3. rewrite K2, decide_False; [done|]. intros E. apply Nb. rewrite <- E. apply list_elem_of_fmap. exists z. split; [done|].
      by apply last_Some_elem_of.
    + intros Nz. rewrite decide_False in Hd1 by done. apply (heads_at_same bc1 a1); [done|]. eapply heads_same_trans; [by apply heads_same_db|done].
Qed.

Lemma delete_txs_ok bc a ts :
  bdb_ok bc a -> (forall t, t ∈ ts -> X (tx_Hash t)) ->
  exists a', bdb_ok (set_chainDb bc (delete_txs (chainDb bc) ts)) a' /\ same_on block_key a a' /\ same_on pointer_key a a' /\
    (forall h, h ∈ map tx_Hash ts -> a' (KTx h) = None /\ a' (KMeta h) = None /\ a' (KReceipt h) = None) /\
    (forall h, h ∉ map tx_Hash ts -> a' (KTx h) = a (KTx h) /\ a' (KMeta h) = a (KMeta h) /\ a' (KReceipt h) = a (KReceipt h)).
Proof.
  revert bc a. induction ts as [|t ts IH]; intros bc a Ok Hx.
  - exists a. split; [by apply (bdb_same bc a); [..|apply (ok_rep _ _ _ _ _ (b_db _ _ Ok))]|]. do 2 (split; [done|]). split; [|done].
    intros h Hh. by apply not_elem_of_nil in Hh.
  - assert (L : length (tx_Hash t) = 32%nat) by apply rlpHash_word. assert (Xt : X (tx_Hash t)) by (apply Hx; left).
    pose proof (deletes_rep B X BX (chainDb bc) a [KReceipt (tx_Hash t); KTx (tx_Hash t); KMeta (tx_Hash t)] (ok_rep _ _ _ _ _ (b_db _ _ Ok))) as R.
    cbn [map foldl] in R. specialize (R ltac:(repeat constructor; done)). unfold apply_entry in R. cbn [fst snd] in R.
    set (a1 := <[KMeta (tx_Hash t) := None]> _) in R.
    assert (S1 : forall P : ckey -> Prop, (forall h, ~ P (KTx h) /\ ~ P (KMeta h) /\ ~ P (KReceipt h)) -> same_on P a a1).
    { intros P HP. destruct (HP (tx_Hash t)) as (? & ? & ?). unfold a1. repeat (etrans; [|by apply same_on_insert]). done. }
    assert (Ok1 : bdb_ok (set_chainDb bc (DeleteTransaction (DeleteReceipt (chainDb bc) (tx_Hash t)) (tx_Hash t))) a1).
    { apply (bdb_same bc a); [done| |exact R]. apply S1. intros h. split; [|split]; intros []. }
    destruct (IH _ a1 Ok1) as (a' & Ok' & Sb & Sp & De & Ke); [intros t' Ht'; apply Hx; by right|]. exists a'. split; [exact Ok'|].
    split; [transitivity a1; [apply S1; intros h; split; [|split]; intros []|done]|].
    split; [transitivity a1; [apply S1; intros h; split; [|split]; intros []|done]|]. split.
    + intros h Hh. destruct (decide (h ∈ map tx_Hash ts)) as [Hin|Hout]; [by apply De|]. apply elem_of_cons in Hh as [->|Hh]; [|done].
      destruct (Ke _ Hout) as (-> & -> & ->). unfold a1. split; [|split];
        repeat (rewrite fn_lookup_insert || rewrite fn_lookup_insert_ne by done); done.
    + intros h Hh. cbn [map] in Hh. apply not_elem_of_cons in Hh as [Ne Hh]. destruct (Ke h Hh) as (-> & -> & ->). unfold a1.
      by rewrite !fn_lookup_insert_ne by congruence.
Qed.

(** The state after a reorganisation from the blocks [l] to the blocks [m]. *)
Record switched bc a (l m : list Block) bc' a' : Prop := {
  sw_ok : bdb_ok bc' a';
  sw_blocks : same_on block_key a a';
  sw_genesis : genesisHeader (hc bc') = genesisHeader (hc bc) /\ genesisBlock bc' = genesisBlock bc;
  sw_numbers : renumbered a m a';
  sw_added h : h ∈ hashes m -> exists b, b ∈ m /\ located a' b h;
  sw_removed h : h ∈ hashes l -> h ∉ hashes m -> a' (KTx h) = None /\ a' (KMeta h) = None /\ a' (KReceipt h) = None;
  sw_rest h : h ∉ hashes l -> h ∉ hashes m -> a' (KTx h) = a (KTx h) /\ a' (KMeta h) = a (KMeta h);
  sw_heads z : last m = Some z -> aHash a (KCanonical (num (header z))) <> block_Hash z -> heads_at bc' a' z
}.

Lemma elem_TxDifference h ts us : h ∈ map tx_Hash (TxDifference ts us) <-> h ∈ map tx_Hash ts /\ h ∉ map tx_Hash us.
Proof.
  unfold TxDifference. rewrite !list_elem_of_fmap. split.
  - intros (t & -> & Ht). rewrite list_elem_of_filter, elem_of_list_to_set in Ht. destruct Ht as [N Ht]. split; [eauto|]. by rewrite list_elem_of_fmap in N.
  - intros [(t & -> & Ht) N]. exists t. split; [done|]. rewrite list_elem_of_filter, elem_of_list_to_set, list_elem_of_fmap. done.
Qed.

Lemma switch_ok bc a r l m :
  bdb_ok bc a -> (forall b, b ∈ l -> valid b) -> (forall b, b ∈ m -> valid b) -> NoDup (numbers m) -> deletedTxs r = concat (map transactions l) ->
  gives (switch bc r m) (fun t => match t.1 with inl _ => ~ reliable (D := D) | inr _ => exists a', switched bc a l m t.2 a' end).
Proof.
  intros Ok Vl Vm Nd Er. unfold switch. eapply gives_bind; [by apply (insert_chain_ok bc a m)|]. intros [[e|txs] bc1]; cbn [fst snd]; [done|].
  intros (-> & a1 & Ok1 & S1 & G1 & G1' & Rn & [Ri1 Ri2] & Hd). rewrite Er. set (diff := TxDifference _ _).
  assert (Ed : forall h, h ∈ map tx_Hash diff <-> h ∈ hashes l /\ h ∉ hashes m) by (intros h; apply elem_TxDifference).
  destruct (delete_txs_ok bc1 a1 diff Ok1) as (a2 & Ok2 & S2 & P2 & De & Ke).
  { intros t Ht. unfold diff, TxDifference in Ht. apply list_elem_of_filter in Ht as [_ Ht].
    apply list_elem_of_In, in_concat in Ht as (ts & Hts & Ht). apply in_map_iff in Hts as (b & <- & Hb).
    apply list_elem_of_In in Hb, Ht. by apply (v_txs V Vok _ _ t (Vl b Hb)). }
  cbn [gives fst snd]. exists a2. split; try done.
  - by etrans.
  - destruct Rn as [Rn1 Rn2]. split; [intros b Hb|intros n Hn]; rewrite (same_on_hash a1 a2) by done; auto.
  - intros h Hm. destruct (Ri1 h Hm) as (b & Hb & Lb). exists b. split; [done|].
    destruct (Ke h) as (E1 & E2 & _); [rewrite Ed; tauto|]. by apply (located_same a1).
  - intros h Hl Hm. apply De, Ed. done.
  - intros h Hl Hm. destruct (Ke h) as (-> & -> & _); [rewrite Ed; tauto|]. by apply Ri2.
  - intros z Ez Nz. rewrite Ez in Hd. apply (heads_at_same bc1 a1); [by apply Hd|]. by apply heads_same_db.
Qed.

(** ** The common ancestor *)

Lemma branch_numbers a x l z : numbered a -> branch a x l z -> NoDup (numbers l) /\ forall n, n ∈ numbers l <-> num z < n <= num x.
Proof.
  intros Nm. induction 1 as [x|b y l z Vb S P Br [Nd El]].
  - split; [constructor|]. intros n. split; [intros Hn; by apply not_elem_of_nil in Hn|lia].
  - apply (parent_num a Nm) in P. pose proof (branch_num a y l z Nm Br). change (numbers (b :: l)) with (num (header b) :: numbers l). split.
    + constructor; [rewrite El; lia|done].
    + intros n. rewrite elem_of_cons, El. lia.
Qed.

(** The blocks [l] of the old branch and [m] of the new one, down to their last
    common header [z]. *)
Definition forks a old new (l m : list Block) z : Prop :=
  branch a old l z /\ branch a new m z /\
  forall c, c ∈ m -> num (header c) <= num old -> exists b, b ∈ l /\ num (header b) = num (header c) /\ header b <> header c.

Lemma reorg_ok fuel bc a g old new told tnew :
  bdb_ok bc a -> valid old -> valid new -> weighs a g (header old) told -> weighs a g (header new) tnew ->
  num (header old) + num (header new) < Z.of_nat fuel ->
  exists l m z r bc', reorg fuel bc old new = switch bc' r m /\ forks a (header old) (header new) l m z /\
    deletedTxs r = concat (map transactions l) /\ bquiet bc bc' /\ bdb_ok bc' a.
Proof.
  intros Ok Vo Vn Wo Wn Fu. unfold reorg. change (NumberU64 old) with (num (header old)). change (NumberU64 new) with (num (header new)).
  pose proof (bdb_numbered bc a Ok) as Nm. pose proof (num_range (header old)). pose proof (num_range (header new)).
  destruct (Z.ltb_spec (num (header new)) (num (header old))) as [Lt|Ge].
  - destruct (reduce_old_ok fuel bc a g old told (mkDropped [] [] []) (num (header new)) Ok Vo Wo) as (l1 & c & r1 & bc1 & -> & Br1 & Vc & Nc & [_ D1] & Q1 & Ok1); [lia..|].
    cbn [obind]. destruct (weighs_ancestor a g (header old) told (header c) Nm Wo (branch_ancestor _ _ _ _ Br1)) as [tc Wc].
    destruct (split_loop_ok fuel bc1 a g c new tc tnew r1 [] Ok1 Vc Vn Wc Wn Nc) as (l2 & m & z & r & bc' & -> & Br2 & Br3 & Ap & [_ D2] & Q2 & Ok2); [lia|].
    cbn [obind app]. exists (l1 ++ l2), m, z, r, bc'. split; [done|]. split.
    + split; [by eapply branch_app|]. split; [done|]. intros d Hd _. destruct (Ap d Hd) as (b & Hb & ?). exists b. split; [apply elem_of_app; by right|done].
    + split; [rewrite D2, D1; by rewrite map_app, concat_app|]. split; [by etrans|done].
  - destruct (reduce_new_ok fuel bc a g new tnew [] (num (header old)) Ok Vn Wn) as (m1 & c & bc1 & -> & Br1 & Vc & Nc & Q1 & Ok1); [lia..|].
    cbn [obind app]. destruct (weighs_ancestor a g (header new) tnew (header c) Nm Wn (branch_ancestor _ _ _ _ Br1)) as [tc Wc].
    destruct (split_loop_ok fuel bc1 a g old c told tc (mkDropped [] [] []) m1 Ok1 Vo Vc Wo Wc) as (l & m2 & z & r & bc' & -> & Br2 & Br3 & Ap & [_ D2] & Q2 & Ok2); [done|lia|].
    cbn [obind]. exists l, (m1 ++ m2), z, r, bc'. split; [done|]. split.
    + split; [done|]. split; [by eapply branch_app|]. intros d Hd Ld. apply elem_of_app in Hd as [Hd|Hd]; [|by apply Ap].
      destruct (branch_numbers a _ _ _ Nm Br1) as [_ E1]. assert (Hn : num (header d) ∈ numbers m1) by (apply list_elem_of_fmap; eauto).
      apply E1 in Hn. lia.
    + split; [done|]. split; [by etrans|done].
Qed.

(** ** Storing a block *)

Definition put_block a b (t : Z) : achain := <[KBody (block_Hash b) (num (header b)) := Some (CBody (block_Body b))]> (put a (header b) t).

Lemma put_block_headers a b t : same_headers (put a (header b) t) (put_block a b t).
Proof. apply same_insert. intros []. Qed.

Lemma put_block_hash a b t k : pointer_key k -> aHash (put_block a b t) k = aHash a k.
Proof. intros K. unfold put_block. rewrite aHash_insert, decide_False by (by intros <-). apply put_aHash. intros Hk. by destruct k. Qed.

Lemma put_block_index a b t k : index_key k -> put_block a b t k = a k.
Proof. intros K. unfold put_block. rewrite fn_lookup_insert_ne by (by intros <-). rewrite put_key, !decide_False; [done|by intros ->..]. Qed.

Lemma put_block_ext a b t k :
  spec_op (<[KTd (block_Hash b) (num (header b)) := Some (CTd t)]> a) (OBlock b) k = put_block a b t k.
Proof.
  unfold put_block, put, spec_op. cbn [op_entries header_entries foldl]. unfold apply_entry. cbn [fst snd].
  change (NumberU64 b) with (num (header b)). change (Header_Hash (header b)) with (block_Hash b). change (u64 (hNumber (header b))) with (num (header b)).
  destruct (decide (k = KHeader (block_Hash b) (num (header b)))) as [->|N1];
    [by rewrite !fn_lookup_insert, fn_lookup_insert_ne, fn_lookup_insert by done|].
  rewrite fn_lookup_insert_ne by done. destruct (decide (k = KNumber (block_Hash b))) as [->|N2];
    [by rewrite fn_lookup_insert, !fn_lookup_insert_ne, fn_lookup_insert by done|].
  rewrite fn_lookup_insert_ne by done. destruct (decide (k = KBody (block_Hash b) (num (header b)))) as [->|N3]; [by rewrite !fn_lookup_insert|].
  by rewrite !(fn_lookup_insert_ne _ (KBody _ _)), !(fn_lookup_insert_ne _ (KHeader _ _)), (fn_lookup_insert_ne _ (KNumber _)) by done.
Qed.

Lemma put_block_stored a b t x : U (header b) -> indexed U a -> stored (put_block a b t) x <-> x = header b \/ stored a x.
Proof.
  intros Ub Ix. rewrite <- (put_stored B U Uok a (header b) t x Ub Ix). pose proof (put_block_headers a b t) as S.
  split; intros Sx; [by apply (same_stored (put_block a b t)); [symmetry|]|by apply (same_stored _ _ _ S)].
Qed.

Lemma rep_map_ext (f : bytes -> option bytes) a a' : rep B X f a -> (forall k, a' k = a k) -> rep B X f a'.
Proof. intros [G O L F] E. split; try done; intros k; rewrite E; auto. Qed.

(** The chain differs in its database and caches only. *)
Definition keeps bc bc' : Prop :=
  genesisHeader (hc bc') = genesisHeader (hc bc) /\ currentHeader (hc bc') = currentHeader (hc bc) /\
  currentHeaderHash (hc bc') = currentHeaderHash (hc bc) /\ genesisBlock bc' = genesisBlock bc /\ currentBlock bc' = currentBlock bc /\
  currentFastBlock bc' = currentFastBlock bc.

Lemma bquiet_keeps bc bc' : bquiet bc bc' -> keeps bc bc'.
Proof. intros ((_ & ? & ? & ?) & ? & ? & ?). by repeat (split; [done|]). Qed.

Lemma store_block_ok bc a b t :
  bdb_ok bc a -> valid b -> 0 <= t < 2 ^ 62 * 2 ^ 256 ->
  gives (let* h := hc_WriteTd (hc bc) (block_Hash b) (NumberU64 b) t in
         let* d := WriteBlock (chainDb (set_hc bc h)) b in Ok (set_chainDb (set_hc bc h) d))
    (fun bc' => bdb_ok bc' (put_block a b t) /\ keeps bc bc').
Proof.
  intros Ok Vb Ht. pose proof (valid_U b Vb) as Ub. pose proof (bdb_indexed bc a Ok) as Ix. pose proof (b_db bc a Ok) as Ob.
  assert (L : length (block_Hash b) = 32%nat) by apply hash_length. pose proof (U_num B U Uok _ Ub) as N. change (NumberU64 b) with (num (header b)).
  assert (E1 : entry_ok B X (KTd (block_Hash b) (num (header b)), Some (CTd t))).
  { split; [done|]. intros v [= <-]. split; [by apply td_fits|cbn; lia]. }
  assert (E2 : op_ok B X (OBlock b)).
  { unfold op_ok. cbn [op_entries]. constructor; [|by apply (header_entry_ok B X U Uok)]. split; [done|]. intros v [= <-].
    split; [by apply (v_fits V Vok (header b))|by apply (v_body V Vok (header b))]. }
  unfold hc_WriteTd. pose proof (WriteTd_refines B X BX _ a _ _ _ (ok_rep _ _ _ _ _ Ob) E1) as R1.
  destruct (WriteTd (hdb (hc bc)) (block_Hash b) (num (header b)) t) as [d1| |]; cbn [obind]; [|done..]. cbn [refines] in R1.
  pose proof (op_refines B X BX d1 _ (OBlock b) R1 E2) as R2. cbn [run_op] in R2. cbn [chainDb set_hc hc set_tdCache set_hdb hdb].
  destruct (WriteBlock d1 b) as [d2| |]; cbn [obind]; [|done..]. cbn [refines] in R2.
  apply (rep_map_ext _ _ (put_block a b t)) in R2; [|intros k; by rewrite put_block_ext].
  pose proof (put_block_headers a b t) as Sh. pose proof (put_header_fresh B U Uok (hc bc) a (header b) t d2 Ub Ix (b_fresh _ _ Ok)) as F.
  cbn [gives]. split; [|done]. split.
  - split; [exact R2| |apply (ok_cached _ _ _ _ _ Ob)]. intros h n x. rewrite (same_aHeader _ _ _ _ Sh). by apply (put_indexed U).
  - apply (fresh_same _ _ _ d2) with (2 := Sh) in F. by apply (fresh_ext (set_hdb (set_tdCache (set_hdb (hc bc) d2) (lru_add (tdCache (hc bc)) (block_Hash b) t)) d2)).
  - intros x Sx. unfold aBody, put_block. destruct (decide (x = header b)) as [->|Ne].
    + exists (block_Body b). split; [exact Vb|]. by rewrite fn_lookup_insert.
    + apply put_block_stored in Sx as [->|Sx]; [done| |done..]. destruct (b_full bc a Ok x Sx) as (body & Vx & Eb). exists body. split; [done|].
      rewrite fn_lookup_insert_ne by (intros [= E _]; apply Ne; symmetry; apply (u_inj B U Uok); [done|by apply (stored_U U a)|done]).
      rewrite put_key, !decide_False by done. exact Eb.
  - intros h c E. destruct (b_cached bc a Ok h c E) as (Vc & Ec & Sc). do 2 (split; [done|]). apply put_block_stored; auto.
Qed.

(** ** Writing a block *)

(** A chain of blocks with head [cb] on the genesis [g]. *)
Record bchain_ok g bc a cb : Prop := {
  bo_db : bdb_ok bc a;
  bo_td x : stored a x -> exists t, weighs a g x t /\ aTd a (Header_Hash x) (num x) = Some t;
  bo_current : currentBlock bc = Some cb;
  bo_valid : valid cb;
  bo_stored : stored a (header cb);
  bo_head : aHash a KHeadBlock = block_Hash cb;
  bo_canon y : ancestor a (header cb) y -> aHash a (KCanonical (num y)) = Header_Hash y
}.

Lemma bchain_future g bc a cb f : bchain_ok g bc a cb -> bchain_ok g (set_futureBlocks bc f) a cb.
Proof. intros [[]]. by split. Qed.

Lemma keeps_current bc bc' : keeps bc bc' -> currentBlock bc' = currentBlock bc.
Proof. intros (_ & _ & _ & _ & E & _). exact E. Qed.

Lemma bc_GetTd_hit bc a x t :
  bdb_ok bc a -> stored a x -> aTd a (Header_Hash x) (num x) = Some t ->
  exists bc', bc_GetTd bc (Header_Hash x) (num x) = Ok (Some t, bc') /\ bquiet bc bc' /\ bdb_ok bc' a.
Proof.
  intros Ok S Et. destruct (GetTd_hit B X U Uok (hc bc) a x t (b_db _ _ Ok) (b_fresh _ _ Ok) S Et) as (h & E & Q & Oh & F).
  destruct (on_hc_ok bc a _ _ _ Ok E Q Oh F) as (E' & ? & ?). eauto.
Qed.

Lemma branch_last a x l z b : numbered a -> branch a x l z -> last l = Some b -> num (header b) = num z + 1.
Proof.
  intros Nm. induction 1 as [|c y l z Vc S P Br IH]; [done|]. rewrite last_cons. destruct (last l) eqn:E; [done|]. intros [= <-].
  apply last_None in E as ->. inversion Br; subst. by apply (parent_num a Nm).
Qed.

Lemma branch_head a x l z : branch a x l z -> x = z \/ exists b, b ∈ l /\ header b = x.
Proof. destruct 1 as [|b]; [by left|right]. exists b. split; [left|done]. Qed.

Lemma branch_same a a' x l z : same_on block_key a a' -> branch a x l z -> branch a' x l z.
Proof.
  intros S%same_on_headers. induction 1 as [|b y l z Vb Sb P Br IH]; [constructor|].
  econstructor; [done|by apply (same_stored a)|by rewrite (same_parent _ _ _ S)|done].
Qed.

Lemma forks_same a a' x y l m z : same_on block_key a a' -> forks a x y l m z -> forks a' x y l m z.
Proof. intros S (B1 & B2 & Ap). split; [by apply (branch_same a)|]. split; [by apply (branch_same a)|done]. Qed.

Lemma branch_last_parent a x l z b : branch a x l z -> last l = Some b -> parent a (header b) = Some z /\ ancestor a x (header b).
Proof.
  induction 1 as [|c y l z Vc S P Br IH]; [done|]. rewrite last_cons. destruct (last l) eqn:E.
  - intros E'. destruct (IH E'). split; [done|]. by econstructor.
  - intros [= <-]. apply last_None in E as ->. inversion Br; subst. split; [done|constructor].
Qed.

(** A larger store has no other ancestors on a branch. *)
Lemma ancestor_sub_inv a a' g x t y :
  indexed U a -> indexed U a' -> weighs a g x t -> ancestor a' x y -> ancestor a x y.
Proof.
  intros Ix Ix' W A. revert t W. induction A as [|x q y P A IH]; intros t W; [constructor|].
  destruct (ok_parent B U Uok a' x q Ix' P) as (Sq & Eq & Nq). pose proof (num_range q). inversion W as [S N|? q0 u S P0 W0]; subst; [lia|].
  destruct (ok_parent B U Uok a x q0 Ix P0) as (Sq0 & Eq0 & _).
  assert (q0 = q) as -> by (apply (u_inj B U Uok); [by apply (stored_U U a)|by apply (stored_U U a')|congruence]).
  econstructor; [done|by eapply IH].
Qed.

(** When neither the old head nor the parent of the new one is an ancestor of the
    other, both branches leave the last common header, and the lowest block of
    the new one is below the new head and not on the old branch. *)
Lemma forks_lowest a a' g old new p l m z told tp :
  indexed U a -> indexed U a' -> parent a' new = Some p -> weighs a g p tp -> weighs a g old told ->
  ~ ancestor a p old -> ~ ancestor a old p -> forks a' old new l m z ->
  l <> [] /\ num z < num old /\ exists c, last m = Some c /\ parent a' (header c) = Some z /\ ancestor a' new (header c) /\
    ancestor a' old z /\ ~ ancestor a' old (header c) /\ num (header c) < num new.
Proof.
  intros Ix Ix' Pn Wp Wo Na Nb (B1 & B2 & B3). pose proof (ok_numbered B U Uok a' Ix') as Nm.
  pose proof (branch_ancestor a' _ _ _ B1) as Az.
  assert (Nz : ~ ancestor a' z p).
  { intros A. apply Nb. eapply (ancestor_sub_inv a a' g); [done..|]. by eapply (ancestor_trans a'). }
  assert (Hm : exists b m', m = b :: m' /\ branch a' p m' z).
  { inversion B2 as [|b y m' ? Vb Sb Pb Br]; subst; [exfalso; apply Nz; econstructor; [done|constructor]|].
    rewrite Pn in Pb. injection Pb as <-. eauto. }
  destruct Hm as (b & m' & -> & B2'). pose proof (branch_num a' _ _ _ Nm B1) as N1. pose proof (branch_num a' _ _ _ Nm B2') as N2.
  pose proof (parent_num a' Nm _ _ Pn) as N3.
  assert (Nl : l <> []).
  { intros ->. inversion B1; subst. apply Na. eapply (ancestor_sub_inv a a' g); [done..|]. by eapply branch_ancestor. }
  assert (Nm' : m' <> []) by (intros ->; inversion B2'; subst; apply Nz; constructor).
  split; [done|]. split; [destruct l; [done|cbn [length] in N1; lia]|].
  destruct (last (b :: m')) as [c|] eqn:El; [|by apply last_None in El]. exists c. split; [done|].
  destruct (branch_last_parent a' _ _ _ _ B2 El) as [Pc Ac]. pose proof (parent_num a' Nm _ _ Pc) as Nc.
  do 3 (split; [done|]). split; [|destruct m'; [done|cbn [length] in N2; lia]].
  intros A. apply last_Some in El as Em. destruct Em as (m0 & Em).
  destruct (B3 c) as (d & Hd & Nd & Ne); [rewrite Em; apply elem_of_app; right; left|by apply (ancestor_num a' Nm)|].
  apply Ne. destruct (branch_elem a' _ _ _ _ B1 Hd) as (_ & _ & Ad).
  apply (ancestor_same a' Nm); [|lia]. apply (ancestor_chain a' Nm old); [done|done|lia].
Qed.

(** What a reorganisation leaves: the transactions of the new branch can be looked
    up, those of the old branch that are not in the new one are gone, and the
    heads are where the last block was inserted. *)
Definition reorganised a bc' a' (l m : list Block) : Prop :=
  (forall h, h ∈ hashes m -> exists b, b ∈ m /\ located a' b h) /\
  (forall h, h ∈ hashes l -> h ∉ hashes m -> a' (KTx h) = None /\ a' (KMeta h) = None /\ a' (KReceipt h) = None) /\
  (forall h, h ∉ hashes l -> h ∉ hashes m -> a' (KTx h) = a (KTx h) /\ a' (KMeta h) = a (KMeta h)) /\
  (l <> [] -> forall z, last m = Some z -> heads_at bc' a' z).

Section Current.
Context (bc : BlockChain (D := D) (C := C) (T := T)) (a : achain) (g : Header) (cb b : Block) (tc tb : Z).
Context (Hok : bdb_ok bc a) (Vc : valid cb) (Vb : valid b) (Wc : weighs a g (header cb) tc) (Wb : weighs a g (header b) tb).
Context (Cn : forall y, ancestor a (header cb) y -> aHash a (KCanonical (num y)) = Header_Hash y).

(** The block is the head of a chain of the same blocks. *)
Definition heads_chain bc' a' : Prop :=
  bdb_ok bc' a' /\ same_on block_key a a' /\ genesisBlock bc' = genesisBlock bc /\ currentBlock bc' = Some b /\ aHash a' KHeadBlock = block_Hash b /\
  (forall y, ancestor a (header b) y -> aHash a' (KCanonical (num y)) = Header_Hash y) /\
  (forall n, num (header b) < n -> aHash a' (KCanonical n) = aHash a (KCanonical n)).

Lemma extend_ok :
  parent a (header b) = Some (header cb) ->
  gives (bc_insert bc b) (fun bc' => exists a', heads_chain bc' a' /\
    (aHash a (KCanonical (num (header b))) <> block_Hash b -> heads_at bc' a' b)).
Proof.
  intros P. pose proof (bdb_numbered bc a Hok) as Nm. eapply gives_impl; [by apply (bc_insert_ok bc a b)|].
  intros bc' (a' & Hok' & (S & _ & G & Cu & Hb & K) & _ & Hd). exists a'. split; [|intros N; by rewrite decide_False in Hd].
  do 5 (split; [done|]). split.
  - intros y A. rewrite K. inversion A as [|? q ? Pq Aq]; subst; [by rewrite decide_True|]. rewrite P in Pq. injection Pq as <-.
    pose proof (parent_num a Nm _ _ P). pose proof (ancestor_num a Nm _ _ Aq). rewrite decide_False by lia. by apply Cn.
  - intros n Hn. rewrite K, decide_False by lia. done.
Qed.

(** The last block of the new branch had not been canonical. *)
Lemma fork_point l m z z' :
  forks a (header cb) (header b) l m z -> l <> [] -> last m = Some z' -> aHash a (KCanonical (num (header z'))) <> block_Hash z'.
Proof.
  intros (B1 & B2 & Ap) Nl El. pose proof (bdb_numbered bc a Hok) as Nm. pose proof (branch_last a _ _ _ _ Nm B2 El) as Nz.
  pose proof (branch_num a _ _ _ Nm B1) as Nc. destruct l as [|b0 l]; [done|]. cbn [length] in Nc.
  assert (Hm : z' ∈ m) by by apply last_Some_elem_of.
  destruct (Ap z' Hm) as (c & Hc & En & Ne); [lia|]. destruct (branch_elem a _ _ _ c B1 Hc) as (Vc' & _ & Ac).
  destruct (branch_elem a _ _ _ z' B2 Hm) as (Vz & _). rewrite <- En, (Cn _ Ac). intros E. apply Ne. apply (u_inj B U Uok); auto using valid_U.
Qed.

Lemma reorganise_ok fuel :
  num (header cb) + num (header b) < Z.of_nat fuel ->
  gives (let* (t, s) := reorg fuel bc cb b in
         match t with inl e => Ok (inl e, s) | inr _ => let* s := bc_insert s b in Ok (inr CanonStatTy, s) end)
    (fun r => match r.1 with
     | inl _ => ~ reliable (D := D)
     | inr st => st = CanonStatTy /\ exists a' l m z, heads_chain r.2 a' /\ forks a (header cb) (header b) l m z /\ reorganised a r.2 a' l m
     end).
Proof.
  intros Fu. pose proof (bdb_numbered bc a Hok) as Nm.
  destruct (reorg_ok fuel bc a g cb b tc tb Hok Vc Vb Wc Wb Fu) as (l & m & z & r & bc1 & -> & Fk & Er & Q & Ok1). pose proof Fk as (B1 & B2 & Ap).
  destruct (branch_numbers a _ _ _ Nm B2) as [Nd Em].
  eapply gives_bind; [apply (switch_ok bc1 a r l m Ok1); [intros c Hc; apply (branch_elem a _ _ _ c B1 Hc)|intros c Hc; apply (branch_elem a _ _ _ c B2 Hc)|done|done]|].
  intros [[e|r'] bc2]; cbn [fst snd]; [done|]. intros (a2 & Sw). eapply gives_bind; [by apply (bc_insert_ok bc2 a2 b (sw_ok _ _ _ _ _ _ Sw))|].
  intros bc3 (a3 & Ok3 & (S3 & _ & G3 & Cu & Hb & K3) & I3 & Hd). split; [done|]. exists a3, l, m, z.
  pose proof (sw_numbers _ _ _ _ _ _ Sw) as [Rn1 Rn2].
  assert (I : forall h, a3 (KTx h) = a2 (KTx h) /\ a3 (KMeta h) = a2 (KMeta h) /\ a3 (KReceipt h) = a2 (KReceipt h)) by (intros h; by rewrite !I3).
  split; [|split; [done|]].
  - split; [done|]. split; [etrans; [apply (sw_blocks _ _ _ _ _ _ Sw)|done]|].
    split; [exact (eq_trans G3 (eq_trans (proj2 (sw_genesis _ _ _ _ _ _ Sw)) (proj1 (proj2 Q))))|]. do 2 (split; [done|]). split.
    + intros y A. rewrite K3. destruct (decide (num y = num (header b))) as [En|En].
      { assert (header b = y) as <- by (apply (ancestor_same a Nm); [done|lia]). done. }
      destruct (branch_cases a _ _ _ y B2 A) as [Az|(c & Hc & <-)]; [|by apply Rn1]. pose proof (ancestor_num a Nm _ _ Az).
      rewrite Rn2 by (rewrite Em; lia). apply Cn. eapply ancestor_trans; [by eapply branch_ancestor|done].
    + intros n Hn. rewrite K3, decide_False by lia. apply Rn2. rewrite Em. lia.
  - split; [|split; [|split]].
    + intros h Hh. destruct (sw_added _ _ _ _ _ _ Sw h Hh) as (c & Hc & Lc). exists c. split; [done|]. destruct (I h) as (? & ? & _). by apply (located_same a2).
    + intros h Hl Hm. destruct (I h) as (-> & -> & ->). by apply (sw_removed _ _ _ _ _ _ Sw).
    + intros h Hl Hm. destruct (I h) as (-> & -> & _). by apply (sw_rest _ _ _ _ _ _ Sw).
    + intros Nl z' El. rewrite decide_True in Hd.
      * apply (heads_at_same bc2 a2); [|done]. apply (sw_heads _ _ _ _ _ _ Sw z' El). by apply (fork_point l m z).
      * destruct (branch_head a _ _ _ B2) as [E|(c & Hc & Ec)]; [|pose proof (Rn1 c Hc) as Ec'; unfold block_Hash in *; by rewrite Ec in Ec'].
        pose proof (branch_num a _ _ _ Nm B2) as Nb. rewrite E in Nb. destruct m; [done|cbn [length] in Nb; lia].
Qed.
End Current.

Section Write.
Context (g : Header) (bc : BlockChain (D := D) (C := C) (T := T)) (a : achain) (cb : Block) (Co : bchain_ok g bc a cb).
Context (b : Block) (p : Header) (tp tc : Z) (Vb : valid b) (Wp : weighs a g p tp) (Wc : weighs a g (header cb) tc).
Context (Ep : hParentHash (header b) = Header_Hash p) (Np : num (header b) = num p + 1).

Let t : Z := hDifficulty (header b) + tp.
Let a1 : achain := put_block a b t.

Lemma stored_td x u : stored a x -> weighs a g x u -> aTd a (Header_Hash x) (num x) = Some u.
Proof.
  intros S W. destruct (bo_td _ _ _ _ Co x S) as (u' & W' & Et). by rewrite (weighs_fun B U Uok a g x u u' (bdb_indexed bc a (bo_db _ _ _ _ Co)) W W').
Qed.

Lemma block_td : 0 <= t < 2 ^ 62 * 2 ^ 256.
Proof.
  pose proof (valid_U b Vb) as Ub. pose proof (weighs_range B U Uok a g p tp (bdb_indexed bc a (bo_db _ _ _ _ Co)) Wp).
  pose proof (u_difficulty B U Uok _ Ub). pose proof (ok_Difficulty _ (u_header B U Uok _ Ub)). pose proof (u_low B U Uok _ Ub) as L.
  unfold low in L. pose proof (num_range p). unfold t. nia.
Qed.

Lemma put_block_weighs x u : weighs a g x u -> weighs a1 g x u.
Proof. intros W. apply (same_weighs _ _ _ _ _ (put_block_headers a b t)). apply (put_weighs B U Uok); auto using valid_U. apply (bdb_indexed bc a (bo_db _ _ _ _ Co)). Qed.

Lemma put_block_child : parent a1 (header b) = Some p /\ weighs a1 g (header b) t.
Proof.
  destruct (put_child B U Uok a (header b) t g p tp (valid_U b Vb) (bdb_indexed bc a (bo_db _ _ _ _ Co)) Wp Ep Np) as [P W].
  split; [by rewrite (same_parent _ _ _ (put_block_headers a b t))|by apply (same_weighs _ _ _ _ _ (put_block_headers a b t))].
Qed.

(** The new store has the total difficulties of its blocks. *)
Lemma put_block_td a' x :
  same_on block_key a1 a' -> stored a' x -> exists u, weighs a' g x u /\ aTd a' (Header_Hash x) (num x) = Some u.
Proof.
  intros S%same_on_headers Sx. pose proof (bdb_indexed bc a (bo_db _ _ _ _ Co)) as Ix. pose proof (valid_U b Vb) as Ub.
  apply (same_stored a' a1) in Sx; [|by symmetry]. rewrite (same_aTd _ _ _ _ S). unfold a1. rewrite (same_aTd _ _ _ _ (put_block_headers a b t)), put_aTd.
  destruct (decide (x = header b)) as [->|Ne].
  - exists t. rewrite decide_True by done. split; [|done]. apply (same_weighs _ _ _ _ _ S), put_block_child.
  - apply put_block_stored in Sx as [->|Sx]; [done| |done..]. destruct (bo_td _ _ _ _ Co x Sx) as (u & W & Et). exists u.
    split; [by apply (same_weighs _ _ _ _ _ S), put_block_weighs|].
    rewrite decide_False by (intros [E _]; apply Ne, (u_inj B U Uok); [by apply (stored_U U a)|done..]). done.
Qed.

Lemma put_block_canon y : ancestor a1 (header cb) y -> aHash a1 (KCanonical (num y)) = Header_Hash y.
Proof.
  intros A. unfold a1. rewrite put_block_hash by done. apply (bo_canon _ _ _ _ Co).
  apply (same_ancestor a1 (put a (header b) t)) in A; [|symmetry; apply put_block_headers].
  eapply (put_ancestor_inv B U Uok); [by apply valid_U|apply (bdb_indexed bc a (bo_db _ _ _ _ Co))|done..].
Qed.

(** What is left to show once the block is the head. *)
Lemma head_chain bc1 bc' a' :
  heads_chain bc1 a1 b bc' a' -> bchain_ok g bc' a' b /\ (forall y, stored a' y <-> y = header b \/ stored a y) /\
    forall n, num (header b) < n -> aHash a' (KCanonical n) = aHash a (KCanonical n).
Proof.
  intros (Ok & S & _ & Cu & Hb & Cn & Hi). pose proof (same_on_headers _ _ S) as Sh. pose proof (valid_U b Vb) as Ub.
  assert (St : forall y, stored a' y <-> y = header b \/ stored a y).
  { intros y. rewrite <- (put_block_stored a b t y Ub (bdb_indexed bc a (bo_db _ _ _ _ Co))). split; apply same_stored; [by symmetry|done]. }
  split; [|split; [done|]].
  - split; try done; [intros x Sx; by apply put_block_td|apply St; by left|].
    intros y A. apply Cn. by apply (same_ancestor a'); [symmetry|].
  - intros n Hn. rewrite Hi by done. unfold a1. by rewrite put_block_hash.
Qed.

Lemma make_current_ok bc1 fuel :
  bdb_ok bc1 a1 -> num (header cb) + num (header b) < Z.of_nat fuel ->
  gives (make_current fuel bc1 cb b) (fun r =>
    match r.1 with
    | inl _ => ~ reliable (D := D)
    | inr st => st = CanonStatTy /\ exists a', heads_chain bc1 a1 b r.2 a' /\
        (hParentHash (header b) <> block_Hash cb ->
         exists l m z, forks a' (header cb) (header b) l m z /\ reorganised a r.2 a' l m)
    end).
Proof.
  intros Ok1 Fu. pose proof (bo_valid _ _ _ _ Co) as Vc. unfold make_current. case_bool_decide as E.
  - cbn [obind]. eapply gives_bind; [apply (extend_ok bc1 a1 cb b); [done..|exact put_block_canon|]|].
    + rewrite (proj1 put_block_child). f_equal. rewrite Ep in E. apply (u_inj B U Uok); [|by apply valid_U|done].
      apply (stored_U U a); [apply (bdb_indexed bc a (bo_db _ _ _ _ Co))|by eapply weighs_stored].
    + intros bc' (a' & Hc & _). split; [done|]. exists a'. split; [done|]. by intros [].
  - eapply gives_impl; [apply (reorganise_ok bc1 a1 g cb b tc t); try done; [by apply put_block_weighs|apply put_block_child|exact put_block_canon]|].
    intros [[e|st] bc']; cbn [fst snd]; [done|]. intros (-> & a' & l & m & z & Hc & Fk & Ro). split; [done|]. exists a'. split; [done|].
    intros _. exists l, m, z. pose proof Hc as (_ & S & _). split; [by apply (forks_same a1)|]. destruct Ro as (R1 & R2 & R3 & R4).
    split; [done|]. split; [done|]. split; [|done]. intros h Hl Hm. destruct (R3 h Hl Hm) as [-> ->]. unfold a1. by rewrite !put_block_index.
Qed.

Lemma write_block_ok fuel (coin : bool) :
  num (header cb) + num (header b) < Z.of_nat fuel ->
  gives (bc_WriteBlock fuel coin bc b) (fun r =>
    let wins := (tc <? t) || ((t =? tc) && coin) in
    match r.1 with
    | inl _ => ~ reliable (D := D)
    | inr st => st = (if wins then CanonStatTy else SideStatTy) /\
        exists a', bchain_ok g r.2 a' (if wins then b else cb) /\ (forall y, stored a' y <-> y = header b \/ stored a y) /\
          (forall n, (wins = true -> num (header b) < n) -> aHash a' (KCanonical n) = aHash a (KCanonical n)) /\
          (wins = true -> hParentHash (header b) <> block_Hash cb ->
           exists l m z, forks a' (header cb) (header b) l m z /\ reorganised a r.2 a' l m)
    end).
Proof.
  intros Fu. pose proof (bo_db _ _ _ _ Co) as Ok. pose proof (weighs_stored _ _ _ _ Wp) as Sp. pose proof (bo_stored _ _ _ _ Co) as Sc.
  pose proof (num_range p). pose proof (num_range (header b)).
  unfold bc_WriteBlock. change (NumberU64 b) with (num (header b)). rewrite Ep. replace (u64 (num (header b) - 1)) with (num p) by (rewrite u64_small by lia; lia).
  destruct (bc_GetTd_hit bc a p tp Ok Sp (stored_td p tp Sp Wp)) as (bc1 & -> & Q1 & Ok1). cbn [obind].
  rewrite (proj1 (proj2 (proj2 Q1))), (bo_current _ _ _ _ Co). cbn [the obind].
  destruct (bc_GetTd_hit bc1 a (header cb) tc Ok1 Sc (stored_td _ tc Sc Wc)) as (bc2 & E2 & Q2 & Ok2).
  change (block_Hash cb) with (Header_Hash (header cb)) at 1. change (NumberU64 cb) with (num (header cb)). rewrite E2. cbn [obind]. fold t.
  pose proof (store_block_ok bc2 a b t Ok2 Vb block_td) as St. change (NumberU64 b) with (num (header b)) in St.
  destruct (hc_WriteTd (hc bc2) (block_Hash b) (num (header b)) t) as [h| |]; cbn [obind] in *; [|done..].
  destruct (WriteBlock (chainDb (set_hc bc2 h)) b) as [d| |]; cbn [obind] in *; [|done..].
  set (bc3 := set_chainDb (set_hc bc2 h) d) in *. clearbody bc3. destruct St as (Ok3 & K3). cbn [the obind].
  destruct ((tc <? t) || ((t =? tc) && coin)).
  - eapply gives_bind; [by apply (make_current_ok bc3)|]. intros [[e|st] bc4]; cbn [fst snd]; [done|].
    intros (-> & a' & Hc & Ro). split; [done|]. destruct (head_chain bc3 bc4 a' Hc) as (Hch & St & Hi).
    exists a'. split; [by apply bchain_future|]. split; [done|]. split; [auto|]. intros _ Np'. apply Ro. by rewrite Ep.
  - cbn [obind gives fst snd]. split; [done|]. exists (put_block a b t). split; [apply bchain_future; split; try done|split; [|split; [|done]]].
    + intros x Sx. by apply put_block_td.
    + apply keeps_current in K3. rewrite K3. rewrite (proj1 (proj2 (proj2 Q2))), (proj1 (proj2 (proj2 Q1))). apply (bo_current _ _ _ _ Co).
    + apply (bo_valid _ _ _ _ Co).
    + apply put_block_stored; auto using valid_U. apply (bdb_indexed bc a Ok).
    + rewrite put_block_hash by done. apply (bo_head _ _ _ _ Co).
    + exact put_block_canon.
    + intros y. apply put_block_stored; auto using valid_U. apply (bdb_indexed bc a Ok).
    + intros n _. by rewrite put_block_hash.
Qed.
End Write.

(** ** Opening a chain *)

Lemma GetBlockByHash_hit bc a x :
  bdb_ok bc a -> stored a x ->
  exists b bc', bc_GetBlockByHash bc (Header_Hash x) = Ok (Some b, bc') /\ header b = x /\ valid b /\ bquiet bc bc' /\ bdb_ok bc' a.
Proof.
  intros Ok S. pose proof (bdb_indexed bc a Ok) as Ix. pose proof (stored_U U a x Ix S) as Ux. unfold bc_GetBlockByHash.
  destruct (GetBlockNumber_ok B X U Uok (hc bc) a (Header_Hash x) (b_db _ _ Ok) (b_fresh _ _ Ok) (hash_length x) (u_key B U Uok x Ux))
    as (n & h & E & Q & Oh & F & [(y & Sy & Ey & ->)|[_ No]]); [|by destruct (No x S)].
  assert (y = x) as -> by (by apply (stored_inj B U Uok a)).
  destruct (on_hc_ok bc a _ _ _ Ok E Q Oh F) as (-> & Q1 & Ok1). cbn [obind].
  destruct (GetBlock_hit _ a x Ok1 S) as (b & bc' & E2 & Eb & Vb & Q2 & Ok2). exists b, bc'. do 3 (split; [done|]). split; [by etrans|done].
Qed.

Lemma set_header_ok bc a b :
  bdb_ok bc a ->
  gives (SetCurrentHeader (hc bc) (header b)) (fun h => bdb_ok (set_hc bc h) (<[KHeadHeader := Some (CHash (block_Hash b))]> a)).
Proof.
  intros Ok. eapply gives_bind; [exact (put_pointer bc a KHeadHeader b Ok I I)|]. intros d Ok'.
  exact (bdb_head _ _ (Some (header b)) (block_Hash b) Ok').
Qed.

(** The state of a block with this root can be opened. *)
Definition loadable (M : Z) (root : bytes) : Prop :=
  forall w : World T D, exists w1 s1 r w2 s2, State_New M w root = Ok (w1, s1) /\ GetStateObject (zeros 20) w1 s1 = Ok (r, w2, s2).

Section Open.
Context (M : Z) (b : Block) (Vb : valid b) (N0 : NumberU64 b = 0) (Ld : loadable M (hRoot (header b))).

Let a0 : achain := genesis_store b.

Lemma genesis_stored x : stored a0 x <-> x = header b.
Proof.
  pose proof (genesis_same b) as S. rewrite <- (or_False (x = header b)).
  assert (E : stored aempty x <-> False) by done. rewrite <- E, <- (put_stored B U Uok aempty (header b) (hDifficulty (header b)) x (valid_U b Vb)) by done.
  split; apply same_stored; [by symmetry|done].
Qed.

Lemma genesis_bdb h :
  db_ok B X U h a0 -> fresh h a0 ->
  forall bc, hc bc = h -> blockCache bc = lru_new blockCacheLimit -> bdb_ok bc a0.
Proof.
  intros Ok F bc <- Ec. split; [done|done|..].
  - intros x ->%genesis_stored. exists (block_Body b). split; [done|]. unfold aBody, a0. rewrite genesis_key. by rewrite decide_True.
  - intros k c. by rewrite Ec, lru_peek_new.
Qed.

(** The chain of the genesis block; what is left is the pointer to its header. *)
Lemma genesis_bchain bc cb :
  bdb_ok bc (<[KHeadHeader := Some (CHash (block_Hash b))]> a0) -> currentBlock bc = Some cb -> header cb = header b -> valid cb ->
  bchain_ok (header b) bc (<[KHeadHeader := Some (CHash (block_Hash b))]> a0) cb.
Proof.
  intros Ok Cu Ec Vc. set (a := <[KHeadHeader := _]> a0) in *. assert (S : same_headers a0 a) by (apply same_insert; intros []).
  assert (Sg : forall x, stored a x <-> x = header b) by (intros x; rewrite <- genesis_stored; split; apply same_stored; [by symmetry|done]).
  assert (K : forall k, k <> KHeadHeader -> aHash a k = aHash a0 k) by (intros k Nk; unfold a; rewrite aHash_insert, decide_False; [done|congruence]).
  split; try done.
  - intros x ->%Sg. exists (hDifficulty (header b)). split; [constructor; [by apply Sg|done]|]. rewrite (same_aTd _ _ _ _ S). unfold a0.
    rewrite (same_aTd _ _ _ _ (genesis_same b)), put_aTd. by rewrite decide_True.
  - by apply Sg.
  - rewrite K by done. unfold aHash, a0. rewrite genesis_key. unfold block_Hash. by rewrite Ec.
  - rewrite Ec. intros y A. rewrite K by done. unfold aHash, a0. rewrite genesis_key. inversion A as [|? q ? P _]; subst; [by rewrite decide_True|].
    apply (parent_num a (bdb_numbered bc a Ok)) in P. pose proof (num_range q). change (NumberU64 b) with (num (header b)) in N0. lia.
Qed.

Lemma load_last_ok reset bc :
  bdb_ok bc a0 ->
  gives (loadLastState M reset bc) (fun r => r.1 = true /\ exists cb,
    bdb_ok r.2 (<[KHeadHeader := Some (CHash (block_Hash b))]> a0) /\ currentBlock r.2 = Some cb /\ header cb = header b /\ valid cb).
Proof.
  intros Ok. pose proof (valid_U b Vb) as Ub. unfold loadLastState. destruct (reads_heads _ _ _ _ (bdb_reads bc a0 Ok)) as (_ & Hb & _).
  rewrite Hb. replace (aHash a0 KHeadBlock) with (Header_Hash (header b)) by (unfold aHash, a0; by rewrite genesis_key).
  rewrite bool_decide_false by by apply (u_nonzero B U Uok).
  destruct (GetBlockByHash_hit bc a0 (header b) Ok) as (cb & bc1 & -> & Ec & Vc & Q1 & Ok1); [by apply genesis_stored|]. cbn [obind set_currentBlock currentBlock the].
  apply (bdb_current _ _ (Some cb)) in Ok1. set (bc2 := set_currentBlock bc1 (Some cb)) in *.
  destruct (reads_heads _ _ _ _ (bdb_reads bc2 a0 Ok1)) as (Hh & _ & Hf). change (chainDb (mkBC _ _ _ _ _ _ _ _ _ _)) with (chainDb bc2).
  rewrite Hh. replace (aHash a0 KHeadHeader) with (zeros 32) by (unfold aHash, a0; rewrite genesis_key, put_key, !decide_False by done; done).
  rewrite bool_decide_true by done. cbn [obind default from_option id].
  eapply gives_bind; [exact (set_header_ok bc2 a0 cb Ok1)|]. intros h Ok2.
  assert (Eb : block_Hash cb = block_Hash b) by (unfold block_Hash; by rewrite Ec). rewrite Eb in Ok2.
  apply (bdb_fast _ _ (Some cb)) in Ok2. set (bc3 := set_currentFastBlock (set_hc bc2 h) (Some cb)) in *.
  change (chainDb (set_currentFastBlock _ _)) with (chainDb bc3).
  destruct (reads_heads _ _ _ _ (bdb_reads bc3 _ Ok2)) as (_ & _ & Hf'). rewrite Hf'.
  rewrite aHash_insert, decide_False by done. rewrite <- Hf, Hf.
  replace (aHash a0 KHeadFast) with (zeros 32) by (unfold aHash, a0; rewrite genesis_key, put_key, !decide_False by done; done).
  rewrite bool_decide_true by done. cbn [obind]. unfold load_state.
  change (currentBlock bc3) with (Some cb). cbn [the obind]. rewrite Ec. destruct (Ld (state_world bc3)) as (w1 & s1 & r & w2 & s2 & E1 & E2).
  rewrite E1, E2. cbn [gives fst snd]. split; [done|]. exists cb.
  split; [|done]. destruct Ok2. by split.
Qed.

(** No bad block is stored. *)
Lemma check_bad_ok fuel bc cb a hs :
  bchain_ok (header b) bc a cb -> (forall x, stored a x -> Header_Hash x ∉ hs) -> Forall (fun h => length h = 32%nat /\ B h) hs ->
  exists bc', check_bad M fuel bc hs = Ok bc' /\ bchain_ok (header b) bc' a cb.
Proof.
  intros Co No Hs. revert bc Co No. induction Hs as [|h hs [L Bh] Hs IH]; intros bc Co No; [by exists bc|]. cbn [check_bad].
  pose proof (bo_db _ _ _ _ Co) as Ok. unfold bc_GetHeaderByHash.
  destruct (GetHeaderByHash_ok B X U Uok (hc bc) a h (b_db _ _ Ok) (b_fresh _ _ Ok) L Bh) as (o & h' & E & Q & Oh & F & Ho).
  destruct (on_hc_ok bc a _ _ _ Ok E Q Oh F) as (-> & Q1 & Ok1). cbn [obind].
  destruct o as [x|]; [destruct (proj1 (Ho x) eq_refl) as [Sx ->]; exfalso; apply (No x Sx); left|]. cbn [obind].
  apply IH; [|intros x Sx Hx; apply (No x Sx); by right]. destruct Co. by split.
Qed.

(** Opening a database that holds the genesis block gives its chain. *)
Lemma open_chain_ok fuel writeGenesis (d : D) :
  rep B X (db_get d) a0 -> Forall (fun h => length h = 32%nat /\ B h) BadHashes -> block_Hash b ∉ BadHashes ->
  gives (NewBlockChain (C := C) (T := T) M fuel writeGenesis d) (fun o =>
    exists bc a cb, o = Some bc /\ bchain_ok (header b) bc a cb /\ header cb = header b /\ forall x, stored a x <-> x = header b).
Proof.
  intros R Hb Nb. pose proof (valid_U b Vb) as Ub. unfold NewBlockChain.
  destruct (open_ok B X U Uok d b writeGenesis R Ub N0) as (h & -> & Ed & Oh & F & Eg). cbn [obind]. set (bc0 := mkBC h _ _ _ _ _ _ _ _ _).
  pose proof (genesis_bdb h Oh F bc0 eq_refl eq_refl) as Ok0. unfold bc_GetBlockByNumber.
  rewrite (reads_canonical _ _ _ _ (bdb_reads bc0 a0 Ok0)) by by apply le_ok.
  replace (aHash a0 (KCanonical 0)) with (Header_Hash (header b)) by (unfold aHash, a0; rewrite genesis_key; by rewrite decide_True).
  rewrite bool_decide_false by by apply (u_nonzero B U Uok).
  destruct (GetBlock_hit bc0 a0 (header b) Ok0) as (c & bc1 & E1 & _ & _ & _ & Ok1); [by apply genesis_stored|].
  change (num (header b)) with (NumberU64 b) in E1. rewrite N0 in E1. rewrite E1. cbn [obind].
  eapply gives_bind; [apply (load_last_ok (bc_Reset M fuel) (set_genesisBlock bc1 (Some c))); destruct Ok1; by split|].
  intros [ok bc2]. cbn [fst snd]. intros (-> & cb & Ok2 & Cu & Ec & Vc). pose proof (genesis_bchain bc2 cb Ok2 Cu Ec Vc) as Co.
  assert (Sg : forall x, stored (<[KHeadHeader := Some (CHash (block_Hash b))]> a0) x <-> x = header b).
  { intros x. rewrite <- genesis_stored. split; apply same_stored; [symmetry|]; apply same_insert; intros []. }
  destruct (check_bad_ok fuel bc2 cb _ BadHashes Co) as (bc3 & -> & Co3); [by intros x ->%Sg|done|]. cbn [obind gives]. eauto 10.
Qed.
End Open.
End Spec.

(** C15: writing a block keeps the canonical chain.  Take a chain of blocks whose
    canonical numbers up to the current block are those of its branch, whose total
    difficulties are the sums along the branches, which has the body of every
    header, and whose caches agree with the database.  Write a block on top of a
    stored one whose branch reaches the genesis.  With enough steps for the loops
    of the reorganisation the write returns; it succeeds unless the store fails.
    The block is stored; it becomes the current block exactly when its total
    difficulty is larger than that of the current block, or equal and the coin
    says so; and all of this holds again, with the canonical numbers redirected to
    the branch of the new head.  Numbers above a new head are left as they are,
    and all numbers when the head stays.  A header is taken to have one body, and
    headers to have distinct, non-zero hashes. *)
Theorem WriteBlock_canonical `{Hash256} `{StoreLaws D} `{LRULaws C} `{StateTrie T D} (B X : bytes -> Prop) (U : Header -> Prop)
    (V : Header -> Body -> Prop) (g : Header) (bc : BlockChain (D := D) (C := C) (T := T)) (a : achain) (cb b : Block) (p : Header) (tp tc : Z)
    (fuel : nat) (coin : bool) :
  (forall b x, B b -> X x -> blockHashPrefix ++ b <> x ++ txMetaSuffix) -> headers_ok B U -> blocks_ok X U V ->
  bchain_ok B X U V g bc a cb -> valid V b -> weighs a g p tp -> weighs a g (header cb) tc ->
  hParentHash (header b) = Header_Hash p -> num (header b) = num p + 1 -> num (header cb) + num (header b) < Z.of_nat fuel ->
  gives (D := D) (bc_WriteBlock fuel coin bc b) (fun r =>
    let t := hDifficulty (header b) + tp in
    let wins := (tc <? t) || ((t =? tc) && coin) in
    match r.1 with
    | inl _ => ~ reliable (D := D)
    | inr status => status = (if wins then CanonStatTy else SideStatTy) /\
        exists a', bchain_ok B X U V g r.2 a' (if wins then b else cb) /\ (forall y, stored a' y <-> y = header b \/ stored a y) /\
          (forall n, (wins = true -> num (header b) < n) -> aHash a' (KCanonical n) = aHash a (KCanonical n))
    end).
Proof.
  intros BX Uok Vok Co Vb Wp Wc Ep Np Fu. eapply gives_impl; [by eapply (write_block_ok B X BX U Uok V Vok g bc a cb Co b p tp tc)|].
  intros [[e|st] bc']; cbn [fst snd]; [done|]. intros (Es & a' & Co' & St & Hi & _). split; [done|]. by exists a'.
Qed.

(** C16: a reorganisation keeps the index of transactions in step.  When the new
    block wins and does not extend the current block, let [l] and [m] be the
    blocks of the old and of the new branch down to their last common header.
    After the write every transaction of [m] is found with its block and
    position in [m]; transactions of [l] that are not in [m] are found no more,
    nor are their receipts; the entries of all other transactions are as they
    were. *)
Theorem WriteBlock_reindexes `{Hash256} `{StoreLaws D} `{LRULaws C} `{StateTrie T D} (B X : bytes -> Prop) (U : Header -> Prop)
    (V : Header -> Body -> Prop) (g : Header) (bc : BlockChain (D := D) (C := C) (T := T)) (a : achain) (cb b : Block) (p : Header) (tp tc : Z)
    (fuel : nat) (coin : bool) :
  (forall b x, B b -> X x -> blockHashPrefix ++ b <> x ++ txMetaSuffix) -> headers_ok B U -> blocks_ok X U V ->
  bchain_ok B X U V g bc a cb -> valid V b -> weighs a g p tp -> weighs a g (header cb) tc ->
  hParentHash (header b) = Header_Hash p -> num (header b) = num p + 1 -> num (header cb) + num (header b) < Z.of_nat fuel ->
  hParentHash (header b) <> block_Hash cb -> tc < hDifficulty (header b) + tp ->
  gives (D := D) (bc_WriteBlock fuel coin bc b) (fun r =>
    match r.1 with
    | inl _ => ~ reliable (D := D)
    | inr _ => exists a' l m z, rep B X (db_get (chainDb r.2)) a' /\ forks V a' (header cb) (header b) l m z /\
        (forall h, h ∈ hashes m -> exists c i t, c ∈ m /\ transactions c !! i = Some t /\ tx_Hash t = h /\
           aTx a' h = Some (t, block_Hash c, NumberU64 c, u64 (Z.of_nat i))) /\
        (forall h, h ∈ hashes l -> h ∉ hashes m -> aTx a' h = None /\ aReceipt a' h = None) /\
        (forall h, h ∉ hashes l -> h ∉ hashes m -> aTx a' h = aTx a h)
    end).
Proof.
  intros BX Uok Vok Co Vb Wp Wc Ep Np Fu Ne Lt. eapply gives_impl; [by eapply (write_block_ok B X BX U Uok V Vok g bc a cb Co b p tp tc)|].
  intros [[e|st] bc']; cbn [fst snd]; [done|]. rewrite (proj2 (Z.ltb_lt _ _) Lt). cbn [orb]. intros (_ & a' & Co' & _ & _ & Re).
  destruct (Re eq_refl Ne) as (l & m & z & Fk & R1 & R2 & R3 & _). exists a', l, m, z.
  split; [apply (ok_rep _ _ _ _ _ (b_db _ _ _ _ _ _ (bo_db _ _ _ _ _ _ _ _ Co')))|]. split; [done|]. unfold aTx, aReceipt. split; [|split].
  - intros h Hh. destruct (R1 h Hh) as (c & Hc & i & t & E1 & E2 & E3 & E4). exists c, i, t. by rewrite E3, E4.
  - intros h Hl Hm. by destruct (R2 h Hl Hm) as (-> & _ & ->).
  - intros h Hl Hm. by destruct (R3 h Hl Hm) as (-> & ->).
Qed.

(** C36: a reorganisation leaves the header chain behind.  [reorg] inserts the blocks
    of the new branch from the new block down, and each insertion moves the head of
    the headers and of the fast sync; the final insertion of the new block finds
    its number in place and does not move them again.  Let the new block be
    strictly heavier than the current one, and let neither the current block nor
    the parent of the new block be an ancestor of the other, so that the new branch
    has at least two blocks above the last common header [z].  After the write the
    current block is the new one, but the current header and the current fast
    block, also those in the database, are [c], the lowest block of the new branch:
    its parent is [z], an ancestor of the old head, and it is not on the old
    branch; and [c] is not the new block but below it. *)
Theorem reorg_leaves_head_behind `{Hash256} `{StoreLaws D} `{LRULaws C} `{StateTrie T D} (B X : bytes -> Prop) (U : Header -> Prop)
    (V : Header -> Body -> Prop) (g : Header) (bc : BlockChain (D := D) (C := C) (T := T)) (a : achain) (cb b : Block) (p : Header) (tp tc : Z)
    (fuel : nat) (coin : bool) :
  (forall b x, B b -> X x -> blockHashPrefix ++ b <> x ++ txMetaSuffix) -> headers_ok B U -> blocks_ok X U V -> reliable (D := D) ->
  bchain_ok B X U V g bc a cb -> valid V b -> weighs a g p tp -> weighs a g (header cb) tc ->
  hParentHash (header b) = Header_Hash p -> num (header b) = num p + 1 -> num (header cb) + num (header b) < Z.of_nat fuel ->
  ~ ancestor a p (header cb) -> ~ ancestor a (header cb) p -> tc < hDifficulty (header b) + tp ->
  exists bc' a' c z, bc_WriteBlock fuel coin bc b = Ok (inr CanonStatTy, bc') /\ rep B X (db_get (chainDb bc')) a' /\
    currentBlock bc' = Some b /\ ancestor a' (header b) (header c) /\ ~ ancestor a' (header cb) (header c) /\
    parent a' (header c) = Some z /\ ancestor a' (header cb) z /\ num z < num (header cb) /\ num (header c) < num (header b) /\
    currentHeader (hc bc') = Some (header c) /\ currentFastBlock bc' = Some c /\
    GetHeadBlockHash (chainDb bc') = block_Hash b /\ GetHeadHeaderHash (chainDb bc') = block_Hash c.
Proof.
  intros BX Uok Vok Re Co Vb Wp Wc Ep Np Fu Na Nb Lt. pose proof (bdb_indexed _ _ _ _ _ _ (bo_db _ _ _ _ _ _ _ _ Co)) as Ix.
  assert (Ne : hParentHash (header b) <> block_Hash cb).
  { intros E. apply Na. rewrite Ep in E. apply (u_inj B U Uok) in E; [subst p; constructor|by eapply stored_U, weighs_stored|].
    apply (v_header X U V Vok _ _ (bo_valid _ _ _ _ _ _ _ _ Co)). }
  destruct (reliable_gives _ _ Re (write_block_ok B X BX U Uok V Vok g bc a cb Co b p tp tc Vb Wp Wc Ep Np fuel coin Fu)) as ([[e|st] bc'] & E & Hr);
    cbn [fst snd] in Hr; [done|]. rewrite (proj2 (Z.ltb_lt _ _) Lt) in Hr. cbn [orb] in Hr. destruct Hr as (-> & a' & Co' & _ & _ & Hre).
  destruct (Hre eq_refl Ne) as (l & m & z & Fk & _ & _ & _ & Hd). pose proof (bo_db _ _ _ _ _ _ _ _ Co') as Ok'.
  pose proof (bdb_indexed _ _ _ _ _ _ Ok') as Ix'. pose proof (num_range p) as Rp.
  assert (Pb : parent a' (header b) = Some p).
  { destruct (bo_td _ _ _ _ _ _ _ _ Co' _ (bo_stored _ _ _ _ _ _ _ _ Co')) as (t & Wb & _).
    inversion Wb as [S0 N0|x q u S0 Pq Wq]; subst; [lia|]. destruct (ok_parent B U Uok a' _ q Ix' Pq) as (Sq & Eq & _).
    rewrite Pq. f_equal. apply (u_inj B U Uok); [by apply (stored_U U a')|apply (stored_U U a); [done|by eapply weighs_stored]|congruence]. }
  destruct (forks_lowest B U Uok V a a' g _ _ p l m z tc tp Ix Ix' Pb Wp Wc Na Nb Fk) as (Nl & Nz & c & El & Pc & Ac & Az & Nc & Lc).
  destruct (Hd Nl c El) as (D1 & D2 & D3 & D4 & D5). destruct (reads_heads _ _ _ _ (bdb_reads _ _ _ _ _ _ Ok')) as (R1 & R2 & _).
  exists bc', a', c, z. split; [done|]. split; [apply (ok_rep _ _ _ _ _ (b_db _ _ _ _ _ _ Ok'))|]. split; [apply (bo_current _ _ _ _ _ _ _ _ Co')|].
  do 8 (split; [done|]). split; [rewrite R2; apply (bo_head _ _ _ _ _ _ _ _ Co')|by rewrite R1].
Qed.

(** ** Witnesses *)

#[local] Existing Instance keccak_hash.

(** The empty state can be opened. *)
Lemma empty_loadable `{Hash256} `{Store D} `{StateTrieLaws T D} (M : Z) : loadable (T := T) (D := D) M (zeros 32).
Proof.
  intros w. destruct (st_new_empty (wdb w) M) as (t & E & Ok & Ev). destruct (st_get_ok (wdb w) t (zeros 20) Ok) as (v & t' & Eg & _).
  pose proof (Ev (zeros 20)) as E0. unfold st_value in E0. rewrite Eg in E0. subst v.
  unfold State_New. rewrite E. cbn [obind]. eexists _, _, _, _, _. split; [reflexivity|].
  unfold GetStateObject, bindS, getS. cbn [new_state stateObjects]. rewrite lookup_empty.
  unfold trie_Get, bindS, getDb, get_trie, liftS. cbn [new_state s_trie tries wdb]. rewrite lookup_insert_eq, Eg. reflexivity.
Qed.

(** The blocks of the tree; the left one has a transaction. *)
Definition body_of (x : Header) : Body := mkBody (if hTime x =? 20 then [tx0] else []) [].
Definition block_of (x : Header) : Block := mkBlock x (b_Uncles (body_of x)) (b_Transactions (body_of x)) None.
Definition blocks1 (x : Header) (b : Body) : Prop := family x /\ b = body_of x.

Lemma block_of_valid x : family x -> valid blocks1 (block_of x).
Proof. intros F. split; [exact F|reflexivity]. Qed.

Lemma blocks1_ok : blocks_ok txs0 family blocks1.
Proof.
  split.
  - intros x b [F _]. exact F.
  - intros x b [_ ->]. unfold body_of. split; [|constructor]. destruct (hTime x =? 20); [constructor; [exact tx0_ok|constructor]|constructor].
  - intros x b [_ ->]. unfold body_of. destruct (hTime x =? 20); vm_compute; reflexivity.
  - intros x b t [_ ->] Ht. unfold body_of in Ht. cbn [b_Transactions] in Ht. destruct (hTime x =? 20).
    + apply list_elem_of_singleton in Ht as ->. exact (conj tx0_fits tx0_hash).
    + by apply not_elem_of_nil in Ht.
  - intros x b [F _]. revert x F. apply family_ind; reflexivity.
  - intros x b b' [_ ->] [_ ->]. reflexivity.
Qed.

Lemma no_keys_free : collision_free (fun _ => False).
Proof. intros x y []. Qed.

#[local] Instance OpenMem_database_laws : DatabaseLaws OpenMem := store_laws.
#[local] Instance no_keys_laws : StateTrieLaws SecureTrie OpenMem := SecureTrie_laws (fun _ => False) no_keys_free.

Abbreviation Chain := (BlockChain (D := OpenMem) (C := ListLRU) (T := SecureTrie)).

Definition opened : outcome chain_error (option Chain) :=
  let* (d, _) := write_genesis (open_mem ∅) [] genesis_blk in NewBlockChain 10 10 (fun _ => Panic) d.

Lemma genesis_not_bad : block_Hash genesis_blk ∉ BadHashes.
Proof. apply (bool_decide_unpack _). vm_compute. reflexivity. Qed.

Lemma opened_chain :
  exists (bc : Chain) a cb, opened = Ok (Some bc) /\ bchain_ok blocks0 txs0 family blocks1 genesis_header bc a cb /\ header cb = genesis_header /\
    weighs a genesis_header genesis_header 131072.
Proof.
  assert (G : gives (D := OpenMem) opened (fun o => exists (bc : Chain) a cb, o = Some bc /\
    bchain_ok blocks0 txs0 family blocks1 (header genesis_blk) bc a cb /\ header cb = header genesis_blk /\ forall x, stored a x <-> x = header genesis_blk)).
  { unfold opened. eapply gives_bind.
    - apply (write_genesis_ok blocks0 txs0 hashes0_apart family family_ok (open_mem ∅) [] genesis_blk); [|constructor|apply list_elem_of_here|exact genesis_blk_fits].
      apply rep_empty. intros k. apply lookup_empty.
    - intros [d b] [_ R]. apply (open_chain_ok blocks0 txs0 hashes0_apart family family_ok blocks1 blocks1_ok); [|reflexivity|apply empty_loadable|exact R| |exact genesis_not_bad].
      + exact (block_of_valid genesis_header (list_elem_of_here _ _)).
      + constructor; [split; [reflexivity|exact I]|constructor]. }
  destruct (reliable_gives _ _ OpenMem_reliable G) as (o & E & bc & a & cb & -> & Co & Ec & St).
  exists bc, a, cb. split; [exact E|]. split; [exact Co|]. split; [exact Ec|].
  exact (weighs_genesis a genesis_header (proj2 (St genesis_header) eq_refl) eq_refl).
Qed.

(** Writing the next block of the tree. *)
Lemma grow_block (bc : Chain) a cb x p tp tc (coin : bool) :
  bchain_ok blocks0 txs0 family blocks1 genesis_header bc a cb -> family x -> weighs a genesis_header p tp -> weighs a genesis_header (header cb) tc ->
  hParentHash x = Header_Hash p -> num x = num p + 1 -> num (header cb) + num x < 10 ->
  let t := hDifficulty x + tp in
  let wins := (tc <? t) || ((t =? tc) && coin) in
  exists bc' a', bc_WriteBlock 10 coin bc (block_of x) = Ok (inr (if wins then CanonStatTy else SideStatTy), bc') /\
    bchain_ok blocks0 txs0 family blocks1 genesis_header bc' a' (if wins then block_of x else cb) /\ weighs a' genesis_header x t /\
    forall y u, weighs a genesis_header y u -> weighs a' genesis_header y u.
Proof.
  intros Co Fx Wp Wc Ep Np Fu t wins. pose proof (bdb_indexed _ _ _ _ _ _ (bo_db _ _ _ _ _ _ _ _ Co)) as Ix.
  destruct (reliable_gives _ _ OpenMem_reliable (write_block_ok blocks0 txs0 hashes0_apart family family_ok blocks1 blocks1_ok genesis_header bc a cb Co
    (block_of x) p tp tc (block_of_valid x Fx) Wp Wc Ep Np 10 coin Fu)) as ([[e|st] bc'] & E & Hr); cbn [fst snd] in Hr; [destruct (Hr OpenMem_reliable)|].
  destruct Hr as (-> & a' & Co' & St & _). exists bc', a'. split; [exact E|]. split; [exact Co'|].
  pose proof (bdb_indexed _ _ _ _ _ _ (bo_db _ _ _ _ _ _ _ _ Co')) as Ix'.
  assert (Ws : forall y u, weighs a genesis_header y u -> weighs a' genesis_header y u).
  { intros y u. apply (weighs_sub blocks0 family family_ok a a'); [exact Ix|exact Ix'|]. intros z Sz. apply St. by right. }
  split; [|exact Ws]. assert (Sx : stored a' x) by (apply St; by left). pose proof (weighs_stored _ _ _ _ (Ws _ _ Wp)) as Sp.
  econstructor; [exact Sx| |exact (Ws _ _ Wp)]. unfold parent. rewrite Ep, Np. pose proof (num_range p). pose proof (num_range x).
  replace (u64 (num p + 1 - 1)) with (num p) by (rewrite u64_small by lia; lia). exact Sp.
Qed.

(** Two blocks on the child of the genesis; the second one loses the toss. *)
Definition forked_bc : outcome chain_error (option Chain) :=
  let* o := opened in
  match o with
  | None => Ok None
  | Some bc =>
      let* (_, bc) := bc_WriteBlock 10 false bc (block_of (child 10)) in
      let* (_, bc) := bc_WriteBlock 10 false bc (block_of left2) in
      let* (_, bc) := bc_WriteBlock 10 false bc (block_of right2) in
      Ok (Some bc)
  end.

Definition td3 : Z := 131072 + (131072 + 131072).

Lemma forked_blocks :
  exists (bc : Chain) a, forked_bc = Ok (Some bc) /\ bchain_ok blocks0 txs0 family blocks1 genesis_header bc a (block_of left2) /\
    weighs a genesis_header left2 td3 /\ weighs a genesis_header right2 td3.
Proof.
  unfold forked_bc. destruct opened_chain as (bc & a & cb & -> & Co & Ec & W). cbn [obind].
  destruct (grow_block bc a cb (child 10) genesis_header 131072 131072 false) as (bc1 & a1 & -> & Co1 & W1 & _);
    [exact Co|apply list_elem_of_further, list_elem_of_here|exact W|rewrite Ec; exact W|reflexivity|reflexivity|rewrite Ec; reflexivity|].
  cbn [obind]. destruct (grow_block bc1 a1 (block_of (child 10)) left2 (child 10) (131072 + 131072) (131072 + 131072) false) as (bc2 & a2 & -> & Co2 & W2 & Ws2);
    [exact Co1|do 2 apply list_elem_of_further; apply list_elem_of_here|exact W1|exact W1|reflexivity..|].
  cbn [obind]. destruct (grow_block bc2 a2 (block_of left2) right2 (child 10) (131072 + 131072) td3 false) as (bc3 & a3 & -> & Co3 & W3 & Ws3);
    [exact Co2|do 3 apply list_elem_of_further; apply list_elem_of_here|exact (Ws2 _ _ W1)|exact W2|reflexivity..|].
  cbn [obind]. exists bc3, a3. exact (conj eq_refl (conj Co3 (conj (Ws3 _ _ W2) W3))).
Qed.

Lemma right3_family : family right3.
Proof. do 4 apply list_elem_of_further. apply list_elem_of_here. Qed.

Lemma header_of x : header (block_of x) = x.
Proof. reflexivity. Qed.

Lemma on_parent p n t : hParentHash (on p n t) = p.
Proof. reflexivity. Qed.

Lemma right3_parent : hParentHash (header (block_of right3)) <> block_Hash (block_of left2).
Proof.
  unfold block_Hash. rewrite !header_of. unfold right3. rewrite on_parent. intros E. assert (E' : right2 = left2).
  { apply (u_inj blocks0 family family_ok); [do 3 apply list_elem_of_further; apply list_elem_of_here|do 2 apply list_elem_of_further; apply list_elem_of_here|exact E]. }
  apply (f_equal hTime) in E'. discriminate E'.
Qed.

(** The block on top of the second one takes over. *)
Lemma WriteBlock_canonical_witness :
  exists (bc : Chain) a, forked_bc = Ok (Some bc) /\
    gives (D := OpenMem) (bc_WriteBlock 10 false bc (block_of right3)) (fun r =>
      match r.1 with
      | inl _ => ~ reliable (D := OpenMem)
      | inr status => status = CanonStatTy /\
          exists a', bchain_ok blocks0 txs0 family blocks1 genesis_header r.2 a' (block_of right3) /\
            (forall y, stored a' y <-> y = right3 \/ stored a y) /\
            (forall n, (true = true -> 3 < n) -> aHash a' (KCanonical n) = aHash a (KCanonical n))
      end).
Proof.
  destruct forked_blocks as (bc & a & E & Co & Wl & Wr). exists bc, a. split; [exact E|].
  refine (WriteBlock_canonical blocks0 txs0 family blocks1 genesis_header bc a (block_of left2) (block_of right3) right2 td3 td3 10 false
    hashes0_apart family_ok blocks1_ok Co (block_of_valid right3 right3_family) Wr Wl _ _ _).
  - reflexivity.
  - reflexivity.
  - reflexivity.
Defined.

(** The transaction of the left block can no longer be looked up. *)
Lemma WriteBlock_reindexes_witness :
  exists (bc : Chain) a, forked_bc = Ok (Some bc) /\
    gives (D := OpenMem) (bc_WriteBlock 10 false bc (block_of right3)) (fun r =>
      match r.1 with
      | inl _ => ~ reliable (D := OpenMem)
      | inr _ => exists a' l m z, rep blocks0 txs0 (db_get (chainDb r.2)) a' /\ forks blocks1 a' left2 right3 l m z /\
          (forall h, h ∈ hashes m -> exists c i t, c ∈ m /\ transactions c !! i = Some t /\ tx_Hash t = h /\
             aTx a' h = Some (t, block_Hash c, NumberU64 c, u64 (Z.of_nat i))) /\
          (forall h, h ∈ hashes l -> h ∉ hashes m -> aTx a' h = None /\ aReceipt a' h = None) /\
          (forall h, h ∉ hashes l -> h ∉ hashes m -> aTx a' h = aTx a h)
      end).
Proof.
  destruct forked_blocks as (bc & a & E & Co & Wl & Wr). exists bc, a. split; [exact E|].
  refine (WriteBlock_reindexes blocks0 txs0 family blocks1 genesis_header bc a (block_of left2) (block_of right3) right2 td3 td3 10 false
    hashes0_apart family_ok blocks1_ok Co (block_of_valid right3 right3_family) Wr Wl _ _ _ right3_parent _).
  - reflexivity.
  - reflexivity.
  - reflexivity.
  - reflexivity.
Defined.

(** The header chain stays at the first block of the new branch. *)
Lemma reorg_leaves_head_behind_witness :
  exists (bc bc' : Chain) c, forked_bc = Ok (Some bc) /\ bc_WriteBlock 10 false bc (block_of right3) = Ok (inr CanonStatTy, bc') /\
    currentBlock bc' = Some (block_of right3) /\ currentHeader (hc bc') = Some (header c) /\ num (header c) < 3.
Proof.
  destruct forked_blocks as (bc & a & E & Co & Wl & Wr).
  pose proof (bdb_numbered blocks0 txs0 family family_ok blocks1 _ _ (bo_db _ _ _ _ _ _ _ _ Co)) as Nm.
  destruct (reorg_leaves_head_behind blocks0 txs0 family blocks1 genesis_header bc a (block_of left2) (block_of right3) right2 td3 td3 10 false)
    as (bc' & a' & c & z & Ew & _ & Cu & _ & _ & _ & _ & _ & Nc & Ch & _).
  - exact hashes0_apart.
  - exact family_ok.
  - exact blocks1_ok.
  - exact OpenMem_reliable.
  - exact Co.
  - exact (block_of_valid right3 right3_family).
  - exact Wr.
  - exact Wl.
  - reflexivity.
  - reflexivity.
  - reflexivity.
  - intros A. apply (ancestor_same a Nm) in A; [|discriminate]. apply (f_equal hTime) in A. discriminate A.
  - intros A. apply (ancestor_same a Nm) in A; [|discriminate]. apply (f_equal hTime) in A. discriminate A.
  - reflexivity.
  - exists bc, bc', c. exact (conj E (conj Ew (conj Cu (conj Ch Nc)))).
Defined.
