(* ===== verification/BlockValidator.v ===== *)
(** * Validation of blocks (src/blockchainCore/block_validator.go)

    [ValidateBlock] and the rules for uncles, on the block chain.  The proof of
    work and the clock are arguments, as for headers. *)

From S2P Require Import Prelude RlpEncode Helper Database TrieNode Trie TrieHash StateTrie State Transition Types Signing Validator ChainDb HeaderChain BlockChain.

Inductive validation_error :=
| KnownBlockError
| ParentMissing
| HeaderInvalid (e : header_error)
| TooManyUncles
| UncleNotUnique (i : nat)
| UncleIsAncestor (i : nat)
| UncleParentNotAncestor (i : nat)
| UncleHeaderInvalid (i : nat) (e : header_error)
| UncleRootMismatch
| TxRootMismatch.

Section BlockValidator.
Context `{Hash256} `{Store D} `{LRU C} `{StateTrie T D} (MaxTrieCacheGen : Z) (Verify : Block -> bool) (config : ChainConfig) (now : Z).

Abbreviation Chain := (BlockChain (D := D) (C := C) (T := T)).

(** The uncle set and the map of ancestors, after the loop over the ancestors. *)
Definition ancestor_uncles (l : list Block) : gset bytes := list_to_set (concat (map (fun b => map Header_Hash (uncles b)) l)).
Definition ancestor_map (l : list Block) : gmap bytes Block := foldl (fun m b => <[block_Hash b := b]> m) ∅ l.

(** The loop over the uncles, from the [i]-th on; [None] accepts. *)
Fixpoint check_uncles (i : nat) (seen : gset bytes) (ancestors : gmap bytes Block) (parentHash : bytes) (us : list Header) : option validation_error :=
  match us with
  | [] => None
  | uncle :: us =>
      let hash := Header_Hash uncle in
      if bool_decide (hash ∈ seen) then Some (UncleNotUnique i)
      else
        let seen := {[hash]} ∪ seen in
        match ancestors !! hash with
        | Some _ => Some (UncleIsAncestor i)
        | None =>
            match ancestors !! hParentHash uncle with
            | None => Some (UncleParentNotAncestor i)
            | Some a =>
                if bool_decide (hParentHash uncle = parentHash) then Some (UncleParentNotAncestor i)
                else
                  match ValidateHeader Verify config now uncle (header a) true true with
                  | inl e => Some (UncleHeaderInvalid i e)
                  | inr _ => check_uncles (S i) seen ancestors parentHash us
                  end
            end
        end
  end.

Definition VerifyUncles (bc : Chain) (block parent : Block) : outcome chain_error (option validation_error * Chain) :=
  if 2 <? len (uncles block) then Ok (Some TooManyUncles, bc)
  else
    let* (l, bc) := GetBlocksFromHash bc (hParentHash (header block)) 7 in
    let seen := {[block_Hash block]} ∪ ancestor_uncles l in
    let ancestors := <[block_Hash block := block]> (ancestor_map l) in
    Ok (check_uncles 0 seen ancestors (block_Hash parent) (uncles block), bc).

(** The part of [ValidateBlock] after the parent is known. *)
Definition validate_on (bc : Chain) (block parent : Block) : outcome chain_error (option validation_error * Chain) :=
  match ValidateHeader Verify config now (header block) (header parent) false false with
  | inl e => Ok (Some (HeaderInvalid e), bc)
  | inr _ =>
      let* (e, bc) := VerifyUncles bc block parent in
      match e with
      | Some e => Ok (Some e, bc)
      | None =>
          if negb (bool_decide (CalcUncleHash (uncles block) = hUncleHash (header block))) then Ok (Some UncleRootMismatch, bc)
          else
            let* txSha := read (txs_root (chainDb bc) (transactions block)) in
            if negb (bool_decide (txSha = hTxHash (header block))) then Ok (Some TxRootMismatch, bc) else Ok (None, bc)
      end
  end.

Definition ValidateBlock (bc : Chain) (block : Block) : outcome chain_error (option validation_error * Chain) :=
  let* (known, bc) := HasBlock bc (block_Hash block) in
  let* complete := (if known then has_state MaxTrieCacheGen (chainDb bc) (hRoot (header block)) else Ok false) in
  if complete then Ok (Some KnownBlockError, bc)
  else
    let* (parent, bc) := parent_block bc block in
    match parent with
    | None => Ok (Some ParentMissing, bc)
    | Some parent =>
        let* ok := has_state MaxTrieCacheGen (chainDb bc) (hRoot (header parent)) in
        if negb ok then Ok (Some ParentMissing, bc) else validate_on bc block parent
    end.
End BlockValidator.
