(* ===== verification/BlockValidatorSpec.v ===== *)
(** * The rules for uncles

    [VerifyUncles] looks back through the caches of the block chain; it accepts
    exactly the uncles that the rules on the stored ancestors allow. *)

From S2P Require Import Prelude RlpEncode RlpRaw RlpStream Helper Keccak Database TrieNode Trie TrieHash SecureTrie StateTrie State Transition Types TypesSpec Signing Validator ChainDb ChainDbSpec HeaderChain HeaderChainSpec BlockChain BlockChainSpec BlockValidator.

(** The headers from [x] down, at most [n] of them. *)
Fixpoint lineage (a : achain) (x : Header) (n : nat) : list Header :=
  match n with
  | O => []
  | S n => x :: match parent a x with Some y => lineage a y n | None => [] end
  end.

Section Spec.
Context `{Hash256} `{StoreLaws D} `{LRULaws C} `{StateTrie T D}.
Context (B X : bytes -> Prop) (U : Header -> Prop) (Uok : headers_ok B U) (V : Header -> Body -> Prop) (Vok : blocks_ok X U V).
Context (Verify : Block -> bool) (config : ChainConfig) (now : Z).

Implicit Types (bc : BlockChain (D := D) (C := C) (T := T)) (a : achain) (x y g p u : Header) (b c : Block).

(** ** Looking back *)

Lemma GetBlock_miss bc a h n :
  bdb_ok B X U V bc a -> length h = 32%nat -> num_ok n -> (forall x, stored a x -> h <> Header_Hash x) ->
  exists bc', bc_GetBlock bc h n = Ok (None, bc') /\ bquiet bc bc' /\ bdb_ok B X U V bc' a.
Proof.
  intros Ok L N No. unfold bc_GetBlock.
  pose proof (eq_sym (lru_get_peek (blockCache bc) h)) as G. pose proof (lru_peek_get (blockCache bc) h) as P.
  destruct (lru_get (blockCache bc) h) as [o ch]. cbn [fst snd] in G, P. destruct o as [b|].
  { destruct (b_cached _ _ _ _ _ _ Ok _ _ G) as (_ & Eb & Sb). by destruct (No _ Sb). }
  assert (Hc : forall k b, lru_peek ch k = Some b -> valid V b /\ k = block_Hash b /\ stored a (header b)).
  { intros k b. rewrite P. apply (b_cached _ _ _ _ _ _ Ok). }
  change (chainDb (set_blockCache bc ch)) with (chainDb bc). rewrite (reads_block _ _ _ _ (bdb_reads _ _ _ _ _ _ Ok)) by done.
  replace (aBlock a h n) with (@None Block).
  2: { unfold aBlock. destruct (aHeader a h n) as [x|] eqn:E; [|done]. destruct (bdb_indexed _ _ _ _ _ _ Ok h n x E) as (_ & -> & ->). by destruct (No x E). }
  cbn [read obind]. eexists. split; [done|]. split; [done|]. by apply blockCache_ok.
Qed.

(** The parent of the genesis is nowhere. *)
Context (g : Header) (Pg : hParentHash g = zeros 32).

Lemma blocks_loop_ok n bc a x t :
  bdb_ok B X U V bc a -> weighs a g x t ->
  exists bs bc', blocks_loop n bc (Header_Hash x) (num x) = Ok (bs, bc') /\ map header bs = lineage a x n /\ Forall (valid V) bs /\
    bquiet bc bc' /\ bdb_ok B X U V bc' a.
Proof.
  revert bc x t. induction n as [|n IH]; intros bc x t Ok W; [by exists [], bc|]. cbn [blocks_loop lineage].
  pose proof (bdb_indexed _ _ _ _ _ _ Ok) as Ix. pose proof (bdb_numbered B X U Uok V bc a Ok) as Nm.
  destruct (GetBlock_hit B X U Uok V Vok bc a x Ok (weighs_stored _ _ _ _ W)) as (b & bc1 & -> & Eb & Vb & Q1 & Ok1). cbn [obind]. rewrite Eb.
  inversion W as [S N|? y u S P Wy]; subst.
  - replace (parent a (header b)) with (@None Header).
    2: { destruct (parent a (header b)) as [q|] eqn:P; [|done]. apply (parent_num a Nm) in P. pose proof (num_range q). lia. }
    rewrite N, Pg.
    assert (M : exists bc2, blocks_loop n bc1 (zeros 32) (u64 (0 - 1)) = Prelude.Ok ([], bc2) /\ bquiet bc1 bc2 /\ bdb_ok B X U V bc2 a).
    { destruct n as [|n]; [by exists bc1|]. cbn [blocks_loop].
      destruct (GetBlock_miss bc1 a (zeros 32) (u64 (0 - 1)) Ok1) as (bc2 & -> & Q2 & Ok2); [done|by split; [|split]| |by exists bc2].
      intros x Sx E. by apply (u_nonzero B U Uok x (stored_U U a x Ix Sx)). }
    destruct M as (bc2 & -> & Q2 & Ok2). cbn [obind]. exists [b], bc2. split; [done|]. split; [done|]. split; [by constructor|]. split; [by etrans|done].
  - rewrite P. destruct (ok_parent B U Uok a _ y Ix P) as (Sy & Ey & Ny). rewrite Ey. pose proof (num_range y). pose proof (num_range (header b)).
    replace (u64 (num (header b) - 1)) with (num y) by (rewrite u64_small by lia; lia).
    destruct (IH bc1 y u Ok1 Wy) as (bs & bc2 & -> & Em & Fv & Q2 & Ok2). cbn [obind]. exists (b :: bs), bc2. split; [done|].
    split; [cbn; by rewrite Em|]. split; [by constructor|]. split; [by etrans|done].
Qed.

Lemma GetBlocksFromHash_ok bc a x t n :
  bdb_ok B X U V bc a -> weighs a g x t ->
  exists bs bc', GetBlocksFromHash bc (Header_Hash x) n = Ok (bs, bc') /\ map header bs = lineage a x (Z.to_nat n) /\ Forall (valid V) bs /\
    bquiet bc bc' /\ bdb_ok B X U V bc' a.
Proof.
  intros Ok W. pose proof (weighs_stored _ _ _ _ W) as S. pose proof (stored_U U a x (bdb_indexed _ _ _ _ _ _ Ok) S) as Ux. unfold GetBlocksFromHash.
  destruct (GetBlockNumber_ok B X U Uok (hc bc) a (Header_Hash x) (b_db _ _ _ _ _ _ Ok) (b_fresh _ _ _ _ _ _ Ok) (hash_length x) (u_key B U Uok x Ux))
    as (k & h & E & Q & Oh & F & [(y & Sy & Ey & ->)|[_ No]]); [|by destruct (No x S)].
  assert (y = x) as -> by (by apply (stored_inj B U Uok a); [apply (bdb_indexed _ _ _ _ _ _ Ok)|..]).
  destruct (on_hc_ok B X U V bc a _ _ _ Ok E Q Oh F) as (-> & Q1 & Ok1). cbn [obind].
  destruct (blocks_loop_ok (Z.to_nat n) _ a x t Ok1 W) as (bs & bc2 & E2 & Em & Fv & Q2 & Ok2). exists bs, bc2. do 3 (split; [done|]). split; [by etrans|done].
Qed.

(** ** The checks *)

Lemma ancestor_map_lookup l h :
  match ancestor_map l !! h with Some b => b ∈ l /\ block_Hash b = h | None => forall b, b ∈ l -> block_Hash b <> h end.
Proof.
  induction l as [|b l IH] using rev_ind; [cbn; rewrite lookup_empty; intros b Hb; by apply not_elem_of_nil in Hb|].
  unfold ancestor_map in *. rewrite foldl_app. cbn [foldl]. destruct (decide (block_Hash b = h)) as [<-|Ne].
  - rewrite lookup_insert_eq. split; [apply elem_of_app; right; left|done].
  - rewrite lookup_insert_ne by done. destruct (foldl _ _ l !! h) as [c|].
    + destruct IH. split; [apply elem_of_app; by left|done].
    + intros c Hc. apply elem_of_app in Hc as [Hc|Hc]; [by apply IH|]. by apply list_elem_of_singleton in Hc as ->.
Qed.

Lemma elem_ancestor_uncles l h : h ∈ ancestor_uncles l <-> exists b u, b ∈ l /\ u ∈ uncles b /\ h = Header_Hash u.
Proof.
  unfold ancestor_uncles. rewrite elem_of_list_to_set, list_elem_of_In, in_concat. split.
  - intros (hs & Hs & Hh). apply in_map_iff in Hs as (b & <- & Hb). apply in_map_iff in Hh as (u & <- & Hu).
    exists b, u. by rewrite !list_elem_of_In.
  - intros (b & u & Hb & Hu & ->). exists (map Header_Hash (uncles b)). apply list_elem_of_In in Hb, Hu. split; apply in_map_iff; eauto.
Qed.

Lemma check_uncles_ok us i seen am ph :
  (check_uncles Verify config now i seen am ph us = None) <->
  NoDup (map Header_Hash us) /\
  forall u, u ∈ us -> (Header_Hash u ∉ seen) /\ am !! Header_Hash u = None /\
    exists b, am !! hParentHash u = Some b /\ hParentHash u <> ph /\ ValidateHeader Verify config now u (header b) true true = inr tt.
Proof.
  revert i seen. induction us as [|u us IH]; intros i seen; cbn [check_uncles].
  { split; [|done]. intros _. split; [constructor|]. intros u Hu. by apply not_elem_of_nil in Hu. }
  cbn [map]. rewrite NoDup_cons.
  case_bool_decide as E1; [split; [done|]; intros [_ Hu]; by destruct (Hu u) as [? _]; [left|]|].
  destruct (am !! Header_Hash u) eqn:E2; [split; [done|]; intros [_ Hu]; destruct (Hu u) as (_ & ? & _); [left|congruence]|].
  destruct (am !! hParentHash u) as [b|] eqn:E3; [|split; [done|]; intros [_ Hu]; destruct (Hu u) as (_ & _ & ? & ? & _); [left|congruence]].
  case_bool_decide as E4; [split; [done|]; intros [_ Hu]; by destruct (Hu u) as (_ & _ & ? & _ & ? & _); [left|]|].
  destruct (ValidateHeader Verify config now u (header b) true true) as [e|[]] eqn:E5.
  { split; [done|]. intros [_ Hu]. destruct (Hu u) as (_ & _ & c & Ec & _ & Ev); [left|]. congruence. }
  rewrite IH. split.
  - intros [Nd Hu]. split; [split; [|done]|].
    + intros Hin. apply list_elem_of_fmap in Hin as (v & Ev & Hv). destruct (Hu v Hv) as [Ns _]. apply Ns, elem_of_union_l. rewrite Ev. by apply elem_of_singleton.
    + intros v Hv. apply elem_of_cons in Hv as [->|Hv]; [eauto 10|]. destruct (Hu v Hv) as [Ns ?]. split; [|done]. intros Hs. by apply Ns, elem_of_union_r.
  - intros [[Nu Nd] Hu]. split; [done|]. intros v Hv. destruct (Hu v) as [? ?]; [by right|]. split; [|done].
    intros [E%elem_of_singleton|E]%elem_of_union; [|done]. apply Nu. apply list_elem_of_fmap. exists v. done.
Qed.

(** The rules: at most two distinct uncles; none of them is the block, one of its
    last seven ancestors, or an uncle of one of those; the parent of each is one of
    them but not the parent of the block, and the header is valid on top of it. *)
Definition uncles_allowed a p b : Prop :=
  len (uncles b) <= 2 /\ NoDup (map Header_Hash (uncles b)) /\
  forall u, u ∈ uncles b ->
    (forall q, q ∈ header b :: lineage a p 7 -> Header_Hash u <> Header_Hash q) /\
    (forall q body v, q ∈ lineage a p 7 -> aBody a (Header_Hash q) (num q) = Some body -> v ∈ b_Uncles body -> Header_Hash u <> Header_Hash v) /\
    exists q, q ∈ header b :: lineage a p 7 /\ hParentHash u = Header_Hash q /\ q <> p /\ ValidateHeader Verify config now u q true true = inr tt.

Lemma lineage_stored a x n y t : indexed U a -> weighs a g x t -> y ∈ lineage a x n -> stored a y.
Proof.
  intros Ix. revert x t. induction n as [|n IH]; intros x t W Hy; [by apply not_elem_of_nil in Hy|]. cbn [lineage] in Hy.
  apply elem_of_cons in Hy as [->|Hy]; [by eapply weighs_stored|]. destruct (parent a x) as [z|] eqn:P; [|by apply not_elem_of_nil in Hy].
  inversion W as [S N|? z' u S P' Wz]; subst.
  - destruct (ok_parent B U Uok a _ _ Ix P) as (_ & _ & ?). pose proof (num_range z). lia.
  - rewrite P in P'. injection P' as <-. by eapply IH.
Qed.

Section Verify.
Context (bc : BlockChain (D := D) (C := C) (T := T)) (a : achain) (b pb : Block) (tp : Z) (bs : list Block).
Context (Hb : bdb_ok B X U V bc a) (Ub : U (header b)) (Wp : weighs a g (header pb) tp).
Context (Em : map header bs = lineage a (header pb) 7) (Fv : Forall (valid V) bs).

Let am : gmap bytes Block := <[block_Hash b := b]> (ancestor_map bs).
Let family_ : list Header := header b :: lineage a (header pb) 7.

Lemma lineage_block q : q ∈ lineage a (header pb) 7 <-> exists c, c ∈ bs /\ header c = q.
Proof. rewrite <- Em, list_elem_of_fmap. split; intros (c & E1 & E2); exists c; naive_solver. Qed.

Lemma family_U q : q ∈ family_ -> U q.
Proof.
  intros Hq. apply elem_of_cons in Hq as [->|Hq]; [done|]. apply (stored_U U a); [apply (bdb_indexed _ _ _ _ _ _ Hb)|].
  eapply lineage_stored; [apply (bdb_indexed _ _ _ _ _ _ Hb)|exact Wp|exact Hq].
Qed.

Lemma am_Some h c : am !! h = Some c -> header c ∈ family_ /\ block_Hash c = h.
Proof.
  unfold am. destruct (decide (block_Hash b = h)) as [<-|Ne]; [rewrite lookup_insert_eq; intros [= <-]; split; [left|done]|].
  rewrite lookup_insert_ne by done. intros E. pose proof (ancestor_map_lookup bs h) as L. rewrite E in L. destruct L as [Hc Eh].
  split; [right; apply lineage_block; eauto|done].
Qed.

Lemma am_None h : am !! h = None <-> forall q, q ∈ family_ -> h <> Header_Hash q.
Proof.
  split.
  - unfold am. intros E q Hq ->. destruct (decide (block_Hash b = Header_Hash q)) as [Eq|Ne]; [by rewrite Eq, lookup_insert_eq in E|].
    rewrite lookup_insert_ne in E by done. apply elem_of_cons in Hq as [->|Hq]; [by apply Ne|]. apply lineage_block in Hq as (c & Hc & <-).
    pose proof (ancestor_map_lookup bs (Header_Hash (header c))) as L. rewrite E in L. by destruct (L c Hc).
  - intros Hn. destruct (am !! h) as [c|] eqn:E; [|done]. destruct (am_Some h c E) as [Hc <-]. by destruct (Hn _ Hc).
Qed.

Lemma am_parent u (P : Header -> Prop) :
  (exists c, am !! hParentHash u = Some c /\ P (header c)) <-> (exists q, q ∈ family_ /\ hParentHash u = Header_Hash q /\ P q).
Proof.
  split.
  - intros (c & E & Pc). destruct (am_Some _ c E) as [Hc Eh]. exists (header c). done.
  - intros (q & Hq & Eq & Pq). destruct (am !! hParentHash u) as [c|] eqn:E; [|by destruct (proj1 (am_None _) E q Hq)].
    destruct (am_Some _ c E) as [Hc Eh]. exists c. split; [done|]. assert (header c = q) as -> by (apply (u_inj B U Uok); [by apply family_U..|unfold block_Hash in Eh; congruence]). done.
Qed.

Lemma seen_iff h :
  (h ∉ {[block_Hash b]} ∪ ancestor_uncles bs) <->
  h <> block_Hash b /\ forall q body v, q ∈ lineage a (header pb) 7 -> aBody a (Header_Hash q) (num q) = Some body -> v ∈ b_Uncles body -> h <> Header_Hash v.
Proof.
  rewrite not_elem_of_union, not_elem_of_singleton, elem_ancestor_uncles.
  assert (Bd : forall c, c ∈ bs -> aBody a (Header_Hash (header c)) (num (header c)) = Some (block_Body c)).
  { intros c Hc. assert (Vc : valid V c) by (eapply Forall_forall; [exact Fv|]; exact Hc).
    destruct (b_full _ _ _ _ _ _ Hb (header c)) as (body & Vx & Ebody).
    { eapply lineage_stored; [apply (bdb_indexed _ _ _ _ _ _ Hb)|exact Wp|]. apply lineage_block. eauto. }
    rewrite Ebody. f_equal. by apply (v_one X U V Vok (header c)). }
  split; intros [N1 N2]; (split; [done|]).
  - intros q body v Hq Eb Hv ->. apply lineage_block in Hq as (c & Hc & <-). rewrite (Bd c Hc) in Eb. injection Eb as <-. apply N2. by exists c, v.
  - intros (c & v & Hc & Hv & ->). eapply (N2 (header c) (block_Body c) v); [apply lineage_block; eauto|by apply Bd|done|done].
Qed.

Lemma checks_allowed :
  (len (uncles b) <= 2) -> (check_uncles Verify config now 0 ({[block_Hash b]} ∪ ancestor_uncles bs) am (block_Hash pb) (uncles b) = None) <-> uncles_allowed a (header pb) b.
Proof.
  intros Le. rewrite check_uncles_ok. unfold uncles_allowed. fold family_. split.
  - intros [Nd Hu]. split; [done|]. split; [done|]. intros u Hin. destruct (Hu u Hin) as (Hs & Hn & c & Ec & Ep & Ev).
    apply seen_iff in Hs as [_ Hs]. split; [by apply am_None|]. split; [done|].
    destruct (proj1 (am_parent u (fun q => q <> header pb /\ ValidateHeader Verify config now u q true true = inr tt))) as (q & Hq & Eq & Nq & Vq);
      [|exists q; done]. exists c. split; [done|]. split; [|done]. intros E. apply Ep. destruct (am_Some _ c Ec) as [_ <-]. unfold block_Hash. by rewrite E.
  - intros (_ & Nd & Hu). split; [done|]. intros u Hin. destruct (Hu u Hin) as (Hn & Hs & q & Hq & Eq & Nq & Vq).
    split; [apply seen_iff; split; [apply (Hn (header b)); left|done]|]. split; [by apply am_None|].
    destruct (proj2 (am_parent u (fun q => q <> header pb /\ ValidateHeader Verify config now u q true true = inr tt))) as (c & Ec & Nc & Vc); [eauto|].
    exists c. split; [done|]. split; [|done]. intros E. apply Nc. destruct (am_Some _ c Ec) as [Hc Eh].
    apply (u_inj B U Uok); [by apply family_U|apply (stored_U U a); [apply (bdb_indexed _ _ _ _ _ _ Hb)|by eapply weighs_stored]|]. by rewrite <- Eh in E.
Qed.
End Verify.
End Spec.

(** C20: the rules for uncles.  On a chain whose blocks are stored and whose caches
    agree with the database, [VerifyUncles] returns without changing the chain, and
    accepts a block whose parent is stored exactly if its uncles follow the rules:
    at most two, with distinct hashes; none of them the block itself, one of its
    last seven ancestors or an uncle of one of those; each a child of one of the
    last seven ancestors other than the parent (or of the block itself), with a
    header that is valid on top of it, proof of work included.  Hashes of
    headers are taken to be distinct and not zero. *)
Theorem VerifyUncles_correct `{Hash256} `{StoreLaws D} `{LRULaws C} `{StateTrie T D} (B X : bytes -> Prop) (U : Header -> Prop)
    (V : Header -> Body -> Prop) (Verify : Block -> bool) (config : ChainConfig) (now : Z) (g : Header)
    (bc : BlockChain (D := D) (C := C) (T := T)) (a : achain) (b pb : Block) (tp : Z) :
  headers_ok B U -> blocks_ok X U V -> bdb_ok B X U V bc a -> hParentHash g = zeros 32 -> U (header b) -> weighs a g (header pb) tp ->
  hParentHash (header b) = block_Hash pb ->
  exists r bc', VerifyUncles Verify config now bc b pb = Ok (r, bc') /\ bquiet bc bc' /\ bdb_ok B X U V bc' a /\
    (r = None <-> uncles_allowed Verify config now a (header pb) b).
Proof.
  intros Uok Vok Hb Pg Ub Wp Ep. unfold VerifyUncles. destruct (Z.ltb_spec 2 (len (uncles b))) as [Gt|Le].
  - exists (Some TooManyUncles), bc. do 3 (split; [done|]). split; [done|]. intros [? _]. lia.
  - rewrite Ep. destruct (GetBlocksFromHash_ok B X U Uok V Vok g Pg bc a (header pb) tp 7 Hb Wp) as (bs & bc' & E & Em & Fv & Q & Hb').
    change (block_Hash pb) with (Header_Hash (header pb)) at 1. rewrite E. cbn [obind]. eexists _, bc'. split; [done|]. split; [done|]. split; [done|].
    by apply (checks_allowed B X U Uok V Vok Verify config now g Pg bc a b pb tp bs).
Qed.

(** ** Witness *)

#[local] Existing Instance keccak_hash.

Definition rules0 : ChainConfig :=
  {| HomesteadBlock := None; SiotImpr0Block := None; SiotImpr1Block := None; SiotImpr2Block := None; DAOForkBlock := None; DAOForkSupport := false;
     SiotImpr0Hash := zeros 32; ChainId := 1 |}.

(** A block with a repeated uncle is refused, whatever the chain holds. *)
Definition twins : Block := mkBlock right3 [left2; left2] [] None.

Lemma right3_on_right2 : hParentHash right3 = block_Hash (block_of right2).
Proof. unfold block_Hash. rewrite header_of. unfold right3. apply on_parent. Qed.

Lemma VerifyUncles_correct_witness :
  exists bc a r1 r2 bc1 bc2, forked_bc = Ok (Some bc) /\
    VerifyUncles (fun _ => true) rules0 0 bc (block_of right3) (block_of right2) = Ok (r1, bc1) /\
    VerifyUncles (fun _ => true) rules0 0 bc twins (block_of right2) = Ok (r2, bc2) /\
    uncles_allowed (fun _ => true) rules0 0 a right2 (block_of right3) /\ r1 = None /\ r2 <> None.
Proof.
  destruct forked_blocks as (bc & a & E & Co & Wl & Wr). pose proof (bo_db _ _ _ _ _ _ _ _ Co) as Hb.
  destruct (VerifyUncles_correct blocks0 txs0 family blocks1 (fun _ => true) rules0 0 genesis_header bc a (block_of right3) (block_of right2) td3
    family_ok blocks1_ok Hb eq_refl right3_family Wr right3_on_right2) as (r1 & bc1 & E1 & _ & _ & A1).
  destruct (VerifyUncles_correct blocks0 txs0 family blocks1 (fun _ => true) rules0 0 genesis_header bc a twins (block_of right2) td3
    family_ok blocks1_ok Hb eq_refl right3_family Wr right3_on_right2) as (r2 & bc2 & E2 & _ & _ & A2).
  assert (Al : uncles_allowed (fun _ => true) rules0 0 a right2 (block_of right3)).
  { split; [discriminate|]. split; [constructor|]. intros u Hu. apply not_elem_of_nil in Hu. destruct Hu. }
  exists bc, a, r1, r2, bc1, bc2. split; [exact E|]. split; [exact E1|]. split; [exact E2|]. split; [exact Al|]. split; [exact (proj2 A1 Al)|].
  intros N. destruct (proj1 A2 N) as (_ & Nd & _). cbn [map twins uncles] in Nd. apply NoDup_cons in Nd as [Hn _]. exact (Hn (list_elem_of_here _ _)).
Defined.
