(* ===== verification/ManagedState.v ===== *)
(** * Managed nonces (src/blockchainCore/state/managed_state.go)

    The nonces the transaction pool hands out on top of a state.  The pool and
    its managed state see a state through the class [NonceState]; the abstract
    accounts that the state database implements are an instance.  A managed
    account holds a pointer to an account object that nothing reads; it is left
    out.  A copy of a state is a value: the nonces set in it are never flushed to
    the tries. *)

From S2P Require Import Prelude RlpEncode Helper StateTrie State StateSpec.

(** ** What the pool sees of a state *)

Class NonceState (S : Type) := {
  ns_Exist : S -> bytes -> bool;
  ns_GetNonce : S -> bytes -> Z;
  ns_GetBalance : S -> bytes -> Z;
  (** [GetOrNewStateObject], and setting the nonce of the object it returns *)
  ns_GetOrNew : S -> bytes -> S;
  ns_SetNonce : S -> bytes -> Z -> S
}.

Class NonceStateLaws (S : Type) `{NonceState S} := {
  nonce_GetOrNew s a b : ns_GetNonce (ns_GetOrNew s a) b = ns_GetNonce s b;
  exist_GetOrNew s a b : ns_Exist (ns_GetOrNew s a) b = bool_decide (b = a) || ns_Exist s b;
  nonce_SetNonce s a n b : ns_GetNonce (ns_SetNonce s a n) b = if decide (b = a) then n else ns_GetNonce s b;
  exist_SetNonce s a n b : ns_Exist (ns_SetNonce s a n) b = bool_decide (b = a) || ns_Exist s b
}.

(** The accounts of a state database; new ones start with the nonce
    [StartingNonce]. *)
Section Accounts.
Context `{Hash256} (StartingNonce : Z).

Definition account_exists (A : astate) (a : bytes) : bool := match accts A a with Some _ => true | None => false end.

#[local] Instance astate_nonces : NonceState astate := {
  ns_Exist := account_exists;
  ns_GetNonce A a := match accts A a with Some x => a_nonce x | None => StartingNonce end;
  ns_GetBalance A a := match accts A a with Some x => a_balance x | None => 0 end;
  ns_GetOrNew A a := upd A a (Some (acct_of StartingNonce A a));
  ns_SetNonce A a n := upd A a (Some (StateSpec.with_nonce (acct_of StartingNonce A a) n))
}.

#[local] Instance astate_nonce_laws : NonceStateLaws astate.
Proof.
  split; intros A a; cbn; unfold account_exists, acct_of; cbn; intros; case_bool_decide || idtac; case_decide; subst; try done; by destruct (accts A a).
Qed.
End Accounts.

(** ** The managed state *)

Section ManagedState.
Context {S : Type} `{!NonceState S}.

Record maccount := mkMaccount { nstart : Z; nonces : list bool }.

Record ManagedState := mkManaged { ms_StateDB : S; ms_accounts : gmap bytes maccount }.
Implicit Types ms : ManagedState.

Definition ManageState (statedb : S) : ManagedState := mkManaged statedb ∅.

Definition ms_SetState ms (statedb : S) : ManagedState := mkManaged statedb (ms_accounts ms).

Definition newAccount (s : S) (addr : bytes) : maccount := mkMaccount (ns_GetNonce s addr) [].

Definition tracked (a : maccount) : Z := u64 (len (nonces a) + nstart a).

Definition put_account ms (addr : bytes) (a : maccount) : ManagedState := mkManaged (ms_StateDB ms) (<[addr := a]> (ms_accounts ms)).

Definition getAccount ms (addr : bytes) : maccount * ManagedState :=
  match ms_accounts ms !! addr with
  | None =>
      let s := ns_GetOrNew (ms_StateDB ms) addr in
      let a := newAccount s addr in (a, mkManaged s (<[addr := a]> (ms_accounts ms)))
  | Some a =>
      if ns_Exist (ms_StateDB ms) addr && (tracked a <? ns_GetNonce (ms_StateDB ms) addr) then
        let a := newAccount (ms_StateDB ms) addr in (a, put_account ms addr a)
      else (a, ms)
  end.

Definition hasAccount ms (addr : bytes) : bool := bool_decide (is_Some (ms_accounts ms !! addr)).

(** A reslice beyond the slice cannot happen: the length is checked first. *)
Definition RemoveNonce ms (addr : bytes) (n : Z) : ManagedState :=
  if hasAccount ms addr then
    let '(a, ms) := getAccount ms addr in
    let k := u64 (n - nstart a) in
    if k <=? len (nonces a) then put_account ms addr (mkMaccount (nstart a) (take (Z.to_nat k) (nonces a))) else ms
  else ms.

Fixpoint first_free (i : Z) (l : list bool) : option Z :=
  match l with [] => None | b :: l => if b then first_free (i + 1) l else Some i end.

Definition NewNonce ms (addr : bytes) : Z * ManagedState :=
  let '(a, ms) := getAccount ms addr in
  match first_free 0 (nonces a) with
  | Some i => (u64 (nstart a + i), ms)
  | None =>
      let a := mkMaccount (nstart a) (nonces a ++ [true]) in
      (u64 (len (nonces a) - 1 + nstart a), put_account ms addr a)
  end.

Definition ms_GetNonce ms (addr : bytes) : Z * ManagedState :=
  if hasAccount ms addr then let '(a, ms) := getAccount ms addr in (tracked a, ms) else (ns_GetNonce (ms_StateDB ms) addr, ms).

Definition ms_SetNonce ms (addr : bytes) (nonce : Z) : ManagedState :=
  let s := ns_SetNonce (ms_StateDB ms) addr nonce in mkManaged s (<[addr := newAccount s addr]> (ms_accounts ms)).

(** ** The next nonce of every account *)

Context `{!NonceStateLaws S}.

(** What [GetNonce] answers. *)
Definition next_nonce ms (addr : bytes) : Z := (ms_GetNonce ms addr).1.

(** Nonces are machine words and the slots of an account are all taken. *)
Record ms_ok ms : Prop := {
  ms_words addr : 0 <= ns_GetNonce (ms_StateDB ms) addr < 2 ^ 64;
  ms_taken addr a : ms_accounts ms !! addr = Some a -> Forall (eq true) (nonces a) /\ 0 <= nstart a < 2 ^ 64
}.

Lemma next_nonce_eq ms addr : ms_ok ms -> next_nonce ms addr =
  match ms_accounts ms !! addr with
  | None => ns_GetNonce (ms_StateDB ms) addr
  | Some a => if ns_Exist (ms_StateDB ms) addr then Z.max (tracked a) (ns_GetNonce (ms_StateDB ms) addr) else tracked a
  end.
Proof.
  intros Ok. pose proof (ms_words _ Ok addr) as W. unfold next_nonce, ms_GetNonce, hasAccount, getAccount.
  destruct (ms_accounts ms !! addr) as [a|] eqn:E; [|done]. rewrite bool_decide_true by eauto.
  destruct (ns_Exist _ _); [|done]. cbn [andb]. destruct (Z.ltb_spec (tracked a) (ns_GetNonce (ms_StateDB ms) addr)) as [L|L]; cbn; [|lia].
  unfold tracked at 1. cbn. rewrite u64_small by lia. lia.
Qed.

Lemma put_account_ok ms addr a : ms_ok ms -> Forall (eq true) (nonces a) -> 0 <= nstart a < 2 ^ 64 -> ms_ok (put_account ms addr a).
Proof. intros Ok F R. split; [apply Ok|]. intros b x. cbn. intros [[_ <-]|[_ E]]%lookup_insert_Some; [done|by eapply Ok]. Qed.

Lemma put_account_next ms addr a other : ms_ok ms -> Forall (eq true) (nonces a) -> 0 <= nstart a < 2 ^ 64 ->
  next_nonce (put_account ms addr a) other =
    if decide (other = addr) then if ns_Exist (ms_StateDB ms) addr then Z.max (tracked a) (ns_GetNonce (ms_StateDB ms) addr) else tracked a
    else next_nonce ms other.
Proof.
  intros Ok F R. rewrite !next_nonce_eq by eauto using put_account_ok. cbn. destruct (decide (other = addr)) as [->|Hne].
  - by rewrite lookup_insert_eq.
  - by rewrite lookup_insert_ne by done.
Qed.

(** [getAccount] makes the account managed and changes no nonce. *)
Lemma getAccount_ok ms addr : ms_ok ms ->
  let '(a, ms') := getAccount ms addr in
  ms_ok ms' /\ ms_accounts ms' !! addr = Some a /\ tracked a = next_nonce ms addr /\
  (ns_Exist (ms_StateDB ms') addr = true -> ns_GetNonce (ms_StateDB ms') addr <= tracked a) /\
  forall other, next_nonce ms' other = next_nonce ms other.
Proof.
  intros Ok. pose proof (ms_words _ Ok addr) as W.
  assert (Et : forall s, ns_GetNonce s addr = ns_GetNonce (ms_StateDB ms) addr -> tracked (newAccount s addr) = ns_GetNonce (ms_StateDB ms) addr)
    by (intros s E; unfold newAccount, tracked; cbn; by rewrite E, u64_small by lia).
  rewrite (next_nonce_eq ms addr Ok). unfold getAccount. destruct (ms_accounts ms !! addr) as [a|] eqn:E.
  - destruct (ns_Exist (ms_StateDB ms) addr) eqn:Ee; cbn [andb]; [|rewrite E; split_and!; congruence || done].
    destruct (Z.ltb_spec (tracked a) (ns_GetNonce (ms_StateDB ms) addr)) as [L|L]; [|rewrite E; split_and!; done || lia].
    cbn. rewrite lookup_insert_eq, Et by done. split_and!; [by apply put_account_ok|done|lia|done|].
    intros other. rewrite put_account_next, Et, Ee by done. destruct (decide (other = addr)) as [->|]; [|done].
    rewrite (next_nonce_eq ms addr Ok), E, Ee. lia.
  - cbn. rewrite lookup_insert_eq, Et, nonce_GetOrNew by apply nonce_GetOrNew.
    assert (Ok' : ms_ok (mkManaged (ns_GetOrNew (ms_StateDB ms) addr) (<[addr := newAccount (ns_GetOrNew (ms_StateDB ms) addr) addr]> (ms_accounts ms)))).
    { split; cbn; [intros b; rewrite nonce_GetOrNew; apply Ok|]. intros b x [[_ <-]|[_ Ex]]%lookup_insert_Some; [|by eapply Ok].
      split; [done|]. cbn. by rewrite nonce_GetOrNew. }
    split_and!; [done|done|done|done|]. intros other. rewrite !next_nonce_eq by done. cbn. rewrite nonce_GetOrNew, exist_GetOrNew.
    destruct (decide (other = addr)) as [->|Hne]; [|by rewrite lookup_insert_ne, bool_decide_false by done].
    rewrite lookup_insert_eq, bool_decide_true, E, Et by (done || apply nonce_GetOrNew). cbn. lia.
Qed.

Lemma GetNonce_ok ms addr : ms_ok ms ->
  ms_ok (ms_GetNonce ms addr).2 /\ forall other, next_nonce (ms_GetNonce ms addr).2 other = next_nonce ms other.
Proof.
  intros Ok. unfold ms_GetNonce. destruct (hasAccount _ _); [|done]. pose proof (getAccount_ok ms addr Ok) as G.
  destruct (getAccount ms addr). cbn. split; apply G.
Qed.

Lemma SetNonce_ok ms addr n : ms_ok ms -> 0 <= n < 2 ^ 64 ->
  ms_ok (ms_SetNonce ms addr n) /\ forall other, next_nonce (ms_SetNonce ms addr n) other = if decide (other = addr) then n else next_nonce ms other.
Proof.
  intros Ok Hn. assert (Ok' : ms_ok (ms_SetNonce ms addr n)).
  { split; cbn.
    - intros b. rewrite nonce_SetNonce. destruct (decide (b = addr)); [done|apply Ok].
    - intros b x [[_ <-]|[_ E]]%lookup_insert_Some; [|by eapply Ok]. cbn. by rewrite nonce_SetNonce, decide_True. }
  split; [done|]. intros other. rewrite !next_nonce_eq by done. cbn. rewrite nonce_SetNonce, exist_SetNonce.
  destruct (decide (other = addr)) as [->|Hne]; [|by rewrite lookup_insert_ne, bool_decide_false by done].
  rewrite lookup_insert_eq, bool_decide_true by done. unfold newAccount, tracked. cbn.
  rewrite nonce_SetNonce, decide_True, u64_small by (done || lia). lia.
Qed.

Lemma u64_succ x : u64 x < 2 ^ 64 - 1 -> u64 (x + 1) = u64 x + 1.
Proof.
  unfold u64. intros L. pose proof (Z.mod_pos_bound x (2 ^ 64) ltac:(lia)). rewrite <- Zplus_mod_idemp_l. apply Z.mod_small. lia.
Qed.

Lemma first_free_none i l : Forall (eq true) l -> first_free i l = None.
Proof. intros F. revert i. by induction F as [|b l <- F IH]; intros i; cbn. Qed.

(** A new nonce is the next one, and the one after it is next. *)
Lemma NewNonce_next ms addr : ms_ok ms -> next_nonce ms addr < 2 ^ 64 - 1 ->
  exists ms', NewNonce ms addr = (next_nonce ms addr, ms') /\ ms_ok ms' /\
    forall other, next_nonce ms' other = if decide (other = addr) then next_nonce ms addr + 1 else next_nonce ms other.
Proof.
  intros Ok Hn. pose proof (getAccount_ok ms addr Ok) as G. unfold NewNonce. destruct (getAccount ms addr) as [a ms1].
  destruct G as (Ok1 & E1 & Et & Le & Ne). destruct (ms_taken _ Ok1 _ _ E1) as [F R]. rewrite (first_free_none 0 _ F).
  assert (F' : Forall (eq true) (nonces a ++ [true])) by (apply Forall_app; by repeat constructor). cbn [nonces nstart].
  assert (T1 : tracked (mkMaccount (nstart a) (nonces a ++ [true])) = next_nonce ms addr + 1).
  { rewrite <- Et in *. unfold tracked in *. cbn. rewrite length_app. cbn.
    replace (Z.of_nat (length (nonces a) + 1) + nstart a) with (len (nonces a) + nstart a + 1) by lia. by apply u64_succ. }
  exists (put_account ms1 addr (mkMaccount (nstart a) (nonces a ++ [true]))). split; [|split; [by apply put_account_ok|]].
  - apply pair_equal_spec. split; [|reflexivity]. rewrite <- Et. unfold tracked. f_equal. rewrite length_app. cbn. lia.
  - intros other. rewrite put_account_next, T1 by done. destruct (decide (other = addr)) as [->|]; [|apply Ne].
    destruct (ns_Exist _ _) eqn:Ee; [|done]. specialize (Le eq_refl). lia.
Qed.
End ManagedState.
