(* ===== verification/TxPool.v ===== *)
(** * The transaction pool (src/blockchainCore/tx_pool.go)

    The pool with its pending and queued lists per account, the lookup table of
    all transactions, heartbeats and the set of local transactions, and all of its
    operations.  Callbacks and the clock are an environment [Env] that holds
    during one operation, under the lock of the pool.  Go ranges over maps in no
    particular order and sorts equal heartbeats in no particular order: the class
    [PoolOrder].  The sender of a transaction is computed without its cache, which
    [SigningSpec] shows to be transparent.  The priority queue of the vendored
    package prque is a heap on a stack of items, here a list.  Metrics, logging,
    the posted events and the goroutines around the event and eviction loops are
    left out; what the loops do on an event is modelled. *)

From stdpp Require Import sorting.
From S2P Require Import Prelude RlpEncode Helper Keccak Database StateTrie State Transition Types Heap TxList Signing ManagedState.

(** ** Limits

    The limits are variables of the package, which the code never assigns.  The
    pool is modelled for any values of them that are [uint64] and guarantee each
    account at least one slot; [default_limits] are those of the source. *)
Class PoolLimits := {
  minPendingPerAccount : Z;
  maxPendingTotal : Z;
  maxQueuedPerAccount : Z;
  maxQueuedInTotal : Z;
  min_pending_pos : 1 <= minPendingPerAccount;
  max_pending_nonneg : 0 <= maxPendingTotal;
  max_account_nonneg : 0 <= maxQueuedPerAccount;
  max_queued_nonneg : 0 <= maxQueuedInTotal
}.

Definition default_limits : PoolLimits := {|
  minPendingPerAccount := 16;
  maxPendingTotal := 4096;
  maxQueuedPerAccount := 64;
  maxQueuedInTotal := 1024;
  min_pending_pos := ltac:(lia);
  max_pending_nonneg := ltac:(lia);
  max_account_nonneg := ltac:(lia);
  max_queued_nonneg := ltac:(lia)
|}.

(** Times are nanoseconds since the zero time. *)
Definition hour : Z := 3600 * 10 ^ 9.
Definition maxQueuedLifetime : Z := 3 * hour.
Definition txSetDuration : Z := 2 * hour.

Inductive pool_error :=
| ErrKnown | ErrCheap | ErrState | ErrInvalidSender | ErrNonExistentAccount | ErrPoolNonce
| ErrGasLimit | ErrNegativeValue | ErrInsufficientFunds | ErrIntrinsicGas.

(** ** Orders the language leaves open *)

Class PoolOrder := {
  addrs : gmap bytes txList -> list bytes;
  addrs_perm m : addrs m ≡ₚ (map_to_list m).*1;
  by_heartbeat : list (bytes * Z) -> list (bytes * Z);
  by_heartbeat_perm l : by_heartbeat l ≡ₚ l;
  by_heartbeat_sorted l : Sorted (fun a b => a.2 <= b.2) (by_heartbeat l)
}.

(** ** Local transactions *)

Record txSet := mkTxSet { txMap : gset bytes; txOrd : gmap Z (bytes * Z); addPtr : Z; delPtr : Z }.

Definition newTxSet : txSet := mkTxSet ∅ ∅ 0 0.

Definition txSet_contains (s : txSet) (hash : bytes) : bool := bool_decide (hash ∈ txMap s).

(** A missing entry reads as the zero hash and the zero time. *)
Fixpoint expire_loop (fuel : nat) (s : txSet) (delBefore : Z) : txSet :=
  match fuel with
  | O => s
  | S fuel =>
      let e := default (zeros 32, 0) (txOrd s !! delPtr s) in
      if (delPtr s <? addPtr s) && (e.2 <? delBefore) then
        expire_loop fuel (mkTxSet (txMap s ∖ {[e.1]}) (delete (delPtr s) (txOrd s)) (addPtr s) (u64 (delPtr s + 1))) delBefore
      else s
  end.

Definition txSet_add (s : txSet) (hash : bytes) (now : Z) : txSet :=
  let s := mkTxSet ({[hash]} ∪ txMap s) (<[addPtr s := (hash, now)]> (txOrd s)) (u64 (addPtr s + 1)) (delPtr s) in
  expire_loop (Z.to_nat (addPtr s - delPtr s)) s (now - txSetDuration).

(** ** Spammers *)

(** The 24 bits of precision of a [float32], rounded to even. *)
Definition float32 (n : Z) : Z :=
  if n <? 2 ^ 24 then n
  else
    let u := 2 ^ (Z.log2 n - 23) in
    let q := n / u in
    let r := n mod u in
    (if (u <? 2 * r) || ((2 * r =? u) && Z.odd q) then q + 1 else q) * u.

Definition spammer : Type := bytes * Z.
(** The greatest priority is first. *)
Definition spam_key (s : spammer) : Z := - s.2.

(** A loop over a slice whose body may panic. *)
Fixpoint each {A B} (f : B -> A -> total B) (l : list A) (b : B) : total B :=
  match l with [] => Ok b | a :: l => let* b := f b a in each f l b end.

Section TxPool.
Context `{Hash256} `{Secp256k1} `{MapRange} `{PoolOrder} `{PoolLimits} {ST : Type} `{!NonceState ST} (config : ChainConfig).

(** ** The pool *)

Record TxPool := mkPool {
  pendingState : option (ManagedState (S := ST));
  minGasPrice : Z;
  localTx : txSet;
  pending : gmap bytes txList;
  queue : gmap bytes txList;
  all : gmap bytes Transaction;
  beats : gmap bytes Z;
  homestead : bool
}.

Definition signer : Signer := NewSiotImpr1Signer (ChainId config).

Definition NewTxPool : TxPool := mkPool None 0 newTxSet ∅ ∅ ∅ ∅ false.

Record Env := mkEnv { currentState : option ST; gasLimit : Z; now : Z }.

Definition set_pendingState pool x := mkPool x (minGasPrice pool) (localTx pool) (pending pool) (queue pool) (all pool) (beats pool) (homestead pool).
Definition set_pending pool x := mkPool (pendingState pool) (minGasPrice pool) (localTx pool) x (queue pool) (all pool) (beats pool) (homestead pool).
Definition set_queue pool x := mkPool (pendingState pool) (minGasPrice pool) (localTx pool) (pending pool) x (all pool) (beats pool) (homestead pool).
Definition set_all pool x := mkPool (pendingState pool) (minGasPrice pool) (localTx pool) (pending pool) (queue pool) x (beats pool) (homestead pool).
Definition set_beats pool x := mkPool (pendingState pool) (minGasPrice pool) (localTx pool) (pending pool) (queue pool) (all pool) x (homestead pool).

(** [types.Sender], with no address on an error. *)
Definition sender (tx : Transaction) : total (option bytes) :=
  match (Sender signer tx None).1 with Ok a => Ok (Some a) | Err _ => Ok None | Panic => Panic end.

(** The address a caller gets that ignores the error. *)
Definition sender_or_zero (tx : Transaction) : total bytes := let* a := sender tx in Ok (default (zeros 20) a).

(** Dropping transactions from the lookup table; nil has no hash. *)
Definition forget pool (txs : list (option Transaction)) : total TxPool :=
  each (fun pool tx => match tx with Some tx => Ok (set_all pool (delete (tx_Hash tx) (all pool))) | None => Panic end) txs pool.

(** ** Validation *)

Definition validateTx env pool (tx : Transaction) : total (option pool_error) :=
  if negb (txSet_contains (localTx pool) (tx_Hash tx)) && (Price tx <? minGasPrice pool) then Ok (Some ErrCheap)
  else
    match currentState env with
    | None => Ok (Some ErrState)
    | Some st =>
        let* from := sender tx in
        match from with
        | None => Ok (Some ErrInvalidSender)
        | Some from =>
            Ok (if negb (ns_Exist st from) then Some ErrNonExistentAccount
                else if AccountNonce tx <? ns_GetNonce st from then Some ErrPoolNonce
                else if gasLimit env <? GasLimit tx then Some ErrGasLimit
                else if Amount tx <? 0 then Some ErrNegativeValue
                else if ns_GetBalance st from <? Cost tx then Some ErrInsufficientFunds
                else if GasLimit tx <? IntrinsicGas (Payload tx) (bool_decide (Recipient tx = None)) (homestead pool) then Some ErrIntrinsicGas
                else None)
        end
    end.

(** ** Queueing and promoting *)

Definition enqueueTx pool (hash : bytes) (tx : Transaction) : total TxPool :=
  let* from := sender_or_zero tx in
  let l := default (newTxList false) (queue pool !! from) in
  let '(inserted, old, l) := list_Add l tx in
  let pool := set_queue pool (<[from := l]> (queue pool)) in
  if negb inserted then Ok pool
  else
    let a := match old with Some old => delete (tx_Hash old) (all pool) | None => all pool end in
    Ok (set_all pool (<[hash := tx]> a)).

Definition pool_add env pool (tx : Transaction) : total (option pool_error * TxPool) :=
  let hash := tx_Hash tx in
  match all pool !! hash with
  | Some _ => Ok (Some ErrKnown, pool)
  | None =>
      let* err := validateTx env pool tx in
      match err with
      | Some e => Ok (Some e, pool)
      | None => let* pool := enqueueTx pool hash tx in Ok (None, pool)
      end
  end.

(** A nil pointer to the managed state panics. *)
Definition pending_nonce pool (addr : bytes) : total (Z * TxPool) :=
  match pendingState pool with
  | None => Panic
  | Some ms => let '(n, ms) := ms_GetNonce ms addr in Ok (n, set_pendingState pool (Some ms))
  end.

Definition set_pending_nonce pool (addr : bytes) (nonce : Z) : total TxPool :=
  match pendingState pool with
  | None => Panic
  | Some ms => Ok (set_pendingState pool (Some (ms_SetNonce ms addr nonce)))
  end.

(** [reset] is [resetState], which calls back. *)
Definition promoteTx (reset : TxPool -> total TxPool) env pool (addr hash : bytes) (tx : Transaction) : total TxPool :=
  let* pool := match pendingState pool with None => reset pool | Some _ => Ok pool end in
  let l := default (newTxList true) (pending pool !! addr) in
  let '(inserted, old, l) := list_Add l tx in
  let pool := set_pending pool (<[addr := l]> (pending pool)) in
  if negb inserted then Ok (set_all pool (delete hash (all pool)))
  else
    let a := match old with Some old => delete (tx_Hash old) (all pool) | None => all pool end in
    let pool := set_all pool (<[hash := tx]> a) in
    let pool := set_beats pool (<[addr := now env]> (beats pool)) in
    set_pending_nonce pool addr (u64 (AccountNonce tx + 1)).

(** ** Removal *)

Definition removeTx pool (hash : bytes) : total TxPool :=
  match all pool !! hash with
  | None => Ok pool
  | Some tx =>
      let* addr := sender_or_zero tx in
      let pool := set_all pool (delete hash (all pool)) in
      let* pool :=
        match pending pool !! addr with
        | None => Ok pool
        | Some l =>
            let '(removed, invalids, l) := list_Remove l tx in
            let pool := set_pending pool (<[addr := l]> (pending pool)) in
            if removed then
              let* pool :=
                if list_Empty l then Ok (set_beats (set_pending pool (delete addr (pending pool))) (delete addr (beats pool)))
                else each (fun pool tx => enqueueTx pool (tx_Hash tx) tx) invalids pool in
              let nonce := AccountNonce tx in
              let* (n, pool) := pending_nonce pool addr in
              if nonce <? n then set_pending_nonce pool addr nonce else Ok pool
            else Ok pool
        end in
      match queue pool !! addr with
      | None => Ok pool
      | Some l =>
          let '(_, _, l) := list_Remove l tx in
          Ok (set_queue pool (if list_Empty l then delete addr (queue pool) else <[addr := l]> (queue pool)))
      end
  end.

(** ** Promoting executable transactions *)

(** One account of the queue; an account that is gone is not visited. *)
Definition promote_account reset env (st : ST) pool (addr : bytes) : total (Z * TxPool) :=
  match queue pool !! addr with
  | None => Ok (0, pool)
  | Some l =>
      let* (old, l) := list_Forward l (ns_GetNonce st addr) in
      let* pool := forget pool old in
      let '(drops, _, l) := list_Filter l (ns_GetBalance st addr) in
      let* pool := forget pool (map Some drops) in
      let* (n, pool) := pending_nonce pool addr in
      let '(ready, l) := list_Ready l n in
      let pool := set_queue pool (<[addr := l]> (queue pool)) in
      let* pool := each (fun pool tx => match tx with Some tx => promoteTx reset env pool addr (tx_Hash tx) tx | None => Panic end) ready pool in
      let* (over, l) := list_Cap (default l (queue pool !! addr)) maxQueuedPerAccount in
      let* pool := forget pool over in
      Ok (Z.of_nat (list_Len l), set_queue pool (if list_Empty l then delete addr (queue pool) else <[addr := l]> (queue pool)))
  end.

Definition promote_accounts reset env (st : ST) pool : total (Z * TxPool) :=
  each (fun '(queued, pool) addr => let* (n, pool) := promote_account reset env st pool addr in Ok (u64 (queued + n), pool))
    (addrs (queue pool)) (0, pool).

(** ** Limiting the pending transactions *)

Definition pending_total pool : Z :=
  foldl (fun n addr => u64 (n + Z.of_nat (match pending pool !! addr with Some l => list_Len l | None => 0%nat end))) 0 (addrs (pending pool)).

(** The first transaction the range over the list gives decides. *)
Definition is_spammer pool (l : txList) : bool :=
  (minPendingPerAccount <? Z.of_nat (list_Len l)) &&
  match range (items (txs l)) with (_, tx) :: _ => negb (txSet_contains (localTx pool) (tx_Hash tx)) | [] => false end.

Definition push_spammer pool (spammers : list spammer) (addr : bytes) : list spammer :=
  match pending pool !! addr with
  | Some l => if is_spammer pool l then heap_Push spam_key spammers (addr, float32 (Z.of_nat (list_Len l))) else spammers
  | None => spammers
  end.

(** An account without a list is a nil pointer. *)
Definition pending_len pool (addr : bytes) : total Z :=
  match pending pool !! addr with Some l => Ok (Z.of_nat (list_Len l)) | None => Panic end.

(** The transactions that are cut off stay in the lookup table. *)
Definition cut_one '(pool, n) (addr : bytes) : total (TxPool * Z) :=
  match pending pool !! addr with
  | None => Panic
  | Some l =>
      let* (_, l) := list_Cap l (Z.of_nat (list_Len l) - 1) in
      Ok (set_pending pool (<[addr := l]> (pending pool)), u64 (n - 1))
  end.

(** Rounds in which each of [offenders] loses one transaction, until the limit
    holds or [last] has no more than [threshold]. *)
Fixpoint equalize_loop (fuel : nat) pool (n : Z) (offenders : list bytes) (last : bytes) (threshold : Z) : total (TxPool * Z) :=
  match fuel with
  | O => Panic
  | S fuel =>
      if maxPendingTotal <? n then
        let* k := pending_len pool last in
        if threshold <? k then
          let* (pool, n) := each cut_one offenders (pool, n) in equalize_loop fuel pool n offenders last threshold
        else Ok (pool, n)
      else Ok (pool, n)
  end.

(** The fuel of the rounds: one more than the length of the list. *)
Definition rounds pool (addr : bytes) : nat := match pending pool !! addr with Some l => Datatypes.S (list_Len l) | None => 1%nat end.

(** [offenders] in the order they were taken. *)
Fixpoint offend_loop (fuel : nat) pool (n : Z) (spammers : list spammer) (offenders : list bytes) : total (TxPool * Z * list bytes) :=
  match fuel with
  | O => Panic
  | S fuel =>
      if (maxPendingTotal <? n) && bool_decide (spammers <> []) then
        match heap_Pop spam_key spammers with
        | None => Panic
        | Some ((offender, _), spammers) =>
            let* (pool, n) :=
              match last offenders with
              | Some prev =>
                  let* threshold := pending_len pool offender in
                  equalize_loop (rounds pool prev) pool n offenders prev threshold
              | None => Ok (pool, n)
              end in
            offend_loop fuel pool n spammers (offenders ++ [offender])
        end
      else Ok (pool, n, offenders)
  end.

Definition limit_pending pool : total TxPool :=
  let n := pending_total pool in
  if maxPendingTotal <? n then
    let spammers := foldl (push_spammer pool) [] (addrs (pending pool)) in
    let* (pool, n, offenders) := offend_loop (Datatypes.S (length spammers)) pool n spammers [] in
    match last offenders with
    | Some prev => let* (pool, _) := equalize_loop (rounds pool prev) pool n offenders prev minPendingPerAccount in Ok pool
    | None => Ok pool
    end
  else Ok pool.

(** ** Limiting the queue *)

(** The last few transactions of an account, as long as some have to go. *)
Fixpoint drop_last pool (drop : Z) (txs : list Transaction) : total (TxPool * Z) :=
  match txs with
  | [] => Ok (pool, drop)
  | tx :: txs => if 0 <? drop then let* pool := removeTx pool (tx_Hash tx) in drop_last pool (drop - 1) txs else Ok (pool, drop)
  end.

(** The accounts, from the last one of the slice on. *)
Fixpoint drop_loop pool (drop : Z) (addresses : list (bytes * Z)) : total TxPool :=
  if 0 <? drop then
    match addresses with
    | [] => Panic
    | (addr, _) :: addresses =>
        match queue pool !! addr with
        | None => Panic
        | Some l =>
            let size := Z.of_nat (list_Len l) in
            let '(txs, l) := list_Flatten l in
            let pool := set_queue pool (<[addr := l]> (queue pool)) in
            if size <=? drop then
              let* pool := each (fun pool tx => removeTx pool (tx_Hash tx)) txs pool in drop_loop pool (drop - size) addresses
            else let* (pool, drop) := drop_last pool drop (rev txs) in drop_loop pool drop addresses
        end
    end
  else Ok pool.

Definition limit_queue pool (queued : Z) : total TxPool :=
  if maxQueuedInTotal <? queued then
    let addresses := by_heartbeat (map (fun addr => (addr, default 0 (beats pool !! addr))) (addrs (queue pool))) in
    drop_loop pool (queued - maxQueuedInTotal) (rev addresses)
  else Ok pool.

Definition promote_with reset env pool : total TxPool :=
  let* pool := match pendingState pool with None => reset pool | Some _ => Ok pool end in
  match currentState env with
  | None => Ok pool
  | Some st =>
      let* (queued, pool) := promote_accounts reset env st pool in
      let* pool := limit_pending pool in
      limit_queue pool queued
  end.

(** ** Demoting *)

Definition demote_account (st : ST) pool (addr : bytes) : total TxPool :=
  match pending pool !! addr with
  | None => Ok pool
  | Some l =>
      let* (old, l) := list_Forward l (ns_GetNonce st addr) in
      let* pool := forget pool old in
      let '(drops, invalids, l) := list_Filter l (ns_GetBalance st addr) in
      let* pool := forget pool (map Some drops) in
      let pool := set_pending pool (<[addr := l]> (pending pool)) in
      let* pool := each (fun pool tx => enqueueTx pool (tx_Hash tx) tx) invalids pool in
      Ok (if list_Empty l then set_beats (set_pending pool (delete addr (pending pool))) (delete addr (beats pool)) else pool)
  end.

Definition demoteUnexecutables env pool : total TxPool :=
  match currentState env with
  | None => Ok pool
  | Some st => each (demote_account st) (addrs (pending pool)) pool
  end.

(** ** Resetting *)

Definition raise_nonce pool (addr : bytes) : total TxPool :=
  match pending pool !! addr with
  | None => Ok pool
  | Some l =>
      let '(txs, l) := list_Flatten l in
      let pool := set_pending pool (<[addr := l]> (pending pool)) in
      match last txs with
      | None => Panic
      | Some tx => set_pending_nonce pool addr (u64 (AccountNonce tx + 1))
      end
  end.

Definition reset_with (promote : TxPool -> total TxPool) env pool : total TxPool :=
  match currentState env with
  | None => Ok pool
  | Some st =>
      let pool := set_pendingState pool (Some (ManageState st)) in
      let* pool := demoteUnexecutables env pool in
      let* pool := each raise_nonce (addrs (pending pool)) pool in
      promote pool
  end.

(** The calls nest at most twice: [resetState] sets the managed state before it
    promotes. *)
Fixpoint promote_fuel (fuel : nat) env pool : total TxPool :=
  match fuel with
  | O => Panic
  | S fuel => promote_with (reset_with (promote_fuel fuel env) env) env pool
  end.

Definition promoteExecutables env pool : total TxPool := promote_fuel 2 env pool.

Definition resetState env pool : total TxPool := reset_with (promote_fuel 1 env) env pool.

(** ** The operations *)

Definition pool_Add env pool (tx : Transaction) : total (option pool_error * TxPool) :=
  let* (err, pool) := pool_add env pool tx in
  match err with
  | Some e => Ok (Some e, pool)
  | None => let* pool := promoteExecutables env pool in Ok (None, pool)
  end.

Definition AddBatch env pool (txs : list Transaction) : total TxPool :=
  let* pool := each (fun pool tx => let* (_, pool) := pool_add env pool tx in Ok pool) txs pool in
  promoteExecutables env pool.

Definition pool_Get pool (hash : bytes) : option Transaction := all pool !! hash.

Definition RemoveBatch pool (txs : list Transaction) : total TxPool := each (fun pool tx => removeTx pool (tx_Hash tx)) txs pool.

Definition SetLocal env pool (tx : Transaction) : TxPool :=
  mkPool (pendingState pool) (minGasPrice pool) (txSet_add (localTx pool) (tx_Hash tx) (now env)) (pending pool) (queue pool) (all pool)
    (beats pool) (homestead pool).

Definition Stats pool : nat * nat :=
  let count (m : gmap bytes txList) := foldl (fun n addr => (n + match m !! addr with Some l => list_Len l | None => 0 end)%nat) 0%nat (addrs m) in
  (count (pending pool), count (queue pool)).

(** Flattening every list, which caches the order. *)
Definition flatten_all (m : gmap bytes txList) : gmap bytes (list Transaction) * gmap bytes txList :=
  (fmap (fun l => (list_Flatten l).1) m, fmap (fun l => (list_Flatten l).2) m).

Definition Content (pool : TxPool) : gmap bytes (list Transaction) * gmap bytes (list Transaction) * TxPool :=
  let '(p, pending') := flatten_all (pending pool) in
  let '(q, queue') := flatten_all (queue pool) in
  (p, q, set_queue (set_pending pool pending') queue').

Definition Pending (env : Env) (pool : TxPool) : total (gmap bytes (list Transaction) * TxPool) :=
  let* pool := promoteExecutables env pool in
  let* pool := demoteUnexecutables env pool in
  let '(p, pending') := flatten_all (pending pool) in
  Ok (p, set_pending pool pending').

(** ** Events *)

Inductive pool_event := ChainHead (number : option Z) | GasPriceChanged (price : Z) | RemovedTransactions (txs : list Transaction).

Definition set_homestead pool := mkPool (pendingState pool) (minGasPrice pool) (localTx pool) (pending pool) (queue pool) (all pool) (beats pool) true.
Definition set_minGasPrice pool x := mkPool (pendingState pool) x (localTx pool) (pending pool) (queue pool) (all pool) (beats pool) (homestead pool).

Definition handle_event env pool (ev : pool_event) : total TxPool :=
  match ev with
  | ChainHead number =>
      let pool := match number with Some n => if IsHomestead config n then set_homestead pool else pool | None => pool end in
      resetState env pool
  | GasPriceChanged price => Ok (set_minGasPrice pool price)
  | RemovedTransactions txs => AddBatch env pool txs
  end.

(** [time.Since] saturates. *)
Definition Since env (t : Z) : Z := Z.max (- 2 ^ 63) (Z.min (2 ^ 63 - 1) (now env - t)).

Definition evict_account env pool (addr : bytes) : total TxPool :=
  match queue pool !! addr with
  | None => Ok pool
  | Some l =>
      if maxQueuedLifetime <? Since env (default 0 (beats pool !! addr)) then
        let '(txs, l) := list_Flatten l in
        let pool := set_queue pool (<[addr := l]> (queue pool)) in
        each (fun pool tx => removeTx pool (tx_Hash tx)) txs pool
      else Ok pool
  end.

Definition evict env pool : total TxPool := each (evict_account env) (addrs (queue pool)) pool.
End TxPool.
