(* ===== verification/TxPoolSpec.v ===== *)
(** * The transaction pool: consistency, executability and limits

    In every reachable pool the lists hold transactions of their account, every
    listed transaction is in the lookup table, no transaction is pending and
    queued at once, and no operation panics. *)

From stdpp Require Import sorting.
From S2P Require Import Prelude RlpEncode Helper Keccak Database StateTrie State StateSpec Transition Types Signing SigningSpec Heap TxList TxListSpec ManagedState TxPool.

(** ** Runs without a panic *)

Definition runs {A} (m : total A) (P : A -> Prop) : Prop := exists r, m = Ok r /\ P r.

Lemma runs_ret {A} (x : A) (P : A -> Prop) : P x -> runs (Ok x) P.
Proof. intros Px. by exists x. Qed.

Lemma runs_bind {A B} (m : total A) (k : A -> total B) P Q : runs m P -> (forall x, P x -> runs (k x) Q) -> runs (let* x := m in k x) Q.
Proof. intros (x & -> & Px) K. by apply K. Qed.

Lemma runs_impl {A} (m : total A) (P Q : A -> Prop) : runs m P -> (forall x, P x -> Q x) -> runs m Q.
Proof. intros (x & -> & Px) PQ. exists x. auto. Qed.

(** An invariant of a loop, which may speak of the elements that are left. *)
Lemma each_runs {A B} (f : B -> A -> total B) (I : list A -> B -> Prop) l b :
  (forall a l b, I (a :: l) b -> runs (f b a) (I l)) -> I l b -> runs (each f l b) (I []).
Proof.
  intros Hf. revert b. induction l as [|a l IH]; intros b Hb; cbn [each]; [by apply runs_ret|].
  eapply runs_bind; [by apply Hf|]. cbn. eauto.
Qed.

(** ** Senders *)

Lemma recover_key_safe `{Hash256} `{Secp256k1} v tx h hash : recover_key v tx h hash <> Panic.
Proof.
  unfold recover_key, ValidateSignatureValues.
  destruct ((R tx <? 1) || (S_ tx <? 1)) eqn:E1; [done|]. apply orb_false_iff in E1 as [R1%Z.ltb_ge S1%Z.ltb_ge].
  destruct (h && _); [done|]. destruct (N <=? S_ tx) eqn:E2; [done|]. apply Z.leb_gt in E2.
  destruct (R tx <? N) eqn:E3; [|done]. apply Z.ltb_lt in E3. cbn [andb]. destruct ((v =? 27) || (v =? 28)); [|done]. cbn [negb].
  assert (L : forall z, 1 <= z < N -> (length (Bytes z) <= 32)%nat) by (intros z Hz; apply Bytes_length; unfold N in Hz; lia).
  rewrite !(proj2 (Nat.ltb_ge _ _)) by (apply L; lia). cbn [orb]. destruct (Ecrecover _ _) as [[|x l]|]; [done| |done].
  by destruct x as [|[]|]; repeat (destruct p; try done).
Qed.

Section Pool.
Context `{Hash256} `{Secp256k1} `{MapRange} `{PoolOrder} `{PoolLimits} {ST : Type} `{!NonceState ST} (config : ChainConfig).
Abbreviation Pool := (TxPool (ST := ST)).
Implicit Types (addr : bytes) (tx : Transaction).

Lemma sender_total tx : exists o, sender config tx = Ok o.
Proof.
  unfold sender, Sender. destruct (PublicKey (signer config) tx) eqn:E; cbn; [eauto..|]. exfalso. revert E.
  unfold signer, NewSiotImpr1Signer, PublicKey, homestead_PublicKey. destruct (negb (isProtectedV _)).
  - destruct (8 <? _); [done|]. apply recover_key_safe.
  - destruct (negb _); [done|]. destruct (normaliseV _ _) eqn:En; cbn; [apply recover_key_safe|done|].
    unfold normaliseV in En. by destruct (_ && _).
Qed.

Definition sent tx addr : Prop := sender config tx = Ok (Some addr).

Lemma sent_fun tx a b : sent tx a -> sent tx b -> a = b.
Proof. unfold sent. congruence. Qed.

Lemma sent_or_zero tx addr : sent tx addr -> sender_or_zero config tx = Ok addr.
Proof. unfold sent, sender_or_zero. by intros ->. Qed.

(** ** Listed transactions *)

(** The transactions that an account has in the pending or in the queued lists. *)
Definition of_account (m : gmap bytes txList) addr : nmap := match m !! addr with Some l => txs_of l | None => ∅ end.

Definition listed (m : gmap bytes txList) addr tx : Prop := of_account m addr !! AccountNonce tx = Some tx.

Lemma of_account_insert m addr l a : of_account (<[addr := l]> m) a = if decide (a = addr) then txs_of l else of_account m a.
Proof. unfold of_account. case_decide as E; [subst; by rewrite lookup_insert_eq|by rewrite lookup_insert_ne]. Qed.

Lemma of_account_delete m addr a : of_account (delete addr m) a = if decide (a = addr) then ∅ else of_account m a.
Proof. unfold of_account. case_decide as E; [subst; by rewrite lookup_delete_eq|by rewrite lookup_delete_ne]. Qed.

(** The lists of one side of the pool: [true] is pending, [false] queued. *)
Definition side (b : bool) (pool : Pool) : gmap bytes txList := if b then pending pool else queue pool.
Definition set_side (b : bool) (pool : Pool) x : Pool := if b then set_pending pool x else set_queue pool x.

Definition on_list (pool : Pool) addr tx : Prop := exists b, listed (side b pool) addr tx.

(** The invariant, with a bound on the size of the table. *)
Record sound (k : nat) (pool : Pool) : Prop := {
  sd_lists b addr l : side b pool !! addr = Some l -> list_wf l /\ strict l = b;
  sd_sent b addr tx n : of_account (side b pool) addr !! n = Some tx -> sent tx addr;
  sd_all addr tx : on_list pool addr tx -> all pool !! tx_Hash tx = Some tx;
  sd_apart addr tx : listed (pending pool) addr tx -> listed (queue pool) addr tx -> False;
  sd_known h tx : all pool !! h = Some tx -> h = tx_Hash tx /\ (exists addr, sent tx addr) /\ 0 <= AccountNonce tx < 2 ^ 64;
  sd_state : pending pool <> ∅ -> pendingState pool <> None;
  sd_size : (size (all pool) <= k)%nat
}.

(** No list is empty. *)
Definition filled (m : gmap bytes txList) : Prop := forall addr l, m !! addr = Some l -> txs_of l <> ∅.

Record pool_ok (k : nat) (pool : Pool) : Prop := {
  po_sound : sound k pool;
  po_filled b : filled (side b pool)
}.

Lemma side_nonce k pool b addr n tx : sound k pool -> of_account (side b pool) addr !! n = Some tx -> AccountNonce tx = n /\ 0 <= n < 2 ^ 64.
Proof.
  intros Sd E. unfold of_account in E. destruct (side b pool !! addr) as [l|] eqn:El; [|done].
  destruct (sd_lists _ _ Sd _ _ _ El) as [[W _] _]. by apply (wf_nonces _ W).
Qed.

Lemma side_listed k pool b addr n tx : sound k pool -> of_account (side b pool) addr !! n = Some tx -> listed (side b pool) addr tx.
Proof. intros Sd E. destruct (side_nonce _ _ _ _ _ _ Sd E) as [<- _]. done. Qed.

(** Listed transactions with one hash are one transaction of one account. *)
Lemma listed_inj k pool a1 a2 t1 t2 : sound k pool -> on_list pool a1 t1 -> on_list pool a2 t2 -> tx_Hash t1 = tx_Hash t2 -> t1 = t2 /\ a1 = a2.
Proof.
  intros Sd L1 L2 E. pose proof (sd_all _ _ Sd _ _ L1) as A1. pose proof (sd_all _ _ Sd _ _ L2) as A2. rewrite E, A2 in A1.
  injection A1 as ->. split; [done|]. destruct L1 as [b1 L1], L2 as [b2 L2]. eapply sent_fun; by eapply sd_sent.
Qed.

(** Transactions on the way from one list to another. *)
Definition flying (pool : Pool) (L : list Transaction) : Prop :=
  NoDup L /\ forall tx, tx ∈ L -> all pool !! tx_Hash tx = Some tx /\ forall addr, ~ on_list pool addr tx.

(** ** The lookup table *)

Definition without (l : list Transaction) (a : gmap bytes Transaction) : gmap bytes Transaction :=
  foldl (fun a tx => delete (tx_Hash tx) a) a l.

Lemma without_lookup l a h : without l a !! h = if decide (h ∈ map tx_Hash l) then None else a !! h.
Proof.
  unfold without. revert a. induction l as [|tx l IH]; intros a; cbn; [by rewrite decide_False by set_solver|].
  rewrite IH. destruct (decide (h ∈ map tx_Hash l)); [by rewrite decide_True by (by right)|].
  destruct (decide (h = tx_Hash tx)) as [->|Hne].
  - rewrite lookup_delete_eq, decide_True; [done|by left].
  - rewrite lookup_delete_ne, decide_False by (done || (intros [->|]%elem_of_cons; done)). done.
Qed.

Lemma forget_eq (pool : Pool) l : forget pool (map Some l) = Ok (set_all pool (without l (all pool))).
Proof.
  unfold forget, without. revert pool. induction l as [|tx l IH]; intros pool; cbn; [by destruct pool|]. by rewrite IH.
Qed.

(** ** Shrinking lists *)

Lemma side_set b b' (pool : Pool) x : side b' (set_side b pool x) = if bool_decide (b' = b) then x else side b' pool.
Proof. by destruct b, b'. Qed.

Lemma all_set b (pool : Pool) x : all (set_side b pool x) = all pool.
Proof. by destruct b. Qed.

Lemma state_set b (pool : Pool) x : pendingState (set_side b pool x) = pendingState pool.
Proof. by destruct b. Qed.

Lemma side_all b (pool : Pool) x : side b (set_all pool x) = side b pool.
Proof. by destruct b. Qed.

(** A pool with fewer listed transactions and a table that still has them. *)
Lemma sound_sub k pool (pool' : Pool) :
  sound k pool ->
  (forall b addr l, side b pool' !! addr = Some l -> list_wf l /\ strict l = b) ->
  (forall b addr n tx, of_account (side b pool') addr !! n = Some tx -> of_account (side b pool) addr !! n = Some tx) ->
  all pool' ⊆ all pool ->
  (forall addr tx, on_list pool' addr tx -> all pool' !! tx_Hash tx = Some tx) ->
  (pending pool' <> ∅ -> pendingState pool' <> None) -> sound k pool'.
Proof.
  intros Sd W Sub A L St. split; [done| |done| | |done|].
  - intros b addr tx n E. by eapply (sd_sent _ _ Sd), Sub.
  - intros addr tx L1 L2. apply (sd_apart _ _ Sd addr tx); [by apply (Sub true)|by apply (Sub false)].
  - intros h tx E. apply (sd_known _ _ Sd). by eapply lookup_weaken.
  - etrans; [by apply map_subseteq_size|apply Sd].
Qed.

Lemma without_sub (l : list Transaction) (a : gmap bytes Transaction) : without l a ⊆ a.
Proof. apply map_subseteq_spec. intros h tx. rewrite without_lookup. by case_decide. Qed.

(** A list of the pool loses transactions; those of [R] leave the table too. *)
Lemma shrink b k pool addr l l' R :
  sound k pool -> side b pool !! addr = Some l -> list_wf l' -> strict l' = b -> txs_of l' ⊆ txs_of l ->
  (forall tx, tx ∈ R -> txs_of l !! AccountNonce tx = Some tx /\ txs_of l' !! AccountNonce tx = None) ->
  sound k (set_all (set_side b pool (<[addr := l']> (side b pool))) (without R (all pool))).
Proof.
  intros Sd El W' Es Sub HR. set (pool' := set_all _ _).
  assert (Ea : forall b' a, of_account (side b' pool') a = if decide (b' = b /\ a = addr) then txs_of l' else of_account (side b' pool) a).
  { intros b' a. unfold pool'. rewrite side_all, side_set. destruct (decide (b' = b /\ a = addr)) as [[-> ->]|D].
    - by rewrite bool_decide_true, of_account_insert, decide_True by done.
    - case_bool_decide as Eb; [|done]. subst b'. rewrite of_account_insert, decide_False; [done|]. intros ->. by apply D. }
  assert (El' : of_account (side b pool) addr = txs_of l) by (unfold of_account; by rewrite El).
  assert (Sub' : forall b' a n tx, of_account (side b' pool') a !! n = Some tx -> of_account (side b' pool) a !! n = Some tx).
  { intros b' a n tx. rewrite Ea. case_decide as D; [|done]. destruct D as [-> ->]. rewrite El'. intros E. by eapply lookup_weaken. }
  apply (sound_sub k pool); [done| |done|apply without_sub| |].
  - intros b' a l0. unfold pool'. rewrite side_all, side_set. case_bool_decide as Eb; [subst b'|by apply Sd].
    intros [[<- <-]|[_ E]]%lookup_insert_Some; [done|by eapply Sd].
  - intros a tx [b' L]. pose proof (Sub' _ _ _ _ L) as L0. unfold pool'. cbn [all set_all]. rewrite without_lookup, decide_False.
    { by eapply (sd_all _ _ Sd a); eexists. }
    intros (r & Eh & Hr)%list_elem_of_In%in_map_iff. apply list_elem_of_In in Hr. destruct (HR r Hr) as [R1 R2].
    assert (Lr : listed (side b pool) addr r) by (unfold listed; by rewrite El').
    destruct (listed_inj k pool addr a r tx Sd ltac:(by exists b) ltac:(by exists b') Eh) as [<- <-].
    destruct (decide (b' = b)) as [->|Hb]; [unfold listed in L; rewrite Ea, decide_True in L by done; congruence|].
    destruct b, b'; try done; eapply (sd_apart _ _ Sd addr r); done.
  - unfold pool'. intros P. assert (Est : pendingState (set_all (set_side b pool (<[addr:=l']> (side b pool))) (without R (all pool))) = pendingState pool) by (by destruct b).
    rewrite Est. apply (sd_state _ _ Sd). destruct b; [|done]. cbn in *. intros E0. rewrite E0 in El. done.
Qed.

(** ** Taking from a list *)

(** The list [l'] is [l] without the transactions [R], and maybe others. *)
Record takes (l : txList) (R : list Transaction) (l' : txList) : Prop := {
  tk_wf : list_wf l';
  tk_strict : strict l' = strict l;
  tk_sub : txs_of l' ⊆ txs_of l;
  tk_nodup : NoDup R;
  tk_out t : t ∈ R -> txs_of l !! AccountNonce t = Some t /\ txs_of l' !! AccountNonce t = None
}.

Lemma takes_app l R1 l1 R2 l2 : takes l R1 l1 -> takes l1 R2 l2 -> takes l (R1 ++ R2) l2.
Proof.
  intros [W1 S1 B1 N1 O1] [W2 S2 B2 N2 O2]. split; [done|congruence|by etrans| |].
  - apply NoDup_app. split; [done|]. split; [|done]. intros t T1%O1 T2%O2. destruct T1, T2. congruence.
  - intros t [T1%O1|T2%O2]%elem_of_app.
    + split; [apply T1|]. destruct (txs_of l2 !! AccountNonce t) eqn:E; [|done]. apply (lookup_weaken _ _ _ _ E) in B2. destruct T1. congruence.
    + split; [|apply T2]. by eapply lookup_weaken, B1; apply T2.
Qed.

Lemma takes_nil l R l' : takes l R l' -> takes l [] l'.
Proof. intros [W S B N O]. split; [done|done|done|apply NoDup_nil_2|by intros t ?%not_elem_of_nil]. Qed.

Lemma keep_sub P m : keep P m ⊆ m.
Proof. apply map_subseteq_spec. by intros n t [E _]%keep_Some. Qed.

(** What is listed of a part that is not kept. *)
Lemma lists_out R P Q m : lists R (keep P m) -> (forall n t, m !! n = Some t -> P n t = true -> Q n t = false) ->
  NoDup R /\ forall t, t ∈ R -> m !! AccountNonce t = Some t /\ keep Q m !! AccountNonce t = None.
Proof.
  intros [Nd M] PQ. split; [done|]. intros t [E HP]%M%keep_Some. split; [done|]. by rewrite keep_lookup, E, (PQ _ _ E HP).
Qed.

Lemma Forward_takes l t : list_wf l -> exists R l', list_Forward l t = Ok (map Some R, l') /\ takes l R l' /\
  txs_of l' = keep (from_ t) (txs_of l).
Proof.
  intros W. destruct (Forward_step l t W) as (r & l' & E & W' & Es & S). cbn in E. destruct (list_Forward l t) as [[o l1]| |]; [|done..].
  injection E as <- <-. destruct S as (R & -> & Sr & Et). exists R, l1. split; [done|]. split; [|done].
  destruct (lists_out R (below t) (from_ t) (txs_of l) (sorted_lists _ _ Sr)) as [Nd O]; [unfold below, from_; lia|].
  split; [done|done| |done|]; rewrite Et; [apply keep_sub|done].
Qed.

Lemma Filter_takes l t : list_wf l -> exists R I l', list_Filter l t = (R, I, l') /\ takes l (R ++ I) l' /\ (strict l = false -> I = []) /\
  forall n x, txs_of l' !! n = Some x -> Cost x <= t.
Proof.
  intros W. destruct (Filter_step l t W) as (r & l' & E & W' & Es & S). cbn in E. destruct (list_Filter l t) as [[R I] l1].
  injection E as <- <-. cbn in S. destruct S as (Lr & Li & Et). set (after := fun n => existsb (fun tx => AccountNonce tx <? n) R). exists R, I, l1. split; [done|].
  assert (D : forall n x, txs_of l1 !! n = Some x -> Cost x <= t) by (rewrite Et; intros n x [_ HP%andb_true_iff]%keep_Some; lia).
  split; [|split; [|done]].
  - destruct (lists_out R _ (fun n tx => negb (t <? Cost tx) && negb (strict l && after n)) _ Lr) as [NR OR]; [intros n x _ ->; done|].
    destruct (lists_out I _ (fun n tx => negb (t <? Cost tx) && negb (strict l && after n)) _ Li) as [NI OI].
    { intros n x _ [_ HP]%andb_true_iff. fold (after n) in HP. rewrite HP. apply andb_false_r. }
    split; [done|done|rewrite Et; apply keep_sub| |].
    + apply NoDup_app. split; [done|]. split; [|done]. intros x [_ HR]%Lr%keep_Some [_ HI]%Li%keep_Some. by rewrite HR in HI.
    + rewrite Et. by intros x [?%OR|?%OI]%elem_of_app.
  - intros Ef. rewrite Ef in Li. destruct I as [|x I]; [done|]. exfalso. destruct Li as [_ M].
    assert (Hx : x ∈ x :: I) by (by left). apply M, keep_Some in Hx as [_ Hx]. by rewrite andb_false_r in Hx.
Qed.

Lemma Cap_takes l k : list_wf l -> 0 <= k -> exists R l', list_Cap l k = Ok (map Some R, l') /\ takes l R l' /\ Z.of_nat (list_Len l') <= k.
Proof.
  intros W Hk. destruct (Cap_step l k W Hk) as (r & l' & E & W' & Es & S). cbn in E. destruct (list_Cap l k) as [[o l1]| |]; [|done..].
  injection E as <- <-. destruct S as (kept & drops & -> & [Sa Ma] & [Sk Mk] & Hd & Hl). exists drops, l1. split; [done|].
  pose proof (wf_nonces _ (proj1 W')) as N'. split; [|unfold list_Len, sm_Len; fold (txs_of l1); by rewrite <- (lists_length kept) by (done || by apply sorted_lists)].
  split; [done|done| | |].
  - apply map_subseteq_spec. intros n t E. destruct (N' _ _ E) as [<- _]. apply Ma, elem_of_app. left. by apply Mk.
  - apply sorted_nodup in Sa. apply NoDup_app in Sa as (_ & _ & Sa). by rewrite <- (reverse_Permutation drops).
  - intros t Ht. assert (Hr : t ∈ reverse drops) by (by apply elem_of_reverse). split; [apply Ma, elem_of_app; by right|].
    destruct (txs_of l1 !! AccountNonce t) as [x|] eqn:E; [|done]. exfalso. destruct (N' _ _ E) as [En _]. rewrite <- En in E. apply Mk in E.
    pose proof (StronglySorted_app_1_elem_of nonce_lt kept (reverse drops) x t Sa E Hr) as X. unfold nonce_lt in X. lia.
Qed.

Lemma Ready_takes l s : list_wf l -> exists R l', list_Ready l s = (map Some R, l') /\ takes l R l' /\ ready_spec (txs_of l) s R (txs_of l').
Proof.
  intros W. destruct (Ready_step l s W) as (r & l' & E & W' & Es & S). cbn in E. destruct (list_Ready l s) as [o l1].
  injection E as <- <-. destruct S as (R & -> & Sr). exists R, l1. split; [done|]. split; [|done].
  destruct Sr as [(-> & Et & _)|(n0 & k & _ & _ & _ & _ & _ & So & Et)].
  - split; [done|done|by rewrite Et|apply NoDup_nil_2|by intros t ?%not_elem_of_nil].
  - destruct (lists_out R (below (n0 + k)) (from_ (n0 + k)) (txs_of l) (sorted_lists _ _ So)) as [Nd O]; [unfold below, from_; lia|].
    split; [done|done| |done|]; rewrite Et; [apply keep_sub|done].
Qed.

(** ** Adding to a list *)

Definition list_at b (pool : Pool) addr : txList := default (newTxList b) (side b pool !! addr).

Lemma list_at_ok k pool b addr : sound k pool ->
  list_wf (list_at b pool addr) /\ strict (list_at b pool addr) = b /\ txs_of (list_at b pool addr) = of_account (side b pool) addr.
Proof.
  intros Sd. unfold list_at, of_account. destruct (side b pool !! addr) as [l|] eqn:E; cbn.
  - destruct (sd_lists _ _ Sd _ _ _ E). done.
  - split; [apply new_list_wf|done].
Qed.

(** What [Add] does to a list. *)
Lemma Add_cases l tx : list_wf l -> 0 <= AccountNonce tx < 2 ^ 64 ->
  (list_Add l tx = (false, None, l) /\ exists o, txs_of l !! AccountNonce tx = Some o /\ Price tx <= Price o) \/
  exists l', list_Add l tx = (true, txs_of l !! AccountNonce tx, l') /\ list_wf l' /\ strict l' = strict l /\
    txs_of l' = <[AccountNonce tx := tx]> (txs_of l).
Proof.
  intros W Hn. destruct (Add_ok l tx W Hn) as (r & l' & E & W' & Es & S). cbn in E, S. destruct (list_Add l tx) as [[acc old] l1] eqn:Ea.
  injection E as <- <-. cbn in S. unfold list_Add, sm_Get in Ea. fold (txs_of l) in Ea.
  destruct (txs_of l !! AccountNonce tx) as [o|] eqn:Eo; [destruct (Z.leb_spec (Price tx) (Price o))|].
  - left. injection Ea as <- <- <-. split; [done|]. by exists o.
  - right. destruct S as (-> & -> & S). exists l1. done.
  - right. destruct S as (-> & -> & S). exists l1. done.
Qed.

(** The table after [tx] took the place of [old]. *)
Definition swapped (a : gmap bytes Transaction) (old : option Transaction) tx : gmap bytes Transaction :=
  <[tx_Hash tx := tx]> (match old with Some o => delete (tx_Hash o) a | None => a end).

Definition grown b (pool : Pool) addr l' old tx : Pool :=
  set_all (set_side b pool (<[addr := l']> (side b pool))) (swapped (all pool) old tx).

(** A transaction that is not on a list and that the table does not contradict. *)
Record loose (pool : Pool) addr tx : Prop := {
  ls_sent : sent tx addr;
  ls_nonce : 0 <= AccountNonce tx < 2 ^ 64;
  ls_table : forall t, all pool !! tx_Hash tx = Some t -> t = tx;
  ls_free a : ~ on_list pool a tx
}.

Section Grow.
Context (b : bool) (k : nat) (pool : Pool) (addr : bytes) (l' : txList) (tx : Transaction).
Context (Sd : sound k pool) (Lo : loose pool addr tx) (W' : list_wf l') (Es : strict l' = b).
Context (Et : txs_of l' = <[AccountNonce tx := tx]> (of_account (side b pool) addr)).
Let old := of_account (side b pool) addr !! AccountNonce tx.
Let pool' := grown b pool addr l' old tx.

Lemma grown_listed b' a n t : of_account (side b' pool') a !! n = Some t ->
  (b' = b /\ a = addr /\ n = AccountNonce tx /\ t = tx) \/
  (of_account (side b' pool) a !! n = Some t /\ ~ (b' = b /\ a = addr /\ n = AccountNonce tx)).
Proof.
  unfold pool', grown. rewrite side_all, side_set. case_bool_decide as Eb; [subst b'|by right; split; [|intros (? & _)]].
  rewrite of_account_insert. case_decide as Ea; [subst a|by right; split; [|intros (_ & ? & _)]]. rewrite Et.
  intros [[<- <-]|[Hn E]]%lookup_insert_Some; [by left|]. right. split; [done|]. by intros (_ & _ & ->).
Qed.

Lemma old_listed o : old = Some o -> listed (side b pool) addr o /\ AccountNonce o = AccountNonce tx.
Proof. intros E. destruct (side_nonce _ _ _ _ _ _ Sd E) as [En _]. split; [|done]. unfold listed. by rewrite En. Qed.

(** Other transactions keep their place in the table. *)
Lemma swapped_other t a : all pool !! tx_Hash t = Some t -> t <> tx ->
  (forall o, old = Some o -> t <> o) -> a = swapped (all pool) old tx -> a !! tx_Hash t = Some t.
Proof.
  intros At Ht Ho ->. unfold swapped. rewrite lookup_insert_ne by (intros Eh; rewrite <- Eh in At; by apply Ht, (ls_table _ _ _ Lo)).
  destruct old as [o|] eqn:Eo; [|done]. rewrite lookup_delete_ne; [done|]. intros Eh. apply (Ho o); [done|].
  destruct (old_listed o Eo) as [Lst _]. pose proof (sd_all _ _ Sd addr o ltac:(by exists b)) as Ao. rewrite Eh in Ao. congruence.
Qed.

Lemma grown_table a t : on_list pool' a t -> all pool' !! tx_Hash t = Some t.
Proof.
  intros [b' L]. destruct (grown_listed _ _ _ _ L) as [(_ & _ & _ & ->)|[L0 Hne]].
  { unfold pool', grown, swapped. cbn. by rewrite lookup_insert_eq. }
  assert (Lt : on_list pool a t) by (by exists b'). apply swapped_other; [by eapply sd_all| | |done].
  - intros ->. by eapply (ls_free _ _ _ Lo).
  - intros o Eo ->. destruct (old_listed o Eo) as [Lst En].
    assert (a = addr) as -> by (by eapply sent_fun; eapply (sd_sent _ _ Sd)).
    destruct (decide (b' = b)) as [->|Hb]; [by apply Hne|]. destruct b, b'; try done; by eapply (sd_apart _ _ Sd).
Qed.

Lemma grown_sound k' : (b = true -> pendingState pool <> None) ->
  (k <= k')%nat -> all pool !! tx_Hash tx = Some tx \/ (S k <= k')%nat -> sound k' pool'.
Proof.
  intros St Hk Hs. split.
  - intros b' a l. unfold pool', grown. rewrite side_all, side_set. case_bool_decide as Eb; [subst b'|by apply Sd].
    intros [[<- <-]|[_ E]]%lookup_insert_Some; [done|by eapply Sd].
  - intros b' a t n L. destruct (grown_listed _ _ _ _ L) as [(_ & -> & _ & ->)|[L0 _]]; [apply Lo|by eapply (sd_sent _ _ Sd)].
  - apply grown_table.
  - intros a t L1 L2. destruct (grown_listed true _ _ _ L1) as [(E1 & -> & _ & ->)|[L1' N1]], (grown_listed false _ _ _ L2) as [(E2 & E3 & _ & E4)|[L2' N2]].
    + congruence.
    + apply (ls_free _ _ _ Lo addr). by exists false.
    + subst. apply (ls_free _ _ _ Lo addr). by exists true.
    + by eapply (sd_apart _ _ Sd).
  - intros h t. unfold pool', grown, swapped. cbn. intros [[<- <-]|[_ E]]%lookup_insert_Some.
    + split; [done|]. split; [exists addr|]; apply Lo.
    + apply (sd_known _ _ Sd). destruct old; [by apply lookup_delete_Some in E as [_ E]|done].
  - unfold pool', grown. cbn. rewrite state_set. destruct b; [intros _; by apply St|apply (sd_state _ _ Sd)].
  - unfold pool', grown, swapped. cbn. pose proof (sd_size _ _ Sd) as Hz.
    assert (Hd : forall a, a ⊆ all pool -> (size (<[tx_Hash tx := tx]> a) <= k')%nat).
    { intros a Ha. destruct Hs as [Hs|Hs].
      - etrans; [|exact (Nat.le_trans _ _ _ Hz Hk)]. apply map_subseteq_size. by apply insert_subseteq_l.
      - rewrite map_size_insert. pose proof (map_subseteq_size _ _ Ha). destruct (a !! tx_Hash tx); cbn; lia. }
    apply Hd. destruct old; [apply delete_subseteq|done].
Qed.

Lemma grown_flying L : tx ∉ L -> flying pool L -> flying pool' L.
Proof.
  intros Ht [Nd F]. split; [done|]. intros t Hi. destruct (F t Hi) as [At Fr]. assert (Hne : t <> tx) by (by intros ->). split.
  - apply swapped_other; [done|done| |done]. intros o Eo ->. destruct (old_listed o Eo) as [Lst _]. apply (Fr addr). by exists b.
  - intros a [b' Lst]. destruct (grown_listed _ _ _ _ Lst) as [(_ & _ & _ & ->)|[L0 _]]; [done|]. apply (Fr a). by exists b'.
Qed.
End Grow.

(** ** Queueing *)

(** Only the queue of [addr] and the table differ. *)
Record only_queue addr (pool p' : Pool) : Prop := {
  oq_pending : pending p' = pending pool;
  oq_state : pendingState p' = pendingState pool;
  oq_beats : beats p' = beats pool;
  oq_queue a : a <> addr -> queue p' !! a = queue pool !! a
}.

Lemma only_queue_refl addr pool : only_queue addr pool pool.
Proof. done. Qed.

Lemma only_queue_trans addr p1 p2 p3 : only_queue addr p1 p2 -> only_queue addr p2 p3 -> only_queue addr p1 p3.
Proof. intros [? ? ? Q1] [? ? ? Q2]. split; [congruence..|]. intros a Ha. by rewrite Q2, Q1. Qed.

Lemma filled_insert m addr l : filled m -> txs_of l <> ∅ -> filled (<[addr := l]> m).
Proof. intros F Hl a x [[_ <-]|[_ E]]%lookup_insert_Some; [done|by eapply F]. Qed.

Lemma filled_delete m addr : filled m -> filled (delete addr m).
Proof. intros F a x [_ E]%lookup_delete_Some. by eapply F. Qed.

Lemma enqueueTx_ok k k' pool addr tx L :
  sound k pool -> filled (queue pool) -> loose pool addr tx -> (k <= k')%nat -> all pool !! tx_Hash tx = Some tx \/ (S k <= k')%nat ->
  flying pool L -> tx ∉ L ->
  runs (enqueueTx config pool (tx_Hash tx) tx) (fun p' => sound k' p' /\ filled (queue p') /\ flying p' L /\ only_queue addr pool p' /\
    all p' ⊆ <[tx_Hash tx := tx]> (all pool)).
Proof.
  intros Sd Fq Lo Hk Hs Fl Ht. unfold enqueueTx. rewrite (sent_or_zero _ _ (ls_sent _ _ _ Lo)). cbn [obind].
  change (default (newTxList false) (queue pool !! addr)) with (list_at false pool addr).
  destruct (list_at_ok k pool false addr Sd) as (W & Es & Et). destruct (Add_cases _ tx W (ls_nonce _ _ _ Lo)) as [(-> & o & Eo & _)|(l' & -> & W' & Es' & Et')].
  - cbn [negb]. apply runs_ret. rewrite Et in Eo. unfold of_account in Eo. destruct (side false pool !! addr) as [l|] eqn:El; [|done].
    assert (list_at false pool addr = l) as -> by (unfold list_at; by rewrite El).
    assert (Ep : set_queue pool (<[addr := l]> (queue pool)) = pool) by (unfold set_queue; rewrite insert_id by done; by destruct pool).
    rewrite Ep. split; [destruct Sd; split; try done; lia|]. split; [done|]. split; [done|]. split; [apply only_queue_refl|].
    apply map_subseteq_spec. intros h t E. destruct (decide (h = tx_Hash tx)) as [->|]; [|by rewrite lookup_insert_ne].
    rewrite lookup_insert_eq. f_equal. symmetry. by apply (ls_table _ _ _ Lo).
  - cbn [negb]. apply runs_ret. rewrite Et. rewrite Es in Es'. rewrite Et in Et'.
    change (set_all _ _) with (grown false pool addr l' (of_account (side false pool) addr !! AccountNonce tx) tx).
    split; [by apply grown_sound with (k := k)|]. split; [|split; [by apply (grown_flying false k)|]].
    + apply filled_insert; [done|]. rewrite Et'. apply insert_non_empty.
    + split; [split; [done..|]; intros a Ha; cbn; by rewrite lookup_insert_ne|]. unfold grown, swapped. cbn.
      apply insert_mono. destruct (of_account _ _ !! _); [apply delete_subseteq|done].
Qed.

Lemma flying_loose k pool tx L addr : sound k pool -> flying pool (tx :: L) -> sent tx addr -> loose pool addr tx /\ (tx ∉ L) /\ flying pool L.
Proof.
  intros Sd [Nd F] Hs. apply NoDup_cons in Nd as [Hi Nd]. destruct (F tx ltac:(by left)) as [At Fr].
  split; [|split; [done|split; [done|]; intros t Ht; apply F; by right]]. split; [done| |by intros t E; congruence|done].
  by destruct (sd_known _ _ Sd _ _ At) as (_ & _ & ?).
Qed.

Lemma enqueue_all k pool addr L :
  sound k pool -> filled (queue pool) -> flying pool L -> Forall (fun tx => sent tx addr) L ->
  runs (each (fun pool tx => enqueueTx config pool (tx_Hash tx) tx) L pool)
    (fun p' => sound k p' /\ filled (queue p') /\ only_queue addr pool p' /\ all p' ⊆ all pool).
Proof.
  intros Sd Fq Fl Fs.
  eapply runs_impl; [apply (each_runs _ (fun L' p' => sound k p' /\ filled (queue p') /\ flying p' L' /\ Forall (fun tx => sent tx addr) L' /\ only_queue addr pool p' /\
    all p' ⊆ all pool))|].
  - intros tx L' p1 (Sd1 & Fq1 & Fl1 & Fs1 & O1 & T1). apply Forall_cons in Fs1 as [Hs Fs1].
    destruct (flying_loose _ _ _ _ _ Sd1 Fl1 Hs) as (Lo & Ht & Fl2).
    eapply runs_impl; [apply (enqueueTx_ok k k p1 addr tx L'); try done; left; by apply Fl1; left|]. cbn.
    intros p2 (Sd2 & Fq2 & Fl2' & O2 & T2). split_and!; try done; [by eapply only_queue_trans|]. etrans; [done|].
    rewrite insert_id; [done|]. by apply Fl1; left.
  - split_and!; done.
  - cbn. intros p' (? & ? & _ & _ & ? & ?). done.
Qed.

(** ** Removing *)

Definition del (h : bytes) (p : Pool) : Pool := set_all p (delete h (all p)).

Lemma enqueueTx_del h p tx : tx_Hash tx <> h ->
  enqueueTx config (del h p) (tx_Hash tx) tx = let* p' := enqueueTx config p (tx_Hash tx) tx in Ok (del h p').
Proof.
  intros Hh. unfold enqueueTx. destruct (sender_or_zero config tx) as [from| |]; cbn; [|done..].
  destruct (list_Add _ _) as [[[] old] l]; cbn; [|done]. unfold del, set_all, set_queue. cbn. do 2 f_equal. rewrite delete_insert_ne by done. f_equal.
  destruct old as [o|]; [|done]. apply delete_delete.
Qed.

Lemma enqueue_all_del h L p (P : Pool -> Prop) : h ∉ map tx_Hash L ->
  runs (each (fun pool tx => enqueueTx config pool (tx_Hash tx) tx) L p) P ->
  runs (each (fun pool tx => enqueueTx config pool (tx_Hash tx) tx) L (del h p)) (fun p' => exists g, p' = del h g /\ P g).
Proof.
  revert p. induction L as [|tx L IH]; intros p Hh R; cbn [each map] in *.
  - destruct R as (r & [= <-] & Pr). apply runs_ret. by exists p.
  - apply not_elem_of_cons in Hh as [Hh HL]. rewrite enqueueTx_del by done.
    destruct (enqueueTx config p (tx_Hash tx) tx) as [p1| |]; cbn [obind] in *; [by apply IH|by destruct R as (? & ? & _)..].
Qed.

Lemma sound_state k pool ms : sound k pool -> sound k (set_pendingState pool (Some ms)).
Proof. intros [L S A P K _ Z]. by split. Qed.

Lemma set_all_id (pool : Pool) : set_all pool (all pool) = pool.
Proof. by destruct pool. Qed.

Lemma shrink_only b k pool addr l l' : sound k pool -> side b pool !! addr = Some l -> list_wf l' -> strict l' = b -> txs_of l' ⊆ txs_of l ->
  sound k (set_side b pool (<[addr := l']> (side b pool))).
Proof.
  intros Sd El W Es Sub. pose proof (shrink b k pool addr l l' [] Sd El W Es Sub ltac:(by intros t ?%not_elem_of_nil)) as S. cbn in S.
  rewrite <- (all_set b pool (<[addr := l']> (side b pool))), set_all_id in S. done.
Qed.

(** An empty list goes. *)
Lemma drop_empty b k pool addr l : sound k pool -> side b pool !! addr = Some l -> txs_of l = ∅ -> sound k (set_side b pool (delete addr (side b pool))).
Proof.
  intros Sd El E0. apply (sound_sub k pool); [done| | | | |].
  - intros b' a l0. rewrite side_set. case_bool_decide; [subst b'; intros [_ E]%lookup_delete_Some|]; by eapply Sd.
  - intros b' a n t. rewrite side_set. case_bool_decide; [subst b'; rewrite of_account_delete|done]. by case_decide.
  - by rewrite all_set.
  - intros a t [b' L]. rewrite all_set. apply (sd_all _ _ Sd a). exists b'. revert L. unfold listed. rewrite side_set.
    case_bool_decide; [subst b'; rewrite of_account_delete|done]. by case_decide.
  - rewrite state_set. intros P. apply (sd_state _ _ Sd). destruct b; [|done]. cbn in *. intros E. rewrite E in El. done.
Qed.

(** A transaction that is on no list leaves the table. *)
Lemma del_sound k pool tx : sound k pool -> (forall t, all pool !! tx_Hash tx = Some t -> t = tx) -> (forall a, ~ on_list pool a tx) ->
  sound k (del (tx_Hash tx) pool).
Proof.
  intros Sd Ht Fr. apply (sound_sub k pool); [done|apply Sd|done|apply delete_subseteq| |apply Sd].
  intros a t L. cbn. pose proof (sd_all _ _ Sd a t L) as At. rewrite lookup_delete_ne; [done|].
  intros E. rewrite <- E in At. rewrite (Ht t At) in L. by eapply Fr.
Qed.

Lemma list_Empty_spec l : list_Empty l = bool_decide (txs_of l = ∅).
Proof.
  unfold list_Empty, list_Len, sm_Len. fold (txs_of l). case_bool_decide as E.
  - rewrite E. by rewrite map_size_empty.
  - apply Nat.eqb_neq. by intros ?%map_size_empty_inv.
Qed.

(** What [Remove] does to a list. *)
Record removal (l : txList) tx (invalids : list Transaction) (l' : txList) : Prop := {
  rm_takes : takes l invalids l';
  rm_gone : txs_of l' !! AccountNonce tx = None;
  rm_after t : t ∈ invalids -> AccountNonce tx < AccountNonce t
}.

Lemma Remove_removal l tx : list_wf l -> exists found invalids l', list_Remove l tx = (found, invalids, l') /\ removal l tx invalids l' /\
  (found = false -> txs_of l' = txs_of l).
Proof.
  intros W. destruct (Remove_step l tx W) as (r & l' & E & W' & Es & S). cbn in E.
  destruct (list_Remove l tx) as [[found invalids] l1] eqn:Er. injection E as <- <-. exists found, invalids, l1. split; [done|].
  cbn in S. destruct (txs_of l !! AccountNonce tx) as [o|] eqn:Eo.
  - destruct S as (-> & [Nd Mi] & Et). split; [|done].
    assert (A : forall t, t ∈ invalids -> txs_of l !! AccountNonce t = Some t /\ strict l && (AccountNonce tx <? AccountNonce t) = true)
      by (by intros t Ht%Mi%keep_Some). split; [split; [done|done| |done|]| |].
    + rewrite Et. etrans; [apply delete_subseteq|apply keep_sub].
    + intros t [Ht Hs]%A. split; [done|]. rewrite Et. apply lookup_delete_None. right. by rewrite keep_lookup, Ht, Hs.
    + rewrite Et. apply lookup_delete_eq.
    + intros t [_ [_ L]%andb_true_iff]%A. lia.
  - destruct S as (-> & -> & Et). split; [|done]. split; [split; [done|done|by rewrite Et|apply NoDup_nil_2|by intros t ?%not_elem_of_nil]| |].
    + by rewrite Et.
    + by intros t ?%not_elem_of_nil.
Qed.

(** A list of the pool lost the transactions [R], which leave the table, and
    [F], which are on their way. *)
Lemma taken b k pool addr l l' R F :
  sound k pool -> side b pool !! addr = Some l -> takes l (R ++ F) l' ->
  let p' := set_all (set_side b pool (<[addr := l']> (side b pool))) (without R (all pool)) in
  sound k p' /\ flying p' F /\ Forall (fun t => sent t addr) F.
Proof.
  intros Sd El Tk p'. destruct (sd_lists _ _ Sd _ _ _ El) as [_ Es]. assert (Ea : of_account (side b pool) addr = txs_of l) by (unfold of_account; by rewrite El).
  assert (Li : forall t, t ∈ R ++ F -> listed (side b pool) addr t) by (intros t Ht; unfold listed; rewrite Ea; by apply (tk_out _ _ _ Tk)).
  split; [apply (shrink b k pool addr l); [done|done|apply Tk| |apply Tk|]|split; [split|]].
  - by rewrite (tk_strict _ _ _ Tk).
  - intros t Ht. apply (tk_out _ _ _ Tk), elem_of_app. by left.
  - pose proof (tk_nodup _ _ _ Tk) as Nd. by apply NoDup_app in Nd as (_ & _ & ?).
  - intros t Ht. assert (Ht' : t ∈ R ++ F) by (apply elem_of_app; by right). pose proof (Li t Ht') as L. split.
    + cbn. rewrite without_lookup, decide_False; [apply (sd_all _ _ Sd addr); by exists b|].
      intros (r & Eh & Hr)%list_elem_of_In%in_map_iff. apply list_elem_of_In in Hr.
      destruct (listed_inj k pool addr addr r t Sd) as [-> _]; [exists b; apply Li, elem_of_app; by left|by exists b|done|].
      pose proof (tk_nodup _ _ _ Tk) as Nd. apply NoDup_app in Nd as (_ & Nd & _). by apply (Nd t).
    + intros a [b' La]. unfold listed, p' in La. rewrite side_all, side_set in La. case_bool_decide as Eb.
      * subst b'. rewrite of_account_insert in La. case_decide as D; [destruct (tk_out _ _ _ Tk t Ht') as [_ ?]; congruence|].
        apply D. by eapply sent_fun; eapply (sd_sent _ _ Sd).
      * assert (a = addr) as -> by (by eapply sent_fun; eapply (sd_sent _ _ Sd)). destruct b, b'; try done; by eapply (sd_apart _ _ Sd).
  - apply Forall_forall. intros t Ht. eapply (sd_sent _ _ Sd), Li, elem_of_app. by right.
Qed.

Lemma removal_flying b k pool addr l tx invalids l' :
  sound k pool -> side b pool !! addr = Some l -> removal l tx invalids l' ->
  sound k (set_side b pool (<[addr := l']> (side b pool))) /\ flying (set_side b pool (<[addr := l']> (side b pool))) invalids /\
  Forall (fun t => sent t addr) invalids /\ (all pool !! tx_Hash tx = Some tx -> tx_Hash tx ∉ map tx_Hash invalids).
Proof.
  intros Sd El Rm. destruct (taken b k pool addr l l' [] invalids Sd El (rm_takes _ _ _ _ Rm)) as (S1 & F1 & Fs). cbn in S1, F1.
  rewrite <- (all_set b pool (<[addr := l']> (side b pool))), set_all_id in S1, F1. split_and!; [done..|].
  intros At (t & Eh & Ht)%list_elem_of_In%in_map_iff. apply list_elem_of_In in Ht. destruct F1 as [_ F1]. destruct (F1 t Ht) as [A2 _].
  rewrite all_set, Eh, At in A2. injection A2 as ->. pose proof (rm_after _ _ _ _ Rm t Ht). lia.
Qed.

(** Only the lists of [addr] differ. *)
Record touched addr (pool p' : Pool) : Prop := {
  tc_side b a : a <> addr -> side b p' !! a = side b pool !! a;
  tc_state : pendingState p' = None -> pendingState pool = None
}.

Lemma touched_trans addr p1 p2 p3 : touched addr p1 p2 -> touched addr p2 p3 -> touched addr p1 p3.
Proof. intros [S1 T1] [S2 T2]. split; [intros b a Ha; by rewrite S2, S1|auto]. Qed.

Lemma only_queue_touched addr pool p' : only_queue addr pool p' -> touched addr pool p'.
Proof. intros [P S _ Q]. split; [intros [] a Ha; cbn; [by rewrite P|by apply Q]|by rewrite S]. Qed.

Lemma set_side_touched b addr (pool : Pool) x : (forall a, a <> addr -> x !! a = side b pool !! a) -> touched addr pool (set_side b pool x).
Proof. intros E. split; [|by rewrite state_set]. intros b' a Ha. rewrite side_set. case_bool_decide; [subst b'; by apply E|done]. Qed.

Lemma touched_del h addr pool g : touched addr pool g -> touched addr pool (del h g).
Proof. intros [S T]. by split. Qed.

(** The pending side of [removeTx]. *)
Definition remove_pending (pool : Pool) addr tx : total Pool :=
  match pending pool !! addr with
  | None => Ok pool
  | Some l =>
      let '(removed, invalids, l) := list_Remove l tx in
      let pool := set_pending pool (<[addr := l]> (pending pool)) in
      if removed then
        let* pool :=
          if list_Empty l then Ok (set_beats (set_pending pool (delete addr (pending pool))) (delete addr (beats pool)))
          else each (fun pool tx => enqueueTx config pool (tx_Hash tx) tx) invalids pool in
        let nonce := AccountNonce tx in
        let* (n, pool) := pending_nonce pool addr in
        if nonce <? n then set_pending_nonce pool addr nonce else Ok pool
      else Ok pool
  end.

Lemma nonce_runs (pool : Pool) addr nonce (P : Pool -> Prop) : pendingState pool <> None ->
  (forall ms, P (set_pendingState pool (Some ms))) ->
  runs (let* (n, pool) := pending_nonce pool addr in if nonce <? n then set_pending_nonce pool addr nonce else Ok pool) P.
Proof.
  intros Hs HP. unfold pending_nonce. destruct (pendingState pool) as [ms|]; [|done]. destruct (ms_GetNonce ms addr) as [n ms1]. cbn.
  unfold set_pending_nonce. cbn. destruct (nonce <? n); apply runs_ret; apply HP.
Qed.

(** The pool after the pending side of [removeTx], before the table forgets. *)
Record removing k addr tx (pool g : Pool) : Prop := {
  rg_ok : pool_ok k g;
  rg_touched : touched addr pool g;
  rg_gone : of_account (pending g) addr !! AccountNonce tx = None;
  rg_table : all g ⊆ all pool
}.

Lemma removing_state k addr tx pool g ms : removing k addr tx pool g -> removing k addr tx pool (set_pendingState g (Some ms)).
Proof. intros [[Sg Fg] [T2 _] Ng Ag]. split; [split; [by apply sound_state|exact Fg]|by split|done|done]. Qed.

Lemma sound_beats k pool x : sound k pool -> sound k (set_beats pool x).
Proof. intros [L S A P K T Z]. by split. Qed.

Section Remove.
Context (k : nat) (pool : Pool) (addr : bytes) (tx : Transaction) (l l' : txList) (invalids : list Transaction).
Context (Ok : pool_ok k pool) (Hs : sent tx addr) (At : all pool !! tx_Hash tx = Some tx).
Context (El : pending pool !! addr = Some l) (Rm : removal l tx invalids l').
Let g1 : Pool := set_pending pool (<[addr := l']> (pending pool)).

Lemma removed_touched : touched addr pool g1.
Proof. apply (set_side_touched true). intros a Ha. by rewrite lookup_insert_ne. Qed.

Lemma removed_gone : of_account (pending g1) addr !! AccountNonce tx = None.
Proof. cbn. rewrite of_account_insert, decide_True by done. apply (rm_gone _ _ _ _ Rm). Qed.

Lemma removed_sound : sound k g1.
Proof. by apply (removal_flying true k pool addr l tx invalids l'); [apply Ok|..]. Qed.

Lemma removing_filled : txs_of l' <> ∅ -> removing k addr tx pool g1.
Proof.
  intros Hl. split; [|apply removed_touched|apply removed_gone|done].
  split; [apply removed_sound|]. intros []; [by apply filled_insert; [apply (po_filled _ _ Ok true)|]|apply (po_filled _ _ Ok false)].
Qed.

Lemma removing_empty : txs_of l' = ∅ -> removing k addr tx pool (set_beats (set_pending g1 (delete addr (pending g1))) (delete addr (beats g1))).
Proof.
  intros Hl. split.
  - split.
    + apply sound_beats. apply (drop_empty true k g1 addr l'); [apply removed_sound|cbn; by rewrite lookup_insert_eq|done].
    + intros []; [|apply (po_filled _ _ Ok false)]. cbn. rewrite delete_insert_eq. apply filled_delete, (po_filled _ _ Ok true).
  - split; [|done]. intros [] a Ha; [|done]. cbn. by rewrite lookup_delete_ne, lookup_insert_ne.
  - cbn. by rewrite of_account_delete, decide_True.
  - done.
Qed.

Lemma removing_enqueued : txs_of l' <> ∅ ->
  runs (each (fun pool tx => enqueueTx config pool (tx_Hash tx) tx) invalids (del (tx_Hash tx) g1))
    (fun p' => exists g, p' = del (tx_Hash tx) g /\ removing k addr tx pool g).
Proof.
  intros Hl. destruct (removing_filled Hl) as [[Sd1 F1] T1 N1 A1]. destruct (removal_flying true k pool addr l tx invalids l' (po_sound _ _ Ok) El Rm) as (_ & Fl & Fs & Hh).
  apply enqueue_all_del; [by apply Hh|]. eapply runs_impl; [apply (enqueue_all k g1 addr invalids); [done|apply (F1 false)|done|done]|].
  cbn. intros g (Sg & Fg & Og & Tg). split.
  - split; [done|]. intros []; [|done]. cbn. rewrite (oq_pending _ _ _ Og). apply (F1 true).
  - eapply touched_trans; [done|by apply only_queue_touched].
  - by rewrite (oq_pending _ _ _ Og).
  - by etrans.
Qed.
End Remove.

Lemma remove_pending_ok k pool addr tx :
  pool_ok k pool -> sent tx addr -> all pool !! tx_Hash tx = Some tx ->
  runs (remove_pending (del (tx_Hash tx) pool) addr tx) (fun p' => exists g, p' = del (tx_Hash tx) g /\ removing k addr tx pool g).
Proof.
  intros Ok Hs At. unfold remove_pending. cbn [pending del set_all]. destruct (pending pool !! addr) as [l|] eqn:El.
  2: { apply runs_ret. exists pool. split; [done|]. split; [done|done| |done]. unfold of_account. by rewrite El. }
  destruct (sd_lists _ _ (po_sound _ _ Ok) true _ _ El) as [W Es]. destruct (Remove_removal l tx W) as (found & invalids & l' & -> & Rm & Hf).
  change (set_pending _ (<[addr := l']> _)) with (del (tx_Hash tx) (set_pending pool (<[addr := l']> (pending pool)))).
  assert (Hl : txs_of l <> ∅) by (by apply (po_filled _ _ Ok true addr)).
  assert (St : forall g, touched addr pool g -> pendingState g <> None).
  { intros g T E%(tc_state _ _ _ T). apply (sd_state _ _ (po_sound _ _ Ok)); [|done]. intros E0. by rewrite E0 in El. }
  destruct found; [|apply runs_ret; eexists; split; [done|]; apply (removing_filled k pool addr tx l l' invalids); try done; by rewrite Hf].
  eapply runs_bind with (P := fun p' => exists g, p' = del (tx_Hash tx) g /\ removing k addr tx pool g).
  - rewrite list_Empty_spec. case_bool_decide as E0; [|by apply (removing_enqueued k pool addr tx l l')].
    apply runs_ret. eexists. split; [|by apply (removing_empty k pool addr tx l l' invalids)]. done.
  - intros p' (g & -> & Rg). apply nonce_runs; [exact (St g (rg_touched _ _ _ _ _ Rg))|]. intros ms. exists (set_pendingState g (Some ms)).
    split; [done|]. by apply removing_state.
Qed.

Lemma removeTx_eq (pool : Pool) h : removeTx config pool h =
  match all pool !! h with
  | None => Ok pool
  | Some tx =>
      let* a := sender_or_zero config tx in
      let* p := remove_pending (del h pool) a tx in
      match queue p !! a with
      | None => Ok p
      | Some l =>
          let '(_, _, l) := list_Remove l tx in
          Ok (set_queue p (if list_Empty l then delete a (queue p) else <[a := l]> (queue p)))
      end
  end.
Proof. done. Qed.

(** The queue of an account after a removal, without an empty list. *)
Lemma remove_queued k g addr tx l invalids l' : pool_ok k g -> queue g !! addr = Some l -> removal l tx invalids l' ->
  let g' := set_queue g (if list_Empty l' then delete addr (queue g) else <[addr := l']> (queue g)) in
  pool_ok k g' /\ touched addr g g' /\ of_account (queue g') addr !! AccountNonce tx = None.
Proof.
  intros Ok El Rm g'. destruct Ok as [Sd F]. destruct (sd_lists _ _ Sd false _ _ El) as [W Es].
  assert (S1 : sound k (set_queue g (<[addr := l']> (queue g)))).
  { apply (shrink_only false k g addr l); [done|done|apply (rm_takes _ _ _ _ Rm)| |apply (rm_takes _ _ _ _ Rm)]. by rewrite (tk_strict _ _ _ (rm_takes _ _ _ _ Rm)). }
  unfold g'. rewrite list_Empty_spec. case_bool_decide as E0.
  - pose proof (drop_empty false k _ addr l' S1 ltac:(cbn; by rewrite lookup_insert_eq) E0) as S2.
    cbn in S2. rewrite delete_insert_eq in S2. split; [split; [done|]|split].
    + intros []; [apply (F true)|]. cbn. apply filled_delete, (F false).
    + split; [|done]. intros [] a Ha; [done|]. cbn. by rewrite lookup_delete_ne.
    + cbn. by rewrite of_account_delete, decide_True.
  - split; [split; [done|]|split].
    + intros []; [apply (F true)|]. cbn. by apply filled_insert; [apply (F false)|].
    + split; [|done]. intros [] a Ha; [done|]. cbn. by rewrite lookup_insert_ne.
    + cbn. rewrite of_account_insert, decide_True by done. apply (rm_gone _ _ _ _ Rm).
Qed.

(** Nothing is left of a transaction once both lists lost its nonce. *)
Lemma del_ok k g addr tx : pool_ok k g -> sent tx addr -> (forall t, all g !! tx_Hash tx = Some t -> t = tx) ->
  (forall b, of_account (side b g) addr !! AccountNonce tx = None) -> pool_ok k (del (tx_Hash tx) g).
Proof.
  intros [Sd F] Hs Ht Un. split; [|exact F]. apply del_sound; [done|done|]. intros a [b L].
  assert (a = addr) as -> by (eapply sent_fun; [by eapply (sd_sent _ _ Sd)|done]). unfold listed in L. rewrite Un in L. done.
Qed.

(** Removing a transaction touches the lists of its account only. *)
Lemma removeTx_ok k pool h : pool_ok k pool ->
  runs (removeTx config pool h) (fun p' => pool_ok k p' /\ all p' ⊆ all pool /\
    forall addr, (forall tx, all pool !! h = Some tx -> sent tx addr) -> touched addr pool p').
Proof.
  intros Ok. rewrite removeTx_eq. destruct (all pool !! h) as [tx|] eqn:At; [|by apply runs_ret].
  destruct (sd_known _ _ (po_sound _ _ Ok) _ _ At) as (-> & (addr & Hs) & Hn). rewrite (sent_or_zero _ _ Hs). cbn [obind].
  eapply runs_bind; [by apply (remove_pending_ok k pool addr tx)|]. cbn. intros p' (g & -> & [Okg Tg Ng Sg]).
  assert (Ag : forall t, all g !! tx_Hash tx = Some t -> t = tx) by (intros t E; apply (lookup_weaken _ _ _ _ E) in Sg; congruence).
  assert (Sd : delete (tx_Hash tx) (all g) ⊆ all pool) by (etrans; [apply delete_subseteq|done]).
  eapply runs_impl with (P := fun p' => pool_ok k p' /\ all p' ⊆ all pool /\ touched addr pool p').
  2: { intros p' (Op & Sp & Tp). split; [done|]. split; [done|]. intros a Ha. by rewrite (sent_fun tx a addr (Ha tx eq_refl) Hs). }
  cbn [queue del set_all]. destruct (queue g !! addr) as [l|] eqn:El.
  - destruct (sd_lists _ _ (po_sound _ _ Okg) false _ _ El) as [W Es]. destruct (Remove_removal l tx W) as (found & invalids & l' & -> & Rm & _).
    destruct (remove_queued k g addr tx l invalids l' Okg El Rm) as (Ok' & T' & N'). apply runs_ret.
    change (set_queue (del (tx_Hash tx) g) ?x) with (del (tx_Hash tx) (set_queue g x)).
    split; [|split; [done|by eapply touched_del, touched_trans]]. apply (del_ok k _ addr); [done|done|exact Ag|]. by intros [].
  - apply runs_ret. split; [|split; [done|by apply touched_del]]. apply (del_ok k g addr); [done|done|done|]. intros []; [done|]. unfold of_account. cbn. by rewrite El.
Qed.

(** ** Promoting *)

(** Only the pending list of [addr] differs, and the table got no larger. *)
Record only_pending addr (pool p' : Pool) : Prop := {
  op_queue : queue p' = queue pool;
  op_state : pendingState p' <> None;
  op_table : all p' ⊆ all pool;
  op_pending a : a <> addr -> pending p' !! a = pending pool !! a
}.

Lemma only_pending_trans addr p1 p2 p3 : only_pending addr p1 p2 -> only_pending addr p2 p3 -> only_pending addr p1 p3.
Proof. intros [Q1 S1 T1 P1] [Q2 S2 T2 P2]. split; [congruence|done|by etrans|]. intros a Ha. by rewrite P2, P1. Qed.

Lemma promoteTx_ok k reset env pool addr tx L :
  sound k pool -> filled (pending pool) -> pendingState pool <> None -> flying pool (tx :: L) -> sent tx addr ->
  runs (promoteTx reset env pool addr (tx_Hash tx) tx) (fun p' => sound k p' /\ filled (pending p') /\ flying p' L /\ only_pending addr pool p').
Proof.
  intros Sd Fp St Fl Hs. destruct (flying_loose _ _ _ _ _ Sd Fl Hs) as (Lo & Ht & FL). destruct (proj2 Fl tx ltac:(by left)) as [At Fr].
  unfold promoteTx. destruct (pendingState pool) as [ms|] eqn:Ems; [|done]. cbn [obind].
  change (default (newTxList true) (pending pool !! addr)) with (list_at true pool addr).
  destruct (list_at_ok k pool true addr Sd) as (W & Es & Et). destruct (Add_cases _ tx W (ls_nonce _ _ _ Lo)) as [(-> & o & Eo & _)|(l' & -> & W' & Es' & Et')]; cbn [negb].
  - apply runs_ret. rewrite Et in Eo. unfold of_account in Eo. destruct (side true pool !! addr) as [l|] eqn:El; [|done].
    assert (list_at true pool addr = l) as -> by (unfold list_at; by rewrite El).
    assert (Ep : set_pending pool (<[addr := l]> (pending pool)) = pool) by (unfold set_pending; rewrite insert_id by done; by destruct pool).
    rewrite Ep. split_and!; [by apply (del_sound k pool tx); [|apply Lo|]|done| |].
    + split; [by apply FL|]. intros t Hi. destruct (proj2 FL t Hi) as [A1 F1]. split; [|exact F1]. cbn. rewrite lookup_delete_ne; [done|].
      intros E. rewrite <- E in A1. by rewrite (ls_table _ _ _ Lo t A1) in Hi.
    + split; [done|cbn; by rewrite Ems|apply delete_subseteq|done].
  - rewrite Es in Es'. rewrite Et in *. set (g := grown true pool addr l' (of_account (side true pool) addr !! AccountNonce tx) tx).
    change (set_all _ _) with g. unfold set_pending_nonce. cbn [pendingState set_beats g grown set_all set_side set_pending]. rewrite Ems.
    apply runs_ret. assert (Sg : sound k g) by (apply (grown_sound true k); try done; [by rewrite Ems|by left]).
    assert (Fg : flying g L) by (by apply (grown_flying true k)). split_and!.
    + by apply sound_state, sound_beats.
    + cbn. apply filled_insert; [done|]. rewrite Et'. apply insert_non_empty.
    + exact Fg.
    + split; [done|done| |].
      * cbn. unfold swapped. apply insert_subseteq_l; [done|].
        destruct (of_account _ _ !! _); [apply delete_subseteq|done].
      * intros a Ha. cbn. by rewrite lookup_insert_ne.
Qed.

Lemma promote_all k reset env pool addr L :
  sound k pool -> filled (pending pool) -> pendingState pool <> None -> flying pool L -> Forall (fun t => sent t addr) L ->
  runs (each (fun p o => match o with Some t => promoteTx reset env p addr (tx_Hash t) t | None => Panic end) (map Some L) pool)
    (fun p' => sound k p' /\ filled (pending p') /\ only_pending addr pool p').
Proof.
  intros Sd Fp St Fl Fs. eapply runs_impl; [apply (each_runs _ (fun L' p' => exists L, L' = map Some L /\
    sound k p' /\ filled (pending p') /\ flying p' L /\ Forall (fun t => sent t addr) L /\ only_pending addr pool p'))|].
  - intros o L' p1 (L1 & E & Sd1 & Fp1 & Fl1 & Fs1 & O1). destruct L1 as [|tx L1]; [done|]. injection E as -> ->.
    apply Forall_cons in Fs1 as [Hs Fs1]. eapply runs_impl; [apply (promoteTx_ok k reset env p1 addr tx L1); try done; apply O1|]. cbn.
    intros p2 (Sd2 & Fp2 & Fl2 & O2). exists L1. split_and!; try done. by eapply only_pending_trans.
  - exists L. by split_and!.
  - cbn. intros p' (L1 & _ & ? & ? & _ & _ & ?). done.
Qed.

Definition len_at (m : gmap bytes txList) addr : nat := match m !! addr with Some l => list_Len l | None => 0%nat end.

(** What promoting an account leaves. *)
Record promoted k addr (pool p' : Pool) : Prop := {
  pr_ok : pool_ok k p';
  pr_touched : touched addr pool p';
  pr_state : pendingState p' <> None;
  pr_table : all p' ⊆ all pool;
  pr_len : Z.of_nat (len_at (queue p') addr) <= maxQueuedPerAccount
}.

Lemma without_app (R1 R2 : list Transaction) (a : gmap bytes Transaction) : without R2 (without R1 a) = without (R1 ++ R2) a.
Proof. unfold without. by rewrite foldl_app. Qed.

(** The cap at the end, which also drops an empty list. *)
Lemma cap_queue k pool addr l :
  sound k pool -> filled (pending pool) -> (forall a x, a <> addr -> queue pool !! a = Some x -> txs_of x <> ∅) -> queue pool !! addr = Some l ->
  runs (let* (over, l) := list_Cap l maxQueuedPerAccount in
        let* p := forget pool over in
        Ok (Z.of_nat (list_Len l), set_queue p (if list_Empty l then delete addr (queue p) else <[addr := l]> (queue p))))
    (fun r => pool_ok k r.2 /\ touched addr pool r.2 /\ pendingState r.2 = pendingState pool /\ all r.2 ⊆ all pool /\
      r.1 = Z.of_nat (len_at (queue r.2) addr) /\ r.1 <= maxQueuedPerAccount).
Proof.
  intros Sd Fp Fq El. destruct (sd_lists _ _ Sd false _ _ El) as [W Es].
  destruct (Cap_takes l maxQueuedPerAccount W max_account_nonneg) as (R & l' & -> & Tk & Hl). cbn [obind].
  rewrite forget_eq. cbn [obind]. apply runs_ret. cbn [fst snd]. rewrite <- (app_nil_r R) in Tk.
  destruct (taken false k pool addr l l' R [] Sd El Tk) as (S1 & _ & _). rewrite list_Empty_spec. case_bool_decide as E0.
  - pose proof (drop_empty false k _ addr l' S1 ltac:(cbn; by rewrite lookup_insert_eq) E0) as S2. cbn in S2. rewrite delete_insert_eq in S2.
    assert (Hz : list_Len l' = 0%nat) by (unfold list_Len, sm_Len; fold (txs_of l'); by rewrite E0, map_size_empty).
    split_and!; try done; [|split; [|done]; intros [] a Ha; [done|cbn; by rewrite lookup_delete_ne]|apply without_sub|].
    + split; [done|]. intros []; [done|]. cbn. intros a x [Ha Ex]%lookup_delete_Some. by eapply Fq.
    + cbn. unfold len_at. by rewrite lookup_delete_eq, Hz.
  - split_and!; try done; [|split; [|done]; intros [] a Ha; [done|cbn; by rewrite lookup_insert_ne]|apply without_sub|].
    + split; [done|]. intros []; [done|]. cbn. intros a x [[<- <-]|[Ha Ex]]%lookup_insert_Some; [done|by eapply Fq].
    + cbn. unfold len_at. by rewrite lookup_insert_eq.
Qed.

Lemma promote_account_ok k reset env st pool addr : pool_ok k pool -> pendingState pool <> None ->
  runs (promote_account reset env st pool addr) (fun r => promoted k addr pool r.2 /\ r.1 = Z.of_nat (len_at (queue r.2) addr)).
Proof.
  intros [Sd F] St. unfold promote_account. destruct (queue pool !! addr) as [l|] eqn:El.
  2: { apply runs_ret. cbn. unfold len_at. rewrite El. split; [|done]. split; try done. unfold len_at. rewrite El. apply max_account_nonneg. }
  destruct (sd_lists _ _ Sd false _ _ El) as [W Es].
  destruct (Forward_takes l (ns_GetNonce st addr) W) as (R1 & l1 & -> & T1 & _). cbn [obind]. rewrite forget_eq. cbn [obind].
  destruct (Filter_takes l1 (ns_GetBalance st addr) (tk_wf _ _ _ T1)) as (R2 & I & l2 & -> & T2 & HI & _).
  rewrite HI, app_nil_r in T2 by (rewrite (tk_strict _ _ _ T1); done). rewrite forget_eq. cbn [obind all set_all]. rewrite without_app.
  unfold pending_nonce. cbn [pendingState set_all]. destruct (pendingState pool) as [ms|]; [|done]. destruct (ms_GetNonce ms addr) as [n ms']. cbn [obind].
  destruct (Ready_takes l2 n (tk_wf _ _ _ T2)) as (R3 & l3 & -> & T3 & _).
  destruct (taken false k pool addr l l3 (R1 ++ R2) R3 Sd El ltac:(rewrite <- app_assoc; by eapply takes_app, takes_app)) as (S3 & F3 & Fs).
  set (p3 := set_queue _ _). eapply runs_bind; [apply (promote_all k reset env p3 addr R3); [exact (sound_state _ _ ms' S3)|apply (F true)|done|exact F3|done]|].
  cbn. intros p4 (S4 & Fp4 & [Q4 St4 A4 P4]). rewrite Q4. cbn [queue p3 set_queue]. rewrite lookup_insert_eq. cbn [from_option].
  assert (E4 : queue p4 !! addr = Some l3) by (rewrite Q4; cbn; by rewrite lookup_insert_eq).
  eapply runs_impl; [apply (cap_queue k p4 addr l3); [done|done| |done]|].
  - intros a x Ha. rewrite Q4. cbn. rewrite lookup_insert_ne by done. apply (F false).
  - cbn. intros [m p'] (Ok' & T' & St' & A' & Em & Hm). cbn in *. split; [|done]. split; [done| |by rewrite St'| |by rewrite <- Em].
    + eapply touched_trans; [|done]. split; [|done]. intros [] a Ha; cbn; [by rewrite P4|rewrite Q4; cbn; by rewrite lookup_insert_ne].
    + etrans; [done|]. etrans; [done|]. apply without_sub.
Qed.

(** ** Totals *)

Fixpoint lens (m : gmap bytes txList) (K : list bytes) : Z :=
  match K with [] => 0 | a :: K => Z.of_nat (len_at m a) + lens m K end.

Lemma lens_app m K1 K2 : lens m (K1 ++ K2) = lens m K1 + lens m K2.
Proof. induction K1 as [|a K IH]; cbn; lia. Qed.

Lemma lens_nonneg m K : 0 <= lens m K.
Proof. induction K as [|a K IH]; cbn; lia. Qed.

Lemma lens_ext m m' K : (forall a, a ∈ K -> m !! a = m' !! a) -> lens m K = lens m' K.
Proof.
  intros E. induction K as [|a K IH]; cbn; [done|]. unfold len_at. rewrite (E a), IH; [done| |by left]. intros x Hx. apply E. by right.
Qed.

#[local] Instance lens_perm m : Proper ((≡ₚ) ==> (=)) (lens m).
Proof. intros K1 K2 P. induction P; cbn; lia. Qed.

Lemma addrs_keys m addr : addr ∈ addrs m <-> is_Some (m !! addr).
Proof.
  rewrite addrs_perm, list_elem_of_fmap. split.
  - intros ([a l] & -> & E%elem_of_map_to_list). by exists l.
  - intros [l E]. exists (addr, l). split; [done|]. by apply elem_of_map_to_list.
Qed.

Lemma addrs_nodup m : NoDup (addrs m).
Proof. rewrite addrs_perm. apply NoDup_fst_map_to_list. Qed.

Lemma lens_le m K : NoDup K -> lens m K <= lens m (addrs m).
Proof.
  intros Nd. set (K' := filter (fun a => is_Some (m !! a)) K).
  assert (E : lens m K = lens m K').
  { unfold K'. clear Nd. induction K as [|a K IH]; [done|]. rewrite filter_cons. cbn [lens]. case_decide as D; cbn [lens]; rewrite IH; [done|].
    unfold len_at. destruct (m !! a); [by destruct D; eexists|done]. }
  rewrite E. assert (Sb : K' ⊆+ addrs m).
  { apply NoDup_submseteq; [by apply NoDup_filter|]. intros a [Ha _]%list_elem_of_filter. by apply addrs_keys. }
  apply submseteq_Permutation in Sb as [rest ->]. rewrite lens_app. pose proof (lens_nonneg m rest). lia.
Qed.

(** ** Promoting all accounts *)

Record kept_ok k (pool p' : Pool) : Prop := {
  ko_ok : pool_ok k p';
  ko_state : pendingState p' <> None;
  ko_table : all p' ⊆ all pool
}.

Lemma u64_le x : 0 <= x -> 0 <= u64 x <= x.
Proof. intros Hx. unfold u64. split; [by apply Z.mod_pos_bound|by apply Z.mod_le]. Qed.

Lemma promote_accounts_ok k reset env st pool : pool_ok k pool -> pendingState pool <> None ->
  runs (promote_accounts reset env st pool) (fun r => kept_ok k pool r.2 /\ 0 <= r.1 <= lens (queue r.2) (addrs (queue r.2))).
Proof.
  intros Ok St. unfold promote_accounts. set (K := addrs (queue pool)).
  eapply runs_impl; [apply (each_runs _ (fun R r => exists D, D ++ R = K /\ kept_ok k pool r.2 /\ 0 <= r.1 <= lens (queue r.2) D))|].
  - intros a R [queued p] (D & E & [Ok1 St1 A1] & Hq). cbn in Hq, Ok1, St1, A1.
    eapply runs_bind; [by apply (promote_account_ok k reset env st p a)|]. intros [n p'] [[Ok2 T2 St2 A2 Hl] En]. cbn in *.
    apply runs_ret. exists (D ++ [a]). split; [by rewrite <- app_assoc|]. split; [split; [done|done|by etrans]|]. cbn.
    assert (Ha : a ∉ D).
    { pose proof (addrs_nodup (queue pool)) as Nd. fold K in Nd. rewrite <- E in Nd. apply NoDup_app in Nd as (_ & Nd & _).
      intros Hi. by apply (Nd a Hi); left. }
    assert (E1 : lens (queue p') D = lens (queue p) D) by (apply lens_ext; intros x Hx; apply (tc_side _ _ _ T2 false); by intros ->).
    rewrite lens_app. cbn. rewrite E1. pose proof (u64_le (queued + n)). lia.
  - exists []. split; [done|]. split; [done|]. cbn. lia.
  - cbn. intros [queued p] (D & E & Kp & Hq). split; [done|]. cbn in *. rewrite app_nil_r in E. subst D.
    pose proof (lens_le (queue p) K (addrs_nodup _)). lia.
Qed.

(** ** Totals and the table *)

Lemma sorted_list_at k pool b addr : sound k pool ->
  exists c, length c = len_at (side b pool) addr /\ NoDup c /\ forall t, t ∈ c -> listed (side b pool) addr t.
Proof.
  intros Sd. unfold len_at, listed, of_account. destruct (side b pool !! addr) as [l|] eqn:El.
  2: { exists []. split; [done|]. split; [apply NoDup_nil_2|by intros t ?%not_elem_of_nil]. }
  destruct (sd_lists _ _ Sd _ _ _ El) as [[W _] _]. pose proof (wf_nonces _ W) as N. destruct (sorted_exists (txs_of l) N) as [c Sc].
  exists c. split; [by apply (lists_length c (txs_of l) N), sorted_lists|]. split; [by apply sorted_nodup, Sc|]. intros t Ht. by apply Sc.
Qed.

(** Listed transactions have entries of their own in the table. *)
Lemma lens_bound k pool b K : sound k pool -> NoDup K -> lens (side b pool) K <= Z.of_nat k.
Proof.
  intros Sd Nd.
  assert (C : exists c, Z.of_nat (length c) = lens (side b pool) K /\ NoDup c /\ forall t, t ∈ c -> exists a, a ∈ K /\ listed (side b pool) a t).
  { induction Nd as [|a K Ha Nd IH]; cbn [lens]; [exists []; split; [done|]; split; [apply NoDup_nil_2|by intros t ?%not_elem_of_nil]|].
    destruct IH as (c & Hl & Nc & Lc), (sorted_list_at k pool b a Sd) as (c1 & Hl1 & Nc1 & Lc1). exists (c1 ++ c).
    split; [rewrite length_app; lia|]. split.
    - apply NoDup_app. split; [done|]. split; [|done]. intros t X1%Lc1 (a' & Ha' & X2)%Lc. apply Ha.
      by rewrite (sent_fun t a a') by (by eapply (sd_sent _ _ Sd)).
    - intros t [Ht%Lc1|(a' & Ha' & Ht)%Lc]%elem_of_app; [exists a; split; [by left|done]|exists a'; split; [by right|done]]. }
  destruct C as (c & <- & Nc & Lc). pose proof (sd_size _ _ Sd) as Hz. apply inj_le. etrans; [|exact Hz].
  assert (Sb : map tx_Hash c ⊆+ (map_to_list (all pool)).*1).
  { apply NoDup_submseteq.
    - apply NoDup_fmap_2_strong; [|done]. intros x y (a & _ & Lx)%Lc (a' & _ & Ly)%Lc E.
      by eapply (listed_inj k pool a a'); [done|exists b|exists b|].
    - intros h (t & -> & (a & _ & Lt)%Lc)%list_elem_of_fmap. apply list_elem_of_fmap. exists (tx_Hash t, t). split; [done|].
      apply elem_of_map_to_list, (sd_all _ _ Sd a). by exists b. }
  apply submseteq_length in Sb. rewrite length_map, length_fmap, length_map_to_list in Sb. done.
Qed.

(** ** Cutting lists *)

(** The transactions of [l'] are the first ones of [l]. *)
Definition prefix_of_list (l l' : txList) : Prop :=
  list_wf l' /\ strict l' = strict l /\ exists kept rest, sorted_of (kept ++ rest) (txs_of l) /\ sorted_of kept (txs_of l').

Lemma prefix_refl l : list_wf l -> prefix_of_list l l.
Proof.
  intros W. split; [done|]. split; [done|]. destruct (sorted_exists (txs_of l) (wf_nonces _ (proj1 W))) as [c S].
  exists c, []. by rewrite app_nil_r.
Qed.

Lemma prefix_trans l1 l2 l3 : prefix_of_list l1 l2 -> prefix_of_list l2 l3 -> prefix_of_list l1 l3.
Proof.
  intros (W2 & E2 & c & r & S1 & S2) (W3 & E3 & c' & r' & S2' & S3). split; [done|]. split; [congruence|].
  rewrite (sorted_unique _ _ _ S2 S2') in S1. exists c', (r' ++ r). by rewrite app_assoc.
Qed.

Lemma list_Len_sorted l c : list_wf l -> sorted_of c (txs_of l) -> list_Len l = length c.
Proof. intros W S. symmetry. apply (lists_length c); [apply (wf_nonces _ (proj1 W))|by apply sorted_lists]. Qed.

Lemma prefix_sub l l' : list_wf l -> prefix_of_list l l' -> txs_of l' ⊆ txs_of l.
Proof.
  intros W (W' & _ & c & r & [_ M] & S'). apply map_subseteq_spec. intros n t E. destruct (wf_nonces _ (proj1 W') _ _ E) as [<- _].
  apply M, elem_of_app. left. by apply S'.
Qed.

(** A cap one below the length takes the last transaction. *)
Lemma Cap_last l : list_wf l -> (1 <= list_Len l)%nat -> exists o l', list_Cap l (Z.of_nat (list_Len l) - 1) = Ok (o, l') /\
  prefix_of_list l l' /\ list_Len l' = (list_Len l - 1)%nat.
Proof.
  intros W Hl. destruct (Cap_step l (Z.of_nat (list_Len l) - 1) W ltac:(cbn; lia)) as (r & l' & E & W' & Es & S). cbn in E.
  destruct (list_Cap l _) as [[o l1]| |]; [|done..]. injection E as <- <-. destruct S as (kept & drops & -> & Sa & Sk & Hd & Hk).
  eexists _, l1. split; [done|]. split; [split; [done|]; split; [done|]; eauto|]. rewrite (list_Len_sorted l1 kept) by done.
  destruct Hd as [->|Hd]; [|lia]. rewrite (list_Len_sorted l _ W Sa), length_app in Hk. cbn in Hk. lia.
Qed.

(** The lists of [m'] are first parts of those of [m], of the lengths [f]. *)
Definition cut_to (m m' : gmap bytes txList) (f : bytes -> nat) : Prop := forall a,
  match m !! a, m' !! a with
  | Some l, Some l' => prefix_of_list l l' /\ list_Len l' = f a
  | None, None => f a = 0%nat
  | _, _ => False
  end.

Fixpoint fsum (f : bytes -> nat) (K : list bytes) : Z := match K with [] => 0 | a :: K => Z.of_nat (f a) + fsum f K end.

Lemma fsum_ext f g K : (forall a, a ∈ K -> f a = g a) -> fsum f K = fsum g K.
Proof.
  intros E. induction K as [|a K IH]; cbn; [done|]. rewrite (E a), IH; [done| |by left]. intros x Hx. apply E. by right.
Qed.

Lemma fsum_lens m K : fsum (len_at m) K = lens m K.
Proof. induction K as [|a K IH]; cbn; lia. Qed.

Lemma fsum_le f g K : (forall a, (f a <= g a)%nat) -> fsum f K <= fsum g K.
Proof. intros Le. induction K as [|a K IH]; cbn; [done|]. pose proof (Le a). lia. Qed.

Lemma fsum_nonneg f K : 0 <= fsum f K.
Proof. induction K as [|a K IH]; cbn; lia. Qed.

Definition less_one (f : bytes -> nat) (O : list bytes) (a : bytes) : nat := if decide (a ∈ O) then (f a - 1)%nat else f a.

Lemma fsum_one f K a : NoDup K -> a ∈ K -> (1 <= f a)%nat -> fsum (less_one f [a]) K = fsum f K - 1.
Proof.
  intros Nd Ha Hf. induction Nd as [|x K Hx Nd IH]; [by apply not_elem_of_nil in Ha|]. cbn [fsum].
  destruct (decide (x = a)) as [->|Hne].
  - rewrite (fsum_ext (less_one f [a]) f); [unfold less_one; rewrite decide_True by (by left); lia|].
    intros y Hy. unfold less_one. rewrite decide_False; [done|]. intros ->%list_elem_of_singleton. done.
  - rewrite IH by (by apply elem_of_cons in Ha as [->|]). unfold less_one at 1. rewrite decide_False; [lia|].
    by intros ->%list_elem_of_singleton.
Qed.

(** ** Rounds of cuts *)

Section Level.
Context (pool0 : Pool) (k : nat) (Ok0 : pool_ok k pool0) (Hk : Z.of_nat k < 2 ^ 24).
Let m0 := pending pool0.
Let K := addrs m0.

(** Only the pending lists were cut, to the lengths [f], and [n] is their sum. *)
Record cut_state (f : bytes -> nat) (r : Pool * Z) : Prop := {
  cs_pool : r.1 = set_pending pool0 (pending r.1);
  cs_cut : cut_to m0 (pending r.1) f;
  cs_sum : r.2 = fsum f K
}.

Lemma cut_state_ext f g r : (forall a, f a = g a) -> cut_state f r -> cut_state g r.
Proof.
  intros E [P C S]. split; [done| |by rewrite S; apply fsum_ext].
  intros a. specialize (C a). destruct (m0 !! a), (pending r.1 !! a); rewrite <- ?E; done.
Qed.

Lemma cut_start : cut_state (len_at m0) (pool0, lens m0 K).
Proof.
  split; [by destruct pool0| |by rewrite fsum_lens]. intros a. cbn. fold m0. unfold len_at. destruct (m0 !! a) as [l|] eqn:E; [|done].
  split; [|done]. apply prefix_refl. by apply (sd_lists _ _ (po_sound _ _ Ok0) true a).
Qed.

Lemma cut_state_at f r a l : cut_state f r -> m0 !! a = Some l ->
  exists l', pending r.1 !! a = Some l' /\ prefix_of_list l l' /\ list_Len l' = f a.
Proof. intros [_ C _] El. specialize (C a). rewrite El in C. destruct (pending r.1 !! a) as [l'|]; [|done]. by exists l'. Qed.

Lemma cut_le f r a : cut_state f r -> (f a <= len_at m0 a)%nat.
Proof.
  intros [_ C _]. specialize (C a). unfold len_at. destruct (m0 !! a) as [l|] eqn:El, (pending r.1 !! a) as [l'|]; try done; [|lia].
  destruct C as [(W' & _ & c & rest & S & S') <-]. destruct (sd_lists _ _ (po_sound _ _ Ok0) true a l El) as [W _].
  rewrite (list_Len_sorted l' c W' S'), (list_Len_sorted l _ W S), length_app. lia.
Qed.

Lemma fsum_small f r : cut_state f r -> 0 <= fsum f K < 2 ^ 64.
Proof.
  intros C. pose proof (fsum_nonneg f K). pose proof (fsum_le f (len_at m0) K (fun a => cut_le f r a C)) as L. rewrite fsum_lens in L.
  pose proof (lens_bound k pool0 true K (po_sound _ _ Ok0) (addrs_nodup _)) as B. cbn [side] in B. fold m0 in B. lia.
Qed.

Lemma cut_one_ok f r a : cut_state f r -> is_Some (m0 !! a) -> (1 <= f a)%nat -> runs (cut_one r a) (cut_state (less_one f [a])).
Proof.
  intros C [l El] Hf. destruct (cut_state_at f r a l C El) as (l' & E' & P & Hl). pose proof (fsum_small f r C) as Hs. destruct C as [Ep Ec Es].
  assert (Ha : a ∈ K) by (apply addrs_keys; by exists l). destruct r as [p n]. cbn [fst snd] in *. unfold cut_one. rewrite E'.
  destruct (Cap_last l' (proj1 P) ltac:(lia)) as (o & l2 & -> & P2 & Hl2). cbn [obind]. apply runs_ret. split; cbn [fst snd].
  - cbn [pending set_pending]. rewrite Ep at 1. done.
  - intros x. cbn. unfold less_one. destruct (decide (x = a)) as [->|Hne].
    + rewrite El, lookup_insert_eq, decide_True by (by left). split; [by eapply prefix_trans|lia].
    + rewrite lookup_insert_ne, decide_False by (done || by intros ->%list_elem_of_singleton). apply Ec.
  - rewrite Es, (fsum_one f K a (addrs_nodup _) Ha Hf), u64_small; [done|].
    pose proof (fsum_nonneg (less_one f [a]) K) as Hn. rewrite (fsum_one f K a (addrs_nodup _) Ha Hf) in Hn. lia.
Qed.

(** Every one of [O] loses one transaction. *)
Lemma cut_round f r O : cut_state f r -> NoDup O -> (forall a, a ∈ O -> is_Some (m0 !! a) /\ (1 <= f a)%nat) ->
  runs (each cut_one O r) (cut_state (less_one f O)).
Proof.
  intros C Nd HO.
  eapply runs_impl; [apply (each_runs _ (fun R r => exists D, D ++ R = O /\ cut_state (less_one f D) r))|].
  - intros a R r1 (D & E & C1). assert (Ha : a ∈ O) by (rewrite <- E; apply elem_of_app; right; by left).
    assert (Hn : a ∉ D) by (rewrite <- E in Nd; apply NoDup_app in Nd as (_ & Nd & _); intros Hi; by apply (Nd a Hi); left).
    destruct (HO a Ha) as [Hs Hf]. eapply runs_impl.
    + apply (cut_one_ok (less_one f D) r1 a C1 Hs). unfold less_one. by rewrite decide_False.
    + cbn. intros r2 C2. exists (D ++ [a]). split; [by rewrite <- app_assoc|]. eapply cut_state_ext, C2. intros x. unfold less_one.
      destruct (decide (x = a)) as [->|Hne].
      * rewrite (decide_True (P := a ∈ [a])) by (by left). rewrite (decide_False (P := a ∈ D)) by done.
        rewrite decide_True by (apply elem_of_app; right; by left). done.
      * rewrite (decide_False (P := x ∈ [a])) by (by intros ->%list_elem_of_singleton).
        destruct (decide (x ∈ D)) as [Hx|Hx]; [by rewrite decide_True by (apply elem_of_app; by left)|].
        rewrite decide_False; [done|]. by intros [?| ->%list_elem_of_singleton]%elem_of_app.
  - exists []. split; [done|]. eapply cut_state_ext, C. intros a. unfold less_one. by rewrite decide_False by apply not_elem_of_nil.
  - cbn. intros r' (D & E & C'). rewrite app_nil_r in E. by subst D.
Qed.

(** ** Levels *)

(** The accounts that may be cut. *)
Context (sp : list bytes) (Sp : forall a, a ∈ sp -> is_Some (m0 !! a)) (NdSp : NoDup sp).

(** The lengths when no account of [sp] has more than [lv]. *)
Definition level (lv : nat) (a : bytes) : nat := if decide (a ∈ sp) then Nat.min (len_at m0 a) lv else len_at m0 a.

Definition total_at (lv : nat) : Z := fsum (level lv) K.

(** A cut down to [lv] was needed. *)
Definition needed (lv : nat) : Prop := (forall a, a ∈ sp -> (len_at m0 a <= lv)%nat) \/ maxPendingTotal < total_at (S lv).

Lemma round_level lv r O :
  cut_state (level (S lv)) r -> NoDup O -> (O ⊆ sp) -> (forall a, a ∈ O -> (S lv <= len_at m0 a)%nat) ->
  (forall a, a ∈ sp -> a ∉ O -> (len_at m0 a <= lv)%nat) -> runs (each cut_one O r) (cut_state (level lv)).
Proof.
  intros C Nd Sb Hi Lo. eapply runs_impl; [apply (cut_round _ _ O C Nd)|].
  - intros a Ha. split; [by apply Sp, Sb|]. unfold level. rewrite decide_True by (by apply Sb). pose proof (Hi a Ha). lia.
  - intros r' C'. eapply cut_state_ext, C'. intros a. unfold less_one, level. destruct (decide (a ∈ O)) as [Ha|Ha].
    + pose proof (Hi a Ha). destruct (decide (a ∈ sp)) as [_|Hn]; [|by destruct Hn; apply Sb]. lia.
    + destruct (decide (a ∈ sp)) as [Hs|Hs]; [|done]. pose proof (Lo a Hs Ha). lia.
Qed.

Lemma pending_len_level lv r a : cut_state (level lv) r -> a ∈ sp -> pending_len r.1 a = Ok (Z.of_nat (level lv a)).
Proof.
  intros C Ha. destruct (Sp a Ha) as [l El]. destruct (cut_state_at _ _ _ _ C El) as (l' & E' & _ & Hl). unfold pending_len. by rewrite E', Hl.
Qed.

Lemma equalize_ok fuel r lv (t : nat) O prev :
  cut_state (level lv) r -> NoDup O -> (O ⊆ sp) -> prev ∈ O -> (t <= lv)%nat -> (lv - t < fuel)%nat ->
  (forall a, a ∈ O -> (lv <= len_at m0 a)%nat) -> (forall a, a ∈ sp -> a ∉ O -> (len_at m0 a <= t)%nat) -> needed lv ->
  runs (equalize_loop fuel r.1 r.2 O prev (Z.of_nat t)) (fun r' => exists lv', cut_state (level lv') r' /\ (t <= lv' <= lv)%nat /\
    needed lv' /\ (r'.2 <= maxPendingTotal \/ lv' = t)).
Proof.
  intros C Nd Sb Hp. revert lv r C. induction fuel as [|fuel IH]; intros lv r C Ht Hf Hi Lo Nx; [lia|]. cbn [equalize_loop].
  destruct (Z.ltb_spec maxPendingTotal r.2) as [L|L]; [|apply runs_ret; exists lv; destruct r; split_and!; try done; by left].
  rewrite (pending_len_level lv r prev C (Sb _ Hp)). cbn [obind].
  assert (El : level lv prev = lv) by (unfold level; rewrite decide_True by (by apply Sb); pose proof (Hi prev Hp); lia). rewrite El.
  destruct (Z.ltb_spec (Z.of_nat t) (Z.of_nat lv)) as [L2|L2]; [|apply runs_ret; exists lv; destruct r; split_and!; try done; right; lia].
  destruct lv as [|lv]; [lia|]. destruct r as [p n]. cbn [fst snd] in *. eapply runs_bind.
  { apply (round_level lv (p, n) O C Nd Sb Hi). intros a Ha Hn. pose proof (Lo a Ha Hn). lia. }
  intros [p1 n1] C1. eapply runs_impl; [apply (IH lv (p1, n1) C1); try lia; try done|].
  - intros a Ha. pose proof (Hi a Ha). lia.
  - right. unfold total_at. rewrite <- (cs_sum _ _ C). done.
  - cbn. intros r' (lv' & C' & Hl & N' & E'). exists lv'. split_and!; try done; lia.
Qed.

(** ** Offenders *)

Definition entry (a : bytes) : spammer := (a, Z.of_nat (len_at m0 a)).

(** The queue of spammers [Q] holds the accounts that are no offenders [O] yet;
    it is at most as long as the level, and the offenders reach the level as long
    as the limit is exceeded. *)
Record offending (lv : nat) (r : Pool * Z) (Q : list spammer) (O : list bytes) : Prop := {
  of_state : cut_state (level lv) r;
  of_heap : is_heap spam_key Q;
  of_perm : exists S, Q ≡ₚ map entry S /\ O ++ S ≡ₚ sp;
  of_low a : a ∈ sp -> a ∉ O -> (len_at m0 a <= lv)%nat;
  of_high : maxPendingTotal < r.2 -> forall a, a ∈ O -> (lv <= len_at m0 a)%nat;
  of_needed : needed lv;
  of_min : (Z.to_nat minPendingPerAccount <= lv)%nat
}.

Context (Big : forall a, a ∈ sp -> (Z.to_nat minPendingPerAccount < len_at m0 a)%nat).

(** Taking the longest account from the queue. *)
Lemma offending_pop lv r Q O : offending lv r Q O -> Q <> [] ->
  exists a x Q' S, heap_Pop spam_key Q = Some ((a, x), Q') /\ is_heap spam_key Q' /\ Q' ≡ₚ map entry S /\ (O ++ [a]) ++ S ≡ₚ sp /\
    a ∈ sp /\ (length Q = Datatypes.S (length Q')) /\ forall b, b ∈ sp -> b ∉ O -> (len_at m0 b <= len_at m0 a)%nat.
Proof.
  intros [_ Hh (S & PQ & PO) _ _ _ _] Hne. destruct Q as [|[a x] Q]; [done|]. destruct (Pop_ok spam_key (a, x) Q Hh) as (Q' & E & P' & H').
  assert (Hi : (a, x) ∈ map entry S) by (rewrite <- PQ; by left). apply list_elem_of_fmap in Hi as (a' & [= -> ->] & Ha).
  destruct (list_elem_of_split _ _ Ha) as (S1 & S2 & ->). set (S' := S1 ++ S2).
  assert (PS : S1 ++ a' :: S2 ≡ₚ a' :: S') by (symmetry; apply Permutation_middle). exists a', (Z.of_nat (len_at m0 a')), Q', S'. split_and!; try done.
  - rewrite PS in PQ. cbn in PQ. apply Permutation_cons_inv in PQ. by rewrite P'.
  - by rewrite <- app_assoc, <- PO, PS.
  - rewrite <- PO. apply elem_of_app. by right.
  - cbn. f_equal. by rewrite P'.
  - intros b Hb Hn. rewrite <- PO in Hb. apply elem_of_app in Hb as [|Hb]; [done|].
    assert (Hq : entry b ∈ (a', Z.of_nat (len_at m0 a')) :: Q) by (rewrite PQ; by apply list_elem_of_fmap_2).
    pose proof (heap_min_elem spam_key _ _ _ Hh Hq) as Le. unfold spam_key, entry in Le. cbn in Le. lia.
Qed.

Lemma nodup_part O S : O ++ S ≡ₚ sp -> NoDup O /\ (O ⊆ sp).
Proof.
  intros P. split; [rewrite <- P in NdSp; by apply NoDup_app in NdSp as [? _]|]. intros a Ha. rewrite <- P. apply elem_of_app. by left.
Qed.

(** The level after [a] became an offender. *)
Lemma offend_step lv r Q O a Q' S : offending lv r Q O -> maxPendingTotal < r.2 ->
  is_heap spam_key Q' -> Q' ≡ₚ map entry S -> (O ++ [a]) ++ S ≡ₚ sp -> a ∈ sp ->
  (forall b, b ∈ sp -> b ∉ O -> (len_at m0 b <= len_at m0 a)%nat) ->
  runs (match last O with
        | Some prev => let* threshold := pending_len r.1 a in equalize_loop (rounds r.1 prev) r.1 r.2 O prev threshold
        | None => Ok (r.1, r.2)
        end) (fun r' => exists lv', offending lv' r' Q' (O ++ [a])).
Proof.
  intros [C Hh _ Low High Nx Mn] L H' PQ PO Ha Max. specialize (High L). destruct (nodup_part _ _ PO) as [Nd Sb]. pose proof (Big a Ha) as Ba.
  assert (Na : a ∉ O) by (apply NoDup_app in Nd as (_ & Nd & _); intros Hi; by apply (Nd a Hi); left).
  assert (Lw : forall lv', (len_at m0 a <= lv')%nat -> forall b, b ∈ sp -> b ∉ O ++ [a] -> (len_at m0 b <= lv')%nat).
  { intros lv' Hl b Hb Hn. etrans; [apply (Max b Hb)|done]. intros Hi. apply Hn, elem_of_app. by left. }
  destruct (last O) as [prev|] eqn:El.
  - assert (Hp : prev ∈ O) by (apply last_Some_elem_of in El; done).
    assert (Sb' : O ⊆ sp) by (intros b Hb; apply Sb, elem_of_app; by left).
    rewrite (pending_len_level lv r a C Ha). cbn [obind].
    assert (Ea : level lv a = len_at m0 a) by (unfold level; rewrite decide_True by done; pose proof (Low a Ha Na); lia). rewrite Ea.
    assert (Er : (lv < rounds r.1 prev)%nat).
    { unfold rounds. destruct (Sp prev (Sb' _ Hp)) as [l El0]. destruct (cut_state_at _ _ _ _ C El0) as (l' & -> & _ & Hl). rewrite Hl.
      unfold level. rewrite decide_True by (by apply Sb'). pose proof (High prev Hp). lia. }
    eapply runs_impl; [apply (equalize_ok _ r lv (len_at m0 a) O prev C); try done|].
    + by apply NoDup_app in Nd as [? _].
    + apply (Low a Ha Na).
    + lia.
    + intros r' (lv' & C' & Hl & N' & E'). exists lv'. split; [exact C'|exact H'|exists S; split; [exact PQ|exact PO]|apply Lw; lia| |exact N'|lia].
      intros L' b [Hb|Hb%list_elem_of_singleton]%elem_of_app; [pose proof (High b Hb); lia|]. subst b. lia.
  - apply last_None in El. subst O. apply runs_ret. exists (len_at m0 a). destruct r as [p n]. split; [|exact H'|exists S; split; [exact PQ|exact PO]|by apply Lw| | |lia].
    + eapply cut_state_ext, C. intros b. unfold level. destruct (decide (b ∈ sp)) as [Hb|]; [|done].
      assert (Hb' : b ∉ @nil bytes) by apply not_elem_of_nil. pose proof (Low b Hb Hb'). pose proof (Max b Hb Hb'). lia.
    + intros _ b ->%list_elem_of_singleton. done.
    + left. intros b Hb. apply (Max b Hb), not_elem_of_nil.
Qed.

Lemma offend_ok fuel lv r Q O : offending lv r Q O -> (length Q < fuel)%nat ->
  runs (offend_loop fuel r.1 r.2 Q O) (fun r' => exists lv' Q', offending lv' r'.1 Q' r'.2 /\ (r'.1.2 <= maxPendingTotal \/ Q' = [])).
Proof.
  revert lv r Q O. induction fuel as [|fuel IH]; intros lv r Q O Of Hf; [lia|]. cbn [offend_loop].
  destruct (Z.ltb_spec maxPendingTotal r.2) as [L|L]; cbn [andb].
  2: { apply runs_ret. exists lv, Q. destruct r. split; [done|]. by left. }
  case_bool_decide as Hq.
  2: { apply runs_ret. exists lv, Q. destruct r. split; [done|]. by right. }
  destruct (offending_pop lv r Q O Of Hq) as (a & x & Q' & S & -> & H' & PQ & PO & Ha & Hl & Max).
  eapply runs_bind; [by apply (offend_step lv r Q O a Q' S)|]. intros [p n] [lv' Of']. apply (IH lv' (p, n) Q' (O ++ [a]) Of'). lia.
Qed.

(** The final level: the limit holds or every account of [sp] is at the minimum. *)
Lemma final_level lv r Q O : offending lv r Q O -> r.2 <= maxPendingTotal \/ Q = [] -> O <> [] \/ sp = [] ->
  runs (match last O with
        | Some prev => let* (p, _) := equalize_loop (rounds r.1 prev) r.1 r.2 O prev minPendingPerAccount in Ok p
        | None => Ok r.1
        end) (fun p' => exists lv', cut_state (level lv') (p', total_at lv') /\ (Z.to_nat minPendingPerAccount <= lv')%nat /\ needed lv' /\
    (total_at lv' <= maxPendingTotal \/ lv' = Z.to_nat minPendingPerAccount)).
Proof.
  intros [C Hh (S & PQ & PO) Low High Nx Mn] Hend HO.
  assert (Cr : forall lv (r : Pool * Z), cut_state (level lv) r -> r = (r.1, total_at lv)) by (intros ? [p n] C'; unfold total_at; by rewrite <- (cs_sum _ _ C')).
  destruct (nodup_part _ _ PO) as [Nd Sb]. destruct (last O) as [prev|] eqn:El.
  - assert (Hp : prev ∈ O) by (apply last_Some_elem_of in El; done). destruct (Z.le_gt_cases r.2 maxPendingTotal) as [L|L].
    { unfold rounds. assert (Eq : forall fuel, equalize_loop (Datatypes.S fuel) r.1 r.2 O prev minPendingPerAccount = Ok (r.1, r.2))
        by (intros fuel; cbn; by rewrite (proj2 (Z.ltb_ge _ _) L)).
      assert (Hr : exists fuel, rounds r.1 prev = Datatypes.S fuel) by (unfold rounds; destruct (pending _ !! _); eauto). destruct Hr as [fuel Hr].
      fold (rounds r.1 prev). rewrite Hr, Eq. apply runs_ret. exists lv. rewrite (cs_sum _ _ C) in L. rewrite <- (Cr lv r C). split_and!; try done. by left. }
    destruct Hend as [|Hq]; [lia|]. assert (S = []) as -> by (rewrite Hq in PQ; symmetry in PQ; apply Permutation_nil_r, fmap_nil_inv in PQ; done).
    rewrite app_nil_r in PO. specialize (High L). rewrite <- (Z2Nat.id minPendingPerAccount) by (pose proof min_pending_pos; lia).
    eapply runs_bind; [apply (equalize_ok _ r lv (Z.to_nat minPendingPerAccount) O prev C); try done|].
    + destruct (Sp prev (Sb _ Hp)) as [l El0]. destruct (cut_state_at _ _ _ _ C El0) as (l' & E' & _ & Hl). unfold rounds. rewrite E', Hl.
      unfold level. rewrite decide_True by (by apply Sb). pose proof (High prev Hp). lia.
    + intros a Ha Hn. by rewrite PO in Hn.
    + intros [p n] (lv' & C' & Hl & N' & E'). apply runs_ret. exists lv'.
      assert (n = total_at lv') as -> by exact (cs_sum _ _ C'). cbn in E'. split_and!; try done; lia.
  - apply last_None in El. destruct HO as [|Es]; [done|]. apply runs_ret. exists (Z.to_nat minPendingPerAccount).
    assert (E : forall a, level lv a = level (Z.to_nat minPendingPerAccount) a).
    { intros a. unfold level. rewrite Es. by rewrite !decide_False by apply not_elem_of_nil. }
    assert (C' := cut_state_ext _ _ _ E C). rewrite <- (Cr _ r C'). split_and!; try done; [|by right].
    left. rewrite Es. by intros a ?%not_elem_of_nil.
Qed.
End Level.

(** ** The limit on pending transactions *)

Definition spams (pool : Pool) addr : bool := match pending pool !! addr with Some l => is_spammer pool l | None => false end.
Definition spam_list (pool : Pool) : list bytes := filter (fun a => spams pool a = true) (addrs (pending pool)).

Lemma float32_small n : n < 2 ^ 24 -> float32 n = n.
Proof. intros Hn. unfold float32. by rewrite (proj2 (Z.ltb_lt _ _) Hn). Qed.

Lemma push_spammer_eq (pool : Pool) Q addr : push_spammer pool Q addr =
  if spams pool addr then heap_Push spam_key Q (addr, float32 (Z.of_nat (len_at (pending pool) addr))) else Q.
Proof. unfold push_spammer, spams, len_at. by destruct (pending pool !! addr). Qed.

Lemma spammers_ok k pool : pool_ok k pool -> Z.of_nat k < 2 ^ 24 ->
  is_heap spam_key (foldl (push_spammer pool) [] (addrs (pending pool))) /\
  foldl (push_spammer pool) [] (addrs (pending pool)) ≡ₚ map (entry pool) (spam_list pool).
Proof.
  intros Ok Hk. unfold spam_list. generalize (addrs (pending pool)) as K. intros K.
  assert (G : forall Q D, is_heap spam_key Q -> Q ≡ₚ map (entry pool) D ->
    is_heap spam_key (foldl (push_spammer pool) Q K) /\ foldl (push_spammer pool) Q K ≡ₚ map (entry pool) (D ++ filter (fun a => spams pool a = true) K)).
  { induction K as [|a K IH]; intros Q D Hh P; cbn [foldl]; [by rewrite app_nil_r|]. rewrite filter_cons, push_spammer_eq.
    case_decide as Es; [rewrite Es|apply not_true_is_false in Es; rewrite Es; by apply IH].
    change (a :: ?x) with ([a] ++ x). rewrite app_assoc.
    destruct (Push_ok spam_key Q (a, float32 (Z.of_nat (len_at (pending pool) a))) Hh) as [P1 Hp]. apply IH; [done|]. rewrite P1, P, float32_small.
    - rewrite map_app. cbn. by rewrite Permutation_app_comm.
    - pose proof (lens_bound k pool true [a] (po_sound _ _ Ok) (NoDup_singleton a)) as B. cbn in B. lia. }
  apply (G [] []); [|done]. intros j Hj. cbn in Hj. lia.
Qed.

Lemma pending_total_eq k pool : pool_ok k pool -> Z.of_nat k < 2 ^ 24 -> pending_total pool = lens (pending pool) (addrs (pending pool)).
Proof.
  intros Ok Hk. pose proof (lens_bound k pool true _ (po_sound _ _ Ok) (addrs_nodup (pending pool))) as B. cbn [side] in B.
  unfold pending_total. revert B. generalize (addrs (pending pool)) as K. intros K.
  assert (G : forall n, 0 <= n -> n + lens (pending pool) K < 2 ^ 64 ->
    foldl (fun n a => u64 (n + Z.of_nat (match pending pool !! a with Some l => list_Len l | None => 0%nat end))) n K = n + lens (pending pool) K).
  { induction K as [|a K IH]; intros n Hn Hl; cbn [foldl lens] in *; [lia|]. fold (len_at (pending pool) a). pose proof (lens_nonneg (pending pool) K).
    rewrite u64_small by lia. rewrite IH; lia. }
  intros B. rewrite G; lia.
Qed.

(** The pool after the cuts. *)
Record leveled (pool p' : Pool) (lv : nat) : Prop := {
  lvl_pool : p' = set_pending pool (pending p');
  lvl_cut : cut_to (pending pool) (pending p') (level pool (spam_list pool) lv);
  lvl_min : (Z.to_nat minPendingPerAccount <= lv)%nat;
  lvl_needed : needed pool (spam_list pool) lv;
  lvl_limit : total_at pool (spam_list pool) lv <= maxPendingTotal \/ lv = Z.to_nat minPendingPerAccount
}.

Lemma spam_list_spec pool a : a ∈ spam_list pool <-> spams pool a = true.
Proof.
  unfold spam_list. rewrite list_elem_of_filter, addrs_keys. split; [by intros [? _]|]. intros E. split; [done|].
  unfold spams in E. destruct (pending pool !! a); [by eexists|done].
Qed.

Lemma spams_long pool a : spams pool a = true -> (Z.to_nat minPendingPerAccount < len_at (pending pool) a)%nat.
Proof.
  unfold spams, len_at, is_spammer. destruct (pending pool !! a); [|done]. intros [L _]%andb_true_iff. pose proof min_pending_pos. lia.
Qed.

Lemma level_high pool lv a : (forall b, b ∈ spam_list pool -> (len_at (pending pool) b <= lv)%nat) ->
  level pool (spam_list pool) lv a = len_at (pending pool) a.
Proof. intros Hl. unfold level. destruct (decide (a ∈ spam_list pool)) as [Ha|]; [pose proof (Hl a Ha); lia|done]. Qed.

Lemma limit_pending_ok k pool : pool_ok k pool -> Z.of_nat k < 2 ^ 24 -> runs (limit_pending pool) (fun p' => exists lv, leveled pool p' lv).
Proof.
  intros Ok Hk. set (sp := spam_list pool). set (lv0 := (k + Z.to_nat minPendingPerAccount)%nat). pose proof (po_sound _ _ Ok) as Sd.
  assert (Sp : forall a, a ∈ sp -> is_Some (pending pool !! a)) by (intros a [_ Ha]%list_elem_of_filter; by apply addrs_keys).
  assert (Nd : NoDup sp) by (apply NoDup_filter, addrs_nodup).
  assert (Hl : forall a, (len_at (pending pool) a <= lv0)%nat)
    by (intros a; pose proof (lens_bound k pool true [a] Sd (NoDup_singleton a)) as B; cbn in B; lia).
  assert (Big : forall a, a ∈ sp -> (Z.to_nat minPendingPerAccount < len_at (pending pool) a)%nat) by (intros a Ha%spam_list_spec; by apply spams_long).
  assert (E0 : forall a, len_at (pending pool) a = level pool sp lv0 a) by (intros a; by rewrite level_high).
  pose proof (cut_state_ext pool _ _ _ E0 (cut_start pool k Ok)) as C0. unfold limit_pending. rewrite (pending_total_eq k pool Ok Hk).
  assert (T0 : total_at pool sp lv0 = lens (pending pool) (addrs (pending pool))) by (symmetry; apply (cs_sum _ _ _ C0)).
  assert (N0 : needed pool sp lv0) by (by left). assert (M0 : (Z.to_nat minPendingPerAccount <= lv0)%nat) by (unfold lv0; lia).
  destruct (Z.ltb_spec maxPendingTotal (lens (pending pool) (addrs (pending pool)))) as [L|L].
  2: { apply runs_ret. exists lv0. split; [by destruct pool|apply C0|done|done|left; by rewrite <- T0 in L]. }
  destruct (spammers_ok k pool Ok Hk) as [Hh HP]. set (Q := foldl _ _ _) in *.
  eapply runs_bind; [apply (offend_ok pool k Ok Hk sp Sp Nd Big _ lv0 (pool, lens (pending pool) (addrs (pending pool))) Q []); [|lia]|].
  { split; try done; [exists sp; by split|by intros _ a ?%not_elem_of_nil]. }
  cbn. intros [r O] (lv & Q' & Of & Hend). cbn in Of, Hend.
  assert (HO : O <> [] \/ sp = []).
  { destruct O as [|a O]; [right|by left]. destruct Of as [C _ (S & PQ & PO) Low _ _ _].
    assert (Ex : forall a, level pool sp lv a = level pool sp lv0 a).
    { intros a. rewrite <- E0. apply level_high. intros b Hb. apply (Low b Hb), not_elem_of_nil. }
    destruct Hend as [Le| ->]; [|symmetry in PQ; apply Permutation_nil_r, fmap_nil_inv in PQ; subst S; by symmetry in PO; apply Permutation_nil_r in PO].
    rewrite (cs_sum _ _ _ C), (fsum_ext _ _ _ (fun a _ => Ex a)) in Le. unfold total_at in T0. lia. }
  destruct r as [p1 n1]. eapply runs_impl; [by apply (final_level pool k Ok Hk sp Sp Nd lv (p1, n1) Q' O)|].
  intros p' (lv' & C' & M' & N' & E'). exists lv'. split; [apply (cs_pool _ _ _ C')|apply C'|done..].
Qed.

Lemma level_pos pool lv a : (Z.to_nat minPendingPerAccount <= lv)%nat -> (1 <= len_at (pending pool) a)%nat ->
  (1 <= level pool (spam_list pool) lv a)%nat.
Proof. intros Hl Ha. pose proof min_pending_pos. unfold level. destruct (decide _); lia. Qed.

Lemma list_Len_pos l : (1 <= list_Len l)%nat <-> txs_of l <> ∅.
Proof.
  unfold list_Len, sm_Len. fold (txs_of l). split; [intros Hl E; rewrite E, map_size_empty in Hl; lia|].
  intros E. destruct (size (txs_of l)) eqn:Es; [by apply map_size_empty_inv in Es|lia].
Qed.

(** Cutting keeps the pool consistent. *)
Lemma leveled_ok k pool p' lv : pool_ok k pool -> leveled pool p' lv -> pool_ok k p'.
Proof.
  intros [Sd F] [Ep Ec Mn _ _].
  assert (L : forall a l', pending p' !! a = Some l' -> exists l, pending pool !! a = Some l /\ prefix_of_list l l' /\
    list_Len l' = level pool (spam_list pool) lv a).
  { intros a l' E. specialize (Ec a). rewrite E in Ec. destruct (pending pool !! a) as [l|]; [by exists l|done]. }
  assert (Sub : forall b a n t, of_account (side b p') a !! n = Some t -> of_account (side b pool) a !! n = Some t).
  { intros [] a n t; [|by rewrite Ep]. unfold of_account. cbn. destruct (pending p' !! a) as [l'|] eqn:E; [|done].
    destruct (L a l' E) as (l & El & P & _). rewrite El. intros Ht. eapply lookup_weaken; [done|]. apply prefix_sub; [|done].
    by apply (sd_lists _ _ Sd true a). }
  assert (Ea : all p' = all pool) by (by rewrite Ep). split.
  - apply (sound_sub k pool); [done| |done|by rewrite Ea| |].
    + intros [] a l' E; [|rewrite Ep in E; by apply (sd_lists _ _ Sd false a)]. destruct (L a l' E) as (l & El & (W & Es & _) & _).
      split; [done|]. rewrite Es. by apply (sd_lists _ _ Sd true a).
    + intros a t [b Lt]. rewrite Ea. apply (sd_all _ _ Sd a). exists b. by apply Sub.
    + rewrite Ep. cbn. intros Hne. apply (sd_state _ _ Sd). intros E0. apply Hne, map_empty. intros a. specialize (Ec a). rewrite E0, lookup_empty in Ec.
      by destruct (pending p' !! a).
  - intros []; [|rewrite Ep; apply (F false)]. intros a l' E. destruct (L a l' E) as (l & El & _ & Hl). apply list_Len_pos. rewrite Hl.
    apply level_pos; [done|]. unfold len_at. rewrite El. apply list_Len_pos. by apply (F true a).
Qed.

(** ** The limit on the queue *)

(** The pool stays consistent and learns no transaction. *)
Record steady k (pool p' : Pool) : Prop := {
  sy_ok : pool_ok k p';
  sy_state : pendingState p' = None -> pendingState pool = None;
  sy_table : all p' ⊆ all pool
}.

Lemma steady_refl k pool : pool_ok k pool -> steady k pool pool.
Proof. by split. Qed.

Lemma steady_trans k p1 p2 p3 : steady k p1 p2 -> steady k p2 p3 -> steady k p1 p3.
Proof. intros [O1 S1 T1] [O2 S2 T2]. split; [done|auto|by etrans]. Qed.

Lemma Flatten_list l : list_wf l -> exists c l', list_Flatten l = (c, l') /\ list_wf l' /\ strict l' = strict l /\ txs_of l' = txs_of l /\ sorted_of c (txs_of l).
Proof.
  intros W. destruct (Flatten_step l W) as (r & l' & E & W' & Es & S). cbn [run_lop] in E. destruct (list_Flatten l) as [c l1]. injection E as <- <-.
  destruct S as (c' & E & Sc & Et). exists c, l1. split_and!; try done.
  change (Some <$> c = Some <$> c') in E. apply (inj _) in E. by subst.
Qed.

(** Replacing a list by one with the same transactions. *)
Lemma same_list b k pool addr l l' : pool_ok k pool -> side b pool !! addr = Some l -> list_wf l' -> strict l' = b -> txs_of l' = txs_of l ->
  steady k pool (set_side b pool (<[addr := l']> (side b pool))).
Proof.
  intros [Sd F] El W Es Et. split; [split|by rewrite state_set|by rewrite all_set].
  - apply (shrink_only b k pool addr l); try done. by rewrite Et.
  - intros b'. rewrite side_set. case_bool_decide; [subst b'|apply F]. apply filled_insert; [apply F|]. rewrite Et. by apply (F b addr).
Qed.

(** Transactions the table knows as those of [addr]. *)
Definition known_of (pool : Pool) addr (txs : list Transaction) : Prop :=
  forall t t0, t ∈ txs -> all pool !! tx_Hash t = Some t0 -> sent t0 addr.

Lemma known_of_sub (pool p' : Pool) addr txs : all p' ⊆ all pool -> known_of pool addr txs -> known_of p' addr txs.
Proof. intros Sb Kn t t0 Ht E. eapply Kn; [done|]. by eapply lookup_weaken. Qed.

Lemma flatten_known k pool b addr l c : sound k pool -> side b pool !! addr = Some l -> sorted_of c (txs_of l) -> known_of pool addr c.
Proof.
  intros Sd El Sc t t0 Ht E. apply Sc in Ht. assert (L : of_account (side b pool) addr !! AccountNonce t = Some t) by (unfold of_account; by rewrite El).
  pose proof (sd_all _ _ Sd addr t ltac:(by exists b)) as At. rewrite E in At. injection At as ->. by eapply (sd_sent _ _ Sd).
Qed.

Lemma remove_one k pool addr t txs : pool_ok k pool -> known_of pool addr (t :: txs) ->
  runs (removeTx config pool (tx_Hash t)) (fun p' => steady k pool p' /\ touched addr pool p' /\ known_of p' addr txs).
Proof.
  intros Ok Kn. eapply runs_impl; [by apply (removeTx_ok k)|]. cbn. intros p' (Ok' & Sb & T).
  assert (T' : touched addr pool p') by (apply T; intros tx E; eapply Kn; [by left|done]).
  split; [split; [done|apply T'|done]|]. split; [done|]. eapply known_of_sub; [done|]. intros x x0 Hx. apply Kn. by right.
Qed.

Lemma remove_all k pool addr txs : pool_ok k pool -> known_of pool addr txs ->
  runs (each (fun p t => removeTx config p (tx_Hash t)) txs pool) (fun p' => steady k pool p' /\ touched addr pool p').
Proof.
  intros Ok Kn. eapply runs_impl; [apply (each_runs _ (fun R p' => steady k pool p' /\ touched addr pool p' /\ known_of p' addr R))|].
  - intros t R p1 (S1 & T1 & K1). eapply runs_impl; [by apply (remove_one k p1 addr t R); [apply S1|]|]. cbn. intros p2 (S2 & T2 & K2).
    split; [by eapply steady_trans|]. split; [by eapply touched_trans|done].
  - split; [by apply steady_refl|]. by split.
  - cbn. by intros p' (? & ? & _).
Qed.

Lemma drop_last_ok k pool addr drop txs : pool_ok k pool -> known_of pool addr txs -> 0 <= drop <= Z.of_nat (length txs) ->
  runs (drop_last config pool drop txs) (fun r => steady k pool r.1 /\ r.2 = 0).
Proof.
  revert pool drop. induction txs as [|t txs IH]; intros pool drop Ok Kn Hd; cbn [drop_last length] in *.
  - apply runs_ret. split; [by apply steady_refl|]. cbn. lia.
  - destruct (Z.ltb_spec 0 drop) as [L|L]; [|apply runs_ret; split; [by apply steady_refl|cbn; lia]].
    eapply runs_bind; [by apply (remove_one k pool addr t txs)|]. cbn. intros p1 (S1 & T1 & K1).
    eapply runs_impl; [apply (IH p1 (drop - 1)); [apply S1|done|lia]|]. cbn. intros r [S2 E2]. split; [by eapply steady_trans|done].
Qed.

Lemma drop_loop_ok k pool drop rs : pool_ok k pool -> NoDup (map fst rs) -> (forall a, a ∈ map fst rs -> is_Some (queue pool !! a)) ->
  drop <= lens (queue pool) (map fst rs) -> runs (drop_loop config pool drop rs) (steady k pool).
Proof.
  revert pool drop. induction rs as [|[a x] rs IH]; intros pool drop Ok Nd Hq Hd; cbn [drop_loop map fst lens] in *.
  { rewrite (proj2 (Z.ltb_ge 0 drop)) by lia. by apply runs_ret, steady_refl. }
  destruct (0 <? drop) eqn:L; [|by apply runs_ret, steady_refl]. apply Z.ltb_lt in L. apply NoDup_cons in Nd as [Ha Nd].
  destruct (Hq a ltac:(by left)) as [l El]. rewrite El. destruct (sd_lists _ _ (po_sound _ _ Ok) false _ _ El) as [W Es].
  destruct (Flatten_list l W) as (c & l' & -> & W' & Es' & Et & Sc). rewrite Es in Es'.
  pose proof (same_list false k pool a l l' Ok El W' Es' Et) as S1. pose proof (flatten_known k pool false a l c (po_sound _ _ Ok) El Sc) as Kn.
  set (p1 := set_queue pool (<[a := l']> (queue pool))) in *. change (set_side false pool (<[a := l']> (side false pool))) with p1 in S1.
  assert (Hlen : len_at (queue pool) a = list_Len l) by (unfold len_at; by rewrite El).
  assert (Q1 : forall p' : Pool, touched a p1 p' -> forall b, b ∈ map fst rs -> queue pool !! b = queue p' !! b).
  { intros p' T b Hb. assert (b <> a) by (by intros ->). pose proof (tc_side _ _ _ T false b ltac:(done)) as E2. cbn in E2. by rewrite E2, lookup_insert_ne. }
  destruct (Z.leb_spec (Z.of_nat (list_Len l)) drop) as [L2|L2].
  - eapply runs_bind; [apply (remove_all k p1 a c); [apply S1|done]|]. cbn. intros p2 [S2 T2]. eapply runs_impl; [apply IH|].
    + apply S2.
    + done.
    + intros b Hb. rewrite <- (Q1 p2 T2 b Hb). apply Hq. by right.
    + rewrite <- (lens_ext (queue pool)) by (by apply Q1). lia.
    + intros p3 S3. eapply steady_trans, S3. by eapply steady_trans.
  - eapply runs_bind; [apply (drop_last_ok k p1 a drop (rev c)); [apply S1| |]|].
    + intros t t0 Ht. apply Kn. apply list_elem_of_In, in_rev. by apply list_elem_of_In in Ht.
    + rewrite length_rev, <- (list_Len_sorted l c W Sc). lia.
    + intros [p2 d2] [S2 E2]. cbn in S2, E2. subst d2. destruct rs as [|r rs]; cbn; apply runs_ret; by eapply steady_trans.
Qed.

Lemma limit_queue_ok k pool queued : pool_ok k pool -> queued <= lens (queue pool) (addrs (queue pool)) ->
  runs (limit_queue config pool queued) (steady k pool).
Proof.
  intros Ok Hq. unfold limit_queue. destruct (Z.ltb_spec maxQueuedInTotal queued) as [L|L]; [|by apply runs_ret, steady_refl].
  set (l := map _ _). assert (P : map fst (rev (by_heartbeat l)) ≡ₚ addrs (queue pool)).
  { rewrite (Permutation_map fst (Permutation_sym (Permutation_rev _))), by_heartbeat_perm. unfold l. by rewrite map_map, map_id. }
  apply drop_loop_ok; [done|rewrite P; apply addrs_nodup|intros a; rewrite P; apply addrs_keys|]. rewrite P. pose proof max_queued_nonneg. lia.
Qed.

(** ** Demoting *)

(** The pending transactions of an account can be executed on the state. *)
Definition executable (st : ST) (pool : Pool) addr : Prop := forall n t, of_account (pending pool) addr !! n = Some t ->
  ns_GetNonce st addr <= n /\ Cost t <= ns_GetBalance st addr.

Lemma demote_account_ok k st pool addr : pool_ok k pool ->
  runs (demote_account config st pool addr) (fun p' => steady k pool p' /\ touched addr pool p' /\ executable st p' addr).
Proof.
  intros [Sd F]. unfold demote_account. destruct (pending pool !! addr) as [l|] eqn:El.
  2: { apply runs_ret. split; [by apply steady_refl|]. split; [done|]. intros n t. unfold of_account. by rewrite El. }
  destruct (sd_lists _ _ Sd true _ _ El) as [W Es].
  destruct (Forward_takes l (ns_GetNonce st addr) W) as (R1 & l1 & -> & T1 & E1). cbn [obind]. rewrite forget_eq. cbn [obind].
  destruct (Filter_takes l1 (ns_GetBalance st addr) (tk_wf _ _ _ T1)) as (R2 & I & l2 & -> & T2 & _ & Cheap).
  rewrite forget_eq. cbn [obind all set_all]. rewrite without_app.
  destruct (taken true k pool addr l l2 (R1 ++ R2) I Sd El ltac:(rewrite <- app_assoc; by eapply takes_app)) as (S3 & F3 & Fs).
  assert (Ex : forall n t, txs_of l2 !! n = Some t -> ns_GetNonce st addr <= n /\ Cost t <= ns_GetBalance st addr).
  { intros n t E. split; [|by eapply Cheap]. pose proof (lookup_weaken _ _ _ _ E (tk_sub _ _ _ T2)) as E'. rewrite E1 in E'.
    apply keep_Some in E' as [_ L]. unfold from_ in L. lia. }
  set (p3 := set_pending _ _). change (set_all (set_side true pool _) _) with p3 in S3, F3.
  eapply runs_bind; [apply (enqueue_all k p3 addr I); [done|apply (F false)|done|done]|]. cbn. intros p4 (S4 & Fq4 & O4 & A4).
  assert (E4 : pending p4 = <[addr := l2]> (pending pool)) by apply (oq_pending _ _ _ O4).
  assert (T4 : touched addr pool p4).
  { eapply touched_trans; [|by apply only_queue_touched]. split; [|done]. intros [] a Ha; [cbn; by rewrite lookup_insert_ne|done]. }
  assert (A : all p4 ⊆ all pool) by (etrans; [done|apply without_sub]).
  apply runs_ret. rewrite list_Empty_spec. case_bool_decide as E0.
  - split; [split|split].
    + split; [apply sound_beats; apply (drop_empty true k p4 addr l2); [done|cbn; by rewrite E4, lookup_insert_eq|done]|].
      intros []; [|done]. cbn. rewrite E4, delete_insert_eq. apply filled_delete, (F true).
    + apply T4.
    + done.
    + split; [|apply T4]. intros [] a Ha; [cbn; rewrite lookup_delete_ne by done; exact (tc_side _ _ _ T4 true a Ha)|exact (tc_side _ _ _ T4 false a Ha)].
    + intros n t. cbn. rewrite of_account_delete, decide_True by done. done.
  - split; [split|split]; [|apply T4|done|done|].
    + split; [done|]. intros []; [|done]. cbn. rewrite E4. by apply filled_insert; [apply (F true)|].
    + intros n t. rewrite E4, of_account_insert, decide_True by done. apply Ex.
Qed.

Lemma demote_ok k env pool : pool_ok k pool ->
  runs (demoteUnexecutables config env pool) (fun p' => steady k pool p' /\ forall st, currentState env = Some st -> forall addr, executable st p' addr).
Proof.
  intros Ok. unfold demoteUnexecutables. destruct (currentState env) as [st|]; [|apply runs_ret; split; [by apply steady_refl|done]].
  set (K := addrs (pending pool)).
  eapply runs_impl; [apply (each_runs _ (fun R p' => steady k pool p' /\ (R ⊆ K) /\ (forall a, a ∉ K -> pending p' !! a = None) /\
    forall a, a ∈ K -> a ∉ R -> executable st p' a))|].
  - intros a R p1 (S1 & Sb & N1 & X1). eapply runs_impl; [by apply (demote_account_ok k st p1 a), S1|]. cbn. intros p2 (S2 & T2 & X2).
    assert (P2 : forall b, b <> a -> pending p2 !! b = pending p1 !! b) by (intros b Hb; by apply (tc_side _ _ _ T2 true)).
    assert (Ha : a ∈ K) by (apply Sb; by left). split; [by eapply steady_trans|]. split; [intros b Hb; apply Sb; by right|]. split.
    + intros b Hb. rewrite P2; [by apply N1|]. by intros ->.
    + intros b Hb Hn. destruct (decide (b = a)) as [->|Hne]; [done|]. unfold executable, of_account. rewrite P2 by done.
      apply X1; [done|]. by intros [->|]%elem_of_cons.
  - split; [by apply steady_refl|]. split; [done|]. split; [|done]. intros a Ha. apply eq_None_not_Some. by rewrite <- addrs_keys.
  - cbn. intros p' (S & _ & N & X). split; [done|]. intros st' [= <-] a. destruct (decide (a ∈ K)) as [Ha|Ha]; [apply X; [done|apply not_elem_of_nil]|].
    intros n t. unfold of_account. by rewrite (N a Ha).
Qed.

(** ** Resetting and promoting *)

Lemma steady_state k pool ms : pool_ok k pool -> steady k pool (set_pendingState pool (Some ms)).
Proof. intros [Sd F]. split; [|done|done]. split; [by apply sound_state|exact F]. Qed.

Lemma raise_nonce_ok k pool addr : pool_ok k pool -> pendingState pool <> None -> runs (raise_nonce pool addr) (fun p' => steady k pool p' /\ pendingState p' <> None).
Proof.
  intros Ok St. unfold raise_nonce. destruct (pending pool !! addr) as [l|] eqn:El; [|apply runs_ret; split; [by apply steady_refl|done]].
  destruct (sd_lists _ _ (po_sound _ _ Ok) true _ _ El) as [W Es]. destruct (Flatten_list l W) as (c & l' & -> & W' & Es' & Et & Sc). rewrite Es in Es'.
  pose proof (same_list true k pool addr l l' Ok El W' Es' Et) as S1. destruct (last c) as [t|] eqn:Ec.
  - unfold set_pending_nonce. cbn. destruct (pendingState pool) as [ms|]; [|done]. apply runs_ret. split; [|done]. eapply steady_trans; [done|]. by apply steady_state, S1.
  - apply last_None in Ec. subst c. exfalso. apply (po_filled _ _ Ok true addr l El). apply map_empty. intros n. apply eq_None_not_Some.
    intros [t E]. by apply (sorted_sub _ _ _ _ Sc (wf_nonces _ (proj1 W))), not_elem_of_nil in E.
Qed.

(** Promotion with a managed state in place; [reset] is not called. *)
Lemma promote_some k reset env pool : pool_ok k pool -> Z.of_nat k < 2 ^ 24 -> pendingState pool <> None ->
  runs (promote_with config reset env pool) (steady k pool).
Proof.
  intros Ok Hk St. unfold promote_with. destruct (pendingState pool) as [ms|] eqn:Ems; [|done]. cbn [obind].
  destruct (currentState env) as [st|]; [|by apply runs_ret, steady_refl].
  eapply runs_bind; [apply (promote_accounts_ok k reset env st pool Ok); by rewrite Ems|]. intros [queued p1] [[Ok1 St1 A1] Hq]. cbn in Ok1, St1, A1, Hq.
  eapply runs_bind; [by apply (limit_pending_ok k p1)|]. cbn. intros p2 [lv Lv]. pose proof (leveled_ok k p1 p2 lv Ok1 Lv) as Ok2.
  assert (E2 : queue p2 = queue p1 /\ all p2 = all p1 /\ pendingState p2 = pendingState p1) by (by rewrite (lvl_pool _ _ _ Lv)).
  destruct E2 as (Eq & Ea & Ep). eapply runs_impl; [apply (limit_queue_ok k p2 queued Ok2); rewrite Eq; lia|]. intros p3 [Ok3 St3 A3].
  split; [done|intros E%St3; by rewrite Ep in E|]. etrans; [done|]. by rewrite Ea.
Qed.

Lemma reset_ok k env pool fuel : pool_ok k pool -> Z.of_nat k < 2 ^ 24 ->
  runs (reset_with config (promote_fuel config (Datatypes.S fuel) env) env pool) (fun p' => steady k pool p' /\ (currentState env <> None -> pendingState p' <> None)).
Proof.
  intros Ok Hk. unfold reset_with. destruct (currentState env) as [st|]; [|apply runs_ret; split; [by apply steady_refl|done]].
  pose proof (steady_state k pool (ManageState st) Ok) as S0. set (p0 := set_pendingState _ _) in *.
  eapply runs_bind; [apply (demote_ok k env p0), S0|]. cbn. intros p1 [S1 _].
  assert (St1 : pendingState p1 <> None) by (intros E%(sy_state _ _ _ S1); done).
  eapply runs_bind; [apply (each_runs _ (fun _ p' => steady k p1 p' /\ pendingState p' <> None))|].
  - intros a R p2 [S2 St2]. eapply runs_impl; [by apply (raise_nonce_ok k p2 a), St2; apply S2|]. cbn. intros p3 [S3 St3]. split; [by eapply steady_trans|done].
  - split; [by apply steady_refl, S1|done].
  - cbn. intros p2 [S2 St2]. cbn [promote_fuel]. eapply runs_impl; [by apply (promote_some k _ env p2); [apply S2|..]|]. intros p3 S3.
    split; [|intros _ E%(sy_state _ _ _ S3); done]. eapply steady_trans, S3. eapply steady_trans, S2. by eapply steady_trans.
Qed.

Lemma promoteExecutables_ok k env pool : pool_ok k pool -> Z.of_nat k < 2 ^ 24 -> runs (promoteExecutables config env pool) (steady k pool).
Proof.
  intros Ok Hk. unfold promoteExecutables. change (promote_fuel config 2 env pool) with (promote_with config (reset_with config (promote_fuel config 1 env) env) env pool).
  destruct (pendingState pool) as [ms|] eqn:Ems; [apply promote_some; [done|done|by rewrite Ems]|].
  unfold promote_with. rewrite Ems. eapply runs_bind; [by apply (reset_ok k env pool 0)|]. cbn beta. intros p1 [S1 St1].
  destruct (currentState env) as [st|] eqn:Ec; [|by apply runs_ret]. specialize (St1 ltac:(done)).
  pose proof (promote_some k (reset_with config (promote_fuel config 1 env) env) env p1 (sy_ok _ _ _ S1) Hk St1) as Pr.
  unfold promote_with in Pr. rewrite Ec in Pr. destruct (pendingState p1) as [ms|]; [|done]. cbn [obind] in Pr.
  eapply runs_impl; [exact Pr|]. intros p2 S2. by eapply steady_trans.
Qed.

(** ** Adding *)

Lemma pool_ok_mono k k' pool : pool_ok k pool -> (k <= k')%nat -> pool_ok k' pool.
Proof. intros [[L S A P K T Z] F] Hk. split; [|done]. split; try done. lia. Qed.

Lemma validateTx_total env pool tx : exists o, validateTx config env pool tx = Ok o /\ (o = None -> exists from, sent tx from).
Proof.
  unfold validateTx. destruct (_ && _); [by eexists|]. destruct (currentState env) as [st|]; [|by eexists].
  destruct (sender_total tx) as [[from|] E]; rewrite E; cbn; [|by eexists]. eexists. split; [done|]. intros _. by exists from.
Qed.

Lemma pool_add_ok k env pool tx : pool_ok k pool -> 0 <= AccountNonce tx < 2 ^ 64 ->
  runs (pool_add config env pool tx) (fun r => pool_ok (S k) r.2 /\ pendingState r.2 = pendingState pool).
Proof.
  intros Ok Hn. unfold pool_add. assert (Ok' : pool_ok (S k) pool) by (eapply pool_ok_mono; [done|lia]).
  destruct (all pool !! tx_Hash tx) as [t|] eqn:Ea; [by apply runs_ret|].
  destruct (validateTx_total env pool tx) as (o & -> & Hs). cbn [obind]. destruct o as [e|]; [by apply runs_ret|].
  destruct (Hs eq_refl) as [from Hf]. destruct Ok as [Sd F].
  assert (Lo : loose pool from tx).
  { split; [done|done|by intros t; rewrite Ea|]. intros a L. by rewrite (sd_all _ _ Sd a tx L) in Ea. }
  eapply runs_bind; [apply (enqueueTx_ok k (S k) pool from tx []); [done|apply (F false)|done|lia|by right| |apply not_elem_of_nil]|].
  { split; [apply NoDup_nil_2|by intros t ?%not_elem_of_nil]. }
  cbn. intros p' (S' & Fq & _ & O & _). apply runs_ret. cbn. split; [|apply (oq_state _ _ _ O)]. split; [done|].
  intros []; [cbn; rewrite (oq_pending _ _ _ O); apply (F true)|done].
Qed.

Lemma add_all k env txs pool : pool_ok k pool -> Forall (fun t => 0 <= AccountNonce t < 2 ^ 64) txs ->
  runs (each (fun p t => let* (_, q) := pool_add config env p t in Ok q) txs pool) (pool_ok (k + length txs)).
Proof.
  intros Ok F. revert k pool Ok. induction F as [|t txs Ht F IH]; intros k pool Ok; cbn [each length].
  - apply runs_ret. by rewrite Nat.add_0_r.
  - eapply runs_bind; [eapply runs_bind; [by apply (pool_add_ok k)|]|].
    + intros [e p'] [Ok' _]. cbn in Ok'. by apply runs_ret.
    + intros p' Ok'. replace (k + S (length txs))%nat with (S k + length txs)%nat by lia. by apply IH.
Qed.

(** ** Operations *)

Inductive pool_op :=
| OpAdd (tx : Transaction) | OpAddBatch (txs : list Transaction) | OpRemove (hash : bytes) | OpRemoveBatch (txs : list Transaction)
| OpSetLocal (tx : Transaction) | OpContent | OpPending | OpEvent (ev : pool_event) | OpEvict.

Definition run_op (env : Env) (pool : Pool) (op : pool_op) : total Pool :=
  match op with
  | OpAdd t => let* (_, p) := pool_Add config env pool t in Ok p
  | OpAddBatch txs => AddBatch config env pool txs
  | OpRemove hash => removeTx config pool hash
  | OpRemoveBatch txs => RemoveBatch config pool txs
  | OpSetLocal t => Ok (SetLocal env pool t)
  | OpContent => Ok (Content pool).2
  | OpPending => let* (_, p) := Pending config env pool in Ok p
  | OpEvent ev => handle_event config env pool ev
  | OpEvict => evict config env pool
  end.

(** The transactions an operation may add. *)
Definition added (op : pool_op) : list Transaction :=
  match op with OpAdd t => [t] | OpAddBatch txs | OpEvent (RemovedTransactions txs) => txs | _ => [] end.

(** Nonces are machine words, and the table stays below 2^24 transactions, which
    a [float32] counts exactly. *)
Definition op_ok (pool : Pool) (op : pool_op) : Prop :=
  Forall (fun t => 0 <= AccountNonce t < 2 ^ 64) (added op) /\ Z.of_nat (size (all pool) + length (added op)) < 2 ^ 24.

(** A pool without inconsistencies. *)
Definition consistent (pool : Pool) : Prop := pool_ok (size (all pool)) pool.

Lemma pool_ok_consistent k pool : pool_ok k pool -> consistent pool.
Proof. intros [[L S A P K T Z] F]. split; [|done]. by split. Qed.

Lemma AddBatch_ok k env pool txs : pool_ok k pool -> Forall (fun t => 0 <= AccountNonce t < 2 ^ 64) txs -> Z.of_nat (k + length txs) < 2 ^ 24 ->
  runs (AddBatch config env pool txs) consistent.
Proof.
  intros Ok F Hk. eapply runs_bind; [by apply (add_all k)|]. cbn. intros p1 Ok1. eapply runs_impl; [by apply promoteExecutables_ok|].
  intros p2 S2. eapply pool_ok_consistent, S2.
Qed.

Lemma pool_Add_ok k env pool t : pool_ok k pool -> 0 <= AccountNonce t < 2 ^ 64 -> Z.of_nat (S k) < 2 ^ 24 ->
  runs (pool_Add config env pool t) (fun r => consistent r.2).
Proof.
  intros Ok Hn Hk. eapply runs_bind; [by apply (pool_add_ok k)|]. intros [[e|] p1] [Ok1 _]; cbn in Ok1; [apply runs_ret; by eapply pool_ok_consistent|].
  eapply runs_bind; [by apply (promoteExecutables_ok (S k))|]. intros p2 S2. apply runs_ret. eapply pool_ok_consistent, S2.
Qed.

(** Flattening all lists of a side. *)
Lemma flatten_side b k pool : pool_ok k pool -> pool_ok k (set_side b pool (flatten_all (side b pool)).2).
Proof.
  intros [Sd F]. set (m' := (flatten_all (side b pool)).2).
  assert (L : forall a l', m' !! a = Some l' -> exists l, side b pool !! a = Some l /\ list_wf l' /\ strict l' = b /\ txs_of l' = txs_of l).
  { intros a l'. unfold m', flatten_all. cbn [snd]. rewrite lookup_fmap. intros (l & El & ->)%fmap_Some.
    destruct (sd_lists _ _ Sd b a l El) as [W Es]. destruct (Flatten_list l W) as (c & l' & -> & W' & Es' & Et & _). exists l. cbn. split_and!; [done|done|congruence|done]. }
  assert (Sub : forall b' a n t, of_account (side b' (set_side b pool m')) a !! n = Some t -> of_account (side b' pool) a !! n = Some t).
  { intros b' a n t. rewrite side_set. case_bool_decide; [subst b'|done]. unfold of_account. destruct (m' !! a) as [l'|] eqn:E; [|done].
    destruct (L a l' E) as (l & -> & _ & _ & ->). done. }
  split.
  - apply (sound_sub k pool); [done| |done|by rewrite all_set| |].
    + intros b' a l'. rewrite side_set. case_bool_decide; [subst b'|by apply Sd]. intros E. by destruct (L a l' E) as (l & _ & ? & ? & _).
    + intros a t [b' Lt]. rewrite all_set. apply (sd_all _ _ Sd a). exists b'. by apply Sub.
    + rewrite state_set. intros P. apply (sd_state _ _ Sd). destruct b; [|done]. cbn in *. intros E. apply P. unfold m', flatten_all. cbn. by rewrite E, fmap_empty.
  - intros b'. rewrite side_set. case_bool_decide; [subst b'|apply F]. intros a l' E. destruct (L a l' E) as (l & El & _ & _ & ->). by apply (F b a).
Qed.

Lemma evict_ok k env pool : pool_ok k pool -> runs (evict config env pool) (steady k pool).
Proof.
  intros Ok. unfold evict. eapply runs_impl; [apply (each_runs _ (fun _ p' => steady k pool p'))|done]; [|by apply steady_refl].
  intros a R p1 S1. pose proof (sy_ok _ _ _ S1) as Ok1. unfold evict_account. destruct (queue p1 !! a) as [l|] eqn:El; [|by apply runs_ret].
  destruct (_ <? _); [|by apply runs_ret]. destruct (sd_lists _ _ (po_sound _ _ Ok1) false _ _ El) as [W Es].
  destruct (Flatten_list l W) as (c & l' & -> & W' & Es' & Et & Sc). rewrite Es in Es'.
  pose proof (same_list false k p1 a l l' Ok1 El W' Es' Et) as S2. pose proof (flatten_known k p1 false a l c (po_sound _ _ Ok1) El Sc) as Kn.
  eapply runs_impl; [apply (remove_all k _ a c); [apply S2|exact Kn]|]. cbn. intros p3 [S3 _]. eapply steady_trans, S3. by eapply steady_trans.
Qed.

Lemma Pending_ok k env pool : pool_ok k pool -> Z.of_nat k < 2 ^ 24 ->
  runs (Pending config env pool) (fun r => pool_ok k r.2 /\ exists p1, pool_ok k p1 /\ all r.2 = all p1 /\ r.1 = (flatten_all (pending p1)).1 /\
    forall st, currentState env = Some st -> forall addr, executable st p1 addr).
Proof.
  intros Ok Hk. unfold Pending. eapply runs_bind; [by apply (promoteExecutables_ok k)|]. intros p0 S0.
  eapply runs_bind; [apply (demote_ok k env p0), S0|]. cbn beta. intros p1 [S1 X1]. apply runs_ret. cbn [fst snd].
  split; [apply (flatten_side true k p1), S1|]. exists p1. split; [apply S1|]. done.
Qed.

Lemma pool_op_ok env pool op : consistent pool -> op_ok pool op -> runs (run_op env pool op) consistent.
Proof.
  intros Ok [Hn Hk]. unfold consistent in Ok. set (k := size (all pool)) in *. assert (Hk' : Z.of_nat k < 2 ^ 24) by lia.
  destruct op as [t|txs|h|txs|t| | |ev|]; cbn [run_op added length] in *.
  - apply Forall_cons in Hn as [Hn _]. eapply runs_bind; [apply (pool_Add_ok k); [exact Ok|exact Hn|lia]|]. intros [e p] Op. exact (runs_ret _ _ Op).
  - by apply (AddBatch_ok k).
  - eapply runs_impl; [by apply (removeTx_ok k)|]. cbn. intros p (Op & _). by eapply pool_ok_consistent.
  - unfold RemoveBatch. eapply runs_impl; [apply (each_runs _ (fun _ => pool_ok k)); [|done]|intros p; apply pool_ok_consistent].
    intros a R p Op. eapply runs_impl; [by apply (removeTx_ok k)|]. cbn. by intros p' (? & _).
  - apply runs_ret. destruct Ok as [[L S A P K T Z] F]. split; [by split|exact F].
  - apply runs_ret. apply (pool_ok_consistent k). apply (flatten_side false k), (flatten_side true k), Ok.
  - eapply runs_bind; [by apply (Pending_ok k)|]. intros [r p] [Op _]. cbn in Op. apply runs_ret. by eapply pool_ok_consistent.
  - destruct ev as [number|price|txs]; cbn [handle_event added] in *.
    + set (p0 := match number with Some _ => _ | None => _ end).
      assert (O0 : pool_ok k p0) by (unfold p0; destruct number; [destruct (IsHomestead _ _)|]; try done; destruct Ok as [[L S A P K T Z] F]; split; [by split|exact F]).
      eapply runs_impl; [by apply (reset_ok k env p0 0)|]. cbn. intros p [Sp _]. eapply pool_ok_consistent, Sp.
    + apply runs_ret. destruct Ok as [[L S A P K T Z] F]. split; [by split|exact F].
    + by apply (AddBatch_ok k).
  - eapply runs_impl; [by apply (evict_ok k)|]. intros p Sp. eapply pool_ok_consistent, Sp.
Qed.

(** The pools that operations lead to, in any environments. *)
Inductive reachable : Pool -> Prop :=
| reach_new : reachable NewTxPool
| reach_op env pool op p' : reachable pool -> op_ok pool op -> run_op env pool op = Ok p' -> reachable p'.

Lemma new_consistent : consistent NewTxPool.
Proof.
  split.
  - split; try done.
    + by intros [] a l.
    + by intros [] a t n.
    + by intros a t [[] L].
  - by intros [] a l.
Qed.

Lemma reachable_consistent pool : reachable pool -> consistent pool.
Proof. induction 1 as [|env pool op p' R IH O E]; [apply new_consistent|]. destruct (pool_op_ok env pool op IH O) as (r & Er & C). congruence. Qed.

(** ** Theorems *)

(** C22: the pool stays consistent and never panics.  In every pool that any
    sequence of operations leads to, whatever the chain, the clock and the map
    orders do: each list holds transactions of its account by nonce and is not
    empty, every listed transaction is found in the lookup table under its hash,
    no transaction is pending and queued at once, and the next operation
    terminates without a panic in such a pool.  The table holds fewer than 2^24
    transactions. *)
Theorem pool_never_panics pool env op : reachable pool -> op_ok pool op ->
  consistent pool /\ exists p', run_op env pool op = Ok p' /\ reachable p' /\ consistent p'.
Proof.
  intros R O. pose proof (reachable_consistent pool R) as C. split; [done|]. destruct (pool_op_ok env pool op C O) as (p' & E & C').
  exists p'. split; [done|]. split; [by eapply reach_op|done].
Qed.

(** C23: what the miner gets can be executed.  When the state is available,
    [Pending] returns for each account a list that is not empty and sorted by
    nonce; every transaction in it is one of the account, has a nonce the account
    has not used, is paid for by its balance, and is found in the pool. *)
Theorem Pending_executable pool env st : reachable pool -> Z.of_nat (size (all pool)) < 2 ^ 24 -> currentState env = Some st ->
  exists r p', Pending config env pool = Ok (r, p') /\ forall addr txs, r !! addr = Some txs ->
    txs <> [] /\ StronglySorted nonce_lt txs /\
    Forall (fun t => sent t addr /\ ns_GetNonce st addr <= AccountNonce t /\ Cost t <= ns_GetBalance st addr /\ pool_Get p' (tx_Hash t) = Some t) txs.
Proof.
  intros R Hk Es. destruct (Pending_ok _ env pool (reachable_consistent pool R) Hk) as ([r p'] & E & _ & p1 & [Sd F] & Ea & Er & X).
  cbn [fst snd] in *. exists r, p'. split; [done|]. intros addr txs. rewrite Er. unfold flatten_all. cbn [fst]. rewrite lookup_fmap.
  intros (l & El & ->)%fmap_Some. destruct (sd_lists _ _ Sd true addr l El) as [W _]. destruct (Flatten_list l W) as (c & l' & -> & _ & _ & _ & Sc).
  cbn [fst]. assert (Eo : of_account (side true p1) addr = txs_of l) by (unfold of_account; cbn; by rewrite El). split; [|split; [apply Sc|]].
  - intros ->. apply (F true addr l El), map_empty. intros n. apply eq_None_not_Some. intros [t Et].
    by apply (sorted_sub _ _ _ _ Sc (wf_nonces _ (proj1 W))), not_elem_of_nil in Et.
  - apply Forall_forall. intros t Ht. apply Sc in Ht. rewrite <- Eo in Ht. destruct (X st Es addr _ _ Ht) as [Hn Hc]. split_and!; [|done|done|].
    + by eapply (sd_sent _ _ Sd).
    + unfold pool_Get. rewrite Ea. apply (sd_all _ _ Sd addr). by exists true.
Qed.

(** The managed state is in place when the queue is promoted. *)
Definition managed env (pool : Pool) : total Pool :=
  match pendingState pool with None => resetState config env pool | Some _ => Ok pool end.

(** The stages of a promotion: the pending lists are cut after the transactions
    of the queue were added to them and before the queue is cut. *)
Lemma promote_stages k env st pool : pool_ok k pool -> Z.of_nat k < 2 ^ 24 -> currentState env = Some st ->
  exists q queued p1 p2 lv p',
    managed env pool = Ok q /\ promote_accounts (resetState config env) env st q = Ok (queued, p1) /\ pool_ok k p1 /\
    limit_pending p1 = Ok p2 /\ leveled p1 p2 lv /\ limit_queue config p2 queued = Ok p' /\ promoteExecutables config env pool = Ok p'.
Proof.
  intros Ok0 Hk Es.
  assert (M : runs (managed env pool) (fun q => pool_ok k q /\ pendingState q <> None)).
  { unfold managed. destruct (pendingState pool) as [ms|] eqn:Ems; [apply runs_ret; by rewrite Ems|].
    eapply runs_impl; [by apply (reset_ok k env pool 0)|]. intros q [Sq St]. split; [apply Sq|]. apply St. by rewrite Es. }
  destruct M as (q & Eq & Okq & Stq). destruct (promote_accounts_ok k (resetState config env) env st q Okq Stq) as ([queued p1] & E1 & [Ok1 _ _] & Hq).
  cbn in Ok1, Hq. destruct (limit_pending_ok k p1 Ok1 Hk) as (p2 & E2 & lv & Lv). pose proof (leveled_ok k p1 p2 lv Ok1 Lv) as Ok2.
  destruct (limit_queue_ok k p2 queued Ok2) as (p' & E3 & _). { rewrite (lvl_pool _ _ _ Lv). cbn [queue set_pending]. lia. }
  exists q, queued, p1, p2, lv, p'. do 6 (split; [done|]).
  change (promoteExecutables config env pool) with (let* pool := managed env pool in match currentState env with None => Ok pool | Some st =>
    let* (queued, pool) := promote_accounts (resetState config env) env st pool in let* pool := limit_pending pool in limit_queue config pool queued end).
  rewrite Eq. cbn [obind]. rewrite Es, E1. cbn [obind]. rewrite E2. exact E3.
Qed.

(** C24: the limit on pending transactions is fair.  Take any pool that operations
    lead to and add any batch of transactions to it: they are queued, the
    transactions that can be executed join the pending lists, which gives the pool
    [p1], and then the limit is applied to [p1].  There is a level, at least the
    number of slots each account is guaranteed, such that every account that has
    more pending transactions than that and is not taken for a local one keeps its
    first transactions up to the level, and every other account keeps all.  The
    result [p2] is within the limit unless the level is the guaranteed one, and
    one level more would have exceeded the limit, or cut nothing.  The lookup table
    is left as it was: it still has the transactions that were cut off.  What
    follows is the limit on the queue. *)
Theorem limit_pending_fair pool env st txs : reachable pool -> op_ok pool (OpAddBatch txs) -> currentState env = Some st ->
  exists p0 q queued p1 p2 lv p',
    each (fun p t => let* (_, p) := pool_add config env p t in Ok p) txs pool = Ok p0 /\ managed env p0 = Ok q /\
    promote_accounts (resetState config env) env st q = Ok (queued, p1) /\
    limit_pending p1 = Ok p2 /\ leveled p1 p2 lv /\ all p2 = all p1 /\
    limit_queue config p2 queued = Ok p' /\ AddBatch config env pool txs = Ok p'.
Proof.
  intros R [Hn Hk] Es. destruct (add_all _ env txs pool (reachable_consistent pool R) Hn) as (p0 & E0 & Ok0).
  destruct (promote_stages _ env st p0 Ok0 Hk Es) as (q & queued & p1 & p2 & lv & p' & Eq & E1 & _ & E2 & Lv & E3 & E4).
  exists p0, q, queued, p1, p2, lv, p'. do 5 (split; [done|]). split; [by rewrite (lvl_pool _ _ _ Lv)|]. split; [done|].
  unfold AddBatch. by rewrite E0.
Qed.

Lemma Remove_lowest l tx : list_wf l -> strict l = true -> txs_of l !! AccountNonce tx = Some tx ->
  (forall m t, txs_of l !! m = Some t -> AccountNonce tx <= m) ->
  exists invalids l', list_Remove l tx = (true, invalids, l') /\ list_Empty l' = true.
Proof.
  intros W Es Et Low. destruct (Remove_step l tx W) as (r & l' & E & _ & _ & S). cbn in E. destruct (list_Remove l tx) as [[found invalids] l1].
  injection E as <- <-. cbn in S. rewrite Et in S. destruct S as (-> & _ & E'). exists invalids, l1. split; [done|].
  rewrite list_Empty_spec, bool_decide_true; [done|]. rewrite E'. apply map_empty. intros m. apply lookup_delete_None.
  destruct (decide (AccountNonce tx = m)) as [|Hne]; [by left|right]. rewrite keep_lookup. destruct (txs_of l !! m) as [t|] eqn:Em; [|done].
  pose proof (Low m t Em). rewrite Es. cbn [andb]. by rewrite (proj2 (Z.ltb_lt _ _)) by lia.
Qed.

(** Without the pending list of its account, a pending transaction is on no list. *)
Lemma unlisted k pool (p' : Pool) addr t : sound k pool -> listed (pending pool) addr t -> pending p' = delete addr (pending pool) ->
  of_account (queue p') addr ⊆ of_account (queue pool) addr -> (forall a, a <> addr -> queue p' !! a = queue pool !! a) ->
  forall a, ~ on_list p' a t.
Proof.
  intros Sd Lt Ep Sb Q a [b L]. pose proof (sd_sent _ _ Sd true _ _ _ Lt) as Hs. unfold listed in L. destruct b; cbn [side] in L.
  - rewrite Ep, of_account_delete in L. case_decide as D; [done|]. apply D. by eapply sent_fun; [eapply (sd_sent _ _ Sd true)|].
  - destruct (decide (a = addr)) as [->|D]; [apply (sd_apart _ _ Sd addr t); [done|]; by eapply lookup_weaken|].
    apply D. eapply sent_fun; [|done]. eapply (sd_sent _ _ Sd false). unfold of_account in *. cbn [side]. rewrite <- (Q a D). exact L.
Qed.

(** C37: removing the first pending transaction of an account loses the others.
    They are on no list any more, so they are neither mined nor queued, but they
    stay in the lookup table, so adding one of them again is refused as known. *)
Theorem removeTx_loses_followers pool addr tx t : reachable pool ->
  of_account (pending pool) addr !! AccountNonce tx = Some tx ->
  (forall m x, of_account (pending pool) addr !! m = Some x -> AccountNonce tx <= m) ->
  of_account (pending pool) addr !! AccountNonce t = Some t -> t <> tx ->
  exists p', removeTx config pool (tx_Hash tx) = Ok p' /\ (forall a, ~ on_list p' a t) /\
    pool_Get p' (tx_Hash t) = Some t /\ forall env, pool_add config env p' t = Ok (Some ErrKnown, p').
Proof.
  intros R Etx Low Et Hne. pose proof (reachable_consistent pool R) as [Sd F]. pose proof (sd_sent _ _ Sd true _ _ _ Etx) as Hs.
  assert (Lt : on_list pool addr t) by (by exists true). assert (Lx : on_list pool addr tx) by (by exists true).
  assert (Hh : tx_Hash t <> tx_Hash tx) by (intros E; by destruct (listed_inj _ _ _ _ _ _ Sd Lt Lx E)). pose proof (sd_all _ _ Sd _ _ Lt) as At.
  assert (Ex : exists l, pending pool !! addr = Some l /\ of_account (pending pool) addr = txs_of l)
    by (unfold of_account in *; destruct (pending pool !! addr) as [l|]; [by exists l|done]).
  destruct Ex as (l & El & Eo). destruct (sd_lists _ _ Sd true addr l El) as [W Es]. rewrite Eo in Etx, Low.
  destruct (Remove_lowest l tx W Es Etx Low) as (invalids & l' & Er & E0).
  assert (Fin : forall p' : Pool, all p' = delete (tx_Hash tx) (all pool) -> (forall a, ~ on_list p' a t) -> (forall a, ~ on_list p' a t) /\
    pool_Get p' (tx_Hash t) = Some t /\ forall env, pool_add config env p' t = Ok (Some ErrKnown, p')).
  { intros p' Ea Un. assert (E : all p' !! tx_Hash t = Some t) by (by rewrite Ea, lookup_delete_ne). split; [done|]. split; [done|].
    intros env. unfold pool_add. by rewrite E. }
  rewrite removeTx_eq, (sd_all _ _ Sd _ _ Lx), (sent_or_zero _ _ Hs). cbn [obind]. unfold remove_pending. cbn [pending del set_all]. rewrite El, Er, E0. cbn [obind].
  set (g := set_beats _ _). eapply runs_bind with (P := fun p => exists ms, p = set_pendingState g (Some ms)).
  { apply nonce_runs; [|intros ms; by exists ms]. apply (sd_state _ _ Sd). intros E. by rewrite E in El. }
  assert (Eg : pending g = delete addr (pending pool)) by (unfold g; cbn; by rewrite delete_insert_eq).
  cbn beta. intros p [ms ->]. change (queue (set_pendingState g (Some ms))) with (queue pool). destruct (queue pool !! addr) as [q|] eqn:Eq.
  - destruct (sd_lists _ _ Sd false addr q Eq) as [Wq _]. destruct (Remove_removal q tx Wq) as (fq & iq & q' & -> & Rm & _). apply runs_ret, Fin; [done|].
    apply (unlisted _ pool _ addr t Sd Et); cbn; [done| |].
    + unfold of_account at 2. rewrite Eq. destruct (list_Empty q'); rewrite ?of_account_delete, ?of_account_insert, decide_True by done; [apply map_empty_subseteq|].
      apply (rm_takes _ _ _ _ Rm).
    + intros a Ha. destruct (list_Empty q'); by rewrite ?lookup_delete_ne, ?lookup_insert_ne.
  - apply runs_ret, Fin; [done|]. by apply (unlisted _ pool _ addr t Sd Et).
Qed.

(** A replacement sets the next nonce of its account to its own, plus one, even
    when later nonces are pending. *)
Lemma promoteTx_rewinds_nonce `{!NonceStateLaws ST} k reset env pool addr tx ms o :
  sound k pool -> pendingState pool = Some ms -> ms_ok ms -> 0 <= AccountNonce tx < 2 ^ 64 - 1 ->
  of_account (pending pool) addr !! AccountNonce tx = Some o -> Price o < Price tx ->
  exists p' ms', promoteTx reset env pool addr (tx_Hash tx) tx = Ok p' /\ pendingState p' = Some ms' /\
    next_nonce ms' addr = AccountNonce tx + 1 /\
    forall n, n <> AccountNonce tx -> of_account (pending p') addr !! n = of_account (pending pool) addr !! n.
Proof.
  intros Sd Ems Mo Hn Eo Hp. unfold promoteTx. rewrite Ems. cbn [obind].
  change (default (newTxList true) (pending pool !! addr)) with (list_at true pool addr).
  destruct (list_at_ok k pool true addr Sd) as (W & Es & Et).
  destruct (Add_cases _ tx W ltac:(lia)) as [(-> & o' & Eo' & Hp')|(l' & -> & W' & Es' & Et')]; cbn [negb].
  { rewrite Et in Eo'. cbn in Eo'. rewrite Eo in Eo'. injection Eo' as <-. lia. }
  unfold set_pending_nonce. cbn [pendingState set_beats set_all set_pending]. rewrite Ems. eexists _, _. split; [done|]. split; [done|].
  rewrite u64_small by lia. split; [by rewrite (proj2 (SetNonce_ok ms addr (AccountNonce tx + 1) Mo ltac:(lia))), decide_True|].
  intros n Hne. cbn. rewrite of_account_insert, decide_True, Et', lookup_insert_ne, Et by done. done.
Qed.
End Pool.

(** ** Witnesses *)

#[local] Existing Instances keccak_hash one_key default_limits.

Definition beat_le (a b : bytes * Z) : Prop := a.2 <= b.2.
#[local] Instance beat_le_dec : RelDecision beat_le := fun a b => decide (a.2 <= b.2).
#[local] Instance beat_le_total : Total beat_le.
Proof. intros a b. unfold beat_le. lia. Qed.

#[local] Instance some_order : PoolOrder := {|
  addrs m := (map_to_list m).*1;
  addrs_perm m := Permutation_refl _;
  by_heartbeat := merge_sort beat_le;
  by_heartbeat_perm := merge_sort_Permutation beat_le;
  by_heartbeat_sorted := Sorted_merge_sort beat_le
|}.

#[local] Instance nonces0 : NonceState astate := astate_nonces 0.

Definition config0 : ChainConfig :=
  {| ChainId := 1; HomesteadBlock := Some 0; DAOForkBlock := None; DAOForkSupport := false; SiotImpr0Block := None; SiotImpr0Hash := zeros 32;
     SiotImpr1Block := Some 0; SiotImpr2Block := None |}.

Definition payer : bytes := Eval vm_compute in key_address 7.
Definition state0 : astate := upd (mkAstate (fun _ => None) 0 ∅) payer (Some (with_balance (fresh_acct 0 0) 1000000)).
Definition env0 : Env (ST := astate) := mkEnv (Some state0) 4000000 0.
Definition tx_no (nonce : Z) : Transaction := mkTx nonce 1 21000 (Some (zeros 20)) 5 [] 37 1 1.

Definition pool2 : TxPool (ST := astate) :=
  match run_op config0 env0 NewTxPool (OpAddBatch [tx_no 0; tx_no 1]) with Ok p => p | _ => NewTxPool end.

Lemma pool2_ran : run_op config0 env0 NewTxPool (OpAddBatch [tx_no 0; tx_no 1]) = Ok pool2.
Proof.
  unfold pool2. destruct (pool_op_ok config0 env0 NewTxPool (OpAddBatch [tx_no 0; tx_no 1]) (new_consistent config0)) as (p & -> & _); [|done].
  split; [|by vm_compute]. repeat (constructor; [cbn; lia|]). constructor.
Qed.

Lemma pool2_reachable : reachable config0 pool2.
Proof.
  apply (reach_op config0 env0 NewTxPool (OpAddBatch [tx_no 0; tx_no 1])); [constructor| |apply pool2_ran].
  split; [|by vm_compute]. repeat (constructor; [cbn; lia|]). constructor.
Qed.

Lemma pool2_pending : of_account (pending pool2) payer = {[0 := tx_no 0; 1 := tx_no 1]} /\ size (all pool2) = 2%nat.
Proof. vm_compute. split; reflexivity. Qed.

Lemma pool_never_panics_witness : exists p', run_op config0 env0 pool2 (OpAdd (tx_no 2)) = Ok p' /\ reachable config0 p' /\ consistent config0 p'.
Proof.
  refine (proj2 (pool_never_panics config0 pool2 env0 (OpAdd (tx_no 2)) pool2_reachable _)).
  split; [constructor; [cbn; lia|constructor]|]. rewrite (proj2 pool2_pending). by vm_compute.
Defined.

Lemma Pending_executable_witness : exists r p', Pending config0 env0 pool2 = Ok (r, p') /\ forall addr txs, r !! addr = Some txs ->
  txs <> [] /\ StronglySorted nonce_lt txs /\
  Forall (fun t => sent config0 t addr /\ ns_GetNonce state0 addr <= AccountNonce t /\ Cost t <= ns_GetBalance state0 addr /\ pool_Get p' (tx_Hash t) = Some t) txs.
Proof.
  apply (Pending_executable config0 pool2 env0 state0); [apply pool2_reachable| |reflexivity]. rewrite (proj2 pool2_pending). by vm_compute.
Defined.

Lemma removeTx_loses_followers_witness : exists p', removeTx config0 pool2 (tx_Hash (tx_no 0)) = Ok p' /\ (forall a, ~ on_list p' a (tx_no 1)) /\
  pool_Get p' (tx_Hash (tx_no 1)) = Some (tx_no 1) /\ forall env, pool_add config0 env p' (tx_no 1) = Ok (Some ErrKnown, p').
Proof.
  apply (removeTx_loses_followers config0 pool2 payer (tx_no 0) (tx_no 1) pool2_reachable).
  - rewrite (proj1 pool2_pending). reflexivity.
  - intros m x. rewrite (proj1 pool2_pending). intros [[<- _]|[_ [<- _]%lookup_singleton_Some]]%lookup_insert_Some; cbn; lia.
  - rewrite (proj1 pool2_pending). reflexivity.
  - discriminate.
Defined.

(** Limits that are small enough for a cut: one account has two transactions, and
    the third one exceeds them. *)
Definition tight : PoolLimits := {|
  minPendingPerAccount := 1; maxPendingTotal := 2; maxQueuedPerAccount := 64; maxQueuedInTotal := 1024;
  min_pending_pos := ltac:(lia); max_pending_nonneg := ltac:(lia); max_account_nonneg := ltac:(lia); max_queued_nonneg := ltac:(lia)
|}.

Definition tight2 : TxPool (ST := astate) :=
  match run_op (H3 := tight) config0 env0 NewTxPool (OpAddBatch [tx_no 0; tx_no 1]) with Ok p => p | _ => NewTxPool end.

Lemma tight2_reachable : reachable (H3 := tight) config0 tight2 /\ size (all tight2) = 2%nat.
Proof.
  assert (O : op_ok (ST := astate) NewTxPool (OpAddBatch [tx_no 0; tx_no 1])) by (split; [|by vm_compute]; repeat (constructor; [cbn; lia|]); constructor).
  split; [|by vm_compute]. apply (reach_op (H3 := tight) config0 env0 NewTxPool (OpAddBatch [tx_no 0; tx_no 1])); [constructor|exact O|].
  unfold tight2. destruct (pool_op_ok (H3 := tight) config0 env0 NewTxPool (OpAddBatch [tx_no 0; tx_no 1]) (new_consistent config0) O) as (p & -> & _). done.
Qed.

Lemma stages_run {A B C D E} (m : total A) (f : A -> total B) (g : B -> total (Z * C)) (h : C -> total D) (k : C -> D -> E) a b z c d :
  m = Ok a -> f a = Ok b -> g b = Ok (z, c) -> h c = Ok d ->
  (let* a := m in let* b := f a in let* (_, c) := g b in let* d := h c in Ok (k c d)) = @Ok Empty_set E (k c d).
Proof. intros -> E1 E2 E3. cbn [obind]. rewrite E1. cbn [obind]. rewrite E2. cbn [obind]. by rewrite E3. Qed.

Lemma limit_pending_fair_witness :
  exists (p1 p2 : TxPool (ST := astate)) lv p', limit_pending (H3 := tight) p1 = Ok p2 /\ leveled (H3 := tight) p1 p2 lv /\ all p2 = all p1 /\
    len_at (pending p1) payer = 3%nat /\ len_at (pending p2) payer = 2%nat /\
    AddBatch (H3 := tight) config0 env0 tight2 [tx_no 2] = Ok p'.
Proof.
  destruct (limit_pending_fair (H3 := tight) config0 tight2 env0 state0 [tx_no 2] (proj1 tight2_reachable))
    as (p0 & q & queued & p1 & p2 & lv & p' & E0 & Eq & E1 & E2 & Lv & Ea & _ & E4).
  - split; [constructor; [cbn; lia|constructor]|]. rewrite (proj2 tight2_reachable). by vm_compute.
  - reflexivity.
  - pose proof (stages_run _ _ _ _ (fun p1 p2 => (len_at (pending p1) payer, len_at (pending p2) payer)) _ _ _ _ _ E0 Eq E1 E2) as S.
    match type of S with ?x = _ => assert (V : x = Ok (3%nat, 2%nat)) by (vm_compute; reflexivity) end.
    injection (eq_trans (eq_sym S) V) as S1 S2. exists p1, p2, lv, p'.
    exact (conj E2 (conj Lv (conj Ea (conj S1 (conj S2 E4))))).
Defined.
